(* ===== verification/_CoqProject ===== *)
-Q . S2P
Prelude.v
Coding.v
Varint.v
Comparator.v
Format.v
Storage.v
Record.v
Iterator.v
Block.v
Concat.v
Filter.v
Table.v
TableFacts.v
TableBuild.v
TableRead.v
SkipList.v
SkipListFacts.v
OldSkipList.v
OldSkipListFacts.v
MemTable.v
Batch.v
VersionEdit.v
Version.v
LevelIter.v
VersionGet.v
VersionBuild.v
KMerge.v
DbIter.v
Lru.v
Sharded.v
Snapshot.v
Compaction.v
CompactPick.v
DbWrite.v
Flush.v
Recovery.v
Manifest.v
Filename.v
TableCache.v
MemFs.v
Db.v
Scan.v
Sampling.v
Background.v
DbFacts.v
DbScan.v
DbErrors.v
OpenDb.v
Reopen.v
Durable.v
Crash.v
Lifecycle.v
Options.v
