(* ===== verification/Prelude.v ===== *)
(** * caskdb (the [wickdb] crate): a verification library

    caskdb is a LevelDB-style key-value store in Rust.  A write is grouped with its
    neighbours into a batch, appended to a write-ahead log and applied to a memtable; a
    full memtable is rotated and flushed to a sorted table; tables lie on levels that
    compactions merge; a manifest logs the changes of the set of tables.  A read asks the
    memtable, the immutable memtable and then the tables of the current version.

    ** Conventions

    A Rust function is a Rocq function of the same name where the name is free.  The
    result is an [outcome]: [Ok] and [Err] are those of [Result], [Panic] is a panic
    (an assertion, an index out of range, [unwrap] of [None], an overflow of checked
    arithmetic, and the undefined behaviour of raw pointers), [OutOfFuel] the end of the
    fuel of a loop.  A [&mut self] method returns the new state with its result, also on
    errors.  Integers are [Z] with their width in the operations ([uadd], [usub],
    [umul]); the flag [ck] says whether overflow checks are on (a debug build) or
    arithmetic wraps around (a release build), and theorems hold for both unless they
    say otherwise.  Bytes are [Z], byte strings are lists.

    Where a component only calls another one it is proved against an interface, a class
    of operations with a class of laws: [Comparator]/[ComparatorOrder], [File]/[FileLaws],
    [Iterator]/[FwdLaws]/[BwdLaws], [FilterPolicy], [TableSink]/[TableSinkLaws],
    [TableSource]/[TableSourceLaws].  The implementations are instances.  Other crates are
    parameters with what is documented of them: [crc32fast] ([Crc32], [Crc32Laws], with a
    bitwise instance in [IeeeCrc]), [snap], the hash of the standard library, the random
    heights of skip list nodes, the iteration order of a hash set.

    ** Files of this library and what they model (paths below [src/src])

    - [Prelude]: [outcome] and its monad, machine integers, list lemmas, tactics
      ([error.rs]).
    - [Coding], [Varint]: [util/coding.rs], [util/crc32.rs], [util/hash.rs],
      [util/varint.rs].
    - [Comparator], [Format]: [util/comparator.rs]; keys of [db/format.rs].
    - [Storage], [MemFs], [Filename]: the [File] trait and in-memory files with fault
      injection, the in-memory file system ([storage/mod.rs], [storage/mem.rs]), names of
      files and [update_current] ([db/filename.rs]).
    - [Record]: writer and reader of logs ([record/]), [util/reporter.rs].
    - [Iterator], [Concat], [KMerge]: [iterator.rs], with the cores of the merging
      iterator in [db/iterator.rs] and [version/version_set.rs].
    - [Block], [Filter], [Table], [TableFacts], [TableBuild], [TableRead]: [sstable/],
      [filter/], the internal filter policy of [db/format.rs].
    - [SkipList], [SkipListFacts], [MemTable]: [mem/arena.rs] (OffsetArena),
      [mem/inlineskiplist.rs], [mem/mod.rs].
    - [OldSkipList], [OldSkipListFacts]: the trait [Arena] with its laws, BlockArena, and
      the earlier skip list of [mem/skiplist.rs], which is generic in its arena.
    - [Batch], [DbWrite]: [batch.rs] and the queue of writers of [db/mod.rs].
    - [VersionEdit], [Version], [LevelIter], [VersionGet], [VersionBuild], [Manifest]:
      [version/version_edit.rs], [version/mod.rs], [version/version_set.rs].
    - [Compaction], [CompactPick]: [compaction.rs], the choice of inputs of
      [version/version_set.rs], the merge of [db/mod.rs].
    - [Flush], [Recovery]: [build_table], [write_level0_files], [replay_log_file].
    - [DbIter]: the iterator of the database ([db/iterator.rs]).
    - [Lru], [Sharded]: [cache/].  [Snapshot]: [snapshot.rs].
    - [Options]: [options.rs] and the scores of [Version::finalize], with the specification
      floats of the Standard Library.
    - [Background]: a turn of the compaction thread of [db/mod.rs].
    - [TableCache]: the trait [Cache] with its laws, the block cache of
      [sstable/table.rs] and [table_cache.rs]; [Scan] and [DbScan]: the merged
      iterators of [version_set.rs], [compaction.rs] and [db/mod.rs], and what they
      yield; [Sampling]: read samples and approximate sizes.
    - [OpenDb]: [open_db], [recover] and [create_new_db] of [db/mod.rs]; [Reopen]: opening
      what a crash left; [Durable]: while the database runs, its manifest describes its
      version set and its logs hold what is in no table; [Crash]: so it outlives any
      number of crashes.
    - [Lifecycle]: the list of versions with the readers that hold them, read samples of
      iterators, closing and destroying a database, forced and manual compactions.
    - [Db]: the state of [DBImpl] ([db/mod.rs]) and [get], [make_room_for_write],
      [compact_mem_table], [delete_obsolete_files], [maybe_schedule_compaction] and a
      round of the writing thread; [DbFacts], [DbErrors]: what holds of them.

    ** What the theorems show

    - Round trips: integers, keys, file names, write batches, version edits, blocks,
      tables, logs and manifests are read back as they were written; logs and manifests
      also when their tail is cut off.
    - Reading: memtables, tables, levels and versions answer a lookup with the newest
      record that the reader may see; iterators walk exactly over the sorted entries and
      seek to the first entry not below the target.
    - The database as a whole ([DbFacts], [DbScan], [OpenDb]): its reachable states refine
      the history of the records written, for lookups ([db_reads_history]) and for scans
      ([scan_reads_history]); a new directory opens to such a database.
    - The caches of tables and blocks change no answer ([caches_transparent]).
    - Structural invariants: levels stay sorted and disjoint when edits are applied, a
      memtable is flushed to a level where nothing overlaps it, compactions take in whole
      user keys and preserve every read that a snapshot may still make.
    - Recovery: replaying a log that a crash has cut gives the complete groups of writes;
      a database that is opened, used and killed any number of times answers, after each
      opening, from the writes that were committed and survived in the logs
      ([Crash.database_outlives_crashes], on the invariant [Durable.durable]).
    - Closing: reads and writes are refused afterwards, and who is answered ([Lifecycle]).
    - Termination of the reader, the decoder and the loops of compactions; bounds of the
      cache; what happens on errors of the log ([DbErrors]).
    - Examples that show the behaviour of the code where it differs from what its comments
      say or from what the database needs, e.g. [VersionGet.version_get_stale],
      [DbWrite.group_batches_drops_task], [Recovery.reused_log_loses_record],
      [Crash.early_log_number], [Lifecycle.close_forgets_late].

    ** Fuel

    A loop that is not structurally recursive takes fuel, and a lemma says how much is
    enough: the length of the input for decoders ([read_record_terminates]), the number of
    entries for merges ([compaction_preserves_reads]), the number of files for the growth
    of compaction inputs, the height of the tower plus the nodes for the skip list.  The
    theorems state that the result is [Ok] with that fuel, not only what holds if it is.

    ** Not modelled

    Threads are modelled by the rounds of their loops and locks by the atomicity of the
    operations; interleavings inside an operation are not modelled.  [storage/file.rs]
    passes calls to [std::fs].  [logger.rs] and the log messages have no effect on the data.
    The database reads tables through the interfaces [TableSink], [TableSource] and
    [TableScan]; [TableCache.caches_transparent] shows that the caches behind them do not
    change the answers. *)
From stdpp Require Export prelude strings.
From Stdlib Require Export ZArith Lia.

(** The hint database of the machine-integer ranges. *)
Create HintDb uint.

(** ** Errors and outcomes *)

(** [std::io::ErrorKind]: the kinds the crate creates or inspects. *)
Inductive ErrorKind : Type :=
| KNotFound | KAlreadyExists | KInvalidInput | KUnexpectedEof | KInterrupted | KOther.

#[export] Instance ErrorKind_eq_dec : EqDecision ErrorKind.
Proof. solve_decision. Defined.

(** [src/error.rs]: the error type of the crate.  Of the payloads that come from
    other crates ([FromUtf8Error], [snap::Error], [io::Error], [RecvError]) the
    code inspects only the kind of an [io::Error]; the rest is dropped. *)
Inductive error : Type :=
| NotFound (hint : option string)
| Corruption (hint : string)
| UTF8Error
| InvalidArgument (hint : string)
| DBClosed (hint : string)
| CompressionFailed
| IO (kind : ErrorKind)
| RecvError
| Customized (hint : string).

#[export] Instance error_eq_dec : EqDecision error.
Proof. solve_decision. Defined.

(** The outcome of running a piece of Rust code: a value, the [Err] branch of
    a [Result], a panic ([assert!], slice index out of range, arithmetic
    overflow when overflow checks are on), or, for the loops that are modelled
    with fuel, fuel exhaustion. *)
Inductive outcome (A : Type) : Type :=
| Ok (x : A)
| Err (e : error)
| Panic
| OutOfFuel.
Arguments Ok {A} x.
Arguments Err {A} e.
Arguments Panic {A}.
Arguments OutOfFuel {A}.

#[export] Instance outcome_eq_dec {A} `{EqDecision A} : EqDecision (outcome A).
Proof. solve_decision. Defined.

#[export] Instance outcome_ret : MRet outcome := @Ok.
#[export] Instance outcome_bind : MBind outcome := λ A B f m,
  match m with
  | Ok x => f x
  | Err e => Err e
  | Panic => Panic
  | OutOfFuel => OutOfFuel
  end.
#[export] Instance outcome_fmap : FMap outcome := λ A B f m,
  match m with
  | Ok x => Ok (f x)
  | Err e => Err e
  | Panic => Panic
  | OutOfFuel => OutOfFuel
  end.

(** [assert!(b)] *)
Definition rust_assert (b : bool) : outcome unit := if b then Ok tt else Panic.

Lemma Ok_bind {A B} (x : A) (f : A → outcome B) : (Ok x ≫= f) = f x.
Proof. done. Qed.

Lemma bind_Ok {A B} (f : A → outcome B) (m : outcome A) (y : B) :
  (m ≫= f) = Ok y ↔ ∃ x, m = Ok x ∧ f x = Ok y.
Proof. destruct m; naive_solver. Qed.

Lemma bind_assoc {A B C} (f : A → outcome B) (g : B → outcome C) (m : outcome A) :
  ((m ≫= f) ≫= g) = (m ≫= λ x, f x ≫= g).
Proof. by destruct m. Qed.

Lemma assert_true b : b = true → rust_assert b = Ok tt.
Proof. by intros ->. Qed.

(** ** A state monad with outcomes

    [&mut self] methods that use [?]: the state is kept when a step fails. *)
Definition st (S A : Type) : Type := S → outcome A * S.

#[export] Instance st_ret {S} : MRet (st S) := λ A x s, (Ok x, s).
#[export] Instance st_bind {S} : MBind (st S) := λ A B f m s,
  match m s with
  | (Ok x, s) => f x s
  | (Err e, s) => (Err e, s)
  | (Panic, s) => (Panic, s)
  | (OutOfFuel, s) => (OutOfFuel, s)
  end.
Definition lift {S A} (o : outcome A) : st S A := λ s, (o, s).
Definition gets {S A} (f : S → A) : st S A := λ s, (Ok (f s), s).
Definition modify {S} (f : S → S) : st S unit := λ s, (Ok tt, f s).

Lemma st_bind_Ok {S A B} (f : A → st S B) (m : st S A) s x s' :
  m s = (Ok x, s') → (m ≫= f) s = f x s'.
Proof. intros H. unfold mbind, st_bind. by rewrite H. Qed.
Lemma gets_bind {S A B} (g : S → A) (f : A → st S B) s : (gets g ≫= f) s = f (g s) s.
Proof. done. Qed.
Lemma modify_bind {S B} (g : S → S) (f : unit → st S B) s : (modify g ≫= f) s = f tt (g s).
Proof. done. Qed.
Lemma lift_Ok_bind {S A B} (x : A) (f : A → st S B) s : (lift (Ok x) ≫= f) s = f x s.
Proof. done. Qed.

(** ** Bytes and machine integers *)

Notation byte := Z (only parsing).
Notation bytes := (list Z).

Definition is_byte (b : Z) : Prop := (0 ≤ b < 256)%Z.
Definition bytes_ok (l : bytes) : Prop := Forall is_byte l.

#[export] Instance is_byte_dec b : Decision (is_byte b).
Proof. unfold is_byte. apply _. Defined.
#[export] Instance bytes_ok_dec l : Decision (bytes_ok l).
Proof. unfold bytes_ok. apply _. Defined.

(** The [w]-bit unsigned range, and truncation to [w] bits ([x as uW]). *)
Definition in_uint (w n : Z) : Prop := (0 ≤ n < 2 ^ w)%Z.
Definition wrap (w n : Z) : Z := (n mod 2 ^ w)%Z.

#[export] Instance in_uint_dec w n : Decision (in_uint w n).
Proof. unfold in_uint. apply _. Defined.

(** [a + b] and [a - b] at width [w]; [ck] says whether the build has overflow
    checks (debug: panic; release: wrap around). *)
Definition uadd (ck : bool) (w a b : Z) : outcome Z :=
  if (a + b <? 2 ^ w)%Z then Ok (a + b)%Z
  else if ck then Panic else Ok (wrap w (a + b)).
Definition usub (ck : bool) (w a b : Z) : outcome Z :=
  if (b <=? a)%Z then Ok (a - b)%Z
  else if ck then Panic else Ok (wrap w (a - b)).

Lemma wrap_small w n : in_uint w n → wrap w n = n.
Proof. apply Z.mod_small. Qed.

Lemma wrap_range w n : (0 ≤ w)%Z → in_uint w (wrap w n).
Proof. intros. apply Z.mod_pos_bound. lia. Qed.

(** The length of a slice as a machine integer. *)
Definition len {A} (l : list A) : Z := Z.of_nat (length l).

Lemma len_nil {A} : len (@nil A) = 0%Z.
Proof. done. Qed.
Lemma len_cons {A} (x : A) l : len (x :: l) = (1 + len l)%Z.
Proof. unfold len. simpl. lia. Qed.
Lemma len_app {A} (l k : list A) : len (l ++ k) = (len l + len k)%Z.
Proof. unfold len. rewrite length_app. lia. Qed.
Lemma len_nonneg {A} (l : list A) : (0 ≤ len l)%Z.
Proof. unfold len. lia. Qed.
Lemma len_take {A} n (l : list A) : len (take n l) = (Z.of_nat n `min` len l)%Z.
Proof. unfold len. rewrite length_take. lia. Qed.
Lemma len_drop {A} n (l : list A) : len (drop n l) = (0 `max` (len l - Z.of_nat n))%Z.
Proof. unfold len. rewrite length_drop. lia. Qed.

(** ** Slices *)

(** [&l[n..]], [&l[..n]] and [&l[a..b]]: the indexing panics out of range. *)
Definition slice_from {A} (l : list A) (n : nat) : outcome (list A) :=
  if decide (n ≤ length l) then Ok (drop n l) else Panic.
Definition slice_to {A} (l : list A) (n : nat) : outcome (list A) :=
  if decide (n ≤ length l) then Ok (take n l) else Panic.
Definition slice {A} (l : list A) (a b : nat) : outcome (list A) :=
  if decide (a ≤ b ≤ length l) then Ok (take (b - a) (drop a l)) else Panic.
(** [l[n]] *)
Definition index {A} (l : list A) (n : nat) : outcome A :=
  match l !! n with Some x => Ok x | None => Panic end.

Lemma slice_from_ok {A} (l : list A) n : n ≤ length l → slice_from l n = Ok (drop n l).
Proof. intros. unfold slice_from. by rewrite decide_True. Qed.
Lemma slice_to_ok {A} (l : list A) n : n ≤ length l → slice_to l n = Ok (take n l).
Proof. intros. unfold slice_to. by rewrite decide_True. Qed.
Lemma slice_ok {A} (l : list A) a b :
  a ≤ b ≤ length l → slice l a b = Ok (take (b - a) (drop a l)).
Proof. intros. unfold slice. by rewrite decide_True. Qed.
Lemma slice_from_app {A} (l k : list A) n : n = length l → slice_from (l ++ k) n = Ok k.
Proof.
  intros ->. rewrite slice_from_ok; [by rewrite drop_app_length|].
  rewrite length_app. lia.
Qed.
Lemma slice_mid {A} (l k m : list A) a b :
  a = length l → b = length l + length k → slice (l ++ k ++ m) a b = Ok k.
Proof.
  intros -> ->. rewrite slice_ok by (rewrite !length_app; lia).
  rewrite drop_app_length. by replace (_ - _) with (length k) by lia; rewrite take_app_length.
Qed.

(** Fuel: the primitives never run out of it, and [bind] propagates that. *)
Create HintDb nofuel.

Lemma bind_fuel {A B} (f : A → outcome B) (m : outcome A) :
  m ≠ OutOfFuel → (∀ x, f x ≠ OutOfFuel) → (m ≫= f) ≠ OutOfFuel.
Proof. destruct m; naive_solver. Qed.
Lemma slice_fuel {A} (l : list A) a b : slice l a b ≠ OutOfFuel.
Proof. unfold slice. by case_decide. Qed.
Lemma slice_from_fuel {A} (l : list A) a : slice_from l a ≠ OutOfFuel.
Proof. unfold slice_from. by case_decide. Qed.
Lemma slice_to_fuel {A} (l : list A) a : slice_to l a ≠ OutOfFuel.
Proof. unfold slice_to. by case_decide. Qed.
Lemma index_fuel {A} (l : list A) n : index l n ≠ OutOfFuel.
Proof. unfold index. by case_match. Qed.
Lemma uadd_small ck w a b : (a + b < 2 ^ w)%Z → uadd ck w a b = Ok (a + b)%Z.
Proof. intros H. unfold uadd. by rewrite (proj2 (Z.ltb_lt _ _) H). Qed.
Lemma usub_small ck w a b : (b ≤ a)%Z → usub ck w a b = Ok (a - b)%Z.
Proof. intros H. unfold usub. by rewrite (proj2 (Z.leb_le _ _) H). Qed.

Lemma usub_fuel ck w a b : usub ck w a b ≠ OutOfFuel.
Proof. unfold usub. by repeat case_match. Qed.
Lemma uadd_fuel ck w a b : uadd ck w a b ≠ OutOfFuel.
Proof. unfold uadd. by repeat case_match. Qed.
Lemma Ok_fuel {A} (x : A) : Ok x ≠ OutOfFuel.
Proof. done. Qed.
#[export] Hint Resolve slice_fuel slice_from_fuel slice_to_fuel index_fuel usub_fuel uadd_fuel
  Ok_fuel : nofuel.

(** Walks through binds and branches looking for the fuel-free leaves. *)
Ltac nofuel :=
  repeat first
    [ progress intros
    | done
    | solve [auto with nofuel]
    | apply bind_fuel
    | progress cbv zeta
    | match goal with |- (if ?b then _ else _) ≠ _ => destruct b
                    | |- (let (_, _) := ?p in _) ≠ _ => destruct p
                    | |- match ?x with _ => _ end ≠ _ => destruct x end ].

(** ** Bit-level facts shared by the codecs *)

Lemma lor_disjoint_add (a b k : Z) :
  (0 ≤ k)%Z → (0 ≤ a < 2 ^ k)%Z → Z.lor a (b * 2 ^ k) = (a + b * 2 ^ k)%Z.
Proof.
  intros Hk Ha. symmetry. apply Z.add_nocarry_lor. apply Z.bits_inj'. intros n Hn.
  rewrite Z.land_spec, Z.bits_0. destruct (Z.ltb_spec n k).
  - rewrite Z.mul_pow2_bits_low by lia. by rewrite andb_false_r.
  - rewrite <- (Z.mod_small a (2 ^ k)) by lia. by rewrite Z.mod_pow2_bits_high by lia.
Qed.

Lemma land_pow2_mod (a k : Z) : (0 ≤ k)%Z → Z.land a (2 ^ k - 1) = (a mod 2 ^ k)%Z.
Proof. intros. rewrite <- Z.land_ones by lia. by rewrite Z.ones_equiv, Z.sub_1_r. Qed.

Lemma div_lt_pow2 (a k w : Z) :
  (0 ≤ k ≤ w)%Z → (0 ≤ a < 2 ^ w)%Z → (0 ≤ a / 2 ^ k < 2 ^ (w - k))%Z.
Proof.
  intros Hk Ha. split; [apply Z.div_pos; lia|].
  apply Z.div_lt_upper_bound; [lia|]. rewrite <- Z.pow_add_r by lia.
  replace (k + (w - k))%Z with w by lia. lia.
Qed.

Lemma wrap_lxor w a b : (0 ≤ w)%Z → wrap w (Z.lxor a b) = Z.lxor (wrap w a) (wrap w b).
Proof.
  intros Hw. unfold wrap. apply Z.bits_inj'. intros n Hn. rewrite Z.lxor_spec.
  destruct (Z.ltb_spec n w).
  - rewrite !Z.mod_pow2_bits_low by lia. apply Z.lxor_spec.
  - by rewrite !Z.mod_pow2_bits_high by lia.
Qed.

Lemma lxor_range w a b :
  (0 ≤ w)%Z → in_uint w a → in_uint w b → in_uint w (Z.lxor a b).
Proof.
  intros Hw Ha Hb. rewrite <- (wrap_small w a), <- (wrap_small w b), <- wrap_lxor by done.
  by apply wrap_range.
Qed.

Lemma shiftr_range w a k : (0 ≤ k)%Z → in_uint w a → in_uint w (Z.shiftr a k).
Proof.
  intros Hk [Ha0 Ha]. rewrite Z.shiftr_div_pow2 by lia. split.
  - apply Z.div_pos; [lia|]. apply Z.pow_pos_nonneg; lia.
  - apply Z.le_lt_trans with a; [|done].
    apply Z.div_le_upper_bound; [apply Z.pow_pos_nonneg; lia|].
    assert (0 < 2 ^ k)%Z by (apply Z.pow_pos_nonneg; lia). nia.
Qed.

Lemma lor_range w a b : (0 ≤ w)%Z → in_uint w a → in_uint w b → in_uint w (Z.lor a b).
Proof.
  intros Hw Ha Hb.
  destruct Ha, Hb. split; [by apply Z.lor_nonneg|].
  destruct (Z.eq_dec (Z.lor a b) 0%Z) as [->|]; [lia|].
  apply Z.log2_lt_cancel. rewrite Z.log2_lor, Z.log2_pow2 by lia.
  destruct (Z.eq_dec w 0%Z) as [->|]; [simpl in *; assert (a = 0 ∧ b = 0)%Z as [-> ->] by lia; done|].
  assert (∀ x, 0 ≤ x < 2 ^ w → Z.log2 x < w)%Z as Hlog.
  { intros x Hx. destruct (Z.eq_dec x 0%Z) as [->|]; [change (Z.log2 0) with 0%Z; lia|].
    apply Z.log2_lt_pow2; lia. }
  apply Z.max_lub_lt; apply Hlog; lia.
Qed.

Lemma uadd_range ck w a b : (0 ≤ w)%Z → in_uint w a → (0 ≤ b)%Z →
  ∀ r, uadd ck w a b = Ok r → in_uint w r.
Proof.
  intros Hw [Ha ?] Hb r. unfold uadd. destruct (Z.ltb_spec (a + b) (2 ^ w)).
  - intros [= <-]. split; lia.
  - destruct ck; [done|]. intros [= <-]. by apply wrap_range.
Qed.

Lemma uadd_release w a b : uadd false w a b = Ok (if (a + b <? 2 ^ w)%Z then a + b else wrap w (a + b))%Z.
Proof. unfold uadd. by case_match. Qed.

#[export] Hint Resolve wrap_range lxor_range lor_range shiftr_range : uint.

(** ** Induction on the length of a list *)
Lemma list_len_ind {A} (P : list A → Prop) :
  (∀ l, (∀ k, length k < length l → P k) → P l) → ∀ l, P l.
Proof.
  intros H l. remember (length l) as n eqn:Hn. revert l Hn.
  induction n as [n IH] using lt_wf_ind. intros l ->. apply H. eauto.
Qed.

(** ** The bytes of a string *)
Definition bytes_of_string (s : string) : bytes :=
  (λ a, Z.of_nat (Ascii.nat_of_ascii a)) <$> String.list_ascii_of_string s.
Definition string_of_bytes (l : bytes) : string :=
  String.string_of_list_ascii ((λ z, Ascii.ascii_of_nat (Z.to_nat z)) <$> l).
