(* ===== verification/Coding.v ===== *)
(** * Fixed-width codecs, checksum masking and the byte-string hash

    Models [src/src/util/coding.rs], [src/src/util/crc32.rs] and
    [src/src/util/hash.rs].  The CRC itself comes from the [crc32fast] crate
    and is a parameter (the class [Crc32]); what the code relies on is the
    class [Crc32Laws]. *)
From S2P Require Import Prelude.
Local Open Scope Z_scope.

(** ** Little-endian integers *)

(** [value.to_le_bytes()] for an [n]-byte integer. *)
Fixpoint to_le_bytes (n : nat) (v : Z) : bytes :=
  match n with
  | O => []
  | S n' => v mod 256 :: to_le_bytes n' (v / 256)
  end.

(** The integer a little-endian machine reads from these bytes. *)
Fixpoint of_le_bytes (l : bytes) : Z :=
  match l with
  | [] => 0
  | b :: l' => b + 256 * of_le_bytes l'
  end.

(** [for (i, b) in src.iter().enumerate() { data += u32::from( *b) << (i * 8) }] *)
Fixpoint accumulate_le (i data : Z) (src : bytes) : Z :=
  match src with
  | [] => data
  | b :: src' => accumulate_le (i + 1) (data + Z.shiftl b (i * 8)) src'
  end.

Definition encode_fixed_32 (dst : bytes) (value : Z) : outcome bytes :=
  _ ← rust_assert (bool_decide (4 ≤ len dst));
  Ok (to_le_bytes 4 value ++ drop 4 dst).

Definition encode_fixed_64 (dst : bytes) (value : Z) : outcome bytes :=
  _ ← rust_assert (bool_decide (8 ≤ len dst));
  Ok (to_le_bytes 8 value ++ drop 8 dst).

Definition decode_fixed_32 (src : bytes) : Z :=
  if bool_decide (4 ≤ len src) then of_le_bytes (take 4 src)
  else accumulate_le 0 0 src.

Definition decode_fixed_64 (src : bytes) : Z :=
  if bool_decide (8 ≤ len src) then of_le_bytes (take 8 src)
  else accumulate_le 0 0 src.

(** [put_fixed_32(dst, v)]: a zeroed 4-byte buffer is filled, then appended;
    the buffer is long enough, so the assertion of [encode_fixed_32] holds
    ([put_fixed_32_eq]). *)
Definition put_fixed_32 (dst : bytes) (value : Z) : bytes :=
  match encode_fixed_32 (replicate 4 0) value with
  | Ok buf => dst ++ buf
  | _ => dst
  end.

Definition put_fixed_64 (dst : bytes) (value : Z) : bytes :=
  match encode_fixed_64 (replicate 8 0) value with
  | Ok buf => dst ++ buf
  | _ => dst
  end.

(** *** Lemmas *)

Lemma length_to_le_bytes n v : length (to_le_bytes n v) = n.
Proof. revert v. induction n; intros; simpl; auto. Qed.

Lemma to_le_bytes_ok n v : bytes_ok (to_le_bytes n v).
Proof.
  revert v. induction n as [|n IH]; intros v; simpl; constructor; [|apply IH].
  unfold is_byte. apply Z.mod_pos_bound. lia.
Qed.

Lemma of_to_le_bytes n v :
  0 ≤ v < 256 ^ Z.of_nat n → of_le_bytes (to_le_bytes n v) = v.
Proof.
  revert v. induction n as [|n IH]; intros v Hv; cbn [to_le_bytes of_le_bytes].
  - simpl in Hv. lia.
  - rewrite Nat2Z.inj_succ, Z.pow_succ_r in Hv by lia.
    rewrite IH; [pose proof (Z.div_mod v 256); lia|].
    split; [apply Z.div_pos; lia|apply Z.div_lt_upper_bound; lia].
Qed.

Lemma of_le_bytes_range l : bytes_ok l → 0 ≤ of_le_bytes l < 256 ^ len l.
Proof.
  induction 1 as [|b l Hb Hl IH]; [change (0 ≤ 0 < 1); lia|].
  rewrite len_cons, Z.pow_add_r by (pose proof (len_nonneg l); lia).
  unfold is_byte in Hb. simpl. lia.
Qed.

Lemma to_of_le_bytes l : bytes_ok l → to_le_bytes (length l) (of_le_bytes l) = l.
Proof.
  induction 1 as [|b l Hb Hl IH]; [done|]. unfold is_byte in Hb.
  cbn [length to_le_bytes of_le_bytes]. f_equal.
  - rewrite (Z.mul_comm 256), Z.mod_add by lia. by apply Z.mod_small.
  - by rewrite (Z.mul_comm 256), Z.div_add, Z.div_small, Z.add_0_l by lia.
Qed.

(** The slow path of the decoders computes the same value as the raw copy. *)
Lemma accumulate_le_spec i d l :
  0 ≤ i → accumulate_le i d l = d + 2 ^ (i * 8) * of_le_bytes l.
Proof.
  revert i d. induction l as [|b l IH]; intros i d Hi; simpl; [lia|].
  rewrite IH, Z.shiftl_mul_pow2 by lia.
  replace ((i + 1) * 8) with (8 + i * 8) by lia. rewrite Z.pow_add_r by lia. lia.
Qed.

Lemma decode_fixed_32_short l : len l ≤ 4 → decode_fixed_32 l = of_le_bytes l.
Proof.
  intros. unfold decode_fixed_32. case_bool_decide as H4.
  - unfold len in *. rewrite take_ge by lia. done.
  - rewrite accumulate_le_spec by lia. lia.
Qed.

Lemma decode_fixed_64_short l : len l ≤ 8 → decode_fixed_64 l = of_le_bytes l.
Proof.
  intros. unfold decode_fixed_64. case_bool_decide as H4.
  - unfold len in *. rewrite take_ge by lia. done.
  - rewrite accumulate_le_spec by lia. lia.
Qed.

Lemma put_fixed_32_eq dst v : put_fixed_32 dst v = dst ++ to_le_bytes 4 v.
Proof. done. Qed.
Lemma put_fixed_64_eq dst v : put_fixed_64 dst v = dst ++ to_le_bytes 8 v.
Proof. done. Qed.

Lemma decode_fixed_32_app v rest :
  in_uint 32 v → decode_fixed_32 (to_le_bytes 4 v ++ rest) = v.
Proof.
  intros Hv. unfold decode_fixed_32.
  rewrite bool_decide_eq_true_2 by (rewrite len_app; unfold len; rewrite length_to_le_bytes; lia).
  rewrite take_app_length' by (by rewrite length_to_le_bytes).
  by apply of_to_le_bytes.
Qed.

Lemma decode_fixed_64_app v rest :
  in_uint 64 v → decode_fixed_64 (to_le_bytes 8 v ++ rest) = v.
Proof.
  intros Hv. unfold decode_fixed_64.
  rewrite bool_decide_eq_true_2 by (rewrite len_app; unfold len; rewrite length_to_le_bytes; lia).
  rewrite take_app_length' by (by rewrite length_to_le_bytes).
  by apply of_to_le_bytes.
Qed.

Lemma decode_fixed_32_range l : bytes_ok l → in_uint 32 (decode_fixed_32 l).
Proof.
  intros Hl. unfold decode_fixed_32, in_uint. case_bool_decide as H4.
  - pose proof (of_le_bytes_range (take 4 l) (Forall_take _ _ _ Hl)) as H.
    rewrite len_take in H. replace (_ `min` _) with 4 in H by lia. lia.
  - rewrite accumulate_le_spec by lia.
    pose proof (of_le_bytes_range l Hl). pose proof (len_nonneg l).
    assert (256 ^ len l ≤ 256 ^ 4) by (apply Z.pow_le_mono_r; lia). lia.
Qed.

Lemma decode_fixed_64_range l : bytes_ok l → in_uint 64 (decode_fixed_64 l).
Proof.
  intros Hl. unfold decode_fixed_64, in_uint. case_bool_decide as H4.
  - pose proof (of_le_bytes_range (take 8 l) (Forall_take _ _ _ Hl)) as H.
    rewrite len_take in H. replace (_ `min` _) with 8 in H by lia. lia.
  - rewrite accumulate_le_spec by lia.
    pose proof (of_le_bytes_range l Hl). pose proof (len_nonneg l).
    assert (256 ^ len l ≤ 256 ^ 8) by (apply Z.pow_le_mono_r; lia). lia.
Qed.

(** Arrays of [u32]. *)
Definition le4s (zs : list Z) : bytes := mjoin (to_le_bytes 4 <$> zs).

Lemma le4s_cons z zs : le4s (z :: zs) = to_le_bytes 4 z ++ le4s zs.
Proof. done. Qed.
Lemma le4s_app zs1 zs2 : le4s (zs1 ++ zs2) = le4s zs1 ++ le4s zs2.
Proof. unfold le4s. by rewrite fmap_app, join_app. Qed.
Lemma length_le4s zs : length (le4s zs) = (4 * length zs)%nat.
Proof.
  induction zs as [|z zs IH]; [done|].
  rewrite le4s_cons, length_app, IH, length_to_le_bytes. simpl. lia.
Qed.
Lemma fold_put_fixed_32 zs buf : fold_left put_fixed_32 zs buf = buf ++ le4s zs.
Proof.
  revert buf. induction zs as [|z zs IH]; intros buf; simpl; [by rewrite app_nil_r|].
  rewrite IH, put_fixed_32_eq, <- app_assoc. done.
Qed.
Lemma le4s_lookup zs j z rest :
  zs !! j = Some z → ∃ tl, drop (4 * j) (le4s zs ++ rest) = to_le_bytes 4 z ++ tl.
Proof.
  intros Hj. rewrite <- (take_drop_middle zs j z Hj).
  rewrite le4s_app, le4s_cons, <- !app_assoc, drop_app_length'; [eauto|].
  rewrite length_le4s, length_take. apply lookup_lt_Some in Hj. lia.
Qed.

Lemma le4s_slice zs j z a b :
  zs !! j = Some z → a = (4 * j)%nat → b = (a + 4)%nat → slice (le4s zs) a b = Ok (to_le_bytes 4 z).
Proof.
  intros Hj -> ->. apply lookup_lt_Some in Hj as Hlt.
  rewrite slice_ok by (rewrite length_le4s; lia).
  destruct (le4s_lookup zs j z [] Hj) as [tl Htl]. rewrite app_nil_r in Htl.
  rewrite Htl, take_app_length'; [done|]. rewrite length_to_le_bytes. lia.
Qed.

Arguments to_le_bytes : simpl never.
Arguments decode_fixed_32 : simpl never.
Arguments decode_fixed_64 : simpl never.
Arguments put_fixed_32 : simpl never.
Arguments put_fixed_64 : simpl never.

(** ** CRC-32 and its masking ([util/crc32.rs]) *)

(** [crc32fast::Hasher]: [hash] and [extend] of [util/crc32.rs] only call it. *)
Class Crc32 : Type := {
  crc_hash : bytes → Z;
  crc_extend : Z → bytes → Z
}.

(** What the code relies on ([tests::test_extend], and the [u32] type). *)
Class Crc32Laws `{Crc32} : Prop := {
  crc_hash_u32 : ∀ d, in_uint 32 (crc_hash d);
  crc_extend_hash : ∀ a b, crc_extend (crc_hash a) b = crc_hash (a ++ b)
}.

Definition MASK_DELTA : Z := 0xa282ead8.

(** [x >> k] and [x << k] on [u32]. *)
Definition shr32 (x k : Z) : Z := Z.shiftr x k.
Definition shl32 (x k : Z) : Z := wrap 32 (Z.shiftl x k).

Definition mask (crc : Z) : Z :=
  wrap 32 (Z.lor (shr32 crc 15) (shl32 crc 17) + MASK_DELTA).

Definition unmask (masked : Z) : Z :=
  let rot := wrap 32 (masked - MASK_DELTA) in
  Z.lor (shr32 rot 17) (shl32 rot 15).

(** Rotation of a 32-bit word, as arithmetic on its two halves. *)
Lemma rotr_split (x k : Z) :
  0 ≤ k ≤ 32 → in_uint 32 x →
  Z.lor (shr32 x k) (shl32 x (32 - k)) = x / 2 ^ k + (x mod 2 ^ k) * 2 ^ (32 - k).
Proof.
  intros Hk Hx. unfold shr32, shl32, wrap.
  rewrite Z.shiftr_div_pow2, Z.shiftl_mul_pow2 by lia.
  assert (x * 2 ^ (32 - k) mod 2 ^ 32 = (x mod 2 ^ k) * 2 ^ (32 - k)) as ->.
  { replace (2 ^ 32) with (2 ^ k * 2 ^ (32 - k)) by (rewrite <- Z.pow_add_r by lia; f_equal; lia).
    rewrite Z.mul_mod_distr_r; [done|apply Z.pow_nonzero; lia..]. }
  apply lor_disjoint_add; [lia|]. apply div_lt_pow2; [lia|done].
Qed.

Lemma rotr_inv (x k : Z) :
  0 ≤ k ≤ 32 → in_uint 32 x →
  let r := x / 2 ^ k + (x mod 2 ^ k) * 2 ^ (32 - k) in
  r / 2 ^ (32 - k) + (r mod 2 ^ (32 - k)) * 2 ^ k = x ∧ in_uint 32 r.
Proof.
  intros Hk Hx r.
  pose proof (div_lt_pow2 x k 32 Hk Hx) as Hq.
  assert (0 < 2 ^ k) by (apply Z.pow_pos_nonneg; lia).
  assert (0 < 2 ^ (32 - k)) by (apply Z.pow_pos_nonneg; lia).
  pose proof (Z.mod_pos_bound x (2 ^ k) ltac:(lia)) as Hm.
  assert (2 ^ 32 = 2 ^ k * 2 ^ (32 - k)) as H32 by (rewrite <- Z.pow_add_r by lia; f_equal; lia).
  unfold r. split.
  - rewrite Z.div_add, Z.mod_add by lia.
    rewrite (Z.div_small (x / 2 ^ k)), (Z.mod_small (x / 2 ^ k)) by lia.
    pose proof (Z.div_mod x (2 ^ k)). lia.
  - unfold in_uint. nia.
Qed.

Lemma mask_range c : in_uint 32 (mask c).
Proof. by apply wrap_range. Qed.

Lemma unmask_mask_eq c : in_uint 32 c → unmask (mask c) = c.
Proof.
  intros Hc. unfold unmask, mask, wrap.
  rewrite Zminus_mod_idemp_l, Z.add_simpl_r.
  destruct (rotr_inv c 15 ltac:(lia) Hc) as [Hinv Hr].
  pose proof (rotr_split c 15 ltac:(lia) Hc) as Hrot. change (32 - 15) with 17 in *.
  rewrite Hrot. set (r := c / 2 ^ 15 + _) in *. rewrite (Z.mod_small r) by done.
  pose proof (rotr_split r 17 ltac:(lia) Hr) as Hrot'. change (32 - 17) with 15 in Hrot'.
  by rewrite Hrot'.
Qed.

(** ** The hash of a byte string ([util/hash.rs]) *)

Definition hash_m : Z := 0xc6a4a793.

(** One round of the main loop. *)
Definition hash_word (h w : Z) : Z :=
  let h := wrap 32 (h + w) in
  let h := wrap 32 (h * hash_m) in
  Z.lxor h (Z.shiftr h 16).

(** [while i + 4 <= n]: the list is the part of [data] from [i] on. *)
Fixpoint hash_words (h : Z) (data : bytes) : Z * bytes :=
  match data with
  | _ :: _ :: _ :: _ :: rest => hash_words (hash_word h (decode_fixed_32 data)) rest
  | _ => (h, data)
  end.

(** [if diff >= i + 1 { h += u32::from(data[i]) << k }].  The addition is a plain
    [+=]: with overflow checks on it panics instead of wrapping around. *)
Definition hash_add (ck : bool) (h : Z) (rest : bytes) (i : nat) (k : Z) : outcome Z :=
  if bool_decide (S i ≤ length rest)%nat
  then b ← index rest i; uadd ck 32 h (Z.shiftl b k) else Ok h.

(** The remaining bytes: at most three, from the most significant one on. *)
Definition hash_tail (ck : bool) (h : Z) (rest : bytes) : outcome Z :=
  h ← hash_add ck h rest 2 16;
  h ← hash_add ck h rest 1 8;
  h ← hash_add ck h rest 0 0;
  if bool_decide (1 ≤ length rest)%nat then
    let h := wrap 32 (h * hash_m) in
    Ok (Z.lxor h (Z.shiftr h 24))
  else Ok h.

Definition hash (ck : bool) (data : bytes) (seed : Z) : outcome Z :=
  let h := Z.lxor seed (wrap 32 (hash_m * wrap 32 (len data))) in
  let '(h, rest) := hash_words h data in
  hash_tail ck h rest.

(** The vectors of [tests::test_signed_unsigned_issue]. *)
Example hash_vectors :
  hash true [] 0xbc9f1d34 = Ok 0xbc9f1d34 ∧
  hash true [0x62] 0xbc9f1d34 = Ok 0xef1345c4 ∧
  hash true [0xc3; 0x97] 0xbc9f1d34 = Ok 0x5b663814 ∧
  hash true [0xe2; 0x99; 0xa5] 0xbc9f1d34 = Ok 0x323c078f ∧
  hash true [0xe1; 0x80; 0xb9; 0x32] 0xbc9f1d34 = Ok 0xed21633a.
Proof. vm_compute. auto. Qed.

Lemma hash_word_range h w : in_uint 32 (hash_word h w).
Proof. unfold hash_word. eauto with uint lia. Qed.

Lemma hash_words_range h data :
  in_uint 32 h → in_uint 32 (hash_words h data).1.
Proof.
  revert h. induction data as [[|b0 [|b1 [|b2 [|b3 rest]]]] IH] using list_len_ind; try done.
  intros h _. cbn [hash_words]. apply IH; [simpl; lia|apply hash_word_range].
Qed.

Lemma hash_words_ok h data : bytes_ok data → bytes_ok (hash_words h data).2.
Proof.
  revert h. induction data as [[|b0 [|b1 [|b2 [|b3 rest]]]] IH] using list_len_ind; try done.
  intros h Hd. cbn [hash_words]. apply IH; [simpl; lia|].
  exact (Forall_drop is_byte 4 _ Hd).
Qed.

Lemma hash_add_release h rest i k :
  bytes_ok rest → in_uint 32 h → ∃ r, hash_add false h rest i k = Ok r ∧ in_uint 32 r.
Proof.
  intros Hok Hh. unfold hash_add, index. case_bool_decide as Hi; [|eauto].
  destruct (lookup_lt_is_Some_2 rest i ltac:(lia)) as [b Hb]. rewrite Hb. cbn.
  eexists. split; [apply uadd_release|].
  pose proof (Forall_lookup_1 _ _ _ _ Hok Hb) as [Hb0 _].
  eapply (uadd_range false 32 h); [lia|done|by apply Z.shiftl_nonneg|apply uadd_release].
Qed.

(** Without overflow checks the hash is total and a [u32]. *)
Lemma hash_release_total data seed :
  bytes_ok data → in_uint 32 seed →
  ∃ h, hash false data seed = Ok h ∧ in_uint 32 h.
Proof.
  intros Hd Hs. unfold hash.
  set (h0 := Z.lxor _ _). assert (in_uint 32 h0) as Hh0 by (unfold h0; eauto with uint lia).
  pose proof (hash_words_range h0 data Hh0) as Hr.
  pose proof (hash_words_ok h0 data Hd) as Hok.
  destruct (hash_words h0 data) as [h rest]. simpl in *. unfold hash_tail.
  destruct (hash_add_release h rest 2 16) as (h2 & -> & H2); [done..|]. cbn.
  destruct (hash_add_release h2 rest 1 8) as (h1 & -> & H1); [done..|]. cbn.
  destruct (hash_add_release h1 rest 0 0) as (h' & -> & H'); [done..|]. cbn.
  case_bool_decide; (eexists; split; [done|eauto with uint lia]).
Qed.

(** With overflow checks (the default of [cargo build] and [cargo test]) the
    hash of a 7-byte key already panics: the tail additions are not
    [wrapping_add], unlike the ones of the main loop. *)
Lemma hash_debug_panics :
  hash true [97; 98; 254; 99; 255; 255; 255] 0xc6a4a793 = Panic.
Proof. vm_compute. reflexivity. Qed.

(** ** The IEEE CRC-32, as an instance of the interface *)
Module IeeeCrc.
Fixpoint crc_bits (n : nat) (c : Z) : Z :=
  match n with
  | O => c
  | S n' => crc_bits n' (if Z.odd c then Z.lxor (Z.shiftr c 1) 0xedb88320 else Z.shiftr c 1)
  end.

Definition crc_update (c : Z) (data : bytes) : Z :=
  foldl (λ c b, crc_bits 8 (Z.lxor c (wrap 8 b))) c data.

Definition flip32 (c : Z) : Z := Z.lxor 0xffffffff c.

#[export] Instance ieee_crc32 : Crc32 := {
  crc_hash data := flip32 (crc_update 0xffffffff data);
  crc_extend crc data := flip32 (crc_update (flip32 crc) data)
}.

Lemma crc_bits_range n c : in_uint 32 c → in_uint 32 (crc_bits n c).
Proof.
  revert c. induction n as [|n IH]; intros c Hc; simpl; [done|].
  apply IH. case_match; eauto with uint lia. apply lxor_range; [lia|by apply shiftr_range|].
  by vm_compute.
Qed.

Lemma crc_update_range c data : in_uint 32 c → in_uint 32 (crc_update c data).
Proof.
  revert c. induction data as [|b data IH]; intros c Hc; [done|].
  change (crc_update c (b :: data)) with (crc_update (crc_bits 8 (Z.lxor c (wrap 8 b))) data).
  apply IH, crc_bits_range, lxor_range; [lia|done|].
  destruct (wrap_range 8 b ltac:(lia)). split; [done|]. eapply Z.lt_trans; [done|by vm_compute].
Qed.

Lemma flip32_invol c : flip32 (flip32 c) = c.
Proof. unfold flip32. by rewrite <- Z.lxor_assoc, Z.lxor_nilpotent, Z.lxor_0_l. Qed.

#[export] Instance ieee_crc32_laws : Crc32Laws.
Proof.
  split.
  - intros d. apply lxor_range; [lia|by vm_compute|]. apply crc_update_range. by vm_compute.
  - intros a b. simpl. rewrite flip32_invol. f_equal. unfold crc_update. by rewrite foldl_app.
Qed.

(** [tests::test_standard_crc32_results] *)
Example ieee_crc32_vectors :
  crc_hash (replicate 32 0) = 0x190a55ad ∧ crc_hash (replicate 32 255) = 0xff6cab0b.
Proof. vm_compute. auto. Qed.
End IeeeCrc.

(** Masking a checksum is undone by [unmask], for every 32-bit checksum, and
    the stored value is again a 32-bit word. *)
Theorem unmask_mask (crc : Z) : in_uint 32 crc → unmask (mask crc) = crc ∧ in_uint 32 (mask crc).
Proof. intros H. split; [by apply unmask_mask_eq|apply mask_range]. Qed.

Lemma unmask_mask_witness : unmask (mask 0xdeadbeef) = 0xdeadbeef ∧ in_uint 32 (mask 0xdeadbeef).
Proof. apply (unmask_mask 0xdeadbeef). split; [discriminate|reflexivity]. Defined.
