(* ===== verification/Varint.v ===== *)
(** * Variable-length integers

    Models [src/src/util/varint.rs].  The macro [impl_varint!] is expanded for
    [u32] ([VarintU32]) and [u64] ([VarintU64]); here its functions take the
    width [w] as their first argument.  The encoding loops run on fuel
    [max_bytes w]; [varint_loop_fuel] shows that more fuel changes nothing for
    a [w]-bit number. *)
From S2P Require Import Prelude.
Local Open Scope Z_scope.

(** [(max_bits as f32 / 7.0).ceil()]: 5 for [u32] and 10 for [u64]. *)
Definition max_bytes (w : Z) : Z := (w + 6) / 7.

(** The two instantiations. *)
Definition is_width (w : Z) : Prop := w = 32 ∨ w = 64.

(** [n as u8 | 0b1000_0000] *)
Definition cont_byte (n : Z) : Z := Z.lor (wrap 8 n) 128.

(** The loop of [put_varint]. *)
Fixpoint varint_loop (fuel : nat) (n : Z) : bytes :=
  match fuel with
  | O => []
  | S fuel' =>
      if n <? 128 then [wrap 8 n]
      else cont_byte n :: varint_loop fuel' (Z.shiftr n 7)
  end.

(** The bytes [put_varint] appends. *)
Definition varint_bytes (w n : Z) : bytes := varint_loop (Z.to_nat (max_bytes w)) n.

(** [put_varint(dst, n)] returns the new [dst] and the number of bytes added. *)
Definition put_varint (w : Z) (dst : bytes) (n : Z) : bytes * Z :=
  let dst' := dst ++ varint_bytes w n in
  (dst', len dst' - len dst).

(** The loop of [write(dst, n)]: [done] is the prefix already written and
    [rest] the part of [dst] from index [i] on. *)
Fixpoint write_loop (n : Z) (done rest : bytes) : outcome (bytes * Z) :=
  match rest with
  | [] => Panic
  | d :: rest' =>
      if (128 <=? n) && bool_decide (0 < len rest')
      then write_loop (Z.shiftr n 7) (done ++ [cont_byte n]) rest'
      else Ok (done ++ wrap 8 n :: rest', len done + 1)
  end.

Definition varint_write (w : Z) (dst : bytes) (n : Z) : outcome (bytes * Z) :=
  _ ← rust_assert (bool_decide (dst ≠ []));
  write_loop n [] dst.

(** [value.checked_shl(shift)] at width [w]. *)
Definition checked_shl (w value shift : Z) : option Z :=
  if shift <? w then Some (wrap w (Z.shiftl value shift)) else None.

(** The loop of [read]: [i] bytes were consumed, [n] is the value so far. *)
Fixpoint read_loop (w i n shift : Z) (src : bytes) : option (Z * Z) :=
  match src with
  | [] => None
  | b :: src' =>
      match checked_shl w (Z.land b 127) shift with
      | None => None
      | Some val =>
          let n := Z.lor n val in
          if Z.land b 128 =? 0 then Some (n, i + 1)
          else
            let shift := shift + 7 in
            if 7 * max_bytes w <=? shift then None
            else read_loop w (i + 1) n shift src'
      end
  end.

Definition read (w : Z) (src : bytes) : option (Z * Z) :=
  match src with
  | [] => None
  | _ => read_loop w 0 0 0 src
  end.

(** [common_read] returns an [isize] instead of an [Option]. *)
Fixpoint common_read_loop (w i n shift : Z) (src : bytes) : Z * Z :=
  match src with
  | [] => (0, 0)
  | b :: src' =>
      match checked_shl w (Z.land b 127) shift with
      | None => (0, - (i + 1))
      | Some val =>
          let n := Z.lor n val in
          if Z.land b 128 =? 0 then (n, i + 1)
          else
            let shift := shift + 7 in
            if 7 * max_bytes w <=? shift then (0, 0)
            else common_read_loop w (i + 1) n shift src'
      end
  end.

Definition common_read (w : Z) (src : bytes) : Z * Z :=
  match src with
  | [] => (0, 0)
  | _ => common_read_loop w 0 0 0 src
  end.

(** An empty slice writes nothing at all, not even its length. *)
Definition put_varint_prefixed_slice (w : Z) (dst src : bytes) : bytes :=
  match src with
  | [] => dst
  | _ => (put_varint w dst (wrap w (len src))).1 ++ src
  end.

(** Returns the slice read and the new [src]. *)
Definition get_varint_prefixed_slice (w : Z) (src : bytes) : option (bytes * bytes) :=
  '(l, n) ← read w src;
  let read_len := l + n in
  if len src <? read_len then None
  else Some (take (Z.to_nat l) (drop (Z.to_nat n) src), drop (Z.to_nat read_len) src).

(** Returns the number read and the new [src]. *)
Definition drain_read (w : Z) (src : bytes) : option (Z * bytes) :=
  '(v, n) ← read w src; Some (v, drop (Z.to_nat n) src).

(** ** Lemmas *)

Lemma max_bytes_width w : is_width w → w ≤ 7 * max_bytes w ∧ 7 * max_bytes w < w + 7 ∧ 0 < max_bytes w.
Proof. intros [-> | ->]; vm_compute; repeat split; congruence. Qed.

(** A continuation byte: its low seven bits are those of [n]. *)
Lemma cont_byte_eq n : cont_byte n = n mod 128 + 128.
Proof.
  transitivity (Z.lor (n mod 2 ^ 7) (1 * 2 ^ 7));
    [|apply lor_disjoint_add; [lia|by apply Z.mod_pos_bound]].
  unfold cont_byte, wrap. apply Z.bits_inj'. intros i Hi.
  rewrite !Z.lor_spec. change 128 with (2 ^ 7). change (1 * 2 ^ 7) with (2 ^ 7).
  destruct (decide (i = 7)) as [->|Hne].
  - rewrite Z.pow2_bits_true by lia. by rewrite !orb_true_r.
  - rewrite !Z.pow2_bits_false by lia. rewrite !orb_false_r.
    destruct (Z.ltb_spec i 7); [by rewrite !Z.mod_pow2_bits_low by lia|].
    by rewrite !Z.mod_pow2_bits_high by lia.
Qed.

Lemma cont_byte_high n : Z.land (cont_byte n) 128 =? 0 = false.
Proof.
  apply Z.eqb_neq. unfold cont_byte. rewrite Z.land_lor_distr_l. change (Z.land 128 128) with 128.
  intros H. apply (f_equal (λ z, Z.testbit z 7)) in H.
  rewrite Z.lor_spec, Z.bits_0, orb_true_r in H. done.
Qed.

Lemma cont_byte_low n : Z.land (cont_byte n) 127 = n mod 128.
Proof.
  rewrite (land_pow2_mod _ 7) by lia. rewrite cont_byte_eq.
  change (2 ^ 7) with 128. rewrite <- (Z.mul_1_l 128) at 2.
  by rewrite Z.mod_add, Z.mod_mod by lia.
Qed.

Lemma last_byte_high n : 0 ≤ n < 128 → Z.land n 128 =? 0 = true.
Proof.
  intros Hn. apply Z.eqb_eq. rewrite Z.land_comm. change 128 with (1 * 2 ^ 7).
  apply Z.bits_inj'. intros i Hi. rewrite Z.land_spec, Z.bits_0.
  destruct (Z.ltb_spec i 7); [by rewrite Z.mul_pow2_bits_low by lia|].
  rewrite <- (Z.mod_small n (2 ^ 7)) by lia.
  by rewrite Z.mod_pow2_bits_high, andb_false_r by lia.
Qed.

Lemma last_byte_low n : 0 ≤ n < 128 → Z.land n 127 = n.
Proof. intros. rewrite (land_pow2_mod _ 7) by lia. by apply Z.mod_small. Qed.

Lemma varint_loop_fuel f f' n :
  (0 < f ≤ f')%nat → 0 ≤ n < 2 ^ (7 * Z.of_nat f) → varint_loop f n = varint_loop f' n.
Proof.
  revert f' n. induction f as [|f IH]; intros [|f'] n Hf Hn; try lia.
  cbn [varint_loop]. destruct (Z.ltb_spec n 128); [done|]. f_equal.
  rewrite Z.shiftr_div_pow2 by lia. change (2 ^ 7) with 128.
  assert (1 ≤ n / 128) by (apply Z.div_le_lower_bound; lia).
  assert (n / 128 < 2 ^ (7 * Z.of_nat f)).
  { apply Z.div_lt_upper_bound; [lia|]. change 128 with (2 ^ 7).
    rewrite <- Z.pow_add_r by lia. replace (7 + _) with (7 * Z.of_nat (S f)) by lia. lia. }
  destruct f as [|f]; [change (2 ^ (7 * Z.of_nat 0)) with 1 in *; lia|]. apply IH; lia.
Qed.

Lemma varint_loop_len f n :
  (0 < f)%nat → 1 ≤ len (varint_loop f n) ≤ Z.of_nat f.
Proof.
  revert n. induction f as [|f IH]; intros n Hf; [lia|]. cbn [varint_loop].
  case_match; rewrite len_cons; [rewrite len_nil; lia|].
  destruct f as [|f]; [change (1 ≤ 1 + 0 ≤ 1); lia|]. specialize (IH (Z.shiftr n 7) ltac:(lia)). lia.
Qed.

Lemma varint_loop_ok f n : bytes_ok (varint_loop f n).
Proof.
  revert n. induction f as [|f IH]; intros n; cbn [varint_loop]; [constructor|].
  case_match; constructor; [|constructor| |apply IH]; unfold is_byte.
  - by apply Z.mod_pos_bound.
  - rewrite cont_byte_eq. pose proof (Z.mod_pos_bound n 128). lia.
Qed.

(** The decoder inverts the encoder, whatever follows in the buffer. *)
Lemma read_loop_varint w f k i acc n rest :
  is_width w → (0 < f)%nat → 0 ≤ k → k + Z.of_nat f ≤ max_bytes w →
  0 ≤ acc < 2 ^ (7 * k) → 0 ≤ n < 2 ^ (7 * Z.of_nat f) →
  acc + n * 2 ^ (7 * k) < 2 ^ w →
  read_loop w i acc (7 * k) (varint_loop f n ++ rest) =
    Some (acc + n * 2 ^ (7 * k), i + len (varint_loop f n)).
Proof.
  intros Hw. pose proof (max_bytes_width w Hw) as (Hm1 & Hm2 & _).
  revert k i acc n. induction f as [|f IH]; intros k i acc n Hf Hk Hkf Hacc Hn Hlt; [lia|].
  assert (0 < 2 ^ (7 * k)) by (apply Z.pow_pos_nonneg; lia).
  cbn [varint_loop]. unfold checked_shl. destruct (Z.ltb_spec n 128) as [Hs|Hb].
  - rewrite (wrap_small 8) by (unfold in_uint; lia). cbn [app read_loop].
    unfold checked_shl. destruct (Z.ltb_spec (7 * k) w); [|lia].
    rewrite last_byte_high, last_byte_low, Z.shiftl_mul_pow2 by lia.
    rewrite wrap_small by (unfold in_uint; nia).
    rewrite lor_disjoint_add by lia. done.
  - cbn [app read_loop]. unfold checked_shl. destruct (Z.ltb_spec (7 * k) w); [|lia].
    rewrite cont_byte_high, cont_byte_low, Z.shiftl_mul_pow2, Z.shiftr_div_pow2 by lia.
    change (2 ^ 7) with 128. pose proof (Z.div_mod n 128 ltac:(lia)) as Hdm.
    pose proof (Z.mod_pos_bound n 128 ltac:(lia)).
    assert (1 ≤ n / 128) by (apply Z.div_le_lower_bound; lia).
    assert (n / 128 < 2 ^ (7 * Z.of_nat f)).
    { apply Z.div_lt_upper_bound; [lia|]. change 128 with (2 ^ 7).
      rewrite <- Z.pow_add_r by lia. replace (7 + _) with (7 * Z.of_nat (S f)) by lia. lia. }
    destruct f as [|f]; [change (2 ^ (7 * Z.of_nat 0)) with 1 in *; lia|].
    rewrite wrap_small by (unfold in_uint; nia). rewrite lor_disjoint_add by lia.
    destruct (Z.leb_spec (7 * max_bytes w) (7 * k + 7)); [lia|].
    assert (2 ^ (7 * (k + 1)) = 128 * 2 ^ (7 * k)) as Hp.
    { replace (7 * (k + 1)) with (7 + 7 * k) by lia. by rewrite Z.pow_add_r by lia. }
    replace (7 * k + 7) with (7 * (k + 1)) by lia.
    rewrite IH by (rewrite ?Hp; nia). rewrite Hp, len_cons. f_equal. f_equal; nia.
Qed.

Lemma read_varint w n rest :
  is_width w → in_uint w n →
  read w (varint_bytes w n ++ rest) = Some (n, len (varint_bytes w n)).
Proof.
  intros Hw Hn. pose proof (max_bytes_width w Hw) as (? & ? & ?).
  pose proof (varint_loop_len (Z.to_nat (max_bytes w)) n ltac:(lia)) as Hl.
  assert (n < 2 ^ (7 * max_bytes w)).
  { apply Z.lt_le_trans with (2 ^ w); [apply Hn|apply Z.pow_le_mono_r; lia]. }
  unfold read, varint_bytes in *. destruct (varint_loop _ n ++ rest) as [|x l] eqn:E.
  { apply app_nil in E as [E _]. rewrite E in Hl. change (len []) with 0 in Hl. lia. }
  rewrite <- E.
  pose proof (read_loop_varint w (Z.to_nat (max_bytes w)) 0 0 0 n rest Hw) as H'.
  rewrite Z.mul_0_r, Z.pow_0_r, Z.mul_1_r, Z2Nat.id in H' by lia.
  destruct Hn. apply H'; lia.
Qed.

Lemma varint_bytes_len w n : is_width w → 1 ≤ len (varint_bytes w n) ≤ max_bytes w.
Proof.
  intros Hw. pose proof (max_bytes_width w Hw) as (_ & _ & ?).
  pose proof (varint_loop_len (Z.to_nat (max_bytes w)) n ltac:(lia)).
  unfold varint_bytes. lia.
Qed.

Lemma varint_bytes_ok w n : bytes_ok (varint_bytes w n).
Proof. apply varint_loop_ok. Qed.

Lemma put_varint_eq w dst n : (put_varint w dst n).1 = dst ++ varint_bytes w n.
Proof. done. Qed.
Lemma put_varint_written w dst n : (put_varint w dst n).2 = len (varint_bytes w n).
Proof. unfold put_varint. simpl. rewrite len_app. lia. Qed.

Lemma drain_read_varint w n rest :
  is_width w → in_uint w n → drain_read w (varint_bytes w n ++ rest) = Some (n, rest).
Proof.
  intros Hw Hn. unfold drain_read. rewrite read_varint by done. simpl.
  by rewrite drop_app_length' by (unfold len; lia).
Qed.

(** A length-prefixed slice whose prefix was written with [put_varint]. *)
Lemma get_prefixed_bytes w (s rest : bytes) :
  is_width w → len s < 2 ^ w →
  get_varint_prefixed_slice w (varint_bytes w (len s) ++ s ++ rest) = Some (s, rest).
Proof.
  intros Hw Hs. pose proof (len_nonneg s). unfold get_varint_prefixed_slice.
  rewrite read_varint by (unfold in_uint; lia || done). simpl. rewrite !len_app.
  pose proof (len_nonneg rest). destruct (Z.ltb_spec (len (varint_bytes w (len s)) + (len s + len rest))
    (len s + len (varint_bytes w (len s)))); [lia|].
  rewrite drop_app_length' by (unfold len; lia).
  rewrite take_app_length' by (unfold len; lia).
  rewrite app_assoc, drop_app_length' by (rewrite length_app; unfold len; lia). done.
Qed.

Lemma put_prefixed_eq w dst s :
  s ≠ [] → len s < 2 ^ w →
  put_varint_prefixed_slice w dst s = dst ++ varint_bytes w (len s) ++ s.
Proof.
  intros Hs Hl. destruct s as [|b s]; [done|]. unfold put_varint_prefixed_slice.
  rewrite put_varint_eq, wrap_small, <- app_assoc; [done|].
  split; [apply len_nonneg|done].
Qed.

(** *** What a successful read tells *)

Lemma read_loop_bounds w i n shift src v k :
  read_loop w i n shift src = Some (v, k) → i + 1 ≤ k ≤ i + len src.
Proof.
  revert i n shift. induction src as [|b src IH]; intros i n shift; [done|].
  cbn [read_loop]. rewrite len_cons. pose proof (len_nonneg src).
  repeat case_match; intros; simplify_eq; try lia.
  match goal with H : read_loop _ _ _ _ _ = _ |- _ => apply IH in H; lia end.
Qed.

Lemma read_bounds w src v k : read w src = Some (v, k) → 1 ≤ k ≤ len src.
Proof. unfold read. destruct src; [done|]. intros H. apply read_loop_bounds in H. lia. Qed.

Lemma read_loop_range w i n shift src v k :
  is_width w → in_uint w n → read_loop w i n shift src = Some (v, k) → in_uint w v.
Proof.
  intros Hw. assert (0 ≤ w) by (destruct Hw; lia).
  revert i n shift. induction src as [|b src IH]; intros i n shift Hn; [done|].
  cbn [read_loop]. unfold checked_shl.
  repeat case_match; intros; simplify_eq; eauto using lor_range, wrap_range.
Qed.

Lemma read_range w src v k : is_width w → read w src = Some (v, k) → in_uint w v.
Proof.
  intros Hw. unfold read. destruct src; [done|]. apply read_loop_range; [done|].
  split; [lia|]. destruct Hw; subst; done.
Qed.

(** [common_read] agrees with [read] whenever the latter succeeds. *)
Lemma common_read_loop_read w i n shift src r :
  read_loop w i n shift src = Some r → common_read_loop w i n shift src = r.
Proof.
  revert i n shift. induction src as [|b src IH]; intros i n shift; [done|].
  cbn [read_loop common_read_loop]. repeat case_match; intros; simplify_eq; eauto.
Qed.

Lemma common_read_read w src r : read w src = Some r → common_read w src = r.
Proof. unfold read, common_read. destruct src; [done|]. apply common_read_loop_read. Qed.

Lemma common_read_varint w n rest :
  is_width w → in_uint w n →
  common_read w (varint_bytes w n ++ rest) = (n, len (varint_bytes w n)).
Proof. intros. by apply common_read_read, read_varint. Qed.

#[export] Hint Resolve varint_bytes_ok : uint.
Arguments varint_bytes : simpl never.
Arguments read : simpl never.
Arguments common_read : simpl never.

(** Variable-length integers round trip at both widths.  [put_varint] appends
    at least one and at most [MAX_VARINT_LEN] bytes and returns their number, and
    [read], [common_read] and [drain_read] recover the value and exactly the
    bytes it occupies, whatever follows. *)
Theorem varint_roundtrip (w n : Z) (dst rest : bytes) :
  is_width w → in_uint w n →
  ∃ enc k, put_varint w dst n = (dst ++ enc, k) ∧ k = len enc ∧ 1 ≤ k ≤ max_bytes w ∧
    read w (enc ++ rest) = Some (n, k) ∧ common_read w (enc ++ rest) = (n, k) ∧
    drain_read w (enc ++ rest) = Some (n, rest).
Proof.
  intros Hw Hn. exists (varint_bytes w n), (len (varint_bytes w n)).
  pose proof (varint_bytes_len w n Hw).
  rewrite (surjective_pairing (put_varint w dst n)), put_varint_eq, put_varint_written.
  split_and!; [done|done|lia|lia|by apply read_varint|by apply common_read_varint|
    by apply drain_read_varint].
Qed.

Lemma varint_roundtrip_witness :
  ∃ enc k, put_varint 64 [7] 300 = ([7] ++ enc, k) ∧ k = len enc ∧ 1 ≤ k ≤ max_bytes 64 ∧
    read 64 (enc ++ [9]) = Some (300, k) ∧ common_read 64 (enc ++ [9]) = (300, k) ∧
    drain_read 64 (enc ++ [9]) = Some (300, [9]).
Proof. apply (varint_roundtrip 64 300 [7] [9]); [by right|split; [lia|reflexivity]]. Defined.

(** Length-prefixed slices round trip, except the empty one: what
    [put_varint_prefixed_slice] appends for a non-empty slice is read back by
    [get_varint_prefixed_slice] as that slice and the untouched rest, while for
    an empty slice nothing at all is appended, not even the length. *)
Theorem prefixed_slice_roundtrip (w : Z) (dst s rest : bytes) :
  is_width w → len s < 2 ^ w →
  ∃ enc, put_varint_prefixed_slice w dst s = dst ++ enc ∧
    if decide (s = []) then enc = []
    else get_varint_prefixed_slice w (enc ++ rest) = Some (s, rest).
Proof.
  intros Hw Hs. case_decide as Hnil.
  - subst. exists []. by rewrite app_nil_r.
  - exists (varint_bytes w (len s) ++ s). split; [by apply put_prefixed_eq|].
    rewrite <- app_assoc. by apply get_prefixed_bytes.
Qed.

Lemma prefixed_slice_roundtrip_witness :
  ∃ enc, put_varint_prefixed_slice 32 [] [1; 2] = [] ++ enc ∧
    get_varint_prefixed_slice 32 (enc ++ [5]) = Some ([1; 2], [5]).
Proof. apply (prefixed_slice_roundtrip 32 [] [1; 2] [5]); [by left|reflexivity]. Defined.

(** The documentation of [read] promises [None] on overflow, but only the shift
    amount is checked: the high bits of the fifth byte of a [u32] are dropped. *)
Example read_u32_drops_high_bits : read 32 [255; 255; 255; 255; 127] = Some (2 ^ 32 - 1, 5).
Proof. vm_compute. reflexivity. Qed.
