(* ===== verification/Comparator.v ===== *)
(** * Comparators

    Models [src/src/util/comparator.rs]: the trait [Comparator] as a class of
    operations, what its documentation promises as a class of laws, and the
    built-in [BytewiseComparator].  Operations return an [outcome] because a
    comparator of internal keys panics on keys that are too short. *)
From S2P Require Import Prelude.
Local Open Scope Z_scope.

(** The trait. *)
Class Comparator : Type := {
  compare : bytes → bytes → outcome comparison;
  cmp_name : string;
  separator : bytes → bytes → outcome bytes;
  successor : bytes → outcome bytes
}.

(** A total preorder on keys: [Eq] may be coarser than equality of byte
    strings (two internal keys that differ only in their type compare [Eq]). *)
Class KeyOrder (ord : bytes → bytes → comparison) : Prop := {
  ord_refl : ∀ a, ord a a = Eq;
  ord_opp : ∀ a b, ord b a = CompOpp (ord a b);
  ord_lt_trans : ∀ a b c, ord a b = Lt → ord b c = Lt → ord a c = Lt;
  ord_eq_l : ∀ a b c, ord a b = Eq → ord a c = ord b c
}.

Arguments ord_refl ord {_} a.
Arguments ord_opp ord {_} a b.
Arguments ord_lt_trans ord {_} a b c.
Arguments ord_eq_l ord {_} a b c.

(** [compare] computes [ord] on the keys satisfying [key_ok]. *)
Class ComparatorOrder (C : Comparator) (key_ok : bytes → Prop)
    (ord : bytes → bytes → comparison) : Prop := {
  comparator_order :: KeyOrder ord;
  compare_ord : ∀ a b, key_ok a → key_ok b → compare a b = Ok (ord a b)
}.

(** The documented contract of [separator] and [successor]. *)
Class ComparatorShortening (C : Comparator) (key_ok : bytes → Prop)
    (ord : bytes → bytes → comparison) : Prop := {
  separator_spec : ∀ a b, key_ok a → key_ok b → ord a b = Lt →
    ∃ k, separator a b = Ok k ∧ key_ok k ∧ ord a k ≠ Gt ∧ ord k b = Lt;
  separator_id : ∀ a b, key_ok a → key_ok b → ord a b ≠ Lt → separator a b = Ok a;
  successor_spec : ∀ a, key_ok a → ∃ k, successor a = Ok k ∧ key_ok k ∧ ord a k ≠ Gt
}.

(** ** Order reasoning for any comparator *)
Section order.
Context (ord : bytes → bytes → comparison) {KO : KeyOrder ord}.
Implicit Types a b c : bytes.

Lemma ord_gt_lt a b : ord a b = Gt ↔ ord b a = Lt.
Proof. rewrite (ord_opp ord b a). destruct (ord b a); naive_solver. Qed.
Lemma ord_eq_sym a b : ord a b = Eq → ord b a = Eq.
Proof. rewrite (ord_opp ord a b). by intros ->. Qed.
Lemma ord_eq_r a b c : ord a b = Eq → ord c a = ord c b.
Proof. intros H. by rewrite (ord_opp ord a c), (ord_opp ord b c), (ord_eq_l ord _ _ c H). Qed.
Lemma ord_eq_trans a b c : ord a b = Eq → ord b c = Eq → ord a c = Eq.
Proof. intros H1 H2. by rewrite (ord_eq_l ord _ _ _ H1). Qed.
Lemma ord_le_lt_trans a b c : ord a b ≠ Gt → ord b c = Lt → ord a c = Lt.
Proof.
  intros Hab Hbc. destruct (ord a b) eqn:E; [|by eapply (ord_lt_trans ord)|done].
  by rewrite (ord_eq_l ord _ _ _ E).
Qed.
Lemma ord_lt_le_trans a b c : ord a b = Lt → ord b c ≠ Gt → ord a c = Lt.
Proof.
  intros Hab Hbc. destruct (ord b c) eqn:E; [|by eapply (ord_lt_trans ord)|done].
  by rewrite <- (ord_eq_r _ _ _ E).
Qed.
Lemma ord_le_trans a b c : ord a b ≠ Gt → ord b c ≠ Gt → ord a c ≠ Gt.
Proof.
  intros Hab Hbc. destruct (ord a b) eqn:E; [|by rewrite (ord_lt_le_trans a b c)|done].
  by rewrite (ord_eq_l ord _ _ _ E).
Qed.
Lemma ord_lt_irrefl a : ord a a ≠ Lt.
Proof. by rewrite (ord_refl ord). Qed.
Lemma ord_lt_not_lt a b : ord a b = Lt → ord b a ≠ Lt.
Proof. rewrite (ord_opp ord a b). by intros ->. Qed.
Lemma ord_not_lt a b : ord a b ≠ Lt ↔ ord b a ≠ Gt.
Proof. rewrite (ord_opp ord a b). destruct (ord a b); naive_solver. Qed.
End order.

(** ** Lexicographic order on byte strings: [a.cmp(b)] on [&[u8]] *)
Fixpoint lex_compare (a b : bytes) : comparison :=
  match a, b with
  | [], [] => Eq
  | [], _ :: _ => Lt
  | _ :: _, [] => Gt
  | x :: a', y :: b' =>
      match Z.compare x y with
      | Eq => lex_compare a' b'
      | c => c
      end
  end.

(** [while i < min(a.len(), b.len()) && a[i] == b[i] { i += 1 }] *)
Fixpoint common_prefix_len (a b : bytes) : nat :=
  match a, b with
  | x :: a', y :: b' => if x =? y then S (common_prefix_len a' b') else O
  | _, _ => O
  end.

Module BytewiseComparator.

Definition bw_separator (a b : bytes) : outcome bytes :=
  let min_size := (length a `min` length b)%nat in
  let diff_index := common_prefix_len a b in
  if bool_decide (min_size ≤ diff_index)%nat then Ok a
  else
    x ← index a diff_index;
    y ← index b diff_index;
    if negb (x =? 255) && (x + 1 <? y) then
      res ← slice_to a (S diff_index);
      Ok (<[diff_index := x + 1]> res)
    else Ok a.

(** The loop of [successor]: [pre] is the run of [0xff] bytes already passed. *)
Fixpoint bw_successor_loop (pre key : bytes) : option bytes :=
  match key with
  | [] => None
  | byte :: key' =>
      if negb (byte =? 255) then Some (pre ++ [byte + 1])
      else bw_successor_loop (pre ++ [byte]) key'
  end.

Definition bw_successor (key : bytes) : outcome bytes :=
  match bw_successor_loop [] key with
  | Some res => Ok res
  | None => Ok key
  end.

Definition bytewise : Comparator := {|
  compare a b := Ok (lex_compare a b);
  cmp_name := "leveldb.BytewiseComparator";
  separator := bw_separator;
  successor := bw_successor
|}.

End BytewiseComparator.
Export BytewiseComparator.

(** *** Lemmas *)

Lemma lex_refl a : lex_compare a a = Eq.
Proof. induction a; simpl; [done|]. by rewrite Z.compare_refl. Qed.

Lemma lex_opp a b : lex_compare b a = CompOpp (lex_compare a b).
Proof.
  revert b. induction a as [|x a IH]; intros [|y b]; simpl; try done.
  rewrite (Z.compare_antisym x y). by destruct (x ?= y); simpl.
Qed.

Lemma lex_eq a b : lex_compare a b = Eq ↔ a = b.
Proof.
  split; [|intros ->; apply lex_refl].
  revert b. induction a as [|x a IH]; intros [|y b]; simpl; try done.
  destruct (Z.compare_spec x y); intros; try done. f_equal; auto.
Qed.

Lemma lex_lt_trans a b c :
  lex_compare a b = Lt → lex_compare b c = Lt → lex_compare a c = Lt.
Proof.
  revert b c. induction a as [|x a IH]; intros [|y b] [|z c]; simpl; try done.
  destruct (Z.compare_spec x y), (Z.compare_spec y z), (Z.compare_spec x z);
    intros; try done; try lia; eauto.
Qed.

#[export] Instance lex_order : KeyOrder lex_compare.
Proof.
  split.
  - apply lex_refl.
  - apply lex_opp.
  - apply lex_lt_trans.
  - intros a b c H. apply lex_eq in H. by subst.
Qed.

#[export] Instance bytewise_order P : ComparatorOrder bytewise P lex_compare.
Proof. split; [apply _|done]. Qed.

Lemma lex_app p a b : lex_compare (p ++ a) (p ++ b) = lex_compare a b.
Proof. induction p; simpl; [done|]. by rewrite Z.compare_refl. Qed.

(** The two strings after their common prefix. *)
Lemma common_prefix_split a b :
  let d := common_prefix_len a b in
  (d ≤ length a ∧ d ≤ length b)%nat ∧ take d a = take d b ∧
  ∀ x y, a !! d = Some x → b !! d = Some y → x ≠ y.
Proof.
  revert b. induction a as [|x a IH]; intros [|y b]; cbn; try (split_and!; (done || lia)).
  destruct (Z.eqb_spec x y) as [->|Hne]; cbn.
  - destruct (IH b) as ([??] & ? & ?). split_and!; try lia; [by f_equal|done].
  - split_and!; try lia; [done|]. intros. by simplify_eq.
Qed.

Lemma lex_split (l k : bytes) d x y :
  take d l = take d k → l !! d = Some x → k !! d = Some y →
  lex_compare l k =
    match Z.compare x y with Eq => lex_compare (drop (S d) l) (drop (S d) k) | c => c end.
Proof.
  intros Ht Hx Hy. rewrite <- (take_drop_middle _ _ _ Hx), <- (take_drop_middle _ _ _ Hy), Ht.
  rewrite lex_app. simpl. apply lookup_lt_Some in Hx, Hy.
  assert (length (take d k) = d) as Hd by (rewrite length_take; lia).
  rewrite !drop_app_ge by lia. rewrite Hd. by replace (S d - d)%nat with 1%nat by lia.
Qed.

Lemma bw_separator_spec a b :
  bytes_ok a → bytes_ok b → lex_compare a b = Lt →
  ∃ k, bw_separator a b = Ok k ∧ bytes_ok k ∧ lex_compare a k ≠ Gt ∧ lex_compare k b = Lt.
Proof.
  intros Ha Hb Hlt. unfold bw_separator. case_bool_decide as Hd.
  { exists a. by rewrite lex_refl. }
  destruct (common_prefix_split a b) as ([Hda Hdb] & Ht & Hne). set (d := common_prefix_len a b) in *.
  destruct (lookup_lt_is_Some_2 a d ltac:(lia)) as [x Hx].
  destruct (lookup_lt_is_Some_2 b d ltac:(lia)) as [y Hy].
  unfold index. rewrite Hx, Hy. cbn. case_match eqn:Hc; [|exists a; by rewrite lex_refl].
  apply andb_true_iff in Hc as [_ Hxy%Z.ltb_lt].
  rewrite slice_to_ok by lia. cbn. eexists. split; [done|].
  pose proof (Forall_lookup_1 _ _ _ _ Ha Hx) as Hx8. pose proof (Forall_lookup_1 _ _ _ _ Hb Hy) as Hy8.
  assert (<[d:=x + 1]> (take (S d) a) = take d a ++ [x + 1]) as ->.
  { rewrite (take_S_r _ _ _ Hx). rewrite insert_app_r_alt by (rewrite length_take; lia).
    rewrite length_take. by replace (d - _)%nat with O by lia. }
  split; [apply Forall_app; split; [by apply Forall_take|];
          constructor; [unfold is_byte in *; lia|constructor]|].
  assert (take d (take d a ++ [x + 1]) = take d a) as Htk by (apply take_app_length'; rewrite length_take; lia).
  assert ((take d a ++ [x + 1]) !! d = Some (x + 1)) as Hlk
    by (rewrite lookup_app_r by (rewrite length_take; lia); rewrite length_take;
        by replace (d - _)%nat with O by lia).
  rewrite (lex_split a _ d x (x + 1)) by done.
  rewrite (lex_split _ b d (x + 1) y) by (done || congruence).
  rewrite (proj2 (Z.compare_lt_iff x (x + 1))), (proj2 (Z.compare_lt_iff (x + 1) y)) by lia. done.
Qed.

Lemma bw_separator_id a b : lex_compare a b ≠ Lt → bw_separator a b = Ok a.
Proof.
  intros Hge. unfold bw_separator. case_bool_decide as Hd; [done|].
  destruct (common_prefix_split a b) as ([Hda Hdb] & Ht & Hne). set (d := common_prefix_len a b) in *.
  destruct (lookup_lt_is_Some_2 a d ltac:(lia)) as [x Hx].
  destruct (lookup_lt_is_Some_2 b d ltac:(lia)) as [y Hy].
  rewrite (lex_split a b d x y) in Hge by done.
  unfold index. rewrite Hx, Hy. cbn. destruct (Z.ltb_spec (x + 1) y); [|by rewrite andb_false_r].
  by rewrite (proj2 (Z.compare_lt_iff x y)) in Hge by lia.
Qed.

Lemma bw_successor_loop_spec pre key k :
  bw_successor_loop pre key = Some k → bytes_ok pre → bytes_ok key →
  bytes_ok k ∧ lex_compare (pre ++ key) k = Lt.
Proof.
  revert pre. induction key as [|byte key IH]; intros pre; [done|]. simpl. case_match eqn:E.
  - intros [= <-] Hp [Hb ?]%Forall_cons. rewrite lex_app. simpl.
    rewrite (proj2 (Z.compare_lt_iff byte (byte + 1))) by lia. split; [|done].
    apply Forall_app; split; [done|]. constructor; [|constructor].
    apply negb_true_iff, Z.eqb_neq in E. unfold is_byte in *. lia.
  - intros H' Hp [Hb ?]%Forall_cons. apply IH in H' as [? H']; [|by apply Forall_app; auto|done].
    by rewrite <- app_assoc in H'.
Qed.

Lemma bw_successor_spec key :
  bytes_ok key → ∃ k, bw_successor key = Ok k ∧ bytes_ok k ∧ lex_compare key k ≠ Gt.
Proof.
  intros Hk. unfold bw_successor.
  destruct (bw_successor_loop [] key) as [k|] eqn:E; eexists; split; try done.
  - apply bw_successor_loop_spec in E as [? E]; [|constructor|done]. simpl in E. by rewrite E.
  - by rewrite lex_refl.
Qed.

#[export] Instance bytewise_shortening : ComparatorShortening bytewise bytes_ok lex_compare.
Proof.
  split; [apply bw_separator_spec|intros a b _ _; apply bw_separator_id|apply bw_successor_spec].
Qed.

(** The vectors of [tests::test_bytewise_comparator_separator]. *)
Example bw_separator_vectors :
  bw_separator [49;49;49;49] [49;51;51;52;53] = Ok [49;50] ∧
  bw_separator [49] [50] = Ok [49] ∧
  bw_separator [48;255] [48;49;50;51] = Ok [48;255] ∧
  bw_successor [255;255;1] = Ok [255;255;2].
Proof. vm_compute. auto. Qed.

(** The bytewise comparator keeps the contract of the [Comparator] trait.
    For byte strings [a < b], [separator a b] is a key [k] with [a <= k < b]; for
    [a >= b] it is [a]; and [successor a] is a key [k >= a]. *)
Theorem bytewise_contract (a b : bytes) :
  bytes_ok a → bytes_ok b →
  (lex_compare a b = Lt → ∃ k, bw_separator a b = Ok k ∧ bytes_ok k ∧
     lex_compare a k ≠ Gt ∧ lex_compare k b = Lt) ∧
  (lex_compare a b ≠ Lt → bw_separator a b = Ok a) ∧
  ∃ k, bw_successor a = Ok k ∧ bytes_ok k ∧ lex_compare a k ≠ Gt.
Proof.
  intros Ha Hb. split_and!; intros.
  - by apply (separator_spec (C := bytewise)).
  - by apply (separator_id (C := bytewise) (key_ok := bytes_ok) (ord := lex_compare)).
  - by apply (successor_spec (C := bytewise)).
Qed.

Lemma bytewise_contract_witness :
  (lex_compare [97; 98; 99] [97; 122] = Lt → ∃ k, bw_separator [97; 98; 99] [97; 122] = Ok k ∧
     bytes_ok k ∧ lex_compare [97; 98; 99] k ≠ Gt ∧ lex_compare k [97; 122] = Lt) ∧
  (lex_compare [97; 98; 99] [97; 122] ≠ Lt → bw_separator [97; 98; 99] [97; 122] = Ok [97; 98; 99]) ∧
  ∃ k, bw_successor [97; 98; 99] = Ok k ∧ bytes_ok k ∧ lex_compare [97; 98; 99] k ≠ Gt.
Proof.
  apply (bytewise_contract [97; 98; 99] [97; 122]); repeat constructor; discriminate.
Defined.
