(* ===== verification/Format.v ===== *)
(** * Internal keys

    Models the key encodings of [src/src/db/format.rs]: value types, internal
    keys, lookup keys, and the comparator of internal keys built on top of a
    user comparator. *)
From S2P Require Import Prelude Coding Varint Comparator.
Local Open Scope Z_scope.

Definition MAX_KEY_SEQUENCE : Z := 2 ^ 56 - 1.
Definition INTERNAL_KEY_TAIL : nat := 8.

Inductive ValueType : Type := Deletion | Value | Unknown.

#[export] Instance ValueType_eq_dec : EqDecision ValueType.
Proof. solve_decision. Defined.

(** [v_type as u64] *)
Definition value_type_code (t : ValueType) : Z :=
  match t with Deletion => 0 | Value => 1 | Unknown => 2 end.

Definition VALUE_TYPE_FOR_SEEK : ValueType := Value.

(** [impl From<u64> for ValueType] *)
Definition value_type_from (v : Z) : ValueType :=
  if v =? 1 then Value else if v =? 0 then Deletion else Unknown.

Definition pack_seq_and_type (seq : Z) (v_type : ValueType) : outcome Z :=
  _ ← rust_assert (seq <=? MAX_KEY_SEQUENCE);
  Ok (Z.lor (Z.shiftl seq 8) (value_type_code v_type)).

Definition extract_user_key (key : bytes) : outcome bytes :=
  let size := length key in
  _ ← rust_assert (bool_decide (INTERNAL_KEY_TAIL ≤ size)%nat);
  slice_to key (size - INTERNAL_KEY_TAIL)%nat.

Definition extract_seq_number (key : bytes) : outcome Z :=
  let size := length key in
  _ ← rust_assert (bool_decide (INTERNAL_KEY_TAIL ≤ size)%nat);
  tail ← slice_from key (size - INTERNAL_KEY_TAIL)%nat;
  Ok (Z.shiftr (decode_fixed_64 tail) 8).

Record ParsedInternalKey : Type := mkParsed {
  pk_user_key : bytes;
  pk_seq : Z;
  pk_value_type : ValueType
}.

(** [ParsedInternalKey::decode_from] *)
Definition decode_from (internal_key : bytes) : option ParsedInternalKey :=
  let size := length internal_key in
  if bool_decide (size < INTERNAL_KEY_TAIL)%nat then None
  else
    let num := decode_fixed_64 (drop (size - INTERNAL_KEY_TAIL) internal_key) in
    let t := value_type_from (Z.land num 0xff) in
    if bool_decide (t = Unknown) then None
    else Some (mkParsed (take (size - INTERNAL_KEY_TAIL) internal_key) (Z.shiftr num 8) t).

(** [InternalKey] is a wrapper around its bytes. *)
Record InternalKey : Type := mkIKey { ik_data : bytes }.

#[export] Instance InternalKey_eq_dec : EqDecision InternalKey.
Proof. solve_decision. Defined.

Definition ikey_new (key : bytes) (seq : Z) (t : ValueType) : outcome InternalKey :=
  packed ← pack_seq_and_type seq t;
  Ok (mkIKey (put_fixed_64 key packed)).

Definition ikey_decoded_from (src : bytes) : InternalKey := mkIKey src.
Definition ikey_default : InternalKey := mkIKey [].
Definition ikey_is_empty (k : InternalKey) : bool := bool_decide (ik_data k = []).

(** [InternalKey::user_key]: [length - 8] underflows on a short key. *)
Definition ikey_user_key (k : InternalKey) : outcome bytes :=
  let length := length (ik_data k) in
  if bool_decide (length < INTERNAL_KEY_TAIL)%nat then Panic
  else slice_to (ik_data k) (length - INTERNAL_KEY_TAIL)%nat.

(** [InternalKey::parsed] *)
Definition ikey_parsed (k : InternalKey) : outcome (option ParsedInternalKey) :=
  let size := length (ik_data k) in
  if bool_decide (size < INTERNAL_KEY_TAIL)%nat then Panic
  else
    user_key ← slice_to (ik_data k) (size - INTERNAL_KEY_TAIL)%nat;
    tail ← slice_from (ik_data k) (size - INTERNAL_KEY_TAIL)%nat;
    let num := decode_fixed_64 tail in
    let t := value_type_from (Z.land num 0xff) in
    Ok (match t with
        | Unknown => None
        | _ => Some (mkParsed user_key (Z.shiftr num 8) t)
        end).

(** [ParsedInternalKey::encode] *)
Definition pk_encode (p : ParsedInternalKey) : outcome InternalKey :=
  ikey_new (pk_user_key p) (pk_seq p) (pk_value_type p).

Record LookupKey : Type := mkLookup { lk_data : bytes; lk_ukey_start : nat }.

Definition lookup_key_new (user_key : bytes) (seq_number : Z) : outcome LookupKey :=
  let '(data, ukey_start) := put_varint 32 [] (wrap 32 (len user_key + 8)) in
  packed ← pack_seq_and_type seq_number VALUE_TYPE_FOR_SEEK;
  Ok (mkLookup (put_fixed_64 (data ++ user_key) packed) (Z.to_nat ukey_start)).

Definition lk_mem_key (k : LookupKey) : bytes := lk_data k.
Definition lk_internal_key (k : LookupKey) : outcome bytes :=
  slice_from (lk_data k) (lk_ukey_start k).
Definition lk_user_key (k : LookupKey) : outcome bytes :=
  let len := length (lk_data k) in
  if bool_decide (len < INTERNAL_KEY_TAIL)%nat then Panic
  else slice (lk_data k) (lk_ukey_start k) (len - INTERNAL_KEY_TAIL)%nat.

(** ** [InternalKeyComparator<C>] *)
Definition icmp_compare (ucmp : Comparator) (a b : bytes) : outcome comparison :=
  ua ← extract_user_key a;
  ub ← extract_user_key b;
  c ← compare ua ub;
  match c with
  | Gt => Ok Gt
  | Lt => Ok Lt
  | Eq =>
      sa ← extract_seq_number a;
      sb ← extract_seq_number b;
      Ok (if sb <? sa then Lt else if sa =? sb then Eq else Gt)
  end.

Definition icmp_separator (ucmp : Comparator) (a b : bytes) : outcome bytes :=
  start ← extract_user_key a;
  end_ ← extract_user_key b;
  s ← separator start end_;
  shorter ← (if bool_decide (length s < length start)%nat
             then c ← compare start s; Ok (bool_decide (c = Lt)) else Ok false);
  if shorter : bool then
    packed ← pack_seq_and_type MAX_KEY_SEQUENCE VALUE_TYPE_FOR_SEEK;
    Ok (put_fixed_64 s packed)
  else Ok a.

Definition icmp_successor (ucmp : Comparator) (s : bytes) : outcome bytes :=
  ukey ← extract_user_key s;
  suc ← successor ukey;
  shorter ← (if bool_decide (length suc < length ukey)%nat
             then c ← compare ukey suc; Ok (bool_decide (c = Lt)) else Ok false);
  if shorter : bool then
    packed ← pack_seq_and_type MAX_KEY_SEQUENCE VALUE_TYPE_FOR_SEEK;
    Ok (put_fixed_64 suc packed)
  else Ok s.

Definition InternalKeyComparator (ucmp : Comparator) : Comparator := {|
  compare := icmp_compare ucmp;
  cmp_name := "leveldb.InternalKeyComparator";
  separator := icmp_separator ucmp;
  successor := icmp_successor ucmp
|}.

(** ** Lemmas *)

(** The fields of an internal key, as total functions. *)
Definition ukey (k : bytes) : bytes := take (length k - 8) k.
Definition ktag (k : bytes) : Z := decode_fixed_64 (drop (length k - 8) k).
Definition kseq (k : bytes) : Z := ktag k / 256.

(** The encoding of the internal key [(u, seq, t)]. *)
Definition ikey (u : bytes) (seq : Z) (t : ValueType) : bytes :=
  u ++ to_le_bytes 8 (seq * 256 + value_type_code t).

Definition seq_ok (seq : Z) : Prop := 0 ≤ seq ≤ MAX_KEY_SEQUENCE.

(** A valid internal key over user keys satisfying [uok]. *)
Definition ikey_ok (uok : bytes → Prop) (k : bytes) : Prop :=
  (8 ≤ length k)%nat ∧ uok (ukey k).

Lemma value_type_code_range t : 0 ≤ value_type_code t < 256.
Proof. destruct t; simpl; lia. Qed.

Lemma value_type_from_code t : value_type_from (value_type_code t) = t.
Proof. by destruct t. Qed.

Lemma pack_eq seq t : seq_ok seq → pack_seq_and_type seq t = Ok (seq * 256 + value_type_code t).
Proof.
  intros [H0 H]. unfold pack_seq_and_type. rewrite (proj2 (Z.leb_le _ _)) by done. simpl. f_equal.
  rewrite Z.lor_comm, Z.shiftl_mul_pow2 by lia. rewrite lor_disjoint_add; [lia|lia|].
  apply value_type_code_range.
Qed.

Lemma pack_too_large seq t : MAX_KEY_SEQUENCE < seq → pack_seq_and_type seq t = Panic.
Proof. intros H. unfold pack_seq_and_type. by rewrite (proj2 (Z.leb_gt _ _)). Qed.

Arguments pack_seq_and_type : simpl never.

Lemma tag_range seq t : seq_ok seq → in_uint 64 (seq * 256 + value_type_code t).
Proof.
  intros [? H]. pose proof (value_type_code_range t).
  unfold MAX_KEY_SEQUENCE in H. split; lia.
Qed.

Lemma length_ikey u seq t : length (ikey u seq t) = (length u + 8)%nat.
Proof. unfold ikey. by rewrite length_app, length_to_le_bytes. Qed.

Lemma ukey_ikey u seq t : ukey (ikey u seq t) = u.
Proof. unfold ukey. rewrite length_ikey. apply take_app_length'. lia. Qed.

Lemma ktag_ikey u seq t : seq_ok seq → ktag (ikey u seq t) = seq * 256 + value_type_code t.
Proof.
  intros Hs. unfold ktag. rewrite length_ikey. unfold ikey.
  rewrite drop_app_length' by lia. rewrite <- (app_nil_r (to_le_bytes _ _)).
  by apply decode_fixed_64_app, tag_range.
Qed.

Lemma kseq_ikey u seq t : seq_ok seq → kseq (ikey u seq t) = seq.
Proof.
  intros Hs. unfold kseq. rewrite ktag_ikey by done. pose proof (value_type_code_range t).
  rewrite Z.add_comm, Z.div_add, Z.div_small by lia. lia.
Qed.

Lemma ikey_new_eq u seq t : seq_ok seq → ikey_new u seq t = Ok (mkIKey (ikey u seq t)).
Proof. intros Hs. unfold ikey_new. rewrite pack_eq by done. done. Qed.

Lemma extract_user_key_eq k : (8 ≤ length k)%nat → extract_user_key k = Ok (ukey k).
Proof.
  intros Hk. unfold extract_user_key, INTERNAL_KEY_TAIL. rewrite bool_decide_eq_true_2 by done.
  simpl. by rewrite slice_to_ok by lia.
Qed.

Lemma extract_user_key_short k : (length k < 8)%nat → extract_user_key k = Panic.
Proof.
  intros Hk. unfold extract_user_key, INTERNAL_KEY_TAIL.
  by rewrite bool_decide_eq_false_2 by lia.
Qed.

Lemma extract_seq_number_eq k : (8 ≤ length k)%nat → extract_seq_number k = Ok (kseq k).
Proof.
  intros Hk. unfold extract_seq_number, INTERNAL_KEY_TAIL. rewrite bool_decide_eq_true_2 by done.
  simpl. rewrite slice_from_ok by lia. simpl. by rewrite Z.shiftr_div_pow2 by lia.
Qed.

(** Decoding in full. *)
Lemma decode_from_spec k :
  decode_from k =
    if bool_decide (length k < 8)%nat then None
    else match value_type_from (ktag k mod 256) with
         | Unknown => None
         | t => Some (mkParsed (ukey k) (kseq k) t)
         end.
Proof.
  unfold decode_from, INTERNAL_KEY_TAIL. case_bool_decide; [done|].
  fold (ktag k). fold (ukey k). rewrite (land_pow2_mod _ 8) by lia. change (2 ^ 8) with 256.
  unfold kseq. rewrite Z.shiftr_div_pow2 by lia. change (2 ^ 8) with 256.
  by destruct (value_type_from _).
Qed.

Lemma decode_from_ikey u seq t :
  seq_ok seq → t ≠ Unknown → decode_from (ikey u seq t) = Some (mkParsed u seq t).
Proof.
  intros Hs Ht. rewrite decode_from_spec, length_ikey, bool_decide_eq_false_2 by lia.
  rewrite ukey_ikey, kseq_ikey, ktag_ikey by done. pose proof (value_type_code_range t).
  rewrite Z.add_comm, Z.mod_add, Z.mod_small, value_type_from_code by lia. by destruct t.
Qed.

Lemma ikey_parsed_decode k :
  (8 ≤ length k)%nat → ikey_parsed (mkIKey k) = Ok (decode_from k).
Proof.
  intros Hk. unfold ikey_parsed, decode_from, INTERNAL_KEY_TAIL; simpl.
  rewrite bool_decide_eq_false_2 by lia.
  rewrite slice_to_ok, slice_from_ok by lia. simpl.
  by destruct (value_type_from _).
Qed.

Lemma ikey_user_key_eq k : (8 ≤ length k)%nat → ikey_user_key (mkIKey k) = Ok (ukey k).
Proof.
  intros Hk. unfold ikey_user_key, INTERNAL_KEY_TAIL; simpl.
  rewrite bool_decide_eq_false_2 by lia. by rewrite slice_to_ok by lia.
Qed.

(** The order of internal keys: user keys ascending, then sequence numbers
    descending.  The type does not take part. *)
Definition iord (uord : bytes → bytes → comparison) (a b : bytes) : comparison :=
  match uord (ukey a) (ukey b) with
  | Eq => Z.compare (kseq b) (kseq a)
  | c => c
  end.

#[export] Instance iord_order uord `{!KeyOrder uord} : KeyOrder (iord uord).
Proof.
  split; unfold iord.
  - intros a. by rewrite (ord_refl uord), Z.compare_refl.
  - intros a b. rewrite (ord_opp uord (ukey a)). destruct (uord (ukey a) (ukey b)); simpl; try done.
    apply Z.compare_antisym.
  - intros a b c. destruct (uord (ukey a) (ukey b)) eqn:E1, (uord (ukey b) (ukey c)) eqn:E2; try done.
    + rewrite (ord_eq_trans uord _ _ _ E1 E2), !Z.compare_lt_iff. lia.
    + by rewrite (ord_eq_l uord _ _ _ E1), E2.
    + by rewrite <- (ord_eq_r uord _ _ _ E2), E1.
    + by rewrite (ord_lt_trans uord _ _ _ E1 E2).
  - intros a b c. destruct (uord (ukey a) (ukey b)) eqn:E; try done.
    rewrite (ord_eq_l uord _ _ _ E). intros ->%Z.compare_eq. done.
Qed.

#[export] Instance icmp_order ucmp uok uord :
  ComparatorOrder ucmp uok uord →
  ComparatorOrder (InternalKeyComparator ucmp) (ikey_ok uok) (iord uord).
Proof.
  intros CO. split; [apply _|]. intros a b [Ha Hua] [Hb Hub]. simpl. unfold icmp_compare, iord.
  rewrite (extract_user_key_eq a), (extract_user_key_eq b) by done. simpl.
  rewrite compare_ord by done. simpl.
  destruct (uord _ _); try done.
  rewrite !extract_seq_number_eq by done. simpl. f_equal.
  destruct (Z.ltb_spec (kseq b) (kseq a)); [symmetry; by apply Z.compare_lt_iff|].
  destruct (Z.eqb_spec (kseq a) (kseq b)); [symmetry; apply Z.compare_eq_iff; lia|].
  symmetry. apply Z.compare_gt_iff. lia.
Qed.

Lemma icmp_compare_short ucmp a b :
  (length a < 8)%nat ∨ (8 ≤ length a ∧ length b < 8)%nat →
  @compare (InternalKeyComparator ucmp) a b = Panic.
Proof.
  intros [Ha|[Ha Hb]]; simpl; unfold icmp_compare.
  - by rewrite (extract_user_key_short a) by lia.
  - by rewrite (extract_user_key_eq a), (extract_user_key_short b) by lia.
Qed.

(** The key with the largest sequence number of a user key sorts first. *)
Lemma iord_same_ukey uord `{!KeyOrder uord} u s1 t1 s2 t2 :
  seq_ok s1 → seq_ok s2 →
  iord uord (ikey u s1 t1) (ikey u s2 t2) = Z.compare s2 s1.
Proof.
  intros. unfold iord. by rewrite !ukey_ikey, (ord_refl uord), !kseq_ikey.
Qed.

Lemma iord_ukey uord u1 s1 t1 u2 s2 t2 :
  uord u1 u2 ≠ Eq → iord uord (ikey u1 s1 t1) (ikey u2 s2 t2) = uord u1 u2.
Proof. intros H. unfold iord. rewrite !ukey_ikey. by destruct (uord u1 u2). Qed.

Lemma ukey_put_fixed u v : ukey (put_fixed_64 u v) = u ∧ (8 ≤ length (put_fixed_64 u v))%nat.
Proof.
  rewrite put_fixed_64_eq. unfold ukey. rewrite length_app, length_to_le_bytes.
  split; [|lia]. apply take_app_length'. lia.
Qed.

(** [separator] and [successor] of internal keys inherit the contract. *)
#[export] Instance icmp_shortening ucmp uok uord :
  ComparatorOrder ucmp uok uord → ComparatorShortening ucmp uok uord →
  ComparatorShortening (InternalKeyComparator ucmp) (ikey_ok uok) (iord uord).
Proof.
  intros CO CS.
  assert (∀ a, ikey_ok uok a → iord uord a a ≠ Gt) as Hrefl
    by (intros a _; by rewrite (ord_refl (iord uord))).
  split; simpl.
  - intros a b Ha Hb Hlt. destruct (Ha) as [Hla Hua], (Hb) as [Hlb Hub].
    unfold icmp_separator. rewrite !extract_user_key_eq by done. simpl.
    destruct (decide (uord (ukey a) (ukey b) = Lt)) as [Hult|Hnlt].
    + destruct (separator_spec _ _ Hua Hub Hult) as (s & -> & Hs & Has & Hsb). simpl.
      case_bool_decide; simpl; [|by exists a; auto]. rewrite compare_ord by done. simpl.
      case_bool_decide as Hc; [|by exists a; auto].
      eexists. split; [done|].
      destruct (ukey_put_fixed s (Z.lor (MAX_KEY_SEQUENCE ≪ 8) 1)) as [Hu Hl].
      unfold ikey_ok, iord. rewrite Hu, Hc, Hsb. done.
    + rewrite separator_id by done. simpl. rewrite bool_decide_eq_false_2 by lia. simpl. exists a; auto.
  - intros a b [Hla Hua] [Hlb Hub] Hge. unfold icmp_separator.
    rewrite !extract_user_key_eq by done. simpl.
    rewrite separator_id; [|done..|]; [simpl; by rewrite bool_decide_eq_false_2 by lia|].
    intros Hc. apply Hge. unfold iord. by rewrite Hc.
  - intros a Ha. destruct (Ha) as [Hla Hua]. unfold icmp_successor.
    rewrite !extract_user_key_eq by done. simpl.
    destruct (successor_spec _ Hua) as (s & -> & Hs & Has). simpl.
    case_bool_decide; simpl; [|by exists a; auto]. rewrite compare_ord by done. simpl.
    case_bool_decide as Hc; [|by exists a; auto].
    eexists. split; [done|].
    destruct (ukey_put_fixed s (Z.lor (MAX_KEY_SEQUENCE ≪ 8) 1)) as [Hu Hl].
    unfold ikey_ok, iord. rewrite Hu, Hc. done.
Qed.

(** *** Lookup keys *)

Lemma lookup_key_new_eq u seq :
  seq_ok seq → len u + 8 < 2 ^ 32 →
  lookup_key_new u seq =
    Ok (mkLookup (varint_bytes 32 (len u + 8) ++ ikey u seq Value)
                 (length (varint_bytes 32 (len u + 8)))).
Proof.
  intros Hs Hl. unfold lookup_key_new, put_varint.
  rewrite wrap_small by (pose proof (len_nonneg u); unfold in_uint; lia).
  rewrite pack_eq by done. simpl. f_equal. f_equal.
  - by rewrite put_fixed_64_eq, <- app_assoc.
  - unfold len. simpl. lia.
Qed.

Lemma lookup_key_parts u seq k :
  seq_ok seq → len u + 8 < 2 ^ 32 → lookup_key_new u seq = Ok k →
  lk_internal_key k = Ok (ikey u seq Value) ∧ lk_user_key k = Ok u.
Proof.
  intros Hs Hl. rewrite lookup_key_new_eq by done. intros [= <-].
  unfold lk_internal_key, lk_user_key, INTERNAL_KEY_TAIL; simpl. split.
  - by rewrite slice_from_app.
  - rewrite length_app, length_ikey. rewrite bool_decide_eq_false_2 by lia.
    unfold ikey. apply slice_mid; lia.
Qed.

(** [tests::test_icmp_separator], on two of its vectors. *)
Example icmp_separator_vectors :
  icmp_separator bytewise (ikey [102;111;111] 100 Value) (ikey [104;101] 200 Value)
    = Ok (ikey [103] MAX_KEY_SEQUENCE Value) ∧
  icmp_separator bytewise (ikey [102;111;111] 100 Value) (ikey [102;111;111] 99 Value)
    = Ok (ikey [102;111;111] 100 Value).
Proof. vm_compute. auto. Qed.

(** ** Theorems *)

(** Internal keys decode to what they were built from.  For every user key,
    56-bit sequence number and value type, [InternalKey::new] succeeds, and
    [parsed], [decode_from], [user_key] and [extract_seq_number] give back the
    parts. *)
Theorem internal_key_roundtrip (u : bytes) (seq : Z) (t : ValueType) :
  0 ≤ seq ≤ MAX_KEY_SEQUENCE → t ≠ Unknown →
  ∃ k, ikey_new u seq t = Ok k ∧ ikey_parsed k = Ok (Some (mkParsed u seq t)) ∧
    decode_from (ik_data k) = Some (mkParsed u seq t) ∧ ikey_user_key k = Ok u ∧
    extract_user_key (ik_data k) = Ok u ∧ extract_seq_number (ik_data k) = Ok seq.
Proof.
  intros Hs Ht. exists (mkIKey (ikey u seq t)).
  assert (8 ≤ length (ikey u seq t))%nat as Hl by (rewrite length_ikey; lia).
  pose proof (decode_from_ikey u seq t Hs Ht) as Hdec.
  rewrite ikey_new_eq, ikey_parsed_decode, Hdec by done. simpl.
  rewrite Hdec, extract_user_key_eq, extract_seq_number_eq, ukey_ikey, kseq_ikey by done.
  split_and!; try done. unfold ikey_user_key, INTERNAL_KEY_TAIL. simpl.
  rewrite bool_decide_eq_false_2, slice_to_ok by lia. f_equal. apply ukey_ikey.
Qed.

Lemma internal_key_roundtrip_witness :
  ∃ k, ikey_new [97; 98] 5 Deletion = Ok k ∧
    ikey_parsed k = Ok (Some (mkParsed [97; 98] 5 Deletion)) ∧
    decode_from (ik_data k) = Some (mkParsed [97; 98] 5 Deletion) ∧
    ikey_user_key k = Ok [97; 98] ∧
    extract_user_key (ik_data k) = Ok [97; 98] ∧ extract_seq_number (ik_data k) = Ok 5.
Proof. apply (internal_key_roundtrip [97; 98] 5 Deletion); [split; discriminate|done]. Defined.



(** Shortening internal keys is safe.  If the user comparator keeps the
    contract of the trait, so does the internal one: for internal keys [a < b],
    [separator a b] is a well-formed internal key [k] with [a <= k < b]; for
    [a >= b] it is [a]; and [successor a] is an internal key [k >= a]. *)
Theorem internal_key_shortening (ucmp : Comparator) (uok : bytes → Prop) uord (a b : bytes) :
  ComparatorOrder ucmp uok uord → ComparatorShortening ucmp uok uord →
  ikey_ok uok a → ikey_ok uok b →
  (iord uord a b = Lt → ∃ k, icmp_separator ucmp a b = Ok k ∧ ikey_ok uok k ∧
     iord uord a k ≠ Gt ∧ iord uord k b = Lt) ∧
  (iord uord a b ≠ Lt → icmp_separator ucmp a b = Ok a) ∧
  ∃ k, icmp_successor ucmp a = Ok k ∧ ikey_ok uok k ∧ iord uord a k ≠ Gt.
Proof.
  intros CO CS Ha Hb. pose proof (icmp_shortening ucmp uok uord CO CS) as HS. split_and!; intros.
  - by apply (separator_spec (C := InternalKeyComparator ucmp)).
  - by apply (separator_id (C := InternalKeyComparator ucmp) (ComparatorShortening := HS)).
  - by apply (successor_spec (C := InternalKeyComparator ucmp)).
Qed.

Lemma internal_key_shortening_witness :
  (iord lex_compare (ikey [97; 97] 9 Value) (ikey [99] 4 Value) = Lt →
   ∃ k, icmp_separator bytewise (ikey [97; 97] 9 Value) (ikey [99] 4 Value) = Ok k ∧
     ikey_ok bytes_ok k ∧ iord lex_compare (ikey [97; 97] 9 Value) k ≠ Gt ∧
     iord lex_compare k (ikey [99] 4 Value) = Lt) ∧
  (iord lex_compare (ikey [97; 97] 9 Value) (ikey [99] 4 Value) ≠ Lt →
   icmp_separator bytewise (ikey [97; 97] 9 Value) (ikey [99] 4 Value) = Ok (ikey [97; 97] 9 Value)) ∧
  ∃ k, icmp_successor bytewise (ikey [97; 97] 9 Value) = Ok k ∧ ikey_ok bytes_ok k ∧
    iord lex_compare (ikey [97; 97] 9 Value) k ≠ Gt.
Proof.
  apply (internal_key_shortening bytewise bytes_ok lex_compare);
    [apply bytewise_order|apply bytewise_shortening|..];
    (split; [vm_compute; lia|vm_compute; repeat constructor; discriminate]).
Defined.
