(* ===== verification/Storage.v ===== *)
(** * Storage: the [File] interface and the in-memory file system

    [src/storage/mod.rs] (the [File] trait with its default method
    [read_exact_at], [do_write_string_to_file]) and [src/storage/mem.rs]
    ([InmemFile], [FileNode] with fault injection, [MemStorage]).

    A [&mut self] method is a function that returns its [Result] together with
    the new state of the receiver, so that the state is kept on errors too. *)
From stdpp Require Import gmap.
From S2P Require Import Prelude.
Open Scope Z_scope.

(** ** The [File] trait *)

Class File (F : Type) : Type := {
  file_write : F → bytes → outcome nat * F;
  file_flush : F → outcome unit * F;
  file_close : F → outcome unit * F;
  (** [seek(SeekFrom::Start(p))], the only form the crate uses. *)
  file_seek : F → Z → outcome Z * F;
  (** [read(buf)] with [buf.len() = n]: the bytes put at the front of [buf]. *)
  file_read : F → nat → outcome bytes * F;
  file_read_all : F → outcome bytes * F;
  file_len : F → outcome Z;
  file_lock : F → outcome unit * F;
  file_unlock : F → outcome unit * F;
  (** [read_at(buf, offset)] with [buf.len() = n]. *)
  file_read_at : F → nat → Z → outcome bytes * F;
}.

(** The default method [read_exact_at]: [acc] is the filled part of the
    buffer, [n] the length of the part still to fill.  [fuel] bounds the
    iterations (an interrupted read is retried without progress). *)
Fixpoint read_exact_loop `{File F} (fuel : nat) (f : F) (acc : bytes) (n : nat) (offset : Z)
    : outcome bytes * F :=
  match n with
  | O => (Ok acc, f)
  | S _ =>
    match fuel with
    | O => (OutOfFuel, f)
    | S fuel =>
      match file_read_at f n offset with
      | (Ok [], f) => (Err (IO KUnexpectedEof), f)
      | (Ok d, f) => read_exact_loop fuel f (acc ++ d) (n - length d) (offset + len d)
      | (Err (IO KInterrupted), f) => read_exact_loop fuel f acc n offset
      | (Err e, f) => (Err e, f)
      | (Panic, f) => (Panic, f)
      | (OutOfFuel, f) => (OutOfFuel, f)
      end
    end
  end.
Definition read_exact_at `{File F} (fuel : nat) (f : F) (n : nat) (offset : Z)
    : outcome bytes * F := read_exact_loop fuel f [] n offset.

(** What a healthy file promises to its clients: it is a byte sequence with a
    read cursor; writes append, reads advance the cursor. *)
Class FileLaws (F : Type) `{File F} : Type := {
  f_ok : F → Prop;
  f_contents : F → bytes;
  f_pos : F → nat;
  law_write f d : f_ok f → ∃ f', file_write f d = (Ok (length d), f') ∧ f_ok f' ∧
    f_contents f' = f_contents f ++ d ∧ f_pos f' = f_pos f;
  law_flush f : f_ok f → ∃ f', file_flush f = (Ok tt, f') ∧ f_ok f' ∧
    f_contents f' = f_contents f ∧ f_pos f' = f_pos f;
  law_close f : f_ok f → ∃ f', file_close f = (Ok tt, f') ∧ f_ok f' ∧
    f_contents f' = f_contents f;
  law_seek f p : f_ok f → in_uint 64 p → ∃ f', file_seek f p = (Ok p, f') ∧ f_ok f' ∧
    f_contents f' = f_contents f ∧ f_pos f' = Z.to_nat p;
  law_read f n : f_ok f → let d := take n (drop (f_pos f) (f_contents f)) in
    ∃ f', file_read f n = (Ok d, f') ∧ f_ok f' ∧
    f_contents f' = f_contents f ∧ f_pos f' = (f_pos f + length d)%nat;
  law_len f : f_ok f → file_len f = Ok (len (f_contents f));
  law_read_at f n off : f_ok f → 0 ≤ off → (0 < n)%nat → off + Z.of_nat n ≤ len (f_contents f) →
    ∃ f', file_read_at f n off = (Ok (take n (drop (Z.to_nat off) (f_contents f))), f') ∧
    f_ok f' ∧ f_contents f' = f_contents f ∧ f_pos f' = f_pos f;
}.

(** ** In-memory files *)

Module Mem.

(** [InmemFile]: a lock flag and a [Cursor<Vec<u8>>]. *)
Record InmemFile : Type := mkInmem { im_lock : bool; im_data : bytes; im_pos : Z }.

Definition inmem_default : InmemFile := mkInmem false [] 0.

(** [Cursor::position] is a [u64]; reading starts at [min(pos, len)]. *)
Definition inmem_write (f : InmemFile) (buf : bytes) : outcome nat * InmemFile :=
  (Ok (length buf), mkInmem (im_lock f) (im_data f ++ buf) (im_pos f)).
Definition inmem_close (f : InmemFile) : outcome unit * InmemFile :=
  (Ok tt, mkInmem (im_lock f) (im_data f) 0).
Definition inmem_seek (f : InmemFile) (p : Z) : outcome Z * InmemFile :=
  (Ok p, mkInmem (im_lock f) (im_data f) p).
Definition inmem_read (f : InmemFile) (n : nat) : outcome bytes * InmemFile :=
  let d := take n (drop (Z.to_nat (im_pos f)) (im_data f)) in
  (Ok d, mkInmem (im_lock f) (im_data f) (im_pos f + len d)).
Definition inmem_read_all (f : InmemFile) : outcome bytes * InmemFile :=
  (Ok (im_data f), mkInmem (im_lock f) (im_data f) (len (im_data f))).
Definition inmem_lock (f : InmemFile) : outcome unit * InmemFile :=
  if im_lock f then (Err (IO KOther), f)
  else (Ok tt, mkInmem true (im_data f) (im_pos f)).
Definition inmem_unlock (f : InmemFile) : outcome unit * InmemFile :=
  (Ok tt, mkInmem false (im_data f) (im_pos f)).
(** [length - 1] is computed before the comparison: on an empty file it
    underflows ([ck]: panic; otherwise it wraps to [u64::MAX]). *)
Definition inmem_read_at (ck : bool) (f : InmemFile) (n : nat) (offset : Z) : outcome bytes :=
  if decide (n = 0%nat) then Ok [] else
  let length_ := len (im_data f) in
  last ← usub ck 64 length_ 1;
  if bool_decide (offset > last) then Ok [] else
  if bool_decide (Z.of_nat n + offset > length_) then Err (IO KUnexpectedEof) else
  slice (im_data f) (Z.to_nat offset) (Z.to_nat offset + n).

#[export] Instance InmemFile_File ck : File InmemFile := {
  file_write := inmem_write;
  file_flush := λ f, (Ok tt, f);
  file_close := inmem_close;
  file_seek := inmem_seek;
  file_read := inmem_read;
  file_read_all := inmem_read_all;
  file_len := λ f, Ok (len (im_data f));
  file_lock := inmem_lock;
  file_unlock := inmem_unlock;
  file_read_at := λ f n off, (inmem_read_at ck f n off, f);
}.

(** [FileNode]: the in-memory file with its fault-injection switches; the
    [Arc]s are dereferenced, [fn_inner] is the file behind [inner]. *)
Record FileNode : Type := mkFileNode {
  fn_name : string;
  fn_data_sync_error : bool;
  fn_no_space : bool;
  fn_manifest_sync_error : bool;
  fn_manifest_write_error : bool;
  fn_count_random_reads : bool;
  fn_random_read_counter : Z;
  fn_inner : InmemFile;
}.

Definition with_inner (f : FileNode) (i : InmemFile) : FileNode :=
  mkFileNode (fn_name f) (fn_data_sync_error f) (fn_no_space f) (fn_manifest_sync_error f)
    (fn_manifest_write_error f) (fn_count_random_reads f) (fn_random_read_counter f) i.
Definition with_counter (f : FileNode) (n : Z) : FileNode :=
  mkFileNode (fn_name f) (fn_data_sync_error f) (fn_no_space f) (fn_manifest_sync_error f)
    (fn_manifest_write_error f) (fn_count_random_reads f) n (fn_inner f).

(** [str::contains]. *)
Fixpoint str_contains (pat s : string) : bool :=
  String.prefix pat s ||
  match s with String _ s' => str_contains pat s' | EmptyString => false end.

Definition is_manifest (f : FileNode) : bool := str_contains "MANIFEST" (fn_name f).

Definition on_inner {A} (f : FileNode) (r : outcome A * InmemFile) : outcome A * FileNode :=
  (r.1, with_inner f r.2).

Definition filenode_write (f : FileNode) (buf : bytes) : outcome nat * FileNode :=
  if is_manifest f && fn_manifest_write_error f then (Err (IO KOther), f)
  else if fn_no_space f then (Ok 0%nat, f)
  else on_inner f (inmem_write (fn_inner f) buf).
Definition filenode_flush (f : FileNode) : outcome unit * FileNode :=
  if is_manifest f then
    if fn_manifest_sync_error f then (Err (IO KOther), f) else (Ok tt, f)
  else if fn_data_sync_error f then (Err (IO KOther), f)
  else (Ok tt, f).
Definition filenode_read_at (ck : bool) (f : FileNode) (n : nat) (offset : Z)
    : outcome bytes * FileNode :=
  let f := if fn_count_random_reads f then with_counter f (fn_random_read_counter f + 1) else f in
  (inmem_read_at ck (fn_inner f) n offset, f).

#[export] Instance FileNode_File ck : File FileNode := {
  file_write := filenode_write;
  file_flush := filenode_flush;
  file_close := λ f, on_inner f (inmem_close (fn_inner f));
  file_seek := λ f p, on_inner f (inmem_seek (fn_inner f) p);
  file_read := λ f n, on_inner f (inmem_read (fn_inner f) n);
  file_read_all := λ f, on_inner f (inmem_read_all (fn_inner f));
  file_len := λ f, Ok (len (im_data (fn_inner f)));
  file_lock := λ f, on_inner f (inmem_lock (fn_inner f));
  file_unlock := λ f, on_inner f (inmem_unlock (fn_inner f));
  file_read_at := filenode_read_at ck;
}.

(** The switches are all off. *)
Definition no_fault (f : FileNode) : bool :=
  negb (fn_data_sync_error f) && negb (fn_no_space f)
  && negb (fn_manifest_sync_error f) && negb (fn_manifest_write_error f).

(** *** The files satisfy the interface *)

Lemma inmem_read_at_ok ck f n off :
  0 ≤ off → (0 < n)%nat → off + Z.of_nat n ≤ len (im_data f) →
  inmem_read_at ck f n off = Ok (take n (drop (Z.to_nat off) (im_data f))).
Proof.
  intros Hoff Hn Hle. unfold inmem_read_at. rewrite decide_False by lia.
  unfold usub. rewrite (proj2 (Z.leb_le _ _)) by lia. simpl.
  rewrite !bool_decide_eq_false_2 by lia.
  rewrite slice_ok by (unfold len in Hle; lia). by replace (_ + n - _)%nat with n by lia.
Qed.

#[export] Instance InmemFile_laws ck : @FileLaws InmemFile (InmemFile_File ck).
Proof.
  refine (@Build_FileLaws _ (InmemFile_File ck) (λ f, 0 ≤ im_pos f) im_data
            (λ f, Z.to_nat (im_pos f)) _ _ _ _ _ _ _); simpl.
  - intros f d Hf. by eexists.
  - intros f Hf. by eexists.
  - intros f Hf. by eexists.
  - intros f p Hf [? ?]. by eexists.
  - intros f n Hf. eexists. split; [done|]. simpl. unfold len. split_and!; [lia|done|lia].
  - done.
  - intros f n off Hf Hoff Hn Hle. exists f. by rewrite inmem_read_at_ok.
Defined.

Definition node_ok (f : FileNode) : Prop := no_fault f = true ∧ 0 ≤ im_pos (fn_inner f).

Lemma no_fault_inv f : no_fault f = true →
  fn_data_sync_error f = false ∧ fn_no_space f = false ∧
  fn_manifest_sync_error f = false ∧ fn_manifest_write_error f = false.
Proof.
  unfold no_fault. rewrite !andb_true_iff, !negb_true_iff. tauto.
Qed.

#[export] Instance FileNode_laws ck : @FileLaws FileNode (FileNode_File ck).
Proof.
  refine (@Build_FileLaws _ (FileNode_File ck) node_ok (λ f, im_data (fn_inner f))
            (λ f, Z.to_nat (im_pos (fn_inner f))) _ _ _ _ _ _ _); simpl; unfold node_ok.
  - intros f d [(?&Hs&?&Hw)%no_fault_inv ?]. unfold filenode_write.
    rewrite Hw, Hs, andb_false_r. eexists. split; [done|].
    unfold no_fault; simpl. split_and!; try done.
    by repeat match goal with H : _ = false |- _ => rewrite H end.
  - intros f [Hn ?]. destruct (no_fault_inv _ Hn) as (Hd&?&Hm&?). exists f.
    unfold filenode_flush. rewrite Hd, Hm. split; [by destruct (is_manifest f)|done].
  - intros f [Hn ?]. eexists. split; [done|]. by split_and!.
  - intros f p [Hn ?] [? ?]. eexists. split; [done|]. by split_and!.
  - intros f n [Hn ?]. eexists. split; [done|]. simpl. unfold len. split_and!; [done|lia|done|lia].
  - done.
  - intros f n off [Hn ?] Hoff Hn' Hle. unfold filenode_read_at.
    destruct (fn_count_random_reads f); eexists; (split; [by rewrite inmem_read_at_ok|]);
      simpl; by split_and!.
Defined.
End Mem.
Export Mem.

(** ** [read_exact_at] reads exactly the requested bytes *)
Lemma read_exact_at_ok `{FileLaws F} m f n off :
  f_ok f → 0 ≤ off → off + Z.of_nat n ≤ len (f_contents f) →
  ∃ f', read_exact_at (S m) f n off = (Ok (take n (drop (Z.to_nat off) (f_contents f))), f') ∧
    f_ok f' ∧ f_contents f' = f_contents f ∧ f_pos f' = f_pos f.
Proof.
  intros Hok Hoff Hle. unfold read_exact_at. destruct n as [|n]; [simpl; eauto|].
  destruct (law_read_at f (S n) off) as (f' & Hr & ?); [done|lia..|].
  cbn [read_exact_loop]. rewrite Hr. exists f'. split; [|done].
  set (d := take (S n) (drop (Z.to_nat off) (f_contents f))) in *.
  assert (length d = S n) as Hd.
  { unfold d. rewrite length_take, length_drop. unfold len in Hle. lia. }
  destruct d as [|b d]; [done|]. rewrite Hd, Nat.sub_diag. by destruct m.
Qed.
