(* ===== verification/Record.v ===== *)
(** * The record log: [src/record/mod.rs], [writer.rs], [reader.rs]

    The write-ahead log and the manifest are sequences of 32 KiB blocks of
    checksummed fragments.  The writer and the reader are modelled over any
    [File]; the theorems say that what is written is read back, and that a log
    cut at any byte is read back up to the last complete record. *)
From S2P Require Import Prelude Coding Storage.
Open Scope Z_scope.

(** ** [record/mod.rs] *)

Definition BLOCK_SIZE : Z := 32768.
Definition HEADER_SIZE : Z := 7.

Inductive RecordType : Type := Zero | Full | First | Middle | Last.

#[export] Instance RecordType_eq_dec : EqDecision RecordType.
Proof. solve_decision. Defined.

Definition record_type_code (t : RecordType) : Z :=
  match t with Zero => 0 | Full => 1 | First => 2 | Middle => 3 | Last => 4 end.

(** [impl From<usize> for RecordType] *)
Definition record_type_from (v : Z) : outcome RecordType :=
  if v =? 0 then Ok Zero else
  if v =? 1 then Ok Full else
  if v =? 2 then Ok First else
  if v =? 3 then Ok Middle else
  if v =? 4 then Ok Last else Panic.

(** ** [record/writer.rs] *)

Section Writer.
Context `{CRC : Crc32} `{FO : File F}.

Record Writer : Type := mkWriter {
  w_dest : F;
  w_block_offset : Z;
  w_crc_cache : list Z;
}.

(** [Writer::new]: the checksum of every record type byte is precomputed. *)
Definition writer_new (dest : F) : outcome Writer :=
  cache ← (fix go (h n : nat) : outcome (list Z) :=
             match n with
             | O => Ok []
             | S n =>
               t ← record_type_from (Z.of_nat h);
               rest ← go (S h) n;
               Ok (crc_hash [record_type_code t] :: rest)
             end) 1%nat 4%nat;
  Ok (mkWriter dest 0 (0 :: cache)).

Definition with_dest (w : Writer) (f : F) : Writer :=
  mkWriter f (w_block_offset w) (w_crc_cache w).

(** [fill_block_with_zeros] *)
Definition fill_block_with_zeros (w : Writer) (leftover : Z) : outcome unit * Writer :=
  if 0 <? leftover then
    match file_write (w_dest w) (replicate (Z.to_nat leftover) 0) with
    | (r, f) => (r ≫= λ _, Ok tt, with_dest w f)
    end
  else (Ok tt, w).

(** The 7-byte header: checksum, length, type. *)
Definition record_header (crc size : Z) (rt : RecordType) : outcome bytes :=
  encode_fixed_32 [0; 0; 0; 0; Z.land size 0xff; wrap 8 (Z.shiftr size 8); record_type_code rt]
    (mask crc).

(** [write]: emit one physical record. *)
Definition writer_write (w : Writer) (rt : RecordType) (data : bytes) : outcome unit * Writer :=
  let size := len data in
  if negb (size <=? 0xffff) then (Panic, w) else
  if negb (w_block_offset w + HEADER_SIZE + size <=? BLOCK_SIZE) then (Panic, w) else
  match
    (init ← index (w_crc_cache w) (Z.to_nat (record_type_code rt));
     record_header (crc_extend init data) size rt)
  with
  | Ok buf =>
    match file_write (w_dest w) buf with
    | (Ok _, f) =>
      match file_write f data with
      | (Ok _, f) => (Ok tt, mkWriter f (w_block_offset w + (HEADER_SIZE + size)) (w_crc_cache w))
      | (r, f) => (r ≫= λ _, Ok tt, with_dest w f)
      end
    | (r, f) => (r ≫= λ _, Ok tt, with_dest w f)
    end
  | Err e => (Err e, w) | Panic => (Panic, w) | OutOfFuel => (OutOfFuel, w)
  end.

Definition fragment_type (begin end_ : bool) : RecordType :=
  match begin, end_ with
  | true, true => Full | true, false => First | false, true => Last | false, false => Middle
  end.

(** The loop of [add_record]: [rest] is [&s[s.len() - left ..]]. *)
Fixpoint add_record_loop (fuel : nat) (w : Writer) (rest : bytes) (begin : bool)
    : outcome unit * Writer :=
  match fuel with
  | O => (OutOfFuel, w)
  | S fuel =>
    if negb (w_block_offset w <=? BLOCK_SIZE) then (Panic, w) else
    let leftover := BLOCK_SIZE - w_block_offset w in
    match
      (if leftover <? HEADER_SIZE then
         match fill_block_with_zeros w leftover with
         | (Ok _, w) => (Ok tt, mkWriter (w_dest w) 0 (w_crc_cache w))
         | r => r
         end
       else (Ok tt, w))
    with
    | (Ok _, w) =>
      let space := BLOCK_SIZE - w_block_offset w - HEADER_SIZE in
      let to_write := Z.to_nat (len rest `min` space) in
      let end_ := bool_decide (to_write = length rest) in
      match writer_write w (fragment_type begin end_) (take to_write rest) with
      | (Ok _, w) =>
        match drop to_write rest with
        | [] => (Ok tt, w)
        | rest => add_record_loop fuel w rest false
        end
      | r => r
      end
    | r => r
    end
  end.

(** [add_record]; two iterations beyond the length are always enough. *)
Definition add_record (w : Writer) (s : bytes) : outcome unit * Writer :=
  add_record_loop (length s + 2) w s true.

Fixpoint add_records (w : Writer) (rs : list bytes) : outcome unit * Writer :=
  match rs with
  | [] => (Ok tt, w)
  | s :: rs =>
    match add_record w s with
    | (Ok _, w) => add_records w rs
    | r => r
    end
  end.

(** [sync] *)
Definition writer_sync (w : Writer) : outcome unit * Writer :=
  let '(r, f) := file_flush (w_dest w) in (r, with_dest w f).
End Writer.
Arguments Writer F : clear implicits.
Arguments record_header : simpl never.

(** ** [record/reader.rs] *)

(** Why a piece of the log was dropped: a message of the reader, or the error
    of the underlying file. *)
Inductive drop_reason : Type := Msg (s : string) | OfError (e : error).

(** The [Reporter] trait object: the calls of [corruption] it received. *)
Definition reports : Type := list (Z * drop_reason).

(** [ReaderError] *)
Inductive ReaderError : Type := EOF | BadRecord.

Section Reader.
Context `{CRC : Crc32} `{FO : File F} (ck : bool).

Record Reader : Type := mkReader {
  r_file : F;
  r_reporter : option reports;
  r_checksum : bool;
  r_eof : bool;
  r_last_record_offset : Z;
  r_end_of_buffer_offset : Z;
  r_buf : bytes;
  r_buf_length : Z;
  r_initial_offset : Z;
  r_resyncing : bool;
}.

Definition zero_block : bytes := replicate (Z.to_nat BLOCK_SIZE) 0.

Definition reader_new (file : F) (reporter : option reports) (checksum : bool)
    (initial_offset : Z) : Reader :=
  mkReader file reporter checksum false 0 0 zero_block 0 initial_offset (0 <? initial_offset).

Definition set_reporter (r : Reader) rep : Reader :=
  mkReader (r_file r) rep (r_checksum r) (r_eof r) (r_last_record_offset r)
    (r_end_of_buffer_offset r) (r_buf r) (r_buf_length r) (r_initial_offset r) (r_resyncing r).
Definition set_resyncing (r : Reader) b : Reader :=
  mkReader (r_file r) (r_reporter r) (r_checksum r) (r_eof r) (r_last_record_offset r)
    (r_end_of_buffer_offset r) (r_buf r) (r_buf_length r) (r_initial_offset r) b.
Definition set_last_record_offset (r : Reader) o : Reader :=
  mkReader (r_file r) (r_reporter r) (r_checksum r) (r_eof r) o
    (r_end_of_buffer_offset r) (r_buf r) (r_buf_length r) (r_initial_offset r) (r_resyncing r).
Definition set_eof (r : Reader) b : Reader :=
  mkReader (r_file r) (r_reporter r) (r_checksum r) b (r_last_record_offset r)
    (r_end_of_buffer_offset r) (r_buf r) (r_buf_length r) (r_initial_offset r) (r_resyncing r).
Definition set_buf (r : Reader) buf n : Reader :=
  mkReader (r_file r) (r_reporter r) (r_checksum r) (r_eof r) (r_last_record_offset r)
    (r_end_of_buffer_offset r) buf n (r_initial_offset r) (r_resyncing r).
Definition set_file (r : Reader) f : Reader :=
  mkReader f (r_reporter r) (r_checksum r) (r_eof r) (r_last_record_offset r)
    (r_end_of_buffer_offset r) (r_buf r) (r_buf_length r) (r_initial_offset r) (r_resyncing r).
Definition set_end_of_buffer (r : Reader) o : Reader :=
  mkReader (r_file r) (r_reporter r) (r_checksum r) (r_eof r) (r_last_record_offset r)
    o (r_buf r) (r_buf_length r) (r_initial_offset r) (r_resyncing r).

(** [clear_buf] *)
Definition clear_buf (r : Reader) : Reader := set_buf r zero_block 0.

(** [report_drop]: nothing happens without a reporter; the subtraction is on
    [u64]. *)
Definition report_drop (r : Reader) (n : Z) (reason : drop_reason) : outcome Reader :=
  match r_reporter r with
  | None => Ok r
  | Some log =>
    let told := Ok (set_reporter r (Some (log ++ [(n, reason)]))) in
    if r_end_of_buffer_offset r =? 0 then told else
    d ← usub ck 64 (r_end_of_buffer_offset r) n;
    if r_initial_offset r <=? d then told else Ok r
  end.

(** [read_physical_record], from the point where a whole header is buffered. *)
Definition parse_physical_record (r : Reader)
    : outcome ((RecordType * bytes + ReaderError) * Reader) :=
  header ← slice (r_buf r) 0 (Z.to_nat HEADER_SIZE);
  record_type ← index header 6;
  b4 ← index header 4;
  b5 ← index header 5;
  let data_length := Z.lor (Z.land b4 0xff) (Z.shiftl (Z.land b5 0xff) 8) in
  let record_length := HEADER_SIZE + data_length in
  if r_buf_length r <? record_length then
    let drop_size := r_buf_length r in
    let r := clear_buf r in
    if negb (r_eof r) then
      r ← report_drop r drop_size (Msg "bad record length"); Ok (inr BadRecord, r)
    else Ok (inr EOF, r)
  else if (record_type =? 0) && (data_length =? 0) then
    let r := clear_buf r in
    r ← report_drop r (len (r_buf r)) (Msg "empty length record"); Ok (inr BadRecord, r)
  else
  bad ← (if r_checksum r then
           body ← slice (r_buf r) (Z.to_nat (HEADER_SIZE - 1)) (Z.to_nat record_length);
           Ok (negb (unmask (decode_fixed_32 header) =? crc_hash body))
         else Ok false);
  if (bad : bool) then
    let drop_size := r_buf_length r in
    let r := clear_buf r in
    r ← report_drop r drop_size (Msg "checksum mismatch"); Ok (inr BadRecord, r)
  else
  data ← slice_to (r_buf r) (Z.to_nat record_length);
  let r := set_buf r (drop (Z.to_nat record_length) (r_buf r)) (r_buf_length r - record_length) in
  if r_end_of_buffer_offset r <? r_initial_offset r + r_buf_length r + record_length
  then Ok (inr BadRecord, r)
  else
  data ← slice_from data (Z.to_nat HEADER_SIZE);
  t ← record_type_from record_type;
  Ok (inl (t, data), r).

(** [read_physical_record]: the loop refills the buffer until a header fits. *)
Fixpoint read_physical_loop (fuel : nat) (r : Reader)
    : outcome ((RecordType * bytes + ReaderError) * Reader) :=
  match fuel with
  | O => OutOfFuel
  | S fuel =>
    if r_buf_length r <? HEADER_SIZE then
      let r := clear_buf r in
      if negb (r_eof r) then
        match file_read (r_file r) (length (r_buf r)) with
        | (Ok d, f) =>
          let r := set_file r f in
          let r := set_end_of_buffer r (r_end_of_buffer_offset r + len d) in
          let r := set_buf r (d ++ drop (length d) (r_buf r)) (len d) in
          let r := if len d <? BLOCK_SIZE then set_eof r true else r in
          read_physical_loop fuel r
        | (Err e, f) =>
          r ← report_drop (set_file r f) BLOCK_SIZE (OfError e);
          Ok (inr EOF, set_eof r true)
        | (Panic, _) => Panic
        | (OutOfFuel, _) => OutOfFuel
        end
      else Ok (inr EOF, r)
    else parse_physical_record r
  end.
(** A short read sets [eof], so the body runs at most three times. *)
Definition read_physical_record (r : Reader) := read_physical_loop 3 r.

(** [skip_to_initial_block] *)
Definition skip_to_initial_block (r : Reader) : outcome (bool * Reader) :=
  let offset_in_block := r_initial_offset r mod BLOCK_SIZE in
  let block_start := r_initial_offset r - offset_in_block in
  let block_start := if BLOCK_SIZE - 6 <? offset_in_block then block_start + BLOCK_SIZE
                     else block_start in
  let r := set_end_of_buffer r block_start in
  if 0 <? block_start then
    match file_seek (r_file r) block_start with
    | (Ok _, f) => Ok (true, set_file r f)
    | (Err e, f) => r ← report_drop (set_file r f) block_start (OfError e); Ok (false, r)
    | (Panic, _) => Panic
    | (OutOfFuel, _) => OutOfFuel
    end
  else Ok (true, r).

(** The loop of [read_record]: [buf] is the caller's vector, [in_frag] and
    [prospective] the two locals. *)
Fixpoint read_record_loop (fuel : nat) (r : Reader) (buf : bytes) (in_frag : bool)
    (prospective : Z) : outcome (bool * bytes * Reader) :=
  match fuel with
  | O => OutOfFuel
  | S fuel =>
    res ← read_physical_record r;
    match res with
    | (inl (t, data), r) =>
      if r_resyncing r && bool_decide (t = Middle) then
        read_record_loop fuel r buf in_frag prospective
      else if r_resyncing r && bool_decide (t = Last) then
        read_record_loop fuel (set_resyncing r false) buf in_frag prospective
      else
      let r := if r_resyncing r then set_resyncing r false else r in
      let fragment_size := len data in
      o1 ← usub ck 64 (r_end_of_buffer_offset r) (r_buf_length r);
      o2 ← usub ck 64 o1 HEADER_SIZE;
      physical_record_offset ← usub ck 64 o2 fragment_size;
      match t with
      | Full =>
        r ← (if in_frag then report_drop r (len buf)
               (Msg "partial record without end(1) for reading a new Full record") else Ok r);
        Ok (true, data, set_last_record_offset r physical_record_offset)
      | First =>
        r ← (if in_frag then report_drop r (len buf)
               (Msg "partial record without end(2) for reading a new First record") else Ok r);
        read_record_loop fuel r data true physical_record_offset
      | Middle =>
        if in_frag then read_record_loop fuel r (buf ++ data) in_frag prospective
        else
          r ← report_drop r fragment_size (Msg "missing start of fragmented record(Middle)");
          read_record_loop fuel r buf in_frag prospective
      | Last =>
        if in_frag then Ok (true, buf ++ data, set_last_record_offset r prospective)
        else
          r ← report_drop r fragment_size (Msg "missing start of fragmented record(Last)");
          read_record_loop fuel r buf in_frag prospective
      | Zero => read_record_loop fuel r buf in_frag prospective
      end
    | (inr EOF, r) => Ok (false, if in_frag then [] else buf, r)
    | (inr BadRecord, r) =>
      if in_frag then
        r ← report_drop r (len buf) (Msg "bad record read in middle of record");
        read_record_loop fuel r [] false prospective
      else read_record_loop fuel r buf false prospective
    end
  end.

(** [read_record] *)
Definition read_record (fuel : nat) (r : Reader) (buf : bytes) : outcome (bool * bytes * Reader) :=
  ok ← (if r_last_record_offset r <? r_initial_offset r then skip_to_initial_block r
        else Ok (true, r));
  match ok with
  | (false, r) => Ok (false, buf, r)
  | (true, r) => read_record_loop fuel r buf false 0
  end.

(** The way the log is replayed: [while reader.read_record(&mut buf) { .. }]. *)
Fixpoint read_records (n fuel : nat) (r : Reader) (buf : bytes) : outcome (list bytes * Reader) :=
  match n with
  | O => OutOfFuel
  | S n =>
    res ← read_record fuel r buf;
    match res with
    | (true, data, r) =>
      rest ← read_records n fuel r data;
      Ok (data :: rest.1, rest.2)
    | (false, _, r) => Ok ([], r)
    end
  end.
End Reader.
Arguments Reader F : clear implicits.

(** ** [util/reporter.rs]: [LogReporter] keeps the last reason *)
Record LogReporter : Type := mkLogReporter { lr_ok : bool; lr_reason : option drop_reason }.
Definition log_reporter_new : LogReporter := mkLogReporter true None.
Definition log_reporter_corruption (l : LogReporter) (n : Z) (reason : drop_reason) : LogReporter :=
  mkLogReporter false (Some reason).
Definition log_reporter_of (log : reports) : LogReporter :=
  fold_left (λ l x, log_reporter_corruption l x.1 x.2) log log_reporter_new.

(** ** The layout of a log, as a relation *)

Section Layout.
Context `{CRC : Crc32}.

(** One physical record. *)
Definition frame (t : RecordType) (d : bytes) : bytes :=
  to_le_bytes 4 (mask (crc_hash (record_type_code t :: d))) ++
  [Z.land (len d) 0xff; wrap 8 (Z.shiftr (len d) 8); record_type_code t] ++ d.

(** The zero bytes that end a block, and where the next fragment starts. *)
Definition pad (off : Z) : bytes :=
  if BLOCK_SIZE - off <? HEADER_SIZE then replicate (Z.to_nat (BLOCK_SIZE - off)) 0 else [].
Definition start (off : Z) : Z := if BLOCK_SIZE - off <? HEADER_SIZE then 0 else off.

(** [log_frags off begin s E off']: from block offset [off], the bytes [E]
    encode the payload [s] as fragments and end at block offset [off']. *)
Inductive log_frags : Z → bool → bytes → bytes → Z → Prop :=
| frags_end off b s :
    start off + HEADER_SIZE + len s ≤ BLOCK_SIZE →
    log_frags off b s (pad off ++ frame (fragment_type b true) s) (start off + HEADER_SIZE + len s)
| frags_cont off b d s E off' :
    s ≠ [] → start off + HEADER_SIZE + len d = BLOCK_SIZE →
    log_frags BLOCK_SIZE false s E off' →
    log_frags off b (d ++ s) (pad off ++ frame (fragment_type b false) d ++ E) off'.

Lemma log_frags_det off b s E o : log_frags off b s E o →
  ∀ E' o', log_frags off b s E' o' → E = E'.
Proof.
  induction 1 as [off b s Hfit|off b d s E off' Hs Hfit Hfr IH]; inversion 1; subst; [done| | |].
  - exfalso. rewrite len_app in Hfit. destruct s0; [done|]. rewrite len_cons in Hfit.
    pose proof (len_nonneg s0). lia.
  - exfalso. rewrite len_app in *. destruct s; [done|]. rewrite len_cons in *.
    pose proof (len_nonneg s). lia.
  - match goal with H : ?d' ++ ?s' = d ++ s |- _ =>
      apply app_inj_1 in H as [-> ->]; [|unfold len in *; lia] end.
    f_equal. f_equal. eauto.
Qed.

Inductive log_records : Z → list bytes → bytes → Z → Prop :=
| records_nil off : log_records off [] [] off
| records_cons off s E off1 rs Es off2 :
    log_frags off true s E off1 → log_records off1 rs Es off2 →
    log_records off (s :: rs) (E ++ Es) off2.

Lemma len_frame t d : len (frame t d) = HEADER_SIZE + len d.
Proof.
  unfold frame. rewrite !len_app. unfold len at 1. rewrite length_to_le_bytes.
  unfold HEADER_SIZE, len at 1. simpl. lia.
Qed.

Lemma len_replicate {A} n (x : A) : 0 ≤ n → len (replicate (Z.to_nat n) x) = n.
Proof. intros. unfold len. rewrite length_replicate. lia. Qed.

Lemma start_range off : 0 ≤ off ≤ BLOCK_SIZE → 0 ≤ start off ≤ BLOCK_SIZE - HEADER_SIZE.
Proof. unfold start, BLOCK_SIZE, HEADER_SIZE. intros. case_match; lia. Qed.

Lemma log_frags_off off b s E off' :
  log_frags off b s E off' → 0 ≤ off ≤ BLOCK_SIZE → 0 ≤ off' ≤ BLOCK_SIZE.
Proof.
  induction 1; intros Hoff.
  - pose proof (start_range _ Hoff). pose proof (len_nonneg s).
    unfold HEADER_SIZE in *. lia.
  - apply IHlog_frags. unfold BLOCK_SIZE; lia.
Qed.
End Layout.

(** ** The writer produces this layout *)
Section WriterFacts.
Context `{CRC : Crc32, !Crc32Laws} `{FL : FileLaws F}.

Definition type_crcs : list Z :=
  [0; crc_hash [1]; crc_hash [2]; crc_hash [3]; crc_hash [4]].

Definition writer_ok (w : Writer F) : Prop :=
  f_ok (w_dest w) ∧ w_crc_cache w = type_crcs ∧ 0 ≤ w_block_offset w ≤ BLOCK_SIZE.

(** [w'] is [w] after appending [E] and moving to block offset [off]. *)
Definition wrote (w w' : Writer F) (E : bytes) (off : Z) : Prop :=
  writer_ok w' ∧ f_contents (w_dest w') = f_contents (w_dest w) ++ E ∧
  f_pos (w_dest w') = f_pos (w_dest w) ∧ w_block_offset w' = off.

Lemma wrote_trans w1 w2 w3 E1 E2 o2 o3 :
  wrote w1 w2 E1 o2 → wrote w2 w3 E2 o3 → wrote w1 w3 (E1 ++ E2) o3.
Proof.
  intros (?&Hc1&Hp1&?) (?&Hc2&Hp2&?). split_and!; [done| |congruence|done].
  by rewrite Hc2, Hc1, app_assoc.
Qed.

Lemma writer_new_eq (f : F) : writer_new f = Ok (mkWriter f 0 type_crcs).
Proof. done. Qed.

Lemma record_header_frame t d :
  t ≠ Zero → record_header (crc_extend (crc_hash [record_type_code t]) d) (len d) t =
  Ok (take 7 (frame t d)) ∧ frame t d = take 7 (frame t d) ++ d.
Proof.
  intros Ht. rewrite crc_extend_hash. unfold record_header, encode_fixed_32, frame.
  rewrite (app_assoc (to_le_bytes _ _) [_; _; _] d).
  set (hd := _ ++ [_; _; _]). assert (length hd = 7%nat) as Hhd.
  { unfold hd. by rewrite length_app, length_to_le_bytes. }
  rewrite take_app_length' by done. done.
Qed.

Lemma writer_write_ok (w : Writer F) t d :
  writer_ok w → t ≠ Zero → w_block_offset w + HEADER_SIZE + len d ≤ BLOCK_SIZE →
  ∃ w', writer_write w t d = (Ok tt, w') ∧
    wrote w w' (frame t d) (w_block_offset w + HEADER_SIZE + len d).
Proof.
  intros (Hf & Hc & Ho) Ht Hfit. unfold writer_write.
  pose proof (len_nonneg d) as Hd. unfold HEADER_SIZE, BLOCK_SIZE in *.
  rewrite (proj2 (Z.leb_le _ _)) by lia. simpl.
  rewrite (proj2 (Z.leb_le _ _)) by lia. simpl.
  assert (index (w_crc_cache w) (Z.to_nat (record_type_code t)) =
          Ok (crc_hash [record_type_code t])) as ->.
  { rewrite Hc. by destruct t. }
  rewrite Ok_bind. destruct (record_header_frame t d Ht) as [-> Hfr].
  destruct (law_write (w_dest w) (take 7 (frame t d)) Hf) as (f1 & -> & Hf1 & Hc1 & Hp1).
  destruct (law_write f1 d Hf1) as (f2 & -> & Hf2 & Hc2 & Hp2).
  eexists. split; [done|]. unfold wrote, writer_ok, BLOCK_SIZE. simpl.
  rewrite Hc2, Hc1, Hp2, Hp1, <- app_assoc, <- Hfr. split_and!; try done; lia.
Qed.

Lemma fill_block_ok (w : Writer F) :
  writer_ok w → BLOCK_SIZE - w_block_offset w <? HEADER_SIZE = true →
  ∃ w', fill_block_with_zeros w (BLOCK_SIZE - w_block_offset w) = (Ok tt, w') ∧
    wrote w w' (pad (w_block_offset w)) (w_block_offset w).
Proof.
  intros (Hf & Hc & Ho) Hlt. unfold fill_block_with_zeros, pad. rewrite Hlt.
  destruct (Z.ltb_spec 0 (BLOCK_SIZE - w_block_offset w)) as [Hpos|Hneg].
  - destruct (law_write (w_dest w) (replicate (Z.to_nat (BLOCK_SIZE - w_block_offset w)) 0) Hf)
      as (f1 & -> & ?). eexists. split; [done|]. unfold wrote, writer_ok. simpl. naive_solver.
  - replace (Z.to_nat _) with 0%nat by lia. eexists. split; [done|].
    unfold wrote, writer_ok. rewrite app_nil_r. done.
Qed.

(** The first step of an iteration: pad if the header does not fit. *)
Lemma switch_block_ok (w : Writer F) :
  writer_ok w →
  ∃ w', (if BLOCK_SIZE - w_block_offset w <? HEADER_SIZE then
         match fill_block_with_zeros w (BLOCK_SIZE - w_block_offset w) with
         | (Ok _, w) => (Ok tt, mkWriter (w_dest w) 0 (w_crc_cache w))
         | r => r
         end
       else (Ok tt, w)) = (Ok tt, w') ∧
    wrote w w' (pad (w_block_offset w)) (start (w_block_offset w)).
Proof.
  intros Hw. destruct (BLOCK_SIZE - w_block_offset w <? HEADER_SIZE) eqn:Hlt.
  - destruct (fill_block_ok w Hw Hlt) as (w1 & -> & (Hf&?&?)&?&?&?).
    eexists. split; [done|]. unfold wrote, writer_ok, start. rewrite Hlt. simpl.
    by split_and!.
  - exists w. split; [done|]. unfold wrote, start, pad. rewrite Hlt, app_nil_r. done.
Qed.

Lemma add_record_loop_ok fuel (w : Writer F) s b :
  writer_ok w →
  (length s + (if decide (start (w_block_offset w) = BLOCK_SIZE - HEADER_SIZE)%Z then 1 else 0)
     < fuel)%nat →
  ∃ w' E off', add_record_loop fuel w s b = (Ok tt, w') ∧
    log_frags (w_block_offset w) b s E off' ∧ wrote w w' E off'.
Proof.
  revert w s b. induction fuel as [|fuel IH]; intros w s b Hw Hfuel; [lia|].
  cbn [add_record_loop]. destruct (Hw) as (Hf & Hc & Ho).
  rewrite (proj2 (Z.leb_le _ _)) by lia. cbn [negb].
  destruct (switch_block_ok w Hw) as (w1 & -> & Hw1). destruct (Hw1) as (Hok1&_&_&Ho1).
  pose proof (start_range _ Ho) as Hst. rewrite Ho1. cbv zeta.
  set (space := BLOCK_SIZE - start (w_block_offset w) - HEADER_SIZE) in *.
  destruct (decide (len s ≤ space)) as [Hle|Hgt].
  - rewrite Z.min_l by lia. assert (Z.to_nat (len s) = length s) as -> by (unfold len; lia).
    rewrite bool_decide_eq_true_2, firstn_all, skipn_all by done.
    destruct (writer_write_ok w1 (fragment_type b true) s) as (w2 & -> & Hw2);
      [done|by destruct b|rewrite Ho1; lia|].
    eexists _, _, _. split; [done|]. rewrite Ho1 in Hw2. split; [constructor; lia|].
    by eapply wrote_trans.
  - rewrite Z.min_r by lia.
    assert (Z.to_nat space < length s)%nat as Hlt by (unfold len in Hgt; lia).
    rewrite bool_decide_eq_false_2 by lia.
    assert (len (take (Z.to_nat space) s) = space) as Hlen.
    { rewrite len_take. unfold len. lia. }
    destruct (writer_write_ok w1 (fragment_type b false) (take (Z.to_nat space) s))
      as (w2 & -> & Hw2); [done|by destruct b|rewrite Ho1, Hlen; lia|].
    destruct (drop (Z.to_nat space) s) as [|x rest] eqn:Hdrop.
    { apply (f_equal length) in Hdrop. rewrite length_drop in Hdrop. simpl in Hdrop. lia. }
    rewrite Ho1, Hlen in Hw2. destruct (Hw2) as (Hok2&_&_&Ho2).
    assert (start (w_block_offset w) + HEADER_SIZE + space = BLOCK_SIZE) as Hfull by lia.
    destruct (IH w2 (x :: rest) false) as (w3 & E & off' & -> & Hfr & Hw3); [done| |].
    { rewrite Ho2, Hfull. rewrite decide_False by (by vm_compute).
      rewrite <- Hdrop, length_drop. case_decide; lia. }
    eexists _, _, _. split; [done|]. rewrite Ho2, Hfull in Hfr.
    rewrite <- (take_drop (Z.to_nat space) s) at 1. rewrite Hdrop. split.
    + apply frags_cont; [done|by rewrite Hlen|done].
    + eapply wrote_trans; [done|]. by eapply wrote_trans.
Qed.

Lemma add_record_ok (w : Writer F) s :
  writer_ok w →
  ∃ w' E off', add_record w s = (Ok tt, w') ∧
    log_frags (w_block_offset w) true s E off' ∧ wrote w w' E off'.
Proof. intros Hw. apply add_record_loop_ok; [done|]. case_decide; lia. Qed.

Lemma add_records_ok (w : Writer F) rs :
  writer_ok w →
  ∃ w' E off', add_records w rs = (Ok tt, w') ∧
    log_records (w_block_offset w) rs E off' ∧ wrote w w' E off'.
Proof.
  revert w. induction rs as [|s rs IH]; intros w Hw; simpl.
  - exists w, [], (w_block_offset w). split_and!; [done|constructor|].
    unfold wrote. by rewrite app_nil_r.
  - destruct (add_record_ok w s Hw) as (w1 & E1 & o1 & -> & Hf & Hw1).
    destruct (Hw1) as (Hok1&_&_&Ho1).
    destruct (IH w1 Hok1) as (w2 & E2 & o2 & -> & Hr & Hw2). rewrite Ho1 in Hr.
    eexists _, _, _. split; [done|]. split; [by econstructor|by eapply wrote_trans].
Qed.
End WriterFacts.

Lemma length_zero_block : length zero_block = Z.to_nat BLOCK_SIZE.
Proof. unfold zero_block. apply length_replicate. Qed.
#[local] Opaque zero_block.

(** ** The reader follows the layout, also when the log is cut *)
Section ReaderFacts.
Context `{CRC : Crc32, !Crc32Laws} `{FL : FileLaws F} (ck : bool).

Definition unread (r : Reader F) : bytes :=
  drop (f_pos (r_file r)) (f_contents (r_file r)).

(** The reader is at block offset [off] and the bytes [rest] are still to come,
    the first [r_buf_length] of them in the buffer. *)
Record rinv (r : Reader F) (off : Z) (rest : bytes) : Prop := mkRinv {
  ri_file : f_ok (r_file r);
  ri_off : 0 ≤ off ≤ BLOCK_SIZE;
  ri_len : 0 ≤ r_buf_length r ≤ len (r_buf r);
  ri_rest : take (Z.to_nat (r_buf_length r)) (r_buf r) ++ unread r = rest;
  ri_block : r_buf_length r ≤ BLOCK_SIZE - off;
  ri_eof : if r_eof r then unread r = [] else r_buf_length r = BLOCK_SIZE - off;
  ri_end : r_buf_length r ≤ r_end_of_buffer_offset r;
  ri_init : r_initial_offset r = 0;
  ri_sync : r_resyncing r = false;
  ri_last : 0 ≤ r_last_record_offset r;
}.

Lemma rinv_new f rep cs :
  f_ok f → rinv (reader_new f rep cs 0) BLOCK_SIZE (drop (f_pos f) (f_contents f)).
Proof.
  intros Hf. by split.
Qed.

Lemma rinv_len r off rest :
  rinv r off rest → len rest = r_buf_length r + len (unread r).
Proof.
  intros [? ? Hl <- ? ? ? ? ? ?]. rewrite len_app, len_take. lia.
Qed.

Lemma rinv_take r off rest m :
  rinv r off rest → Z.of_nat m ≤ r_buf_length r → take m (r_buf r) = take m rest.
Proof.
  intros [? ? Hl <- ? ? ? ? ? ?] Hm. unfold len in Hl.
  rewrite take_app_le by (rewrite length_take; lia). rewrite take_take. f_equal. lia.
Qed.

(** Refilling the buffer at the end of a block. *)
Lemma refill_ok r off rest :
  rinv r off rest → r_buf_length r < HEADER_SIZE → r_eof r = false →
  ∃ d f r1, file_read (r_file r) (length zero_block) = (Ok d, f) ∧
    r1 = (let r := set_file (clear_buf r) f in
          let r := set_end_of_buffer r (r_end_of_buffer_offset r + len d) in
          let r := set_buf r (d ++ drop (length d) (r_buf r)) (len d) in
          if len d <? BLOCK_SIZE then set_eof r true else r) ∧
    rinv r1 0 (drop (Z.to_nat (r_buf_length r)) rest) ∧ r_reporter r1 = r_reporter r ∧
    (r_buf_length r1 < HEADER_SIZE → r_eof r1 = true).
Proof.
  intros Hr Hlt Heof. destruct (Hr) as [Hf Hoff Hl Hrest Hb He Hend Hi Hs Hla].
  destruct (law_read (r_file r) (length zero_block) Hf) as (f & Hread & Hf' & Hc & Hp).
  fold (unread r) in *. set (d := take (length zero_block) (unread r)) in *.
  eexists d, f, _. split; [done|]. split; [done|].
  pose proof length_zero_block as Hz.
  assert (len d ≤ BLOCK_SIZE) as Hd by (unfold d; rewrite len_take, Hz; unfold BLOCK_SIZE; lia).
  assert (drop (f_pos f) (f_contents f) = drop (length d) (unread r)) as Hun.
  { unfold unread. by rewrite Hc, Hp, drop_drop. }
  assert (d ++ drop (length d) (unread r) = unread r) as Hsplit.
  { unfold d at 1. rewrite <- (take_drop (length zero_block) (unread r)) at 3. f_equal.
    unfold d. rewrite length_take. destruct (decide (length zero_block ≤ length (unread r))%nat).
    - by rewrite Nat.min_l by lia.
    - by rewrite Nat.min_r, !drop_ge by lia. }
  assert (drop (Z.to_nat (r_buf_length r)) rest = unread r) as ->.
  { rewrite <- Hrest, drop_app_length'; [done|]. rewrite length_take. unfold len in Hl. lia. }
  pose proof (len_nonneg d) as Hd0.
  assert (∀ b, rinv (set_eof (set_buf (set_end_of_buffer (set_file (clear_buf r) f)
     (r_end_of_buffer_offset r + len d)) (d ++ drop (length d) zero_block) (len d)) b) 0 (unread r)
     ↔ (if b then drop (length d) (unread r) = [] else len d = BLOCK_SIZE)) as Hinv.
  { intros b. split.
    - intros [? ? ? ? ? He' ? ? ? ?]. destruct b; simpl in He'; [|lia].
      unfold unread in He' at 1. simpl in He'. by rewrite <- Hun.
    - intros Hb'. assert (0 ≤ 0 ≤ BLOCK_SIZE) by (unfold BLOCK_SIZE; lia).
      split; [exact Hf'|done| | | | | |exact Hi|exact Hs|exact Hla];
        cbn [r_buf_length r_buf r_eof r_end_of_buffer_offset set_eof set_buf set_end_of_buffer].
      + rewrite len_app. pose proof (len_nonneg (drop (length d) zero_block)). lia.
      + change (unread (set_eof _ _)) with (drop (f_pos f) (f_contents f)). rewrite Hun.
        replace (Z.to_nat (len d)) with (length d) by (unfold len; lia).
        by rewrite take_app_length.
      + lia.
      + change (unread (set_eof _ _)) with (drop (f_pos f) (f_contents f)). rewrite Hun.
        destruct b; [done|]. lia.
      + lia. }
  cbv zeta. simpl. destruct (Z.ltb_spec (len d) BLOCK_SIZE) as [Hshort|Hfull].
  - split; [|split; [exact eq_refl|intros _; exact eq_refl]]. apply Hinv. apply drop_ge. unfold d in *. rewrite length_take in *.
    unfold len in Hshort. rewrite length_take in Hshort. rewrite Hz in *. lia.
  - split.
    + destruct (Hinv false) as [_ Hi']. specialize (Hi' ltac:(lia)).
      unfold set_eof in Hi'. simpl in *. by rewrite <- Heof in Hi'.
    + split; [done|]. simpl. unfold BLOCK_SIZE, HEADER_SIZE in *. lia.
Qed.

Lemma length_bytes_roundtrip L :
  0 ≤ L < 65536 →
  Z.lor (Z.land (Z.land L 255) 255) (Z.shiftl (Z.land (wrap 8 (Z.shiftr L 8)) 255) 8) = L.
Proof.
  intros HL. unfold wrap. rewrite Z.shiftr_div_pow2 by lia.
  change 255 with (2 ^ 8 - 1). rewrite !land_pow2_mod by lia.
  rewrite !Z.mod_mod by lia. rewrite Z.shiftl_mul_pow2 by lia.
  rewrite lor_disjoint_add by (try apply Z.mod_pos_bound; lia).
  rewrite (Z.mod_small (L / _)).
  - pose proof (Z.div_mod L (2 ^ 8)). lia.
  - split; [apply Z.div_pos; lia|]. apply Z.div_lt_upper_bound; lia.
Qed.

Lemma frame_header t d : ∃ hd, frame t d = hd ++ d ∧ length hd = 7%nat ∧
  hd !! 6%nat = Some (record_type_code t) ∧ hd !! 4%nat = Some (Z.land (len d) 255) ∧
  hd !! 5%nat = Some (wrap 8 (Z.shiftr (len d) 8)) ∧
  unmask (decode_fixed_32 hd) = crc_hash (record_type_code t :: d) ∧
  drop 6 (frame t d) = record_type_code t :: d.
Proof.
  set (c := mask (crc_hash (record_type_code t :: d))).
  exists (to_le_bytes 4 c ++ [Z.land (len d) 255; wrap 8 (Z.shiftr (len d) 8); record_type_code t]).
  assert (length (to_le_bytes 4 c) = 4%nat) as Hc by apply length_to_le_bytes.
  split_and!.
  - unfold frame. by rewrite <- app_assoc.
  - by rewrite length_app, Hc.
  - rewrite lookup_app_r, Hc by lia. done.
  - rewrite lookup_app_r, Hc by lia. done.
  - rewrite lookup_app_r, Hc by lia. done.
  - rewrite decode_fixed_32_app by apply mask_range. apply unmask_mask_eq, crc_hash_u32.
  - unfold frame. fold c. rewrite drop_app_ge, Hc by lia. done.
Qed.

Lemma index_Some {A} (l : list A) n x : l !! n = Some x → index l n = Ok x.
Proof. unfold index. by intros ->. Qed.

(** Parsing one buffered physical record, possibly cut after [n] bytes. *)
Lemma parse_ok r off n t d R :
  rinv r off (take n (frame t d ++ R)) → t ≠ Zero → HEADER_SIZE ≤ r_buf_length r →
  off + HEADER_SIZE + len d ≤ BLOCK_SIZE →
  ∃ r', r_reporter r' = r_reporter r ∧
    if decide (length (frame t d) ≤ n)%nat then
      parse_physical_record ck r = Ok (inl (t, d), r') ∧
      rinv r' (off + HEADER_SIZE + len d) (take (n - length (frame t d)) R) ∧
      r_buf_length r' + HEADER_SIZE + len d ≤ r_end_of_buffer_offset r'
    else parse_physical_record ck r = Ok (inr EOF, r').
Proof.
  intros Hr Ht Hbl Hfit. destruct (Hr) as [Hf Hoff Hl Hrest Hb He Hend Hi Hs Hla].
  pose proof (len_nonneg d) as Hd. pose proof (rinv_len _ _ _ Hr) as Hlen.
  pose proof (len_frame t d) as Hlf. pose proof (rinv_take _ _ _ 7%nat Hr) as H7.
  destruct (frame_header t d) as (hd & Hfr & Hhd & H6 & H4 & H5 & Hcrc & Hbody).
  assert (7 ≤ n)%nat as Hn7.
  { unfold HEADER_SIZE, len in *. rewrite length_take in Hlen. lia. }
  assert (take 7 (r_buf r) = hd) as Hbuf7.
  { rewrite H7 by (unfold HEADER_SIZE in *; lia). rewrite take_take, Nat.min_l by lia.
    rewrite Hfr, <- app_assoc, take_app_length' by done. done. }
  unfold parse_physical_record. rewrite slice_ok by (unfold HEADER_SIZE, len in *; lia).
  change (Z.to_nat HEADER_SIZE - 0)%nat with 7%nat. rewrite drop_0, Hbuf7, Ok_bind.
  rewrite (index_Some _ _ _ H6), (index_Some _ _ _ H4), (index_Some _ _ _ H5), !Ok_bind.
  rewrite length_bytes_roundtrip by (unfold BLOCK_SIZE, HEADER_SIZE in *; lia).
  destruct (Z.ltb_spec (r_buf_length r) (HEADER_SIZE + len d)) as [Hcut|Hwhole].
  - assert (r_eof r = true) as Heof by (destruct (r_eof r); [done|lia]). rewrite Heof in He.
    exists (clear_buf r). split; [done|]. rewrite decide_False; [by simpl; rewrite Heof|].
    rewrite He, len_nil, len_take, len_app in Hlen. pose proof (len_nonneg R).
    unfold len in *. lia.
  - assert (length (frame t d) ≤ n)%nat as Hn.
    { pose proof (len_nonneg (unread r)). rewrite len_take in Hlen. unfold len in *. lia. }
    assert ((record_type_code t =? 0) && (len d =? 0) = false) as -> by (by destruct t).
    assert (take (Z.to_nat (HEADER_SIZE + len d)) (r_buf r) = frame t d) as Hbuf.
    { rewrite (rinv_take _ _ _ _ Hr) by lia. rewrite take_take, Nat.min_l by (unfold len in *; lia).
      apply take_app_length'. unfold len in *. lia. }
    rewrite (slice_ok (r_buf r) (Z.to_nat (HEADER_SIZE - 1))) by (unfold HEADER_SIZE, len in *; lia).
    rewrite <- skipn_firstn_comm, Hbuf. change (Z.to_nat (HEADER_SIZE - 1)) with 6%nat.
    rewrite Hbody, Ok_bind, Hcrc, Z.eqb_refl. cbn [negb].
    assert ((if r_checksum r then Ok false else Ok false) = Ok false) as -> by by destruct (r_checksum r).
    rewrite Ok_bind, slice_to_ok by (unfold HEADER_SIZE, len in *; lia). rewrite Hbuf, Ok_bind.
    cbv zeta. cbn [r_end_of_buffer_offset r_initial_offset r_buf_length set_buf].
    rewrite Hi, (proj2 (Z.ltb_ge _ _)) by lia.
    assert (slice_from (frame t d) (Z.to_nat HEADER_SIZE) = Ok d) as ->
      by (rewrite Hfr; by apply slice_from_app).
    rewrite Ok_bind.
    assert (record_type_from (record_type_code t) = Ok t) as -> by by destruct t.
    rewrite Ok_bind. eexists (set_buf _ _ _). split; [|rewrite decide_True by done; split; [done|]]; [done|].
    assert (0 < HEADER_SIZE) by done.
    split; [|simpl; lia]. split; [exact Hf|lia| | | | | |exact Hi|exact Hs|exact Hla];
      cbn [r_buf r_buf_length r_eof r_end_of_buffer_offset set_buf];
      try change (unread (set_buf _ _ _)) with (unread r); [rewrite len_drop; lia| |lia| |lia].
    + apply (f_equal (drop (length (frame t d)))) in Hrest.
      rewrite skipn_firstn_comm, drop_app_length in Hrest. rewrite <- Hrest.
      rewrite drop_app_le by (rewrite length_take; unfold len in *; lia). f_equal.
      rewrite skipn_firstn_comm. f_equal; [|f_equal]; unfold len in *; lia.
    + destruct (r_eof r); [done|]. lia.
Qed.

(** [read_physical_record] on a possibly cut log. *)
Lemma read_physical_ok r off n t d R :
  rinv r off (take n (pad off ++ frame t d ++ R)) → t ≠ Zero →
  start off + HEADER_SIZE + len d ≤ BLOCK_SIZE →
  let m := length (pad off ++ frame t d) in
  ∃ r', r_reporter r' = r_reporter r ∧
    if decide (m ≤ n)%nat then
      read_physical_record ck r = Ok (inl (t, d), r') ∧
      rinv r' (start off + HEADER_SIZE + len d) (take (n - m) R) ∧
      r_buf_length r' + HEADER_SIZE + len d ≤ r_end_of_buffer_offset r'
    else read_physical_record ck r = Ok (inr EOF, r').
Proof.
  intros Hr Ht Hfit m. pose proof (len_frame t d) as Hlf. pose proof (len_nonneg d) as Hd.
  pose proof (rinv_len _ _ _ Hr) as Hlen. destruct (Hr) as [Hf Hoff Hl Hrest Hb He _ _ _ _].
  unfold read_physical_record. cbn [read_physical_loop].
  destruct (Z.ltb_spec (r_buf_length r) HEADER_SIZE) as [Hlt|Hge].
  - destruct (r_eof r) eqn:Heof.
    + exists (clear_buf r). split; [done|]. simpl. rewrite Heof. rewrite decide_False; [done|].
      rewrite He, len_nil in Hlen. unfold m. rewrite length_app. unfold len in *.
      rewrite length_take, !length_app in Hlen. unfold HEADER_SIZE in *. lia.
    + destruct (refill_ok r off _ Hr Hlt Heof) as (dd & f & r1 & Hread & Hr1 & Hinv & Hrep & Hshort).
      replace (r_eof (clear_buf r)) with false by (by simpl).
      cbn [negb]. change (r_buf (clear_buf r)) with zero_block.
      change (r_file (clear_buf r)) with (r_file r). rewrite Hread. cbv zeta in Hr1 |- *.
      change (r_buf (set_end_of_buffer (set_file (clear_buf r) f) _)) with zero_block.
      change (r_buf (set_end_of_buffer (set_file (clear_buf r) f) _)) with zero_block in Hr1.
      rewrite <- Hr1.
      assert (length (pad off) = Z.to_nat (r_buf_length r) ∧ start off = 0) as [Hpad Hst].
      { unfold pad, start. rewrite (proj2 (Z.ltb_lt _ _)) by lia. rewrite length_replicate. split; lia. }
      assert (Z.to_nat (r_buf_length r) ≤ n)%nat as Hn.
      { pose proof (len_nonneg (unread r)). rewrite len_take in Hlen. lia. }
      rewrite <- Hpad, skipn_firstn_comm, drop_app_length in Hinv. unfold m. rewrite length_app.
      rewrite Hst in *. destruct (Z.ltb_spec (r_buf_length r1) HEADER_SIZE) as [Hlt1|Hge1].
      * change (r_eof (clear_buf r1)) with (r_eof r1). rewrite (Hshort Hlt1). exists (clear_buf r1).
        split; [done|]. rewrite decide_False; [done|].
        pose proof (rinv_len _ _ _ Hinv) as Hlen1. destruct Hinv as [_ _ _ _ _ He1 _ _ _ _].
        rewrite (Hshort Hlt1) in He1. rewrite He1, len_nil, len_take, len_app in Hlen1.
        pose proof (len_nonneg R). unfold len, HEADER_SIZE in *. lia.
      * destruct (parse_ok r1 0 (n - length (pad off)) t d R Hinv Ht Hge1 Hfit) as (r' & Hrep' & Hp).
        exists r'. split; [congruence|]. case_decide; case_decide; try lia; [|done].
        by rewrite <- Nat.sub_add_distr in Hp.
  - assert (pad off = [] ∧ start off = off) as [Hpad Hst].
    { unfold pad, start. by rewrite (proj2 (Z.ltb_ge _ _)) by lia. }
    unfold m. rewrite Hpad, Hst in *. simpl. apply parse_ok; auto.
Qed.

Lemma usub_ok a b : b ≤ a → usub ck 64 a b = Ok (a - b).
Proof. intros. unfold usub. by rewrite (proj2 (Z.leb_le _ _)). Qed.

Lemma physical_offset_ok {B} a b c (k : Z → outcome B) :
  0 ≤ c → b + HEADER_SIZE + c ≤ a →
  (o1 ← usub ck 64 a b; o2 ← usub ck 64 o1 HEADER_SIZE; o3 ← usub ck 64 o2 c; k o3)
  = k (a - b - HEADER_SIZE - c).
Proof.
  intros. assert (0 < HEADER_SIZE) by done.
  rewrite usub_ok, Ok_bind by lia. rewrite usub_ok, Ok_bind by lia.
  by rewrite usub_ok, Ok_bind by lia.
Qed.

Lemma log_frags_length off b s E off' :
  log_frags off b s E off' → (length s + 7 ≤ length E)%nat.
Proof.
  induction 1; rewrite !length_app.
  - pose proof (len_frame (fragment_type b true) s). unfold len, HEADER_SIZE in *. lia.
  - pose proof (len_frame (fragment_type b false) d). unfold len, HEADER_SIZE in *. lia.
Qed.

(** Reading one logical record of a possibly cut log: [buf] is what was already
    collected. *)
Lemma read_frags_ok off b s E off' : log_frags off b s E off' →
  ∀ fuel r n R buf p, 0 ≤ p → rinv r off (take n (E ++ R)) → (length E < fuel)%nat →
  ∃ r', r_reporter r' = r_reporter r ∧
    if decide (length E ≤ n)%nat then
      read_record_loop ck fuel r buf (negb b) p = Ok (true, (if b then s else buf ++ s), r') ∧
      rinv r' off' (take (n - length E) R)
    else ∃ buf', read_record_loop ck fuel r buf (negb b) p = Ok (false, buf', r').
Proof.
  induction 1 as [off b s Hfit|off b d s E off' Hs Hfit Hfr IH]; intros fuel r n R buf p Hp Hr Hfuel.
  - destruct fuel as [|fuel]; [lia|]. rewrite <- app_assoc in Hr.
    destruct (read_physical_ok r off n (fragment_type b true) s R Hr) as (r' & Hrep & Hph);
      [by destruct b|done|]. cbn [read_record_loop].
    case_decide as Hn.
    + destruct Hph as (-> & Hinv & Hend). rewrite Ok_bind. destruct (Hinv) as [? ? ? ? ? ? ? ? Hsync ?].
      rewrite Hsync. cbn [andb]. pose proof (len_nonneg s).
      rewrite physical_offset_ok by done.
      destruct b; simpl; (eexists (set_last_record_offset _ _); split; [exact Hrep|]; split; [reflexivity|]);
        (destruct Hinv; split; try done); simpl; unfold HEADER_SIZE in *; lia.
    + rewrite Hph. rewrite Ok_bind. eauto.
  - destruct fuel as [|fuel]; [lia|]. rewrite <- !app_assoc in Hr.
    destruct (read_physical_ok r off n (fragment_type b false) d (E ++ R) Hr) as (r1 & Hrep & Hph);
      [by destruct b|lia|]. cbn [read_record_loop]. rewrite app_assoc, length_app.
    set (m := length (pad off ++ frame (fragment_type b false) d)) in *.
    assert (7 ≤ m)%nat as Hm.
    { unfold m. rewrite length_app. pose proof (len_frame (fragment_type b false) d).
      pose proof (len_nonneg d). unfold len, HEADER_SIZE in *. lia. }
    rewrite app_assoc, length_app in Hfuel. fold m in Hfuel. case_decide as Hn1.
    + destruct Hph as (-> & Hinv & Hend). rewrite Ok_bind. rewrite Hfit in Hinv.
      destruct (Hinv) as [? ? ? ? ? ? ? ? Hsync ?].
      rewrite Hsync. cbn [andb]. pose proof (len_nonneg d).
      rewrite physical_offset_ok by done.
      edestruct (IH fuel r1 (n - m)%nat R (if b then d else buf ++ d)
        (if b then r_end_of_buffer_offset r1 - r_buf_length r1 - HEADER_SIZE - len d else p))
        as (r2 & Hrep2 & Hres); [|done|lia|].
      { destruct b; [unfold HEADER_SIZE in *; lia|done]. }
      exists r2. split; [congruence|].
      replace (n - (m + length E))%nat with (n - m - length E)%nat by lia.
      destruct (decide (length E ≤ n - m)%nat), (decide (m + length E ≤ n)%nat); try lia;
        destruct b; simpl in *; rewrite ?app_assoc; try done; destruct Hres as [-> ?];
        by rewrite <- ?app_assoc.
    + rewrite Hph, Ok_bind. exists r1. split; [done|]. rewrite decide_False by lia. eauto.
Qed.

Lemma read_physical_nil r off :
  rinv r off [] →
  ∃ r', read_physical_record ck r = Ok (inr EOF, r') ∧ r_reporter r' = r_reporter r.
Proof.
  intros Hr. pose proof (rinv_len _ _ _ Hr) as Hlen. rewrite len_nil in Hlen.
  pose proof (len_nonneg (unread r)). pose proof (ri_len _ _ _ Hr).
  assert (r_buf_length r < HEADER_SIZE) as Hlt by (unfold HEADER_SIZE; lia).
  unfold read_physical_record. cbn [read_physical_loop]. rewrite (proj2 (Z.ltb_lt _ _) Hlt).
  change (r_eof (clear_buf r)) with (r_eof r). destruct (r_eof r) eqn:Heof; [simpl; eauto|].
  destruct (refill_ok r off _ Hr Hlt Heof) as (d & f & r1 & Hread & Hr1 & Hinv & Hrep & Hshort).
  cbn [negb]. change (r_buf (clear_buf r)) with zero_block.
  change (r_file (clear_buf r)) with (r_file r). rewrite Hread. cbv zeta in Hr1 |- *.
  change (r_buf (set_end_of_buffer (set_file (clear_buf r) f) _)) with zero_block.
  change (r_buf (set_end_of_buffer (set_file (clear_buf r) f) _)) with zero_block in Hr1.
  rewrite <- Hr1. rewrite drop_nil in Hinv.
  pose proof (rinv_len _ _ _ Hinv) as Hlen1. rewrite len_nil in Hlen1.
  pose proof (len_nonneg (unread r1)). pose proof (ri_len _ _ _ Hinv).
  assert (r_buf_length r1 < HEADER_SIZE) as Hlt1 by (unfold HEADER_SIZE; lia).
  rewrite (proj2 (Z.ltb_lt _ _) Hlt1). change (r_eof (clear_buf r1)) with (r_eof r1).
  rewrite (Hshort Hlt1). simpl. eauto.
Qed.

(** [reads nb fuel r buf rs r']: reading record after record yields [rs] and reports
    nothing; after a record [d] the next read gets the buffer [nb d]. *)
Inductive reads (nb : bytes → bytes) (fuel : nat) : Reader F → bytes → list bytes → Reader F → Prop :=
| reads_end r buf buf' r' : read_record ck fuel r buf = Ok (false, buf', r') → r_reporter r' = r_reporter r →
    reads nb fuel r buf [] r'
| reads_next r buf s r1 rs r2 : read_record ck fuel r buf = Ok (true, s, r1) → r_reporter r1 = r_reporter r →
    reads nb fuel r1 (nb s) rs r2 → reads nb fuel r buf (s :: rs) r2.

(** Reading a cut log record by record: the records that are complete are
    returned, nothing is reported. *)
Lemma reads_ok nb off rs E off' : log_records off rs E off' →
  ∀ fuel r n buf, rinv r off (take n E) → (length E < fuel)%nat →
  ∃ k r', reads nb fuel r buf (take k rs) r' ∧ (k ≤ length rs)%nat ∧
    ∃ E1 E2 o1, E = E1 ++ E2 ∧ log_records off (take k rs) E1 o1 ∧ (length E1 ≤ n)%nat ∧
    log_records o1 (drop k rs) E2 off' ∧
    (∀ s E3 o3, rs !! k = Some s → log_frags o1 true s E3 o3 → n < length E1 + length E3)%nat.
Proof.
  induction 1 as [off|off s E off1 rs Es off2 Hf Hrs IH]; intros fuel r n buf Hr Hfuel.
  - rewrite take_nil in Hr. destruct (read_physical_nil r off Hr) as (r' & Hp & Hrep).
    destruct fuel as [|fuel]; [simpl in Hfuel; lia|]. exists 0%nat, r'. split_and!; [|done|].
    { eapply reads_end; [|done]. unfold read_record.
      rewrite (ri_init _ _ _ Hr), (proj2 (Z.ltb_ge _ _)), Ok_bind by apply (ri_last _ _ _ Hr).
      cbn [read_record_loop]. by rewrite Hp. }
    exists [], [], off. split_and!; try constructor; simpl; try lia; done.
  - rewrite length_app in Hfuel.
    destruct (read_frags_ok _ _ _ _ _ Hf fuel r n Es buf 0) as (r1 & Hrep & Hres);
      [lia|done|lia|]. cbn [negb] in Hres.
    assert (read_record ck fuel r buf = read_record_loop ck fuel r buf false 0) as Hrd.
    { unfold read_record. by rewrite (ri_init _ _ _ Hr), (proj2 (Z.ltb_ge _ _)) by apply (ri_last _ _ _ Hr). }
    rewrite <- Hrd in Hres. case_decide as Hn.
    + destruct Hres as [Hread Hinv].
      destruct (IH fuel r1 (n - length E)%nat (nb s) Hinv ltac:(lia))
        as (k & r2 & Hreads & Hk & E1 & E2 & o1 & -> & HE1 & Hl & HE2 & Hmax).
      exists (S k), r2. split_and!; [by eapply reads_next|simpl; lia|].
      exists (E ++ E1), E2, o1. split_and!; [by rewrite app_assoc|by econstructor| |done|].
      * rewrite length_app. lia.
      * intros s' E3 o3 Hs' H3. specialize (Hmax _ _ _ Hs' H3). rewrite length_app. lia.
    + destruct Hres as (buf' & Hread). exists 0%nat, r1.
      split_and!; [by eapply reads_end|simpl; lia|]. exists [], (E ++ Es), off.
      split_and!; [done|constructor|simpl; lia|by econstructor|].
      intros s' E3 o3 [= <-] H3. rewrite (log_frags_det _ _ _ _ _ H3 _ _ Hf). simpl. lia.
Qed.

Lemma reads_records fuel r buf rs r' m : reads (λ d, d) fuel r buf rs r' → (length rs < m)%nat →
  read_records ck m fuel r buf = Ok (rs, r') ∧ r_reporter r' = r_reporter r.
Proof.
  intros Hr. revert m. induction Hr as [r buf buf' r' Hread Hrep|r buf s r1 rs r2 Hread Hrep Hr IH]; intros m Hm;
    (destruct m as [|m]; [lia|]); cbn [read_records]; rewrite Hread, Ok_bind; [done|].
  simpl in Hm. destruct (IH m ltac:(lia)) as [-> ?]. split; [done|congruence].
Qed.

Lemma read_records_ok off rs E off' : log_records off rs E off' →
  ∀ m fuel r n buf, rinv r off (take n E) → (length rs < m)%nat → (length E < fuel)%nat →
  ∃ k r', read_records ck m fuel r buf = Ok (take k rs, r') ∧ r_reporter r' = r_reporter r ∧
    (k ≤ length rs)%nat ∧
    ∃ E1 E2 o1, E = E1 ++ E2 ∧ log_records off (take k rs) E1 o1 ∧ (length E1 ≤ n)%nat ∧
    log_records o1 (drop k rs) E2 off' ∧
    (∀ s E3 o3, rs !! k = Some s → log_frags o1 true s E3 o3 → n < length E1 + length E3)%nat.
Proof.
  intros HE m fuel r n buf Hr Hm Hfuel. destruct (reads_ok (λ d, d) _ _ _ _ HE fuel r n buf Hr Hfuel) as (k & r' & Hreads & Hk & Hrest).
  destruct (reads_records _ _ _ _ _ m Hreads) as [? ?]; [rewrite length_take; lia|]. by exists k, r'.
Qed.
End ReaderFacts.

(** ** Facts on the layout used by the theorems *)
Section LayoutFacts.
Context `{CRC : Crc32}.

(** A fresh block and a full block are the same place. *)
Lemma log_frags_block b s E o : log_frags 0 b s E o → log_frags BLOCK_SIZE b s E o.
Proof.
  inversion 1; subst.
  - by apply (frags_end BLOCK_SIZE).
  - by apply (frags_cont BLOCK_SIZE).
Qed.
Lemma log_records_block rs E o : log_records 0 rs E o → ∃ o', log_records BLOCK_SIZE rs E o'.
Proof.
  inversion 1; subst; [eexists; constructor|].
  eexists. econstructor; [by apply log_frags_block|done].
Qed.

Lemma log_frags_det_off off b s E o : log_frags off b s E o →
  ∀ E' o', log_frags off b s E' o' → o = o'.
Proof.
  induction 1 as [off b s Hfit|off b d s E off' Hs Hfit Hfr IH]; inversion 1; subst; [done| | |].
  - exfalso. rewrite len_app in Hfit. destruct s0; [done|]. rewrite len_cons in Hfit.
    pose proof (len_nonneg s0). lia.
  - exfalso. rewrite len_app in *. destruct s; [done|]. rewrite len_cons in *.
    pose proof (len_nonneg s). lia.
  - match goal with H : ?d' ++ ?s' = d ++ s |- _ =>
      apply app_inj_1 in H as [-> ->]; [|unfold len in *; lia] end. eauto.
Qed.

Lemma log_records_det off rs E o : log_records off rs E o →
  ∀ E' o', log_records off rs E' o' → E = E' ∧ o = o'.
Proof.
  induction 1 as [|off s E o1 rs Es o2 Hf Hr IH]; intros E' o'.
  - by inversion 1.
  - inversion 1 as [|? ? E1 ? ? Es1 ? Hf1 Hr1]; subst.
    rewrite (log_frags_det _ _ _ _ _ Hf _ _ Hf1).
    rewrite <- (log_frags_det_off _ _ _ _ _ Hf _ _ Hf1) in Hr1.
    destruct (IH _ _ Hr1) as [-> ->]. done.
Qed.

Lemma log_records_split off rs E o j : log_records off rs E o →
  ∃ E1 E2 o1, E = E1 ++ E2 ∧ log_records off (take j rs) E1 o1 ∧ log_records o1 (drop j rs) E2 o.
Proof.
  revert off rs E. induction j as [|j IH]; intros off rs E HE.
  - exists [], E, off. split_and!; [done|constructor|by rewrite drop_0].
  - inversion HE as [|? s E1 o1 rs' Es ? Hf Hr]; subst.
    + exists [], [], o. by split_and!; constructor.
    + destruct (IH _ _ _ Hr) as (E2 & E3 & o2 & -> & H1 & H2).
      exists (E1 ++ E2), E3, o2. split_and!; [by rewrite app_assoc|by econstructor|done].
Qed.
End LayoutFacts.

(** ** Termination of the reader on arbitrary contents *)
Section Termination.
Context `{CRC : Crc32} `{FL : FileLaws F} (ck : bool).

(** Only the buffer bookkeeping is assumed. *)
Definition reader_wf (r : Reader F) : Prop :=
  f_ok (r_file r) ∧ 0 ≤ r_buf_length r ≤ len (r_buf r).

(** The bytes the reader may still look at. *)
Definition todo (r : Reader F) : Z := r_buf_length r + len (unread r).

Lemma report_drop_wf r n why r' : report_drop ck r n why = Ok r' →
  reader_wf r → reader_wf r' ∧ todo r' = todo r.
Proof.
  unfold report_drop. intros Hp Hwf. destruct (r_reporter r); [|by simplify_eq].
  destruct (_ =? 0); [by simplify_eq|]. apply bind_Ok in Hp as (d & _ & Hp).
  by destruct (_ <=? d); simplify_eq.
Qed.

Lemma clear_buf_wf r : reader_wf r → HEADER_SIZE ≤ r_buf_length r →
  reader_wf (clear_buf r) ∧ todo (clear_buf r) < todo r.
Proof.
  intros [Hf Hl] Hb. pose proof (len_nonneg zero_block). unfold todo, reader_wf, HEADER_SIZE in *.
  change (unread (clear_buf r)) with (unread r). simpl. split_and!; [done|lia..].
Qed.

(** A record or a bad record consumes at least a header. *)
Lemma parse_progress r res r' :
  parse_physical_record ck r = Ok (res, r') → reader_wf r → HEADER_SIZE ≤ r_buf_length r →
  reader_wf r' ∧ (res ≠ inr EOF → todo r' < todo r).
Proof.
  intros Hp Hwf Hb. destruct (clear_buf_wf r Hwf Hb) as [Hwc Htc].
  unfold parse_physical_record in Hp. apply bind_Ok in Hp as (hd & Hhd & Hp).
  apply bind_Ok in Hp as (ty & Hty & Hp). apply bind_Ok in Hp as (b4 & H4 & Hp).
  apply bind_Ok in Hp as (b5 & H5 & Hp).
  set (L := Z.lor _ _) in Hp.
  assert (0 ≤ L) as HL.
  { unfold L. apply Z.lor_nonneg. split; [apply Z.land_nonneg; lia|].
    apply Z.shiftl_nonneg, Z.land_nonneg. lia. }
  destruct (Z.ltb_spec (r_buf_length r) (HEADER_SIZE + L)).
  { change (r_eof (clear_buf r)) with (r_eof r) in Hp. destruct (r_eof r); cbn [negb] in Hp.
    - by simplify_eq.
    - apply bind_Ok in Hp as (r1 & Hr & Hp). simplify_eq.
      apply report_drop_wf in Hr as [? ->]; done. }
  destruct (_ && _).
  { apply bind_Ok in Hp as (r1 & Hr & Hp). simplify_eq. by apply report_drop_wf in Hr as [? ->]. }
  apply bind_Ok in Hp as (bad & _ & Hp). destruct bad.
  { apply bind_Ok in Hp as (r1 & Hr & Hp). simplify_eq. by apply report_drop_wf in Hr as [? ->]. }
  apply bind_Ok in Hp as (data & Hd & Hp). cbv zeta in Hp. set (r1 := set_buf _ _ _) in Hp.
  assert (reader_wf r1 ∧ todo r1 < todo r) as [Hwf1 Ht1].
  { destruct Hwf as [Hf Hl]. unfold reader_wf, todo. change (unread r1) with (unread r). simpl.
    rewrite len_drop. unfold HEADER_SIZE in *. split_and!; [done|lia..]. }
  destruct (_ <? _); [by simplify_eq|].
  apply bind_Ok in Hp as (? & _ & Hp). apply bind_Ok in Hp as (? & _ & Hp). by simplify_eq.
Qed.

Lemma report_drop_fuel (r : Reader F) n why : report_drop ck r n why ≠ OutOfFuel.
Proof. unfold report_drop. nofuel. Qed.
#[local] Hint Resolve report_drop_fuel : nofuel.

Lemma record_type_from_fuel v : record_type_from v ≠ OutOfFuel.
Proof. unfold record_type_from. nofuel. Qed.
#[local] Hint Resolve record_type_from_fuel : nofuel.

Lemma parse_fuel (r : Reader F) : parse_physical_record ck r ≠ OutOfFuel.
Proof. unfold parse_physical_record. nofuel. Qed.

Lemma read_physical_total r :
  reader_wf r → read_physical_record ck r ≠ OutOfFuel ∧
  ∀ res r', read_physical_record ck r = Ok (res, r') →
    reader_wf r' ∧ (res ≠ inr EOF → todo r' < todo r).
Proof.
  intros Hwf. unfold read_physical_record. cbn [read_physical_loop].
  destruct (Z.ltb_spec (r_buf_length r) HEADER_SIZE) as [Hlt|Hge];
    [|split; [apply parse_fuel|intros; by eapply parse_progress]].
  change (r_eof (clear_buf r)) with (r_eof r). pose proof (len_nonneg zero_block) as Hz0.
  destruct (r_eof r); cbn [negb].
  { split; [done|]. intros ? ? [= <- <-]. split; [|done]. split; [apply Hwf|simpl; lia]. }
  change (r_file (clear_buf r)) with (r_file r). change (r_buf (clear_buf r)) with zero_block.
  destruct Hwf as [Hf Hl].
  destruct (law_read (r_file r) (length zero_block) Hf) as (f & -> & Hf' & Hc & Hpos).
  fold (unread r) in *. set (d := take (length zero_block) (unread r)) in *.
  change (r_buf (set_end_of_buffer (set_file (clear_buf r) f) _)) with zero_block. cbv zeta.
  match goal with |- context [set_eof ?r' true] => set (r1 := r') end.
  assert (len d ≤ len (unread r)) as Hdu by (unfold d; rewrite len_take; lia).
  assert (drop (f_pos f) (f_contents f) = drop (length d) (unread r)) as Hun.
  { unfold unread. by rewrite Hc, Hpos, drop_drop. }
  pose proof (len_nonneg d). pose proof (len_nonneg (drop (length d) zero_block)).
  assert (∀ b, reader_wf (set_eof r1 b) ∧ todo (set_eof r1 b) ≤ todo r) as Hr1.
  { intros b. split.
    - split; [exact Hf'|]. simpl. rewrite len_app. lia.
    - change (todo (set_eof r1 b)) with (len d + len (drop (f_pos f) (f_contents f))).
      rewrite Hun, len_drop. unfold todo, len in *. lia. }
  destruct (Z.ltb_spec (len d) BLOCK_SIZE) as [Hs|Hfull].
  - destruct (Hr1 true) as [Hwf1 Ht1].
    destruct (Z.ltb_spec (r_buf_length (set_eof r1 true)) HEADER_SIZE).
    + cbn. split; [done|]. intros ? ? [= <- <-]. split; [|done]. split; [done|simpl; lia].
    + split; [apply parse_fuel|]. intros res r' Hp.
      apply parse_progress in Hp as [? Hlt']; [|done..]. split; [done|]. intros. specialize (Hlt' ltac:(done)). lia.
  - assert (set_eof r1 (r_eof r1) = r1) as Heq by done.
    destruct (Hr1 (r_eof r1)) as [Hwf1 Ht1]. rewrite Heq in *.
    rewrite (proj2 (Z.ltb_ge (r_buf_length r1) HEADER_SIZE))
      by (change (r_buf_length r1) with (len d); unfold BLOCK_SIZE, HEADER_SIZE in *; lia).
    split; [apply parse_fuel|]. intros res r' Hp.
    apply parse_progress in Hp as [? Hlt']; [|done|change (r_buf_length r1) with (len d);
      unfold BLOCK_SIZE, HEADER_SIZE in *; lia]. split; [done|]. intros. specialize (Hlt' ltac:(done)). lia.
Qed.

Lemma read_record_loop_fuel fuel r buf b p :
  reader_wf r → todo r < Z.of_nat fuel → read_record_loop ck fuel r buf b p ≠ OutOfFuel.
Proof.
  revert r buf b p. induction fuel as [|fuel IH]; intros r buf b p Hwf Ht.
  { destruct Hwf as [_ ?]. pose proof (len_nonneg (unread r)). unfold todo in Ht. lia. }
  cbn [read_record_loop]. destruct (read_physical_total r Hwf) as [Hnf Hres].
  destruct (read_physical_record ck r) as [[res r1]| | |] eqn:Hrd; try done.
  destruct (Hres _ _ eq_refl) as [Hwf1 Hlt]. rewrite Ok_bind.
  assert (∀ r2 n why, report_drop ck r1 n why = Ok r2 → res ≠ inr EOF →
    reader_wf r2 ∧ todo r2 < Z.of_nat fuel) as Hrep.
  { intros r2 n why Hr2 Hne. apply report_drop_wf in Hr2 as [? ->]; [|done].
    split; [done|]. specialize (Hlt Hne). lia. }
  assert (∀ c, reader_wf (set_resyncing r1 c) ∧ todo (set_resyncing r1 c) = todo r1) as Hsync by done.
  destruct res as [[t data]|[]]; [|done|].
  - specialize (Hlt ltac:(done)). cbv zeta.
    assert (∀ r0, reader_wf r0 → todo r0 = todo r1 → ∀ b' n why k,
      (∀ r2, reader_wf r2 → todo r2 < Z.of_nat fuel → k r2 ≠ OutOfFuel) →
      (r2 ← (if b' : bool then report_drop ck r0 n why else Ok r0); (k r2 : outcome (bool * bytes * Reader F)))
        ≠ OutOfFuel) as Hk.
    { intros r0 Hwf0 Ht0 b' n why k Hk. destruct b'; [|apply Hk; [done|lia]].
      destruct (report_drop ck r0 n why) as [r2| | |] eqn:Hr2; try done.
      - apply report_drop_wf in Hr2 as [? Heq]; [|done]. apply Hk; [done|lia].
      - by destruct (report_drop_fuel r0 n why). }
    destruct (r_resyncing r1 && bool_decide (t = Middle)); [apply IH; [done|lia]|].
    destruct (r_resyncing r1 && bool_decide (t = Last)); [apply IH; [done|destruct (Hsync false) as [_ ->]; lia]|].
    set (r0 := if r_resyncing r1 then _ else _).
    assert (reader_wf r0 ∧ todo r0 = todo r1) as [Hwf0 Ht0].
    { unfold r0. destruct (r_resyncing r1); [apply Hsync|done]. }
    apply bind_fuel; [nofuel|intros o1]. apply bind_fuel; [nofuel|intros o2].
    apply bind_fuel; [nofuel|intros o3].
    destruct t; [apply IH; [done|lia]|..].
    + apply Hk; [done..|]. intros. done.
    + apply Hk; [done..|]. intros. by apply IH.
    + destruct b; [apply IH; [done|lia]|]. apply (Hk r0 Hwf0 Ht0 true). intros. by apply IH.
    + destruct b; [done|]. apply (Hk r0 Hwf0 Ht0 true). intros. by apply IH.
  - specialize (Hlt ltac:(done)). destruct b; [|apply IH; [done|lia]].
    destruct (report_drop ck r1 _ _) as [r2| | |] eqn:Hr2; try done.
    + apply Hrep in Hr2 as [? ?]; [|done]. by apply IH.
    + by destruct (report_drop_fuel r1 (len buf) (Msg "bad record read in middle of record")).
Qed.

Lemma skip_to_initial_total r :
  reader_wf r → in_uint 63 (r_initial_offset r) →
  ∃ r', skip_to_initial_block ck r = Ok (true, r') ∧ reader_wf r' ∧
    todo r' ≤ r_buf_length r + len (f_contents (r_file r)).
Proof.
  intros [Hf Hl] [Hi0 Hi]. unfold skip_to_initial_block. cbv zeta.
  pose proof (Z.mod_pos_bound (r_initial_offset r) BLOCK_SIZE ltac:(done)).
  set (s := if BLOCK_SIZE - 6 <? _ then _ else _).
  assert (s ≤ r_initial_offset r + BLOCK_SIZE) as Hs by (unfold s; case_match; lia).
  destruct (Z.ltb_spec 0 s).
  - change (r_file (set_end_of_buffer r s)) with (r_file r).
    destruct (law_seek (r_file r) s Hf) as (f & -> & Hf' & Hc & Hp); [unfold in_uint, BLOCK_SIZE in *; lia|].
    eexists. split; [done|]. split; [done|]. unfold todo, unread. simpl.
    rewrite len_drop, Hc. pose proof (len_nonneg (f_contents (r_file r))). lia.
  - eexists. split; [done|]. split; [done|]. unfold todo, unread. simpl.
    rewrite len_drop. pose proof (len_nonneg (f_contents (r_file r))). lia.
Qed.

Lemma read_record_fuel fuel r buf :
  reader_wf r → in_uint 63 (r_initial_offset r) →
  r_buf_length r + len (f_contents (r_file r)) < Z.of_nat fuel →
  read_record ck fuel r buf ≠ OutOfFuel.
Proof.
  intros Hwf Hi Hfuel. unfold read_record. destruct (r_last_record_offset r <? _).
  - destruct (skip_to_initial_total r Hwf Hi) as (r' & -> & Hwf' & Ht).
    rewrite Ok_bind. apply read_record_loop_fuel; [done|lia].
  - rewrite Ok_bind. apply read_record_loop_fuel; [done|].
    unfold todo, unread. rewrite len_drop. pose proof (len_nonneg (f_contents (r_file r))). lia.
Qed.
End Termination.

(** ** Theorems *)
Section Theorems.
Context `{CRC : Crc32, !Crc32Laws} `{FL : FileLaws F} (ck : bool).

(** C13: the record log round trip.  On a fresh, healthy file the writer accepts
    any sequence of records of any sizes (it neither fails nor panics), and a
    reader over the file it produced returns exactly these records, in order,
    then end of file, without reporting any corruption. *)
Theorem log_roundtrip (f : F) (rs : list bytes) (checksum : bool) (m fuel : nat) :
  f_ok f → f_contents f = [] → f_pos f = 0%nat →
  ∃ w w', writer_new f = Ok w ∧ add_records w rs = (Ok tt, w') ∧
    ((length rs < m)%nat → (length (f_contents (w_dest w')) < fuel)%nat →
     ∃ r', read_records ck m fuel (reader_new (w_dest w') (Some []) checksum 0) [] = Ok (rs, r') ∧
       r_reporter r' = Some []).
Proof.
  intros Hf Hc Hp. exists (mkWriter f 0 type_crcs).
  destruct (add_records_ok (mkWriter f 0 type_crcs) rs) as (w' & E & o & Hadd & HE & Hw & HcE & HpE & _).
  { by split_and!. }
  exists w'. split; [done|]. split; [done|]. intros Hm Hfuel. simpl in *.
  rewrite Hc in HcE. simpl in HcE. rewrite Hp in HpE.
  pose proof (rinv_new (w_dest w') (Some []) checksum (proj1 Hw)) as Hr.
  rewrite HpE, HcE, drop_0, <- (firstn_all E) in Hr.
  destruct (log_records_block _ _ _ HE) as (o' & HE').
  destruct (read_records_ok ck _ _ _ _ HE' m fuel _ _ [] Hr) as (k & r' & Hread & Hrep & Hk & Hrest);
    [done|by rewrite <- HcE|].
  destruct Hrest as (E1 & E2 & o1 & -> & HE1 & Hl & HE2 & Hmax).
  exists r'. split; [|done]. rewrite Hread. rewrite take_ge; [done|].
  destruct (decide (k = length rs)) as [->|Hne]; [done|]. exfalso.
  destruct (lookup_lt_is_Some_2 rs k ltac:(lia)) as [s Hs]. rewrite (drop_S _ _ _ Hs) in HE2.
  inversion HE2 as [|? ? E3 o3 ? ? ? Hf3 ?]; subst. specialize (Hmax _ _ _ Hs Hf3).
  rewrite !length_app in Hmax. lia.
Qed.

(** Reading the first [n] bytes of a log. *)
Lemma torn_reads nb (f f2 : F) (w w' : Writer F) (rs : list bytes) (checksum : bool) (fuel n : nat) :
  f_ok f → f_contents f = [] →
  writer_new f = Ok w → add_records w rs = (Ok tt, w') →
  f_ok f2 → f_pos f2 = 0%nat → f_contents f2 = take n (f_contents (w_dest w')) →
  (length (f_contents (w_dest w')) < fuel)%nat →
  ∃ k r', reads ck nb fuel (reader_new f2 (Some []) checksum 0) [] (take k rs) r' ∧ (k ≤ length rs)%nat ∧
    ∀ j wj, (j ≤ length rs)%nat → add_records w (take j rs) = (Ok tt, wj) →
      (j ≤ k ↔ length (f_contents (w_dest wj)) ≤ n)%nat.
Proof.
  intros Hf Hc [= <-] Hadd Hf2 Hp2 Hc2 Hfuel.
  assert (∀ rs w'', add_records (mkWriter f 0 type_crcs) rs = (Ok tt, w'') →
    ∃ o, log_records BLOCK_SIZE rs (f_contents (w_dest w'')) o) as Hlog.
  { intros rs' w'' Hadd'. destruct (add_records_ok (mkWriter f 0 type_crcs) rs')
      as (w2 & E & o & Hadd2 & HE & Hw & HcE & _); [by split_and!|].
    rewrite Hadd2 in Hadd'. simplify_eq. rewrite HcE. simpl. rewrite Hc.
    by apply log_records_block in HE. }
  destruct (Hlog _ _ Hadd) as [o HE].
  pose proof (rinv_new f2 (Some []) checksum Hf2) as Hr. rewrite Hp2, Hc2, drop_0 in Hr.
  destruct (reads_ok ck nb _ _ _ _ HE fuel _ _ [] Hr Hfuel)
    as (k & r' & Hread & Hk & E1 & E2 & o1 & HEq & HE1 & Hl & HE2 & Hmax).
  exists k, r'. split_and!; [done..|]. intros j wj Hj Hwj. destruct (Hlog _ _ Hwj) as [oj HEj].
  set (Ej := f_contents (w_dest wj)) in *. split; intros Hjk.
  - destruct (log_records_split _ _ _ _ j HE1) as (Ea & Eb & oa & -> & Ha & _).
    rewrite take_take, Nat.min_l in Ha by lia.
    destruct (log_records_det _ _ _ _ HEj _ _ Ha) as [-> _]. rewrite length_app in Hl. lia.
  - destruct (decide (j ≤ k)%nat) as [|Hgt]; [done|]. exfalso.
    destruct (log_records_split _ _ _ _ k HEj) as (Ea & Eb & oa & HEjeq & Ha & Hb).
    rewrite take_take, Nat.min_l in Ha by lia.
    destruct (log_records_det _ _ _ _ HE1 _ _ Ha) as [<- <-].
    destruct (lookup_lt_is_Some_2 rs k ltac:(lia)) as [s Hs].
    rewrite (drop_S (take j rs) s) in Hb by (rewrite lookup_take_lt; [done|lia]).
    inversion Hb as [|? ? E3 o3 ? ? ? Hf3 ?]; subst. specialize (Hmax _ _ _ Hs Hf3).
    rewrite HEjeq, !length_app in Hjk. lia.
Qed.

(** C14: a torn log is read up to the tear.  If only the first [n] bytes of the
    log survive, the reader returns exactly those leading records whose bytes
    were written completely, then end of file, and reports no corruption. *)
Theorem log_torn_tail (f f2 : F) (w w' : Writer F) (rs : list bytes) (checksum : bool)
    (m fuel n : nat) :
  f_ok f → f_contents f = [] →
  writer_new f = Ok w → add_records w rs = (Ok tt, w') →
  f_ok f2 → f_pos f2 = 0%nat → f_contents f2 = take n (f_contents (w_dest w')) →
  (length rs < m)%nat → (length (f_contents (w_dest w')) < fuel)%nat →
  ∃ k r', read_records ck m fuel (reader_new f2 (Some []) checksum 0) [] = Ok (take k rs, r') ∧
    r_reporter r' = Some [] ∧ (k ≤ length rs)%nat ∧
    ∀ j wj, (j ≤ length rs)%nat → add_records w (take j rs) = (Ok tt, wj) →
      (j ≤ k ↔ length (f_contents (w_dest wj)) ≤ n)%nat.
Proof.
  intros Hf Hc Hw Hadd Hf2 Hp2 Hc2 Hm Hfuel.
  destruct (torn_reads (λ d, d) f f2 w w' rs checksum fuel n Hf Hc Hw Hadd Hf2 Hp2 Hc2 Hfuel) as (k & r' & Hreads & Hk & Hj).
  destruct (reads_records _ _ _ _ _ _ m Hreads) as [? ?]; [rewrite length_take; lia|]. by exists k, r'.
Qed.

(** C31: the reader terminates on every file, corrupted or not: with fuel for
    one iteration per byte, [read_record] never runs out of it. *)
Theorem read_record_terminates (r : Reader F) (buf : bytes) (fuel : nat) :
  f_ok (r_file r) → 0 ≤ r_buf_length r ≤ len (r_buf r) → in_uint 63 (r_initial_offset r) →
  r_buf_length r + len (f_contents (r_file r)) < Z.of_nat fuel →
  read_record ck fuel r buf ≠ OutOfFuel.
Proof. intros Hf Hl. by apply read_record_fuel. Qed.
End Theorems.

(** *** Witnesses, on the in-memory file with the IEEE checksum *)
Import IeeeCrc.

Definition demo_records : list bytes := [[1; 2; 3]; []; [255]].

Lemma log_roundtrip_witness :
  ∃ w w', writer_new (F := InmemFile) inmem_default = Ok w ∧
    add_records (FO := InmemFile_File true) w demo_records = (Ok tt, w') ∧
    ((3 < 4)%nat → (length (im_data (w_dest w')) < 100)%nat →
     ∃ r', read_records (FO := InmemFile_File true) true 4 100
             (reader_new (w_dest w') (Some []) true 0) [] = Ok (demo_records, r') ∧
       r_reporter r' = Some []).
Proof.
  apply (log_roundtrip (F := InmemFile) (FL := InmemFile_laws true) true
           inmem_default demo_records true 4 100); reflexivity || (simpl; lia).
Defined.

Definition demo_writer : Writer InmemFile := mkWriter inmem_default 0 type_crcs.
Definition demo_written : Writer InmemFile :=
  (add_records (FO := InmemFile_File true) demo_writer demo_records).2.
Definition torn_file : InmemFile := mkInmem false (take 20 (im_data (w_dest demo_written))) 0.

Lemma log_torn_tail_witness :
  ∃ k r', read_records (FO := InmemFile_File true) true 4 100
            (reader_new torn_file (Some []) true 0) [] = Ok (take k demo_records, r') ∧
    r_reporter r' = Some [] ∧ (k ≤ length demo_records)%nat ∧
    ∀ j wj, (j ≤ length demo_records)%nat →
      add_records (FO := InmemFile_File true) demo_writer (take j demo_records) = (Ok tt, wj) →
      (j ≤ k ↔ length (im_data (w_dest wj)) ≤ 20)%nat.
Proof.
  apply (log_torn_tail (F := InmemFile) (FL := InmemFile_laws true) true
           inmem_default torn_file demo_writer demo_written demo_records true 4 100 20);
    solve [reflexivity | vm_compute; reflexivity | simpl; lia | vm_compute; lia].
Defined.

(** The cut at byte 20 keeps the first two of the three records. *)
Example torn_file_reads_two :
  fst <$> read_records (FO := InmemFile_File true) true 4 100
            (reader_new torn_file (Some []) true 0) [] = Ok [[1; 2; 3]; []].
Proof. vm_compute. reflexivity. Qed.

Lemma read_record_terminates_witness :
  read_record (FO := InmemFile_File true) true 30
    (reader_new (mkInmem false [1; 2; 3; 4; 0; 0; 9; 200] 0) None false 0) [] ≠ OutOfFuel.
Proof.
  apply (read_record_terminates (F := InmemFile) (FL := InmemFile_laws true) true);
    [simpl; lia | split; [simpl; lia|apply len_nonneg] | split; done | done].
Defined.

(** *** Two defects of the reader *)

(** [report_drop] underflows: the block of zeros left by a preallocated file of
    less than 32 KiB makes [read_physical_record] clear the buffer first and
    then report the length of the cleared buffer (a whole block), which is
    subtracted from the number of bytes read. *)
Example report_drop_underflow :
  read_record (FO := InmemFile_File true) true 30
    (reader_new (mkInmem false (replicate 10 0) 0) (Some []) true 0) [] = Panic.
Proof. vm_compute. reflexivity. Qed.

(** A record whose checksum matches but whose type byte is unknown panics. *)
Example unknown_type_panics :
  read_record (FO := InmemFile_File true) true 30
    (reader_new (mkInmem false (to_le_bytes 4 (mask (crc_hash [9; 7])) ++ [1; 0; 9; 7]) 0)
       (Some []) true 0) [] = Panic.
Proof. vm_compute. reflexivity. Qed.
