(* ===== verification/Iterator.v ===== *)
(** * The [Iterator] trait ([src/iterator.rs]) as an interface

    The operations of the trait are a class; [FwdLaws] and [BwdLaws] state what
    an implementation promises: it walks over a sorted list of entries.  The
    clients (concatenating and merging iterators) are proved against these
    classes, the implementations (block iterator, ...) are instances. *)
From S2P Require Import Prelude Comparator.

Notation entry := (bytes * bytes)%type.

(** [pub trait Iterator] *)
Class Iterator (I : Type) : Type := {
  it_valid : I → bool;
  it_seek_to_first : I → outcome I;
  it_seek_to_last : I → outcome I;
  it_seek : I → bytes → outcome I;
  it_next : I → outcome I;
  it_prev : I → outcome I;
  it_key : I → outcome bytes;
  it_value : I → outcome bytes;
  it_status : I → outcome unit * I;
}.

(** ** Positions in a list of entries *)

Definition first_pos (l : list entry) : option nat :=
  match l with [] => None | _ => Some 0 end.
Definition last_pos (l : list entry) : option nat :=
  match l with [] => None | _ => Some (length l - 1) end.
Definition next_pos (l : list entry) (i : nat) : option nat :=
  if decide (S i < length l) then Some (S i) else None.
Definition prev_pos (i : nat) : option nat :=
  match i with O => None | S i => Some i end.

Section positions.
Context (ord : bytes → bytes → comparison).

(** The first entry whose key is not smaller than the target. *)
Definition seek_pos (l : list entry) (target : bytes) : option nat :=
  fst <$> list_find (λ e : entry, ord e.1 target ≠ Lt) l.

Definition sorted (l : list entry) : Prop :=
  ∀ i j a b, i < j → l !! i = Some a → l !! j = Some b → ord a.1 b.1 = Lt.

Lemma seek_pos_Some l t i :
  seek_pos l t = Some i ↔
  (∃ e, l !! i = Some e ∧ ord e.1 t ≠ Lt) ∧ ∀ j e, j < i → l !! j = Some e → ord e.1 t = Lt.
Proof.
  unfold seek_pos. rewrite fmap_Some. split.
  - intros ([i' e] & Hf & ->). apply list_find_Some in Hf as (Hi & Hge & Hlt). simpl. split; [eauto|].
    intros j e' Hj He'. specialize (Hlt _ _ He' Hj). simpl in Hlt. destruct (decide (ord e'.1 t = Lt)); tauto.
  - intros [(e & Hi & Hge) Hlt]. exists (i, e). split; [|done]. apply list_find_Some.
    split_and!; [done..|]. intros j e' He' Hj. specialize (Hlt _ _ Hj He'). naive_solver.
Qed.

Lemma seek_pos_None l t :
  seek_pos l t = None ↔ ∀ j e, l !! j = Some e → ord e.1 t = Lt.
Proof.
  unfold seek_pos. rewrite fmap_None, list_find_None, Forall_lookup. split.
  - intros Hall j e He. specialize (Hall _ _ He). simpl in Hall. destruct (decide (ord e.1 t = Lt)); tauto.
  - intros Hall j e He. rewrite (Hall _ _ He). naive_solver.
Qed.

Lemma seek_pos_lt l t i : seek_pos l t = Some i → i < length l.
Proof. rewrite seek_pos_Some. intros [(e & He & _) _]. by eapply lookup_lt_Some. Qed.

(** Sortedness, decided on all pairs of positions. *)
Definition pair_ok (l : list entry) (i j : nat) : bool :=
  match l !! i, l !! j with
  | Some a, Some b => bool_decide (i < j → ord a.1 b.1 = Lt)
  | _, _ => true
  end.
Definition sortedb (l : list entry) : bool :=
  forallb (λ i, forallb (pair_ok l i) (seq 0 (length l))) (seq 0 (length l)).

Lemma sortedb_sorted l : sortedb l = true → sorted l.
Proof.
  unfold sortedb. intros Hall i j a b Hij Ha Hb. rewrite forallb_forall in Hall.
  apply lookup_lt_Some in Ha as Hi. apply lookup_lt_Some in Hb as Hj.
  specialize (Hall i ltac:(apply in_seq; lia)). rewrite forallb_forall in Hall.
  specialize (Hall j ltac:(apply in_seq; lia)). unfold pair_ok in Hall. rewrite Ha, Hb in Hall.
  by apply (bool_decide_eq_true_1 _ Hall).
Qed.
End positions.

(** ** The interface *)
Section interface.
Context {I : Type} {IT : Iterator I}.
Context (ord : bytes → bytes → comparison) (key_ok : bytes → Prop).

(** [rep it l p]: [it] walks over [l] and stands at [p] ([None]: not valid). *)
Class FwdLaws (rep : I → list entry → option nat → Prop) : Prop := {
  rep_lt it l i : rep it l (Some i) → i < length l;
  rep_valid it l p : rep it l p → it_valid it = match p with Some _ => true | None => false end;
  rep_seek_to_first it l p : rep it l p →
    ∃ it', it_seek_to_first it = Ok it' ∧ rep it' l (first_pos l);
  rep_seek it l p t : rep it l p → key_ok t →
    ∃ it', it_seek it t = Ok it' ∧ rep it' l (seek_pos ord l t);
  rep_next it l i : rep it l (Some i) →
    ∃ it', it_next it = Ok it' ∧ rep it' l (next_pos l i);
  rep_key it l i e : rep it l (Some i) → l !! i = Some e → it_key it = Ok e.1;
  rep_value it l i e : rep it l (Some i) → l !! i = Some e → it_value it = Ok e.2;
  rep_status it l p : rep it l p → ∃ it', it_status it = (Ok tt, it') ∧ rep it' l p;
}.

Class BwdLaws (rep : I → list entry → option nat → Prop) : Prop := {
  rep_seek_to_last it l p : rep it l p →
    ∃ it', it_seek_to_last it = Ok it' ∧ rep it' l (last_pos l);
  rep_prev it l i : rep it l (Some i) →
    ∃ it', it_prev it = Ok it' ∧ rep it' l (prev_pos i);
}.
End interface.
#[global] Hint Mode FwdLaws - - - - ! : typeclass_instances.
#[global] Hint Mode BwdLaws - - ! : typeclass_instances.

(** ** Walking an iterator to its end *)
Section collect.
Context {I : Type} {IT : Iterator I}.

(** [while iter.valid() { .. iter.key(), iter.value() ..; iter.next() }] *)
Fixpoint collect (fuel : nat) (it : I) : outcome (list entry) :=
  if it_valid it then
    match fuel with
    | O => OutOfFuel
    | S fuel =>
      k ← it_key it;
      v ← it_value it;
      it ← it_next it;
      rest ← collect fuel it;
      Ok ((k, v) :: rest)
    end
  else Ok [].

(** [while iter.valid() { ..; iter.prev() }] *)
Fixpoint collect_back (fuel : nat) (it : I) : outcome (list entry) :=
  if it_valid it then
    match fuel with
    | O => OutOfFuel
    | S fuel =>
      k ← it_key it;
      v ← it_value it;
      it ← it_prev it;
      rest ← collect_back fuel it;
      Ok ((k, v) :: rest)
    end
  else Ok [].

Context (ord : bytes → bytes → comparison) (key_ok : bytes → Prop)
  (rep : I → list entry → option nat → Prop) {FL : FwdLaws ord key_ok rep}.

Definition rest_from (l : list entry) (p : option nat) : list entry :=
  match p with Some i => drop i l | None => [] end.

Lemma collect_rep fuel it l p :
  rep it l p → length (rest_from l p) ≤ fuel → collect fuel it = Ok (rest_from l p).
Proof.
  revert it p. induction fuel as [|fuel IH]; intros it p Hr Hf; cbn [collect];
    rewrite (rep_valid ord key_ok it l p Hr); destruct p as [i|]; simpl in *; try done.
  - pose proof (rep_lt ord key_ok it l i Hr). rewrite length_drop in Hf. lia.
  - pose proof (rep_lt ord key_ok it l i Hr) as Hi.
    destruct (lookup_lt_is_Some_2 l i Hi) as [[k v] Hl].
    rewrite (rep_key ord key_ok it l i _ Hr Hl), (rep_value ord key_ok it l i _ Hr Hl). simpl.
    destruct (rep_next ord key_ok it l i Hr) as (it' & -> & Hr'). simpl.
    rewrite (drop_S _ _ _ Hl). unfold next_pos in Hr'. rewrite length_drop in Hf. case_decide.
    + rewrite (IH _ _ Hr') by (simpl; rewrite length_drop; lia). done.
    + rewrite (IH _ _ Hr') by (simpl; lia). simpl. by rewrite drop_ge by lia.
Qed.

Definition rest_back (l : list entry) (p : option nat) : list entry :=
  match p with Some i => reverse (take (S i) l) | None => [] end.

Lemma collect_back_rep {BL : BwdLaws rep} fuel it l p :
  rep it l p → length (rest_back l p) ≤ fuel → collect_back fuel it = Ok (rest_back l p).
Proof.
  revert it p. induction fuel as [|fuel IH]; intros it p Hr Hf; cbn [collect_back];
    rewrite (rep_valid ord key_ok it l p Hr); destruct p as [i|]; simpl in *; try done.
  - pose proof (rep_lt ord key_ok it l i Hr). rewrite length_reverse, length_take in Hf. lia.
  - pose proof (rep_lt ord key_ok it l i Hr) as Hi.
    destruct (lookup_lt_is_Some_2 l i Hi) as [[k v] Hl].
    rewrite (rep_key ord key_ok it l i _ Hr Hl), (rep_value ord key_ok it l i _ Hr Hl). simpl.
    destruct (rep_prev it l i Hr) as (it' & -> & Hr'). simpl.
    rewrite length_reverse, length_take in Hf.
    rewrite (IH _ _ Hr').
    + simpl. rewrite (take_S_r _ _ _ Hl), reverse_snoc. by destruct i.
    + destruct i; simpl; [lia|]. rewrite length_reverse, length_take. lia.
Qed.
End collect.

(** ** The reference iterator: a list of entries and a position *)
Section ListIter.
Context (ord : bytes → bytes → comparison).

Record ListIter : Type := mkListIter { li_list : list entry; li_pos : option nat }.

Definition li_move (it : ListIter) (p : option nat) : ListIter := mkListIter (li_list it) p.
Definition li_at (it : ListIter) : outcome nat := match li_pos it with Some i => Ok i | None => Panic end.
Definition li_entry (it : ListIter) : outcome entry := i ← li_at it; index (li_list it) i.

Definition ListIter_Iterator : Iterator ListIter := {|
  it_valid it := match li_pos it with Some _ => true | None => false end;
  it_seek_to_first it := Ok (li_move it (first_pos (li_list it)));
  it_seek_to_last it := Ok (li_move it (last_pos (li_list it)));
  it_seek it t := Ok (li_move it (seek_pos ord (li_list it) t));
  it_next it := i ← li_at it; Ok (li_move it (next_pos (li_list it) i));
  it_prev it := i ← li_at it; Ok (li_move it (prev_pos i));
  it_key it := e ← li_entry it; Ok e.1;
  it_value it := e ← li_entry it; Ok e.2;
  it_status it := (Ok tt, it);
|}.

Definition list_rep (it : ListIter) (l : list entry) (p : option nat) : Prop :=
  it = mkListIter l p ∧ ∀ i, p = Some i → i < length l.

Lemma list_fwd key_ok : @FwdLaws _ ListIter_Iterator ord key_ok list_rep.
Proof.
  split; simpl.
  - intros it l i [_ Hi]. by apply Hi.
  - by intros it l p [-> _].
  - intros it l p [-> _]. eexists. split; [done|]. split; [done|]. simpl.
    destruct l; simpl; intros i Hi; simplify_eq; lia.
  - intros it l p t [-> _] _. eexists. split; [done|]. split; [done|]. simpl. apply seek_pos_lt.
  - intros it l i [-> _]. eexists. split; [done|]. split; [done|]. simpl. unfold next_pos.
    case_decide; intros j Hj; simplify_eq; lia.
  - intros it l i e [-> _] He. unfold li_entry, li_at. simpl. unfold index. by rewrite He.
  - intros it l i e [-> _] He. unfold li_entry, li_at. simpl. unfold index. by rewrite He.
  - intros it l p Hr. by exists it.
Qed.
Lemma list_bwd : @BwdLaws _ ListIter_Iterator list_rep.
Proof.
  split; simpl.
  - intros it l p [-> _]. eexists. split; [done|]. split; [done|]. simpl.
    destruct l; simpl; intros i Hi; simplify_eq; lia.
  - intros it l i [-> Hi]. eexists. split; [done|]. split; [done|]. simpl.
    specialize (Hi i eq_refl). destruct i; simpl; intros j Hj; simplify_eq; lia.
Qed.
End ListIter.
