(* ===== verification/Block.v ===== *)
(** * Blocks of a table: [src/sstable/block.rs]

    [BlockBuilder] prefix-compresses sorted entries and ends a block with the
    array of restart points; [Block] and [BlockIterator] decode it.  Arithmetic
    on offsets is that of [u32]/[usize] with overflow checks. *)
From S2P Require Import Prelude Coding Varint Comparator Iterator.
Open Scope Z_scope.

Definition U32_LEN : nat := 4.

(** ** [Block] *)

Record Block : Type := mkBlock {
  blk_data : bytes;
  blk_restart_offset : Z;
  blk_restarts_len : Z;
}.

(** [Block::restarts_len] *)
Definition block_restarts_len (data : bytes) : outcome Z :=
  tl ← slice_from data (length data - U32_LEN);
  Ok (decode_fixed_32 tl).

(** [Block::new] *)
Definition block_new (data : bytes) : outcome Block :=
  let size := length data in
  let bad := Err (Corruption "[block] read invalid block content") in
  if bool_decide (U32_LEN ≤ size)%nat then
    let max_restarts_allowed := Z.of_nat ((size - U32_LEN) / U32_LEN)%nat in
    restarts_len ← block_restarts_len data;
    if restarts_len <=? max_restarts_allowed then
      Ok (mkBlock data (wrap 32 (Z.of_nat size - (1 + restarts_len) * 4)) restarts_len)
    else bad
  else bad.

Definition block_default : Block := mkBlock [] 0 0.

(** ** [BlockIterator] *)

Record BlockIterator : Type := mkBI {
  bi_err : option error;
  bi_data : bytes;
  bi_restarts : Z;
  bi_restarts_len : Z;
  bi_restart_index : Z;
  bi_current : Z;
  bi_shared : Z;
  bi_not_shared : Z;
  bi_value_len : Z;
  bi_key_offset : Z;
  bi_key : bytes;
}.

Definition bi_new (data : bytes) (restarts restarts_len : Z) : BlockIterator :=
  mkBI None data restarts restarts_len 0 restarts 0 0 0 0 [].

(** [Block::iter] *)
Definition block_iter (b : Block) : BlockIterator :=
  bi_new (blk_data b) (blk_restart_offset b) (blk_restarts_len b).

Definition bi_set_pos (it : BlockIterator) (restart_index current : Z) : BlockIterator :=
  mkBI (bi_err it) (bi_data it) (bi_restarts it) (bi_restarts_len it) restart_index current
    (bi_shared it) (bi_not_shared it) (bi_value_len it) (bi_key_offset it) (bi_key it).
Definition bi_set_current (it : BlockIterator) (current : Z) : BlockIterator :=
  bi_set_pos it (bi_restart_index it) current.
Definition bi_set_key (it : BlockIterator) (key : bytes) : BlockIterator :=
  mkBI (bi_err it) (bi_data it) (bi_restarts it) (bi_restarts_len it) (bi_restart_index it)
    (bi_current it) (bi_shared it) (bi_not_shared it) (bi_value_len it) (bi_key_offset it) key.
Definition bi_set_entry (it : BlockIterator) (shared not_shared value_len key_offset : Z)
    (key : bytes) : BlockIterator :=
  mkBI (bi_err it) (bi_data it) (bi_restarts it) (bi_restarts_len it) (bi_restart_index it)
    (bi_current it) shared not_shared value_len key_offset key.

Definition next_entry_offset (it : BlockIterator) : outcome Z :=
  a ← uadd true 32 (bi_key_offset it) (bi_not_shared it);
  uadd true 32 a (bi_value_len it).

Definition get_restart_point (it : BlockIterator) (index : Z) : outcome Z :=
  src ← slice_from (bi_data it) (Z.to_nat (bi_restarts it + index * 4));
  Ok (decode_fixed_32 src).

Definition seek_to_restart_point (it : BlockIterator) (index : Z) : outcome BlockIterator :=
  let it := bi_set_pos (bi_set_key it []) index (bi_current it) in
  current ← get_restart_point it index;
  Ok (bi_set_current it current).

(** [corruption_err] *)
Definition bi_corruption_err (it : BlockIterator) : BlockIterator :=
  mkBI (Some (Corruption "bad entry in block")) (bi_data it) (bi_restarts it) (bi_restarts_len it)
    (bi_restarts_len it) (bi_restarts it)
    (bi_shared it) (bi_not_shared it) (bi_value_len it) (bi_key_offset it) [].

(** The three varints that open an entry: values and total length. *)
Definition read_entry_header (src : bytes) : outcome (Z * Z * Z * Z) :=
  let '(shared, n0) := common_read 32 src in
  s1 ← slice_from src (Z.to_nat n0);
  let '(not_shared, n1) := common_read 32 s1 in
  s2 ← slice_from src (Z.to_nat (n1 + n0));
  let '(value_len, n2) := common_read 32 s2 in
  Ok (shared, not_shared, value_len, n0 + n1 + n2).

(** [while self.restart_index + 1 < self.restarts_len && ..] *)
Fixpoint advance_restart (fuel : nat) (it : BlockIterator) : outcome BlockIterator :=
  match fuel with
  | O => OutOfFuel
  | S fuel =>
    if bi_restart_index it + 1 <? bi_restarts_len it then
      p ← get_restart_point it (bi_restart_index it + 1);
      if p <? bi_current it then
        advance_restart fuel (bi_set_pos it (bi_restart_index it + 1) (bi_current it))
      else Ok it
    else Ok it
  end.

Definition parse_block_entry (it : BlockIterator) : outcome (bool * BlockIterator) :=
  if bi_restarts it <=? bi_current it then
    Ok (false, bi_set_pos it (bi_restarts_len it) (bi_restarts it))
  else
    let offset := bi_current it in
    src ← slice_from (bi_data it) (Z.to_nat offset);
    hd ← read_entry_header src;
    let '(shared, not_shared, value_len, n) := hd in
    e0 ← uadd true 32 offset n;
    e1 ← uadd true 32 e0 not_shared;
    e2 ← uadd true 32 e1 value_len;
    if bi_restarts it <? e2 then Ok (false, bi_corruption_err it) else
    total_key_len ← uadd true 32 shared not_shared;
    let key := resize (Z.to_nat total_key_len) 0 (bi_key it) in
    delta ← slice (bi_data it) (Z.to_nat e0) (Z.to_nat e1);
    let it := bi_set_entry it shared not_shared value_len e0 (take (Z.to_nat shared) key ++ delta) in
    it ← advance_restart (Z.to_nat (bi_restarts_len it - bi_restart_index it) + 1) it;
    Ok (true, it).

Definition bi_valid (it : BlockIterator) : bool :=
  match bi_err it with None => bi_current it <? bi_restarts it | Some _ => false end.

(** [valid_or_panic] *)
Definition bi_valid_or_panic (it : BlockIterator) : outcome unit := rust_assert (bi_valid it).

Definition bi_seek_to_first (it : BlockIterator) : outcome BlockIterator :=
  it ← seek_to_restart_point it 0;
  snd <$> parse_block_entry it.

(** [while self.parse_block_entry() && self.next_entry_offset() < limit { .. }] *)
Fixpoint scan_before (fuel : nat) (it : BlockIterator) (limit : Z) : outcome BlockIterator :=
  match fuel with
  | O => OutOfFuel
  | S fuel =>
    res ← parse_block_entry it;
    match res with
    | (false, it) => Ok it
    | (true, it) =>
      next ← next_entry_offset it;
      if next <? limit then scan_before fuel (bi_set_current it next) limit else Ok it
    end
  end.

(** Every iteration moves [current] forward within the data. *)
Definition scan_fuel (it : BlockIterator) : nat := length (bi_data it) + 1.

Definition bi_seek_to_last (it : BlockIterator) : outcome BlockIterator :=
  last ← usub true 32 (bi_restarts_len it) 1;
  it ← seek_to_restart_point it last;
  scan_before (scan_fuel it) it (bi_restarts it).

Section WithComparator.
Context (C : Comparator).

(** The binary search of [seek]: [None] when a restart entry is corrupted. *)
Fixpoint seek_restart (fuel : nat) (it : BlockIterator) (target : bytes) (left_ right_ : Z)
    : outcome (option Z) :=
  if left_ <? right_ then
    match fuel with
    | O => OutOfFuel
    | S fuel =>
      let mid := (left_ + right_ + 1) / 2 in
      region_offset ← get_restart_point it mid;
      src ← slice_from (bi_data it) (Z.to_nat region_offset);
      hd ← read_entry_header src;
      let '(shared, not_shared, _, n) := hd in
      if negb (shared =? 0) then Ok None else
      key_offset ← uadd true 32 region_offset n;
      key_len ← uadd true 32 shared not_shared;
      mid_key ← slice (bi_data it) (Z.to_nat key_offset) (Z.to_nat key_offset + Z.to_nat key_len);
      c ← compare mid_key target;
      match c with
      | Lt => seek_restart fuel it target mid right_
      | _ => seek_restart fuel it target left_ (mid - 1)
      end
    end
  else Ok (Some left_).

(** The linear search of [seek]. *)
Fixpoint seek_linear (fuel : nat) (it : BlockIterator) (target : bytes) : outcome BlockIterator :=
  match fuel with
  | O => OutOfFuel
  | S fuel =>
    res ← parse_block_entry it;
    match res with
    | (false, it) => Ok it
    | (true, it) =>
      c ← compare (bi_key it) target;
      match c with
      | Lt => next ← next_entry_offset it; seek_linear fuel (bi_set_current it next) target
      | _ => Ok it
      end
    end
  end.

Definition bi_seek (it : BlockIterator) (target : bytes) : outcome BlockIterator :=
  right_ ← usub true 32 (bi_restarts_len it) 1;
  found ← seek_restart (Z.to_nat (bi_restarts_len it)) it target 0 right_;
  match found with
  | None => Ok (bi_corruption_err it)
  | Some left_ => it ← seek_to_restart_point it left_; seek_linear (scan_fuel it) it target
  end.
End WithComparator.

Definition bi_next (it : BlockIterator) : outcome BlockIterator :=
  _ ← bi_valid_or_panic it;
  next ← next_entry_offset it;
  snd <$> parse_block_entry (bi_set_current it next).

(** The first loop of [prev]: the last restart point before [original]. *)
Fixpoint prev_restart (fuel : nat) (it : BlockIterator) (original : Z) : outcome (bool * BlockIterator) :=
  match fuel with
  | O => OutOfFuel
  | S fuel =>
    p ← get_restart_point it (bi_restart_index it);
    if original <=? p then
      if bi_restart_index it =? 0
      then Ok (false, bi_set_pos it (bi_restarts_len it) (bi_restarts it))
      else prev_restart fuel (bi_set_pos it (bi_restart_index it - 1) (bi_current it)) original
    else Ok (true, it)
  end.

Definition bi_prev (it : BlockIterator) : outcome BlockIterator :=
  let original := bi_current it in
  res ← prev_restart (Z.to_nat (bi_restart_index it) + 1) it original;
  match res with
  | (false, it) => Ok it
  | (true, it) =>
    it ← seek_to_restart_point it (bi_restart_index it);
    scan_before (scan_fuel it) it original
  end.

Definition bi_get_key (it : BlockIterator) : outcome bytes :=
  _ ← bi_valid_or_panic it; Ok (bi_key it).

Definition bi_get_value (it : BlockIterator) : outcome bytes :=
  _ ← bi_valid_or_panic it;
  next ← next_entry_offset it;
  val_offset ← usub true 32 next (bi_value_len it);
  slice (bi_data it) (Z.to_nat val_offset) (Z.to_nat (val_offset + bi_value_len it)).

Definition bi_status (it : BlockIterator) : outcome unit * BlockIterator :=
  match bi_err it with
  | Some e =>
    (Err e, mkBI None (bi_data it) (bi_restarts it) (bi_restarts_len it) (bi_restart_index it)
       (bi_current it) (bi_shared it) (bi_not_shared it) (bi_value_len it) (bi_key_offset it) (bi_key it))
  | None => (Ok tt, it)
  end.

Definition BlockIterator_Iterator (C : Comparator) : Iterator BlockIterator := {|
  it_valid := bi_valid;
  it_seek_to_first := bi_seek_to_first;
  it_seek_to_last := bi_seek_to_last;
  it_seek := bi_seek C;
  it_next := bi_next;
  it_prev := bi_prev;
  it_key := bi_get_key;
  it_value := bi_get_value;
  it_status := bi_status;
|}.

(** ** [BlockBuilder] *)

Record BlockBuilder : Type := mkBB {
  bb_block_restart_interval : nat;
  bb_buffer : bytes;
  bb_restarts : list Z;
  bb_counter : nat;
  bb_finished : bool;
  bb_last_key : bytes;
}.

Definition bb_new (block_restart_interval : nat) : outcome BlockBuilder :=
  _ ← rust_assert (bool_decide (1 ≤ block_restart_interval)%nat);
  Ok (mkBB block_restart_interval [] [0] 0 false []).

Definition current_size_estimate (b : BlockBuilder) : Z :=
  len (bb_buffer b) + len (bb_restarts b) * 4 + 4.

Definition bb_is_empty (b : BlockBuilder) : bool := bool_decide (bb_buffer b = []).

(** [finish]; returns the contents of the buffer. *)
Definition bb_finish (b : BlockBuilder) : bytes * BlockBuilder :=
  let buffer := fold_left put_fixed_32 (bb_restarts b) (bb_buffer b) in
  let buffer := put_fixed_32 buffer (wrap 32 (len (bb_restarts b))) in
  (buffer, mkBB (bb_block_restart_interval b) buffer (bb_restarts b) (bb_counter b) true
             (bb_last_key b)).

Definition bb_add (C : Comparator) (b : BlockBuilder) (key value : bytes) : outcome BlockBuilder :=
  _ ← rust_assert (negb (bb_finished b));
  _ ← rust_assert (bool_decide (bb_counter b ≤ bb_block_restart_interval b)%nat);
  greater ← (if bb_is_empty b then Ok true
             else c ← compare key (bb_last_key b); Ok (bool_decide (c = Gt)));
  _ ← rust_assert greater;
  let '(shared, restarts, counter) :=
    if bool_decide (bb_counter b < bb_block_restart_interval b)%nat
    then (common_prefix_len (bb_last_key b) key, bb_restarts b, bb_counter b)
    else (0%nat, bb_restarts b ++ [wrap 32 (len (bb_buffer b))], 0%nat) in
  let non_shared := (length key - shared)%nat in
  let buffer := (put_varint 32 (bb_buffer b) (wrap 32 (Z.of_nat shared))).1 in
  let buffer := (put_varint 32 buffer (wrap 32 (Z.of_nat non_shared))).1 in
  let buffer := (put_varint 32 buffer (wrap 32 (len value))).1 in
  delta ← slice_from key shared;
  Ok (mkBB (bb_block_restart_interval b) (buffer ++ delta ++ value) restarts (counter + 1)
        (bb_finished b) key).

Definition bb_reset (b : BlockBuilder) : outcome BlockBuilder :=
  _ ← rust_assert (bb_finished b);
  Ok (mkBB (bb_block_restart_interval b) [] [0] 0 false []).

Fixpoint bb_add_all (C : Comparator) (b : BlockBuilder) (es : list entry) : outcome BlockBuilder :=
  match es with
  | [] => Ok b
  | (k, v) :: es => b ← bb_add C b k v; bb_add_all C b es
  end.

(** ** The layout of a block *)
Section Layout.

(** An entry as stored: how many bytes it shares with its predecessor, the
    whole key, the value. *)
Notation ent := (nat * bytes * bytes)%type.

Definition enc (e : ent) : bytes :=
  let '(s, k, v) := e in
  varint_bytes 32 (Z.of_nat s) ++ varint_bytes 32 (len k - Z.of_nat s) ++
  varint_bytes 32 (len v) ++ drop s k ++ v.

Definition encs (es : list ent) : bytes := mjoin (enc <$> es).

(** The offset of entry [i]. *)
Definition offs (es : list ent) (i : nat) : Z := len (encs (take i es)).

Definition strip_shared (e : ent) : entry := (e.1.2, e.2).

Record shared_ok (es : list ent) : Prop := {
  sh_prefix i s k v : es !! i = Some (s, k, v) →
    (s ≤ length k)%nat ∧
    (s = 0%nat ∨ ∃ i' s' k' v', i = S i' ∧ es !! i' = Some (s', k', v') ∧ take s k' = take s k);
  sh_len i s k v : es !! i = Some (s, k, v) → len k ≤ offs es (S i);
}.

Record restarts_ok (es : list ent) (rs : list nat) : Prop := {
  rs_first : rs !! 0%nat = Some 0%nat;
  rs_whole j r s k v : rs !! j = Some r → es !! r = Some (s, k, v) → s = 0%nat;
  rs_inside j r : rs !! j = Some r → j = 0%nat ∨ (r < length es)%nat;
}.

Definition restart_bytes (es : list ent) (rs : list nat) : bytes :=
  le4s (offs es <$> rs).

Record layout (data : bytes) (es : list ent) (rs : list nat) : Prop := {
  lay_data : data = encs es ++ restart_bytes es rs ++ to_le_bytes 4 (len rs);
  lay_size : len data < 2 ^ 32;
  lay_shared : shared_ok es;
  lay_restarts : restarts_ok es rs;
}.

Lemma encs_app es1 es2 : encs (es1 ++ es2) = encs es1 ++ encs es2.
Proof. unfold encs. by rewrite fmap_app, join_app. Qed.

Lemma encs_split es i e : es !! i = Some e →
  encs es = encs (take i es) ++ enc e ++ encs (drop (S i) es).
Proof.
  intros He. rewrite <- (take_drop_middle es i e He) at 1. by rewrite encs_app.
Qed.

Lemma len_enc s k v : (s ≤ length k)%nat →
  len (enc (s, k, v)) = len (varint_bytes 32 (Z.of_nat s)) + len (varint_bytes 32 (len k - Z.of_nat s))
    + len (varint_bytes 32 (len v)) + (len k - Z.of_nat s) + len v.
Proof. intros. unfold enc. rewrite !len_app, len_drop. unfold len at 4. unfold len. lia. Qed.

Lemma width32 : is_width 32.
Proof. by left. Qed.

Lemma enc_pos e : 3 ≤ len (enc e).
Proof.
  destruct e as [[s k] v]. unfold enc. rewrite !len_app.
  pose proof (varint_bytes_len 32 (Z.of_nat s) width32).
  pose proof (varint_bytes_len 32 (len k - Z.of_nat s) width32).
  pose proof (varint_bytes_len 32 (len v) width32).
  pose proof (len_nonneg (drop s k)). pose proof (len_nonneg v). lia.
Qed.

Lemma offs_0 es : offs es 0 = 0.
Proof. done. Qed.
Lemma offs_S es i e : es !! i = Some e → offs es (S i) = offs es i + len (enc e).
Proof.
  intros He. unfold offs. rewrite (take_S_r _ _ _ He), encs_app, len_app. f_equal.
  unfold encs. simpl. by rewrite app_nil_r.
Qed.
Lemma offs_all es : offs es (length es) = len (encs es).
Proof. unfold offs. by rewrite firstn_all. Qed.
Lemma offs_mono es i j : (i ≤ j)%nat → offs es i ≤ offs es j.
Proof.
  intros Hij. unfold offs. rewrite <- (take_drop i (take j es)), take_take, Nat.min_l by lia.
  rewrite encs_app, len_app. pose proof (len_nonneg (encs (drop i (take j es)))). lia.
Qed.
Lemma offs_lt es i j : (i < j)%nat → (i < length es)%nat → offs es i < offs es j.
Proof.
  intros Hij Hi. destruct (lookup_lt_is_Some_2 es i Hi) as [e He].
  pose proof (offs_S _ _ _ He). pose proof (enc_pos e). pose proof (offs_mono es (S i) j ltac:(lia)). lia.
Qed.
Lemma offs_le_all es i : offs es i ≤ len (encs es).
Proof.
  destruct (decide (i ≤ length es)%nat).
  - rewrite <- offs_all. by apply offs_mono.
  - unfold offs. by rewrite take_ge by lia.
Qed.
Lemma offs_nonneg es i : 0 ≤ offs es i.
Proof. apply len_nonneg. Qed.

Lemma restart_bytes_len es rs : length (restart_bytes es rs) = (4 * length rs)%nat.
Proof. unfold restart_bytes. by rewrite length_le4s, length_fmap. Qed.

(** Reading restart point [j]. *)
Lemma restart_lookup es rs j r rest :
  rs !! j = Some r →
  ∃ tl, drop (4 * j) (restart_bytes es rs ++ rest) = to_le_bytes 4 (offs es r) ++ tl.
Proof. intros Hj. apply le4s_lookup. by rewrite list_lookup_fmap, Hj. Qed.
End Layout.

(** ** The iterator follows the layout *)
Section IteratorFacts.
Context (data : bytes) (es : list (nat * bytes * bytes)) (rs : list nat).
Context (L : layout data es rs).
Implicit Types it : BlockIterator.

Definition static it : Prop :=
  bi_err it = None ∧ bi_data it = data ∧ bi_restarts it = len (encs es) ∧
  bi_restarts_len it = len rs.

(** About to parse entry [i]. *)
Definition before it (i : nat) : Prop :=
  static it ∧ bi_current it = offs es i ∧ 0 ≤ bi_restart_index it < len rs ∧
  ∀ s k v, es !! i = Some (s, k, v) → take s (bi_key it) = take s k.

(** Standing on entry [i]. *)
Definition stands it (i : nat) : Prop :=
  static it ∧ bi_current it = offs es i ∧ 0 ≤ bi_restart_index it < len rs ∧
  ∃ s k v, es !! i = Some (s, k, v) ∧ bi_key it = k ∧
    bi_not_shared it = len k - Z.of_nat s ∧ bi_value_len it = len v ∧
    bi_key_offset it + bi_not_shared it + bi_value_len it = offs es (S i) ∧
    offs es i ≤ bi_key_offset it.

(** Past the end (or before the beginning). *)
Definition outside it : Prop := static it ∧ bi_current it = len (encs es).

Lemma encs_size : len (encs es) + 4 * len rs + 4 < 2 ^ 32 ∧ len data = len (encs es) + 4 * len rs + 4.
Proof.
  pose proof (lay_size _ _ _ L) as Hs.
  assert (len data = len (encs es) + 4 * len rs + 4) as Hd; [|lia].
  rewrite (lay_data _ _ _ L), !len_app. unfold len.
  rewrite restart_bytes_len, length_to_le_bytes. lia.
Qed.

Lemma offs_u32 i : in_uint 32 (offs es i).
Proof.
  pose proof encs_size. pose proof (offs_le_all es i). pose proof (offs_nonneg es i).
  pose proof (len_nonneg rs). unfold in_uint. lia.
Qed.

Lemma get_restart_ok it j r :
  static it → rs !! j = Some r → get_restart_point it (Z.of_nat j) = Ok (offs es r).
Proof.
  intros (_ & Hd & Hr & _) Hj. unfold get_restart_point. rewrite Hd, Hr.
  destruct encs_size as [Hsz Hdl]. apply lookup_lt_Some in Hj as Hlt.
  rewrite slice_from_ok by (unfold len in *; lia). rewrite Ok_bind. f_equal.
  rewrite (lay_data _ _ _ L), drop_app_ge by (unfold len; lia).
  replace (_ - length (encs es))%nat with (4 * j)%nat by (unfold len; lia).
  destruct (restart_lookup es rs j r (to_le_bytes 4 (len rs)) Hj) as [tl ->].
  apply decode_fixed_32_app, offs_u32.
Qed.

Lemma rs_lookup j : 0 ≤ j < len rs → ∃ r, rs !! Z.to_nat j = Some r ∧ Z.of_nat (Z.to_nat j) = j.
Proof.
  intros Hj. destruct (lookup_lt_is_Some_2 rs (Z.to_nat j)) as [r Hr]; [unfold len in Hj; lia|].
  exists r. split; [done|lia].
Qed.

Lemma advance_restart_ok fuel it :
  static it → 0 ≤ bi_restart_index it < len rs →
  len rs - bi_restart_index it < Z.of_nat fuel →
  ∃ ri, advance_restart fuel it = Ok (bi_set_pos it ri (bi_current it)) ∧ 0 ≤ ri < len rs.
Proof.
  revert it. induction fuel as [|fuel IH]; intros it Hst Hri Hf; [lia|]. cbn [advance_restart].
  assert (advance_restart fuel it = advance_restart fuel it) as _ by done.
  destruct (Hst) as (_ & _ & _ & Hrl). rewrite Hrl.
  assert (∀ it, bi_set_pos it (bi_restart_index it) (bi_current it) = it) as Hid by by intros [].
  destruct (Z.ltb_spec (bi_restart_index it + 1) (len rs)).
  - destruct (rs_lookup (bi_restart_index it + 1)) as (r & Hr & Hz); [lia|].
    rewrite <- Hz, (get_restart_ok _ _ _ Hst Hr), Ok_bind, Hz.
    destruct (_ <? _); [|exists (bi_restart_index it); by rewrite Hid].
    destruct (IH (bi_set_pos it (bi_restart_index it + 1) (bi_current it))) as (ri & Heq & ?);
      [done|simpl; lia|simpl; lia|]. exists ri. by rewrite Heq.
  - exists (bi_restart_index it). by rewrite Hid.
Qed.

Lemma entry_range i s k v : es !! i = Some (s, k, v) →
  (s ≤ length k)%nat ∧ 0 ≤ len k < 2 ^ 32 ∧ 0 ≤ len v < 2 ^ 32 ∧
  offs es i + len (enc (s, k, v)) ≤ len (encs es).
Proof.
  intros He. destruct (sh_prefix _ (lay_shared _ _ _ L) _ _ _ _ He) as [Hs _].
  pose proof (sh_len _ (lay_shared _ _ _ L) _ _ _ _ He) as Hl.
  pose proof (offs_S _ _ _ He). pose proof (offs_le_all es (S i)). pose proof encs_size.
  pose proof (len_nonneg rs). pose proof (len_nonneg k). pose proof (len_nonneg v).
  pose proof (offs_nonneg es i). pose proof (len_enc s k v Hs).
  pose proof (varint_bytes_len 32 (Z.of_nat s) width32).
  pose proof (varint_bytes_len 32 (len k - Z.of_nat s) width32).
  pose proof (varint_bytes_len 32 (len v) width32). unfold len in *. lia.
Qed.

Lemma read_entry_header_enc i s k v rest : es !! i = Some (s, k, v) →
  ∃ n, read_entry_header (enc (s, k, v) ++ rest) = Ok (Z.of_nat s, len k - Z.of_nat s, len v, n) ∧
    0 ≤ n ∧ n + (len k - Z.of_nat s) + len v = len (enc (s, k, v)).
Proof.
  intros He. destruct (entry_range _ _ _ _ He) as (Hs & Hk & Hv & _).
  eexists. unfold read_entry_header, enc. rewrite <- !app_assoc.
  rewrite common_read_varint by (done || apply width32 || (unfold in_uint, len in *; lia)).
  rewrite slice_from_app, Ok_bind by (unfold len; lia).
  rewrite common_read_varint by (done || apply width32 || (unfold in_uint, len in *; lia)).
  rewrite app_assoc, slice_from_app, Ok_bind by (rewrite length_app; unfold len; lia).
  rewrite common_read_varint by (done || apply width32 || (unfold in_uint, len in *; lia)).
  split; [done|]. rewrite !len_app, len_drop. unfold len in *. lia.
Qed.

Lemma uadd_ok w a b : a + b < 2 ^ w → uadd true w a b = Ok (a + b).
Proof. intros. unfold uadd. by rewrite (proj2 (Z.ltb_lt _ _)). Qed.

Lemma entry_data i s k v : es !! i = Some (s, k, v) →
  ∃ rest, drop (Z.to_nat (offs es i)) data = enc (s, k, v) ++ rest ∧
    (Z.to_nat (offs es i) ≤ length data)%nat.
Proof.
  intros He. destruct (entry_range _ _ _ _ He) as (_ & _ & _ & Hle). destruct encs_size as [? Hd].
  pose proof (enc_pos (s, k, v)). pose proof (len_nonneg rs).
  eexists. split; [|unfold len in *; lia].
  rewrite (lay_data _ _ _ L), (encs_split _ _ _ He), <- !app_assoc.
  by rewrite drop_app_length' by (unfold offs, len; lia).
Qed.

Lemma drop_slice {A} (l a b c : list A) n x y :
  drop n l = a ++ b ++ c → (n ≤ length l)%nat → x = (n + length a)%nat → y = (x + length b)%nat →
  slice l x y = Ok b.
Proof.
  intros Hd Hn -> ->. rewrite <- (take_drop n l), Hd, app_assoc. apply slice_mid;
    rewrite length_app, length_take; lia.
Qed.

Lemma parse_entry_ok it i : before it i → (i < length es)%nat →
  ∃ it', parse_block_entry it = Ok (true, it') ∧ stands it' i.
Proof.
  intros (Hst & Hcur & Hri & Hkey) Hi. destruct (Hst) as (He & Hd & Hr & Hrl).
  destruct (lookup_lt_is_Some_2 es i Hi) as [[[s k] v] Hl].
  destruct (entry_range _ _ _ _ Hl) as (Hs & Hk & Hv & Hle). pose proof (enc_pos (s, k, v)).
  pose proof encs_size as [Hsz _]. pose proof (len_nonneg rs). pose proof (offs_nonneg es i).
  unfold parse_block_entry. rewrite Hcur, Hr, (proj2 (Z.leb_gt _ _)) by lia. cbv zeta.
  destruct (entry_data _ _ _ _ Hl) as (rest & Hdrop & Hdl).
  rewrite Hd, slice_from_ok, Hdrop, Ok_bind by done.
  destruct (read_entry_header_enc _ _ _ _ rest Hl) as (n & -> & Hn & Hnlen).
  rewrite !Ok_bind.
  rewrite (uadd_ok 32 (offs es i) n), Ok_bind by (unfold len in *; lia).
  rewrite (uadd_ok 32 (offs es i + n)), Ok_bind by (unfold len in *; lia).
  rewrite (uadd_ok 32 (offs es i + n + _)), Ok_bind by (unfold len in *; lia).
  rewrite (proj2 (Z.ltb_ge _ _)) by lia. rewrite uadd_ok, Ok_bind by (unfold len in *; lia).
  assert (∃ hd, enc (s, k, v) = hd ++ drop s k ++ v ∧ len hd = n) as (hd & Henc & Hhd).
  { exists (varint_bytes 32 (Z.of_nat s) ++ varint_bytes 32 (len k - Z.of_nat s) ++ varint_bytes 32 (len v)).
    unfold enc in *. rewrite !len_app, len_drop in *. rewrite <- !app_assoc.
    split; [done|]. unfold len in *. lia. }
  rewrite (drop_slice data hd (drop s k) (v ++ rest) (Z.to_nat (offs es i)));
    [|by rewrite Hdrop, Henc, <- !app_assoc|done|unfold len in *; lia|rewrite length_drop; unfold len in *; lia].
  rewrite Ok_bind.
  assert (take (Z.to_nat (Z.of_nat s)) (resize (Z.to_nat (Z.of_nat s + (len k - Z.of_nat s))) 0 (bi_key it))
          ++ drop s k = k) as ->.
  { replace (Z.to_nat (Z.of_nat s + _)) with (length k) by (unfold len; lia).
    rewrite Nat2Z.id, take_resize_le, resize_le, (Hkey _ _ _ Hl), take_drop; [done| |lia].
    specialize (Hkey _ _ _ Hl). apply (f_equal length) in Hkey. rewrite !length_take in Hkey. lia. }
  match goal with |- context [advance_restart _ ?x] => set (it1 := x) end.
  destruct (advance_restart_ok (Z.to_nat (bi_restarts_len it1 - bi_restart_index it1) + 1) it1)
    as (ri & -> & Hri'); [by split_and!|done|simpl; lia|].
  rewrite Ok_bind. eexists. split; [done|].
  split; [by split_and!|]. split; [done|]. split; [done|]. exists s, k, v. simpl. split_and!; try done; [|lia]. rewrite (offs_S _ _ _ Hl). lia.
Qed.

Lemma parse_end_ok it : static it → bi_current it = len (encs es) →
  ∃ it', parse_block_entry it = Ok (false, it') ∧ outside it'.
Proof.
  intros (He & Hd & Hr & Hrl) Hcur. unfold parse_block_entry.
  rewrite Hcur, Hr, (proj2 (Z.leb_le _ _)) by lia. eexists. split; [done|].
  split; [by split_and!|]. done.
Qed.

(** Parsing from the offset of entry [i], whether it exists or not. *)
Lemma parse_step_ok it i : before it i → (i ≤ length es)%nat →
  ∃ it', parse_block_entry it = Ok (bool_decide (i < length es)%nat, it') ∧
    if decide (i < length es)%nat then stands it' i else outside it'.
Proof.
  intros Hb Hi. destruct (decide (i < length es)%nat) as [Hlt|Hge].
  - rewrite bool_decide_eq_true_2 by done. by apply parse_entry_ok.
  - rewrite bool_decide_eq_false_2 by done. destruct Hb as (? & Hc & _). apply parse_end_ok; [done|].
    rewrite Hc. replace i with (length es) by lia. apply offs_all.
Qed.

Lemma next_offset_ok it i : stands it i → next_entry_offset it = Ok (offs es (S i)).
Proof.
  intros (_ & _ & _ & s & k & v & Hl & _ & Hns & Hvl & Hnext & Hko).
  destruct (entry_range _ _ _ _ Hl) as (Hs & Hk & Hv & Hle). pose proof (offs_u32 (S i)) as [? ?].
  unfold next_entry_offset. rewrite uadd_ok, Ok_bind by lia. rewrite uadd_ok by lia. by rewrite Hnext.
Qed.

Lemma before_next it i : stands it i → before (bi_set_current it (offs es (S i))) (S i).
Proof.
  intros (Hst & _ & Hri & s & k & v & Hl & Hkey & _). split; [done|]. split; [done|]. split; [done|].
  intros s' k' v' Hl'. simpl. rewrite Hkey.
  destruct (sh_prefix _ (lay_shared _ _ _ L) _ _ _ _ Hl') as [_ [->|(i' & s1 & k1 & v1 & [= <-] & Hi' & Heq)]];
    [done|]. by simplify_eq.
Qed.

Lemma restart_before it j r : static it → rs !! j = Some r →
  ∃ it', seek_to_restart_point it (Z.of_nat j) = Ok it' ∧ before it' r.
Proof.
  intros Hst Hj. unfold seek_to_restart_point. rewrite (get_restart_ok _ j r); [|done|done].
  eexists. split; [done|]. apply lookup_lt_Some in Hj as Hlt.
  split; [done|]. split; [done|]. split; [simpl; unfold len; lia|].
  intros s k v Hl. by rewrite (rs_whole _ _ (lay_restarts _ _ _ L) _ _ _ _ _ Hj Hl).
Qed.

Lemma length_es_data i : (i < length es)%nat → (length es - i ≤ length data)%nat.
Proof.
  intros Hi. destruct encs_size as [_ Hd].
  assert (∀ j, (j ≤ length es)%nat → Z.of_nat j ≤ offs es j) as Hoff.
  { intros j. induction j as [|j IH]; intros Hj; [by rewrite offs_0|].
    destruct (lookup_lt_is_Some_2 es j ltac:(lia)) as [e He]. rewrite (offs_S _ _ _ He).
    pose proof (enc_pos e). specialize (IH ltac:(lia)). lia. }
  specialize (Hoff (length es) ltac:(done)). rewrite offs_all in Hoff. pose proof (len_nonneg rs).
  unfold len in *. lia.
Qed.

(** Scanning forward from [i] to the entry that ends at [offs m]. *)
Lemma scan_before_ok fuel it i m : before it i → (i < m ≤ length es)%nat → (m - i ≤ fuel)%nat →
  ∃ it', scan_before fuel it (offs es m) = Ok it' ∧ stands it' (m - 1).
Proof.
  revert it i. induction fuel as [|fuel IH]; intros it i Hb Hi Hf; [lia|]. cbn [scan_before].
  destruct (parse_entry_ok it i Hb) as (it1 & -> & Hst); [lia|]. rewrite Ok_bind.
  rewrite (next_offset_ok _ _ Hst), Ok_bind.
  destruct (decide (S i = m)) as [<-|Hne].
  - rewrite (proj2 (Z.ltb_ge _ _)) by lia. exists it1. split; [done|]. by replace (S i - 1)%nat with i by lia.
  - rewrite (proj2 (Z.ltb_lt _ _)) by (apply offs_lt; lia).
    apply (IH _ (S i)); [by apply before_next|lia..].
Qed.

(** The position an iterator stands at. *)
Definition at_pos it (p : option nat) : Prop :=
  match p with Some i => stands it i | None => outside it end.

Let l : list entry := strip_shared <$> es.

Lemma l_lookup i e : l !! i = Some e → ∃ s, es !! i = Some (s, e.1, e.2).
Proof.
  unfold l. rewrite list_lookup_fmap, fmap_Some. intros ([[s k] v] & He & ->). eauto.
Qed.
Lemma es_lookup i s k v : es !! i = Some (s, k, v) → l !! i = Some (k, v).
Proof. intros He. unfold l. by rewrite list_lookup_fmap, He. Qed.
Lemma length_l : length l = length es.
Proof. apply length_fmap. Qed.

Lemma at_pos_static it p : at_pos it p → static it.
Proof. destruct p; by intros [? _]. Qed.

Lemma rs_pos : 1 ≤ len rs.
Proof.
  pose proof (rs_first _ _ (lay_restarts _ _ _ L)) as H%lookup_lt_Some. unfold len. lia.
Qed.

Lemma stands_lt it i : stands it i → (i < length es)%nat.
Proof. intros (_ & _ & _ & s & k & v & Hl & _). by eapply lookup_lt_Some. Qed.

Lemma at_pos_valid it p : at_pos it p → bi_valid it = match p with Some _ => true | None => false end.
Proof.
  intros Hp. destruct (at_pos_static _ _ Hp) as (He & _ & Hr & _). unfold bi_valid. rewrite He, Hr.
  destruct p as [i|]; simpl in Hp.
  - destruct (Hp) as (_ & -> & _). apply Z.ltb_lt. rewrite <- offs_all.
    apply offs_lt; by eapply stands_lt.
  - destruct Hp as [_ ->]. apply Z.ltb_irrefl.
Qed.

Lemma parse_pos_ok it i : before it i → (i ≤ length es)%nat →
  ∃ b it', parse_block_entry it = Ok (b, it') ∧
    at_pos it' (if decide (i < length es)%nat then Some i else None).
Proof.
  intros Hb Hi. destruct (parse_step_ok it i Hb Hi) as (it' & Hp & H). eexists _, it'.
  split; [done|]. by case_decide.
Qed.

Lemma first_ok it : static it → ∃ it', bi_seek_to_first it = Ok it' ∧ at_pos it' (first_pos l).
Proof.
  intros Hst. unfold bi_seek_to_first. change 0 with (Z.of_nat 0).
  destruct (restart_before it 0 0 Hst (rs_first _ _ (lay_restarts _ _ _ L))) as (it1 & -> & Hb).
  rewrite Ok_bind. destruct (parse_pos_ok it1 0 Hb) as (b & it' & -> & Hp); [lia|].
  exists it'. split; [done|]. unfold first_pos. fold l in Hp. rewrite <- length_l in Hp.
  destruct l; simpl in *; done.
Qed.

Lemma next_ok it i : stands it i → ∃ it', bi_next it = Ok it' ∧ at_pos it' (next_pos l i).
Proof.
  intros Hi. unfold bi_next, bi_valid_or_panic. rewrite assert_true, Ok_bind by (by rewrite (at_pos_valid it (Some i) Hi)).
  rewrite (next_offset_ok _ _ Hi), Ok_bind.
  destruct (parse_pos_ok _ _ (before_next _ _ Hi)) as (b & it' & -> & Hp);
    [apply stands_lt in Hi; lia|]. exists it'. split; [done|]. unfold next_pos. by rewrite length_l.
Qed.

Lemma last_ok it : static it → ∃ it', bi_seek_to_last it = Ok it' ∧ at_pos it' (last_pos l).
Proof.
  intros Hst. unfold bi_seek_to_last. pose proof rs_pos. destruct (Hst) as (_ & Hd & Hr & Hrl).
  unfold usub. rewrite Hrl, (proj2 (Z.leb_le _ _)), Ok_bind by lia.
  destruct (rs_lookup (len rs - 1)) as (r & Hrj & Hz); [lia|]. rewrite <- Hz.
  destruct (restart_before it _ _ Hst Hrj) as (it1 & -> & Hb). rewrite Ok_bind.
  destruct (Hb) as ((_ & Hd1 & Hr1 & _) & _). rewrite Hr1. unfold scan_fuel. rewrite Hd1.
  unfold last_pos. pose proof length_l as Hl. destruct (decide (length es = 0)%nat) as [He|Hne].
  - assert (r = 0%nat) as ->.
    { destruct (rs_inside _ _ (lay_restarts _ _ _ L) _ _ Hrj) as [Hj|]; [|lia].
      rewrite Hj in Hrj. pose proof (rs_first _ _ (lay_restarts _ _ _ L)). congruence. }
    rewrite Nat.add_1_r. cbn [scan_before].
    destruct (parse_step_ok it1 0 Hb) as (it' & -> & Hp); [lia|].
    rewrite bool_decide_eq_false_2, Ok_bind by lia. exists it'. split; [done|].
    rewrite decide_False in Hp by lia. rewrite He in Hl. by destruct l.
  - assert (r < length es)%nat as Hr'.
    { destruct (rs_inside _ _ (lay_restarts _ _ _ L) _ _ Hrj) as [Hj|]; [|done].
      rewrite Hj in Hrj. pose proof (rs_first _ _ (lay_restarts _ _ _ L)).
      assert (r = 0%nat) by congruence. lia. }
    pose proof (length_es_data r Hr').
    destruct (scan_before_ok (length data + 1) it1 r (length es) Hb) as (it' & Hs & Hst'); [lia..|].
    rewrite offs_all in Hs. exists it'. split; [done|]. destruct l; [simpl in *; lia|].
    by rewrite Hl.
Qed.

Lemma prev_restart_ok fuel it i :
  static it → 0 ≤ bi_restart_index it < len rs → (i ≤ length es)%nat →
  bi_restart_index it < Z.of_nat fuel →
  ∃ it', (prev_restart fuel it (offs es i) = Ok (false, it') ∧ outside it' ∧ i = 0%nat) ∨
    (prev_restart fuel it (offs es i) = Ok (true, it') ∧ static it' ∧
     ∃ j r, bi_restart_index it' = Z.of_nat j ∧ rs !! j = Some r ∧ (r < i)%nat).
Proof.
  revert it. induction fuel as [|fuel IH]; intros it Hst Hri Hi Hf; [lia|]. cbn [prev_restart].
  destruct (rs_lookup (bi_restart_index it) Hri) as (r & Hr & Hz).
  assert (get_restart_point it (bi_restart_index it) = Ok (offs es r)) as ->.
  { rewrite <- Hz. by apply get_restart_ok. }
  rewrite Ok_bind. destruct (Hst) as (He & Hd & Hrs & Hrl).
  destruct (Z.leb_spec (offs es i) (offs es r)) as [Hle|Hlt].
  - destruct (Z.eqb_spec (bi_restart_index it) 0) as [H0|H0].
    + eexists. left. split; [done|]. split; [by split; [split_and!|]|].
      rewrite H0 in Hr. change (Z.to_nat 0) with 0%nat in Hr.
      rewrite (rs_first _ _ (lay_restarts _ _ _ L)) in Hr. injection Hr as <-. rewrite offs_0 in Hle.
      destruct i as [|i]; [done|]. pose proof (offs_lt es 0 (S i) ltac:(lia) ltac:(lia)).
      rewrite offs_0 in *. lia.
    + apply IH; [done|simpl; lia|done|simpl; lia].
  - exists it. right. split; [done|]. split; [done|]. exists (Z.to_nat (bi_restart_index it)), r.
    split_and!; [lia|done|]. destruct (decide (r < i)%nat); [done|].
    pose proof (offs_mono es i r ltac:(lia)). lia.
Qed.

Lemma prev_ok it i : stands it i → ∃ it', bi_prev it = Ok it' ∧ at_pos it' (prev_pos i).
Proof.
  intros Hi. pose proof (stands_lt _ _ Hi) as Hlt. destruct (Hi) as (Hst & Hcur & Hri & _).
  unfold bi_prev. cbv zeta. rewrite Hcur.
  destruct (prev_restart_ok (Z.to_nat (bi_restart_index it) + 1) it i Hst Hri) as (it1 & Hcase); [lia..|].
  destruct Hcase as [(-> & Hout & ->)|(-> & Hst1 & j & r & Hj & Hr & Hri1)]; rewrite Ok_bind.
  - by exists it1.
  - rewrite Hj. destruct (restart_before it1 _ _ Hst1 Hr) as (it2 & -> & Hb). rewrite Ok_bind.
    pose proof (length_es_data r ltac:(lia)). unfold scan_fuel. destruct (Hb) as ((_ & -> & _) & _).
    destruct (scan_before_ok (length data + 1) it2 r i Hb) as (it' & Hs & Hst'); [lia..|].
    exists it'. split; [done|]. destruct i as [|i]; [lia|]. simpl in *. by rewrite Nat.sub_0_r in Hst'.
Qed.

Lemma key_ok_at it i e : stands it i → l !! i = Some e →
  bi_get_key it = Ok e.1 ∧ bi_get_value it = Ok e.2.
Proof.
  destruct e as [k0 v0]. intros Hi (s & Hl)%l_lookup. simpl in *. unfold bi_get_key, bi_get_value, bi_valid_or_panic.
  rewrite !assert_true, !Ok_bind by (by rewrite (at_pos_valid it (Some i) Hi)).
  rewrite (next_offset_ok _ _ Hi), Ok_bind.
  destruct Hi as ((_ & Hd & _) & _ & _ & s' & k & v & Hl' & Hkey & Hns & Hvl & Hnext & Hko).
  rewrite Hl in Hl'. injection Hl' as <- <- <-. rewrite Hkey. split; [done|]. destruct (entry_range _ _ _ _ Hl) as (Hs & Hk & Hv & Hle).
  destruct (entry_data _ _ _ _ Hl) as (rest & Hdrop & Hdl).
  pose proof (offs_S _ _ _ Hl) as HoS. pose proof (offs_nonneg es i).
  assert (∃ hd, enc (s, k0, v0) = hd ++ v0) as (hd & Henc).
  { unfold enc. eexists. by rewrite !app_assoc. }
  rewrite Henc, <- app_assoc in Hdrop. assert (len (hd ++ v0) = len hd + len v0) by apply len_app.
  rewrite Henc in HoS. pose proof (len_nonneg hd). unfold usub.
  rewrite Hvl, (proj2 (Z.leb_le _ _)), Ok_bind by lia.
  apply (drop_slice _ hd v0 rest (Z.to_nat (offs es i))); [by rewrite Hd|by rewrite Hd|unfold len in *; lia..].
Qed.
End IteratorFacts.

(** ** Seeking *)
Section SeekFacts.
Context (C : Comparator) (key_ok : bytes → Prop) (ord : bytes → bytes → comparison).
Context {CO : ComparatorOrder C key_ok ord}.
Context (data : bytes) (es : list (nat * bytes * bytes)) (rs : list nat).
Context (L : layout data es rs).
Context (Hsorted : sorted ord (strip_shared <$> es))
        (Hkeys : Forall (λ e, key_ok (e.1)) (strip_shared <$> es)).
Implicit Types it : BlockIterator.

Lemma es_key_ok i s k v : es !! i = Some (s, k, v) → key_ok k.
Proof.
  intros He%es_lookup. by apply (Forall_lookup_1 _ _ _ _ Hkeys He).
Qed.

(** The key of restart point [j] is smaller than the target. *)
Definition restart_lt (j : Z) (t : bytes) : Prop :=
  ∀ r s k v, rs !! Z.to_nat j = Some r → es !! r = Some (s, k, v) → ord k t = Lt.

Lemma seek_restart_ok fuel it t lo hi :
  static data es rs it → key_ok t → 0 ≤ lo ≤ hi → hi < len rs → hi - lo ≤ Z.of_nat fuel →
  (lo = 0 ∨ restart_lt lo t) →
  ∃ j, seek_restart C fuel it t lo hi = Ok (Some j) ∧ 0 ≤ j < len rs ∧ (j = 0 ∨ restart_lt j t).
Proof.
  intros Hst Ht. revert lo hi. induction fuel as [|fuel IH]; intros lo hi Hlo Hhi Hf Hlt;
    cbn [seek_restart]; destruct (Z.ltb_spec lo hi) as [Hne|]; [lia|exists lo; auto with lia| |
    exists lo; auto with lia].
  set (mid := (lo + hi + 1) / 2). cbv zeta.
  assert (lo < mid ≤ hi) as Hmid.
  { unfold mid. pose proof (Z.div_mod (lo + hi + 1) 2). pose proof (Z.mod_pos_bound (lo + hi + 1) 2). lia. }
  destruct (rs_lookup rs mid) as (r & Hr & Hz); [lia|].
  rewrite <- Hz, (get_restart_ok data es rs L it _ _ Hst Hr), Ok_bind, Hz.
  destruct (rs_inside _ _ (lay_restarts _ _ _ L) _ _ Hr) as [|Hre]; [lia|].
  destruct (lookup_lt_is_Some_2 es r Hre) as [[[s k] v] Hl].
  pose proof (rs_whole _ _ (lay_restarts _ _ _ L) _ _ _ _ _ Hr Hl) as ->.
  destruct (entry_range data es rs L _ _ _ _ Hl) as (_ & Hk & Hv & Hle).
  destruct (entry_data data es rs L _ _ _ _ Hl) as (rest & Hdrop & Hdl).
  destruct (Hst) as (_ & Hd & _). pose proof (offs_nonneg es r).
  pose proof (encs_size data es rs L) as [Hsz _]. pose proof (len_nonneg rs).
  rewrite Hd, slice_from_ok, Hdrop, Ok_bind by done.
  destruct (read_entry_header_enc data es rs L _ _ _ _ rest Hl) as (n & -> & Hn & Hnl).
  rewrite Ok_bind. cbn [negb Z.eqb].
  rewrite (uadd_ok 32 (offs es r) n), Ok_bind by (unfold len in *; lia).
  rewrite uadd_ok, Ok_bind by (unfold len in *; lia).
  assert (∃ hd, enc (0%nat, k, v) = hd ++ k ++ v ∧ len hd = n) as (hd & Henc & Hhd).
  { exists (varint_bytes 32 0 ++ varint_bytes 32 (len k - 0) ++ varint_bytes 32 (len v)).
    pose proof (len_enc 0 k v ltac:(lia)). change (Z.of_nat 0) with 0 in *.
    split; [unfold enc; by rewrite <- !app_assoc|]. rewrite !len_app. lia. }
  rewrite (drop_slice data hd k (v ++ rest) (Z.to_nat (offs es r)));
    [|by rewrite Hdrop, Henc, <- !app_assoc|done|unfold len in *; lia|unfold len in *; lia].
  rewrite Ok_bind, compare_ord, Ok_bind by (done || by eapply es_key_ok).
  destruct (ord k t) eqn:Hc; [apply IH; auto with lia| |apply IH; auto with lia].
  apply IH; [lia..|]. right. intros r' s' k' v' Hr' Hl'. by simplify_eq.
Qed.

Lemma seek_linear_ok fuel it i t :
  before data es rs it i → key_ok t → (i ≤ length es)%nat → (length es - i < fuel)%nat →
  (∀ j s k v, (j < i)%nat → es !! j = Some (s, k, v) → ord k t = Lt) →
  ∃ it', seek_linear C fuel it t = Ok it' ∧
    at_pos data es rs it' (seek_pos ord (strip_shared <$> es) t).
Proof.
  intros Hb Ht. revert it i Hb. induction fuel as [|fuel IH]; intros it i Hb Hi Hf Hlt; [lia|].
  cbn [seek_linear]. destruct (parse_step_ok data es rs L it i Hb Hi) as (it1 & -> & Hp). rewrite Ok_bind.
  destruct (decide (i < length es)%nat) as [Hie|Hie].
  - rewrite bool_decide_eq_true_2 by done.
    destruct (Hp) as (_ & _ & _ & s & k & v & Hl & Hkey & _). rewrite Hkey.
    rewrite compare_ord, Ok_bind by (done || by eapply es_key_ok).
    assert (ord k t ≠ Lt → ∃ it', Ok it1 = Ok it' ∧
      at_pos data es rs it' (seek_pos ord (strip_shared <$> es) t)) as Hstop.
    { intros Hge. exists it1. split; [done|].
      assert (seek_pos ord (strip_shared <$> es) t = Some i) as ->; [|done].
      apply seek_pos_Some. split; [exists (k, v); by apply es_lookup in Hl|].
      intros j e Hj (s' & He)%l_lookup. by eapply Hlt. }
    destruct (ord k t) eqn:Hc; [by apply Hstop| |by apply Hstop].
    rewrite (next_offset_ok data es rs L _ _ Hp), Ok_bind.
    apply (IH _ (S i)); [by apply before_next|lia|lia|].
    intros j s' k' v' Hj Hl'. destruct (decide (j = i)) as [->|]; [by simplify_eq|].
    eapply Hlt; [|done]. lia.
  - rewrite bool_decide_eq_false_2 by done. exists it1. split; [done|].
    assert (seek_pos ord (strip_shared <$> es) t = None) as ->; [|done].
    apply seek_pos_None. intros j e (s' & He)%l_lookup. eapply Hlt; [|done].
    apply lookup_lt_Some in He. lia.
Qed.

Lemma seek_ok it t : static data es rs it → key_ok t →
  ∃ it', bi_seek C it t = Ok it' ∧ at_pos data es rs it' (seek_pos ord (strip_shared <$> es) t).
Proof.
  intros Hst Ht. destruct (Hst) as (_ & Hd & _ & Hrl). pose proof (rs_pos data es rs L).
  unfold bi_seek, usub. rewrite Hrl, (proj2 (Z.leb_le _ _)), Ok_bind by lia.
  destruct (seek_restart_ok (Z.to_nat (len rs)) it t 0 (len rs - 1) Hst Ht) as (j & -> & Hj & Hlt);
    [lia..|by left|]. rewrite Ok_bind.
  destruct (rs_lookup rs j Hj) as (r & Hr & Hz). rewrite <- Hz.
  destruct (restart_before data es rs L it _ _ Hst Hr) as (it1 & -> & Hb). rewrite Ok_bind.
  unfold scan_fuel. destruct (Hb) as ((_ & -> & _) & _).
  assert (r = 0%nat ∨ (r < length es)%nat ∧ restart_lt j t) as Hcase.
  { destruct (rs_inside _ _ (lay_restarts _ _ _ L) _ _ Hr) as [Hj0|Hre].
    - left. rewrite Hj0 in Hr. pose proof (rs_first _ _ (lay_restarts _ _ _ L)). congruence.
    - destruct Hlt as [->|]; [|auto]. left. pose proof (rs_first _ _ (lay_restarts _ _ _ L)) as H0.
      change (Z.to_nat 0) with 0%nat in Hr. congruence. }
  assert (length es ≤ length data)%nat.
  { destruct (decide (length es = 0)%nat); [lia|]. pose proof (length_es_data data es rs L 0 ltac:(lia)). lia. }
  apply (seek_linear_ok _ _ r); [done|done|lia|lia|].
  intros i s k v Hi Hl. destruct Hcase as [->|[Hre Hrlt]]; [lia|].
  destruct (lookup_lt_is_Some_2 es r Hre) as [[[s' k'] v'] Hl'].
  specialize (Hrlt _ _ _ _ Hr Hl').
  pose proof (Hsorted i r _ _ Hi (es_lookup es _ _ _ _ Hl) (es_lookup es _ _ _ _ Hl')) as Hlt'.
  by eapply (ord_lt_trans ord).
Qed.
End SeekFacts.

(** ** The block iterator implements the [Iterator] interface *)
Section Instance_.
Context (C : Comparator) (key_ok : bytes → Prop) (ord : bytes → bytes → comparison).
Context {CO : ComparatorOrder C key_ok ord}.

(** [it] walks over a well-formed block whose entries are [l]. *)
Definition block_rep (it : BlockIterator) (l : list entry) (p : option nat) : Prop :=
  ∃ data es rs, layout data es rs ∧ l = strip_shared <$> es ∧ sorted ord l ∧
    Forall (λ e, key_ok e.1) l ∧ at_pos data es rs it p.

#[export] Instance block_fwd :
  @FwdLaws _ (BlockIterator_Iterator C) ord key_ok block_rep.
Proof.
  split; simpl.
  - intros it l i (data & es & rs & HL & -> & _ & _ & Hp). rewrite length_fmap. by eapply stands_lt.
  - intros it l p (data & es & rs & HL & -> & _ & _ & Hp). by eapply at_pos_valid.
  - intros it l p (data & es & rs & HL & -> & Hs & Hk & Hp).
    destruct (first_ok data es rs HL it (at_pos_static _ _ _ _ _ Hp)) as (it' & ? & ?).
    exists it'. split; [done|]. by exists data, es, rs.
  - intros it l p t (data & es & rs & HL & -> & Hs & Hk & Hp) Ht.
    destruct (seek_ok C key_ok ord data es rs HL Hs Hk it t (at_pos_static _ _ _ _ _ Hp) Ht)
      as (it' & ? & ?).
    exists it'. split; [done|]. by exists data, es, rs.
  - intros it l i (data & es & rs & HL & -> & Hs & Hk & Hp).
    destruct (next_ok data es rs HL it i Hp) as (it' & ? & ?).
    exists it'. split; [done|]. by exists data, es, rs.
  - intros it l i e (data & es & rs & HL & -> & Hs & Hk & Hp) He.
    by destruct (key_ok_at data es rs HL it i e Hp He).
  - intros it l i e (data & es & rs & HL & -> & Hs & Hk & Hp) He.
    by destruct (key_ok_at data es rs HL it i e Hp He).
  - intros it l p (data & es & rs & HL & -> & Hs & Hk & Hp).
    destruct (at_pos_static _ _ _ _ _ Hp) as (Herr & _). exists it. unfold bi_status. rewrite Herr.
    split; [done|]. by exists data, es, rs.
Qed.

#[export] Instance block_bwd : @BwdLaws _ (BlockIterator_Iterator C) block_rep.
Proof.
  split; simpl.
  - intros it l p (data & es & rs & HL & -> & Hs & Hk & Hp).
    destruct (last_ok data es rs HL it (at_pos_static _ _ _ _ _ Hp)) as (it' & ? & ?).
    exists it'. split; [done|]. by exists data, es, rs.
  - intros it l i (data & es & rs & HL & -> & Hs & Hk & Hp).
    destruct (prev_ok data es rs HL it i Hp) as (it' & ? & ?).
    exists it'. split; [done|]. by exists data, es, rs.
Qed.
End Instance_.

(** ** The builder produces the layout *)
Section BuilderFacts.
Context (C : Comparator) (key_ok : bytes → Prop) (ord : bytes → bytes → comparison).
Context {CO : ComparatorOrder C key_ok ord}.
Notation ent := (nat * bytes * bytes)%type.

Definition last_key_of (es : list ent) : bytes :=
  match last es with Some (_, k, _) => k | None => [] end.

Record binv (b : BlockBuilder) (es : list ent) (rs : list nat) : Prop := {
  bi_fin : bb_finished b = false;
  bi_buf : bb_buffer b = encs es;
  bi_rs : bb_restarts b = offs es <$> rs;
  bi_cnt : (bb_counter b ≤ bb_block_restart_interval b)%nat;
  bi_int : (1 ≤ bb_block_restart_interval b)%nat;
  bi_nil : es = [] → bb_counter b = 0%nat;
  bi_last : bb_last_key b = last_key_of es;
  bi_shared_ok : shared_ok es;
  bi_restarts_ok : restarts_ok es rs;
}.

Lemma encs_nil es : encs es = [] → es = [].
Proof.
  destruct es as [|e es]; [done|]. intros H. exfalso. change (enc e ++ encs es = []) in H.
  apply app_eq_nil in H as [H _]. pose proof (enc_pos e). rewrite H, len_nil in *. lia.
Qed.

Lemma last_key_len es : shared_ok es → len (last_key_of es) ≤ len (encs es).
Proof.
  intros Hs. unfold last_key_of. destruct (last es) as [[[s k] v]|] eqn:Hl; [|apply len_nonneg].
  rewrite last_lookup in Hl. pose proof (sh_len _ Hs _ _ _ _ Hl).
  pose proof (offs_le_all es (S (pred (length es)))). lia.
Qed.

Lemma offs_snoc es e i : (i ≤ length es)%nat → offs (es ++ [e]) i = offs es i.
Proof. intros Hi. unfold offs. by rewrite take_app_le. Qed.

Lemma lookup_snoc_inv {A} (l : list A) x i y :
  (l ++ [x]) !! i = Some y → l !! i = Some y ∨ (i = length l ∧ y = x).
Proof.
  rewrite lookup_snoc_Some. naive_solver.
Qed.

Lemma shared_ok_snoc es s k v :
  shared_ok es → (s ≤ length k)%nat →
  (s = 0%nat ∨ take s (last_key_of es) = take s k) →
  shared_ok (es ++ [(s, k, v)]).
Proof.
  intros Hes Hs Hpre. split.
  - intros i s' k' v' [Hi|[-> [= -> -> ->]]]%lookup_snoc_inv.
    + destruct (sh_prefix _ Hes _ _ _ _ Hi) as [? [?|(i' & s1 & k1 & v1 & -> & Hi' & ?)]]; [auto|].
      split; [done|]. right. exists i', s1, k1, v1. rewrite lookup_app_l; [done|].
      by eapply lookup_lt_Some.
    + split; [done|]. destruct (decide (s = 0%nat)); [auto|right].
      destruct Hpre as [?|Hpre]; [done|]. unfold last_key_of in Hpre.
      destruct (last es) as [[[s1 k1] v1]|] eqn:Hl.
      * rewrite last_lookup in Hl. exists (pred (length es)), s1, k1, v1.
        apply lookup_lt_Some in Hl as Hlt. rewrite lookup_app_l by done. split_and!; [lia|done..].
      * exfalso. apply (f_equal length) in Hpre. rewrite take_nil, length_take in Hpre. simpl in Hpre. lia.
  - intros i s' k' v' [Hi|[-> [= -> -> ->]]]%lookup_snoc_inv.
    + rewrite offs_snoc by (apply lookup_lt_Some in Hi; lia). by eapply sh_len.
    + rewrite (offs_S _ _ (s, k, v)) by (by apply list_lookup_middle).
      rewrite offs_snoc, offs_all, len_enc by done.
      pose proof (last_key_len _ Hes). pose proof (len_nonneg v).
      pose proof (len_nonneg (varint_bytes 32 (Z.of_nat s))).
      pose proof (len_nonneg (varint_bytes 32 (len k - Z.of_nat s))).
      pose proof (len_nonneg (varint_bytes 32 (len v))). pose proof (len_nonneg (encs es)).
      destruct Hpre as [->|Hpre]; [lia|]. apply (f_equal length) in Hpre.
      rewrite !length_take in Hpre. unfold len in *. lia.
Qed.

Lemma restarts_ok_snoc es rs s k v :
  restarts_ok es rs → (es = [] → s = 0%nat) → restarts_ok (es ++ [(s, k, v)]) rs.
Proof.
  intros Hrs Hnil. split.
  - apply Hrs.
  - intros j r s' k' v' Hj [Hi|[-> [= -> -> ->]]]%lookup_snoc_inv; [by eapply rs_whole|].
    destruct (rs_inside _ _ Hrs _ _ Hj) as [->|]; [|lia].
    rewrite (rs_first _ _ Hrs) in Hj. injection Hj as Hj. apply Hnil. by destruct es.
  - intros j r Hj. rewrite length_app. simpl. destruct (rs_inside _ _ Hrs _ _ Hj); lia.
Qed.

Lemma restarts_ok_new es rs k v :
  restarts_ok es rs → restarts_ok (es ++ [(0%nat, k, v)]) (rs ++ [length es]).
Proof.
  intros Hrs. pose proof (restarts_ok_snoc es rs 0 k v Hrs ltac:(done)) as Hrs'. split.
  - rewrite lookup_app_l; [apply Hrs|]. eapply lookup_lt_Some, Hrs.
  - intros j r s' k' v' [Hj|[-> ->]]%lookup_snoc_inv Hl; [by eapply (rs_whole _ _ Hrs')|].
    rewrite lookup_app_r, Nat.sub_diag in Hl by lia. by simplify_eq/=.
  - intros j r [Hj|[-> ->]]%lookup_snoc_inv; [by eapply (rs_inside _ _ Hrs')|].
    right. rewrite length_app. simpl. lia.
Qed.

(** The builder [add] leaves when its assertions hold. *)
Definition add_shared (b : BlockBuilder) (k : bytes) : nat :=
  if bool_decide (bb_counter b < bb_block_restart_interval b)%nat
  then common_prefix_len (bb_last_key b) k else 0%nat.
Definition add_restarts (b : BlockBuilder) : list Z :=
  if bool_decide (bb_counter b < bb_block_restart_interval b)%nat then bb_restarts b
  else bb_restarts b ++ [wrap 32 (len (bb_buffer b))].
Definition add_counter (b : BlockBuilder) : nat :=
  if bool_decide (bb_counter b < bb_block_restart_interval b)%nat then bb_counter b else 0%nat.
Definition add_buffer (b : BlockBuilder) (k v : bytes) : bytes :=
  bb_buffer b ++ varint_bytes 32 (wrap 32 (Z.of_nat (add_shared b k))) ++
  varint_bytes 32 (wrap 32 (Z.of_nat (length k - add_shared b k))) ++
  varint_bytes 32 (wrap 32 (len v)) ++ drop (add_shared b k) k ++ v.

Definition addable (b : BlockBuilder) (k : bytes) : Prop :=
  bb_finished b = false ∧ (bb_counter b ≤ bb_block_restart_interval b)%nat ∧
  (bb_buffer b = [] ∨ key_ok (bb_last_key b) ∧ ord (bb_last_key b) k = Lt).

Lemma add_shared_le b k : (add_shared b k ≤ length k)%nat.
Proof.
  unfold add_shared. case_bool_decide; [|lia].
  by destruct (common_prefix_split (bb_last_key b) k) as ([? ?] & _).
Qed.

Lemma bb_add_eq b k v : addable b k → key_ok k →
  bb_add C b k v = Ok (mkBB (bb_block_restart_interval b) (add_buffer b k v) (add_restarts b)
                         (add_counter b + 1) false k).
Proof.
  intros (Hf & Hcnt & Hlast) Hk. unfold bb_add. rewrite Hf. cbn [negb rust_assert]. rewrite Ok_bind.
  rewrite assert_true, Ok_bind by (by apply bool_decide_eq_true_2).
  assert ((if bb_is_empty b then Ok true
           else c ← compare k (bb_last_key b); Ok (bool_decide (c = Gt))) = Ok true) as ->.
  { unfold bb_is_empty. case_bool_decide as He; [done|]. destruct Hlast as [|[Hkl Hlt]]; [done|].
    rewrite compare_ord, Ok_bind by done. by rewrite (proj2 (ord_gt_lt ord _ _) Hlt). }
  rewrite Ok_bind. cbn [rust_assert]. rewrite Ok_bind. pose proof (add_shared_le b k) as Hle.
  assert ((if bool_decide (bb_counter b < bb_block_restart_interval b)%nat
    then (common_prefix_len (bb_last_key b) k, bb_restarts b, bb_counter b)
    else (0%nat, bb_restarts b ++ [wrap 32 (len (bb_buffer b))], 0%nat))
    = (add_shared b k, add_restarts b, add_counter b)) as ->.
  { unfold add_shared, add_restarts, add_counter. by case_bool_decide. }
  cbv zeta. rewrite slice_from_ok, Ok_bind, !put_varint_eq by done. by rewrite <- !app_assoc.
Qed.

(** While the buffer stays below 4 GiB, [add] appends one entry of the layout. *)
Lemma bb_add_binv b es rs k v :
  binv b es rs → len (add_buffer b k v) < 2 ^ 32 →
  ∃ rs', binv (mkBB (bb_block_restart_interval b) (add_buffer b k v) (add_restarts b)
                 (add_counter b + 1) false k) (es ++ [(add_shared b k, k, v)]) rs'.
Proof.
  intros [Hf Hbuf Hr Hcnt Hint Hnil Hlk Hsh Hrs] Hsize. pose proof (add_shared_le b k) as Hshk.
  set (sh := add_shared b k) in *.
  assert ((sh = 0 ∨ take sh (last_key_of es) = take sh k) ∧ (es = [] → sh = 0))%nat as (Hpre & Hsh0).
  { unfold sh, add_shared. case_bool_decide; [|split; auto].
    destruct (common_prefix_split (bb_last_key b) k) as ([? ?] & Ht & _). rewrite <- Hlk.
    split; [by right|]. intros ->. by rewrite Hlk. }
  unfold add_buffer in *. fold sh in Hsize |- *. rewrite !len_app, Hbuf in Hsize.
  pose proof (last_key_len _ Hsh) as Hlkl. pose proof (len_nonneg v). pose proof (len_nonneg (encs es)).
  match type of Hsize with _ + (len ?a + (len ?b + (len ?c + _))) < _ =>
    pose proof (len_nonneg a); pose proof (len_nonneg b); pose proof (len_nonneg c) end.
  assert (len (drop sh k) = len k - Z.of_nat sh) as Hdk by (rewrite len_drop; unfold len; lia).
  assert (Z.of_nat sh ≤ len (encs es)) as Hshl.
  { destruct Hpre as [->|Hp]; [simpl; lia|]. apply (f_equal length) in Hp. rewrite !length_take in Hp.
    unfold len in *. lia. }
  rewrite !wrap_small by (unfold in_uint; unfold len in *; lia).
  assert (∀ rs', restarts_ok (es ++ [(sh, k, v)]) rs' →
    add_restarts b = offs (es ++ [(sh, k, v)]) <$> rs' →
    binv (mkBB (bb_block_restart_interval b)
      (bb_buffer b ++ varint_bytes 32 (Z.of_nat sh) ++ varint_bytes 32 (Z.of_nat (length k - sh)) ++
       varint_bytes 32 (len v) ++ drop sh k ++ v) (add_restarts b) (add_counter b + 1) false k)
      (es ++ [(sh, k, v)]) rs') as Hmk.
  { intros rs' Hrs' Heq. split; cbn; try done.
    - rewrite Hbuf, encs_app. unfold encs at 3. cbn. rewrite app_nil_r. f_equal.
      by replace (Z.of_nat (length k - sh)) with (len k - Z.of_nat sh) by (unfold len; lia).
    - unfold add_counter. case_bool_decide; lia.
    - intros Hc. by apply app_eq_nil in Hc as [_ ?].
    - unfold last_key_of. by rewrite last_snoc.
    - by apply shared_ok_snoc. }
  assert (offs es <$> rs = offs (es ++ [(sh, k, v)]) <$> rs) as Hold.
  { apply list_fmap_ext. intros j r Hj. rewrite offs_snoc; [done|].
    destruct (rs_inside _ _ Hrs _ _ Hj) as [->|]; [|lia]. rewrite (rs_first _ _ Hrs) in Hj.
    injection Hj as <-. lia. }
  unfold add_restarts in Hmk |- *.
  destruct (decide (bb_counter b < bb_block_restart_interval b)%nat) as [Hc|Hc].
  - rewrite bool_decide_eq_true_2 in Hmk |- * by done. exists rs.
    apply Hmk; [by apply restarts_ok_snoc|]. by rewrite Hr, Hold.
  - rewrite bool_decide_eq_false_2 in Hmk |- * by done. exists (rs ++ [length es]). apply Hmk.
    + assert (sh = 0%nat) as -> by (unfold sh, add_shared; by rewrite bool_decide_eq_false_2).
      by apply restarts_ok_new.
    + rewrite fmap_app, Hr, Hold, Hbuf. cbn.
      rewrite offs_snoc, offs_all, wrap_small by (done || (unfold in_uint; unfold len in *; lia)). done.
Qed.

Lemma bb_new_binv n : (1 ≤ n)%nat → ∃ b, bb_new n = Ok b ∧ binv b [] [0%nat].
Proof.
  intros Hn. eexists. unfold bb_new. rewrite assert_true by (by apply bool_decide_eq_true_2).
  split; [done|]. split; simpl; try done; try lia; split; try done.
  intros [|j]; [by left|done].
Qed.

Lemma strip_snoc es s k v :
  strip_shared <$> (es ++ [(s, k, v)]) = (strip_shared <$> es) ++ [(k, v)].
Proof. by rewrite fmap_app. Qed.

(** Adding sorted entries never fails; [done_] are the entries added before. *)
Lemma bb_add_all_ok b done_ es :
  bb_finished b = false → (bb_counter b ≤ bb_block_restart_interval b)%nat →
  (1 ≤ bb_block_restart_interval b)%nat →
  (bb_buffer b = [] ∨ ∃ v, last done_ = Some (bb_last_key b, v)) →
  sorted ord (done_ ++ es) → Forall (λ e, key_ok e.1) (done_ ++ es) →
  ∃ b', bb_add_all C b es = Ok b' ∧ len (bb_buffer b) ≤ len (bb_buffer b') ∧
    ∀ es0 rs, binv b es0 rs → strip_shared <$> es0 = done_ → len (bb_buffer b') < 2 ^ 32 →
      ∃ es' rs', binv b' es' rs' ∧ strip_shared <$> es' = done_ ++ es.
Proof.
  revert b done_. induction es as [|[k v] es IH]; intros b done_ Hf Hc Hi Hl Hs Hk.
  { exists b. split_and!; [done|lia|]. intros es0 rs Hb Heq _. exists es0, rs. by rewrite app_nil_r. }
  cbn [bb_add_all]. rewrite bb_add_eq, Ok_bind.
  2: { split_and!; [done..|]. destruct Hl as [|[v' Hl]]; [by left|]. right.
    apply last_Some in Hl as [d ->]. split.
    - rewrite !Forall_app, Forall_singleton in Hk. apply Hk.
    - apply (Hs (length d) (S (length d)) (bb_last_key b, v') (k, v)); [lia|..];
        rewrite <- app_assoc; simpl.
      + by apply list_lookup_middle.
      + rewrite lookup_app_r by lia. by replace (S _ - _)%nat with 1%nat by lia. }
  2: { rewrite Forall_app, Forall_cons in Hk. tauto. }
  destruct (IH (mkBB (bb_block_restart_interval b) (add_buffer b k v) (add_restarts b)
                 (add_counter b + 1) false k) (done_ ++ [(k, v)])) as (b' & -> & Hle & Hfin); simpl.
  { done. } { unfold add_counter. case_bool_decide; lia. } { done. }
  { right. exists v. by rewrite last_snoc. }
  { by rewrite <- app_assoc. } { by rewrite <- app_assoc. }
  exists b'. simpl in Hle.
  assert (len (bb_buffer b) ≤ len (add_buffer b k v)) as Hle1.
  { unfold add_buffer. rewrite len_app.
    match goal with |- _ ≤ _ + len ?x => pose proof (len_nonneg x) end. lia. }
  split_and!; [done|lia|]. intros es0 rs Hb <- Hsz.
  destruct (bb_add_binv b es0 rs k v Hb) as [rs1 Hb1]; [lia|].
  destruct (Hfin _ _ Hb1 (strip_snoc _ _ _ _) Hsz) as (es' & rs' & ? & Heq).
  exists es', rs'. split; [done|]. by rewrite Heq, <- app_assoc.
Qed.

Lemma bb_finish_layout b es rs data b' :
  binv b es rs → bb_finish b = (data, b') → len data < 2 ^ 32 → layout data es rs.
Proof.
  intros Hb Hfin Hsz. unfold bb_finish in Hfin. injection Hfin as Hd _.
  rewrite fold_put_fixed_32, put_fixed_32_eq, (bi_buf _ _ _ Hb), (bi_rs _ _ _ Hb) in Hd.
  fold (restart_bytes es rs) in Hd. assert (len (offs es <$> rs) = len rs) as Hl by (unfold len; by rewrite length_fmap).
  rewrite Hl in Hd. rewrite wrap_small in Hd.
  - split; [by rewrite <- Hd, <- app_assoc|done|apply Hb|apply Hb].
  - pose proof (len_nonneg rs). split; [lia|]. rewrite <- Hd, !len_app in Hsz.
    assert (len (restart_bytes es rs) = 4 * len rs) as Hr4 by (unfold len; rewrite restart_bytes_len; lia).
    pose proof (len_nonneg (encs es)).
    pose proof (len_nonneg (to_le_bytes 4 (wrap 32 (len rs)))). lia.
Qed.

Lemma block_new_layout data es rs : layout data es rs →
  ∃ blk, block_new data = Ok blk ∧ static data es rs (block_iter blk) ∧
    bi_current (block_iter blk) = len (encs es).
Proof.
  intros HL. destruct (encs_size data es rs HL) as [Hsz Hd]. pose proof (rs_pos data es rs HL).
  pose proof (len_nonneg (encs es)).
  unfold block_new, block_restarts_len, U32_LEN.
  rewrite bool_decide_eq_true_2 by (unfold len in *; lia).
  rewrite slice_from_ok, Ok_bind by lia.
  assert (drop (length data - 4) data = to_le_bytes 4 (len rs) ++ []) as ->.
  { rewrite app_nil_r. rewrite (lay_data _ _ _ HL) at 2. rewrite app_assoc, drop_app_length'; [done|].
    rewrite length_app, restart_bytes_len. unfold len in *. lia. }
  rewrite Ok_bind, decode_fixed_32_app by (unfold in_uint; lia).
  rewrite (proj2 (Z.leb_le _ _)).
  2: { rewrite Nat2Z.inj_div. apply Z.div_le_lower_bound; [lia|]. unfold len in *. lia. }
  rewrite wrap_small by (unfold in_uint; unfold len in *; lia).
  assert (Z.of_nat (length data) - (1 + len rs) * 4 = len (encs es)) as -> by (unfold len in *; lia).
  eexists. split; [done|]. by split_and!.
Qed.

(** Build a block: the iterator over it represents the entries. *)
Lemma block_build_rep n es :
  (1 ≤ n)%nat → sorted ord es → Forall (λ e, key_ok e.1) es →
  ∃ b0 b data b', bb_new n = Ok b0 ∧ bb_add_all C b0 es = Ok b ∧ bb_finish b = (data, b') ∧
    (len data < 2 ^ 32 → ∃ blk, block_new data = Ok blk ∧
       block_rep key_ok ord (block_iter blk) es None).
Proof.
  intros Hn Hs Hk. destruct (bb_new_binv n Hn) as (b0 & Hnew & Hb0).
  destruct (bb_add_all_ok b0 [] es) as (b & Hadd & Hle & Hfin); [apply Hb0..|left; apply Hb0|done|done|].
  exists b0, b, (bb_finish b).1, (bb_finish b).2. split_and!; [done|done|apply surjective_pairing|].
  intros Hsz. destruct (Hfin [] [0%nat] Hb0 eq_refl) as (es' & rs' & Hb & Heq).
  { unfold bb_finish in Hsz. simpl in Hsz. rewrite put_fixed_32_eq, fold_put_fixed_32, !len_app in Hsz.
    match type of Hsz with _ + len ?x + len ?y < _ => pose proof (len_nonneg x); pose proof (len_nonneg y) end. lia. }
  pose proof (bb_finish_layout _ _ _ _ _ Hb (surjective_pairing _) Hsz) as HL.
  destruct (block_new_layout _ _ _ HL) as (blk & Hblk & Hst & Hcur).
  exists blk. split; [done|]. simpl in Heq. exists (bb_finish b).1, es', rs'.
  by split_and!.
Qed.
End BuilderFacts.

(** ** Theorems *)
Section Theorems.
Context (C : Comparator) (key_ok : bytes → Prop) (ord : bytes → bytes → comparison).
Context {CO : ComparatorOrder C key_ok ord}.
#[local] Existing Instance BlockIterator_Iterator.

(** C36: a block gives back the entries it was built from.  For entries sorted by
    the comparator and any restart interval, the builder accepts them all; if
    the finished block is smaller than 4 GiB, it opens, and walking its iterator
    forward from the first entry yields exactly the entries, walking it backward
    from the last yields them reversed. *)
Theorem block_roundtrip (n : nat) (es : list entry) :
  (1 ≤ n)%nat → sorted ord es → Forall (λ e, key_ok e.1) es →
  ∃ b0 b data b', bb_new n = Ok b0 ∧ bb_add_all C b0 es = Ok b ∧ bb_finish b = (data, b') ∧
    (len data < 2 ^ 32 → ∃ blk, block_new data = Ok blk ∧
       (∃ it, bi_seek_to_first (block_iter blk) = Ok it ∧ collect (length es) it = Ok es) ∧
       (∃ it, bi_seek_to_last (block_iter blk) = Ok it ∧
              collect_back (length es) it = Ok (reverse es))).
Proof.
  intros Hn Hs Hk. destruct (block_build_rep C key_ok ord n es Hn Hs Hk)
    as (b0 & b & data & b' & H1 & H2 & H3 & H4).
  exists b0, b, data, b'. split_and!; [done..|]. intros Hsz. destruct (H4 Hsz) as (blk & Hblk & Hrep).
  exists blk. split; [done|]. split.
  - destruct (rep_seek_to_first (IT := BlockIterator_Iterator C) ord key_ok _ _ _ Hrep) as (it & Hit & Hr).
    exists it. split; [done|].
    assert (rest_from es (first_pos es) = es) as Hes by by destruct es.
    pose proof (collect_rep ord key_ok (block_rep key_ok ord) (length es) _ _ _ Hr) as Hc.
    rewrite Hes in Hc. by apply Hc.
  - destruct (rep_seek_to_last (IT := BlockIterator_Iterator C) _ _ _ Hrep) as (it & Hit & Hr).
    exists it. split; [done|].
    assert (rest_back es (last_pos es) = reverse es) as Hes.
    { destruct es as [|e es]; [done|]. unfold last_pos, rest_back. rewrite take_ge; [done|simpl; lia]. }
    pose proof (collect_back_rep ord key_ok (block_rep key_ok ord) (length es) _ _ _ Hr) as Hc.
    rewrite Hes, length_reverse in Hc. by apply Hc.
Qed.

(** Seeking in a block is exact.  From any position, seeking a target leaves
    the iterator on the first entry whose key is not smaller than the target,
    with that entry's key and value, or invalid when there is none. *)
Theorem block_seek (n : nat) (es : list entry) (b0 b b' : BlockBuilder) (data : bytes) (blk : Block)
    (target : bytes) :
  sorted ord es → Forall (λ e, key_ok e.1) es → key_ok target →
  bb_new n = Ok b0 → bb_add_all C b0 es = Ok b → bb_finish b = (data, b') → len data < 2 ^ 32 →
  block_new data = Ok blk →
  ∃ it, bi_seek C (block_iter blk) target = Ok it ∧
    match list_find (λ e, ord e.1 target ≠ Lt) es with
    | Some (_, e) => bi_valid it = true ∧ bi_get_key it = Ok e.1 ∧ bi_get_value it = Ok e.2
    | None => bi_valid it = false
    end.
Proof.
  intros Hs Hk Ht Hnew Hadd Hfin Hsz Hblk.
  assert (1 ≤ n)%nat as Hn.
  { unfold bb_new in Hnew. apply bind_Ok in Hnew as (? & Ha & _). unfold rust_assert in Ha.
    by case_bool_decide. }
  destruct (block_build_rep C key_ok ord n es Hn Hs Hk) as (c0 & c & data' & c' & H1 & H2 & H3 & H4).
  rewrite Hnew in H1. injection H1 as <-. rewrite Hadd in H2. injection H2 as <-.
  rewrite Hfin in H3. injection H3 as <- <-. destruct (H4 Hsz) as (blk' & Hblk' & Hrep).
  rewrite Hblk in Hblk'. injection Hblk' as <-.
  destruct (rep_seek (IT := BlockIterator_Iterator C) ord key_ok _ _ _ target Hrep Ht) as (it & Hit & Hr).
  exists it. split; [done|]. unfold seek_pos in Hr.
  destruct (list_find _ es) as [[i e]|] eqn:Hf; simpl in Hr.
  - apply list_find_Some in Hf as (Hi & _). split_and!.
    + by apply (rep_valid (IT := BlockIterator_Iterator C) ord key_ok _ _ _ Hr).
    + by apply (rep_key (IT := BlockIterator_Iterator C) ord key_ok _ _ _ _ Hr Hi).
    + by apply (rep_value (IT := BlockIterator_Iterator C) ord key_ok _ _ _ _ Hr Hi).
  - by apply (rep_valid (IT := BlockIterator_Iterator C) ord key_ok _ _ _ Hr).
Qed.
End Theorems.

(** *** Witnesses: the block of [tests::new_test_block], restart interval 3 *)
Definition sample_keys : list bytes :=
  [[49]; [49;50]; [49;50;51]; [97;98;99]; [97;98;100]; [97;99;100]; [98;98;98]].
Definition sample_entries : list entry := (λ k, (k, k)) <$> sample_keys.

Lemma sample_sorted : sorted lex_compare sample_entries.
Proof. apply sortedb_sorted. vm_compute. reflexivity. Qed.
Lemma sample_ok : Forall (λ e : entry, bytes_ok e.1) sample_entries.
Proof. apply (bool_decide_unpack _). vm_compute. exact I. Qed.

Lemma block_roundtrip_witness :
  ∃ b0 b data b', bb_new 3 = Ok b0 ∧ bb_add_all bytewise b0 sample_entries = Ok b ∧
    bb_finish b = (data, b') ∧
    (len data < 2 ^ 32 → ∃ blk, block_new data = Ok blk ∧
       (∃ it, bi_seek_to_first (block_iter blk) = Ok it ∧
          @collect _ (BlockIterator_Iterator bytewise) 7 it = Ok sample_entries) ∧
       (∃ it, bi_seek_to_last (block_iter blk) = Ok it ∧
          @collect_back _ (BlockIterator_Iterator bytewise) 7 it = Ok (reverse sample_entries))).
Proof.
  apply (block_roundtrip bytewise bytes_ok lex_compare 3 sample_entries);
    [lia|apply sample_sorted|apply sample_ok].
Defined.

Definition sample_builder : BlockBuilder :=
  match bb_add_all bytewise (mkBB 3 [] [0] 0 false []) sample_entries with Ok b => b | _ => mkBB 0 [] [] 0 true [] end.
Definition sample_block : Block :=
  match block_new (bb_finish sample_builder).1 with Ok b => b | _ => block_default end.

(** The target "abb" lies between two keys: the iterator stops at "abc". *)
Lemma block_seek_witness :
  ∃ it, bi_seek bytewise (block_iter sample_block) [97;98;98] = Ok it ∧
    bi_valid it = true ∧ bi_get_key it = Ok [97;98;99] ∧ bi_get_value it = Ok [97;98;99].
Proof.
  apply (block_seek bytewise bytes_ok lex_compare 3 sample_entries
    (mkBB 3 [] [0] 0 false []) sample_builder (bb_finish sample_builder).2
    (bb_finish sample_builder).1 sample_block [97;98;98]);
    [apply sample_sorted|apply sample_ok|repeat constructor; discriminate|reflexivity..].
Defined.
