(* ===== verification/Concat.v ===== *)
(** * [ConcatenateIterator] ([src/iterator.rs])

    A two-level iterator: the origin yields (last key, handle) pairs and a
    factory opens the derived iterator of a handle.  The operations follow the
    source; the proof is against the [Iterator] interface and gives an instance
    of it, so the same result serves table iterators (index block over data
    blocks) and level iterators (file list over tables). *)
From S2P Require Import Prelude Comparator Iterator.

(** [pub trait DerivedIterFactory] *)
Class DerivedIterFactory (DI : Type) : Type := { derive : bytes → outcome DI }.

Section Concat.
Context {OI DI : Type} {ITO : Iterator OI} {ITD : Iterator DI} {FA : DerivedIterFactory DI}.
(** The skip loops visit each entry of the origin at most once more. *)
Context (fuel : nat).

Record ConcatenateIterator : Type := mkConcat {
  ci_origin : OI;
  ci_derived : option DI;
  ci_prev_derived_value : bytes;
  ci_err : option error;
}.

Definition concat_new (origin : OI) : ConcatenateIterator := mkConcat origin None [] None.

Definition with_origin (c : ConcatenateIterator) (o : OI) : ConcatenateIterator :=
  mkConcat o (ci_derived c) (ci_prev_derived_value c) (ci_err c).
Definition with_derived (c : ConcatenateIterator) (d : option DI) : ConcatenateIterator :=
  mkConcat (ci_origin c) d (ci_prev_derived_value c) (ci_err c).

(** [maybe_save_err] on the [Result] of a [status] call or of [derive]. *)
Definition maybe_save_err (old : option error) {A} (new : outcome A) : option error :=
  match old, new with
  | None, Err e => Some e
  | _, _ => old
  end.

Definition set_derived (c : ConcatenateIterator) (iter : option DI) : ConcatenateIterator :=
  match ci_derived c with
  | Some di =>
    mkConcat (ci_origin c) iter (ci_prev_derived_value c)
      (maybe_save_err (ci_err c) (it_status di).1)
  | None => with_derived c iter
  end.

Definition init_derived_iter (c : ConcatenateIterator) : outcome ConcatenateIterator :=
  if negb (it_valid (ci_origin c)) then Ok (with_derived c None)
  else
    v ← it_value (ci_origin c);
    if (match ci_derived c with None => true | Some _ => false end)
       || negb (bool_decide (v = ci_prev_derived_value c)) then
      match derive v with
      | Ok derived =>
        let c := if it_valid derived
                 then mkConcat (ci_origin c) (ci_derived c) v (ci_err c) else c in
        Ok (set_derived c (Some derived))
      | Err e =>
        let c := mkConcat (ci_origin c) (ci_derived c) (ci_prev_derived_value c)
                   (maybe_save_err (ci_err c) (Err (A := unit) e)) in
        Ok (set_derived c None)
      | Panic => Panic
      | OutOfFuel => OutOfFuel
      end
    else Ok c.

(** [self.derived.is_none() || !self.derived.as_ref().unwrap().valid()] *)
Definition derived_invalid (c : ConcatenateIterator) : bool :=
  match ci_derived c with None => true | Some di => negb (it_valid di) end.

(** Apply a repositioning to the derived iterator, if there is one. *)
Definition on_derived (f : DI → outcome DI) (c : ConcatenateIterator) : outcome ConcatenateIterator :=
  match ci_derived c with
  | Some di => di ← f di; Ok (with_derived c (Some di))
  | None => Ok c
  end.

Fixpoint skip_forward_loop (n : nat) (c : ConcatenateIterator) : outcome ConcatenateIterator :=
  if derived_invalid c then
    match n with
    | O => OutOfFuel
    | S n =>
      if negb (it_valid (ci_origin c)) then Ok (set_derived c None)
      else
        o ← it_next (ci_origin c);
        c ← init_derived_iter (with_origin c o);
        c ← on_derived it_seek_to_first c;
        skip_forward_loop n c
    end
  else Ok c.

Fixpoint skip_backward_loop (n : nat) (c : ConcatenateIterator) : outcome ConcatenateIterator :=
  if derived_invalid c then
    match n with
    | O => OutOfFuel
    | S n =>
      if negb (it_valid (ci_origin c)) then Ok (set_derived c None)
      else
        o ← it_prev (ci_origin c);
        c ← init_derived_iter (with_origin c o);
        c ← on_derived it_seek_to_last c;
        skip_backward_loop n c
    end
  else Ok c.

Definition skip_forward (c : ConcatenateIterator) := skip_forward_loop fuel c.
Definition skip_backward (c : ConcatenateIterator) := skip_backward_loop fuel c.

Definition ci_valid (c : ConcatenateIterator) : bool :=
  match ci_err c with
  | Some _ => false
  | None => match ci_derived c with Some di => it_valid di | None => false end
  end.

Definition ci_seek_to_first (c : ConcatenateIterator) : outcome ConcatenateIterator :=
  o ← it_seek_to_first (ci_origin c);
  c ← init_derived_iter (with_origin c o);
  c ← on_derived it_seek_to_first c;
  skip_forward c.
Definition ci_seek_to_last (c : ConcatenateIterator) : outcome ConcatenateIterator :=
  o ← it_seek_to_last (ci_origin c);
  c ← init_derived_iter (with_origin c o);
  c ← on_derived it_seek_to_last c;
  skip_backward c.
Definition ci_seek (c : ConcatenateIterator) (target : bytes) : outcome ConcatenateIterator :=
  o ← it_seek (ci_origin c) target;
  c ← init_derived_iter (with_origin c o);
  c ← on_derived (λ di, it_seek di target) c;
  skip_forward c.
Definition ci_next (c : ConcatenateIterator) : outcome ConcatenateIterator :=
  _ ← rust_assert (ci_valid c);
  c ← on_derived it_next c;
  skip_forward c.
Definition ci_prev (c : ConcatenateIterator) : outcome ConcatenateIterator :=
  _ ← rust_assert (ci_valid c);
  c ← on_derived it_prev c;
  skip_backward c.
Definition ci_key (c : ConcatenateIterator) : outcome bytes :=
  _ ← rust_assert (ci_valid c);
  match ci_derived c with Some di => it_key di | None => Panic end.
Definition ci_value (c : ConcatenateIterator) : outcome bytes :=
  _ ← rust_assert (ci_valid c);
  match ci_derived c with Some di => it_value di | None => Panic end.

Definition ci_status (c : ConcatenateIterator) : outcome unit * ConcatenateIterator :=
  match it_status (ci_origin c) with
  | (Ok _, o) =>
    let c := with_origin c o in
    match match ci_derived c with
          | Some di => let '(r, di) := it_status di in (r, with_derived c (Some di))
          | None => (Ok tt, c)
          end with
    | (Ok _, c) =>
      match ci_err c with
      | Some e => (Err e, mkConcat (ci_origin c) (ci_derived c) (ci_prev_derived_value c) None)
      | None => (Ok tt, c)
      end
    | r => r
    end
  | (r, o) => (r, with_origin c o)
  end.

#[export] Instance ConcatenateIterator_Iterator : Iterator ConcatenateIterator := {
  it_valid := ci_valid;
  it_seek_to_first := ci_seek_to_first;
  it_seek_to_last := ci_seek_to_last;
  it_seek := ci_seek;
  it_next := ci_next;
  it_prev := ci_prev;
  it_key := ci_key;
  it_value := ci_value;
  it_status := ci_status;
}.
End Concat.
Arguments ConcatenateIterator OI DI : clear implicits.

(** ** Positions in a concatenation of lists *)
Section joined.
Context {A : Type}.
Implicit Types (Bs : list (list A)) (b : list A).

(** Where list [j] starts in the concatenation. *)
Definition bstart Bs (j : nat) : nat := length (mjoin (take j Bs)).

Lemma bstart_0 Bs : bstart Bs 0 = 0.
Proof. done. Qed.
Lemma bstart_S Bs j b : Bs !! j = Some b → bstart Bs (S j) = bstart Bs j + length b.
Proof.
  intros Hb. unfold bstart. rewrite (take_S_r _ _ _ Hb), join_app, length_app. simpl.
  by rewrite app_nil_r.
Qed.
Lemma bstart_ge Bs j : length Bs ≤ j → bstart Bs j = length (mjoin Bs).
Proof. intros. unfold bstart. by rewrite take_ge. Qed.
Lemma bstart_le Bs i j : i ≤ j → bstart Bs i ≤ bstart Bs j.
Proof.
  intros Hij. unfold bstart. rewrite <- (take_drop i (take j Bs)), take_take, Nat.min_l by lia.
  rewrite join_app, length_app. lia.
Qed.

Lemma joined_split Bs j b : Bs !! j = Some b → mjoin Bs = mjoin (take j Bs) ++ b ++ mjoin (drop (S j) Bs).
Proof. intros Hb. rewrite <- (take_drop_middle Bs j b Hb) at 1. by rewrite join_app. Qed.

Lemma joined_lookup Bs j b q : Bs !! j = Some b → q < length b →
  mjoin Bs !! (bstart Bs j + q) = b !! q.
Proof.
  intros Hb Hq. rewrite (joined_split _ _ _ Hb). unfold bstart.
  rewrite lookup_app_r by lia. rewrite lookup_app_l by lia. f_equal. lia.
Qed.

Lemma joined_lookup_inv Bs i e : mjoin Bs !! i = Some e →
  ∃ j b q, Bs !! j = Some b ∧ b !! q = Some e ∧ i = bstart Bs j + q.
Proof.
  revert i. induction Bs as [|b Bs IH]; intros i Hi; [done|]. simpl in Hi.
  destruct (decide (i < length b)).
  - rewrite lookup_app_l in Hi by done. by exists 0, b, i.
  - rewrite lookup_app_r in Hi by lia. destruct (IH _ Hi) as (j & b' & q & Hj & Hq & Heq).
    exists (S j), b', q. split_and!; [done..|]. unfold bstart in *. simpl. rewrite length_app. lia.
Qed.

Lemma bstart_lt_len Bs j b q : Bs !! j = Some b → q < length b → bstart Bs j + q < length (mjoin Bs).
Proof.
  intros Hb Hq. rewrite (joined_split _ _ _ Hb), !length_app. unfold bstart. lia.
Qed.
End joined.

(** ** The concatenation walks over all the derived lists *)
Section ConcatFacts.
Context {OI DI : Type} {ITO : Iterator OI} {ITD : Iterator DI} {FA : DerivedIterFactory DI}.
Context (fuel : nat) (ord : bytes → bytes → comparison) (key_ok : bytes → Prop) {KO : KeyOrder ord}.
Context (repO : OI → list entry → option nat → Prop) {FO : FwdLaws ord key_ok repO} {BO : BwdLaws repO}.
Context (repD : DI → list entry → option nat → Prop) {FD : FwdLaws ord key_ok repD} {BD : BwdLaws repD}.
(** [blk v]: the entries behind the handle [v]. *)
Context (blk : bytes → list entry).

Notation CI := (ConcatenateIterator OI DI).
Implicit Types c : CI.

(** The lists behind the entries of the origin. *)
Definition blocks_of (L : list entry) : list (list entry) := (λ e, blk e.2) <$> L.

(** What the origin list must satisfy: the handles open, and the origin keys
    separate the blocks. *)
Record origin_ok (L : list entry) : Prop := {
  og_derive j k v : L !! j = Some (k, v) → ∃ di, derive v = Ok di ∧ repD di (blk v) None;
  og_value j k v : L !! j = Some (k, v) → v ≠ [];
  og_upper j k v e : L !! j = Some (k, v) → e ∈ blk v → ord e.1 k ≠ Gt;
  og_lower j j' k v k' v' e : j < j' → L !! j = Some (k, v) → L !! j' = Some (k', v') →
    e ∈ blk v' → ord k e.1 = Lt;
  og_fuel : S (length L) < fuel;
}.

(** The fields that never change on a healthy iterator. *)
Definition healthy (c : CI) (L : list entry) (p0 : option nat) : Prop :=
  origin_ok L ∧ repO (ci_origin c) L p0 ∧ ci_err c = None ∧ ci_prev_derived_value c = [] ∧
  match ci_derived c with Some di => ∃ l p, repD di l p | None => True end.

Definition concat_rep (c : CI) (l : list entry) (p : option nat) : Prop :=
  ∃ L p0, healthy c L p0 ∧ l = mjoin (blocks_of L) ∧
    match p with
    | Some i => ∃ j b q di, p0 = Some j ∧ blocks_of L !! j = Some b ∧ ci_derived c = Some di ∧
        repD di b (Some q) ∧ i = bstart (blocks_of L) j + q
    | None => derived_invalid c = true
    end.

Lemma blocks_lookup L j k v : L !! j = Some (k, v) → blocks_of L !! j = Some (blk v).
Proof. intros HL. unfold blocks_of. by rewrite list_lookup_fmap, HL. Qed.
Lemma blocks_lookup_inv L j b : blocks_of L !! j = Some b → ∃ k v, L !! j = Some (k, v) ∧ b = blk v.
Proof.
  unfold blocks_of. rewrite list_lookup_fmap, fmap_Some. intros ([k v] & ? & ->). eauto.
Qed.

Lemma set_derived_healthy c L p0 d :
  healthy c L p0 → match d with Some di => ∃ l p, repD di l p | None => True end →
  healthy (set_derived c d) L p0 ∧ ci_derived (set_derived c d) = d ∧
  ci_origin (set_derived c d) = ci_origin c.
Proof.
  intros (Hog & Ho & He & Hp & Hd) Hd'. unfold set_derived, healthy.
  destruct (ci_derived c) as [di|]; simpl; [|done]. destruct Hd as (l & p & Hr).
  destruct (rep_status ord key_ok di l p Hr) as (di' & Hs & _). rewrite Hs, He. done.
Qed.

(** [init_derived_iter]: a fresh derived iterator, or none at the end. *)
Lemma init_derived_ok c L p0 :
  healthy c L p0 →
  ∃ c', init_derived_iter c = Ok c' ∧ healthy c' L p0 ∧
    match p0 with
    | Some j => ∃ k v di, L !! j = Some (k, v) ∧ ci_derived c' = Some di ∧ repD di (blk v) None
    | None => ci_derived c' = None
    end.
Proof.
  intros Hh. destruct (Hh) as (Hog & Ho & He & Hp & Hd). unfold init_derived_iter.
  rewrite (rep_valid ord key_ok _ _ _ Ho). destruct p0 as [j|]; cbn [negb].
  - pose proof (rep_lt ord key_ok _ _ _ Ho) as Hj. destruct (lookup_lt_is_Some_2 L j Hj) as [[k v] HL].
    rewrite (rep_value ord key_ok _ _ _ _ Ho HL), Ok_bind. cbn [snd].
    rewrite (bool_decide_eq_false_2 (v = _)) by (rewrite Hp; by eapply og_value). cbn [negb].
    rewrite orb_true_r. destruct (og_derive _ Hog _ _ _ HL) as (di & -> & Hdi).
    rewrite (rep_valid ord key_ok _ _ _ Hdi). cbv zeta.
    destruct (set_derived_healthy c L (Some j) (Some di) Hh) as (Hh' & Hd' & _); [eauto|].
    eexists. split; [done|]. split; [done|]. rewrite Hd'. eauto 10.
  - eexists. split; [done|]. split; [|done]. by split_and!.
Qed.

(** Repositioning the fresh derived iterator. *)
Lemma on_derived_ok f c L p0 di b p (g : list entry → option nat) :
  healthy c L p0 → ci_derived c = Some di → repD di b p →
  (∀ di p, repD di b p → ∃ di', f di = Ok di' ∧ repD di' b (g b)) →
  ∃ c' di', on_derived f c = Ok c' ∧ healthy c' L p0 ∧ ci_derived c' = Some di' ∧ repD di' b (g b).
Proof.
  intros (Hog & Ho & He & Hpv & _) Hd Hr Hf. destruct (Hf di p Hr) as (di' & Hdi & Hr').
  unfold on_derived. rewrite Hd, Hdi. eexists _, di'. split; [done|].
  split; [|done]. split_and!; [done..|]. simpl. eauto.
Qed.

(** The derived iterator of the current block is used up. *)
Definition exhausted (c : CI) : Prop :=
  match ci_derived c with Some di => ∃ b, repD di b None | None => True end.

Lemma exhausted_invalid c : exhausted c → derived_invalid c = true.
Proof.
  unfold exhausted, derived_invalid. destruct (ci_derived c) as [di|]; [|done].
  intros [b Hr]. by rewrite (rep_valid ord key_ok _ _ _ Hr).
Qed.

(** The place of an iterator: exhausted in front of block [j], or inside it. *)
Definition lands (c : CI) (L : list entry) (i : option nat) : Prop :=
  concat_rep c (mjoin (blocks_of L)) i.

Lemma lands_at c L j b q di :
  healthy c L (Some j) → blocks_of L !! j = Some b → ci_derived c = Some di → repD di b (Some q) →
  lands c L (Some (bstart (blocks_of L) j + q)).
Proof. intros. exists L, (Some j). split_and!; [done..|]. eauto 10. Qed.

Lemma lands_none c L p0 : healthy c L p0 → derived_invalid c = true → lands c L None.
Proof. intros. exists L, p0. by split_and!. Qed.

(** The first position at or after [i]. *)
Definition from_pos (l : list entry) (i : nat) : option nat :=
  if decide (i < length l) then Some i else None.

Lemma first_from l : first_pos l = from_pos l 0.
Proof. by destruct l. Qed.

Lemma valid_derived (c : CI) di b q : ci_derived c = Some di → repD di b (Some q) → derived_invalid c = false.
Proof.
  intros Hd Hr. unfold derived_invalid. by rewrite Hd, (rep_valid ord key_ok _ _ _ Hr).
Qed.

Lemma skip_forward_stop n (c : CI) : derived_invalid c = false → skip_forward_loop n c = Ok c.
Proof. intros Hd. destruct n; cbn [skip_forward_loop]; by rewrite Hd. Qed.
Lemma skip_backward_stop n (c : CI) : derived_invalid c = false → skip_backward_loop n c = Ok c.
Proof. intros Hd. destruct n; cbn [skip_backward_loop]; by rewrite Hd. Qed.

Definition idx_after (L : list entry) (p0 : option nat) : nat :=
  match p0 with Some j => S j | None => length L end.

Lemma skip_forward_end n c L :
  healthy c L None → exhausted c → ∃ c', skip_forward_loop (S n) c = Ok c' ∧ lands c' L None.
Proof.
  intros Hh Hex. cbn [skip_forward_loop]. rewrite (exhausted_invalid _ Hex).
  destruct (Hh) as (_ & Ho & _). rewrite (rep_valid ord key_ok _ _ _ Ho). cbn [negb].
  destruct (set_derived_healthy c L None None Hh I) as (Hh' & Hd' & _).
  eexists. split; [done|]. eapply lands_none; [done|]. unfold derived_invalid. by rewrite Hd'.
Qed.

Lemma skip_forward_ok n c L p0 :
  healthy c L p0 → exhausted c → length L - idx_after L p0 + 1 < n →
  ∃ c', skip_forward_loop n c = Ok c' ∧
    lands c' L (from_pos (mjoin (blocks_of L)) (bstart (blocks_of L) (idx_after L p0))).
Proof.
  revert c p0. induction n as [|n IH]; intros c p0 Hh Hex Hn; [lia|].
  assert (length (blocks_of L) = length L) as HlB by apply length_fmap.
  assert (∀ j, length L ≤ j → from_pos (mjoin (blocks_of L)) (bstart (blocks_of L) j) = None) as Hnone.
  { intros j Hj. unfold from_pos. rewrite bstart_ge by lia. rewrite decide_False by lia. done. }
  destruct p0 as [j|]; simpl in *.
  2: { rewrite Hnone by lia. by apply skip_forward_end. }
  cbn [skip_forward_loop]. rewrite (exhausted_invalid _ Hex).
  destruct (Hh) as (Hog & Ho & He & Hp & Hd). rewrite (rep_valid ord key_ok _ _ _ Ho). cbn [negb].
  destruct (rep_next ord key_ok _ _ _ Ho) as (o & -> & Ho'). rewrite Ok_bind.
  destruct (init_derived_ok (with_origin c o) L (next_pos L j)) as (c1 & -> & Hh1 & Hd1);
    [by split_and!|]. rewrite Ok_bind. unfold next_pos in *. case_decide as HSj.
  - destruct Hd1 as (k & v & di & HL & Hd1 & Hr1). pose proof (blocks_lookup _ _ _ _ HL) as HB.
    destruct (on_derived_ok it_seek_to_first c1 L _ di (blk v) None first_pos Hh1 Hd1 Hr1) as (c2 & di2 & -> & Hh2 & Hd2 & Hr2).
    { intros d p Hr. exact (rep_seek_to_first ord key_ok _ _ _ Hr). }
    rewrite Ok_bind. destruct (blk v) as [|e b] eqn:Hblk; cbn [first_pos] in Hr2.
    + destruct (IH c2 (Some (S j)) Hh2) as (c' & Hc' & Hl); [unfold exhausted; rewrite Hd2; eauto|simpl; lia|].
      exists c'. split; [done|]. simpl in Hl. rewrite (bstart_S _ _ _ HB) in Hl. simpl in Hl.
      by rewrite Nat.add_0_r in Hl.
    + rewrite skip_forward_stop by (by eapply valid_derived). exists c2. split; [done|].
      unfold from_pos. rewrite decide_True.
      * pose proof (lands_at _ _ _ _ _ _ Hh2 HB Hd2 Hr2) as Hl. by rewrite Nat.add_0_r in Hl.
      * pose proof (bstart_lt_len _ _ _ 0 HB ltac:(simpl; lia)). lia.
  - unfold on_derived. rewrite Hd1, Ok_bind. destruct n as [|n]; [lia|].
    rewrite Hnone by (pose proof (rep_lt ord key_ok _ _ _ Ho); lia). apply skip_forward_end; [done|].
    unfold exhausted. by rewrite Hd1.
Qed.

(** The last position before [i]. *)
Definition to_pos (i : nat) : option nat := prev_pos i.

Definition idx_before (p0 : option nat) : nat := match p0 with Some j => j | None => 0 end.

Lemma skip_backward_ok n c L p0 :
  healthy c L p0 → exhausted c → idx_before p0 + 1 < n →
  ∃ c', skip_backward_loop n c = Ok c' ∧ lands c' L (to_pos (bstart (blocks_of L) (idx_before p0))).
Proof.
  assert (∀ n (c : CI), healthy c L None → exhausted c →
    ∃ c', skip_backward_loop (S n) c = Ok c' ∧ lands c' L None) as Hend.
  { intros m c0 Hh Hex. cbn [skip_backward_loop]. rewrite (exhausted_invalid _ Hex).
    destruct (Hh) as (_ & Ho & _). rewrite (rep_valid ord key_ok _ _ _ Ho). cbn [negb].
    destruct (set_derived_healthy c0 L None None Hh I) as (Hh' & Hd' & _).
    eexists. split; [done|]. eapply lands_none; [done|]. unfold derived_invalid. by rewrite Hd'. }
  revert c p0. induction n as [|n IH]; intros c p0 Hh Hex Hn; [lia|].
  destruct p0 as [j|]; simpl in *.
  2: { by apply Hend. }
  cbn [skip_backward_loop]. rewrite (exhausted_invalid _ Hex).
  destruct (Hh) as (Hog & Ho & He & Hp & Hd). rewrite (rep_valid ord key_ok _ _ _ Ho). cbn [negb].
  destruct (rep_prev _ _ _ Ho) as (o & -> & Ho'). rewrite Ok_bind.
  destruct (init_derived_ok (with_origin c o) L (prev_pos j)) as (c1 & -> & Hh1 & Hd1);
    [by split_and!|]. rewrite Ok_bind. destruct j as [|j]; simpl in *.
  - unfold on_derived. rewrite Hd1, Ok_bind. destruct n as [|n]; [lia|].
    apply Hend; [done|]. unfold exhausted. by rewrite Hd1.
  - destruct Hd1 as (k & v & di & HL & Hd1 & Hr1). pose proof (blocks_lookup _ _ _ _ HL) as HB.
    destruct (on_derived_ok it_seek_to_last c1 L _ di (blk v) None last_pos Hh1 Hd1 Hr1) as (c2 & di2 & -> & Hh2 & Hd2 & Hr2).
    { intros d p Hr. exact (rep_seek_to_last _ _ _ Hr). }
    rewrite Ok_bind. rewrite (bstart_S _ _ _ HB).
    destruct (blk v) as [|e b] eqn:Hblk; cbn [last_pos] in Hr2.
    + destruct (IH c2 (Some j) Hh2) as (c' & Hc' & Hl); [unfold exhausted; rewrite Hd2; eauto|simpl; lia|].
      exists c'. split; [done|]. simpl in *. by rewrite Nat.add_0_r.
    + rewrite skip_backward_stop by (by eapply valid_derived). exists c2. split; [done|].
      pose proof (lands_at _ _ _ _ _ _ Hh2 HB Hd2 Hr2) as Hl. simpl in Hl |- *.
      rewrite Nat.add_succ_r. simpl. by replace (length b - 0)%nat with (length b) in Hl by lia.
Qed.

Lemma land_forward c L j b di p :
  healthy c L (Some j) → blocks_of L !! j = Some b → ci_derived c = Some di → repD di b p →
  ∃ c', skip_forward fuel c = Ok c' ∧
    lands c' L (match p with
                | Some q => Some (bstart (blocks_of L) j + q)
                | None => from_pos (mjoin (blocks_of L)) (bstart (blocks_of L) (S j))
                end).
Proof.
  intros Hh HB Hd Hr. unfold skip_forward. destruct p as [q|].
  - rewrite skip_forward_stop by (by eapply valid_derived). exists c. split; [done|]. by eapply lands_at.
  - apply (skip_forward_ok fuel c L (Some j)); [done|unfold exhausted; rewrite Hd; eauto|].
    simpl. pose proof (og_fuel _ (proj1 Hh)). lia.
Qed.

Lemma land_backward c L j b di p :
  healthy c L (Some j) → blocks_of L !! j = Some b → ci_derived c = Some di → repD di b p →
  ∃ c', skip_backward fuel c = Ok c' ∧
    lands c' L (match p with
                | Some q => Some (bstart (blocks_of L) j + q)
                | None => to_pos (bstart (blocks_of L) j)
                end).
Proof.
  intros Hh HB Hd Hr. unfold skip_backward. destruct p as [q|].
  - rewrite skip_backward_stop by (by eapply valid_derived). exists c. split; [done|]. by eapply lands_at.
  - apply (skip_backward_ok fuel c L (Some j)); [done|unfold exhausted; rewrite Hd; eauto|].
    simpl. pose proof (og_fuel _ (proj1 Hh)). apply lookup_lt_Some in HB.
    unfold blocks_of in HB. rewrite length_fmap in HB. lia.
Qed.

Lemma land_none_fwd c L : healthy c L None → ci_derived c = None →
  ∃ c', skip_forward fuel c = Ok c' ∧ lands c' L None.
Proof.
  intros Hh Hd. pose proof (og_fuel _ (proj1 Hh)). unfold skip_forward.
  destruct fuel as [|n]; [lia|]. apply skip_forward_end; [done|]. unfold exhausted. by rewrite Hd.
Qed.
Lemma land_none_bwd c L : healthy c L None → ci_derived c = None →
  ∃ c', skip_backward fuel c = Ok c' ∧ lands c' L None.
Proof.
  intros Hh Hd. pose proof (og_fuel _ (proj1 Hh)).
  apply (skip_backward_ok fuel c L None); [done|unfold exhausted; by rewrite Hd|simpl; lia].
Qed.

Lemma joined_nil L : length L = 0 → mjoin (blocks_of L) = [].
Proof. by destruct L. Qed.

(** Seeking in the concatenation, in terms of the two levels. *)
Lemma seek_pos_joined L t : origin_ok L →
  seek_pos ord (mjoin (blocks_of L)) t =
  match seek_pos ord L t with
  | None => None
  | Some j =>
    match L !! j with
    | Some (_, v) =>
      match seek_pos ord (blk v) t with
      | Some q => Some (bstart (blocks_of L) j + q)
      | None => from_pos (mjoin (blocks_of L)) (bstart (blocks_of L) (S j))
      end
    | None => None
    end
  end.
Proof.
  intros Hog. set (l := mjoin (blocks_of L)).
  (* an entry of block [j'] is below the target when the origin key is *)
  assert (∀ j' k v e, L !! j' = Some (k, v) → ord k t = Lt → e ∈ blk v → ord e.1 t = Lt) as Hbelow.
  { intros j' k v e HL Hk He. pose proof (og_upper _ Hog _ _ _ _ HL He). by eapply (ord_le_lt_trans ord). }
  destruct (seek_pos ord L t) as [j|] eqn:HsL.
  - apply seek_pos_Some in HsL as [([k v] & HL & Hge) Hlt]. simpl in Hge. rewrite HL.
    pose proof (blocks_lookup _ _ _ _ HL) as HB.
    assert (∀ i e, i < bstart (blocks_of L) j → l !! i = Some e → ord e.1 t = Lt) as Hpre.
    { intros i e Hi He. apply joined_lookup_inv in He as (j' & b & q & HB' & Hq & ->).
      apply blocks_lookup_inv in HB' as (k' & v' & HL' & ->).
      assert (j' < j).
      { destruct (decide (j' < j)); [done|]. pose proof (bstart_le (blocks_of L) j j'). lia. }
      eapply Hbelow; [done|by apply (Hlt j' (k', v'))|]. by eapply list_elem_of_lookup_2. }
    destruct (seek_pos ord (blk v) t) as [q|] eqn:Hsb.
    + apply seek_pos_Some in Hsb as [(e & Hq & Hge') Hltb]. apply seek_pos_Some.
      apply lookup_lt_Some in Hq as Hqlt. unfold l. split.
      { exists e. by rewrite (joined_lookup _ _ _ _ HB). }
      intros i e' Hi He'. destruct (decide (i < bstart (blocks_of L) j)); [by eapply Hpre|].
      replace i with (bstart (blocks_of L) j + (i - bstart (blocks_of L) j)) in He' by lia.
      rewrite (joined_lookup _ _ _ _ HB) in He' by lia. eapply Hltb; [|done]. lia.
    + assert (∀ i e, i < bstart (blocks_of L) (S j) → l !! i = Some e → ord e.1 t = Lt) as Hpre'.
      { intros i e Hi He. destruct (decide (i < bstart (blocks_of L) j)); [by eapply Hpre|].
        rewrite (bstart_S _ _ _ HB) in Hi. unfold l in He.
        replace i with (bstart (blocks_of L) j + (i - bstart (blocks_of L) j)) in He by lia.
        rewrite (joined_lookup _ _ _ _ HB) in He by lia. apply seek_pos_None with (j := i - bstart (blocks_of L) j) (e := e) in Hsb; done. }
      unfold from_pos. fold l. case_decide as Hlen.
      * apply seek_pos_Some. split; [|done].
        destruct (lookup_lt_is_Some_2 l _ Hlen) as [e He]. exists e. split; [done|].
        apply joined_lookup_inv in He as (j' & b & q & HB' & Hq & Heq).
        apply blocks_lookup_inv in HB' as (k' & v' & HL' & ->).
        assert (j < j').
        { destruct (decide (j < j')); [done|]. apply lookup_lt_Some in Hq as Hqlt.
          pose proof (bstart_S _ _ _ (blocks_lookup _ _ _ _ HL')).
          pose proof (bstart_le (blocks_of L) (S j') (S j)). lia. }
        pose proof (og_lower _ Hog j j' _ _ _ _ e ltac:(done) HL HL' ltac:(by eapply list_elem_of_lookup_2)) as Hke.
        intros Het. apply Hge. by eapply (ord_lt_trans ord).
      * apply seek_pos_None. intros i e He. eapply Hpre'; [|done]. apply lookup_lt_Some in He. lia.
  - apply seek_pos_None. intros i e He. apply joined_lookup_inv in He as (j' & b & q & HB' & Hq & ->).
    apply blocks_lookup_inv in HB' as (k' & v' & HL' & ->).
    eapply Hbelow; [done|by apply (proj1 (seek_pos_None ord L t) HsL j' (k', v'))|].
    by eapply list_elem_of_lookup_2.
Qed.

Lemma concat_rep_lands c l p : concat_rep c l p → ∃ L p0, healthy c L p0 ∧ l = mjoin (blocks_of L).
Proof. intros (L & p0 & Hh & -> & _). eauto. Qed.

#[export] Instance concat_fwd :
  @FwdLaws _ (ConcatenateIterator_Iterator fuel) ord key_ok concat_rep.
Proof.
  split; simpl.
  - intros c l i (L & p0 & Hh & -> & j & b & q & di & -> & HB & Hd & Hr & ->).
    eapply bstart_lt_len; [done|]. exact (rep_lt ord key_ok _ _ _ Hr).
  - intros c l p (L & p0 & Hh & -> & Hp). destruct (Hh) as (_ & _ & He & _). unfold ci_valid. rewrite He.
    destruct p as [i|].
    + destruct Hp as (j & b & q & di & -> & HB & -> & Hr & ->). by apply (rep_valid ord key_ok _ _ _ Hr).
    + unfold derived_invalid in Hp. destruct (ci_derived c); [by apply negb_true_iff|done].
  - intros c l p (L & p0 & Hh & ->)%concat_rep_lands. destruct (Hh) as (Hog & Ho & He & Hpv & Hd).
    unfold ci_seek_to_first. destruct (rep_seek_to_first ord key_ok _ _ _ Ho) as (o & -> & Ho').
    rewrite Ok_bind. destruct (init_derived_ok (with_origin c o) L (first_pos L)) as (c1 & -> & Hh1 & Hd1);
      [by split_and!|]. rewrite Ok_bind. destruct L as [|e0 L0] eqn:HL0; cbn [first_pos] in *.
    + unfold on_derived. rewrite Hd1, Ok_bind. by apply land_none_fwd.
    + rewrite <- HL0 in *. destruct Hd1 as (k & v & di & HL & Hd1 & Hr1).
      pose proof (blocks_lookup _ _ _ _ HL) as HB.
      destruct (on_derived_ok it_seek_to_first c1 L _ di (blk v) None first_pos Hh1 Hd1 Hr1)
        as (c2 & di2 & -> & Hh2 & Hd2 & Hr2).
      { intros d p' Hr. exact (rep_seek_to_first ord key_ok _ _ _ Hr). }
      rewrite Ok_bind. destruct (land_forward c2 L 0 (blk v) di2 _ Hh2 HB Hd2 Hr2) as (c' & Hc' & Hl).
      exists c'. split; [done|]. rewrite first_from. destruct (blk v) as [|e b] eqn:Hblk.
      * rewrite (bstart_S _ _ _ HB), bstart_0 in Hl. exact Hl.
      * pose proof (bstart_lt_len _ _ _ 0 HB ltac:(simpl; lia)) as Hlen.
        unfold from_pos. rewrite decide_True by lia. exact Hl.
  - intros c l p t (L & p0 & Hh & ->)%concat_rep_lands Ht. destruct (Hh) as (Hog & Ho & He & Hpv & Hd).
    unfold ci_seek. destruct (rep_seek ord key_ok _ _ _ t Ho Ht) as (o & -> & Ho').
    rewrite Ok_bind. destruct (init_derived_ok (with_origin c o) L (seek_pos ord L t)) as (c1 & -> & Hh1 & Hd1);
      [by split_and!|]. rewrite Ok_bind, seek_pos_joined by done.
    destruct (seek_pos ord L t) as [j|] eqn:HsL.
    + destruct Hd1 as (k & v & di & HL & Hd1 & Hr1). rewrite HL.
      destruct (on_derived_ok (λ di, it_seek di t) c1 L _ di (blk v) None (λ l, seek_pos ord l t) Hh1 Hd1 Hr1)
        as (c2 & di2 & -> & Hh2 & Hd2 & Hr2).
      { intros d p' Hr. exact (rep_seek ord key_ok _ _ _ t Hr Ht). }
      rewrite Ok_bind. eapply land_forward; eauto using blocks_lookup.
    + unfold on_derived. rewrite Hd1, Ok_bind. by apply land_none_fwd.
  - intros c l i (L & p0 & Hh & -> & j & b & q & di & -> & HB & Hd & Hr & ->).
    unfold ci_next. destruct (Hh) as (Hog & Ho & He & Hpv & _).
    rewrite assert_true, Ok_bind
      by (unfold ci_valid; by rewrite He, Hd, (rep_valid ord key_ok _ _ _ Hr)).
    destruct (rep_next ord key_ok _ _ _ Hr) as (di' & Hn & Hr'). unfold on_derived.
    rewrite Hd, Hn, !Ok_bind.
    destruct (land_forward (with_derived c (Some di')) L j b di' (next_pos b q)) as (c' & Hc' & Hl);
      [split_and!; try done; simpl; eauto|done..|]. exists c'. split; [done|].
    pose proof (bstart_S _ _ _ HB) as HS. pose proof (rep_lt ord key_ok _ _ _ Hr) as Hq.
    unfold next_pos in *. case_decide as Hq'.
    + pose proof (bstart_lt_len _ _ _ _ HB Hq'). rewrite decide_True by lia.
      by rewrite Nat.add_succ_r in Hl.
    + unfold from_pos in Hl. replace (bstart (blocks_of L) (S j)) with (S (bstart (blocks_of L) j + q)) in Hl by lia.
      done.
  - intros c l i e (L & p0 & Hh & -> & j & b & q & di & -> & HB & Hd & Hr & ->) Hl.
    destruct (Hh) as (_ & _ & He & _). unfold ci_key.
    rewrite assert_true, Ok_bind, Hd by (unfold ci_valid; by rewrite He, Hd, (rep_valid ord key_ok _ _ _ Hr)).
    pose proof (rep_lt ord key_ok _ _ _ Hr). rewrite (joined_lookup _ _ _ _ HB) in Hl by done.
    exact (rep_key ord key_ok _ _ _ _ Hr Hl).
  - intros c l i e (L & p0 & Hh & -> & j & b & q & di & -> & HB & Hd & Hr & ->) Hl.
    destruct (Hh) as (_ & _ & He & _). unfold ci_value.
    rewrite assert_true, Ok_bind, Hd by (unfold ci_valid; by rewrite He, Hd, (rep_valid ord key_ok _ _ _ Hr)).
    pose proof (rep_lt ord key_ok _ _ _ Hr). rewrite (joined_lookup _ _ _ _ HB) in Hl by done.
    exact (rep_value ord key_ok _ _ _ _ Hr Hl).
  - intros c l p (L & p0 & Hh & -> & Hp). destruct (Hh) as (Hog & Ho & He & Hpv & Hdd).
    destruct (rep_status ord key_ok _ _ _ Ho) as (o & Hso & Ho'). unfold ci_status. rewrite Hso. simpl.
    destruct (ci_derived c) as [di|] eqn:Hd.
    + destruct p as [i|].
      * destruct Hp as (j & b & q & di' & -> & HB & [= <-] & Hr & ->).
        destruct (rep_status ord key_ok _ _ _ Hr) as (di' & Hsd & Hr'). rewrite Hsd. simpl. rewrite He.
        eexists. split; [done|]. exists L, (Some j). split; [split_and!; try done; simpl; eauto|].
        split; [done|]. simpl. eauto 10.
      * destruct Hdd as (l & p & Hr). destruct (rep_status ord key_ok _ _ _ Hr) as (di' & Hsd & Hr').
        rewrite Hsd. simpl. rewrite He. eexists. split; [done|]. exists L, p0.
        split; [split_and!; try done; simpl; eauto|]. split; [done|]. unfold derived_invalid in *. simpl.
        rewrite Hd in Hp. by rewrite (rep_valid ord key_ok _ _ _ Hr'), <- (rep_valid ord key_ok _ _ _ Hr).
    + simpl. rewrite He. eexists. split; [done|]. exists L, p0.
      split; [split_and!; try done; simpl; by rewrite Hd|].
      split; [done|]. destruct p as [i|]; [|unfold derived_invalid; simpl; by rewrite Hd].
      by destruct Hp as (? & ? & ? & ? & _ & _ & ? & _).
Qed.

#[export] Instance concat_bwd : @BwdLaws _ (ConcatenateIterator_Iterator fuel) concat_rep.
Proof.
  split; simpl.
  - intros c l p (L & p0 & Hh & ->)%concat_rep_lands. destruct (Hh) as (Hog & Ho & He & Hpv & Hd).
    unfold ci_seek_to_last. destruct (rep_seek_to_last _ _ _ Ho) as (o & -> & Ho').
    rewrite Ok_bind. destruct (init_derived_ok (with_origin c o) L (last_pos L)) as (c1 & -> & Hh1 & Hd1);
      [by split_and!|]. rewrite Ok_bind. destruct L as [|e0 L0] eqn:HL0; cbn [last_pos] in *.
    + unfold on_derived. rewrite Hd1, Ok_bind. by apply land_none_bwd.
    + rewrite <- HL0 in *. destruct Hd1 as (k & v & di & HL & Hd1 & Hr1).
      pose proof (blocks_lookup _ _ _ _ HL) as HB. set (j := length L - 1) in *.
      destruct (on_derived_ok it_seek_to_last c1 L _ di (blk v) None last_pos Hh1 Hd1 Hr1)
        as (c2 & di2 & -> & Hh2 & Hd2 & Hr2).
      { intros d p' Hr. exact (rep_seek_to_last _ _ _ Hr). }
      rewrite Ok_bind. destruct (land_backward c2 L j (blk v) di2 _ Hh2 HB Hd2 Hr2) as (c' & Hc' & Hl).
      exists c'. split; [done|]. assert (length (mjoin (blocks_of L)) = bstart (blocks_of L) j + length (blk v)) as Hlen.
      { rewrite <- (bstart_S _ _ _ HB). apply lookup_lt_Some in HL. symmetry. apply bstart_ge.
        unfold blocks_of. rewrite length_fmap. unfold j in *. lia. }
      assert (last_pos (mjoin (blocks_of L)) =
        match last_pos (blk v) with Some q => Some (bstart (blocks_of L) j + q)
          | None => to_pos (bstart (blocks_of L) j) end) as ->; [|done].
      unfold last_pos. destruct (blk v) as [|e b]; simpl in Hlen.
      * rewrite Nat.add_0_r in Hlen. rewrite <- Hlen. destruct (mjoin (blocks_of L)); [done|]. simpl.
        by rewrite Nat.sub_0_r.
      * destruct (mjoin (blocks_of L)); simpl in *; [lia|]. f_equal. lia.
  - intros c l i (L & p0 & Hh & -> & j & b & q & di & -> & HB & Hd & Hr & ->).
    unfold ci_prev. destruct (Hh) as (Hog & Ho & He & Hpv & _).
    rewrite assert_true, Ok_bind
      by (unfold ci_valid; by rewrite He, Hd, (rep_valid ord key_ok _ _ _ Hr)).
    destruct (rep_prev _ _ _ Hr) as (di' & Hn & Hr'). unfold on_derived.
    rewrite Hd, Hn, !Ok_bind.
    destruct (land_backward (with_derived c (Some di')) L j b di' (prev_pos q)) as (c' & Hc' & Hl);
      [split_and!; try done; simpl; eauto|done..|]. exists c'. split; [done|].
    destruct q as [|q]; simpl in Hl; [by rewrite Nat.add_0_r|]. by rewrite Nat.add_succ_r.
Qed.

(** A new iterator over a healthy origin. *)
Lemma concat_new_rep o L p0 : origin_ok L → repO o L p0 →
  concat_rep (concat_new o) (mjoin (blocks_of L)) None.
Proof. intros Hog Ho. exists L, p0. by split_and!. Qed.
End ConcatFacts.
