(* ===== verification/Filter.v ===== *)
(** * Filters: [src/filter/mod.rs], [src/filter/bloom.rs], the
      [InternalFilterPolicy] of [src/db/format.rs] and the filter block of
      [src/sstable/filter_block.rs]

    The [FilterPolicy] trait is a class; its law is the absence of false
    negatives.  The Bloom filter and its wrapper for internal keys are
    instances, and the filter block is proved against the interface. *)
From S2P Require Import Prelude Coding Comparator Format.
Open Scope Z_scope.

(** ** The trait *)
Class FilterPolicy : Type := {
  fp_name : string;
  may_contain : bytes → bytes → outcome bool;
  create_filter : list bytes → outcome bytes;
}.

(** What the users of a policy rely on: a key the filter was created from is
    never excluded.  [fits] bounds the number of keys of one filter. *)
Class FilterPolicyLaws (P : FilterPolicy) (fits : list bytes → Prop) : Prop := {
  no_false_negative keys f k :
    fits keys → create_filter keys = Ok f → k ∈ keys → may_contain f k = Ok true
}.

(** ** The Bloom filter *)
Record BloomFilter : Type := mkBloom { bf_k : Z; bf_bits_per_key : Z }.

(** [BloomFilter::new].  [bits_per_key as f32 * 0.69] is clipped to [1, 30] and
    truncated; below the clipping point (43 bits per key) the product is far
    enough from an integer for the rounding of [f32] not to matter. *)
Definition bloom_new (bits_per_key : Z) : BloomFilter :=
  mkBloom (1 `max` (30 `min` (bits_per_key * 69 / 100))) bits_per_key.

Definition BLOOM_SEED : Z := 0xc6a4a793.
Definition bloom_hash (ck : bool) (data : bytes) : outcome Z := hash ck data BLOOM_SEED.

(** [(h >> 17) | (h << 15)] *)
Definition bloom_delta (h : Z) : Z := Z.lor (shr32 h 17) (shl32 h 15).

(** The probe loop of [may_contain]. *)
Fixpoint bloom_probe (n : nat) (filter : bytes) (bits h delta : Z) : outcome bool :=
  match n with
  | O => Ok true
  | S n =>
    if bits =? 0 then Panic else
    let bit_pos := h mod bits in
    b ← index filter (Z.to_nat (bit_pos / 8));
    if Z.land b (Z.shiftl 1 (bit_pos mod 8)) =? 0 then Ok false
    else bloom_probe n filter bits (wrap 32 (h + delta)) delta
  end.

Definition bloom_may_contain (ck : bool) (filter key : bytes) : outcome bool :=
  n ← usub ck 64 (len filter) 1;
  if bool_decide (filter = []) || (n <? 1) then Ok false else
  let bits := n * 8 in
  k ← index filter (Z.to_nat n);
  if 30 <? k then Ok true else
  h ← bloom_hash ck key;
  bloom_probe (Z.to_nat k) filter (wrap 32 bits) h (bloom_delta h).

(** The inner loop of [create_filter]. *)
Fixpoint bloom_set (n : nat) (dst : bytes) (bits h delta : Z) : outcome bytes :=
  match n with
  | O => Ok dst
  | S n =>
    if bits =? 0 then Panic else
    let bit_pos := h mod bits in
    let i := Z.to_nat (bit_pos / 8) in
    b ← index dst i;
    bloom_set n (<[i := Z.lor b (Z.shiftl 1 (bit_pos mod 8))]> dst) bits
      (wrap 32 (h + delta)) delta
  end.

Fixpoint bloom_add_keys (ck : bool) (k : Z) (bits : Z) (dst : bytes) (keys : list bytes)
    : outcome bytes :=
  match keys with
  | [] => Ok dst
  | key :: keys =>
    h ← bloom_hash ck key;
    dst ← bloom_set (Z.to_nat k) dst bits h (bloom_delta h);
    bloom_add_keys ck k bits dst keys
  end.

Definition bloom_bytes (f : BloomFilter) (keys : list bytes) : Z :=
  let bits := len keys * bf_bits_per_key f in
  let bits := if bits <? 64 then 64 else bits in
  (bits + 7) / 8.

Definition bloom_create_filter (ck : bool) (f : BloomFilter) (keys : list bytes) : outcome bytes :=
  let bytes_ := bloom_bytes f keys in
  let bits := bytes_ * 8 in
  let dst := <[Z.to_nat bytes_ := wrap 8 (bf_k f)]> (replicate (Z.to_nat (bytes_ + 1)) 0) in
  bloom_add_keys ck (bf_k f) (wrap 32 bits) dst keys.

Definition bloom_policy (ck : bool) (f : BloomFilter) : FilterPolicy := {|
  fp_name := "wickdb.BuiltinBloomFilter";
  may_contain := bloom_may_contain ck;
  create_filter := bloom_create_filter ck f;
|}.

(** ** [InternalFilterPolicy]: the policy on the user keys *)
Fixpoint extract_user_keys (keys : list bytes) : outcome (list bytes) :=
  match keys with
  | [] => Ok []
  | k :: keys => u ← extract_user_key k; us ← extract_user_keys keys; Ok (u :: us)
  end.

Definition InternalFilterPolicy (user : FilterPolicy) : FilterPolicy := {|
  fp_name := @fp_name user;
  may_contain := λ filter key, user_key ← extract_user_key key; @may_contain user filter user_key;
  create_filter := λ keys, user_keys ← extract_user_keys keys; @create_filter user user_keys;
|}.

(** ** The filter block *)
Definition FILTER_BASE_LG : Z := 11.
Definition FILTER_BASE : Z := 2048.
Definition FILTER_META_LENGTH : nat := 5.
Definition FILTER_OFFSET_LEN : nat := 4.

Record FilterBlockBuilder : Type := mkFBB {
  fbb_keys : list bytes;
  fbb_data : bytes;
  fbb_filter_offsets : list Z;
}.

Definition fbb_new : FilterBlockBuilder := mkFBB [] [] [].

Definition fbb_add_key (b : FilterBlockBuilder) (key : bytes) : FilterBlockBuilder :=
  mkFBB (fbb_keys b ++ [key]) (fbb_data b) (fbb_filter_offsets b).

Section FilterBlock.
Context {P : FilterPolicy}.

Definition generate_filter (b : FilterBlockBuilder) : outcome FilterBlockBuilder :=
  let offsets := fbb_filter_offsets b ++ [wrap 32 (len (fbb_data b))] in
  if bool_decide (fbb_keys b = []) then Ok (mkFBB [] (fbb_data b) offsets)
  else
    filter ← create_filter (fbb_keys b);
    Ok (mkFBB [] (fbb_data b ++ filter) offsets).

(** [while filter_index > self.filter_offsets.len() { .. }] *)
Fixpoint generate_filters (fuel : nat) (b : FilterBlockBuilder) (filter_index : Z)
    : outcome FilterBlockBuilder :=
  if len (fbb_filter_offsets b) <? filter_index then
    match fuel with
    | O => OutOfFuel
    | S fuel => b ← generate_filter b; generate_filters fuel b filter_index
    end
  else Ok b.

Definition start_block (b : FilterBlockBuilder) (block_offset : Z) : outcome FilterBlockBuilder :=
  let filter_index := block_offset / FILTER_BASE in
  let filters_len := len (fbb_filter_offsets b) in
  _ ← rust_assert (filters_len <=? filter_index);
  generate_filters (Z.to_nat (filter_index - filters_len)) b filter_index.

Definition fbb_finish (b : FilterBlockBuilder) : outcome (bytes * FilterBlockBuilder) :=
  b ← (if bool_decide (fbb_keys b = []) then Ok b else generate_filter b);
  let data := fold_left put_fixed_32 (fbb_filter_offsets b) (fbb_data b) in
  let data := put_fixed_32 data (wrap 32 (len (fbb_filter_offsets b))) in
  let data := data ++ [FILTER_BASE_LG] in
  Ok (data, mkFBB (fbb_keys b) data (fbb_filter_offsets b)).

Record FilterBlockReader : Type := mkFBR {
  fbr_data : bytes;
  fbr_num : Z;
  fbr_base_lg : Z;
}.

Definition fbr_new (filter_block : bytes) : outcome FilterBlockReader :=
  let n := length filter_block in
  if bool_decide (n < FILTER_META_LENGTH)%nat then Ok (mkFBR [] 0 0) else
  meta ← slice filter_block (n - FILTER_META_LENGTH) (n - 1);
  let num := decode_fixed_32 meta in
  if bool_decide (num * 4 + 5 > Z.of_nat n) then Ok (mkFBR [] num 0) else
  base_lg ← index filter_block (n - 1);
  Ok (mkFBR (take (n - FILTER_META_LENGTH) filter_block) num base_lg).

Definition key_may_match (r : FilterBlockReader) (block_offset : Z) (key : bytes) : outcome bool :=
  let i := Z.shiftr block_offset (fbr_base_lg r) in
  if i <? fbr_num r then
    cut ← usub true 64 (len (fbr_data r)) (fbr_num r * 4);
    filter ← slice_to (fbr_data r) (Z.to_nat cut);
    offsets ← slice_from (fbr_data r) (Z.to_nat cut);
    s ← slice offsets (Z.to_nat (i * 4)) (Z.to_nat ((i + 1) * 4));
    let start := decode_fixed_32 s in
    end_ ← (if fbr_num r <=? i + 1 then Ok (len filter)
            else e ← slice offsets (Z.to_nat ((i + 1) * 4)) (Z.to_nat ((i + 2) * 4));
                 Ok (decode_fixed_32 e));
    filter ← slice (fbr_data r) (Z.to_nat start) (Z.to_nat end_);
    may_contain filter key
  else Ok true.
End FilterBlock.

(** ** Facts on the Bloom filter *)

(** Bit [p] of a filter: [filter[p / 8] & (1 << (p % 8)) != 0]. *)
Definition bit_set (f : bytes) (p : Z) : Prop :=
  ∃ b, f !! Z.to_nat (p / 8) = Some b ∧ Z.testbit b (p mod 8) = true.

(** [g] has every bit of [f] and the same length. *)
Definition more_bits (f g : bytes) : Prop :=
  length f = length g ∧ ∀ p, 0 ≤ p → bit_set f p → bit_set g p.

Lemma more_bits_refl f : more_bits f f.
Proof. done. Qed.
Lemma more_bits_trans f g h : more_bits f g → more_bits g h → more_bits f h.
Proof. intros [? ?] [? ?]. split; [congruence|eauto]. Qed.

Lemma land_bit b i : 0 ≤ i → (Z.land b (Z.shiftl 1 i) =? 0) = negb (Z.testbit b i).
Proof.
  intros Hi. rewrite Z.shiftl_1_l. destruct (Z.testbit b i) eqn:Hb.
  - apply Z.eqb_neq. intros H. apply (f_equal (λ x, Z.testbit x i)) in H.
    rewrite Z.land_spec, Z.pow2_bits_true, Hb, Z.bits_0 in H by done. done.
  - apply Z.eqb_eq, Z.bits_inj'. intros n Hn. rewrite Z.land_spec, Z.bits_0.
    destruct (decide (n = i)) as [->|]; [by rewrite Hb|]. by rewrite Z.pow2_bits_false, andb_false_r.
Qed.

Lemma set_bit_more f p b :
  0 ≤ p → f !! Z.to_nat (p / 8) = Some b →
  let g := <[Z.to_nat (p / 8) := Z.lor b (Z.shiftl 1 (p mod 8))]> f in
  more_bits f g ∧ bit_set g p.
Proof.
  intros Hp Hb g. apply lookup_lt_Some in Hb as Hlt. pose proof (Z.mod_pos_bound p 8 ltac:(lia)) as Hm.
  split.
  - split; [unfold g; by rewrite length_insert|]. intros q Hq (c & Hc & Ht). unfold bit_set, g.
    destruct (decide (Z.to_nat (q / 8) = Z.to_nat (p / 8))) as [Heq|Hne].
    + rewrite Heq, list_lookup_insert_eq by done. rewrite Heq in Hc. simplify_eq.
      eexists. split; [done|]. by rewrite Z.lor_spec, Ht.
    + rewrite list_lookup_insert_ne by done. eauto.
  - unfold bit_set, g. rewrite list_lookup_insert_eq by done. eexists. split; [done|].
    rewrite Z.shiftl_1_l, Z.lor_spec, Z.pow2_bits_true by lia. apply orb_true_r.
Qed.

(** The bits a key sets, in the order the loops visit them. *)
Fixpoint probes (n : nat) (bits h delta : Z) : list Z :=
  match n with O => [] | S n => h mod bits :: probes n bits (wrap 32 (h + delta)) delta end.

Lemma probes_nonneg n bits h delta p : 0 < bits → p ∈ probes n bits h delta → 0 ≤ p.
Proof.
  intros Hb. revert h. induction n as [|n IH]; intros h Hp; [by apply elem_of_nil in Hp|].
  apply elem_of_cons in Hp as [->|Hp]; [by apply Z.mod_pos_bound|by eapply IH].
Qed.

Lemma bloom_probe_ok n f bits h delta :
  0 < bits → (∀ p, p ∈ probes n bits h delta → bit_set f p) →
  bloom_probe n f bits h delta = Ok true.
Proof.
  intros Hbits. revert h. induction n as [|n IH]; intros h Hall; [done|]. cbn [bloom_probe probes] in *.
  rewrite (proj2 (Z.eqb_neq _ _)) by lia. cbv zeta.
  destruct (Hall (h mod bits)) as (b & Hb & Ht); [by left|].
  unfold index. rewrite Hb, Ok_bind, land_bit, Ht by (apply Z.mod_pos_bound; lia).
  apply IH. intros p Hp. apply Hall. by right.
Qed.

Lemma bloom_set_ok n f bits h delta g :
  0 < bits → bloom_set n f bits h delta = Ok g →
  more_bits f g ∧ ∀ p, p ∈ probes n bits h delta → bit_set g p.
Proof.
  intros Hbits. revert f h. induction n as [|n IH]; intros f h Hs; cbn [bloom_set probes] in *.
  { injection Hs as <-. split; [done|]. intros p Hp. by apply elem_of_nil in Hp. }
  rewrite (proj2 (Z.eqb_neq _ _)) in Hs by lia. cbv zeta in Hs.
  apply bind_Ok in Hs as (b & Hb & Hs). unfold index in Hb. case_match eqn:Hl; [|done].
  injection Hb as ->. pose proof (Z.mod_pos_bound h bits Hbits) as Hm.
  destruct (set_bit_more f (h mod bits) b) as [Hmore Hbit]; [lia|done|].
  apply IH in Hs as [Hmore' Hall]. split; [by eapply more_bits_trans|].
  intros p [->|Hp]%elem_of_cons; [|by apply Hall]. apply Hmore'; [lia|done].
Qed.

(** The byte that stores [k] lies behind the probed bits. *)
Lemma bloom_set_tail n f bits h delta g i :
  0 < bits → bits ≤ Z.of_nat i * 8 → bloom_set n f bits h delta = Ok g → g !! i = f !! i.
Proof.
  intros Hbits Hi. revert f h. induction n as [|n IH]; intros f h Hs; cbn [bloom_set] in Hs.
  { by injection Hs as <-. }
  rewrite (proj2 (Z.eqb_neq _ _)) in Hs by lia. cbv zeta in Hs.
  apply bind_Ok in Hs as (b & Hb & Hs). rewrite (IH _ _ Hs).
  pose proof (Z.mod_pos_bound h bits Hbits).
  assert (h mod bits / 8 < Z.of_nat i) by (apply Z.div_lt_upper_bound; lia).
  apply list_lookup_insert_ne. lia.
Qed.

Lemma bloom_add_keys_ok ck k bits f keys g i :
  0 < bits → bits ≤ Z.of_nat i * 8 → bloom_add_keys ck k bits f keys = Ok g →
  more_bits f g ∧ g !! i = f !! i ∧
  ∀ key, key ∈ keys → ∃ h, bloom_hash ck key = Ok h ∧
    ∀ p, p ∈ probes (Z.to_nat k) bits h (bloom_delta h) → bit_set g p.
Proof.
  intros Hbits Hi. revert f. induction keys as [|key keys IH]; intros f Hs; cbn [bloom_add_keys] in Hs.
  { injection Hs as <-. split_and!; [done|done|]. intros key Hk. by apply elem_of_nil in Hk. }
  apply bind_Ok in Hs as (h & Hh & Hs). apply bind_Ok in Hs as (f1 & Hf1 & Hs).
  apply (bloom_set_tail _ _ _ _ _ _ i) in Hf1 as Htl; [|done..].
  apply bloom_set_ok in Hf1 as [Hm1 Hall1]; [|done].
  apply IH in Hs as (Hm2 & Htl2 & Hall2). split_and!; [by eapply more_bits_trans|congruence|].
  intros key' [->|Hk]%elem_of_cons; [|by apply Hall2]. exists h. split; [done|].
  intros p Hp. apply Hm2; [by eapply probes_nonneg|by apply Hall1].
Qed.

(** The size of the filter fits [u32]. *)
Definition bloom_fits (f : BloomFilter) (keys : list bytes) : Prop :=
  bloom_bytes f keys * 8 < 2 ^ 32 ∧ 0 ≤ bf_bits_per_key f ∧ 1 ≤ bf_k f ≤ 30.

Lemma bloom_no_false_negative ck f keys g k :
  bloom_fits f keys → bloom_create_filter ck f keys = Ok g → k ∈ keys →
  bloom_may_contain ck g k = Ok true.
Proof.
  intros (Hfit & Hbpk & Hk1) Hg Hk. unfold bloom_create_filter in Hg. cbv zeta in Hg.
  set (n := bloom_bytes f keys) in *.
  assert (8 ≤ n) as Hn.
  { unfold n, bloom_bytes. cbv zeta. case_match eqn:Hlt; [done|]. apply Z.ltb_ge in Hlt.
    apply Z.div_le_lower_bound; lia. }
  rewrite (wrap_small 32 (n * 8)) in Hg by (unfold in_uint; lia).
  rewrite (wrap_small 8 (bf_k f)) in Hg by (unfold in_uint; lia).
  apply (bloom_add_keys_ok ck _ _ _ _ _ (Z.to_nat n)) in Hg as ((Hlen & _) & Htl & Hall); [|lia..].
  rewrite length_insert, length_replicate in Hlen.
  rewrite list_lookup_insert_eq in Htl by (rewrite length_replicate; lia).
  destruct (Hall k Hk) as (h & Hh & Hbits).
  unfold bloom_may_contain. assert (len g = n + 1) as Hlg by (unfold len; lia).
  unfold usub. rewrite Hlg, (proj2 (Z.leb_le _ _)), Ok_bind by lia.
  replace (n + 1 - 1) with n by lia.
  rewrite bool_decide_eq_false_2 by (intros ->; rewrite len_nil in Hlg; lia).
  rewrite (proj2 (Z.ltb_ge _ _)) by lia. cbn [orb]. cbv zeta.
  unfold index. rewrite Htl, Ok_bind, (proj2 (Z.ltb_ge _ _)), Hh, Ok_bind by lia.
  rewrite wrap_small by (unfold in_uint; lia). apply bloom_probe_ok; [lia|done].
Qed.

#[export] Instance bloom_laws ck f : FilterPolicyLaws (bloom_policy ck f) (bloom_fits f).
Proof. split. intros. by eapply bloom_no_false_negative. Qed.

(** Without overflow checks a filter is always created. *)
Lemma bloom_set_total n f bits h delta :
  0 < bits → bits ≤ len f * 8 → ∃ g, bloom_set n f bits h delta = Ok g ∧ length g = length f.
Proof.
  intros Hb. revert f h. induction n as [|n IH]; intros f h Hl; cbn [bloom_set]; [eauto|].
  rewrite (proj2 (Z.eqb_neq _ _)) by lia. cbv zeta. pose proof (Z.mod_pos_bound h bits Hb).
  assert (h mod bits / 8 < len f) by (apply Z.div_lt_upper_bound; lia).
  pose proof (Z.div_pos (h mod bits) 8 ltac:(lia) ltac:(lia)).
  destruct (lookup_lt_is_Some_2 f (Z.to_nat (h mod bits / 8))) as [b Hbl]; [unfold len in *; lia|].
  unfold index. rewrite Hbl, Ok_bind.
  match goal with |- context [bloom_set n ?x] => destruct (IH x (wrap 32 (h + delta))) as (g & Hg & Hlg) end.
  { unfold len in *. by rewrite length_insert. }
  exists g. rewrite length_insert in Hlg. done.
Qed.

Lemma bloom_create_total f keys :
  bloom_fits f keys → Forall bytes_ok keys → ∃ g, bloom_create_filter false f keys = Ok g ∧ g ≠ [].
Proof.
  intros (Hfit & Hbpk & Hk1) Hok. unfold bloom_create_filter. cbv zeta.
  set (n := bloom_bytes f keys) in *.
  assert (8 ≤ n) as Hn.
  { unfold n, bloom_bytes. cbv zeta. case_match eqn:Hlt; [done|]. apply Z.ltb_ge in Hlt.
    apply Z.div_le_lower_bound; lia. }
  rewrite (wrap_small 32 (n * 8)) by (unfold in_uint; lia).
  set (d := <[_ := _]> _).
  assert (length d = Z.to_nat (n + 1)) as Hd by (unfold d; by rewrite length_insert, length_replicate).
  clearbody d. revert d Hd. clearbody n. clear Hfit. induction Hok as [|key keys Hkey Hok IH]; intros d Hd.
  { exists d. split; [done|]. intros ->. simpl in Hd. lia. }
  cbn [bloom_add_keys]. destruct (hash_release_total key BLOOM_SEED Hkey) as (h & Hh & _); [done|].
  unfold bloom_hash. rewrite Hh, Ok_bind.
  destruct (bloom_set_total (Z.to_nat (bf_k f)) d (n * 8) h (bloom_delta h)) as (g & -> & Hg);
    [lia|unfold len; lia|]. rewrite Ok_bind. apply IH. congruence.
Qed.

(** The wrapper inherits the law from the user policy. *)
Lemma extract_user_keys_elem keys us k :
  extract_user_keys keys = Ok us → k ∈ keys → ∃ u, extract_user_key k = Ok u ∧ u ∈ us.
Proof.
  revert us. induction keys as [|k' keys IH]; intros us Hus Hk; [by apply elem_of_nil in Hk|].
  cbn [extract_user_keys] in Hus. apply bind_Ok in Hus as (u & Hu & Hus).
  apply bind_Ok in Hus as (us' & Hus' & [= <-]).
  apply elem_of_cons in Hk as [->|Hk]; [exists u; split; [done|left]|].
  destruct (IH _ Hus' Hk) as (u' & ? & ?). exists u'. split; [done|by right].
Qed.

#[export] Instance internal_filter_laws P fits : FilterPolicyLaws P fits →
  FilterPolicyLaws (InternalFilterPolicy P)
    (λ keys, ∀ us, extract_user_keys keys = Ok us → fits us).
Proof.
  intros HP. split. intros keys f k Hfits Hf Hk. simpl in *.
  apply bind_Ok in Hf as (us & Hus & Hf).
  destruct (extract_user_keys_elem _ _ _ Hus Hk) as (u & -> & Hu). simpl.
  by apply (no_false_negative us f u (Hfits _ Hus)).
Qed.

(** ** Facts on the filter block *)
Section FilterBlockFacts.
Context {P : FilterPolicy} {fits : list bytes → Prop} {LAWS : FilterPolicyLaws P fits}.

(** The way a table is built: for each data block, [start_block] with its offset,
    then [add_key] for its keys. *)
Fixpoint fb_build (b : FilterBlockBuilder) (blocks : list (Z * list bytes))
    : outcome FilterBlockBuilder :=
  match blocks with
  | [] => Ok b
  | (o, ks) :: rest => b ← start_block b o; fb_build (fold_left fbb_add_key ks b) rest
  end.

(** The filter stored for index [i] contains [k]. *)
Definition covered (Fs : list bytes) (i : nat) (k : bytes) : Prop :=
  ∃ ks f, Fs !! i = Some f ∧ fits ks ∧ create_filter ks = Ok f ∧ k ∈ ks.

Definition filter_index (o : Z) : nat := Z.to_nat (o / FILTER_BASE).

(** [Fs]: the filters generated so far; [added]: the (block offset, key) pairs.
    [all] bounds the keys. *)
Record fbinv (all : list bytes) (b : FilterBlockBuilder) (Fs : list bytes)
    (added : list (Z * bytes)) : Prop := {
  fb_data : fbb_data b = mjoin Fs;
  fb_offs : fbb_filter_offsets b = (λ i, wrap 32 (len (mjoin (take i Fs)))) <$> seq 0 (length Fs);
  fb_added o k : (o, k) ∈ added →
    covered Fs (filter_index o) k ∨ (k ∈ fbb_keys b ∧ filter_index o = length Fs);
  fb_keys_in k : k ∈ fbb_keys b → k ∈ all;
  fb_keys_len : (length (fbb_keys b) ≤ length added)%nat;
}.

Context (all : list bytes).
Hypothesis all_fits : ∀ ks, (∀ k, k ∈ ks → k ∈ all) → (length ks ≤ length all)%nat →
  fits ks ∧ ∃ f, create_filter ks = Ok f.

Lemma fb_offs_len b Fs added : fbinv all b Fs added → len (fbb_filter_offsets b) = len Fs.
Proof. intros Hb. rewrite (fb_offs _ _ _ _ Hb). unfold len. by rewrite length_fmap, length_seq. Qed.

Lemma offs_snoc_eq (Fs : list bytes) f :
  ((λ i, wrap 32 (len (mjoin (take i Fs)))) <$> seq 0 (length Fs)) ++ [wrap 32 (len (mjoin Fs))] =
  (λ i, wrap 32 (len (mjoin (take i (Fs ++ [f]))))) <$> seq 0 (length (Fs ++ [f])).
Proof.
  rewrite length_app. simpl. rewrite Nat.add_1_r, seq_S, fmap_app. simpl. f_equal.
  - apply list_fmap_ext. intros i j Hj. apply lookup_seq in Hj as [-> ?].
    by rewrite take_app_le by lia.
  - by rewrite take_app_length.
Qed.

Lemma generate_filter_ok b Fs added :
  fbinv all b Fs added → (length added ≤ length all)%nat →
  ∃ b' f, generate_filter b = Ok b' ∧ fbinv all b' (Fs ++ [f]) added ∧ fbb_keys b' = [].
Proof.
  intros Hb Hlen. destruct Hb as [Hd Ho Ha Hin Hkl]. unfold generate_filter. cbv zeta.
  rewrite Ho, Hd. case_bool_decide as Hnil.
  - eexists _, []. split; [done|]. split; [|done]. split; simpl.
    + rewrite join_app. simpl. by rewrite !app_nil_r.
    + apply offs_snoc_eq.
    + intros o k [Hc|[Hk _]]%Ha; [|rewrite Hnil in Hk; by apply elem_of_nil in Hk].
      left. destruct Hc as (ks & f & Hf & ?). exists ks, f. rewrite lookup_app_l; [done|].
      by eapply lookup_lt_Some.
    + intros k Hk. by apply elem_of_nil in Hk.
    + lia.
  - destruct (all_fits (fbb_keys b) Hin) as [Hfits [f Hf]]; [lia|]. rewrite Hf, Ok_bind.
    eexists _, f. split; [done|]. split; [|done]. split; simpl.
    + rewrite join_app. simpl. by rewrite app_nil_r.
    + apply offs_snoc_eq.
    + intros o k [Hc|[Hk Hi]]%Ha; left.
      * destruct Hc as (ks & f' & Hf' & ?). exists ks, f'. rewrite lookup_app_l; [done|].
        by eapply lookup_lt_Some.
      * exists (fbb_keys b), f. rewrite Hi, lookup_app_r, Nat.sub_diag by lia. done.
    + intros k Hk. by apply elem_of_nil in Hk.
    + lia.
Qed.

Lemma generate_filters_ok fuel b Fs added idx :
  fbinv all b Fs added → (length added ≤ length all)%nat →
  len Fs ≤ idx → idx - len Fs ≤ Z.of_nat fuel →
  ∃ b' Fs', generate_filters fuel b idx = Ok b' ∧ fbinv all b' Fs' added ∧ len Fs' = idx.
Proof.
  intros Hb Hlen. revert b Fs Hb. induction fuel as [|fuel IH]; intros b Fs Hb Hle Hf;
    cbn [generate_filters]; rewrite (fb_offs_len _ _ _ Hb);
    destruct (Z.ltb_spec (len Fs) idx); try (exists b, Fs; split_and!; [done|done|lia]); [lia|].
  destruct (generate_filter_ok b Fs added Hb Hlen) as (b1 & f & -> & Hb1 & _). rewrite Ok_bind.
  apply (IH _ _ Hb1); rewrite len_app; unfold len at 2; simpl; lia.
Qed.

Lemma start_block_ok b Fs added o :
  fbinv all b Fs added → (length added ≤ length all)%nat → 0 ≤ o → len Fs ≤ o / FILTER_BASE →
  ∃ b' Fs', start_block b o = Ok b' ∧ fbinv all b' Fs' added ∧ len Fs' = o / FILTER_BASE.
Proof.
  intros Hb Hlen Ho Hle. unfold start_block. cbv zeta. rewrite (fb_offs_len _ _ _ Hb).
  rewrite assert_true, Ok_bind by (by apply Z.leb_le).
  apply (generate_filters_ok _ _ Fs); [done..|lia].
Qed.

Lemma add_keys_ok b Fs added o ks :
  fbinv all b Fs added → filter_index o = length Fs → (∀ k, k ∈ ks → k ∈ all) →
  fbinv all (fold_left fbb_add_key ks b) Fs (added ++ ((λ k, (o, k)) <$> ks)).
Proof.
  intros Hb Hi. revert b added Hb. induction ks as [|k ks IH]; intros b added Hb Hin; simpl.
  { by rewrite app_nil_r. }
  rewrite cons_middle, app_assoc. apply IH; [|intros k' Hk'; apply Hin; by right].
  destruct Hb as [Hd Ho Ha Hkin Hkl]. split; simpl; try done.
  - intros o' k' [Hold|Hnew]%elem_of_app.
    + destruct (Ha _ _ Hold) as [|[? ?]]; [by left|right]. rewrite elem_of_app. tauto.
    + apply list_elem_of_singleton in Hnew as [= -> ->]. right. rewrite elem_of_app, list_elem_of_singleton. auto.
  - intros k' [?|Heq%list_elem_of_singleton]%elem_of_app; [auto|]. subst. apply Hin. by left.
  - rewrite !length_app. simpl. lia.
Qed.

(** All pairs of (block offset, key) of a list of blocks. *)
Definition pairs_of (blocks : list (Z * list bytes)) : list (Z * bytes) :=
  blocks ≫= λ '(o, ks), (λ k, (o, k)) <$> ks.

(** The offsets never decrease. *)
Fixpoint offsets_ok (prev : Z) (blocks : list (Z * list bytes)) : Prop :=
  match blocks with
  | [] => True
  | (o, _) :: rest => prev ≤ o ∧ offsets_ok o rest
  end.

Lemma fb_build_ok b Fs added blocks prev :
  fbinv all b Fs added → 0 ≤ prev → len Fs ≤ prev / FILTER_BASE → offsets_ok prev blocks →
  (length added + length (pairs_of blocks) ≤ length all)%nat →
  (∀ o k, (o, k) ∈ pairs_of blocks → k ∈ all) →
  ∃ b' Fs', fb_build b blocks = Ok b' ∧ fbinv all b' Fs' (added ++ pairs_of blocks).
Proof.
  revert b Fs added prev. induction blocks as [|[o ks] blocks IH]; intros b Fs added prev Hb Hp Hle Hoff Hlen Hin.
  { exists b, Fs. split; [done|]. unfold pairs_of. simpl. by rewrite app_nil_r. }
  destruct Hoff as [Ho Hoff]. change (pairs_of ((o, ks) :: blocks)) with (((λ k, (o, k)) <$> ks) ++ pairs_of blocks) in *.
  rewrite length_app, length_fmap in Hlen. cbn [fb_build].
  assert (prev / FILTER_BASE ≤ o / FILTER_BASE) by (apply Z.div_le_mono; [done|lia]).
  destruct (start_block_ok b Fs added o Hb) as (b1 & Fs1 & -> & Hb1 & Hl1); [lia..|].
  rewrite Ok_bind, app_assoc.
  assert (fbinv all (fold_left fbb_add_key ks b1) Fs1 (added ++ ((λ k, (o, k)) <$> ks))) as Hb2.
  { apply add_keys_ok; [done|unfold filter_index, len in *; lia|]. intros k Hk. apply (Hin o).
    apply elem_of_app. left. by apply list_elem_of_fmap_2. }
  apply (IH _ _ _ o Hb2); [lia|lia|done| |].
  - rewrite length_app, length_fmap. lia.
  - intros o' k' Hk'. apply (Hin o'). apply elem_of_app. by right.
Qed.

(** The finished block, and the final filters. *)
Lemma fbb_finish_ok b Fs added :
  fbinv all b Fs added → (length added ≤ length all)%nat →
  ∃ data b' Fs', fbb_finish b = Ok (data, b') ∧
    data = mjoin Fs' ++ le4s ((λ i, wrap 32 (len (mjoin (take i Fs')))) <$> seq 0 (length Fs'))
           ++ to_le_bytes 4 (wrap 32 (len Fs')) ++ [FILTER_BASE_LG] ∧
    ∀ o k, (o, k) ∈ added → covered Fs' (filter_index o) k.
Proof.
  intros Hb Hlen. unfold fbb_finish.
  assert (∃ b1 Fs1, (if bool_decide (fbb_keys b = []) then Ok b else generate_filter b) = Ok b1 ∧
    fbinv all b1 Fs1 added ∧ fbb_keys b1 = []) as (b1 & Fs1 & -> & Hb1 & Hk1).
  { case_bool_decide; [by exists b, Fs|].
    destruct (generate_filter_ok b Fs added Hb Hlen) as (b1 & f & ? & ? & ?). eauto. }
  rewrite Ok_bind. eexists _, _, Fs1. split; [done|]. split.
  - rewrite put_fixed_32_eq, fold_put_fixed_32, (fb_offs_len _ _ _ Hb1), (fb_data _ _ _ _ Hb1), (fb_offs _ _ _ _ Hb1).
    by rewrite <- !app_assoc.
  - intros o k [?|[Hk _]]%(fb_added _ _ _ _ Hb1); [done|]. rewrite Hk1 in Hk. by apply elem_of_nil in Hk.
Qed.

Definition filter_offs (Fs : list bytes) : list Z :=
  (λ i, wrap 32 (len (mjoin (take i Fs)))) <$> seq 0 (length Fs).

Lemma filter_offs_lookup Fs i :
  (i < length Fs)%nat → len (mjoin Fs) < 2 ^ 32 →
  filter_offs Fs !! i = Some (len (mjoin (take i Fs))).
Proof.
  intros Hi Hsz. unfold filter_offs. rewrite list_lookup_fmap, lookup_seq_lt by done. simpl.
  rewrite wrap_small; [done|]. split; [apply len_nonneg|].
  rewrite <- (take_drop i Fs), join_app, len_app in Hsz. pose proof (len_nonneg (mjoin (drop i Fs))). lia.
Qed.

Lemma fbr_new_ok Fs D :
  D = mjoin Fs ++ le4s (filter_offs Fs) ++ to_le_bytes 4 (wrap 32 (len Fs)) ++ [FILTER_BASE_LG] →
  len D < 2 ^ 32 →
  fbr_new D = Ok (mkFBR (mjoin Fs ++ le4s (filter_offs Fs)) (len Fs) FILTER_BASE_LG).
Proof.
  intros HD Hsz. pose proof (len_nonneg Fs). pose proof (len_nonneg (mjoin Fs)).
  assert (length (le4s (filter_offs Fs)) = 4 * length Fs)%nat as Hlo.
  { rewrite length_le4s. unfold filter_offs. by rewrite length_fmap, length_seq. }
  assert (length D = length (mjoin Fs) + 4 * length Fs + 5)%nat as HlD.
  { rewrite HD, !length_app, Hlo, length_to_le_bytes. simpl. lia. }
  rewrite wrap_small in HD by (unfold in_uint; unfold len in *; lia).
  unfold fbr_new, FILTER_META_LENGTH. rewrite bool_decide_eq_false_2 by lia.
  assert (slice D (length D - 5) (length D - 1) = Ok (to_le_bytes 4 (len Fs))) as ->.
  { rewrite HlD, HD, app_assoc. apply slice_mid; rewrite length_app, Hlo, ?length_to_le_bytes; lia. }
  rewrite Ok_bind, <- (app_nil_r (to_le_bytes 4 (len Fs))), decode_fixed_32_app
    by (unfold in_uint; unfold len in *; lia).
  rewrite bool_decide_eq_false_2 by (unfold len; lia).
  assert (index D (length D - 1) = Ok FILTER_BASE_LG) as ->.
  { unfold index. rewrite HlD, HD, !app_assoc.
    assert (length ((mjoin Fs ++ le4s (filter_offs Fs)) ++ to_le_bytes 4 (len Fs)) =
      length (mjoin Fs) + 4 * length Fs + 5 - 1)%nat as <-.
    { rewrite !length_app, Hlo, length_to_le_bytes. lia. }
    by rewrite list_lookup_middle. }
  rewrite Ok_bind. f_equal. f_equal. rewrite HlD, HD, app_assoc.
  apply take_app_length'. rewrite length_app, Hlo. lia.
Qed.

Lemma key_may_match_ok Fs o f k :
  len (mjoin Fs) + 4 * len Fs + 5 < 2 ^ 32 → 0 ≤ o → Fs !! filter_index o = Some f →
  key_may_match (mkFBR (mjoin Fs ++ le4s (filter_offs Fs)) (len Fs) FILTER_BASE_LG) o k = may_contain f k.
Proof.
  intros Hsz Ho Hf. apply lookup_lt_Some in Hf as Hi. pose proof (len_nonneg (mjoin Fs)).
  pose proof (len_nonneg Fs).
  assert (Z.shiftr o FILTER_BASE_LG = Z.of_nat (filter_index o)) as Hsh.
  { unfold filter_index, FILTER_BASE_LG, FILTER_BASE. rewrite Z.shiftr_div_pow2 by lia.
    change (2 ^ 11) with 2048. pose proof (Z.div_pos o 2048). lia. }
  set (i := filter_index o) in *. unfold key_may_match. cbn [fbr_base_lg fbr_num fbr_data]. rewrite Hsh.
  assert (length (le4s (filter_offs Fs)) = 4 * length Fs)%nat as Hlo.
  { rewrite length_le4s. unfold filter_offs. by rewrite length_fmap, length_seq. }
  cbv zeta. rewrite (proj2 (Z.ltb_lt _ _)) by (unfold len; lia).
  assert (len (mjoin Fs ++ le4s (filter_offs Fs)) - len Fs * 4 = len (mjoin Fs)) as Hcut.
  { rewrite len_app. unfold len. lia. }
  unfold usub. rewrite (proj2 (Z.leb_le (len Fs * 4) _)), Ok_bind, Hcut by lia.
  replace (Z.to_nat (len (mjoin Fs))) with (length (mjoin Fs)) by (unfold len; lia).
  rewrite slice_to_ok, take_app_length, Ok_bind by (rewrite length_app; lia).
  rewrite slice_from_app, Ok_bind by done.
  assert (∀ j, (j < length Fs)%nat → ∀ a b, a = Z.of_nat j * 4 → b = a + 4 →
    (s ← slice (le4s (filter_offs Fs)) (Z.to_nat a) (Z.to_nat b); Ok (decode_fixed_32 s)) =
    Ok (len (mjoin (take j Fs)))) as Hoff.
  { intros j Hj a b -> ->. rewrite (le4s_slice _ j (len (mjoin (take j Fs))));
      [|by apply filter_offs_lookup; [|lia]|lia|lia].
    rewrite Ok_bind, <- (app_nil_r (to_le_bytes 4 _)), decode_fixed_32_app; [done|].
    split; [apply len_nonneg|]. assert (len (mjoin (take j Fs)) ≤ len (mjoin Fs)); [|lia].
    rewrite <- (take_drop j Fs) at 2. rewrite join_app, len_app. pose proof (len_nonneg (mjoin (drop j Fs))). lia. }
  pose proof (Hoff i Hi (Z.of_nat i * 4) ((Z.of_nat i + 1) * 4) eq_refl ltac:(lia)) as Hs.
  apply bind_Ok in Hs as (sb & -> & Hsb). rewrite Ok_bind. injection Hsb as ->.
  assert ((if len Fs <=? Z.of_nat i + 1 then Ok (len (mjoin Fs))
           else e ← slice (le4s (filter_offs Fs)) (Z.to_nat ((Z.of_nat i + 1) * 4)) (Z.to_nat ((Z.of_nat i + 2) * 4));
                Ok (decode_fixed_32 e)) = Ok (len (mjoin (take (S i) Fs)))) as ->.
  { destruct (Z.leb_spec (len Fs) (Z.of_nat i + 1)).
    - by rewrite take_ge by (unfold len in *; lia).
    - apply (Hoff (S i)); unfold len in *; lia. }
  rewrite Ok_bind.
  assert (mjoin Fs = mjoin (take i Fs) ++ f ++ mjoin (drop (S i) Fs)) as ->.
  { rewrite <- (take_drop_middle Fs i f Hf) at 1. by rewrite join_app. }
  rewrite <- !app_assoc.
  rewrite (slice_mid (mjoin (take i Fs)) f), Ok_bind; [done|unfold len; lia|].
  rewrite (take_S_r _ _ _ Hf), join_app, len_app. cbn. rewrite app_nil_r. unfold len. lia.
Qed.
End FilterBlockFacts.

(** ** Theorems *)

(** C38: a Bloom filter has no false negatives: whatever the keys, if the filter
    could be created and its size fits [u32], every key it was created from is
    reported as possibly contained. *)
Theorem bloom_complete (ck : bool) (bits_per_key : Z) (keys : list bytes) (filter key : bytes) :
  0 ≤ bits_per_key → len keys * bits_per_key + 71 < 2 ^ 32 →
  bloom_create_filter ck (bloom_new bits_per_key) keys = Ok filter → key ∈ keys →
  bloom_may_contain ck filter key = Ok true.
Proof.
  intros Hb Hn. apply bloom_no_false_negative. unfold bloom_fits, bloom_bytes. simpl. split_and!; [|lia..].
  pose proof (len_nonneg keys). case_match eqn:Hlt.
  - done.
  - pose proof (Z.div_mod (len keys * bits_per_key + 7) 8). 
    pose proof (Z.mod_pos_bound (len keys * bits_per_key + 7) 8). lia.
Qed.

Lemma bloom_complete_witness : bloom_may_contain false
  (match bloom_create_filter false (bloom_new 10) [[104; 105]; [120]] with Ok f => f | _ => [] end)
  [120] = Ok true.
Proof.
  apply (bloom_complete false 10 [[104; 105]; [120]]); [lia|done|vm_compute; reflexivity|].
  right. left.
Defined.

(** C37: the filter block has no false negatives.  Let the filter block be built as
    a table is: for each data block, in order of offset, [start_block] and then
    [add_key] for its keys; then [finish].  With any lawful policy this succeeds,
    and a reader over the result answers [true] for every key of every block at
    the offset of that block. *)
Theorem filter_block_complete {P : FilterPolicy} (fits : list bytes → Prop)
    `{!FilterPolicyLaws P fits} (blocks : list (Z * list bytes)) :
  let all := (pairs_of blocks).*2 in
  (∀ ks, (∀ k, k ∈ ks → k ∈ all) → (length ks ≤ length all)%nat →
     fits ks ∧ ∃ f, create_filter ks = Ok f) →
  offsets_ok 0 blocks →
  ∃ b data b', fb_build fbb_new blocks = Ok b ∧ fbb_finish b = Ok (data, b') ∧
    (len data < 2 ^ 32 → ∃ r, fbr_new data = Ok r ∧
       ∀ o k, (o, k) ∈ pairs_of blocks → 0 ≤ o → key_may_match r o k = Ok true).
Proof.
  intros all Hfits Hoff. assert (length (pairs_of blocks) = length all) as Hlen.
  { unfold all. by rewrite length_fmap. }
  destruct (fb_build_ok all Hfits fbb_new [] [] blocks 0) as (b & Fs & Hbuild & Hb); try done.
  { split; simpl; try done; intros; by apply elem_of_nil in H. }
  { simpl. lia. }
  { intros o k Hk. unfold all. by apply (list_elem_of_fmap_2 snd) in Hk. }
  destruct (fbb_finish_ok all Hfits b Fs _ Hb) as (data & b' & Fs' & Hfin & HD & Hcov); [simpl; lia|].
  exists b, data, b'. split_and!; [done..|]. intros Hsz. eexists. split; [by apply fbr_new_ok|].
  intros o k Hok Ho. destruct (Hcov o k Hok) as (ks & f & Hf & Hks & Hcr & Hin).
  rewrite (key_may_match_ok Fs' o f k); [by eapply no_false_negative| |done|done].
  rewrite HD, !len_app in Hsz. assert (len (filter_offs Fs') = len Fs') as Hl.
  { unfold len, filter_offs. by rewrite length_fmap, length_seq. }
  assert (len (le4s (filter_offs Fs')) = 4 * len Fs') by (unfold len in *; rewrite length_le4s; lia).
  assert (len (to_le_bytes 4 (wrap 32 (len Fs'))) = 4) by (unfold len; by rewrite length_to_le_bytes).
  assert (len [FILTER_BASE_LG] = 1) by done. fold (filter_offs Fs') in Hsz. lia.
Qed.

(** The overflow-free build of the Bloom filter satisfies the hypotheses. *)
Definition demo_blocks : list (Z * list bytes) := [(0, [[97]; [98]]); (5000, [[99]])].

Lemma filter_block_complete_witness :
  ∃ b data b', fb_build (P := bloom_policy false (bloom_new 10)) fbb_new demo_blocks = Ok b ∧
    fbb_finish (P := bloom_policy false (bloom_new 10)) b = Ok (data, b') ∧
    (len data < 2 ^ 32 → ∃ r, fbr_new data = Ok r ∧
       ∀ o k, (o, k) ∈ pairs_of demo_blocks → 0 ≤ o →
         key_may_match (P := bloom_policy false (bloom_new 10)) r o k = Ok true).
Proof.
  apply (filter_block_complete (P := bloom_policy false (bloom_new 10)) (bloom_fits (bloom_new 10))
           demo_blocks).
  - intros ks Hin Hl. assert (bloom_fits (bloom_new 10) ks) as Hfit.
    { unfold bloom_fits, bloom_bytes.
      assert (length ks ≤ 3)%nat by exact Hl. split_and!; [|vm_compute; discriminate..].
      cbn [bf_bits_per_key bloom_new]. cbv zeta. rewrite (proj2 (Z.ltb_lt _ _)) by (unfold len; lia). done. }
    split; [done|]. destruct (bloom_create_total (bloom_new 10) ks Hfit) as (f & ? & _); [|eauto].
    apply Forall_forall. intros k Hk. specialize (Hin k Hk).
    repeat (apply elem_of_cons in Hin as [->|Hin]; [repeat constructor; discriminate|]).
    by apply elem_of_nil in Hin.
  - vm_compute. repeat split; discriminate.
Defined.

(** [may_contain] subtracts one from the length before it tests for an empty
    filter: with overflow checks an empty filter panics. *)
Example bloom_empty_filter_panics : bloom_may_contain true [] [1] = Panic.
Proof. reflexivity. Qed.
