(* ===== verification/Table.v ===== *)
(** * Tables: [src/sstable/mod.rs] and [src/sstable/table.rs]

    Block handles and the footer, raw blocks with their checksummed trailers,
    [TableBuilder], [Table::open], [block_reader], [internal_get] and the table
    iterator.  The [snap] crate is a parameter with its law. *)
From S2P Require Import Prelude Coding Varint Comparator Storage Iterator Block Concat Filter.
Open Scope Z_scope.

Definition TABLE_MAGIC_NUMBER : Z := 0xdb4775248b80fb57.
Definition BLOCK_TRAILER_SIZE : Z := 5.
Definition MAX_BLOCK_HANDLE_ENCODE_LENGTH : nat := 20.
Definition FOOTER_ENCODED_LENGTH : nat := 48.

(** ** [BlockHandle] and [Footer] *)

Record BlockHandle : Type := mkHandle { bh_offset : Z; bh_size : Z }.

Definition bh_encoded_to (h : BlockHandle) (dst : bytes) : bytes :=
  let dst := (put_varint 64 dst (bh_offset h)).1 in
  (put_varint 64 dst (bh_size h)).1.
Definition bh_encoded (h : BlockHandle) : bytes := bh_encoded_to h [].

Definition bh_decode_from (src : bytes) : outcome (BlockHandle * Z) :=
  match read 64 src with
  | Some (offset, n) =>
    rest ← slice_from src (Z.to_nat n);
    match read 64 rest with
    | Some (size, m) => Ok (mkHandle offset size, m + n)
    | None => Err (Corruption "bad block handle")
    end
  | None => Err (Corruption "bad block handle")
  end.

Record Footer : Type := mkFooter { ft_meta_index_handle : BlockHandle; ft_index_handle : BlockHandle }.

Definition footer_decode_from (src : bytes) : outcome (Footer * Z) :=
  tl ← slice_from src (FOOTER_ENCODED_LENGTH - 8);
  if negb (decode_fixed_64 tl =? TABLE_MAGIC_NUMBER)
  then Err (Corruption "not an sstable (bad magic number)")
  else
    m ← bh_decode_from src;
    let '(meta, n) := m in
    rest ← slice_from src (Z.to_nat n);
    i ← bh_decode_from rest;
    let '(idx, k) := i in
    Ok (mkFooter meta idx, k + n).

Definition footer_encoded (f : Footer) : outcome bytes :=
  let v := bh_encoded_to (ft_meta_index_handle f) [] in
  let v := bh_encoded_to (ft_index_handle f) v in
  let v := resize (2 * MAX_BLOCK_HANDLE_ENCODE_LENGTH) 0 v in
  let v := put_fixed_64 v TABLE_MAGIC_NUMBER in
  _ ← rust_assert (bool_decide (length v = FOOTER_ENCODED_LENGTH));
  Ok v.

(** ** Compression *)

Inductive CompressionType : Type := NoCompression | SnappyCompression | UnknownCompression.

Definition compression_code (c : CompressionType) : Z :=
  match c with NoCompression => 0 | SnappyCompression => 1 | UnknownCompression => 2 end.

(** [impl From<u8> for CompressionType]: [from_u8(i).unwrap()]. *)
Definition compression_from (i : Z) : outcome CompressionType :=
  if i =? 0 then Ok NoCompression else
  if i =? 1 then Ok SnappyCompression else
  if i =? 2 then Ok UnknownCompression else Panic.

(** [snap::raw]: compression fails on inputs of 4 GiB and more; decompression
    into a buffer of the announced length recovers the input. *)
Class Snappy : Type := {
  snap_compress : bytes → option bytes;
  snap_decompress_len : bytes → option nat;
  snap_decompress : bytes → nat → option bytes;
}.
Class SnappyLaws `{Snappy} : Prop := {
  snap_compress_small d c : snap_compress d = Some c → len d < 2 ^ 32;
  (** The output starts with the length of the input. *)
  snap_compress_nonempty d c : snap_compress d = Some c → c ≠ [];
  snap_roundtrip d c : snap_compress d = Some c →
    snap_decompress_len c = Some (length d) ∧ snap_decompress c (length d) = Some d;
}.

Section Table.
Context {SN : Snappy} {CRC : Crc32} {F : Type} {FO : File F}.

Definition compress_block (raw_block : bytes) (c : CompressionType)
    : outcome (bytes * CompressionType) :=
  match c with
  | SnappyCompression =>
    match snap_compress raw_block with
    | Some buffer => Ok (buffer, SnappyCompression)
    | None => Err CompressionFailed
    end
  | NoCompression | UnknownCompression => Ok (raw_block, NoCompression)
  end.

(** The trailer [write_raw_block] puts behind a block. *)
Definition block_trailer (data : bytes) (c : CompressionType) : bytes :=
  put_fixed_32 [compression_code c]
    (mask (crc_extend (crc_hash data) [compression_code c])).

(** [read_block]; the file is only read through [read_exact_at], with fuel for
    reads of one byte at a time. *)
Definition read_block (file : F) (handle : BlockHandle) (verify_checksum : bool) : outcome bytes :=
  let n := Z.to_nat (bh_size handle) in
  buffer ← (read_exact_at (n + 6) file (n + Z.to_nat BLOCK_TRAILER_SIZE) (bh_offset handle)).1;
  bad ← (if verify_checksum then
           tl ← slice_from buffer (n + 1);
           hd ← slice_to buffer (n + 1);
           Ok (negb (unmask (decode_fixed_32 tl) =? crc_hash hd))
         else Ok false);
  if (bad : bool) then Err (Corruption "block checksum mismatch") else
  code ← index buffer n;
  ct ← compression_from code;
  match ct with
  | NoCompression => slice_to buffer (length buffer - Z.to_nat BLOCK_TRAILER_SIZE)
  | SnappyCompression =>
    src ← slice_to buffer n;
    match snap_decompress_len src with
    | Some l =>
      match snap_decompress src l with
      | Some d => Ok d
      | None => Err CompressionFailed
      end
    | None => Err CompressionFailed
    end
  | UnknownCompression => Err (Corruption "bad block compression type")
  end.

(** ** [TableBuilder] *)

Record TableBuilder : Type := mkTB {
  tb_file : F;
  tb_offset : Z;
  tb_data_block : BlockBuilder;
  tb_index_block : BlockBuilder;
  tb_last_key : bytes;
  tb_num_entries : nat;
  tb_closed : bool;
  tb_filter_block : option FilterBlockBuilder;
  tb_pending_index_entry : bool;
  tb_pending_handle : BlockHandle;
  tb_block_size : Z;
  tb_block_restart_interval : nat;
  tb_compression : CompressionType;
  tb_filter_policy : option FilterPolicy;
}.

Definition tb_set_file f tb := mkTB f (tb_offset tb) (tb_data_block tb) (tb_index_block tb)
  (tb_last_key tb) (tb_num_entries tb) (tb_closed tb) (tb_filter_block tb) (tb_pending_index_entry tb)
  (tb_pending_handle tb) (tb_block_size tb) (tb_block_restart_interval tb) (tb_compression tb) (tb_filter_policy tb).
Definition tb_set_offset o tb := mkTB (tb_file tb) o (tb_data_block tb) (tb_index_block tb)
  (tb_last_key tb) (tb_num_entries tb) (tb_closed tb) (tb_filter_block tb) (tb_pending_index_entry tb)
  (tb_pending_handle tb) (tb_block_size tb) (tb_block_restart_interval tb) (tb_compression tb) (tb_filter_policy tb).
Definition tb_set_data_block b tb := mkTB (tb_file tb) (tb_offset tb) b (tb_index_block tb)
  (tb_last_key tb) (tb_num_entries tb) (tb_closed tb) (tb_filter_block tb) (tb_pending_index_entry tb)
  (tb_pending_handle tb) (tb_block_size tb) (tb_block_restart_interval tb) (tb_compression tb) (tb_filter_policy tb).
Definition tb_set_index_block b tb := mkTB (tb_file tb) (tb_offset tb) (tb_data_block tb) b
  (tb_last_key tb) (tb_num_entries tb) (tb_closed tb) (tb_filter_block tb) (tb_pending_index_entry tb)
  (tb_pending_handle tb) (tb_block_size tb) (tb_block_restart_interval tb) (tb_compression tb) (tb_filter_policy tb).
Definition tb_set_last k n tb := mkTB (tb_file tb) (tb_offset tb) (tb_data_block tb) (tb_index_block tb)
  k n (tb_closed tb) (tb_filter_block tb) (tb_pending_index_entry tb)
  (tb_pending_handle tb) (tb_block_size tb) (tb_block_restart_interval tb) (tb_compression tb) (tb_filter_policy tb).
Definition tb_set_closed c tb := mkTB (tb_file tb) (tb_offset tb) (tb_data_block tb) (tb_index_block tb)
  (tb_last_key tb) (tb_num_entries tb) c (tb_filter_block tb) (tb_pending_index_entry tb)
  (tb_pending_handle tb) (tb_block_size tb) (tb_block_restart_interval tb) (tb_compression tb) (tb_filter_policy tb).
Definition tb_set_filter_block fb tb := mkTB (tb_file tb) (tb_offset tb) (tb_data_block tb) (tb_index_block tb)
  (tb_last_key tb) (tb_num_entries tb) (tb_closed tb) fb (tb_pending_index_entry tb)
  (tb_pending_handle tb) (tb_block_size tb) (tb_block_restart_interval tb) (tb_compression tb) (tb_filter_policy tb).
Definition tb_set_pending p tb := mkTB (tb_file tb) (tb_offset tb) (tb_data_block tb) (tb_index_block tb)
  (tb_last_key tb) (tb_num_entries tb) (tb_closed tb) (tb_filter_block tb) p
  (tb_pending_handle tb) (tb_block_size tb) (tb_block_restart_interval tb) (tb_compression tb) (tb_filter_policy tb).
Definition tb_set_handle h tb := mkTB (tb_file tb) (tb_offset tb) (tb_data_block tb) (tb_index_block tb)
  (tb_last_key tb) (tb_num_entries tb) (tb_closed tb) (tb_filter_block tb) (tb_pending_index_entry tb)
  h (tb_block_size tb) (tb_block_restart_interval tb) (tb_compression tb) (tb_filter_policy tb).

(** The options a builder uses. *)
Record TableOptions : Type := mkTO {
  to_block_size : Z;
  to_block_restart_interval : nat;
  to_compression : CompressionType;
  to_filter_policy : option FilterPolicy;
}.

Definition tb_new (file : F) (o : TableOptions) : outcome TableBuilder :=
  db ← bb_new (to_block_restart_interval o);
  ib ← bb_new (to_block_restart_interval o);
  fb ← match to_filter_policy o with
       | Some P => f ← @start_block P fbb_new 0; Ok (Some f)
       | None => Ok None
       end;
  Ok (mkTB file 0 db ib [] 0 false fb false (mkHandle 0 0) (to_block_size o)
        (to_block_restart_interval o) (to_compression o) (to_filter_policy o)).

(** Run a file operation on the file of the builder. *)
Definition on_file {A} (op : F → outcome A * F) : st TableBuilder A :=
  λ tb, let '(r, f) := op (tb_file tb) in (r, tb_set_file f tb).

Definition assert_not_closed : st TableBuilder unit :=
  c ← gets tb_closed; lift (rust_assert (negb c)).

(** [write_raw_block]; [set_handle] stores the handle in its out-parameter. *)
Definition write_raw_block (set_handle : BlockHandle → TableBuilder → TableBuilder) (data : bytes)
    (compression : CompressionType) : st TableBuilder BlockHandle :=
  _ ← on_file (λ f, file_write f data);
  offset ← gets tb_offset;
  let handle := mkHandle offset (len data) in
  _ ← modify (set_handle handle);
  let trailer := block_trailer data compression in
  _ ← lift (rust_assert (bool_decide (len trailer = BLOCK_TRAILER_SIZE)));
  _ ← on_file (λ f, file_write f trailer);
  _ ← modify (tb_set_offset (offset + (len data + BLOCK_TRAILER_SIZE)));
  mret handle.

Definition no_handle (_ : BlockHandle) (tb : TableBuilder) : TableBuilder := tb.

Definition tb_flush : st TableBuilder unit :=
  _ ← assert_not_closed;
  db ← gets tb_data_block;
  if bb_is_empty db then mret tt else
  pending ← gets tb_pending_index_entry;
  _ ← lift (rust_assert (negb pending));
  let '(data_block, db) := bb_finish db in
  _ ← modify (tb_set_data_block db);
  ct ← gets tb_compression;
  c ← lift (compress_block data_block ct);
  _ ← write_raw_block tb_set_handle c.1 c.2;
  db ← gets tb_data_block;
  db ← lift (bb_reset db);
  _ ← modify (tb_set_data_block db);
  _ ← modify (tb_set_pending true);
  _ ← on_file file_flush;
  fb ← gets tb_filter_block;
  pol ← gets tb_filter_policy;
  offset ← gets tb_offset;
  match fb, pol with
  | Some fb, Some P => fb ← lift (@start_block P fb offset); modify (tb_set_filter_block (Some fb))
  | _, _ => mret tt
  end.

Section WithComparator.
Context (C : Comparator).

Definition maybe_append_index_block (key : option bytes) : st TableBuilder bool :=
  pending ← gets tb_pending_index_entry;
  if (pending : bool) then
    db ← gets tb_data_block;
    _ ← lift (rust_assert (bb_is_empty db));
    last_key ← gets tb_last_key;
    s ← lift (match key with Some k => separator last_key k | None => successor last_key end);
    handle ← gets tb_pending_handle;
    ib ← gets tb_index_block;
    ib ← lift (bb_add C ib s (bh_encoded handle));
    _ ← modify (tb_set_index_block ib);
    _ ← modify (tb_set_pending false);
    mret true
  else mret false.

Definition tb_add (key value : bytes) : st TableBuilder unit :=
  _ ← assert_not_closed;
  n ← gets tb_num_entries;
  last ← gets tb_last_key;
  _ ← (if bool_decide (0 < n)%nat
       then c ← lift (compare key last); lift (rust_assert (bool_decide (c = Gt)))
       else mret tt);
  _ ← maybe_append_index_block (Some key);
  fb ← gets tb_filter_block;
  _ ← modify (tb_set_filter_block ((λ fb, fbb_add_key fb key) <$> fb));
  _ ← modify (tb_set_last key (n + 1));
  db ← gets tb_data_block;
  db ← lift (bb_add C db key value);
  _ ← modify (tb_set_data_block db);
  bs ← gets tb_block_size;
  if bs <=? current_size_estimate db then tb_flush else mret tt.

Definition filter_key (p : option FilterPolicy) : bytes :=
  match p with
  | Some P => bytes_of_string ("filter." ++ @fp_name P)
  | None => []
  end.

Definition tb_write_block (raw_block : bytes) : st TableBuilder BlockHandle :=
  ct ← gets tb_compression;
  c ← lift (compress_block raw_block ct);
  write_raw_block no_handle c.1 c.2.

Definition tb_finish (sync : bool) : st TableBuilder unit :=
  _ ← tb_flush;
  _ ← assert_not_closed;
  _ ← modify (tb_set_closed true);
  (* filter block *)
  fb ← gets tb_filter_block;
  pol ← gets tb_filter_policy;
  filter_handle ← match fb, pol with
    | Some fb, Some P =>
      r ← lift (@fbb_finish P fb);
      let '(data, fb) := r in
      _ ← modify (tb_set_filter_block (Some fb));
      h ← write_raw_block no_handle data NoCompression;
      mret (Some h)
    | _, _ => mret None
    end;
  (* meta block *)
  ri ← gets tb_block_restart_interval;
  mb ← lift (bb_new ri);
  mb ← lift (match filter_handle with
             | Some h => bb_add C mb (filter_key pol) (bh_encoded h)
             | None => Ok mb
             end);
  meta_handle ← tb_write_block (bb_finish mb).1;
  (* index block *)
  _ ← maybe_append_index_block None;
  ib ← gets tb_index_block;
  let '(index_block, ib) := bb_finish ib in
  _ ← modify (tb_set_index_block ib);
  ct ← gets tb_compression;
  c ← lift (compress_block index_block ct);
  index_handle ← write_raw_block no_handle c.1 c.2;
  ib ← lift (bb_reset ib);
  _ ← modify (tb_set_index_block ib);
  (* footer *)
  footer ← lift (footer_encoded (mkFooter meta_handle index_handle));
  _ ← on_file (λ f, file_write f footer);
  offset ← gets tb_offset;
  _ ← modify (tb_set_offset (offset + len footer));
  if sync then _ ← on_file file_flush; on_file file_close else mret tt.

Fixpoint tb_add_all (es : list entry) : st TableBuilder unit :=
  match es with
  | [] => mret tt
  | (k, v) :: es => _ ← tb_add k v; tb_add_all es
  end.
End WithComparator.

(** [close]: the result of closing the file is ignored. *)
Definition tb_close : st TableBuilder unit :=
  c ← gets tb_closed;
  _ ← lift (rust_assert (negb c));
  _ ← modify (tb_set_closed true);
  ((λ tb, let '(_, f) := file_close (tb_file tb) in (Ok tt, tb_set_file f tb)) : st TableBuilder unit).

(** ** [Table] *)

Record Table : Type := mkTable {
  t_file : F;
  t_file_number : Z;
  t_filter_reader : option (FilterPolicy * FilterBlockReader);
  t_meta_block_handle : option BlockHandle;
  t_index_block : Block;
}.

(** The part of [open] that reads the filter; errors are ignored. *)
Definition read_filter (C : Comparator) (file : F) (paranoid : bool) (P : FilterPolicy)
    (meta_block : Block) : outcome (option (FilterPolicy * FilterBlockReader)) :=
  let fk := filter_key (Some P) in
  iter ← bi_seek C (block_iter meta_block) fk;
  if bi_valid iter then
    k ← bi_get_key iter;
    if bool_decide (k = fk) then
      v ← bi_get_value iter;
      match bh_decode_from v with
      | Ok (filter_handle, _) =>
        match read_block file filter_handle paranoid with
        | Ok filter_block => r ← fbr_new filter_block; Ok (Some (P, r))
        | Err _ => Ok None
        | Panic => Panic | OutOfFuel => OutOfFuel
        end
      | Err _ => Ok None
      | Panic => Panic | OutOfFuel => OutOfFuel
      end
    else Ok None
  else Ok None.

Definition table_open (C : Comparator) (file : F) (file_number file_len : Z) (paranoid : bool)
    (filter_policy : option FilterPolicy) : outcome Table :=
  if file_len <? Z.of_nat FOOTER_ENCODED_LENGTH
  then Err (Corruption "file is too short to be an sstable")
  else
    footer_space ← (read_exact_at (S FOOTER_ENCODED_LENGTH) file FOOTER_ENCODED_LENGTH
                      (file_len - Z.of_nat FOOTER_ENCODED_LENGTH)).1;
    ft ← footer_decode_from footer_space;
    let footer := ft.1 in
    contents ← read_block file (ft_index_handle footer) paranoid;
    index_block ← block_new contents;
    let t := mkTable file file_number None None index_block in
    match filter_policy with
    | Some P =>
      if 0 <? bh_size (ft_meta_index_handle footer) then
        match (c ← read_block file (ft_meta_index_handle footer) paranoid; block_new c) with
        | Ok meta_block =>
          fr ← read_filter C file paranoid P meta_block;
          Ok (mkTable file file_number fr (Some (ft_meta_index_handle footer)) index_block)
        | Err _ => Ok t
        | Panic => Panic | OutOfFuel => OutOfFuel
        end
      else Ok t
    | None => Ok t
    end.

(** [block_reader] without a block cache. *)
Definition block_reader (t : Table) (handle : BlockHandle) (verify_checksums : bool)
    : outcome BlockIterator :=
  data ← read_block (t_file t) handle verify_checksums;
  b ← block_new data;
  Ok (block_iter b).

(** [while block_iter.valid() { block_iter.next() }] *)
Fixpoint exhaust (C : Comparator) (fuel : nat) (it : BlockIterator) : outcome BlockIterator :=
  if bi_valid it then
    match fuel with
    | O => OutOfFuel
    | S fuel => it ← bi_next it; exhaust C fuel it
    end
  else Ok it.

(** [internal_get] *)
Definition internal_get (C : Comparator) (t : Table) (verify_checksums : bool) (key : bytes)
    : outcome (option BlockIterator) :=
  index_iter ← bi_seek C (block_iter (t_index_block t)) key;
  let done_ := _ ← (bi_status index_iter).1; Ok None in
  if bi_valid index_iter then
    handle_val ← bi_get_value index_iter;
    maybe_contained ←
      match t_filter_reader t with
      | Some (P, filter) =>
        match bh_decode_from handle_val with
        | Ok (handle, _) => @key_may_match P filter (bh_offset handle) key
        | Err _ => Ok true
        | Panic => Panic | OutOfFuel => OutOfFuel
        end
      | None => Ok true
      end;
    if (maybe_contained : bool) then
      h ← bh_decode_from handle_val;
      block_iter ← block_reader t h.1 verify_checksums;
      block_iter ← bi_seek C block_iter key;
      if bi_valid block_iter then Ok (Some block_iter) else
      block_iter ← bi_seek_to_first block_iter;
      block_iter ← exhaust C (length (bi_data block_iter)) block_iter;
      _ ← (bi_status block_iter).1;
      done_
    else done_
  else done_.

(** [approximate_offset_of] *)
Definition approximate_offset_of (C : Comparator) (t : Table) (key : bytes) : outcome Z :=
  index_iter ← bi_seek C (block_iter (t_index_block t)) key;
  let fallback := match t_meta_block_handle t with Some meta => bh_offset meta | None => 0 end in
  if bi_valid index_iter then
    val ← bi_get_value index_iter;
    match bh_decode_from val with
    | Ok (h, _) => Ok (bh_offset h)
    | Err _ => Ok fallback
    | Panic => Panic | OutOfFuel => OutOfFuel
    end
  else Ok fallback.

(** [TableIterFactory::derive] and [new_table_iterator] *)
Definition TableIterFactory (t : Table) (verify_checksums : bool) : DerivedIterFactory BlockIterator :=
  {| derive := λ value, h ← bh_decode_from value; block_reader t h.1 verify_checksums |}.

Definition new_table_iterator (t : Table) : ConcatenateIterator BlockIterator BlockIterator :=
  concat_new (block_iter (t_index_block t)).

(** The operations of that iterator; [fuel] bounds the blocks it skips. *)
Definition TableIterator (C : Comparator) (t : Table) (verify_checksums : bool) (fuel : nat)
    : Iterator (ConcatenateIterator BlockIterator BlockIterator) :=
  @ConcatenateIterator_Iterator _ _ (BlockIterator_Iterator C) (BlockIterator_Iterator C)
    (TableIterFactory t verify_checksums) fuel.
End Table.
Arguments TableBuilder F : clear implicits.
Arguments Table F : clear implicits.
