(* ===== verification/TableFacts.v ===== *)
(** * Tables: what is built is read back

    Round trips of block handles, footers and raw blocks, and the facts on block
    builders that the invariant of [TableBuilder] uses. *)
From S2P Require Import Prelude Coding Varint Comparator Storage Iterator Block Concat Filter Table.
Open Scope Z_scope.

(** ** Handles and footers *)

Lemma width64 : is_width 64.
Proof. by right. Qed.

Definition handle_ok (h : BlockHandle) : Prop := in_uint 64 (bh_offset h) ∧ in_uint 64 (bh_size h).

Definition handle_bytes (h : BlockHandle) : bytes :=
  varint_bytes 64 (bh_offset h) ++ varint_bytes 64 (bh_size h).

Lemma bh_encoded_to_eq h dst : bh_encoded_to h dst = dst ++ handle_bytes h.
Proof. unfold bh_encoded_to. rewrite !put_varint_eq. by rewrite <- app_assoc. Qed.
Lemma bh_encoded_eq h : bh_encoded h = handle_bytes h.
Proof. apply bh_encoded_to_eq. Qed.

Lemma handle_bytes_len h : 2 ≤ len (handle_bytes h) ≤ 20.
Proof.
  unfold handle_bytes. rewrite len_app. pose proof (varint_bytes_len 64 (bh_offset h) width64).
  pose proof (varint_bytes_len 64 (bh_size h) width64).
  change (max_bytes 64) with 10 in *. lia.
Qed.

Lemma bh_decode_bytes h rest : handle_ok h →
  bh_decode_from (handle_bytes h ++ rest) = Ok (h, len (handle_bytes h)).
Proof.
  intros [Ho Hs]. unfold bh_decode_from, handle_bytes. rewrite <- app_assoc.
  rewrite read_varint by (done || apply width64).
  rewrite slice_from_app, Ok_bind by (unfold len; lia).
  rewrite read_varint by (done || apply width64). rewrite len_app. destruct h. simpl.
  by rewrite Z.add_comm.
Qed.

Lemma handle_bytes_inj h1 h2 : handle_ok h1 → handle_ok h2 → handle_bytes h1 = handle_bytes h2 → h1 = h2.
Proof.
  intros H1 H2 Heq. pose proof (bh_decode_bytes h1 [] H1) as Hd1.
  pose proof (bh_decode_bytes h2 [] H2) as Hd2. rewrite Heq, Hd2 in Hd1. congruence.
Qed.

Lemma footer_roundtrip_ok f :
  handle_ok (ft_meta_index_handle f) → handle_ok (ft_index_handle f) →
  ∃ v, footer_encoded f = Ok v ∧ length v = FOOTER_ENCODED_LENGTH ∧
    ∃ n, footer_decode_from v = Ok (f, n).
Proof.
  intros Hm Hi. unfold footer_encoded. rewrite !bh_encoded_to_eq. simpl.
  set (a := handle_bytes (ft_meta_index_handle f)). set (b := handle_bytes (ft_index_handle f)).
  pose proof (handle_bytes_len (ft_meta_index_handle f)) as Ha.
  pose proof (handle_bytes_len (ft_index_handle f)) as Hb. fold a in Ha. fold b in Hb.
  rewrite put_fixed_64_eq.
  assert (length (resize 40 0 (a ++ b)) = 40%nat) as Hr by apply length_resize.
  rewrite bool_decide_eq_true_2 by (by rewrite length_app, Hr, length_to_le_bytes).
  eexists. split; [done|]. split; [by rewrite length_app, Hr, length_to_le_bytes|].
  unfold footer_decode_from. change (FOOTER_ENCODED_LENGTH - 8)%nat with 40%nat.
  rewrite slice_from_app, Ok_bind by done.
  rewrite <- (app_nil_r (to_le_bytes 8 _)), decode_fixed_64_app by (split; done).
  rewrite Z.eqb_refl. cbn [negb].
  assert (∃ z, resize 40 0 (a ++ b) = a ++ b ++ z) as [z ->].
  { rewrite resize_ge by (unfold len in *; rewrite length_app; lia). rewrite <- app_assoc. eauto. }
  rewrite <- !app_assoc.
  pose proof (λ rest, bh_decode_bytes (ft_meta_index_handle f) rest Hm) as Hda.
  pose proof (λ rest, bh_decode_bytes (ft_index_handle f) rest Hi) as Hdb. fold a in Hda. fold b in Hdb.
  rewrite Hda, Ok_bind, slice_from_app, Ok_bind, Hdb, Ok_bind by (unfold len; lia).
  destruct f. simpl. eauto.
Qed.

(** ** Raw blocks *)
Section RawBlocks.
Context {SN : Snappy} {SL : SnappyLaws} {CRC : Crc32} {CL : Crc32Laws} {F : Type} {FO : File F}
  {FL : FileLaws F}.

Lemma len_trailer c ct : len (block_trailer c ct) = BLOCK_TRAILER_SIZE.
Proof.
  unfold block_trailer. rewrite put_fixed_32_eq, len_app. unfold len.
  by rewrite length_to_le_bytes.
Qed.

(** A compressed block as stored: [d] is the original. *)
Definition stored (d c : bytes) (ct : CompressionType) : Prop :=
  (ct = NoCompression ∧ c = d) ∨ (ct = SnappyCompression ∧ snap_compress d = Some c).

Lemma compress_block_stored d ct c ct' : compress_block d ct = Ok (c, ct') → stored d c ct'.
Proof.
  unfold compress_block, stored. destruct ct; [naive_solver| |naive_solver].
  destruct (snap_compress d) eqn:Hs; naive_solver.
Qed.

Lemma stored_small d c ct : stored d c ct → len c < 2 ^ 32 → len d < 2 ^ 32.
Proof. intros [[_ ->]|[_ Hs]] Hc; [done|]. by eapply snap_compress_small. Qed.

Lemma compress_block_cases d ct :
  (∃ c ct', compress_block d ct = Ok (c, ct')) ∨ compress_block d ct = Err CompressionFailed.
Proof. unfold compress_block. destruct ct; eauto. destruct (snap_compress d); eauto. Qed.

(** Reading a stored block back from the middle of a file. *)
Lemma read_block_ok f pre c ct post d verify :
  f_ok f → f_contents f = pre ++ (c ++ block_trailer c ct) ++ post → stored d c ct →
  read_block f (mkHandle (len pre) (len c)) verify = Ok d.
Proof.
  intros Hf Hc Hst. unfold read_block. cbn [bh_size bh_offset].
  pose proof (len_trailer c ct) as Htl. pose proof (len_nonneg pre). pose proof (len_nonneg c).
  replace (Z.to_nat (len c)) with (length c) by (unfold len; lia).
  change (Z.to_nat BLOCK_TRAILER_SIZE) with 5%nat.
  assert (length (block_trailer c ct) = 5%nat) as Htl' by (unfold len, BLOCK_TRAILER_SIZE in *; lia).
  replace (length c + 6)%nat with (S (length c + 5)) by lia.
  destruct (read_exact_at_ok (length c + 5) f (length c + 5) (len pre) Hf) as (f' & -> & _); [lia| |].
  { rewrite Hc, !len_app, Htl. pose proof (len_nonneg post). unfold len, BLOCK_TRAILER_SIZE. lia. }
  rewrite Hc. replace (Z.to_nat (len pre)) with (length pre) by (unfold len; lia).
  rewrite drop_app_length, take_app_length' by (rewrite length_app; lia). cbn [fst]. rewrite Ok_bind.
  assert (block_trailer c ct = compression_code ct ::
    to_le_bytes 4 (mask (crc_extend (crc_hash c) [compression_code ct]))) as Htr by done.
  assert ((if verify then
           tl ← slice_from (c ++ block_trailer c ct) (length c + 1);
           hd ← slice_to (c ++ block_trailer c ct) (length c + 1);
           Ok (negb (unmask (decode_fixed_32 tl) =? crc_hash hd))
         else Ok false) = Ok false) as ->.
  { destruct verify; [|done]. rewrite Htr, cons_middle, app_assoc.
    rewrite slice_from_app, Ok_bind by (rewrite length_app; simpl; lia).
    rewrite slice_to_ok, Ok_bind by (rewrite !length_app; simpl; lia).
    rewrite take_app_length' by (rewrite length_app; simpl; lia).
    rewrite <- (app_nil_r (to_le_bytes 4 _)), decode_fixed_32_app by apply mask_range.
    rewrite unmask_mask_eq, crc_extend_hash, Z.eqb_refl; [done|].
    rewrite crc_extend_hash. apply crc_hash_u32. }
  rewrite Ok_bind. unfold index. rewrite Htr at 1. rewrite list_lookup_middle by done. rewrite Ok_bind.
  assert (compression_from (compression_code ct) = Ok ct) as -> by (by destruct ct). rewrite Ok_bind.
  destruct Hst as [[-> ->]|[-> Hs]].
  - rewrite length_app, Htl', slice_to_ok by (rewrite length_app; lia).
    rewrite take_app_length' by lia. done.
  - rewrite slice_to_ok, Ok_bind by (rewrite length_app; lia). rewrite take_app_length.
    destruct (snap_roundtrip d c Hs) as [-> ->]. done.
Qed.


(** Writing a raw block appends it and returns its handle. *)
Lemma write_raw_block_ok (seth : BlockHandle → TableBuilder F → TableBuilder F) data ct tb :
  f_ok (tb_file tb) → (∀ h tb, tb_file (seth h tb) = tb_file tb) →
  (∀ h tb, tb_offset (seth h tb) = tb_offset tb) →
  let h := mkHandle (tb_offset tb) (len data) in
  ∃ f1 f2, f_ok f2 ∧ f_contents f2 = f_contents (tb_file tb) ++ data ++ block_trailer data ct ∧
    write_raw_block seth data ct tb =
      (Ok h, tb_set_offset (tb_offset tb + (len data + BLOCK_TRAILER_SIZE))
               (tb_set_file f2 (seth h (tb_set_file f1 tb)))).
Proof.
  intros Hf Hsf Hso h. destruct (law_write (tb_file tb) data Hf) as (f1 & Hw1 & Hf1 & Hc1 & _).
  destruct (law_write f1 (block_trailer data ct) Hf1) as (f2 & Hw2 & Hf2 & Hc2 & _).
  exists f1, f2. split; [done|]. split; [by rewrite Hc2, Hc1, <- app_assoc|].
  unfold write_raw_block. erewrite st_bind_Ok by (unfold on_file; by rewrite Hw1).
  rewrite gets_bind. change (tb_offset (tb_set_file f1 tb)) with (tb_offset tb). cbv zeta.
  rewrite modify_bind. erewrite st_bind_Ok.
  2: { unfold lift. rewrite assert_true by (by apply bool_decide_eq_true_2, len_trailer). done. }
  erewrite st_bind_Ok by (unfold on_file; rewrite Hsf; cbn [tb_file tb_set_file]; by rewrite Hw2).
  rewrite modify_bind. done.
Qed.
End RawBlocks.

(** ** More on block builders *)
Section BuilderMore.
Context (C : Comparator) (key_ok : bytes → Prop) (ord : bytes → bytes → comparison).
Context {CO : ComparatorOrder C key_ok ord}.

Definition fresh (n : nat) : BlockBuilder := mkBB n [] [0] 0 false [].

Lemma bb_new_fresh n : (1 ≤ n)%nat → bb_new n = Ok (fresh n).
Proof. intros. unfold bb_new. by rewrite assert_true by (by apply bool_decide_eq_true_2). Qed.

Lemma bb_add_all_app b l1 l2 :
  bb_add_all C b (l1 ++ l2) = (b' ← bb_add_all C b l1; bb_add_all C b' l2).
Proof.
  revert b. induction l1 as [|[k v] l1 IH]; intros b; [done|]. simpl.
  rewrite bind_assoc. destruct (bb_add C b k v); simpl; [apply IH|done..].
Qed.
Lemma bb_add_all_one b k v : bb_add_all C b [(k, v)] = bb_add C b k v.
Proof. simpl. by destruct (bb_add C b k v). Qed.

Lemma bb_add_grows b k v b' : bb_add C b k v = Ok b' →
  bb_block_restart_interval b' = bb_block_restart_interval b ∧
  len (bb_buffer b) + 3 ≤ len (bb_buffer b').
Proof.
  unfold bb_add. intros H. apply bind_Ok in H as (? & _ & H). apply bind_Ok in H as (? & _ & H).
  apply bind_Ok in H as (? & _ & H). apply bind_Ok in H as (? & _ & H).
  destruct (if bool_decide _ then _ else _) as [[sh rs] cn]. cbv zeta in H.
  apply bind_Ok in H as (d & _ & [= <-]). simpl. split; [done|].
  rewrite !len_app.
  repeat match goal with |- context [len (varint_bytes 32 ?x)] =>
    pose proof (varint_bytes_len 32 x width32); generalize dependent (len (varint_bytes 32 x)); intros end.
  pose proof (len_nonneg d). pose proof (len_nonneg v). lia.
Qed.

Lemma bb_add_all_grows b es b' : bb_add_all C b es = Ok b' →
  bb_block_restart_interval b' = bb_block_restart_interval b ∧
  len (bb_buffer b) + 3 * len es ≤ len (bb_buffer b').
Proof.
  revert b. induction es as [|[k v] es IH]; intros b H; simpl in H.
  { injection H as <-. change (len (@nil entry)) with 0. split; [done|lia]. }
  apply bind_Ok in H as (b1 & H1 & H2). apply bb_add_grows in H1 as [? ?].
  apply IH in H2 as [? ?]. rewrite len_cons. split; [congruence|lia].
Qed.

Lemma fresh_is_empty n es b : bb_add_all C (fresh n) es = Ok b →
  bb_is_empty b = bool_decide (es = []) ∧ bb_block_restart_interval b = n.
Proof.
  intros H. pose proof (bb_add_all_grows _ _ _ H) as [Hi Hl]. split; [|done].
  unfold bb_is_empty. simpl in *. destruct es as [|e es].
  - simpl in H. injection H as <-. done.
  - rewrite len_cons in Hl. pose proof (len_nonneg es). change (len (@nil Z)) with 0 in Hl.
    rewrite !bool_decide_eq_false_2; [done..|]. intros Hb. rewrite Hb in Hl. change (len (@nil Z)) with 0 in Hl. lia.
Qed.

Lemma fresh_add_sorted n es : (1 ≤ n)%nat → sorted ord es → Forall (λ e, key_ok e.1) es →
  ∃ b, bb_add_all C (fresh n) es = Ok b.
Proof.
  intros Hn Hs Hk. destruct (block_build_rep C key_ok ord n es Hn Hs Hk) as (b0 & b & ? & ? & H1 & H2 & _).
  rewrite bb_new_fresh in H1 by done. injection H1 as <-. eauto.
Qed.

Lemma fresh_reset n es b : bb_add_all C (fresh n) es = Ok b → bb_reset (bb_finish b).2 = Ok (fresh n).
Proof. intros H. destruct (fresh_is_empty _ _ _ H) as [_ Hi]. unfold bb_reset, bb_finish. simpl. by rewrite Hi. Qed.

(** The iterator over a stored and reopened block. *)
Lemma fresh_block_rep n es b : (1 ≤ n)%nat → sorted ord es → Forall (λ e, key_ok e.1) es →
  bb_add_all C (fresh n) es = Ok b → len (bb_finish b).1 < 2 ^ 32 →
  ∃ blk, block_new (bb_finish b).1 = Ok blk ∧ block_rep key_ok ord (block_iter blk) es None.
Proof.
  intros Hn Hs Hk Hb Hsz.
  destruct (block_build_rep C key_ok ord n es Hn Hs Hk) as (b0 & b1 & d & b' & H1 & H2 & H3 & H4).
  rewrite bb_new_fresh in H1 by done. injection H1 as <-. rewrite Hb in H2. injection H2 as <-.
  rewrite H3 in *. by apply H4.
Qed.

Lemma sorted_app_l (l1 l2 : list entry) : sorted ord (l1 ++ l2) → sorted ord l1.
Proof.
  intros Hs i j a b Hij Ha Hb. eapply Hs; [done|..]; rewrite lookup_app_l; eauto using lookup_lt_Some.
Qed.
Lemma sorted_app_r (l1 l2 : list entry) : sorted ord (l1 ++ l2) → sorted ord l2.
Proof.
  intros Hs i j a b Hij Ha Hb. apply (Hs (length l1 + i) (length l1 + j))%nat; [lia|..];
    rewrite lookup_app_r by lia; by rewrite Nat.add_sub'.
Qed.
Lemma sorted_cross (l1 l2 : list entry) a b : sorted ord (l1 ++ l2) → a ∈ l1 → b ∈ l2 → ord a.1 b.1 = Lt.
Proof.
  intros Hs [i Hi]%list_elem_of_lookup_1 [j Hj]%list_elem_of_lookup_1. apply lookup_lt_Some in Hi as Hlt.
  apply (Hs i (length l1 + j)%nat); [lia|by rewrite lookup_app_l|].
  rewrite lookup_app_r by lia. by rewrite Nat.add_sub'.
Qed.
Lemma sorted_snoc (l : list entry) e :
  sorted ord l → (∀ a, a ∈ l → ord a.1 e.1 = Lt) → sorted ord (l ++ [e]).
Proof.
  intros Hs He i j a b Hij Ha Hb. apply lookup_snoc_inv in Hb as [Hb|[-> ->]].
  - apply lookup_lt_Some in Hb as Hlt. rewrite lookup_app_l in Ha by lia. exact (Hs i j a b Hij Ha Hb).
  - rewrite lookup_app_l in Ha by lia. apply He. by eapply list_elem_of_lookup_2.
Qed.
End BuilderMore.

(** ** Theorems *)

(** The footer round trip.  Encoding a footer whose handles are [u64] pairs gives
    exactly 48 bytes, and decoding them gives the footer back. *)
Theorem footer_roundtrip (ft : Footer) :
  handle_ok (ft_meta_index_handle ft) → handle_ok (ft_index_handle ft) →
  ∃ v n, footer_encoded ft = Ok v ∧ length v = FOOTER_ENCODED_LENGTH ∧ footer_decode_from v = Ok (ft, n).
Proof. intros Hm Hi. destruct (footer_roundtrip_ok ft Hm Hi) as (v & ? & ? & n & ?). eauto. Qed.

Lemma footer_roundtrip_witness : ∃ v n,
  footer_encoded (mkFooter (mkHandle 300 7) (mkHandle (2 ^ 64 - 1) 0)) = Ok v ∧ length v = 48%nat ∧
  footer_decode_from v = Ok (mkFooter (mkHandle 300 7) (mkHandle (2 ^ 64 - 1) 0), n).
Proof.
  apply (footer_roundtrip (mkFooter (mkHandle 300 7) (mkHandle (2 ^ 64 - 1) 0))); split; split; simpl; lia.
Defined.

(** [f] holds what [g] holds and then [more]. *)
Definition extends {F} {FO : File F} {FL : FileLaws F} (f g : F) (more : bytes) : Prop :=
  f_contents f = f_contents g ++ more.

(** The raw block round trip.  A block that [compress_block] accepted and
    [write_raw_block] appended to a healthy file is read back unchanged by
    [read_block] through the returned handle, with or without checksum
    verification, and whatever is appended to the file afterwards. *)
Theorem raw_block_roundtrip {SN : Snappy} `{!SnappyLaws} {CRC : Crc32} `{!Crc32Laws} {F : Type} {FO : File F}
    {FL : FileLaws F} (tb : TableBuilder F) (d c more : bytes) (ct ct' : CompressionType) (verify : bool) :
  f_ok (tb_file tb) → tb_offset tb = len (f_contents (tb_file tb)) → compress_block d ct = Ok (c, ct') →
  ∃ h tb', write_raw_block no_handle c ct' tb = (Ok h, tb') ∧
    tb_offset tb' = len (f_contents (tb_file tb')) ∧
    ∀ f, f_ok f → extends f (tb_file tb') more → read_block f h verify = Ok d.
Proof.
  intros Hf Ho Hc. destruct (write_raw_block_ok no_handle c ct' tb Hf) as (f1 & f2 & Hf2 & Hc2 & Hw); [done..|].
  eexists _, _. split; [exact Hw|]. simpl. split.
  - by rewrite Hc2, !len_app, len_trailer, Ho.
  - intros f Hfk Hcf. unfold extends in Hcf. rewrite Ho. apply (read_block_ok f (f_contents (tb_file tb)) c ct' more); [done| |].
    + rewrite Hcf, Hc2. by rewrite <- !app_assoc.
    + by eapply compress_block_stored.
Qed.

Definition plain_snappy : Snappy := {|
  snap_compress d := if len d <? 2 ^ 32 then Some (1 :: d) else None;
  snap_decompress_len c := match c with _ :: d => Some (length d) | [] => None end;
  snap_decompress c n := match c with _ :: d => Some d | [] => None end;
|}.
Lemma plain_snappy_laws : @SnappyLaws plain_snappy.
Proof.
  split; simpl; intros d c; (destruct (Z.ltb_spec (len d) (2 ^ 32)); [|done]); intros [= <-]; done.
Qed.
Definition blank_builder (f : InmemFile) : TableBuilder InmemFile :=
  mkTB f (len (im_data f)) (mkBB 1 [] [0] 0 false []) (mkBB 1 [] [0] 0 false []) [] 0 false None false
    (mkHandle 0 0) 4096 16 SnappyCompression None.

Import IeeeCrc.
Lemma raw_block_roundtrip_witness :
  ∃ h tb', write_raw_block (FO := InmemFile_File true) no_handle [1; 4; 5; 6] SnappyCompression
      (blank_builder (mkInmem false [9; 9] 0)) = (Ok h, tb') ∧
    tb_offset tb' = len (im_data (tb_file tb')) ∧
    ∀ f, 0 ≤ im_pos f → im_data f = im_data (tb_file tb') ++ [8; 8] →
      read_block (SN := plain_snappy) (FO := InmemFile_File true) f h true = Ok [4; 5; 6].
Proof.
  pose proof plain_snappy_laws.
  apply (raw_block_roundtrip (SN := plain_snappy) (FL := InmemFile_laws true) (blank_builder (mkInmem false [9; 9] 0))
    [4; 5; 6] [1; 4; 5; 6] [8; 8] SnappyCompression SnappyCompression true); [simpl; lia|reflexivity|reflexivity].
Defined.
