(* ===== verification/TableBuild.v ===== *)
(** * The invariant of [TableBuilder]

    While a table is built, the file holds the finished data blocks with their
    trailers, the index block holds a separator and a handle for each of them but
    the pending one, the data block holds the entries added since, and the filter
    block covers every key under the offset of its block. *)
From S2P Require Import Prelude Coding Varint Comparator Storage Iterator Block Concat Filter Table TableFacts.
Open Scope Z_scope.

(** ** Finished data blocks *)

Record dblock : Type := mkDB { db_entries : list entry; db_bytes : bytes; db_ct : CompressionType }.

Section Blocks.
Context {CRC : Crc32}.

Definition block_image (b : dblock) : bytes := db_bytes b ++ block_trailer (db_bytes b) (db_ct b).
Definition image (Bs : list dblock) : bytes := mjoin (block_image <$> Bs).
Definition entries_of (Bs : list dblock) : list entry := mjoin (db_entries <$> Bs).

Fixpoint handles (o : Z) (Bs : list dblock) : list BlockHandle :=
  match Bs with
  | [] => []
  | b :: Bs => mkHandle o (len (db_bytes b)) :: handles (o + len (block_image b)) Bs
  end.

(** The (offset, key) pairs the filter block must cover. *)
Fixpoint filter_pairs (o : Z) (Bs : list dblock) : list (Z * bytes) :=
  match Bs with
  | [] => []
  | b :: Bs => ((λ e : entry, (o, e.1)) <$> db_entries b) ++ filter_pairs (o + len (block_image b)) Bs
  end.

Definition index_of (seps : list bytes) (Bs : list dblock) : list entry :=
  zip seps (handle_bytes <$> handles 0 Bs).

Lemma image_snoc Bs b : image (Bs ++ [b]) = image Bs ++ block_image b.
Proof. unfold image. rewrite fmap_app, join_app. simpl. by rewrite app_nil_r. Qed.
Lemma entries_snoc Bs b : entries_of (Bs ++ [b]) = entries_of Bs ++ db_entries b.
Proof. unfold entries_of. rewrite fmap_app, join_app. simpl. by rewrite app_nil_r. Qed.
Lemma image_cons b Bs : image (b :: Bs) = block_image b ++ image Bs.
Proof. done. Qed.
Lemma handles_snoc o Bs b :
  handles o (Bs ++ [b]) = handles o Bs ++ [mkHandle (o + len (image Bs)) (len (db_bytes b))].
Proof.
  revert o. induction Bs as [|b' Bs IH]; intros o; simpl; [by rewrite Z.add_0_r|].
  rewrite IH, image_cons, len_app. do 3 f_equal. by rewrite Z.add_assoc.
Qed.
Lemma filter_pairs_snoc o Bs b :
  filter_pairs o (Bs ++ [b]) = filter_pairs o Bs ++ ((λ e : entry, (o + len (image Bs), e.1)) <$> db_entries b).
Proof.
  revert o. induction Bs as [|b' Bs IH]; intros o; simpl.
  { by rewrite app_nil_r, Z.add_0_r. }
  rewrite IH, image_cons, len_app, app_assoc. by rewrite Z.add_assoc.
Qed.
Lemma length_handles o Bs : length (handles o Bs) = length Bs.
Proof. revert o. induction Bs; intros; simpl; auto. Qed.
Lemma length_filter_pairs o Bs : length (filter_pairs o Bs) = length (entries_of Bs).
Proof.
  revert o. induction Bs as [|b Bs IH]; intros; [done|]. simpl. unfold entries_of in *. simpl.
  rewrite !length_app, length_fmap, IH. done.
Qed.

(** Block [i] sits in the image at its handle. *)
Lemma handles_lookup o Bs i b : Bs !! i = Some b →
  handles o Bs !! i = Some (mkHandle (o + len (image (take i Bs))) (len (db_bytes b))) ∧
  image Bs = image (take i Bs) ++ block_image b ++ image (drop (S i) Bs).
Proof.
  intros Hi. assert (length (take i Bs) = i) as Hl.
  { apply length_take_le. apply lookup_lt_Some in Hi. lia. }
  rewrite <- (take_drop_middle Bs i b Hi) at 1 3. split.
  - rewrite cons_middle, app_assoc.
    assert (∀ l1 l2 o, handles o (l1 ++ l2) = handles o l1 ++ handles (o + len (image l1)) l2) as Happ.
    { clear. induction l1 as [|b l1 IH]; intros l2 o; simpl; [by rewrite Z.add_0_r|].
      rewrite IH, image_cons, len_app. by rewrite Z.add_assoc. }
    rewrite Happ, handles_snoc, lookup_app_l by (rewrite length_app, length_handles; simpl; lia).
    rewrite lookup_app_r, length_handles, Hl, Nat.sub_diag by (rewrite length_handles; lia). done.
  - unfold image. by rewrite fmap_app, join_app.
Qed.
Lemma filter_pairs_elem o Bs i b e : Bs !! i = Some b → e ∈ db_entries b →
  (o + len (image (take i Bs)), e.1) ∈ filter_pairs o Bs.
Proof.
  revert o i. induction Bs as [|b' Bs IH]; intros o [|i] Hi He; simplify_eq/=; apply elem_of_app.
  - left. rewrite Z.add_0_r. by apply (list_elem_of_fmap_2 (λ e : entry, (o, e.1))).
  - right. rewrite image_cons, len_app, Z.add_assoc. by apply IH.
Qed.

Lemma entries_elem Bs i b e : Bs !! i = Some b → e ∈ db_entries b → e ∈ entries_of Bs.
Proof.
  intros Hi He. unfold entries_of. apply list_elem_of_join. exists (db_entries b). split; [done|].
  apply list_elem_of_fmap_2. by eapply list_elem_of_lookup_2.
Qed.
End Blocks.

(** ** The invariant *)
Section Builder.
Context {SN : Snappy} {CRC : Crc32} {F : Type} {FO : File F} {FL : FileLaws F}.
Context (C : Comparator) (key_ok : bytes → Prop) (ord : bytes → bytes → comparison).
Context {CO : ComparatorOrder C key_ok ord} {CS : ComparatorShortening C key_ok ord}.
Context (o : TableOptions) (Hn : (1 ≤ to_block_restart_interval o)%nat).
(** The policy, and all the keys of the table. *)
Context (fits : list bytes → Prop) (allk : list bytes).
Context (LAWS : match to_filter_policy o with Some P => FilterPolicyLaws P fits | None => True end).
Context (all_fits : match to_filter_policy o with
  | Some P => ∀ ks, (∀ k, k ∈ ks → k ∈ allk) → (length ks ≤ length allk)%nat →
                fits ks ∧ ∃ f, @create_filter P ks = Ok f
  | None => True
  end).

Definition filter_inv (offset : Z) (added : list (Z * bytes)) (fb : option FilterBlockBuilder) : Prop :=
  match to_filter_policy o, fb with
  | Some P, Some b => ∃ Fs, @fbinv P fits allk b Fs added ∧ len Fs = offset / FILTER_BASE
  | None, None => True
  | _, _ => False
  end.

(** A data block holds exactly its entries. *)
Definition holds (b : dblock) : Prop :=
  db_entries b ≠ [] ∧ ∃ bb, bb_add_all C (fresh (to_block_restart_interval o)) (db_entries b) = Ok bb ∧
    stored (bb_finish bb).1 (db_bytes b) (db_ct b).

(** The separators lie between the blocks. *)
Record sep_ok (Bs : list dblock) (cur : list entry) (j : nat) (s : bytes) : Prop := {
  so_key : key_ok s;
  so_upper b e : Bs !! j = Some b → e ∈ db_entries b → ord e.1 s ≠ Gt;
  so_lower j' b e : (j < j')%nat → Bs !! j' = Some b → e ∈ db_entries b → ord s e.1 = Lt;
  so_cur e : e ∈ cur → ord s e.1 = Lt;
}.

(** The part of the state that concerns the entries and the index. *)
Record iinv (tb : TableBuilder F) (Bs : list dblock) (seps : list bytes) (cur : list entry) : Prop := {
  ti_data : bb_add_all C (fresh (to_block_restart_interval o)) cur = Ok (tb_data_block tb);
  ti_index : bb_add_all C (fresh (to_block_restart_interval o)) (index_of seps Bs) = Ok (tb_index_block tb);
  ti_opts : mkTO (tb_block_size tb) (tb_block_restart_interval tb) (tb_compression tb) (tb_filter_policy tb) = o;
  ti_pending : if tb_pending_index_entry tb
    then cur = [] ∧ S (length seps) = length Bs ∧ last (handles 0 Bs) = Some (tb_pending_handle tb)
    else length seps = length Bs;
  ti_sorted : sorted ord (entries_of Bs ++ cur);
  ti_keys : Forall (λ e, key_ok e.1) (entries_of Bs ++ cur);
  ti_last e : last (entries_of Bs ++ cur) = Some e → tb_last_key tb = e.1;
  ti_num : tb_num_entries tb = length (entries_of Bs ++ cur);
  ti_blocks : Forall holds Bs;
  ti_seps j s : seps !! j = Some s → sep_ok Bs cur j s;
}.

Record tinv (tb : TableBuilder F) (Bs : list dblock) (seps : list bytes) (cur : list entry) : Prop := {
  ti_index_inv :> iinv tb Bs seps cur;
  ti_file : f_ok (tb_file tb);
  ti_contents : f_contents (tb_file tb) = image Bs;
  ti_offset : tb_offset tb = len (image Bs);
  ti_closed : tb_closed tb = false;
  ti_filter : filter_inv (len (image Bs))
    (filter_pairs 0 Bs ++ ((λ e : entry, (len (image Bs), e.1)) <$> cur)) (tb_filter_block tb);
}.

Lemma holds_nonempty Bs i b : Forall holds Bs → Bs !! i = Some b → ∃ e, e ∈ db_entries b ∧ head (db_entries b) = Some e.
Proof.
  intros HB Hi. pose proof (Forall_lookup_1 _ _ _ _ HB Hi) as [Hne _].
  destruct (db_entries b) as [|e l]; [done|]. exists e. split; [left|done].
Qed.

(** The index entries are sorted. *)
Lemma index_lookup seps Bs j k v : index_of seps Bs !! j = Some (k, v) →
  seps !! j = Some k ∧ ∃ h, handles 0 Bs !! j = Some h ∧ v = handle_bytes h.
Proof.
  unfold index_of. rewrite lookup_zip_Some. intros [Ha Hb]. split; [done|]. simpl in Hb.
  apply list_lookup_fmap_Some in Hb as (h & -> & ?). eauto.
Qed.
Lemma index_sorted seps Bs cur :
  Forall holds Bs → (∀ j s, seps !! j = Some s → sep_ok Bs cur j s) → sorted ord (index_of seps Bs).
Proof.
  intros HB HS i j [k v] [k' v'] Hij Hi Hj.
  apply index_lookup in Hi as (Hs & h & Hh & ->). apply index_lookup in Hj as (Hs' & h' & Hh' & ->).
  apply lookup_lt_Some in Hh' as Hlt. rewrite length_handles in Hlt.
  destruct (lookup_lt_is_Some_2 Bs j Hlt) as [b Hb].
  destruct (holds_nonempty _ _ _ HB Hb) as (e & He & _). simpl.
  eapply (ord_lt_le_trans ord); [by eapply (so_lower _ _ _ _ (HS _ _ Hs))|].
  by eapply (so_upper _ _ _ _ (HS _ _ Hs')).
Qed.
Lemma index_keys seps Bs cur :
  (∀ j s, seps !! j = Some s → sep_ok Bs cur j s) → Forall (λ e, key_ok e.1) (index_of seps Bs).
Proof.
  intros HS. apply Forall_lookup. intros j [k v] (Hs & _)%index_lookup. exact (so_key _ _ _ _ (HS _ _ Hs)).
Qed.

(** *** The filter block follows *)

Lemma filter_start off off' added fb tb :
  filter_inv off added fb → 0 ≤ off ≤ off' → (length added ≤ length allk)%nat →
  tb_filter_policy tb = to_filter_policy o → tb_filter_block tb = fb →
  ∃ fb', filter_inv off' added fb' ∧
    (match fb, tb_filter_policy tb with
     | Some fb, Some P => fb ← lift (@start_block P fb off'); modify (tb_set_filter_block (Some fb))
     | _, _ => mret tt
     end : st (TableBuilder F) unit) tb = (Ok tt, tb_set_filter_block fb' tb).
Proof.
  intros Hf Hoff Hlen -> Hfb. unfold filter_inv in *. destruct (to_filter_policy o) as [P|].
  - destruct fb as [b|]; [|done]. destruct Hf as (Fs & Hb & HFs).
    destruct (start_block_ok allk all_fits b Fs added off' Hb) as (b' & Fs' & Hst & Hb' & HFs'); [done|lia| |].
    { rewrite HFs. apply Z.div_le_mono; [done|lia]. }
    exists (Some b'). split; [by exists Fs'|]. by rewrite Hst.
  - destruct fb; [done|]. exists None. split; [done|]. destruct tb. simpl in *. by subst.
Qed.

Lemma filter_add off added fb k :
  filter_inv off added fb → 0 ≤ off → k ∈ allk →
  filter_inv off (added ++ [(off, k)]) ((λ fb, fbb_add_key fb k) <$> fb).
Proof.
  intros Hf Hoff Hk. unfold filter_inv in *. destruct (to_filter_policy o) as [P|], fb as [b|]; try done.
  destruct Hf as (Fs & Hb & HFs). exists Fs. split; [|done].
  apply (add_keys_ok allk b Fs added off [k]); [done| |].
  - unfold filter_index. rewrite <- HFs. unfold len. lia.
  - intros k' ->%list_elem_of_singleton. done.
Qed.

(** *** Flushing a data block *)

Lemma lift_assert_bind {S B} b (f : unit → st S B) s : b = true → (lift (rust_assert b) ≫= f) s = f tt s.
Proof. by intros ->. Qed.
Lemma assert_open (tb : TableBuilder F) : tb_closed tb = false → assert_not_closed tb = (Ok tt, tb).
Proof. intros H. unfold assert_not_closed. by rewrite gets_bind, H. Qed.

Lemma last_cur (Bs : list dblock) (cur : list entry) : cur = [] → entries_of Bs ++ cur = entries_of Bs.
Proof. intros ->. apply app_nil_r. Qed.

(** Moving the current entries into a finished block. *)
Lemma tinv_push tb tb' Bs seps cur c ct :
  tinv tb Bs seps cur → cur ≠ [] → tb_pending_index_entry tb = false →
  stored (bb_finish (tb_data_block tb)).1 c ct →
  let b := mkDB cur c ct in
  f_ok (tb_file tb') → f_contents (tb_file tb') = image (Bs ++ [b]) →
  tb_offset tb' = len (image (Bs ++ [b])) →
  tb_data_block tb' = fresh (to_block_restart_interval o) →
  tb_index_block tb' = tb_index_block tb → tb_closed tb' = false →
  mkTO (tb_block_size tb') (tb_block_restart_interval tb') (tb_compression tb') (tb_filter_policy tb') = o →
  tb_pending_index_entry tb' = true →
  tb_pending_handle tb' = mkHandle (len (image Bs)) (len c) →
  tb_last_key tb' = tb_last_key tb → tb_num_entries tb' = tb_num_entries tb →
  filter_inv (len (image (Bs ++ [b]))) (filter_pairs 0 (Bs ++ [b])) (tb_filter_block tb') →
  tinv tb' (Bs ++ [b]) seps [].
Proof.
  intros HT Hne Hp Hst b Hok Hc Ho Hd Hi Hcl Hop Hp' Hh Hl Hnum Hf.
  pose proof (ti_pending _ _ _ _ HT) as Hlen. rewrite Hp in Hlen.
  assert (entries_of (Bs ++ [b]) ++ [] = entries_of Bs ++ cur) as Hes.
  { by rewrite app_nil_r, entries_snoc. }
  split; [split|..]; try done.
  - by rewrite Hd.
  - rewrite Hi, <- (ti_index _ _ _ _ HT). unfold index_of. rewrite handles_snoc, fmap_app.
    rewrite zip_with_app_r, length_fmap, length_handles.
    rewrite (drop_ge seps) by lia. rewrite (take_ge seps) by lia. simpl. by rewrite app_nil_r.
  - rewrite Hp', handles_snoc, last_snoc, Hh. split_and!; [done| |done]. rewrite length_app. simpl. lia.
  - rewrite Hes. apply HT.
  - rewrite Hes. apply HT.
  - rewrite Hes, Hl. apply HT.
  - rewrite Hes, Hnum. apply HT.
  - apply Forall_app. split; [apply HT|]. constructor; [|constructor]. split; [done|].
    exists (tb_data_block tb). split; [apply HT|done].
  - intros j s Hs. destruct (ti_seps _ _ _ _ HT j s Hs) as [Hk Hu Hlo Hcu]. split; [done|..].
    + intros b' e [Hb|[-> ->]]%lookup_snoc_inv He; [exact (Hu b' e Hb He)|]. apply lookup_lt_Some in Hs. lia.
    + intros j' b' e Hj [Hb|[-> ->]]%lookup_snoc_inv He; [exact (Hlo j' b' e Hj Hb He)|]. by apply Hcu.
    + intros e He. by apply elem_of_nil in He.
  - by rewrite app_nil_r.
Qed.

Lemma pairs_length Bs (cur : list entry) (off : Z) :
  length (filter_pairs 0 Bs ++ ((λ e : entry, (off, e.1)) <$> cur)) = length (entries_of Bs ++ cur).
Proof. by rewrite !length_app, length_filter_pairs, length_fmap. Qed.

Lemma tb_flush_ok tb Bs seps cur :
  tinv tb Bs seps cur → (length (entries_of Bs ++ cur) ≤ length allk)%nat →
  (∃ tb', tb_flush tb = (Err CompressionFailed, tb')) ∨
  ∃ tb' Bs', tb_flush tb = (Ok tt, tb') ∧ tinv tb' Bs' seps [] ∧ entries_of Bs' = entries_of Bs ++ cur ∧
    (cur ≠ [] → tb_pending_index_entry tb' = true) ∧ (cur = [] → Bs' = Bs ∧ tb' = tb).
Proof.
  intros HT Hall. pose proof (fresh_is_empty C _ _ _ (ti_data _ _ _ _ HT)) as [Hemp _].
  unfold tb_flush. erewrite st_bind_Ok by (apply assert_open, HT). rewrite gets_bind, Hemp.
  case_bool_decide as Hcur.
  { right. exists tb, Bs. subst. rewrite app_nil_r. split_and!; try done. }
  pose proof (ti_pending _ _ _ _ HT) as Hp. destruct (tb_pending_index_entry tb) eqn:Hpend; [naive_solver|].
  rewrite gets_bind, Hpend, lift_assert_bind by done.
  destruct (bb_finish (tb_data_block tb)) as [d db] eqn:Hfin. rewrite modify_bind, gets_bind.
  cbn [tb_compression tb_set_data_block].
  destruct (compress_block_cases d (tb_compression tb)) as [(c & ct & Hcmp)|Hcmp]; rewrite Hcmp.
  2: { left. by eexists. }
  rewrite lift_Ok_bind. cbn [fst snd]. right.
  destruct (write_raw_block_ok tb_set_handle c ct (tb_set_data_block db tb)) as (f1 & f2 & Hf2 & Hc2 & Hw);
    [apply HT|done|done|]. erewrite st_bind_Ok by exact Hw. clear Hw.
  rewrite gets_bind. cbn [tb_data_block tb_set_offset tb_set_file tb_set_handle tb_set_data_block].
  erewrite st_bind_Ok.
  2: { unfold lift. rewrite <- (f_equal snd Hfin : _ = db), (fresh_reset _ _ _ _ (ti_data _ _ _ _ HT)). done. }
  rewrite !modify_bind. destruct (law_flush f2 Hf2) as (f3 & Hfl & Hf3 & Hc3 & _).
  erewrite st_bind_Ok by (unfold on_file; cbn [tb_file tb_set_pending tb_set_data_block tb_set_offset tb_set_file];
    by rewrite Hfl).
  rewrite !gets_bind. set (b := mkDB cur c ct).
  assert (tb_offset tb + (len c + BLOCK_TRAILER_SIZE) = len (image (Bs ++ [b]))) as Hoff.
  { rewrite image_snoc, len_app, (ti_offset _ _ _ _ HT). unfold block_image. simpl. by rewrite len_app, len_trailer. }
  set (tb1 := tb_set_file f3 _).
  pose proof (ti_opts _ _ _ _ HT) as Hopts.
  destruct (filter_start (len (image Bs)) (len (image (Bs ++ [b])))
    (filter_pairs 0 (Bs ++ [b])) (tb_filter_block tb) tb1) as (fb' & Hfi & Hrun).
  - rewrite filter_pairs_snoc. exact (ti_filter _ _ _ _ HT).
  - rewrite image_snoc, len_app. pose proof (len_nonneg (image Bs)). pose proof (len_nonneg (block_image b)). lia.
  - by rewrite length_filter_pairs, entries_snoc.
  - by rewrite <- Hopts.
  - done.
  - change (tb_offset tb1) with (tb_offset tb + (len c + BLOCK_TRAILER_SIZE)). rewrite Hoff.
    exists (tb_set_filter_block fb' tb1), (Bs ++ [b]). split; [exact Hrun|]. split_and!; try done.
    + eapply tinv_push; try done.
      * rewrite Hfin. by eapply compress_block_stored.
      * change (f_contents f3 = image (Bs ++ [b])).
        rewrite Hc3, Hc2, image_snoc. by rewrite <- (ti_contents _ _ _ _ HT).
      * apply HT.
      * change (mkHandle (tb_offset tb) (len c) = mkHandle (len (image Bs)) (len c)).
        by rewrite (ti_offset _ _ _ _ HT).
    + by rewrite entries_snoc.
Qed.

(** *** Appending the pending index entry *)

Definition key_after (es : list entry) (key : option bytes) : Prop :=
  match key with Some k => key_ok k ∧ ∀ e, e ∈ es → ord e.1 k = Lt | None => True end.

Lemma last_entry Bs b : Forall holds Bs → last Bs = Some b → ∃ e, last (entries_of Bs) = Some e ∧ last (db_entries b) = Some e.
Proof.
  intros HB [Bs' ->]%last_Some. apply Forall_app in HB as [_ [[Hne _] _]%Forall_cons].
  destruct (last (db_entries b)) as [e|] eqn:Hl; [|by apply last_None in Hl]. exists e.
  split; [|done]. by rewrite entries_snoc, last_app, Hl.
Qed.

(** The key [maybe_append_index_block] chooses separates the last block. *)
Lemma pending_sep tb Bs seps b key :
  iinv tb Bs seps [] → last Bs = Some b → S (length seps) = length Bs → key_after (entries_of Bs) key →
  ∃ s, match key with Some k => separator (tb_last_key tb) k | None => successor (tb_last_key tb) end = Ok s ∧
    sep_ok Bs [] (length seps) s ∧ ∀ k, key = Some k → ord s k = Lt.
Proof.
  intros HT Hb Hlen Hkey. destruct (last_entry _ _ (ti_blocks _ _ _ _ HT) Hb) as (e & He & Heb).
  pose proof (ti_last _ _ _ _ HT e) as Hl. rewrite app_nil_r in Hl. rewrite (Hl He).
  pose proof (ti_keys _ _ _ _ HT) as Hk. pose proof (ti_sorted _ _ _ _ HT) as Hs. rewrite app_nil_r in Hk, Hs.
  assert (e ∈ entries_of Bs) as Hein by (apply last_Some in He as [l ->]; apply elem_of_app; right; left).
  rewrite Forall_forall in Hk. pose proof (Hk e Hein) as Hke. simpl in Hke.
  assert (∀ e', e' ∈ db_entries b → ord e'.1 e.1 ≠ Gt) as Hupper.
  { apply last_Some in Hb as [Bs' ->]. apply last_Some in Heb as [l Hbl]. intros e' He'.
    rewrite entries_snoc in Hs. apply sorted_app_r in Hs. rewrite Hbl in He', Hs.
    apply elem_of_app in He' as [He'|He'%list_elem_of_singleton]; [|subst; by rewrite (ord_refl ord)].
    rewrite (sorted_cross ord l [e] e' e); [done..|left]. }
  assert (∀ s, key_ok s → ord e.1 s ≠ Gt → sep_ok Bs [] (length seps) s) as Hmk.
  { intros s Hks Hes. assert (Bs !! length seps = Some b) as Hbl.
    { rewrite <- Hb, last_lookup, <- Hlen. done. }
    split; [done|..].
    - intros b' e' Hb' He'. rewrite Hbl in Hb'. injection Hb' as <-.
      exact (ord_le_trans ord _ _ _ (Hupper e' He') Hes).
    - intros j' b' e' Hj Hb' He'. apply lookup_lt_Some in Hb'. lia.
    - intros e' He'. by apply elem_of_nil in He'. }
  destruct key as [k|].
  - destruct Hkey as [Hkk Hlt]. destruct (separator_spec e.1 k Hke Hkk (Hlt e Hein)) as (s & -> & ? & ? & ?).
    exists s. split_and!; [done|by apply Hmk|]. by intros ? [= <-].
  - destruct (successor_spec e.1 Hke) as (s & -> & ? & ?). exists s. split_and!; [done|by apply Hmk|done].
Qed.

Lemma index_snoc seps s Bs h :
  S (length seps) = length Bs → last (handles 0 Bs) = Some h →
  index_of (seps ++ [s]) Bs = index_of seps Bs ++ [(s, handle_bytes h)].
Proof.
  intros Hlen Hh. apply last_Some in Hh as [hs Hhs]. unfold index_of. rewrite Hhs, fmap_app.
  assert (length hs = length seps) as Hl.
  { pose proof (length_handles 0 Bs) as Hlh. rewrite Hhs, length_app in Hlh. simpl in Hlh. lia. }
  rewrite zip_with_app by (by rewrite length_fmap). simpl. f_equal.
  rewrite zip_with_app_r, length_fmap, Hl, drop_all, take_ge by lia. simpl. by rewrite app_nil_r.
Qed.

Lemma maybe_append_ok key tb Bs seps cur :
  iinv tb Bs seps cur → key_after (entries_of Bs ++ cur) key →
  ∃ r tb' seps' ib, maybe_append_index_block C key tb = (Ok r, tb') ∧ iinv tb' Bs seps' cur ∧
    length seps' = length Bs ∧
    tb' = tb_set_pending false (tb_set_index_block ib tb) ∧
    (∀ k, key = Some k → (Bs = [] ∨ tb_pending_index_entry tb = true ∨ cur ≠ []) →
       ∀ s, s ∈ seps' → ord s k = Lt).
Proof.
  intros HT Hkey. unfold maybe_append_index_block. rewrite gets_bind.
  pose proof (ti_pending _ _ _ _ HT) as Hp. destruct (tb_pending_index_entry tb) eqn:Hpend.
  - destruct Hp as (-> & Hlen & Hlh). rewrite gets_bind.
    destruct (fresh_is_empty C _ _ _ (ti_data _ _ _ _ HT)) as [-> _]. rewrite lift_assert_bind by done.
    rewrite gets_bind. rewrite app_nil_r in Hkey.
    assert (∃ b, last Bs = Some b) as [b Hb].
    { destruct (last Bs) eqn:Hl; [eauto|]. apply last_None in Hl. by subst. }
    destruct (pending_sep _ _ _ _ _ HT Hb Hlen Hkey) as (s & -> & Hsep & Hsk).
    rewrite lift_Ok_bind, !gets_bind, bh_encoded_eq.
    assert (∀ j s', (seps ++ [s]) !! j = Some s' → sep_ok Bs [] j s') as Hseps.
    { intros j s' [Hj|[-> ->]]%lookup_snoc_inv; [exact (ti_seps _ _ _ _ HT _ _ Hj)|done]. }
    destruct (fresh_add_sorted C key_ok ord (to_block_restart_interval o) (index_of (seps ++ [s]) Bs) Hn)
      as (ib & Hib).
    { by eapply index_sorted; [apply HT|]. } { by eapply index_keys. }
    pose proof Hib as Hib'. rewrite (index_snoc _ _ _ _ Hlen Hlh), bb_add_all_app, (ti_index _ _ _ _ HT) in Hib.
    rewrite Ok_bind, bb_add_all_one in Hib. rewrite Hib, lift_Ok_bind, !modify_bind.
    eexists _, _, (seps ++ [s]), ib. split; [done|]. split_and!; [|rewrite length_app; simpl; lia|done|].
    + destruct HT. split; try done. simpl. rewrite length_app. simpl. lia.
    + intros k -> _ s' [Hs'|Hs']%elem_of_app.
      * apply list_elem_of_lookup_1 in Hs' as [j Hj]. pose proof (ti_seps _ _ _ _ HT j s' Hj) as Hso.
        destruct (holds_nonempty Bs j) with (b := default b (Bs !! j)) as (e & He & _); [apply HT| |].
        { destruct (Bs !! j) eqn:HBj; [done|]. apply lookup_ge_None in HBj. apply lookup_lt_Some in Hj. lia. }
        destruct (Bs !! length seps) as [b2|] eqn:Hb2; [|apply lookup_ge_None in Hb2; lia].
        destruct (holds_nonempty Bs _ b2 (ti_blocks _ _ _ _ HT) Hb2) as (e2 & He2 & _).
        eapply (ord_lt_trans ord _ e2.1).
        -- eapply (so_lower _ _ _ _ Hso); [|done|done]. by eapply lookup_lt_Some.
        -- apply Hkey. by eapply entries_elem.
      * apply list_elem_of_singleton in Hs' as ->. by apply Hsk.
  - exists false, tb, seps, (tb_index_block tb). split; [done|]. split_and!; [done..| |].
    + destruct tb. simpl in *. by subst.
    + intros k -> Hcase s [j Hj]%list_elem_of_lookup_1. pose proof (ti_seps _ _ _ _ HT j s Hj) as Hso.
      apply lookup_lt_Some in Hj. destruct Hcase as [->|[?|Hc]]; [simpl in *; lia|done|].
      destruct cur as [|e cur]; [done|]. eapply (ord_lt_trans ord _ e.1).
      * apply (so_cur _ _ _ _ Hso). left.
      * apply Hkey. apply elem_of_app. right. left.
Qed.

(** *** Adding an entry *)

Definition tready (tb : TableBuilder F) (Bs : list dblock) (seps : list bytes) (cur : list entry) : Prop :=
  tinv tb Bs seps cur ∧ (Bs = [] ∨ tb_pending_index_entry tb = true ∨ cur ≠ []).

(** The state after the entry went into the data block. *)
Lemma tinv_snoc tb tb' Bs seps cur k v :
  tinv tb Bs seps cur → key_after (entries_of Bs ++ cur) (Some k) → k ∈ allk → length seps = length Bs →
  tb_pending_index_entry tb = false → (∀ s, s ∈ seps → ord s k = Lt) →
  bb_add C (tb_data_block tb) k v = Ok (tb_data_block tb') →
  tb' = tb_set_data_block (tb_data_block tb') (tb_set_last k (tb_num_entries tb + 1)
          (tb_set_filter_block ((λ fb, fbb_add_key fb k) <$> tb_filter_block tb) tb)) →
  tinv tb' Bs seps (cur ++ [(k, v)]).
Proof.
  intros [HT Hf Hc Ho Hcl Hfi] [Hk Hlt] Hin Hlen Hp Hs Hadd ->. pose proof (ti_filter) as _.
  split; simpl; try done.
  - destruct HT as [Hd Hi Hop Hpe Hso Hke Hla Hnu Hbl Hse]. split; simpl; try done.
    + by rewrite bb_add_all_app, Hd, Ok_bind, bb_add_all_one.
    + by rewrite Hp.
    + rewrite app_assoc. apply sorted_snoc; [done|]. intros a Ha. by apply Hlt.
    + rewrite app_assoc, Forall_app. split; [done|]. by constructor.
    + intros e. rewrite app_assoc, last_snoc. by intros [= <-].
    + rewrite Hnu, app_assoc, (length_app _ [_]). done.
    + intros j s Hj. destruct (Hse j s Hj) as [H1 H2 H3 H4]. split; try done.
      intros e [He|He]%elem_of_app; [by apply H4|]. apply list_elem_of_singleton in He as ->.
      apply Hs. by eapply list_elem_of_lookup_2.
  - rewrite fmap_app, app_assoc. simpl. apply filter_add; [done|apply len_nonneg|done].
Qed.

Lemma tb_add_ok tb Bs seps cur k v :
  tready tb Bs seps cur → key_after (entries_of Bs ++ cur) (Some k) → k ∈ allk →
  (length (entries_of Bs ++ cur) < length allk)%nat →
  (∃ tb', tb_add C k v tb = (Err CompressionFailed, tb')) ∨
  ∃ tb' Bs' seps' cur', tb_add C k v tb = (Ok tt, tb') ∧ tready tb' Bs' seps' cur' ∧
    entries_of Bs' ++ cur' = (entries_of Bs ++ cur) ++ [(k, v)].
Proof.
  intros [HT Hready] Hkey Hin Hall. unfold tb_add. erewrite st_bind_Ok by (apply assert_open, HT).
  rewrite !gets_bind. erewrite st_bind_Ok.
  2: { assert (bool_decide (0 < tb_num_entries tb)%nat = true → compare k (tb_last_key tb) = Ok Gt) as Hcmp.
       { intros Hpos%bool_decide_eq_true_1. rewrite (ti_num _ _ _ _ HT) in Hpos.
         destruct (last (entries_of Bs ++ cur)) as [e|] eqn:Hl.
         2: { apply last_None in Hl. rewrite Hl in Hpos. simpl in Hpos. lia. }
         rewrite (ti_last _ _ _ _ HT e Hl).
         assert (e ∈ entries_of Bs ++ cur) as He by (apply last_Some in Hl as [l ->]; apply elem_of_app; right; left).
         pose proof (ti_keys _ _ _ _ HT) as Hks. rewrite Forall_forall in Hks.
         destruct Hkey as [Hk Hlt]. rewrite (compare_ord k e.1 Hk (Hks e He)). f_equal.
         apply (ord_gt_lt ord). by apply Hlt. }
       destruct (bool_decide _); [|done]. rewrite Hcmp by done. done. }
  destruct (maybe_append_ok (Some k) tb Bs seps cur HT Hkey) as (r & tb1 & seps1 & ib & Hma & HI1 & Hl1 & Htb1 & Hsk).
  erewrite st_bind_Ok by exact Hma. specialize (Hsk k eq_refl Hready).
  assert (tinv tb1 Bs seps1 cur) as HT1.
  { split; [done|..]; subst tb1; apply HT. }
  rewrite gets_bind, !modify_bind, gets_bind.
  change (tb_data_block (tb_set_last _ _ _)) with (tb_data_block tb1).
  destruct (fresh_add_sorted C key_ok ord (to_block_restart_interval o) (cur ++ [(k, v)]) Hn) as (db & Hdb).
  { apply (sorted_app_r ord (entries_of Bs)). rewrite app_assoc. apply sorted_snoc; [apply HT|].
    intros a Ha. by apply Hkey. }
  { pose proof (ti_keys _ _ _ _ HT) as Hk. apply Forall_app in Hk as [_ Hk]. apply Forall_app.
    split; [done|]. constructor; [apply Hkey|done]. }
  rewrite bb_add_all_app, (ti_data _ _ _ _ HT1), Ok_bind, bb_add_all_one in Hdb.
  rewrite Hdb, lift_Ok_bind, modify_bind, gets_bind.
  set (tb2 := tb_set_data_block db _).
  assert (tinv tb2 Bs seps1 (cur ++ [(k, v)])) as HT2.
  { apply (tinv_snoc tb1 tb2); try done; subst tb1; done. }
  destruct (Z.leb _ _).
  - destruct (tb_flush_ok _ _ _ _ HT2) as [?|(tb3 & Bs3 & -> & HT3 & Hes & Hp & _)].
    + rewrite app_assoc, (length_app _ [_]). simpl. lia.
    + by left.
    + right. exists tb3, Bs3, seps1, []. split_and!; [done| |].
      * split; [done|]. right. left. apply Hp. by destruct cur.
      * by rewrite app_nil_r, Hes, app_assoc.
  - right. exists tb2, Bs, seps1, (cur ++ [(k, v)]). split_and!; [done| |by rewrite app_assoc].
    split; [done|]. right. right. by destruct cur.
Qed.

Lemma tb_add_all_ok tb Bs seps cur es :
  tready tb Bs seps cur → sorted ord ((entries_of Bs ++ cur) ++ es) → Forall (λ e, key_ok e.1) es →
  (∀ e, e ∈ es → e.1 ∈ allk) → (length ((entries_of Bs ++ cur) ++ es) ≤ length allk)%nat →
  (∃ tb', tb_add_all C es tb = (Err CompressionFailed, tb')) ∨
  ∃ tb' Bs' seps' cur', tb_add_all C es tb = (Ok tt, tb') ∧ tready tb' Bs' seps' cur' ∧
    entries_of Bs' ++ cur' = (entries_of Bs ++ cur) ++ es.
Proof.
  revert tb Bs seps cur. induction es as [|[k v] es IH]; intros tb Bs seps cur HT Hs Hk Hin Hlen.
  { right. exists tb, Bs, seps, cur. by rewrite app_nil_r. }
  inversion Hk as [|?? Hk1 Hk2]; subst. simpl in Hk1.
  rewrite length_app in Hlen. simpl in Hlen.
  destruct (tb_add_ok tb Bs seps cur k v HT) as [[tb1 Hadd]|(tb1 & Bs1 & seps1 & cur1 & Hadd & HT1 & He1)].
  { split; [done|]. intros e He. apply (sorted_cross ord _ _ e (k, v) Hs He). left. }
  { apply (Hin (k, v)). left. } { lia. }
  - left. exists tb1. simpl. unfold mbind, st_bind. by rewrite Hadd.
  - simpl. rewrite (st_bind_Ok _ _ _ _ _ Hadd).
    destruct (IH tb1 Bs1 seps1 cur1 HT1) as [?|(tb2 & Bs2 & seps2 & cur2 & ? & ? & He2)].
    + by rewrite He1, <- app_assoc.
    + done.
    + intros e He. apply Hin. by right.
    + rewrite He1, !length_app in *. simpl in *. lia.
    + by left.
    + right. exists tb2, Bs2, seps2, cur2. split_and!; [done..|]. by rewrite He2, He1, <- app_assoc.
Qed.

Lemma tb_new_ok f : f_ok f → f_contents f = [] → ∃ tb, tb_new f o = Ok tb ∧ tready tb [] [] [].
Proof.
  intros Hf Hc. unfold tb_new. rewrite bb_new_fresh, !Ok_bind by done.
  assert (∃ fb, (match to_filter_policy o with
       | Some P => f ← @start_block P fbb_new 0; Ok (Some f)
       | None => Ok None
       end) = Ok fb ∧ filter_inv 0 [] fb) as (fb & -> & Hfb).
  { unfold filter_inv. destruct (to_filter_policy o) as [P|]; [|by exists None].
    destruct (start_block_ok allk all_fits fbb_new [] [] 0) as (b & Fs & -> & Hb & HFs); try done; [|simpl; lia|].
    - split; try done; intros *; by intros ?%elem_of_nil.
    - exists (Some b). split; [done|]. by exists Fs. }
  rewrite Ok_bind. eexists. split; [done|]. split; [|by left].
  split; simpl; try done. split; simpl; try done.
  by destruct o.
Qed.

(** *** Finishing the table *)

Context (filter_key_ok : key_ok (filter_key (to_filter_policy o))).

Definition block_end (c : bytes) (ct : CompressionType) : bytes := c ++ block_trailer c ct.

(** A block built from [es], as it is stored. *)
Definition stored_block (es : list entry) (c : bytes) (ct : CompressionType) : Prop :=
  ∃ bb, bb_add_all C (fresh (to_block_restart_interval o)) es = Ok bb ∧ stored (bb_finish bb).1 c ct.

(** The filter block and the entries of the meta block. *)
Definition filter_part (Bs : list dblock) (fimg : bytes) (metas : list entry) : Prop :=
  match to_filter_policy o with
  | Some P => ∃ data fb fb', @fbb_finish P fb = Ok (data, fb') ∧
      filter_inv (len (image Bs)) (filter_pairs 0 Bs) (Some fb) ∧
      fimg = block_end data NoCompression ∧
      metas = [(filter_key (Some P), handle_bytes (mkHandle (len (image Bs)) (len data)))]
  | None => fimg = [] ∧ metas = []
  end.

(** The finished file. *)
Record tfile (f : F) (Bs : list dblock) (seps : list bytes) (fimg : bytes) (metas : list entry)
    (mc : bytes) (mct : CompressionType) (ic : bytes) (ict : CompressionType) (footer : bytes) : Prop := {
  tf_file : f_ok f;
  tf_contents : f_contents f =
    image Bs ++ fimg ++ block_end mc mct ++ block_end ic ict ++ footer;
  tf_filter : filter_part Bs fimg metas;
  tf_meta : stored_block metas mc mct;
  tf_index : stored_block (index_of seps Bs) ic ict;
  tf_footer : footer_encoded (mkFooter (mkHandle (len (image Bs ++ fimg)) (len mc))
    (mkHandle (len (image Bs ++ fimg ++ block_end mc mct)) (len ic))) = Ok footer;
  tf_seps : length seps = length Bs;
  tf_blocks : Forall holds Bs;
  tf_sorted : sorted ord (entries_of Bs);
  tf_keys : Forall (λ e, key_ok e.1) (entries_of Bs);
  tf_sep_ok j s : seps !! j = Some s → sep_ok Bs [] j s;
}.

Lemma footer_encoded_ok ft : ∃ v, footer_encoded ft = Ok v ∧ length v = FOOTER_ENCODED_LENGTH.
Proof.
  unfold footer_encoded. rewrite put_fixed_64_eq.
  set (x := resize _ 0 _). assert (length x = 40%nat) as Hr by apply length_resize.
  rewrite bool_decide_eq_true_2 by (by rewrite length_app, Hr, length_to_le_bytes).
  eexists. split; [done|]. by rewrite length_app, Hr, length_to_le_bytes.
Qed.

(** Writing a raw block without an out-parameter. *)
Lemma write_plain tb data ct :
  f_ok (tb_file tb) → ∃ f, f_ok f ∧ f_contents f = f_contents (tb_file tb) ++ block_end data ct ∧
    write_raw_block no_handle data ct tb =
      (Ok (mkHandle (tb_offset tb) (len data)),
       tb_set_offset (tb_offset tb + len (block_end data ct)) (tb_set_file f tb)).
Proof.
  intros Hf. destruct (write_raw_block_ok no_handle data ct tb Hf) as (f1 & f2 & H2 & Hc & ->); [done..|].
  exists f2. unfold block_end. by rewrite len_app, len_trailer.
Qed.

(** The filter block of [finish]. *)
Lemma finish_filter tb Bs : 
  f_ok (tb_file tb) → tb_filter_policy tb = to_filter_policy o →
  filter_inv (len (image Bs)) (filter_pairs 0 Bs) (tb_filter_block tb) →
  (length (entries_of Bs) ≤ length allk)%nat → tb_offset tb = len (image Bs) →
  ∃ f fb fimg metas fh, filter_part Bs fimg metas ∧ f_ok f ∧
    f_contents f = f_contents (tb_file tb) ++ fimg ∧
    metas = match fh with Some h => [(filter_key (to_filter_policy o), handle_bytes h)] | None => [] end ∧
    (match tb_filter_block tb, tb_filter_policy tb with
     | Some fb, Some P =>
       r ← lift (@fbb_finish P fb);
       let '(data, fb) := r in
       _ ← modify (tb_set_filter_block (Some fb));
       h ← write_raw_block no_handle data NoCompression;
       mret (Some h)
     | _, _ => mret None
     end : st (TableBuilder F) (option BlockHandle)) tb =
    (Ok fh, tb_set_offset (tb_offset tb + len fimg) (tb_set_file f (tb_set_filter_block fb tb))).
Proof.
  intros Hf -> Hfi Hlen Hoff. unfold filter_part. unfold filter_inv in Hfi.
  destruct (to_filter_policy o) as [P|] eqn:HP; destruct (tb_filter_block tb) as [b|] eqn:Hb; try done.
  - destruct Hfi as (Fs & Hinv & HFs).
    destruct (fbb_finish_ok allk all_fits b Fs _ Hinv) as (data & b' & Fs' & Hfin & _).
    { by rewrite length_filter_pairs. }
    rewrite Hfin, lift_Ok_bind, modify_bind.
    destruct (write_plain (tb_set_filter_block (Some b') tb) data NoCompression Hf) as (f & Hf' & Hc & Hw).
    eexists f, (Some b'), _, _, (Some _). split_and!; [|done|done|done|].
    + exists data, b, b'. split_and!; [done| |done|done]. unfold filter_inv. rewrite HP. by exists Fs.
    + rewrite (st_bind_Ok _ _ _ _ _ Hw). simpl. by rewrite Hoff.
  - exists (tb_file tb), None, [], [], None. split_and!; try done; [by rewrite app_nil_r|].
    destruct tb. simpl in *. subst. by rewrite Z.add_0_r.
Qed.

(** The meta block of [finish]. *)
Lemma finish_meta fh : let metas :=
    match fh with Some h => [(filter_key (to_filter_policy o), handle_bytes h)] | None => [] end in
  ∃ mb, bb_add_all C (fresh (to_block_restart_interval o)) metas = Ok mb ∧
    match fh with
    | Some h => bb_add C (fresh (to_block_restart_interval o)) (filter_key (to_filter_policy o)) (bh_encoded h)
    | None => Ok (fresh (to_block_restart_interval o))
    end = Ok mb.
Proof.
  intros metas. destruct (fresh_add_sorted C key_ok ord (to_block_restart_interval o) metas Hn) as [mb Hmb].
  - intros i j a b Hij Ha Hb. apply lookup_lt_Some in Hb. unfold metas in Hb. destruct fh; simpl in Hb; lia.
  - unfold metas. destruct fh; by repeat constructor.
  - exists mb. split; [done|]. unfold metas in Hmb. destruct fh as [h|]; [|done].
    by rewrite bb_add_all_one, <- bh_encoded_eq in Hmb.
Qed.

(** [compress_block] and [write_raw_block] of a block. *)
Lemma write_compressed tb es bb :
  f_ok (tb_file tb) → bb_add_all C (fresh (to_block_restart_interval o)) es = Ok bb →
  compress_block (bb_finish bb).1 (tb_compression tb) = Err CompressionFailed ∨
  ∃ c ct f, compress_block (bb_finish bb).1 (tb_compression tb) = Ok (c, ct) ∧ stored_block es c ct ∧ f_ok f ∧
    f_contents f = f_contents (tb_file tb) ++ block_end c ct ∧
    write_raw_block no_handle c ct tb = (Ok (mkHandle (tb_offset tb) (len c)),
       tb_set_offset (tb_offset tb + len (block_end c ct)) (tb_set_file f tb)).
Proof.
  intros Hf Hbb. destruct (compress_block_cases (bb_finish bb).1 (tb_compression tb)) as [(c & ct & Hc)|Hc]; [|by left].
  right. destruct (write_plain tb c ct Hf) as (f & ? & ? & ?). exists c, ct, f. split_and!; try done.
  exists bb. split; [done|]. by eapply compress_block_stored.
Qed.

(** The closing part of [finish]: footer, sync, close. *)
Lemma finish_footer ft sync tb footer :
  f_ok (tb_file tb) → footer_encoded ft = Ok footer →
  ∃ tb', (f ← lift (footer_encoded ft);
          _ ← on_file (λ fl, file_write fl f);
          offset ← gets tb_offset;
          _ ← modify (tb_set_offset (offset + len f));
          if (sync : bool) then _ ← on_file file_flush; on_file file_close else mret tt : st (TableBuilder F) unit) tb
         = (Ok tt, tb') ∧
    f_ok (tb_file tb') ∧ f_contents (tb_file tb') = f_contents (tb_file tb) ++ footer.
Proof.
  intros Hf Hft. rewrite Hft, lift_Ok_bind.
  destruct (law_write (tb_file tb) footer Hf) as (f1 & Hw & Hf1 & Hc1 & _).
  erewrite st_bind_Ok by (unfold on_file; by rewrite Hw). rewrite gets_bind, modify_bind. destruct sync.
  - destruct (law_flush f1 Hf1) as (f2 & Hfl & Hf2 & Hc2 & _).
    destruct (law_close f2 Hf2) as (f3 & Hcl & Hf3 & Hc3).
    erewrite st_bind_Ok by (unfold on_file; cbn [tb_file tb_set_offset tb_set_file]; by rewrite Hfl).
    unfold on_file. cbn [tb_file tb_set_offset tb_set_file]. rewrite Hcl. eexists. split; [done|].
    split; [done|]. cbn [tb_file tb_set_offset tb_set_file]. by rewrite Hc3, Hc2.
  - eexists. split; [done|]. done.
Qed.

Lemma tb_finish_ok sync tb Bs seps cur :
  tready tb Bs seps cur → (length (entries_of Bs ++ cur) ≤ length allk)%nat →
  (∃ tb', tb_finish C sync tb = (Err CompressionFailed, tb')) ∨
  ∃ tb' Bs' seps' fimg metas mc mct ic ict footer,
    tb_finish C sync tb = (Ok tt, tb') ∧ tfile (tb_file tb') Bs' seps' fimg metas mc mct ic ict footer ∧
    entries_of Bs' = entries_of Bs ++ cur.
Proof.
  intros [HT Hready] Hlen. unfold tb_finish.
  destruct (tb_flush_ok _ _ _ _ HT Hlen) as [[tb' Hfl]|(tb1 & Bs1 & Hfl & HT1 & He1 & _)].
  { left. exists tb'. unfold mbind at 1, st_bind at 1. by rewrite Hfl. }
  rewrite (st_bind_Ok _ _ _ _ _ Hfl). erewrite st_bind_Ok by (apply assert_open, HT1). rewrite modify_bind, !gets_bind.
  pose proof (ti_filter _ _ _ _ HT1) as Hfi. simpl in Hfi. rewrite app_nil_r in Hfi.
  pose proof (ti_opts _ _ _ _ HT1) as Hopts.
  destruct (finish_filter (tb_set_closed true tb1) Bs1) as (f2 & fb2 & fimg & metas & fh & Hpart & Hf2 & Hc2 & Hmt & Hrun);
    [apply HT1|by rewrite <- Hopts|done|by rewrite He1|apply HT1|].
  rewrite (st_bind_Ok _ _ _ _ _ Hrun). clear Hrun. rewrite gets_bind.
  set (tb2 := tb_set_offset _ _). assert (iinv tb2 Bs1 seps []) as HI2.
  { destruct HT1 as [[] ]. split; done. }
  assert (tb_block_restart_interval tb2 = to_block_restart_interval o) as -> by (by rewrite <- Hopts).
  rewrite bb_new_fresh, lift_Ok_bind by done.
  destruct (finish_meta fh) as (mb & Hmb & Hmb2). rewrite <- Hmt in Hmb.
  assert (tb_filter_policy (tb_set_closed true tb1) = to_filter_policy o) as -> by (by rewrite <- Hopts).
  rewrite Hmb2, lift_Ok_bind.
  destruct (write_compressed tb2 metas mb Hf2 Hmb) as [Hcm|(mc & mct & f3 & Hcm & Hms & Hf3 & Hc3 & Hw3)].
  { left. unfold mbind at 1, st_bind at 1, tb_write_block. rewrite gets_bind, Hcm. by eexists. }
  erewrite st_bind_Ok by (unfold tb_write_block; rewrite gets_bind, Hcm, lift_Ok_bind; exact Hw3).
  set (tb3 := tb_set_offset _ _). assert (iinv tb3 Bs1 seps []) as HI3.
  { destruct HI2. split; done. }
  destruct (maybe_append_ok None tb3 Bs1 seps [] HI3 I) as (r & tb4 & seps4 & ib & Hma & HI4 & Hl4 & Htb4 & _).
  rewrite (st_bind_Ok _ _ _ _ _ Hma), gets_bind. clear Hma.
  destruct (bb_finish (tb_index_block tb4)) as [idata ib'] eqn:Hfin. rewrite modify_bind, gets_bind.
  destruct (write_compressed (tb_set_index_block ib' tb4) _ _ ltac:(subst tb4; exact Hf3) (ti_index _ _ _ _ HI4))
    as [Hci|(ic & ict & f5 & Hci & His & Hf5 & Hc5 & Hw5)]; rewrite Hfin in Hci; cbn [fst] in Hci; rewrite Hci.
  { left. by eexists. }
  rewrite lift_Ok_bind. cbn [fst snd]. rewrite (st_bind_Ok _ _ _ _ _ Hw5). clear Hw5.
  rewrite <- (f_equal snd Hfin : _ = ib'), (fresh_reset _ _ _ _ (ti_index _ _ _ _ HI4)), lift_Ok_bind, modify_bind.
  set (ft := mkFooter _ _). destruct (footer_encoded_ok ft) as (footer & Hft & _).
  set (tb5 := tb_set_index_block _ _).
  destruct (finish_footer ft sync tb5 footer Hf5 Hft) as (tb6 & -> & Hf6 & Hc6).
  right. exists tb6, Bs1, seps4, fimg, metas, mc, mct, ic, ict, footer. split_and!; [done| |done].
  assert (tb_offset tb2 = len (image Bs1 ++ fimg)) as Ho2.
  { unfold tb2. cbn. by rewrite len_app, (ti_offset _ _ _ _ HT1). }
  assert (tb_offset tb4 = len (image Bs1 ++ fimg ++ block_end mc mct)) as Ho4.
  { subst tb4. unfold tb3. cbn [tb_offset tb_set_pending tb_set_index_block tb_set_offset].
    rewrite Ho2. by rewrite app_assoc, (len_app (_ ++ _)). }
  pose proof (ti_sorted _ _ _ _ HI4) as Hso. pose proof (ti_keys _ _ _ _ HI4) as Hke. rewrite app_nil_r in Hso, Hke.
  split; try done.
  - rewrite Hc6. change (tb_file tb5) with f5. rewrite Hc5. subst tb4. cbn [tb_file tb_set_index_block tb_set_pending].
    change (tb_file tb3) with f3. rewrite Hc3. change (tb_file tb2) with f2. rewrite Hc2.
    change (tb_file (tb_set_closed true tb1)) with (tb_file tb1). rewrite (ti_contents _ _ _ _ HT1).
    by rewrite <- !app_assoc.
  - rewrite <- Hft. unfold ft. rewrite <- Ho2, <- Ho4. done.
  - apply HI4.
  - exact (ti_seps _ _ _ _ HI4).
Qed.
End Builder.
