(* ===== verification/TableRead.v ===== *)
(** * Reading finished tables

    Opening the file a [TableBuilder] finished, the table iterator over it and
    [internal_get]; the theorems on whole tables. *)
From S2P Require Import Prelude Coding Varint Comparator Storage Iterator Block Concat Filter Table TableFacts TableBuild.
Open Scope Z_scope.

Section Read.
Context {SN : Snappy} {SL : SnappyLaws} {CRC : Crc32} {CL : Crc32Laws} {F : Type} {FO : File F} {FL : FileLaws F}.
Context (C : Comparator) (key_ok : bytes → Prop) (ord : bytes → bytes → comparison).
Context {CO : ComparatorOrder C key_ok ord} {CS : ComparatorShortening C key_ok ord}.
Context (o : TableOptions) (Hn : (1 ≤ to_block_restart_interval o)%nat).
Context (fits : list bytes → Prop) (allk : list bytes).
Context (LAWS : match to_filter_policy o with Some P => FilterPolicyLaws P fits | None => True end).
Context (all_fits : match to_filter_policy o with
  | Some P => ∀ ks, (∀ k, k ∈ ks → k ∈ allk) → (length ks ≤ length allk)%nat →
                fits ks ∧ ∃ f, @create_filter P ks = Ok f
  | None => True
  end).
Context (filter_key_ok : key_ok (filter_key (to_filter_policy o))).
#[local] Existing Instance BlockIterator_Iterator.

Notation rep := (block_rep key_ok ord).

(** ** Reading one block of the file *)

Lemma open_block f pre c ct post es vc :
  f_ok f → f_contents f = pre ++ block_end c ct ++ post → stored_block C o es c ct →
  sorted ord es → Forall (λ e, key_ok e.1) es → len (f_contents f) < 2 ^ 32 →
  ∃ d b, read_block f (mkHandle (len pre) (len c)) vc = Ok d ∧ block_new d = Ok b ∧ rep (block_iter b) es None.
Proof.
  intros Hf Hc (bb & Hbb & Hst) Hs Hk Hsz. exists (bb_finish bb).1.
  destruct (fresh_block_rep C key_ok ord _ es bb Hn Hs Hk Hbb) as (b & ? & ?).
  - eapply stored_small; [done|]. rewrite Hc, !len_app in Hsz. unfold block_end in Hsz. rewrite len_app in Hsz.
    pose proof (len_nonneg pre). pose proof (len_nonneg post). pose proof (len_nonneg (block_trailer c ct)). lia.
  - exists b. split_and!; [|done..]. by eapply read_block_ok.
Qed.

(** ** The data blocks behind the handles *)

Definition blk_of (Bs : list dblock) (v : bytes) : list entry :=
  match list_find (λ p : BlockHandle * dblock, handle_bytes p.1 = v) (zip (handles 0 Bs) Bs) with
  | Some (_, (_, b)) => db_entries b
  | None => []
  end.

Lemma image_take_lt Bs i j b : (i < j)%nat → Bs !! i = Some b → len (image (take i Bs)) < len (image (take j Bs)).
Proof.
  intros Hij Hi. assert (take j Bs = take i Bs ++ b :: drop (S i) (take j Bs)) as ->.
  { rewrite <- (take_drop_middle (take j Bs) i b) at 1; [|by rewrite lookup_take_lt].
    rewrite take_take. by replace (i `min` j)%nat with i by lia. }
  set (l := drop _ _). assert (image (take i Bs ++ b :: l) = image (take i Bs) ++ block_image b ++ image l) as ->.
  { unfold image. by rewrite fmap_app, join_app. }
  rewrite !len_app. unfold block_image. rewrite len_app, len_trailer.
  pose proof (len_nonneg (db_bytes b)). pose proof (len_nonneg (image l)).
  unfold BLOCK_TRAILER_SIZE. lia.
Qed.

Lemma handles_ok Bs j h : handles 0 Bs !! j = Some h → len (image Bs) < 2 ^ 32 → handle_ok h.
Proof.
  intros Hh Hsz. apply lookup_lt_Some in Hh as Hlt. rewrite length_handles in Hlt.
  destruct (lookup_lt_is_Some_2 Bs j Hlt) as [b Hb].
  destruct (handles_lookup 0 Bs j b Hb) as [Hl Him]. rewrite Hh in Hl. injection Hl as ->.
  rewrite Him, !len_app in Hsz. unfold block_image in Hsz. rewrite len_app in Hsz.
  pose proof (len_nonneg (image (take j Bs))). pose proof (len_nonneg (db_bytes b)).
  pose proof (len_nonneg (block_trailer (db_bytes b) (db_ct b))). pose proof (len_nonneg (image (drop (S j) Bs))).
  split; unfold in_uint; simpl; lia.
Qed.

Lemma blk_of_at Bs j b h :
  Bs !! j = Some b → handles 0 Bs !! j = Some h → len (image Bs) < 2 ^ 32 → blk_of Bs (handle_bytes h) = db_entries b.
Proof.
  intros Hb Hh Hsz. unfold blk_of.
  assert (zip (handles 0 Bs) Bs !! j = Some (h, b)) as Hz by (by apply lookup_zip_Some).
  destruct (list_find _ _) as [[i [h' b']]|] eqn:Hf.
  - apply list_find_Some in Hf as (Hi & Heq & _). apply lookup_zip_Some in Hi as [Hh' Hb']. simpl in *.
    apply handle_bytes_inj in Heq; [|by eapply handles_ok..]. subst h'.
    destruct (handles_lookup 0 Bs j b Hb) as [Hl1 _]. destruct (handles_lookup 0 Bs i b' Hb') as [Hl2 _].
    rewrite Hh in Hl1. rewrite Hh' in Hl2. simplify_eq.
    destruct (lt_eq_lt_dec i j) as [[Hlt| ->]|Hgt]; [|congruence|].
    + pose proof (image_take_lt Bs i j b' Hlt Hb'). lia.
    + pose proof (image_take_lt Bs j i b Hgt Hb). lia.
  - apply list_find_None in Hf. rewrite Forall_lookup in Hf. exfalso. by apply (Hf j _ Hz).
Qed.

(** ** The filter *)

(** The filter answers for a block with a filter made from keys that include the
    block's own. *)
Definition filter_good (Bs : list dblock) (fr : option (FilterPolicy * FilterBlockReader)) : Prop :=
  match to_filter_policy o, fr with
  | Some P, Some (P', r) => P' = P ∧ ∀ j b e, Bs !! j = Some b → e ∈ db_entries b →
      ∃ ks flt, fits ks ∧ @create_filter P ks = Ok flt ∧ e.1 ∈ ks ∧
        ∀ k, @key_may_match P r (len (image (take j Bs))) k = @may_contain P flt k
  | None, None => True
  | _, _ => False
  end.

Lemma filter_reader_ok P Bs fb data fb' :
  to_filter_policy o = Some P → @fbb_finish P fb = Ok (data, fb') →
  filter_inv o fits allk (len (image Bs)) (filter_pairs 0 Bs) (Some fb) →
  (length (entries_of Bs) ≤ length allk)%nat → len data < 2 ^ 32 →
  ∃ r, fbr_new data = Ok r ∧ filter_good Bs (Some (P, r)).
Proof.
  intros HP Hfin Hinv Hlen Hsz. unfold filter_inv in Hinv. unfold filter_good. rewrite HP in *.
  destruct Hinv as (Fs & Hb & _).
  destruct (fbb_finish_ok allk all_fits fb Fs _ Hb) as (data' & b' & Fs' & Hfin' & HD & Hcov).
  { by rewrite length_filter_pairs. }
  rewrite Hfin in Hfin'. injection Hfin' as <- <-. eexists. split; [by apply fbr_new_ok|]. split; [done|].
  intros j b e Hj He. pose proof (filter_pairs_elem 0 Bs j b e Hj He) as Hin. rewrite Z.add_0_l in Hin.
  destruct (Hcov _ _ Hin) as (ks & flt & Hflt & Hfit & Hcr & Hink). exists ks, flt. split_and!; [done..|].
  intros k. apply key_may_match_ok; [|apply len_nonneg|done].
  rewrite HD, !len_app in Hsz. assert (len (filter_offs Fs') = len Fs') as Hl.
  { unfold len, filter_offs. by rewrite length_fmap, length_seq. }
  assert (len (le4s (filter_offs Fs')) = 4 * len Fs') by (unfold len in *; rewrite length_le4s; lia).
  assert (len (to_le_bytes 4 (wrap 32 (len Fs'))) = 4) by (unfold len; by rewrite length_to_le_bytes).
  assert (len [FILTER_BASE_LG] = 1) by done. fold (filter_offs Fs') in Hsz. lia.
Qed.

(** ** Opening the file *)

(** The handles that lookups in the index of a table can find. *)
Definition index_handle (t : Table F) (h : BlockHandle) : Prop :=
  ∃ k it v r, key_ok k ∧ bi_seek C (block_iter (t_index_block t)) k = Ok it ∧ bi_valid it = true ∧
    bi_get_value it = Ok v ∧ bh_decode_from v = Ok (h, r).
(** They are told apart by their offsets, and their blocks read the same with and
    without the check of the checksum. *)
Record sound_handles (t : Table F) : Prop := {
  sh_offset h : index_handle t h → in_uint 64 (bh_offset h);
  sh_read h : index_handle t h → ∀ vc vc', read_block (t_file t) h vc = read_block (t_file t) h vc';
  sh_unique h h' : index_handle t h → index_handle t h' → bh_offset h = bh_offset h' → h = h';
}.

Section Open.
Context (f : F) (Bs : list dblock) (seps : list bytes) (fimg : bytes) (metas : list entry)
  (mc : bytes) (mct : CompressionType) (ic : bytes) (ict : CompressionType) (footer : bytes).
Hypothesis TF : tfile C key_ok ord o fits allk f Bs seps fimg metas mc mct ic ict footer.
Hypothesis Hsize : len (f_contents f) < 2 ^ 32.
Hypothesis Hall : (length (entries_of Bs) ≤ length allk)%nat.

(** A part of the file has a small image. *)
Lemma part_small (pre x post : bytes) : f_contents f = pre ++ x ++ post → len pre + len x < 2 ^ 32.
Proof. intros Hc. rewrite Hc, !len_app in Hsize. pose proof (len_nonneg post). lia. Qed.

Lemma image_small : len (image Bs) < 2 ^ 32.
Proof. pose proof (part_small [] (image Bs) _ (tf_contents _ _ _ _ _ _ _ _ _ _ _ _ _ _ _ _ TF)). by simpl in *. Qed.

Lemma stored_nonempty es c ct : stored_block C o es c ct → 0 < len c.
Proof.
  intros (bb & _ & [[_ ->]|[_ Hs]]).
  - unfold bb_finish. cbn [fst]. rewrite put_fixed_32_eq, len_app. unfold len at 2. rewrite length_to_le_bytes.
    pose proof (len_nonneg (fold_left put_fixed_32 (bb_restarts bb) (bb_buffer bb))). lia.
  - pose proof (snap_compress_nonempty _ _ Hs). destruct c; [done|]. rewrite len_cons. pose proof (len_nonneg c). lia.
Qed.

Lemma read_filter_ok P mb vc :
  to_filter_policy o = Some P → rep (block_iter mb) metas None →
  ∃ fr, read_filter C f vc P mb = Ok fr ∧ filter_good Bs fr.
Proof.
  intros HP Hrep. pose proof (tf_filter _ _ _ _ _ _ _ _ _ _ _ _ _ _ _ _ TF) as Hpart.
  pose proof (tf_contents _ _ _ _ _ _ _ _ _ _ _ _ _ _ _ _ TF) as Hc.
  unfold filter_part in Hpart. rewrite HP in Hpart. destruct Hpart as (data & fb & fb' & Hfin & Hinv & -> & ->).
  pose proof (part_small _ _ _ Hc) as Hsm. pose proof (len_nonneg (image Bs)).
  assert (len (block_end data NoCompression) = len data + BLOCK_TRAILER_SIZE) as Hlb.
  { unfold block_end. by rewrite len_app, len_trailer. }
  pose proof (len_nonneg data). unfold BLOCK_TRAILER_SIZE in Hlb.
  unfold read_filter. assert (key_ok (filter_key (Some P))) as Hfk by (by rewrite <- HP).
  destruct (rep_seek (IT := BlockIterator_Iterator C) ord key_ok _ _ _ _ Hrep Hfk) as (it & Hit & Hr).
  cbv zeta. rewrite (Hit : bi_seek C (block_iter mb) (filter_key (Some P)) = Ok it), Ok_bind.
  set (h := mkHandle (len (image Bs)) (len data)) in *.
  assert (seek_pos ord [(filter_key (Some P), handle_bytes h)] (filter_key (Some P)) = Some 0%nat) as Hsp.
  { apply seek_pos_Some. split; [|lia]. eexists. split; [done|]. simpl. by rewrite (ord_refl ord). }
  rewrite Hsp in Hr. rewrite (rep_valid (IT := BlockIterator_Iterator C) ord key_ok _ _ _ Hr : bi_valid it = true).
  rewrite (rep_key (IT := BlockIterator_Iterator C) ord key_ok _ _ _ _ Hr eq_refl : bi_get_key it = _), Ok_bind.
  rewrite bool_decide_eq_true_2 by done.
  rewrite (rep_value (IT := BlockIterator_Iterator C) ord key_ok _ _ _ _ Hr eq_refl : bi_get_value it = _), Ok_bind.
  cbn [snd]. rewrite <- (app_nil_r (handle_bytes h)), bh_decode_bytes.
  2: { split; unfold in_uint, h; simpl; unfold len in *; lia. }
  rewrite (read_block_ok f (image Bs) data NoCompression _ data vc (tf_file _ _ _ _ _ _ _ _ _ _ _ _ _ _ _ _ TF) Hc)
    by (by left).
  destruct (filter_reader_ok P Bs fb data fb' HP Hfin Hinv Hall) as (r & -> & Hg); [lia|].
  rewrite Ok_bind. eauto.
Qed.

(** What an opened table knows. *)
Record topen (t : Table F) : Prop := {
  to_file : t_file t = f;
  to_index : rep (block_iter (t_index_block t)) (index_of seps Bs) None;
  to_filter : filter_good Bs (t_filter_reader t);
}.

Lemma table_open_ok num vc :
  ∃ t, table_open C f num (len (f_contents f)) vc (to_filter_policy o) = Ok t ∧ topen t.
Proof.
  destruct TF as [Hf Hc Hfp Hm Hi Hft Hsl Hbl Hso Hke Hse].
  destruct (footer_encoded_ok (mkFooter (mkHandle (len (image Bs ++ fimg)) (len mc))
    (mkHandle (len (image Bs ++ fimg ++ block_end mc mct)) (len ic)))) as (v & Hv & Hlf).
  rewrite Hft in Hv. injection Hv as <-. unfold table_open.
  set (pre := image Bs ++ fimg ++ block_end mc mct ++ block_end ic ict).
  assert (f_contents f = pre ++ footer) as Hpre by (unfold pre; by rewrite Hc, <- !app_assoc).
  assert (len footer = 48) as Hlf' by (unfold len, FOOTER_ENCODED_LENGTH in *; lia).
  assert (len (f_contents f) = len pre + 48) as Hlen by (by rewrite Hpre, len_app, Hlf').
  pose proof (len_nonneg pre). change (Z.of_nat FOOTER_ENCODED_LENGTH) with 48.
  rewrite (proj2 (Z.ltb_ge _ _)) by lia.
  replace (len (f_contents f) - 48) with (len pre) by lia.
  destruct (read_exact_at_ok FOOTER_ENCODED_LENGTH f FOOTER_ENCODED_LENGTH (len pre) Hf) as (f' & -> & _); [done| |].
  { rewrite Hlen. done. }
  cbn [fst]. rewrite Hpre. replace (Z.to_nat (len pre)) with (length pre) by (unfold len; lia).
  rewrite drop_app_length, take_ge, Ok_bind by lia.
  pose proof (part_small (image Bs ++ fimg) (block_end mc mct) (block_end ic ict ++ footer)
    ltac:(by rewrite Hc, <- app_assoc)) as Hsm.
  pose proof (part_small (image Bs ++ fimg ++ block_end mc mct) (block_end ic ict) footer
    ltac:(by rewrite Hc, <- !app_assoc)) as Hsi.
  unfold block_end in Hsm at 1. unfold block_end in Hsi at 2. rewrite (len_app mc), len_trailer in Hsm.
  rewrite (len_app ic), len_trailer in Hsi. unfold BLOCK_TRAILER_SIZE in *.
  destruct (footer_roundtrip_ok (mkFooter (mkHandle (len (image Bs ++ fimg)) (len mc))
    (mkHandle (len (image Bs ++ fimg ++ block_end mc mct)) (len ic)))) as (v & Hv & _ & n & Hdec).
  { split; unfold in_uint; cbn [bh_offset bh_size ft_meta_index_handle ft_index_handle];
    pose proof (len_nonneg (image Bs ++ fimg)); pose proof (len_nonneg mc); lia. }
  { split; unfold in_uint; cbn [bh_offset bh_size ft_meta_index_handle ft_index_handle];
    pose proof (len_nonneg (image Bs ++ fimg ++ block_end mc mct)); pose proof (len_nonneg ic); lia. }
  rewrite Hft in Hv. injection Hv as <-. rewrite Hdec, Ok_bind. cbn [fst ft_index_handle ft_meta_index_handle bh_size].
  destruct (open_block f (image Bs ++ fimg ++ block_end mc mct) ic ict footer (index_of seps Bs) vc Hf)
    as (d & ib & -> & Hib & Hri).
  { by rewrite Hc, <- !app_assoc. } { done. } { by eapply index_sorted. } { by eapply index_keys. } { done. }
  rewrite Ok_bind, Hib, Ok_bind. unfold filter_part in Hfp. pose proof read_filter_ok as Hread.
  destruct (to_filter_policy o) as [P|] eqn:HP.
  2: { eexists. split; [done|]. split; [done..|]. simpl. unfold filter_good. by rewrite HP. }
  rewrite (proj2 (Z.ltb_lt _ _)) by (by eapply stored_nonempty).
  destruct (open_block f (image Bs ++ fimg) mc mct (block_end ic ict ++ footer) metas vc Hf)
    as (d' & mb & -> & Hmb & Hrm).
  { by rewrite Hc, <- !app_assoc. } { done. }
  { destruct Hfp as (? & ? & ? & _ & _ & _ & ->). intros i j a b Hij Ha Hb. apply lookup_lt_Some in Hb. simpl in Hb. lia. }
  { destruct Hfp as (? & ? & ? & _ & _ & _ & ->). by constructor. } { done. }
  rewrite Ok_bind, Hmb. destruct (Hread P mb vc eq_refl Hrm) as (fr & -> & Hg). rewrite Ok_bind.
  eexists. split; [done|]. by split.
Qed.

(** ** The table iterator *)

Lemma length_index : length (index_of seps Bs) = length Bs.
Proof.
  unfold index_of. rewrite length_zip_with, length_fmap, length_handles.
  rewrite (tf_seps _ _ _ _ _ _ _ _ _ _ _ _ _ _ _ _ TF). lia.
Qed.

(** An entry of the index, and the block it stands for. *)
Lemma index_entry j k v : index_of seps Bs !! j = Some (k, v) →
  ∃ b, Bs !! j = Some b ∧ sep_ok key_ok ord Bs [] j k ∧ holds C o b ∧
    v = handle_bytes (mkHandle (len (image (take j Bs))) (len (db_bytes b))) ∧
    handle_ok (mkHandle (len (image (take j Bs))) (len (db_bytes b))) ∧ blk_of Bs v = db_entries b.
Proof.
  intros (Hs & h & Hh & ->)%index_lookup. apply lookup_lt_Some in Hh as Hlt. rewrite length_handles in Hlt.
  destruct (lookup_lt_is_Some_2 Bs j Hlt) as [b Hb]. exists b.
  destruct (handles_lookup 0 Bs j b Hb) as [Hl _]. rewrite Hh in Hl. injection Hl as ->.
  split_and!; try done.
  - exact (tf_sep_ok _ _ _ _ _ _ _ _ _ _ _ _ _ _ _ _ TF _ _ Hs).
  - exact (Forall_lookup_1 _ _ _ _ (tf_blocks _ _ _ _ _ _ _ _ _ _ _ _ _ _ _ _ TF) Hb).
  - exact (handles_ok _ _ _ Hh image_small).
  - by apply (blk_of_at Bs j b); [..|apply image_small].
Qed.

Lemma index_blocks : blocks_of (blk_of Bs) (index_of seps Bs) = db_entries <$> Bs.
Proof.
  apply list_eq_same_length with (n := length Bs); [by rewrite length_fmap|unfold blocks_of; by rewrite length_fmap, length_index|].
  intros i x y Hi Hx Hy. apply list_lookup_fmap_Some in Hx as ([k v] & -> & Hx).
  apply list_lookup_fmap_Some in Hy as (b & -> & Hb).
  destruct (index_entry i k v Hx) as (b' & Hb' & _ & _ & _ & _ & Hblk). simpl. congruence.
Qed.

(** Reading a data block through its handle. *)
Lemma data_block_ok (t : Table F) vc j b :
  topen t → Bs !! j = Some b →
  ∃ it, block_reader t (mkHandle (len (image (take j Bs))) (len (db_bytes b))) vc = Ok it ∧ rep it (db_entries b) None.
Proof.
  intros HO Hb. destruct TF as [Hf Hc _ _ _ _ _ Hbl Hso Hke _].
  destruct (handles_lookup 0 Bs j b Hb) as [_ Him].
  assert (entries_of Bs = entries_of (take j Bs) ++ db_entries b ++ entries_of (drop (S j) Bs)) as He.
  { rewrite <- (take_drop_middle Bs j b Hb) at 1. unfold entries_of. by rewrite fmap_app, join_app. }
  destruct (open_block f (image (take j Bs)) (db_bytes b) (db_ct b)
    (image (drop (S j) Bs) ++ fimg ++ block_end mc mct ++ block_end ic ict ++ footer) (db_entries b) vc Hf)
    as (d & blk & Hd & Hblk & Hr).
  - rewrite Hc. rewrite Him at 1. change (block_image b) with (block_end (db_bytes b) (db_ct b)). by rewrite <- !app_assoc.
  - exact (proj2 (Forall_lookup_1 _ _ _ _ Hbl Hb)).
  - rewrite He in Hso. by apply (sorted_app_r ord), (sorted_app_l ord) in Hso.
  - rewrite He, !Forall_app in Hke. tauto.
  - done.
  - exists (block_iter blk). split; [|done]. unfold block_reader. by rewrite (to_file _ HO), Hd, Ok_bind, Hblk.
Qed.

Lemma table_origin (t : Table F) vc fuel : topen t → (S (length Bs) < fuel)%nat →
  @origin_ok BlockIterator (TableIterFactory t vc) fuel ord rep (blk_of Bs) (index_of seps Bs).
Proof.
  intros HO Hfuel. split.
  - intros j k v (b & Hb & _ & _ & -> & Hok & ->)%index_entry.
    destruct (data_block_ok t vc j b HO Hb) as (it & Hit & Hr). exists it. split; [|done]. simpl.
    rewrite <- (app_nil_r (handle_bytes _)), bh_decode_bytes by done. by rewrite Ok_bind.
  - intros j k v (b & _ & _ & _ & -> & _ & _)%index_entry Hnil.
    pose proof (handle_bytes_len (mkHandle (len (image (take j Bs))) (len (db_bytes b)))). rewrite Hnil in H. change (len (@nil Z)) with 0 in H. lia.
  - intros j k v e (b & Hb & Hs & _ & _ & _ & ->)%index_entry He. exact (so_upper _ _ _ _ _ _ Hs _ _ Hb He).
  - intros j j' k v k' v' e Hj (b & Hb & Hs & _)%index_entry (b' & Hb' & _ & _ & _ & _ & ->)%index_entry He.
    exact (so_lower _ _ _ _ _ _ Hs _ _ _ Hj Hb' He).
  - by rewrite length_index.
Qed.

Lemma table_iter_rep (t : Table F) vc fuel : topen t → (S (length Bs) < fuel)%nat →
  @concat_rep _ _ _ (TableIterFactory t vc) fuel ord rep rep (blk_of Bs) (new_table_iterator t) (entries_of Bs) None.
Proof.
  intros HO Hfuel. unfold new_table_iterator, entries_of. rewrite <- index_blocks.
  eapply concat_new_rep; [by apply table_origin|apply HO].
Qed.

(** ** [internal_get] *)

Lemma rep_data_length it l p : rep it l p → (length l ≤ length (bi_data it))%nat.
Proof.
  intros (data & es & rs & HL & -> & _ & _ & Hp). pose proof (at_pos_static _ _ _ _ _ Hp) as (_ & -> & _).
  rewrite length_fmap, (lay_data _ _ _ HL), length_app.
  assert (∀ es, length es ≤ length (encs es))%nat as Henc; [|specialize (Henc es); lia].
  clear. induction es as [|e es IH]; [done|]. unfold encs in *. cbn. rewrite length_app.
  pose proof (enc_pos e). unfold len in *. apply (Nat.add_le_mono 1); [lia|exact IH].
Qed.

Lemma exhaust_ok fuel it l p : rep it l p → (length (rest_from l p) ≤ fuel)%nat →
  ∃ it', exhaust C fuel it = Ok it' ∧ rep it' l None.
Proof.
  revert it p. induction fuel as [|fuel IH]; intros it p Hr Hf; cbn [exhaust];
    rewrite (rep_valid (IT := BlockIterator_Iterator C) ord key_ok it l p Hr : bi_valid it = _);
    destruct p as [i|]; simpl in *; eauto.
  - pose proof (rep_lt (IT := BlockIterator_Iterator C) ord key_ok it l i Hr). rewrite length_drop in Hf. lia.
  - destruct (rep_next (IT := BlockIterator_Iterator C) ord key_ok it l i Hr) as (it' & Hit & Hr').
    rewrite (Hit : bi_next it = _), Ok_bind. apply (IH _ _ Hr'). rewrite length_drop in Hf.
    unfold next_pos. case_decide; simpl; [rewrite length_drop|]; lia.
Qed.

(** The search inside the block the index points to. *)
Lemma get_in_block (t : Table F) vc j b k (index_iter : BlockIterator) l p :
  topen t → Bs !! j = Some b → key_ok k → rep index_iter l p →
  ∃ r, (block_iter ← block_reader t (mkHandle (len (image (take j Bs))) (len (db_bytes b))) vc;
        block_iter ← bi_seek C block_iter k;
        if bi_valid block_iter then Ok (Some block_iter) else
        block_iter ← bi_seek_to_first block_iter;
        block_iter ← exhaust C (length (bi_data block_iter)) block_iter;
        _ ← (bi_status block_iter).1;
        _ ← (bi_status index_iter).1; Ok None) = Ok r ∧
    match r with
    | Some it => ∃ q, seek_pos ord (db_entries b) k = Some q ∧ rep it (db_entries b) (Some q)
    | None => seek_pos ord (db_entries b) k = None
    end.
Proof.
  intros HO Hb Hk Hri. destruct (data_block_ok t vc j b HO Hb) as (it & -> & Hr). rewrite Ok_bind.
  destruct (rep_seek (IT := BlockIterator_Iterator C) ord key_ok _ _ _ k Hr Hk) as (it1 & Hit1 & Hr1).
  rewrite (Hit1 : bi_seek C it k = _), Ok_bind.
  rewrite (rep_valid (IT := BlockIterator_Iterator C) ord key_ok _ _ _ Hr1 : bi_valid it1 = _).
  destruct (seek_pos ord (db_entries b) k) as [q|] eqn:Hq; [exists (Some it1); split; [done|by exists q]|].
  destruct (rep_seek_to_first (IT := BlockIterator_Iterator C) ord key_ok _ _ _ Hr1) as (it2 & Hit2 & Hr2).
  rewrite (Hit2 : bi_seek_to_first it1 = _), Ok_bind.
  destruct (exhaust_ok (length (bi_data it2)) it2 _ _ Hr2) as (it3 & -> & Hr3).
  { pose proof (rep_data_length _ _ _ Hr2) as Hdl. destruct (db_entries b); [simpl; lia|exact Hdl]. }
  rewrite Ok_bind.
  destruct (rep_status (IT := BlockIterator_Iterator C) ord key_ok _ _ _ Hr3) as (it4 & Hst & _).
  rewrite (f_equal fst Hst : (bi_status it3).1 = _). cbn [fst]. rewrite Ok_bind.
  destruct (rep_status (IT := BlockIterator_Iterator C) ord key_ok _ _ _ Hri) as (it5 & Hst5 & _).
  rewrite (f_equal fst Hst5 : (bi_status index_iter).1 = _). cbn [fst]. rewrite Ok_bind. by exists None.
Qed.

(** [internal_get] is decided by the index, then the filter, then the block. *)
Lemma internal_get_cases (t : Table F) vc k :
  topen t → key_ok k →
  match seek_pos ord (index_of seps Bs) k with
  | None => internal_get C t vc k = Ok None
  | Some j => ∃ b, Bs !! j = Some b ∧ ∃ r,
      (internal_get C t vc k =
        (maybe ← match t_filter_reader t with
                 | Some (P, filter) => @key_may_match P filter (len (image (take j Bs))) k
                 | None => Ok true
                 end;
         if (maybe : bool) then Ok r else Ok None)) ∧
      match r with
      | Some it => ∃ q, seek_pos ord (db_entries b) k = Some q ∧ rep it (db_entries b) (Some q)
      | None => seek_pos ord (db_entries b) k = None
      end
  end.
Proof.
  intros HO Hk. unfold internal_get.
  destruct (rep_seek (IT := BlockIterator_Iterator C) ord key_ok _ _ _ k (to_index _ HO) Hk) as (it & Hit & Hr).
  rewrite (Hit : bi_seek C (block_iter (t_index_block t)) k = _), Ok_bind. cbv zeta.
  rewrite (rep_valid (IT := BlockIterator_Iterator C) ord key_ok _ _ _ Hr : bi_valid it = _).
  destruct (rep_status (IT := BlockIterator_Iterator C) ord key_ok _ _ _ Hr) as (it5 & Hst & _).
  destruct (seek_pos ord (index_of seps Bs) k) as [j|] eqn:Hj.
  2: { by rewrite (f_equal fst Hst : (bi_status it).1 = _). }
  destruct (lookup_lt_is_Some_2 (index_of seps Bs) j) as [[s v] Hl].
  { exact (rep_lt (IT := BlockIterator_Iterator C) ord key_ok _ _ _ Hr). }
  destruct (index_entry j s v Hl) as (b & Hb & _ & _ & Hv & Hok & _). exists b. split; [done|].
  rewrite (rep_value (IT := BlockIterator_Iterator C) ord key_ok _ _ _ _ Hr Hl : bi_get_value it = _), Ok_bind.
  cbn [snd]. subst v. rewrite <- (app_nil_r (handle_bytes _)), bh_decode_bytes by done. cbn [bh_offset fst].
  rewrite Ok_bind. cbn [fst]. destruct (get_in_block t vc j b k it _ _ HO Hb Hk Hr) as (r & -> & Hres). exists r.
  split; [|done]. rewrite (f_equal fst Hst : (bi_status it).1 = _). cbn [fst]. rewrite Ok_bind. done.
Qed.

Lemma index_handle_block (t : Table F) h : topen t → index_handle t h →
  ∃ j b, Bs !! j = Some b ∧ holds C o b ∧ h = mkHandle (len (image (take j Bs))) (len (db_bytes b)) ∧ handle_ok h.
Proof.
  intros HO (k & it & v & r & Hk & Hseek & Hval & Hv & Hdec).
  destruct (rep_seek (IT := BlockIterator_Iterator C) ord key_ok _ _ _ k (to_index _ HO) Hk) as (it' & Hit & Hr).
  rewrite (Hit : bi_seek C (block_iter (t_index_block t)) k = Ok it') in Hseek. injection Hseek as <-.
  pose proof (rep_valid (IT := BlockIterator_Iterator C) ord key_ok _ _ _ Hr : bi_valid it' = _) as Hrv. rewrite Hrv in Hval.
  destruct (seek_pos ord (index_of seps Bs) k) as [j|]; [|done].
  destruct (lookup_lt_is_Some_2 (index_of seps Bs) j) as [[s w] Hl].
  { exact (rep_lt (IT := BlockIterator_Iterator C) ord key_ok _ _ _ Hr). }
  destruct (index_entry j s w Hl) as (b & Hb & _ & Hh & -> & Hok & _).
  rewrite (rep_value (IT := BlockIterator_Iterator C) ord key_ok _ _ _ _ Hr Hl : bi_get_value it' = _) in Hv.
  injection Hv as <-. cbn [snd] in Hdec. rewrite <- (app_nil_r (handle_bytes _)), bh_decode_bytes in Hdec by done.
  injection Hdec as <- _. by exists j, b.
Qed.
Lemma opened_sound (t : Table F) : topen t → sound_handles t.
Proof.
  intros HO. split.
  - intros h Hh. by destruct (index_handle_block t h HO Hh) as (_ & _ & _ & _ & _ & [? _]).
  - intros h Hh vc vc'. destruct (index_handle_block t h HO Hh) as (j & b & Hb & (_ & bb & _ & Hst) & -> & _).
    rewrite (to_file _ HO). pose proof (tf_contents _ _ _ _ _ _ _ _ _ _ _ _ _ _ _ _ TF) as Hc.
    destruct (handles_lookup 0 Bs j b Hb) as [_ Him]. rewrite Him, <- !app_assoc in Hc.
    by rewrite !(read_block_ok f _ _ (db_ct b) _ _ _ (tf_file _ _ _ _ _ _ _ _ _ _ _ _ _ _ _ _ TF) Hc Hst).
  - intros h h' Hh Hh' Heq. destruct (index_handle_block t h HO Hh) as (j & b & Hb & _ & -> & _).
    destruct (index_handle_block t h' HO Hh') as (j' & b' & Hb' & _ & -> & _). cbn [bh_offset] in Heq.
    destruct (lt_eq_lt_dec j j') as [[Hlt| ->]|Hgt]; [|congruence|].
    + pose proof (image_take_lt Bs j j' b Hlt Hb). lia.
    + pose proof (image_take_lt Bs j' j b' Hgt Hb'). lia.
Qed.

(** A returned iterator stands on the first entry not below the key. *)
Lemma internal_get_sound (t : Table F) vc k it :
  topen t → key_ok k → internal_get C t vc k = Ok (Some it) →
  ∃ i e, seek_pos ord (entries_of Bs) k = Some i ∧ entries_of Bs !! i = Some e ∧
    bi_valid it = true ∧ bi_get_key it = Ok e.1 ∧ bi_get_value it = Ok e.2.
Proof.
  intros HO Hk Hget. pose proof (internal_get_cases t vc k HO Hk) as Hcase.
  pose proof (seek_pos_joined (S (S (length Bs))) ord rep (blk_of Bs) (FA := TableIterFactory t vc) (index_of seps Bs) k
    (table_origin t vc (S (S (length Bs))) HO ltac:(lia))) as Hj.
  rewrite index_blocks in Hj. fold (entries_of Bs) in Hj.
  destruct (seek_pos ord (index_of seps Bs) k) as [j|] eqn:Hsj; [|congruence].
  destruct Hcase as (b & Hb & r & Hr & Hres). rewrite Hr in Hget.
  apply bind_Ok in Hget as (m & _ & Hm). destruct m; [|done]. injection Hm as ->.
  destruct Hres as (q & Hq & Hrep). apply seek_pos_Some in Hsj as [([s v] & Hl & _) _]. rewrite Hl in Hj.
  destruct (index_entry j s v Hl) as (b' & Hb' & _ & _ & _ & _ & Hblk). rewrite Hb in Hb'. injection Hb' as <-.
  rewrite Hblk, Hq in Hj. pose proof (seek_pos_lt _ _ _ _ Hq) as Hlt.
  destruct (lookup_lt_is_Some_2 _ _ Hlt) as [e He]. eexists _, e. split_and!; [exact Hj|..].
  - unfold entries_of. by rewrite (joined_lookup _ j (db_entries b)); [|by rewrite list_lookup_fmap, Hb|].
  - exact (rep_valid (IT := BlockIterator_Iterator C) ord key_ok _ _ _ Hrep).
  - exact (rep_key (IT := BlockIterator_Iterator C) ord key_ok _ _ _ _ Hrep He).
  - exact (rep_value (IT := BlockIterator_Iterator C) ord key_ok _ _ _ _ Hrep He).
Qed.

(** A key of the table is always found. *)
Lemma internal_get_complete (t : Table F) vc e :
  topen t → e ∈ entries_of Bs →
  ∃ it, internal_get C t vc e.1 = Ok (Some it) ∧
    bi_valid it = true ∧ bi_get_key it = Ok e.1 ∧ bi_get_value it = Ok e.2.
Proof.
  intros HO He. pose proof (tf_keys _ _ _ _ _ _ _ _ _ _ _ _ _ _ _ _ TF) as Hke. rewrite Forall_forall in Hke.
  specialize (Hke e He). simpl in Hke. pose proof He as He'. unfold entries_of in He'.
  apply list_elem_of_join in He' as (l & Hel & (b & -> & Hbin)%list_elem_of_fmap_1).
  apply list_elem_of_lookup_1 in Hbin as [j Hb]. apply lookup_lt_Some in Hb as Hlt.
  destruct (lookup_lt_is_Some_2 (index_of seps Bs) j) as [[s v] Hl]; [by rewrite length_index|].
  destruct (index_entry j s v Hl) as (b' & Hb' & Hsep & _). rewrite Hb in Hb'. injection Hb' as <-.
  pose proof (internal_get_cases t vc e.1 HO Hke) as Hcase.
  assert (seek_pos ord (index_of seps Bs) e.1 = Some j) as Hsj.
  { apply seek_pos_Some. split.
    - exists (s, v). split; [done|]. intros Hlt'. apply (so_upper _ _ _ _ _ _ Hsep _ _ Hb Hel).
      by apply (ord_gt_lt ord).
    - intros i [s' v'] Hi Hl'. destruct (index_entry i s' v' Hl') as (_ & _ & Hsep' & _).
      exact (so_lower _ _ _ _ _ _ Hsep' _ _ _ Hi Hb Hel). }
  rewrite Hsj in Hcase. destruct Hcase as (b' & Hb' & r & -> & Hres). rewrite Hb in Hb'. injection Hb' as <-.
  assert (match t_filter_reader t with
     | Some (P, filter) => @key_may_match P filter (len (image (take j Bs))) e.1
     | None => Ok true end = Ok true) as ->.
  { pose proof (to_filter _ HO) as Hg. unfold filter_good in Hg. clear Hres.
    destruct (to_filter_policy o) as [P|], (t_filter_reader t) as [[P' rd]|]; try done.
    destruct Hg as [-> Hg]. destruct (Hg j b e Hb Hel) as (ks & flt & Hfit & Hcr & Hin & ->).
    by eapply no_false_negative. }
  rewrite Ok_bind. apply list_elem_of_lookup_1 in Hel as [q Hq].
  assert (sorted ord (db_entries b)) as Hsb.
  { pose proof (tf_sorted _ _ _ _ _ _ _ _ _ _ _ _ _ _ _ _ TF) as Hso.
    rewrite <- (take_drop_middle Bs j b Hb) in Hso. unfold entries_of in Hso. rewrite fmap_app, join_app in Hso.
    apply (sorted_app_r ord) in Hso. by apply (sorted_app_l ord) in Hso. }
  assert (seek_pos ord (db_entries b) e.1 = Some q) as Hsq.
  { apply seek_pos_Some. split; [exists e; split; [done|]; by rewrite (ord_refl ord)|].
    intros i e' Hi He'. exact (Hsb i q e' e Hi He' Hq). }
  rewrite Hsq in Hres. destruct r as [it|]; [|done]. destruct Hres as (q' & [= <-] & Hrep).
  exists it. split_and!; [done|..].
  - exact (rep_valid (IT := BlockIterator_Iterator C) ord key_ok _ _ _ Hrep).
  - exact (rep_key (IT := BlockIterator_Iterator C) ord key_ok _ _ _ _ Hrep Hq).
  - exact (rep_value (IT := BlockIterator_Iterator C) ord key_ok _ _ _ _ Hrep Hq).
Qed.
End Open.
End Read.

(** ** Whole tables *)

(** The way [build_table] of [src/db/mod.rs] drives a builder: a new builder on the
    file, [add] for every entry in order, then [finish]. *)
Definition build_file {SN : Snappy} {CRC : Crc32} {F} {FO : File F} (C : Comparator) (f : F) (o : TableOptions)
    (sync : bool) (es : list entry) : outcome F :=
  tb ← tb_new f o;
  match (_ ← tb_add_all C es; tb_finish C sync : st (TableBuilder F) unit) tb with
  | (Ok _, tb) => Ok (tb_file tb)
  | (Err e, _) => Err e
  | (Panic, _) => Panic
  | (OutOfFuel, _) => OutOfFuel
  end.

(** What is asked of a filter policy: no false negatives, and a filter for any of
    the keys (taken at most as often as there are keys). *)
Definition policy_ok (P : option FilterPolicy) (fits : list bytes → Prop) (keys : list bytes) : Prop :=
  match P with
  | Some P => FilterPolicyLaws P fits ∧
      ∀ ks, (∀ k, k ∈ ks → k ∈ keys) → (length ks ≤ length keys)%nat → fits ks ∧ ∃ f, create_filter ks = Ok f
  | None => True
  end.

Section Whole.
Context {SN : Snappy} {SL : SnappyLaws} {CRC : Crc32} {CL : Crc32Laws} {F : Type} {FO : File F} {FL : FileLaws F}.
Context (C : Comparator) (key_ok : bytes → Prop) (ord : bytes → bytes → comparison).
Context {CO : ComparatorOrder C key_ok ord} {CS : ComparatorShortening C key_ok ord}.

Lemma blocks_le_entries o Bs : Forall (holds C o) Bs → (length Bs ≤ length (entries_of Bs))%nat.
Proof.
  induction 1 as [|b Bs [Hne _] _ IH]; [done|].
  change (entries_of (b :: Bs)) with (db_entries b ++ entries_of Bs). rewrite length_app.
  destruct (db_entries b); [done|]. simpl. lia.
Qed.

(** Building and opening, all at once. *)
Lemma build_open (o : TableOptions) fits (f : F) (sync : bool) (es : list entry) :
  (1 ≤ to_block_restart_interval o)%nat → policy_ok (to_filter_policy o) fits es.*1 →
  key_ok (filter_key (to_filter_policy o)) → sorted ord es → Forall (λ e, key_ok e.1) es →
  f_ok f → f_contents f = [] →
  build_file C f o sync es = Err CompressionFailed ∨
  ∃ f', build_file C f o sync es = Ok f' ∧ f_ok f' ∧ (len (f_contents f') < 2 ^ 32 → ∀ num vc,
    ∃ t, table_open C f' num (len (f_contents f')) vc (to_filter_policy o) = Ok t ∧
      (∀ vc fuel, (S (length es) < fuel)%nat → ∃ rep, @FwdLaws _ (TableIterator C t vc fuel) ord key_ok rep ∧
         @BwdLaws _ (TableIterator C t vc fuel) rep ∧ rep (new_table_iterator t) es None) ∧
      (∀ vc k it, key_ok k → internal_get C t vc k = Ok (Some it) →
         ∃ i e, seek_pos ord es k = Some i ∧ es !! i = Some e ∧
           bi_valid it = true ∧ bi_get_key it = Ok e.1 ∧ bi_get_value it = Ok e.2) ∧
      (∀ vc e, e ∈ es → ∃ it, internal_get C t vc e.1 = Ok (Some it) ∧
           bi_valid it = true ∧ bi_get_key it = Ok e.1 ∧ bi_get_value it = Ok e.2) ∧
      sound_handles C key_ok t).
Proof.
  intros Hn Hpol Hfk Hs Hk Hf Hc.
  assert (match to_filter_policy o with Some P => FilterPolicyLaws P fits | None => True end) as LAWS.
  { unfold policy_ok in Hpol. destruct (to_filter_policy o); [apply Hpol|done]. }
  assert (match to_filter_policy o with
  | Some P => ∀ ks, (∀ k, k ∈ ks → k ∈ es.*1) → (length ks ≤ length es.*1)%nat →
                fits ks ∧ ∃ f, @create_filter P ks = Ok f
  | None => True end) as all_fits.
  { unfold policy_ok in Hpol. destruct (to_filter_policy o); [apply Hpol|done]. }
  unfold build_file. destruct (tb_new_ok C key_ok ord o Hn fits (es.*1) LAWS all_fits f Hf Hc) as (tb & -> & HT).
  rewrite Ok_bind.
  destruct (tb_add_all_ok C key_ok ord o Hn fits (es.*1) LAWS all_fits tb [] [] [] es HT)
    as [[tb1 Hadd]|(tb1 & Bs1 & seps1 & cur1 & Hadd & HT1 & He1)]; [done|done| | | |].
  { intros e He. by apply list_elem_of_fmap_2. } { simpl. by rewrite length_fmap. }
  { left. unfold mbind at 1, st_bind at 1. by rewrite Hadd. }
  rewrite (st_bind_Ok _ _ _ _ _ Hadd). simpl in He1.
  destruct (tb_finish_ok C key_ok ord o Hn fits (es.*1) LAWS all_fits Hfk sync tb1 Bs1 seps1 cur1 HT1)
    as [[tb2 ->]|(tb2 & Bs & seps & fimg & metas & mc & mct & ic & ict & footer & -> & TF & He2)].
  { by rewrite He1, length_fmap. } { by left. }
  right. rewrite He1 in He2. exists (tb_file tb2). split; [done|]. split; [apply TF|]. intros Hsz num vc.
  assert (length (entries_of Bs) ≤ length es.*1)%nat as Hall by (by rewrite He2, length_fmap).
  destruct (table_open_ok C key_ok ord o Hn fits (es.*1) LAWS all_fits Hfk _ _ _ _ _ _ _ _ _ _ TF Hsz Hall num vc)
    as (t & Ht & HO). exists t. split; [done|]. rewrite <- He2. split_and!.
  - intros vc' fuel Hfuel.
    pose proof (blocks_le_entries o Bs (tf_blocks _ _ _ _ _ _ _ _ _ _ _ _ _ _ _ _ TF)) as Hle.
    assert (S (length Bs) < fuel)%nat as Hfu by lia. eexists. split_and!.
    3: { eapply table_iter_rep; [done|exact Hn|exact TF|done|exact Hall|exact HO|exact Hfu]. }
    all: apply _.
  - intros vc' k it Hkk Hget. by eapply internal_get_sound.
  - intros vc' e He. by eapply internal_get_complete.
  - by eapply opened_sound.
Qed.
End Whole.

(** ** Theorems *)
Section Theorems.
Context {SN : Snappy} {SL : SnappyLaws} {CRC : Crc32} {CL : Crc32Laws} {F : Type} {FO : File F} {FL : FileLaws F}.
Context (C : Comparator) (key_ok : bytes → Prop) (ord : bytes → bytes → comparison).
Context {CO : ComparatorOrder C key_ok ord} {CS : ComparatorShortening C key_ok ord}.

(** C1: a table gives back the entries it was built from.  For sorted entries, on an
    empty healthy file, with any block size, restart interval, compression and
    lawful filter policy, building either reports [CompressionFailed] or succeeds;
    if the file is then smaller than 4 GiB it opens, walking the table iterator
    forward yields exactly the entries, and walking it backward yields them
    reversed.  [fuel] only bounds the blocks skipped. *)
Theorem table_roundtrip (o : TableOptions) (fits : list bytes → Prop) (f : F) (sync : bool) (es : list entry) :
  (1 ≤ to_block_restart_interval o)%nat → policy_ok (to_filter_policy o) fits es.*1 →
  key_ok (filter_key (to_filter_policy o)) → sorted ord es → Forall (λ e, key_ok e.1) es →
  f_ok f → f_contents f = [] →
  build_file C f o sync es = Err CompressionFailed ∨
  ∃ f', build_file C f o sync es = Ok f' ∧ (len (f_contents f') < 2 ^ 32 → ∀ num paranoid,
    ∃ t, table_open C f' num (len (f_contents f')) paranoid (to_filter_policy o) = Ok t ∧
      ∀ verify fuel, (S (length es) < fuel)%nat →
        let IT := TableIterator C t verify fuel in
        (∃ it, it_seek_to_first (new_table_iterator t) = Ok it ∧ collect (length es) it = Ok es) ∧
        (∃ it, it_seek_to_last (new_table_iterator t) = Ok it ∧ collect_back (length es) it = Ok (reverse es))).
Proof.
  intros Hn Hpol Hfk Hs Hk Hf Hc.
  destruct (build_open C key_ok ord o fits f sync es) as [?|(f' & Hb & _ & Hop)]; [done..|by left|].
  right. exists f'. split; [done|]. intros Hsz num paranoid.
  destruct (Hop Hsz num paranoid) as (t & Ht & Hit & _). exists t. split; [done|].
  intros verify fuel Hfuel IT. destruct (Hit verify fuel Hfuel) as (rep & HF & HB & Hr). split.
  - destruct (rep_seek_to_first ord key_ok _ _ _ Hr) as (it & Hit1 & Hr1). exists it. split; [done|].
    assert (rest_from es (first_pos es) = es) as Hes by by destruct es.
    rewrite (collect_rep ord key_ok rep (length es) _ _ _ Hr1); rewrite Hes; done.
  - destruct (rep_seek_to_last _ _ _ Hr) as (it & Hit1 & Hr1). exists it. split; [done|].
    assert (rest_back es (last_pos es) = reverse es) as Hes.
    { destruct es as [|e es']; [done|]. unfold last_pos, rest_back. rewrite take_ge; [done|simpl; lia]. }
    rewrite (collect_back_rep ord key_ok rep (length es) _ _ _ Hr1); rewrite Hes; [done|by rewrite length_reverse].
Qed.

(** C3: seeking in a table is exact.  On the table read back from a built file, from
    its start, seeking a target stands on the first entry not below the target,
    with its key and value, or is invalid when there is none. *)
Theorem table_seek (o : TableOptions) (fits : list bytes → Prop) (f f' : F) (sync : bool) (es : list entry)
    (num : Z) (paranoid verify : bool) (fuel : nat) (t : Table F) (target : bytes) :
  (1 ≤ to_block_restart_interval o)%nat → policy_ok (to_filter_policy o) fits es.*1 →
  key_ok (filter_key (to_filter_policy o)) → sorted ord es → Forall (λ e, key_ok e.1) es →
  f_ok f → f_contents f = [] → key_ok target → (S (length es) < fuel)%nat →
  build_file C f o sync es = Ok f' → len (f_contents f') < 2 ^ 32 →
  table_open C f' num (len (f_contents f')) paranoid (to_filter_policy o) = Ok t →
  let IT := TableIterator C t verify fuel in
  ∃ it, it_seek (new_table_iterator t) target = Ok it ∧
    match list_find (λ e, ord e.1 target ≠ Lt) es with
    | Some (_, e) => it_valid it = true ∧ it_key it = Ok e.1 ∧ it_value it = Ok e.2
    | None => it_valid it = false
    end.
Proof.
  intros Hn Hpol Hfk Hs Hk Hf Hc Hkt Hfuel Hb Hsz Ht IT.
  destruct (build_open C key_ok ord o fits f sync es) as [?|(f1 & Hb1 & _ & Hop)]; [done..|congruence|].
  rewrite Hb in Hb1. injection Hb1 as <-. destruct (Hop Hsz num paranoid) as (t1 & Ht1 & Hit & _).
  rewrite Ht in Ht1. injection Ht1 as <-. destruct (Hit verify fuel Hfuel) as (rep & HF & HB & Hr).
  destruct (rep_seek ord key_ok _ _ _ target Hr Hkt) as (it & Hit1 & Hr1). exists it. split; [done|].
  unfold seek_pos in Hr1. destruct (list_find _ es) as [[i e]|] eqn:Hfind; simpl in Hr1.
  - apply list_find_Some in Hfind as (Hi & _). split_and!.
    + exact (rep_valid ord key_ok _ _ _ Hr1).
    + exact (rep_key ord key_ok _ _ _ _ Hr1 Hi).
    + exact (rep_value ord key_ok _ _ _ _ Hr1 Hi).
  - exact (rep_valid ord key_ok _ _ _ Hr1).
Qed.

(** C2: point lookups in a table.  On the table read back from a built file,
    [internal_get] of a key of the table returns an iterator on that entry (the
    filter never hides it), and for any key, an iterator that is returned stands
    on the first entry not below the key. *)
Theorem table_get (o : TableOptions) (fits : list bytes → Prop) (f f' : F) (sync : bool) (es : list entry)
    (num : Z) (paranoid verify : bool) (t : Table F) :
  (1 ≤ to_block_restart_interval o)%nat → policy_ok (to_filter_policy o) fits es.*1 →
  key_ok (filter_key (to_filter_policy o)) → sorted ord es → Forall (λ e, key_ok e.1) es →
  f_ok f → f_contents f = [] →
  build_file C f o sync es = Ok f' → len (f_contents f') < 2 ^ 32 →
  table_open C f' num (len (f_contents f')) paranoid (to_filter_policy o) = Ok t →
  (∀ k v, (k, v) ∈ es → ∃ it, internal_get C t verify k = Ok (Some it) ∧
     bi_valid it = true ∧ bi_get_key it = Ok k ∧ bi_get_value it = Ok v) ∧
  (∀ k it, key_ok k → internal_get C t verify k = Ok (Some it) →
     ∃ i e, list_find (λ e, ord e.1 k ≠ Lt) es = Some (i, e) ∧
       bi_valid it = true ∧ bi_get_key it = Ok e.1 ∧ bi_get_value it = Ok e.2).
Proof.
  intros Hn Hpol Hfk Hs Hk Hf Hc Hb Hsz Ht.
  destruct (build_open C key_ok ord o fits f sync es) as [?|(f1 & Hb1 & _ & Hop)]; [done..|congruence|].
  rewrite Hb in Hb1. injection Hb1 as <-. destruct (Hop Hsz num paranoid) as (t1 & Ht1 & _ & Hsound & Hcompl & _).
  rewrite Ht in Ht1. injection Ht1 as <-. split.
  - intros k v Hkv. exact (Hcompl verify (k, v) Hkv).
  - intros k it Hkk Hget. destruct (Hsound verify k it Hkk Hget) as (i & e & Hsp & Hi & Hrest).
    unfold seek_pos in Hsp. apply fmap_Some in Hsp as ([i' e'] & Hfind & ->). exists i', e'. split; [done|].
    apply list_find_Some in Hfind as (Hi' & _). simpl in Hi. rewrite Hi in Hi'. by injection Hi' as ->.
Qed.
End Theorems.

(** *** Witnesses: a table of three entries, one entry per block, with a Bloom filter
    and a concrete compressor that marks its output. *)
Import IeeeCrc.

Definition demo_es : list entry := [([97], [1; 2]); ([98; 99], []); ([120], [7])].
Definition demo_policy : FilterPolicy := bloom_policy false (bloom_new 10).
Definition demo_opts : TableOptions := mkTO 1 2 SnappyCompression (Some demo_policy).

Lemma demo_sorted : sorted lex_compare demo_es.
Proof. apply sortedb_sorted. vm_compute. reflexivity. Qed.
Lemma demo_ok : Forall (λ e, bytes_ok e.1) demo_es.
Proof. apply (bool_decide_eq_true_1 (Forall _ _)). vm_compute. reflexivity. Qed.

Lemma demo_policy_ok : policy_ok (Some demo_policy) (bloom_fits (bloom_new 10)) demo_es.*1.
Proof.
  split; [apply _|]. intros ks Hin Hl. assert (bloom_fits (bloom_new 10) ks) as Hfit.
  { unfold bloom_fits, bloom_bytes. assert (length ks ≤ 3)%nat by exact Hl.
    split_and!; [|vm_compute; discriminate..].
    cbn [bf_bits_per_key bloom_new]. cbv zeta. rewrite (proj2 (Z.ltb_lt _ _)) by (unfold len; lia). done. }
  split; [done|]. destruct (bloom_create_total (bloom_new 10) ks Hfit) as (f & ? & _); [|eauto].
  apply Forall_forall. intros k Hk. specialize (Hin k Hk).
  repeat (apply elem_of_cons in Hin as [->|Hin]; [repeat constructor; discriminate|]).
  by apply elem_of_nil in Hin.
Qed.

Definition demo_file : InmemFile :=
  match @build_file plain_snappy _ _ (InmemFile_File true) bytewise inmem_default demo_opts true demo_es with
  | Ok f => f | _ => inmem_default end.
Definition demo_table : Table InmemFile :=
  match @table_open plain_snappy _ _ (InmemFile_File true) bytewise demo_file 7
          (len (im_data demo_file)) true (Some demo_policy) with
  | Ok t => t | _ => mkTable inmem_default 0 None None (mkBlock [] 0 0) end.

Lemma outcome_get {A} (x : outcome A) d :
  match x with Ok _ => true | _ => false end = true → x = Ok (match x with Ok y => y | _ => d end).
Proof. by destruct x. Qed.
Lemma demo_built : @build_file plain_snappy _ _ (InmemFile_File true) bytewise inmem_default demo_opts true demo_es
  = Ok demo_file.
Proof. vm_compute. reflexivity. Qed.
Lemma demo_opened : @table_open plain_snappy _ _ (InmemFile_File true) bytewise demo_file 7
  (len (im_data demo_file)) true (Some demo_policy) = Ok demo_table.
Proof. apply outcome_get. vm_compute. reflexivity. Qed.

Lemma table_roundtrip_witness :
  build_file (SN := plain_snappy) (FO := InmemFile_File true) bytewise inmem_default demo_opts true demo_es
    = Err CompressionFailed ∨
  ∃ f', build_file (SN := plain_snappy) (FO := InmemFile_File true) bytewise inmem_default demo_opts true demo_es
    = Ok f' ∧ (len (im_data f') < 2 ^ 32 → ∀ num paranoid,
    ∃ t, table_open (SN := plain_snappy) (FO := InmemFile_File true) bytewise f' num (len (im_data f')) paranoid
           (Some demo_policy) = Ok t ∧
      ∀ verify fuel, (4 < fuel)%nat →
        let IT := TableIterator (SN := plain_snappy) (FO := InmemFile_File true) bytewise t verify fuel in
        (∃ it, it_seek_to_first (new_table_iterator t) = Ok it ∧ collect 3 it = Ok demo_es) ∧
        (∃ it, it_seek_to_last (new_table_iterator t) = Ok it ∧ collect_back 3 it = Ok (reverse demo_es))).
Proof.
  apply (table_roundtrip (SL := plain_snappy_laws) (FL := InmemFile_laws true) bytewise bytes_ok lex_compare
    demo_opts (bloom_fits (bloom_new 10)) inmem_default true demo_es).
  - simpl. lia.
  - apply demo_policy_ok.
  - apply (bool_decide_eq_true_1 (bytes_ok _)). vm_compute. reflexivity.
  - apply demo_sorted.
  - apply demo_ok.
  - simpl. lia.
  - reflexivity.
Defined.

Lemma table_seek_witness :
  let IT := TableIterator (SN := plain_snappy) (FO := InmemFile_File true) bytewise demo_table true 5 in
  ∃ it, it_seek (new_table_iterator demo_table) [98] = Ok it ∧
    it_valid it = true ∧ it_key it = Ok [98; 99] ∧ it_value it = Ok [].
Proof.
  apply (table_seek (SL := plain_snappy_laws) (FL := InmemFile_laws true) bytewise bytes_ok lex_compare
    demo_opts (bloom_fits (bloom_new 10)) inmem_default demo_file true demo_es 7 true true 5 demo_table [98]).
  - simpl. lia.
  - apply demo_policy_ok.
  - apply (bool_decide_eq_true_1 (bytes_ok _)). vm_compute. reflexivity.
  - apply demo_sorted.
  - apply demo_ok.
  - simpl. lia.
  - reflexivity.
  - apply (bool_decide_eq_true_1 (bytes_ok _)). vm_compute. reflexivity.
  - simpl. lia.
  - exact demo_built.
  - vm_compute. reflexivity.
  - exact demo_opened.
Defined.

Lemma table_get_witness :
  ∃ it, internal_get (SN := plain_snappy) (FO := InmemFile_File true) bytewise demo_table true [120] = Ok (Some it) ∧
     bi_valid it = true ∧ bi_get_key it = Ok [120] ∧ bi_get_value it = Ok [7].
Proof.
  apply (table_get (SL := plain_snappy_laws) (FL := InmemFile_laws true) bytewise bytes_ok lex_compare
    demo_opts (bloom_fits (bloom_new 10)) inmem_default demo_file true demo_es 7 true true demo_table).
  - simpl. lia.
  - apply demo_policy_ok.
  - apply (bool_decide_eq_true_1 (bytes_ok _)). vm_compute. reflexivity.
  - apply demo_sorted.
  - apply demo_ok.
  - simpl. lia.
  - reflexivity.
  - exact demo_built.
  - vm_compute. reflexivity.
  - exact demo_opened.
  - right. right. left.
Defined.
