(* ===== verification/SkipList.v ===== *)
(** * The arena and the skip list of the memtable

    [src/mem/arena.rs] ([OffsetArena]) and [src/mem/inlineskiplist.rs]
    ([InlineSkipList], its iterator).  A raw node pointer is its offset in the
    arena, [None] is the null pointer; the memory of the nodes is a map from
    pointers to their key and height and a map from (pointer, level) to the
    [next_nodes] cells.  Reading a cell outside the [height] cells a node was
    given is undefined behaviour in the source and [Panic] here, so that the
    theorems also say that it never happens.  One thread at a time inserts. *)
From stdpp Require Import gmap.
From S2P Require Import Prelude Comparator Iterator.
Open Scope Z_scope.

(** ** [OffsetArena] *)

Record OffsetArena : Type := mkArena { ar_len : Z; ar_cap : Z }.

(** [with_capacity]: a [Vec<u64>] of [cap / 8] words; the first byte is skipped. *)
Definition arena_with_capacity (cap : Z) : OffsetArena := mkArena 1 (cap / 8 * 8).

(** [alloc]: [None] is [Err("Not enough memory available")]; [len] grows in any case. *)
Definition arena_alloc (ck : bool) (a : OffsetArena) (align size : Z) : outcome (option Z) * OffsetArena :=
  match (align_mask ← usub ck 64 align 1; size ← uadd ck 64 size align_mask; Ok (align_mask, size)) with
  | Ok (align_mask, size) =>
    let offset := ar_len a in
    let a := mkArena (wrap 64 (offset + size)) (ar_cap a) in
    ((o ← uadd ck 64 offset align_mask;
      let ptr_offset := Z.land o (Z.lnot align_mask) in
      e ← uadd ck 64 offset size;
      if ar_cap a <? e then Ok None else Ok (Some ptr_offset)), a)
  | Err e => (Err e, a)
  | Panic => (Panic, a)
  | OutOfFuel => (OutOfFuel, a)
  end.

(** [allocate]: [get_mut] turns the offset 0 into the null pointer. *)
Definition arena_allocate (ck : bool) (a : OffsetArena) (chunk align : Z) : outcome (option Z) * OffsetArena :=
  let '(r, a) := arena_alloc ck a align chunk in
  (r ← r; Ok (match r with Some 0 => None | r => r end), a).

Definition memory_used (a : OffsetArena) : Z := ar_len a.

(** ** [InlineSkipList] *)

Definition MAX_HEIGHT : nat := 20.

(** Raising a height while the numbers of the generator ask for it. *)
Fixpoint height_loop (max : nat) (up : Z → bool) (fuel : nat) (random : nat → Z) (i height : nat) : outcome nat :=
  match fuel with
  | O => OutOfFuel
  | S fuel => if (height <? max)%nat && up (random i) then height_loop max up fuel random (S i) (height + 1) else Ok height
  end.
Definition HEIGHT_INCREASE : Z := (2 ^ 32 - 1) / 3.
Definition random_height (random : nat → Z) : outcome nat := height_loop MAX_HEIGHT (λ r, r <? HEIGHT_INCREASE) MAX_HEIGHT random 0 1.

Record SkipList : Type := mkSkl {
  sl_height : nat;
  sl_head : Z;
  sl_arena : OffsetArena;
  sl_size : Z;
  sl_nodes : gmap Z (bytes * nat);
  sl_cells : gmap (Z * nat) (option Z);
}.

Definition sl_set_height h s := mkSkl h (sl_head s) (sl_arena s) (sl_size s) (sl_nodes s) (sl_cells s).
Definition sl_set_size z s := mkSkl (sl_height s) (sl_head s) (sl_arena s) z (sl_nodes s) (sl_cells s).
Definition sl_set_mem a n c s := mkSkl (sl_height s) (sl_head s) a (sl_size s) n c.
Definition sl_set_cells c s := mkSkl (sl_height s) (sl_head s) (sl_arena s) (sl_size s) (sl_nodes s) c.

Section SkipList.
(** [ck]: overflow checks; [node_base]: the size of a node without its cells. *)
Context (ck : bool) (node_base : Z).

(** [Node::new]: allocates [height] of the [MAX_HEIGHT] cells and clears them. *)
Definition null_cells (p : Z) (height : nat) (c : gmap (Z * nat) (option Z)) : gmap (Z * nat) (option Z) :=
  foldr (λ i c, <[(p, i) := None]> c) c (seq 0 height).
Definition node_new (key : bytes) (height : nat) (s : SkipList) : outcome Z * SkipList :=
  let size := node_base + Z.of_nat MAX_HEIGHT * 8 - Z.of_nat (MAX_HEIGHT - height) * 8 in
  match arena_allocate ck (sl_arena s) size 8 with
  | (Ok (Some p), a) =>
    (Ok p, sl_set_mem a (<[p := (key, height)]> (sl_nodes s)) (null_cells p height (sl_cells s)) s)
  | (Ok None, a) => (Panic, sl_set_mem a (sl_nodes s) (sl_cells s) s)
  | (Err e, a) => (Err e, sl_set_mem a (sl_nodes s) (sl_cells s) s)
  | (Panic, a) => (Panic, sl_set_mem a (sl_nodes s) (sl_cells s) s)
  | (OutOfFuel, a) => (OutOfFuel, sl_set_mem a (sl_nodes s) (sl_cells s) s)
  end.

Definition get_next (s : SkipList) (p : Z) (level : nat) : outcome (option Z) :=
  match sl_cells s !! (p, level) with Some n => Ok n | None => Panic end.
Definition set_next (s : SkipList) (p : Z) (level : nat) (n : option Z) : outcome SkipList :=
  match sl_cells s !! (p, level) with
  | Some _ => Ok (sl_set_cells (<[(p, level) := n]> (sl_cells s)) s)
  | None => Panic
  end.
Definition node_key (s : SkipList) (p : Z) : outcome bytes :=
  match sl_nodes s !! p with Some (k, _) => Ok k | None => Panic end.

Definition skl_new (cap : Z) : outcome SkipList :=
  let s := mkSkl 1 0 (arena_with_capacity cap) 0 ∅ ∅ in
  match node_new [] MAX_HEIGHT s with
  | (Ok head, s) => Ok (mkSkl 1 head (sl_arena s) 0 (sl_nodes s) (sl_cells s))
  | (Err e, _) => Err e | (Panic, _) => Panic | (OutOfFuel, _) => OutOfFuel
  end.

Section WithComparator.
Context (C : Comparator).

(** More than the nodes to pass and the levels to descend. *)
Definition walk_fuel (s : SkipList) : nat := size (sl_nodes s) + sl_height s + 1.

Definition or_null (s : SkipList) (x : Z) : option Z := if decide (x = sl_head s) then None else Some x.

Fixpoint find_near_loop (fuel : nat) (s : SkipList) (key : bytes) (less allow_equal : bool)
    (x : Z) (level : nat) : outcome (option Z * bool) :=
  match fuel with
  | O => OutOfFuel
  | S fuel =>
    next_ptr ← get_next s x level;
    match next_ptr with
    | None =>
      match level with
      | O => Ok (if negb less then None else or_null s x, false)
      | S level => find_near_loop fuel s key less allow_equal x level
      end
    | Some next =>
      k ← node_key s next;
      c ← compare key k;
      match c with
      | Gt => find_near_loop fuel s key less allow_equal next level
      | Eq =>
        if (allow_equal : bool) then Ok (Some next, true) else
        if negb less then n ← get_next s next 0; Ok (n, false) else
        match level with
        | O => Ok (or_null s x, false)
        | S level => find_near_loop fuel s key less allow_equal x level
        end
      | Lt =>
        match level with
        | O => Ok (if negb less then Some next else or_null s x, false)
        | S level => find_near_loop fuel s key less allow_equal x level
        end
      end
    end
  end.
Definition find_near (s : SkipList) (key : bytes) (less allow_equal : bool) : outcome (option Z * bool) :=
  find_near_loop (walk_fuel s) s key less allow_equal (sl_head s) (sl_height s - 1).

Fixpoint find_splice_loop (fuel : nat) (s : SkipList) (key : bytes) (before : Z) (height : nat)
    : outcome (option Z * option Z) :=
  match fuel with
  | O => OutOfFuel
  | S fuel =>
    next ← get_next s before height;
    match next with
    | None => Ok (Some before, None)
    | Some n =>
      k ← node_key s n;
      c ← compare key k;
      match c with
      | Eq => Ok (Some n, Some n)
      | Lt => Ok (Some before, Some n)
      | Gt => find_splice_loop fuel s key n height
      end
    end
  end.
(** [find_splice_for_level]; [before] is dereferenced. *)
Definition find_splice_for_level (s : SkipList) (key : bytes) (before : option Z) (height : nat)
    : outcome (option Z * option Z) :=
  match before with
  | Some b => find_splice_loop (walk_fuel s) s key b height
  | None => Panic
  end.

(** The first loop of [put]: the neighbours of the key on each level. *)
Fixpoint find_splices (s : SkipList) (key : bytes) (i : nat) (prev next : list (option Z))
    : outcome (list (option Z) * list (option Z)) :=
  match i with
  | O => Ok (prev, next)
  | S i =>
    before ← index prev (S i);
    pn ← find_splice_for_level s key before i;
    _ ← rust_assert (bool_decide (pn.1 ≠ pn.2));
    find_splices s key i (<[i := pn.1]> prev) (<[i := pn.2]> next)
  end.

(** The second loop of [put] on one level: [compare_exchange] is retried until it
    succeeds; [false] when the key turned out to be present. *)
Fixpoint link_level (fuel : nat) (s : SkipList) (key : bytes) (np : Z) (i : nat)
    (p n : option Z) : outcome bool * SkipList :=
  match fuel with
  | O => (OutOfFuel, s)
  | S fuel =>
    match (match p with
           | None =>
             _ ← rust_assert (bool_decide (1 < i)%nat);
             pn ← find_splice_for_level s key (Some (sl_head s)) i;
             _ ← rust_assert (bool_decide (pn.1 ≠ pn.2));
             match pn.1 with Some p => Ok (p, pn.2) | None => Panic end
           | Some p => Ok (p, n)
           end) with
    | Ok (p, n) =>
      match set_next s np i n with
      | Ok s =>
        match get_next s p i with
        | Ok cur =>
          if decide (cur = n) then
            match set_next s p i (Some np) with
            | Ok s => (Ok true, s)
            | Err e => (Err e, s) | Panic => (Panic, s) | OutOfFuel => (OutOfFuel, s)
            end
          else
            match find_splice_for_level s key (Some p) i with
            | Ok (p', n') =>
              if decide (p' = n') then
                if decide (i = 0%nat) then (Ok false, s) else (Panic, s)
              else link_level fuel s key np i p' n'
            | Err e => (Err e, s) | Panic => (Panic, s) | OutOfFuel => (OutOfFuel, s)
            end
        | Err e => (Err e, s) | Panic => (Panic, s) | OutOfFuel => (OutOfFuel, s)
        end
      | Err e => (Err e, s) | Panic => (Panic, s) | OutOfFuel => (OutOfFuel, s)
      end
    | Err e => (Err e, s) | Panic => (Panic, s) | OutOfFuel => (OutOfFuel, s)
    end
  end.

Fixpoint link_levels (s : SkipList) (key : bytes) (np : Z) (i height : nat) (prev next : list (option Z))
    : outcome unit * SkipList :=
  match height with
  | O => (Ok tt, s)
  | S height =>
    match (p ← index prev i; n ← index next i; Ok (p, n)) with
    | Ok (p, n) =>
      match link_level (walk_fuel s) s key np i p n with
      | (Ok true, s) => link_levels s key np (S i) height prev next
      | (Ok false, s) => (Ok tt, s)
      | (Err e, s) => (Err e, s) | (Panic, s) => (Panic, s) | (OutOfFuel, s) => (OutOfFuel, s)
      end
    | Err e => (Err e, s) | Panic => (Panic, s) | OutOfFuel => (OutOfFuel, s)
    end
  end.

(** [put]; [height] is what [random_height] returned. *)
Definition skl_put (height : nat) (key : bytes) (s : SkipList) : outcome unit * SkipList :=
  let s := sl_set_size (wrap 64 (sl_size s + len key)) s in
  let list_height := sl_height s in
  let prev := <[list_height := Some (sl_head s)]> (replicate (MAX_HEIGHT + 1) None) in
  let next := replicate (MAX_HEIGHT + 1) None in
  match find_splices s key list_height prev next with
  | Ok (prev, next) =>
    match node_new key height s with
    | (Ok np, s) =>
      let s := if (list_height <? height)%nat then sl_set_height height s else s in
      link_levels s key np 0 height prev next
    | (Err e, s) => (Err e, s) | (Panic, s) => (Panic, s) | (OutOfFuel, s) => (OutOfFuel, s)
    end
  | Err e => (Err e, s) | Panic => (Panic, s) | OutOfFuel => (OutOfFuel, s)
  end.

Fixpoint find_last_loop (fuel : nat) (s : SkipList) (x : Z) (height : nat) : outcome (option Z) :=
  match fuel with
  | O => OutOfFuel
  | S fuel =>
    next ← get_next s x height;
    match next with
    | None => match height with O => Ok (or_null s x) | S height => find_last_loop fuel s x height end
    | Some n => find_last_loop fuel s n height
    end
  end.
Definition find_last (s : SkipList) : outcome (option Z) :=
  find_last_loop (walk_fuel s) s (sl_head s) (sl_height s - 1).

Fixpoint skl_len_loop (fuel : nat) (s : SkipList) (node : Z) (count : nat) : outcome nat :=
  match fuel with
  | O => OutOfFuel
  | S fuel =>
    next ← get_next s node 0;
    match next with Some n => skl_len_loop fuel s n (S count) | None => Ok count end
  end.
Definition skl_len (s : SkipList) : outcome nat := skl_len_loop (walk_fuel s) s (sl_head s) 0.
Definition total_size (s : SkipList) : outcome Z := uadd ck 64 (sl_size s) (memory_used (sl_arena s)).

(** ** [InlineSkiplistIterator] *)

Record SklIter : Type := mkSklIter { si_list : SkipList; si_node : option Z }.

Definition si_new (s : SkipList) : SklIter := mkSklIter s None.
Definition si_valid (it : SklIter) : bool := match si_node it with Some _ => true | None => false end.
Definition si_at (it : SklIter) : outcome Z := match si_node it with Some p => Ok p | None => Panic end.
Definition si_move (it : SklIter) (n : option Z) : SklIter := mkSklIter (si_list it) n.
Definition si_seek_to_first (it : SklIter) : outcome SklIter :=
  n ← get_next (si_list it) (sl_head (si_list it)) 0; Ok (si_move it n).
Definition si_seek_to_last (it : SklIter) : outcome SklIter :=
  n ← find_last (si_list it); Ok (si_move it n).
Definition si_seek (it : SklIter) (key : bytes) : outcome SklIter :=
  r ← find_near (si_list it) key false true; Ok (si_move it r.1).
Definition si_next (it : SklIter) : outcome SklIter :=
  p ← si_at it; n ← get_next (si_list it) p 0; Ok (si_move it n).
Definition si_key (it : SklIter) : outcome bytes := p ← si_at it; node_key (si_list it) p.
Definition si_prev (it : SklIter) : outcome SklIter :=
  k ← si_key it; r ← find_near (si_list it) k true false; Ok (si_move it r.1).
End WithComparator.
End SkipList.
