(* ===== verification/SkipListFacts.v ===== *)
(** * Facts on the arena and the skip list

    [skl_inv s ps]: the nodes [ps], in order, have strictly increasing keys, and
    on every level the cells link exactly the nodes that are high enough. *)
From stdpp Require Import gmap.
From S2P Require Import Prelude Comparator Iterator SkipList.
Open Scope Z_scope.

(** ** The arena *)

Lemma land_lnot_pow2 x k : 0 ≤ k → Z.land x (Z.lnot (2 ^ k - 1)) = x / 2 ^ k * 2 ^ k.
Proof.
  intros Hk. rewrite <- Z.ldiff_land. replace (2 ^ k - 1) with (Z.ones k) by (rewrite Z.ones_equiv; lia).
  rewrite Z.ldiff_ones_r by done. by rewrite Z.shiftl_mul_pow2, Z.shiftr_div_pow2.
Qed.

Lemma align_up x k : 0 ≤ k → 0 ≤ x →
  let p := Z.land (x + (2 ^ k - 1)) (Z.lnot (2 ^ k - 1)) in
  x ≤ p ≤ x + (2 ^ k - 1) ∧ p mod 2 ^ k = 0.
Proof.
  intros Hk Hx p. unfold p. rewrite land_lnot_pow2 by done. clear p. assert (0 < 2 ^ k) by lia.
  pose proof (Z.div_mod (x + (2 ^ k - 1)) (2 ^ k)). pose proof (Z.mod_pos_bound (x + (2 ^ k - 1)) (2 ^ k)).
  split; [nia|]. apply Z.mod_mul. lia.
Qed.

(** A healthy arena: its length and capacity are addresses. *)
Definition arena_ok (a : OffsetArena) : Prop := 1 ≤ ar_len a ∧ ar_len a < 2 ^ 62 ∧ ar_cap a < 2 ^ 62.

Lemma arena_allocate_ok ck a size k :
  arena_ok a → 0 ≤ size → 0 ≤ k → size + 2 ^ k < 2 ^ 62 →
  let len' := ar_len a + size + (2 ^ k - 1) in
  ∃ r, arena_allocate ck a size (2 ^ k) = (Ok r, mkArena len' (ar_cap a)) ∧
    match r with
    | Some p => ar_len a ≤ p ∧ p + size ≤ len' ∧ p mod 2 ^ k = 0 ∧ len' ≤ ar_cap a
    | None => ar_cap a < len'
    end.
Proof.
  intros (H1 & H2 & H3) Hs Hk Hsz len'. unfold arena_allocate, arena_alloc. assert (0 < 2 ^ k) by lia.
  unfold usub. rewrite (proj2 (Z.leb_le 1 _)), Ok_bind by lia.
  unfold uadd. rewrite (proj2 (Z.ltb_lt (size + _) _)), !Ok_bind by lia.
  rewrite (proj2 (Z.ltb_lt (ar_len a + (2 ^ k - 1)) _)), Ok_bind by lia.
  rewrite (proj2 (Z.ltb_lt (ar_len a + (size + _)) _)), Ok_bind by lia.
  rewrite wrap_small by (unfold in_uint; lia).
  destruct (align_up (ar_len a) k Hk ltac:(lia)) as [Hp Hmod].
  set (p := Z.land _ _) in *. cbn [ar_cap]. unfold len'.
  replace (ar_len a + size + (2 ^ k - 1)) with (ar_len a + (size + (2 ^ k - 1))) by lia.
  destruct (Z.ltb_spec (ar_cap a) (ar_len a + (size + (2 ^ k - 1)))).
  - exists None. split; [done|]. lia.
  - exists (Some p). rewrite Ok_bind. split; [destruct p; [lia|done|lia]|]. lia.
Qed.

Lemma tail_elem {X} (h x p : X) A A1 A2 : h :: A = A1 ++ x :: A2 → p ∈ A2 → p ∈ A.
Proof.
  intros Heq Hp. destruct A1 as [|a A1]; simpl in Heq; injection Heq as -> ->; [done|].
  apply elem_of_app. right. by right.
Qed.

(** ** The linked levels *)
Section Levels.
Implicit Types s : SkipList.

Definition hof s (p : Z) : nat := match sl_nodes s !! p with Some (_, h) => h | None => 0%nat end.
Definition kof s (p : Z) : bytes := match sl_nodes s !! p with Some (k, _) => k | None => [] end.
(** The nodes of [ps] on level [i]. *)
Definition lvl s (i : nat) (ps : list Z) : list Z := filter (λ p, (i < hof s p)%nat) ps.

Fixpoint chain s (i : nat) (x : Z) (l : list Z) : Prop :=
  match l with
  | [] => sl_cells s !! (x, i) = Some None
  | y :: l => sl_cells s !! (x, i) = Some (Some y) ∧ chain s i y l
  end.

Lemma lvl_app s i l1 l2 : lvl s i (l1 ++ l2) = lvl s i l1 ++ lvl s i l2.
Proof. apply filter_app. Qed.
Lemma lvl_cons_yes s i p l : (i < hof s p)%nat → lvl s i (p :: l) = p :: lvl s i l.
Proof. intros. unfold lvl. by rewrite filter_cons_True. Qed.
Lemma lvl_cons_no s i p l : ¬ (i < hof s p)%nat → lvl s i (p :: l) = lvl s i l.
Proof. intros. unfold lvl. by rewrite filter_cons_False. Qed.
Lemma lvl_nil s i l : (∀ p, p ∈ l → ¬ (i < hof s p)%nat) → lvl s i l = [].
Proof.
  induction l as [|p l IH]; intros H; [done|]. rewrite lvl_cons_no by (apply H; left).
  apply IH. intros q Hq. apply H. by right.
Qed.
Lemma lvl_elem s i p l : p ∈ lvl s i l ↔ (i < hof s p)%nat ∧ p ∈ l.
Proof. unfold lvl. by rewrite list_elem_of_filter. Qed.
Lemma lvl_head s i l y L : lvl s i l = y :: L →
  ∃ l1 l2, l = l1 ++ y :: l2 ∧ lvl s i l1 = [] ∧ L = lvl s i l2 ∧ (i < hof s y)%nat.
Proof.
  induction l as [|p l IH]; intros H; [done|]. destruct (decide (i < hof s p)%nat) as [Hp|Hp].
  - rewrite lvl_cons_yes in H by done. injection H as -> <-. by exists [], l.
  - rewrite lvl_cons_no in H by done. destruct (IH H) as (l1 & l2 & -> & Hl1 & -> & ?).
    exists (p :: l1), l2. split_and!; try done. by rewrite lvl_cons_no.
Qed.

Lemma chain_suffix s i z l1 x l2 : chain s i z (l1 ++ x :: l2) → chain s i x l2.
Proof. revert z. induction l1 as [|y l1 IH]; intros z [? ?]; [done|]. by eapply IH. Qed.
Lemma chain_next s i x l : chain s i x l → get_next s x i = Ok (head l).
Proof. unfold get_next. destruct l; simpl; [intros ->|intros [-> _]]; done. Qed.

(** Chains only depend on the cells of their level. *)
Lemma chain_ext s s' i x l :
  (∀ p, p ∈ x :: l → sl_cells s' !! (p, i) = sl_cells s !! (p, i)) → chain s i x l → chain s' i x l.
Proof.
  revert x. induction l as [|y l IH]; intros x Heq; simpl.
  - by rewrite Heq by left.
  - rewrite Heq by left. intros [? ?]. split; [done|]. apply IH; [|done]. intros p Hp. apply Heq. by right.
Qed.

(** Linking a node between two parts of a chain. *)
Lemma chain_insert s s' i x A B np :
  chain s i x (A ++ B) → NoDup (x :: A ++ B) → np ∉ x :: A ++ B →
  sl_cells s' !! (np, i) = Some (head B) →
  sl_cells s' !! (List.last A x, i) = Some (Some np) →
  (∀ p, p ≠ np → p ≠ List.last A x → sl_cells s' !! (p, i) = sl_cells s !! (p, i)) →
  chain s' i x (A ++ np :: B).
Proof.
  revert x. induction A as [|y A IH]; intros x Hch Hnd Hnp Hcn Hcl Hother.
  - simpl in *. split; [done|]. destruct B as [|b B]; [done|]. simpl in *. split; [done|].
    destruct Hch as [_ Hch]. eapply chain_ext; [|done]. intros p Hp. apply Hother.
    + intros ->. apply Hnp. by right.
    + intros ->. by inversion Hnd.
  - simpl in Hch. destruct Hch as [Hx Hch].
    assert (List.last (y :: A) x = List.last A y) as Hl.
    { clear. revert y. induction A; intros; [done|]. simpl in *. destruct A; [done|]. apply IHA. }
    rewrite Hl in *. inversion Hnd as [|?? Hnin Hnd']; subst. split.
    + rewrite Hother; [done| |].
      * intros ->. apply Hnp. left.
      * intros ->. apply Hnin. apply elem_of_cons. destruct (decide (A = [])) as [->|HA]; [by left|right].
        apply elem_of_app. left. destruct (exists_last HA) as (A' & z & ->). rewrite last_last.
        apply elem_of_app. right. left.
    + apply IH; try done. intros Hin. apply Hnp. by right.
Qed.
End Levels.

(** ** The invariant, and walking the list *)
Section Walk.
Context (C : Comparator) (key_ok : bytes → Prop) (ord : bytes → bytes → comparison).
Context {CO : ComparatorOrder C key_ok ord}.
Implicit Types s : SkipList.

Record skl_inv s (ps : list Z) : Prop := {
  sk_head : sl_nodes s !! sl_head s = Some ([], MAX_HEIGHT);
  sk_height : (1 ≤ sl_height s ≤ MAX_HEIGHT)%nat;
  sk_nodes p : p ∈ ps → is_Some (sl_nodes s !! p) ∧ (1 ≤ hof s p ≤ sl_height s)%nat ∧ key_ok (kof s p);
  sk_nodup : NoDup (sl_head s :: ps);
  sk_chain i : (i < MAX_HEIGHT)%nat → chain s i (sl_head s) (lvl s i ps);
  sk_sorted i j p q : (i < j)%nat → ps !! i = Some p → ps !! j = Some q → ord (kof s p) (kof s q) = Lt;
  sk_below p : p ∈ sl_head s :: ps → p < ar_len (sl_arena s);
}.

Context s ps (INV : skl_inv s ps).

Lemma hof_head : hof s (sl_head s) = MAX_HEIGHT.
Proof. unfold hof. by rewrite (sk_head _ _ INV). Qed.

Lemma chain_from A x R i :
  sl_head s :: ps = A ++ x :: R → (i < hof s x)%nat → (i < MAX_HEIGHT)%nat → chain s i x (lvl s i R).
Proof.
  intros Heq Hx Hi. pose proof (sk_chain _ _ INV i Hi) as Hch. destruct A as [|a A]; simplify_eq/=; [done|].
  rewrite lvl_app, lvl_cons_yes in Hch by done. by eapply chain_suffix.
Qed.

(** The next node on the level, when the nodes after [x] are [A2 ++ B]. *)
Lemma next_cases A1 x A2 B i :
  sl_head s :: ps = A1 ++ x :: A2 ++ B → (i < hof s x)%nat → (i < MAX_HEIGHT)%nat →
  (∃ R1 y R2, A2 = R1 ++ y :: R2 ∧ get_next s x i = Ok (Some y) ∧ (i < hof s y)%nat) ∨
  (lvl s i A2 = [] ∧ get_next s x i = Ok (head (lvl s i B))).
Proof.
  intros Heq Hx Hi. pose proof (chain_next _ _ _ _ (chain_from A1 x _ i Heq Hx Hi)) as Hn. rewrite lvl_app in Hn.
  destruct (lvl s i A2) as [|y L] eqn:HL; [by right|].
  apply lvl_head in HL as (R1 & R2 & -> & _ & _ & Hy). left. by exists R1, y, R2.
Qed.

Lemma in_ps A1 x A2 B p : sl_head s :: ps = A1 ++ x :: A2 ++ B → p ∈ A2 ++ B → p ∈ ps.
Proof.
  intros Heq Hp. destruct A1 as [|a A1]; simplify_eq/=; [done|]. apply elem_of_app. right. by right.
Qed.
Lemma lvl0 l : (∀ p, p ∈ l → p ∈ ps) → lvl s 0 l = l.
Proof.
  induction l as [|p l IH]; intros Hl; [done|]. rewrite lvl_cons_yes.
  - f_equal. apply IH. intros q Hq. apply Hl. by right.
  - destruct (sk_nodes _ _ INV p) as (_ & ? & _); [apply Hl; left|lia].
Qed.
Lemma node_key_ps p : p ∈ ps → node_key s p = Ok (kof s p).
Proof.
  intros Hp. destruct (sk_nodes _ _ INV p Hp) as ([[k h] Hn] & _). unfold node_key, kof. by rewrite Hn.
Qed.

Context (t : bytes) (Ht : key_ok t) (A B : list Z) (Hps : ps = A ++ B).
Context (HA : ∀ p, p ∈ A → ord (kof s p) t = Lt) (HB : ∀ p, p ∈ B → ord (kof s p) t ≠ Lt).

Lemma cmp_ps p : p ∈ ps → compare t (kof s p) = Ok (ord t (kof s p)).
Proof. intros Hp. apply compare_ord; [done|]. by apply (sk_nodes _ _ INV). Qed.

(** Two nodes of [B] are not both equal to the target. *)
Lemma eq_is_head y : y ∈ B → ord t (kof s y) = Eq → head B = Some y.
Proof.
  intros Hy Heq. destruct B as [|b B']; [by apply elem_of_nil in Hy|]. simpl. f_equal.
  apply elem_of_cons in Hy as [->|Hy]; [done|]. exfalso.
  apply (HB b); [left|]. apply list_elem_of_lookup_1 in Hy as [j Hj].
  assert (ord (kof s b) (kof s y) = Lt) as Hlt.
  { apply (sk_sorted _ _ INV (length A) (length A + S j)%nat); [lia|..]; rewrite Hps, lookup_app_r by lia.
    - by rewrite Nat.sub_diag.
    - by rewrite Nat.add_sub'. }
  by rewrite (ord_eq_r ord _ _ _ Heq).
Qed.

Lemma find_ge_loop fuel A1 x A2 lv :
  sl_head s :: A = A1 ++ x :: A2 → (lv < hof s x)%nat → (lv < MAX_HEIGHT)%nat → (lv + length A2 < fuel)%nat →
  ∃ b, find_near_loop C fuel s t false true x lv = Ok (head B, b).
Proof.
  revert A1 x A2 lv. induction fuel as [|fuel IH]; intros A1 x A2 lv Heq Hx Hlv Hf; [lia|]. cbn [find_near_loop].
  assert (sl_head s :: ps = A1 ++ x :: A2 ++ B) as Heq'.
  { rewrite Hps, app_comm_cons, Heq, <- app_assoc. done. }
  destruct (next_cases A1 x A2 B lv Heq' Hx Hlv) as [(R1 & y & R2 & -> & -> & Hy)|[Hnil ->]]; rewrite Ok_bind.
  - assert (y ∈ ps) as Hyin.
    { apply (in_ps A1 x (R1 ++ y :: R2) B _ Heq'). apply elem_of_app. left. apply elem_of_app. right. left. }
    assert (y ∈ A) as HyA.
    { apply (tail_elem _ _ _ _ _ _ Heq). apply elem_of_app. right. left. }
    rewrite node_key_ps, Ok_bind, cmp_ps, Ok_bind by done.
    rewrite (proj2 (ord_gt_lt ord _ _) (HA y HyA)).
    apply (IH (A1 ++ x :: R1) y R2); [by rewrite Heq, <- app_assoc|done|done|].
    rewrite length_app in Hf. simpl in Hf. lia.
  - destruct (lvl s lv B) as [|y L] eqn:HL; simpl.
    + destruct lv as [|lv]; [|apply (IH A1 x A2); [done|lia|lia|lia]].
      rewrite lvl0 in HL by (intros; subst; apply elem_of_app; by right). subst B. by exists false.
    + assert (y ∈ B) as HyB by (apply (lvl_elem s lv y B); rewrite HL; left).
      assert (y ∈ ps) as Hyin by (rewrite Hps; apply elem_of_app; by right).
      rewrite node_key_ps, Ok_bind, cmp_ps, Ok_bind by done. destruct (ord t (kof s y)) eqn:Hc.
      * exists true. by rewrite (eq_is_head y HyB Hc).
      * destruct lv as [|lv]; [|apply (IH A1 x A2); [done|lia|lia|lia]].
        rewrite lvl0 in HL by (intros; subst; apply elem_of_app; by right). exists false. by rewrite HL.
      * apply (ord_gt_lt ord) in Hc. by destruct (HB y HyB).
Qed.

Lemma or_null_last A1 x : sl_head s :: A = A1 ++ [x] → or_null s x = last A.
Proof.
  clear HA HB. intros Heq. pose proof (sk_nodup _ _ INV) as Hnd. unfold or_null. destruct A1 as [|a A1]; simplify_eq/=.
  - by rewrite decide_True.
  - rewrite last_snoc, decide_False; [done|]. intros ->. inversion Hnd as [|?? Hn _]; subst.
    apply Hn. apply elem_of_app. left. apply elem_of_app. right. left.
Qed.

Lemma find_lt_loop fuel A1 x A2 lv :
  sl_head s :: A = A1 ++ x :: A2 → (lv < hof s x)%nat → (lv < MAX_HEIGHT)%nat → (lv + length A2 < fuel)%nat →
  find_near_loop C fuel s t true false x lv = Ok (last A, false).
Proof.
  revert A1 x A2 lv. induction fuel as [|fuel IH]; intros A1 x A2 lv Heq Hx Hlv Hf; [lia|]. cbn [find_near_loop].
  assert (sl_head s :: ps = A1 ++ x :: A2 ++ B) as Heq'.
  { rewrite Hps, app_comm_cons, Heq, <- app_assoc. done. }
  assert (lv = 0%nat → lvl s lv A2 = [] → or_null s x = last A) as Hbot.
  { intros -> Hnil. rewrite lvl0 in Hnil; [subst A2; by eapply or_null_last|].
    intros p Hp. apply (in_ps A1 x A2 B _ Heq'). apply elem_of_app. by left. }
  destruct (next_cases A1 x A2 B lv Heq' Hx Hlv) as [(R1 & y & R2 & -> & -> & Hy)|[Hnil ->]]; rewrite Ok_bind.
  - assert (y ∈ ps) as Hyin.
    { apply (in_ps A1 x (R1 ++ y :: R2) B _ Heq'). apply elem_of_app. left. apply elem_of_app. right. left. }
    assert (y ∈ A) as HyA.
    { apply (tail_elem _ _ _ _ _ _ Heq). apply elem_of_app. right. left. }
    rewrite node_key_ps, Ok_bind, cmp_ps, Ok_bind by done.
    rewrite (proj2 (ord_gt_lt ord _ _) (HA y HyA)).
    apply (IH (A1 ++ x :: R1) y R2); [by rewrite Heq, <- app_assoc|done|done|].
    rewrite length_app in Hf. simpl in Hf. lia.
  - destruct (lvl s lv B) as [|y L] eqn:HL; simpl.
    + destruct lv as [|lv]; [by rewrite Hbot|]. apply (IH A1 x A2); [done|lia|lia|lia].
    + assert (y ∈ B) as HyB by (apply (lvl_elem s lv y B); rewrite HL; left).
      assert (y ∈ ps) as Hyin by (rewrite Hps; apply elem_of_app; by right).
      rewrite node_key_ps, Ok_bind, cmp_ps, Ok_bind by done. destruct (ord t (kof s y)) eqn:Hc.
      * destruct lv as [|lv]; [by rewrite Hbot|]. apply (IH A1 x A2); [done|lia|lia|lia].
      * destruct lv as [|lv]; [by rewrite Hbot|]. apply (IH A1 x A2); [done|lia|lia|lia].
      * apply (ord_gt_lt ord) in Hc. by destruct (HB y HyB).
Qed.
End Walk.

(** ** Finding the place of a new key *)
Section Splice.
Context (C : Comparator) (key_ok : bytes → Prop) (ord : bytes → bytes → comparison).
Context {CO : ComparatorOrder C key_ok ord}.
Context (s : SkipList) (ps : list Z) (INV : skl_inv key_ok ord s ps).
Context (t : bytes) (Ht : key_ok t) (A B : list Z) (Hps : ps = A ++ B).
Context (HA : ∀ p, p ∈ A → ord (kof s p) t = Lt) (HB : ∀ p, p ∈ B → ord t (kof s p) = Lt).

Lemma B_not_lt p : p ∈ B → ord (kof s p) t ≠ Lt.
Proof. intros Hp Hlt. apply HB, (ord_gt_lt ord) in Hp. congruence. Qed.

Lemma length_ps : (length ps ≤ size (sl_nodes s))%nat.
Proof.
  rewrite <- size_dom. pose proof (sk_nodup _ _ _ _ INV) as Hnd. apply NoDup_cons in Hnd as [_ Hnd].
  rewrite <- (size_list_to_set (C := gset Z) ps Hnd). apply subseteq_size. intros p Hp%elem_of_list_to_set.
  apply elem_of_dom. by apply (sk_nodes _ _ _ _ INV).
Qed.

(** The neighbours on a level. *)
Definition before_at (i : nat) : Z := List.last (lvl s i A) (sl_head s).
Definition after_at (i : nat) : option Z := head (lvl s i B).

Lemma last_lvl i l d : let x := List.last (lvl s i l) d in
  (lvl s i l = [] ∧ x = d) ∨ ∃ l1 l2, l = l1 ++ x :: l2 ∧ (i < hof s x)%nat ∧ lvl s i l2 = [].
Proof.
  induction l as [|p l IH] using rev_ind; [by left|]. intros x. subst x. rewrite lvl_app.
  destruct (decide (i < hof s p)%nat) as [Hp|Hp].
  - rewrite lvl_cons_yes by done. right. exists l, []. change (lvl s i []) with (@nil Z). by rewrite last_last.
  - rewrite (lvl_cons_no s i p []) by done. change (lvl s i []) with (@nil Z). rewrite app_nil_r.
    destruct IH as [[? ?]|(l1 & l2 & Heq & Hx & Hl2)]; [by left|right]. exists l1, (l2 ++ [p]).
    split_and!; [by rewrite Heq at 1; rewrite <- app_assoc|done|].
    rewrite lvl_app, Hl2, lvl_cons_no by done. done.
Qed.

(** [before_at (S i)] is also on level [i], before [before_at i]. *)
Lemma before_split i : ∃ A1 A2, sl_head s :: A = A1 ++ before_at i :: A2 ∧ lvl s i A2 = [] ∧
  ((i < MAX_HEIGHT)%nat → (i < hof s (before_at i))%nat).
Proof.
  unfold before_at. destruct (last_lvl i A (sl_head s)) as [[Hnil ->]|(l1 & l2 & Heq & Hx & Hl2)].
  - exists [], A. split_and!; [done..|]. by rewrite (hof_head _ _ _ _ INV).
  - exists (sl_head s :: l1), l2. split_and!; [|done|done]. simpl. by rewrite Heq at 1.
Qed.

Lemma last_default_app (l1 : list Z) x l2 d : List.last (l1 ++ x :: l2) d = List.last l2 x.
Proof.
  revert x. induction l2 as [|y l2 IH] using rev_ind; intros x; [by rewrite last_last|].
  rewrite app_comm_cons, app_assoc, !last_last. done.
Qed.

Lemma before_from i A1 x A2 : sl_head s :: A = A1 ++ x :: A2 → (i < hof s x)%nat →
  List.last (lvl s i A2) x = before_at i.
Proof.
  intros Heq Hx. unfold before_at. destruct A1 as [|a A1]; simplify_eq/=; [done|].
  by rewrite lvl_app, lvl_cons_yes, last_default_app.
Qed.

Lemma find_splice_loop_ok fuel A1 x A2 i :
  sl_head s :: A = A1 ++ x :: A2 → (i < hof s x)%nat → (i < MAX_HEIGHT)%nat → (length A2 < fuel)%nat →
  find_splice_loop C fuel s t x i = Ok (Some (before_at i), after_at i).
Proof.
  revert A1 x A2. induction fuel as [|fuel IH]; intros A1 x A2 Heq Hx Hi Hf; [lia|]. cbn [find_splice_loop].
  assert (sl_head s :: ps = A1 ++ x :: A2 ++ B) as Heq'.
  { rewrite Hps, app_comm_cons, Heq, <- app_assoc. done. }
  destruct (next_cases key_ok ord s ps INV A1 x A2 B i Heq' Hx Hi) as [(R1 & y & R2 & -> & -> & Hy)|[Hnil ->]];
    rewrite Ok_bind.
  - assert (y ∈ A) as HyA.
    { apply (tail_elem _ _ _ _ _ _ Heq). apply elem_of_app. right. left. }
    assert (y ∈ ps) as Hyin by (rewrite Hps; apply elem_of_app; by left).
    rewrite (node_key_ps key_ok ord s ps INV), Ok_bind by done.
    rewrite (cmp_ps C key_ok ord s ps INV), Ok_bind by done.
    rewrite (proj2 (ord_gt_lt ord _ _) (HA y HyA)).
    apply (IH (A1 ++ x :: R1) y R2); [by rewrite Heq, <- app_assoc|done|done|].
    rewrite length_app in Hf. simpl in Hf. lia.
  - rewrite <- (before_from i A1 x A2 Heq Hx), Hnil. unfold after_at. simpl.
    destruct (lvl s i B) as [|y L] eqn:HL; simpl; [done|].
    assert (y ∈ B) as HyB by (apply (lvl_elem s i y B); rewrite HL; left).
    assert (y ∈ ps) as Hyin by (rewrite Hps; apply elem_of_app; by right).
    rewrite (node_key_ps key_ok ord s ps INV), Ok_bind by done.
    rewrite (cmp_ps C key_ok ord s ps INV), Ok_bind by done.
    by rewrite (HB y HyB).
Qed.

Lemma before_not_after i : Some (before_at i) ≠ after_at i.
Proof.
  intros Heq. destruct (before_split i) as (A1 & A2 & HAeq & _). unfold after_at in Heq.
  destruct (lvl s i B) as [|y L] eqn:HL; [done|]. injection Heq as Hy.
  assert (y ∈ B) as HyB by (apply (lvl_elem s i y B); rewrite HL; left).
  pose proof (sk_nodup _ _ _ _ INV) as Hnd. rewrite Hps, app_comm_cons, HAeq in Hnd.
  apply NoDup_app in Hnd as (_ & Hdis & _). apply (Hdis (before_at i)); [apply elem_of_app; right; left|].
  by rewrite Hy.
Qed.

(** The arrays of [put] from level [i] on. *)
Definition splices_from (i : nat) (prev next : list (option Z)) : Prop :=
  length prev = S MAX_HEIGHT ∧ length next = S MAX_HEIGHT ∧
  (∀ j, (i ≤ j ≤ sl_height s)%nat → prev !! j = Some (Some (before_at j)) ∧ next !! j = Some (after_at j)) ∧
  (∀ j, (sl_height s < j ≤ MAX_HEIGHT)%nat → prev !! j = Some None ∧ next !! j = Some None).

Lemma find_splices_ok i prev next : (i ≤ sl_height s)%nat → splices_from i prev next →
  ∃ prev' next', find_splices C s t i prev next = Ok (prev', next') ∧ splices_from 0 prev' next'.
Proof.
  revert prev next. induction i as [|i IH]; intros prev next Hi HS; [by eauto|]. cbn [find_splices].
  destruct (HS) as (Hlp & Hln & Hin & Hout). destruct (Hin (S i)) as [Hp _]; [lia|].
  pose proof (sk_height _ _ _ _ INV) as Hh.
  unfold index. rewrite Hp, Ok_bind. destruct (before_split (S i)) as (A1 & A2 & HAeq & Hnil & Hhof).
  assert (i < hof s (before_at (S i)))%nat as Hx.
  { destruct (decide (S i < MAX_HEIGHT)%nat) as [Hlt|Hge]; [specialize (Hhof Hlt); lia|].
    unfold before_at. rewrite lvl_nil; simpl; [rewrite (hof_head _ _ _ _ INV); lia|].
    intros p Hp'. destruct (sk_nodes _ _ _ _ INV p) as (_ & ? & _); [rewrite Hps; apply elem_of_app; by left|]. lia. }
  unfold find_splice_for_level. rewrite (find_splice_loop_ok _ A1 _ A2); [|done|done|lia|].
  2: { unfold walk_fuel. pose proof length_ps as Hl. rewrite Hps, length_app in Hl.
       apply (f_equal length) in HAeq. rewrite length_app in HAeq. simpl in HAeq. lia. }
  rewrite Ok_bind, assert_true, Ok_bind by (apply bool_decide_eq_true_2, before_not_after).
  apply IH; [lia|]. cbn [fst snd]. unfold splices_from. rewrite !length_insert. split_and!; [done..| |].
  - intros j Hj. destruct (decide (j = i)) as [->|Hne].
    + by rewrite !list_lookup_insert_eq by lia.
    + rewrite !list_lookup_insert_ne by lia. apply Hin. lia.
  - intros j Hj. rewrite !list_lookup_insert_ne by lia. by apply Hout.
Qed.

Lemma splices_start :
  splices_from (sl_height s) (<[sl_height s := Some (sl_head s)]> (replicate (MAX_HEIGHT + 1) None))
    (replicate (MAX_HEIGHT + 1) None).
Proof.
  pose proof (sk_height _ _ _ _ INV) as Hh.
  assert (∀ l, (∀ p, p ∈ l → p ∈ ps) → lvl s (sl_height s) l = []) as Htop.
  { intros l Hl. apply lvl_nil. intros p Hp. destruct (sk_nodes _ _ _ _ INV p (Hl p Hp)) as (_ & ? & _). lia. }
  unfold splices_from. rewrite length_insert, !length_replicate. split_and!; [done..| |].
  - intros j Hj. assert (j = sl_height s) as -> by lia. rewrite list_lookup_insert_eq by (rewrite length_replicate; lia).
    rewrite lookup_replicate_2 by lia. unfold before_at, after_at.
    rewrite !Htop by (intros p Hp; rewrite Hps; apply elem_of_app; tauto). done.
  - intros j Hj. rewrite list_lookup_insert_ne by lia. rewrite !lookup_replicate_2 by lia. done.
Qed.
End Splice.

(** ** Inserting *)
Section Put.
Context (ck : bool) (node_base : Z) (Hbase : 0 < node_base < 2 ^ 40).
Context (C : Comparator) (key_ok : bytes → Prop) (ord : bytes → bytes → comparison).
Context {CO : ComparatorOrder C key_ok ord}.

Lemma null_cells_lookup p n c q i :
  null_cells p n c !! (q, i) = if decide (q = p ∧ (i < n)%nat) then Some None else c !! (q, i).
Proof.
  unfold null_cells. assert (∀ a, foldr (λ i c, <[(p, i) := None]> c) c (seq a n) !! (q, i) =
    if decide (q = p ∧ (a ≤ i < a + n)%nat) then Some None else c !! (q, i)) as H.
  { induction n as [|n IH]; intros a; simpl.
    - rewrite decide_False; [done|lia].
    - destruct (decide ((p, a) = (q, i))) as [Heq|Hne].
      + injection Heq as -> ->. rewrite lookup_insert_eq, decide_True; [done|]. split; [done|lia].
      + rewrite lookup_insert_ne, IH by done. apply decide_ext. split; intros [-> ?]; (split; [done|]); [lia|].
        assert (a ≠ i) by congruence. lia. }
  rewrite H. apply decide_ext. split; intros [-> ?]; (split; [done|lia]).
Qed.

(** The arena still has room for a node. *)
Definition room (s : SkipList) (height : nat) : Prop :=
  arena_ok (sl_arena s) ∧ ar_len (sl_arena s) + node_base + 8 * Z.of_nat height + 7 ≤ ar_cap (sl_arena s).

Lemma node_new_ok key height s : room s height → (height ≤ MAX_HEIGHT)%nat →
  ∃ np, let a := mkArena (ar_len (sl_arena s) + node_base + 8 * Z.of_nat height + 7) (ar_cap (sl_arena s)) in
    ar_len (sl_arena s) ≤ np < ar_len a ∧
    node_new ck node_base key height s =
      (Ok np, sl_set_mem a (<[np := (key, height)]> (sl_nodes s)) (null_cells np height (sl_cells s)) s).
Proof.
  intros [Ha Hroom] Hh. unfold node_new, MAX_HEIGHT in *.
  replace (node_base + Z.of_nat 20 * 8 - Z.of_nat (20 - height) * 8) with (node_base + 8 * Z.of_nat height) by lia.
  destruct (arena_allocate_ok ck (sl_arena s) (node_base + 8 * Z.of_nat height) 3 Ha) as (r & Halloc & Hr); [lia..|].
  change (2 ^ 3) with 8 in *. rewrite Halloc. destruct r as [p|]; [|lia]. exists p.
  replace (ar_len (sl_arena s) + (node_base + 8 * Z.of_nat height) + (8 - 1))
    with (ar_len (sl_arena s) + node_base + 8 * Z.of_nat height + 7) in * by lia.
  split; [simpl; lia|done].
Qed.

Context (s : SkipList) (ps : list Z) (INV : skl_inv key_ok ord s ps).
Context (t : bytes) (Ht : key_ok t) (A B : list Z) (Hps : ps = A ++ B).
Context (HA : ∀ p, p ∈ A → ord (kof s p) t = Lt) (HB : ∀ p, p ∈ B → ord t (kof s p) = Lt).
Context (height : nat) (Hheight : (1 ≤ height ≤ MAX_HEIGHT)%nat).
(** The state after the allocation of the node [np]. *)
Context (np : Z) (Hnp : np ∉ sl_head s :: ps) (s1 : SkipList).
Context (Hn1 : sl_nodes s1 = <[np := (t, height)]> (sl_nodes s)) (Hh1 : sl_head s1 = sl_head s).
Context (Hc1 : sl_cells s1 = null_cells np height (sl_cells s)).

Notation BEF := (before_at s A).
Notation AFT := (after_at s B).

Lemma before_in i : BEF i ∈ sl_head s :: A.
Proof.
  destruct (before_split key_ok ord s ps INV A i) as (A1 & A2 & -> & _). apply elem_of_app. right. left.
Qed.
Lemma before_np i : BEF i ≠ np.
Proof.
  intros Heq. apply Hnp. rewrite <- Heq. pose proof (before_in i) as Hin. rewrite Hps, app_comm_cons.
  apply elem_of_app. by left.
Qed.

Lemma lvl_AB i : lvl s i ps = lvl s i A ++ lvl s i B.
Proof. by rewrite Hps, lvl_app. Qed.

Lemma before_cell i : (i < MAX_HEIGHT)%nat → sl_cells s !! (BEF i, i) = Some (AFT i).
Proof.
  intros Hi. destruct (before_split key_ok ord s ps INV A i) as (A1 & A2 & HAeq & Hnil & Hhof).
  assert (chain s i (BEF i) (lvl s i (A2 ++ B))) as Hch.
  { apply (chain_from key_ok ord s ps INV A1); [|by apply Hhof|done].
    by rewrite Hps, app_comm_cons, HAeq, <- app_assoc. }
  rewrite lvl_app, Hnil in Hch. simpl in Hch. unfold after_at. destruct (lvl s i B); [done|apply Hch].
Qed.

(** One level: the exchange succeeds at once. *)
Lemma link_level_ok fuel s' i p n :
  (i < height)%nat → sl_head s' = sl_head s → (∀ q, sl_cells s' !! (q, i) = sl_cells s1 !! (q, i)) →
  (p = Some (BEF i) ∧ n = AFT i) ∨ (p = None ∧ (sl_height s < i)%nat) →
  link_level C (S fuel) s' t np i p n =
    (Ok true, sl_set_cells (<[(BEF i, i) := Some np]> (<[(np, i) := AFT i]> (sl_cells s'))) s').
Proof.
  intros Hi Hhd Hcells Hpn. unfold MAX_HEIGHT in Hheight.
  assert ((match p with
           | None =>
             _ ← rust_assert (bool_decide (1 < i)%nat);
             pn ← find_splice_for_level C s' t (Some (sl_head s')) i;
             _ ← rust_assert (bool_decide (pn.1 ≠ pn.2));
             match pn.1 with Some p => Ok (p, pn.2) | None => Panic end
           | Some p => Ok (p, n)
           end) = Ok (BEF i, AFT i)) as Hres.
  { destruct Hpn as [[-> ->]|[-> Hgt]]; [done|]. pose proof (sk_height _ _ _ _ INV) as Hsh.
    rewrite assert_true, Ok_bind by (apply bool_decide_eq_true_2; lia).
    assert (∀ l, (∀ q, q ∈ l → q ∈ ps) → lvl s i l = []) as Htop.
    { intros l Hl. apply lvl_nil. intros q Hq. destruct (sk_nodes _ _ _ _ INV q (Hl q Hq)) as (_ & ? & _). lia. }
    assert (BEF i = sl_head s ∧ AFT i = None) as [Hb Ha].
    { unfold before_at, after_at.
      rewrite !Htop by (intros q Hq; rewrite Hps; apply elem_of_app; tauto). done. }
    pose proof (before_cell i ltac:(unfold MAX_HEIGHT; lia)) as Hcell. rewrite Hb, Ha in Hcell |- *.
    unfold find_splice_for_level, walk_fuel. rewrite (Nat.add_1_r (size _ + _)%nat). cbn [find_splice_loop].
    unfold get_next. rewrite Hhd, Hcells, Hc1, null_cells_lookup, decide_False, Hcell; [done|].
    intros [Heq _]. apply Hnp. rewrite <- Heq. left. }
  cbn [link_level]. rewrite Hres. unfold set_next. rewrite Hcells, Hc1, null_cells_lookup, decide_True by done.
  unfold get_next. cbn [sl_cells sl_set_cells].
  assert (BEF i ≠ np) as Hbn by apply before_np.
  rewrite lookup_insert_ne by congruence. rewrite Hcells, Hc1, null_cells_lookup, decide_False by tauto.
  rewrite before_cell by (unfold MAX_HEIGHT; lia). rewrite decide_True by done. done.
Qed.

Lemma link_levels_ok n i prev next s' :
  (i + n = height)%nat → sl_head s' = sl_head s → sl_nodes s' = sl_nodes s1 →
  (∀ q j, (i ≤ j)%nat → sl_cells s' !! (q, j) = sl_cells s1 !! (q, j)) →
  (∀ j, (j < i)%nat → chain s' j (sl_head s) (lvl s j A ++ np :: lvl s j B)) →
  splices_from s A B 0 prev next →
  ∃ s'', link_levels C s' t np i n prev next = (Ok tt, s'') ∧
    s'' = sl_set_cells (sl_cells s'') s' ∧
    (∀ q j, (height ≤ j)%nat → sl_cells s'' !! (q, j) = sl_cells s1 !! (q, j)) ∧
    (∀ j, (j < height)%nat → chain s'' j (sl_head s) (lvl s j A ++ np :: lvl s j B)).
Proof.
  revert i s'. induction n as [|n IH]; intros i s' Hin Hhd Hnodes Hcells Hch HS; cbn [link_levels].
  { exists s'. split; [done|]. split; [by destruct s'|]. replace i with height in * by lia. done. }
  destruct (HS) as (Hlp & Hln & Hsp & Hout). unfold MAX_HEIGHT in *.
  assert (∃ p nx, (p ← index prev i; n ← index next i; Ok (p, n)) = Ok (p, nx) ∧
    ((p = Some (BEF i) ∧ nx = AFT i) ∨ (p = None ∧ (sl_height s < i)%nat))) as (p & nx & -> & Hpn).
  { unfold index. destruct (decide (i ≤ sl_height s)%nat).
    - destruct (Hsp i) as [-> ->]; [lia|]. eexists _, _. split; [done|]. by left.
    - destruct (Hout i) as [-> ->]; [lia|]. eexists _, _. split; [done|]. right. split; [done|lia]. }
  unfold walk_fuel. rewrite Nat.add_1_r.
  rewrite (link_level_ok _ s' i p nx); [|lia|done|by intros; apply Hcells|done].
  set (s2 := sl_set_cells _ s').
  assert (∀ q j, j ≠ i → sl_cells s2 !! (q, j) = sl_cells s' !! (q, j)) as Hother.
  { intros q j Hj. unfold s2. cbn [sl_cells sl_set_cells]. by rewrite !lookup_insert_ne by congruence. }
  destruct (IH (S i) s2) as (s'' & Hl & Hs'' & Hhi & Hlo); [lia|done|done| | |done|].
  - intros q j Hj. rewrite Hother by lia. apply Hcells. lia.
  - intros j Hj. destruct (decide (j = i)) as [->|Hne].
    + apply (chain_insert s s2).
      * rewrite <- lvl_AB. apply (sk_chain _ _ _ _ INV). unfold MAX_HEIGHT. lia.
      * rewrite <- lvl_AB. pose proof (sk_nodup _ _ _ _ INV) as Hnd. apply NoDup_cons in Hnd as [Hnin Hnd].
        apply NoDup_cons. split; [by intros [_ ?]%lvl_elem|]. by apply NoDup_filter.
      * rewrite <- lvl_AB. intros [->|Hin']%elem_of_cons; apply Hnp; [left|right].
        by apply lvl_elem in Hin' as [_ ?].
      * unfold s2. cbn [sl_cells sl_set_cells]. rewrite lookup_insert_ne; [|intros [= Heq]; by apply (before_np i)].
        by rewrite lookup_insert_eq.
      * unfold s2. cbn [sl_cells sl_set_cells]. by rewrite lookup_insert_eq.
      * intros q Hq1 Hq2. unfold s2. cbn [sl_cells sl_set_cells].
        rewrite lookup_insert_ne by (intros [= Heq]; by apply Hq2).
        rewrite lookup_insert_ne by (intros [= Heq]; by apply Hq1).
        rewrite Hcells, Hc1, null_cells_lookup, decide_False by (lia || tauto). done.
    + eapply chain_ext; [|apply Hch; lia]. intros q _. by apply Hother.
  - exists s''. split_and!; [done| |done|done]. rewrite Hs''. done.
Qed.
End Put.

(** ** The operations keep the invariant *)
Section Operations.
Context (ck : bool) (node_base : Z) (Hbase : 0 < node_base < 2 ^ 40).
Context (C : Comparator) (key_ok : bytes → Prop) (ord : bytes → bytes → comparison).
Context {CO : ComparatorOrder C key_ok ord}.
Notation inv := (skl_inv key_ok ord).

Lemma lvl_ext s s' i l : (∀ p, p ∈ l → hof s' p = hof s p) → lvl s' i l = lvl s i l.
Proof.
  induction l as [|p l IH]; intros H; [done|]. pose proof (H p ltac:(left)) as Hp.
  assert (lvl s' i l = lvl s i l) as Hl by (apply IH; intros q Hq; apply H; by right).
  destruct (decide (i < hof s p)%nat).
  - rewrite !lvl_cons_yes by (rewrite ?Hp; done). by rewrite Hl.
  - by rewrite !lvl_cons_no by (rewrite ?Hp; done).
Qed.

(** The state after [np] was linked on all its levels satisfies the invariant. *)
Lemma inv_insert s s' ps A B t height np :
  inv s ps → ps = A ++ B → key_ok t → (∀ p, p ∈ A → ord (kof s p) t = Lt) → (∀ p, p ∈ B → ord t (kof s p) = Lt) →
  (1 ≤ height ≤ MAX_HEIGHT)%nat → np ∉ sl_head s :: ps →
  sl_nodes s' = <[np := (t, height)]> (sl_nodes s) → sl_head s' = sl_head s →
  sl_height s' = (sl_height s `max` height)%nat →
  (∀ q j, (height ≤ j)%nat → sl_cells s' !! (q, j) = null_cells np height (sl_cells s) !! (q, j)) →
  (∀ j, (j < height)%nat → chain s' j (sl_head s) (lvl s j A ++ np :: lvl s j B)) →
  (∀ p, p ∈ sl_head s :: ps → p < ar_len (sl_arena s')) → np < ar_len (sl_arena s') →
  inv s' (A ++ np :: B) ∧ kof s' np = t ∧ (∀ p, p ∈ ps → kof s' p = kof s p).
Proof.
  intros INV Hps Ht HA HB Hh Hnp Hn Hhd Hht Hcells Hch Hbelow Hnb.
  assert (∀ p, p ∈ sl_head s :: ps → sl_nodes s' !! p = sl_nodes s !! p) as Hold.
  { intros p Hp. rewrite Hn, lookup_insert_ne; [done|]. by intros ->. }
  assert (∀ p, p ∈ ps → hof s' p = hof s p ∧ kof s' p = kof s p) as Hsame.
  { intros p Hp. unfold hof, kof. by rewrite Hold by (by right). }
  assert (hof s' np = height ∧ kof s' np = t) as [Hhnp Hknp].
  { unfold hof, kof. by rewrite Hn, lookup_insert_eq. }
  assert (∀ p, p ∈ A ∨ p ∈ B → p ∈ ps) as Hin by (intros p Hp; rewrite Hps; by apply elem_of_app).
  assert (∀ i, lvl s' i A = lvl s i A ∧ lvl s' i B = lvl s i B) as Hlvl.
  { intros i. split; apply lvl_ext; intros p Hp; apply Hsame, Hin; tauto. }
  split_and!; [|done|by intros; apply Hsame]. split.
  - rewrite Hhd, Hold by left. apply INV.
  - pose proof (sk_height _ _ _ _ INV). unfold MAX_HEIGHT in *. lia.
  - intros p Hp. apply elem_of_app in Hp as [Hp|Hp]; [|apply elem_of_cons in Hp as [->|Hp]].
    2: { rewrite Hhnp, Hknp, Hn, lookup_insert_eq. split_and!; [done|lia|lia|done]. }
    all: (destruct (sk_nodes _ _ _ _ INV p) as (H1 & H2 & H3); [apply Hin; tauto|]);
      (destruct (Hsame p) as [-> ->]; [apply Hin; tauto|]);
      rewrite Hold by (right; apply Hin; tauto); split_and!; [done|lia|lia|done].
  - rewrite Hhd. pose proof (sk_nodup _ _ _ _ INV) as Hnd. rewrite Hps, app_comm_cons in Hnd, Hnp.
    rewrite app_comm_cons. rewrite <- Permutation_middle. apply NoDup_cons. by split.
  - intros i Hi. rewrite Hhd, lvl_app. destruct (Hlvl i) as [-> HlB]. destruct (decide (i < height)%nat).
    + rewrite lvl_cons_yes, HlB by (by rewrite Hhnp). by apply Hch.
    + rewrite lvl_cons_no, HlB by (by rewrite Hhnp). eapply chain_ext.
      2: { rewrite <- lvl_app, <- Hps. by apply INV. }
      intros p Hp. rewrite Hcells, null_cells_lookup, decide_False by (lia || tauto). done.
  - assert (∀ p, p ∈ A → ord (kof s' p) (kof s' np) = Lt) as HA'.
    { intros p Hp. rewrite Hknp, (proj2 (Hsame p ltac:(apply Hin; tauto))). by apply HA. }
    assert (∀ p, p ∈ B → ord (kof s' np) (kof s' p) = Lt) as HB'.
    { intros p Hp. rewrite Hknp, (proj2 (Hsame p ltac:(apply Hin; tauto))). by apply HB. }
    assert (∀ i j p q, (i < j)%nat → ps !! i = Some p → ps !! j = Some q → ord (kof s' p) (kof s' q) = Lt) as Hsrt.
    { intros i j p q Hij Hp Hq. rewrite (proj2 (Hsame p ltac:(by eapply list_elem_of_lookup_2))),
        (proj2 (Hsame q ltac:(by eapply list_elem_of_lookup_2))). by eapply (sk_sorted _ _ _ _ INV i j). }
    rewrite Hps in Hsrt. intros i j p q Hij Hp Hq.
    destruct (decide (j < length A)%nat); [rewrite lookup_app_l in Hp, Hq by lia; apply (Hsrt i j);
      [done|by rewrite lookup_app_l by lia..]|].
    rewrite lookup_app_r in Hq by lia. destruct (j - length A)%nat as [|j'] eqn:Hj.
    + simpl in Hq. injection Hq as <-. rewrite lookup_app_l in Hp by lia. apply HA'. by eapply list_elem_of_lookup_2.
    + simpl in Hq. destruct (decide (i < length A)%nat).
      * rewrite lookup_app_l in Hp by lia. apply (Hsrt i (length A + j')%nat); [lia|by rewrite lookup_app_l by lia|].
        rewrite lookup_app_r by lia. by rewrite Nat.add_sub'.
      * rewrite lookup_app_r in Hp by lia. destruct (i - length A)%nat as [|i'] eqn:Hi; simpl in Hp.
        -- injection Hp as <-. apply HB'. by eapply list_elem_of_lookup_2.
        -- apply (Hsrt (length A + i')%nat (length A + j')%nat); [lia|..];
             rewrite lookup_app_r by lia; by rewrite Nat.add_sub'.
  - rewrite Hhd. intros p Hp. rewrite app_comm_cons in Hp. apply elem_of_app in Hp as [Hp|Hp].
    + apply Hbelow. rewrite Hps, app_comm_cons. apply elem_of_app. by left.
    + apply elem_of_cons in Hp as [->|Hp]; [done|]. apply Hbelow. right. apply Hin. tauto.
Qed.

Lemma skl_put_ok s ps A B t height :
  inv s ps → ps = A ++ B → key_ok t → (∀ p, p ∈ A → ord (kof s p) t = Lt) → (∀ p, p ∈ B → ord t (kof s p) = Lt) →
  (1 ≤ height ≤ MAX_HEIGHT)%nat → room node_base s height →
  ∃ s' np, skl_put ck node_base C height t s = (Ok tt, s') ∧ inv s' (A ++ np :: B) ∧ kof s' np = t ∧
    (∀ p, p ∈ ps → kof s' p = kof s p) ∧
    sl_arena s' = mkArena (ar_len (sl_arena s) + node_base + 8 * Z.of_nat height + 7) (ar_cap (sl_arena s)) ∧
    sl_size s' = wrap 64 (sl_size s + len t).
Proof.
  intros INV Hps Ht HA HB Hh Hroom. unfold skl_put. cbv zeta.
  set (s0 := sl_set_size _ s). assert (inv s0 ps) as INV0.
  { destruct INV as [? ? ? ? Hch ? ?]. split; try done. intros i Hi. by eapply chain_ext; [|apply Hch]. }
  destruct (find_splices_ok C key_ok ord s0 ps INV0 t Ht A B Hps HA HB (sl_height s0)
    _ _ ltac:(lia) (splices_start key_ok ord s0 ps INV0 A B Hps)) as (prev & next & -> & HS).
  destruct (node_new_ok ck node_base Hbase t height s0 Hroom ltac:(lia)) as (np & Hnp & Hnew). rewrite Hnew.
  cbn [ar_len sl_arena sl_set_size s0] in Hnp.
  assert (np ∉ sl_head s :: ps) as Hnin.
  { intros Hin. pose proof (sk_below _ _ _ _ INV np Hin). change (sl_arena s0) with (sl_arena s) in Hnp. lia. }
  set (s1 := sl_set_mem _ _ _ s0).
  assert ((if (sl_height s0 <? height)%nat then sl_set_height height s1 else s1)
          = sl_set_height (sl_height s `max` height)%nat s1) as ->.
  { destruct (Nat.ltb_spec (sl_height s0) height); change (sl_height s0) with (sl_height s) in *.
    - f_equal. lia.
    - rewrite Nat.max_l by lia. done. }
  set (s2 := sl_set_height _ s1).
  destruct (link_levels_ok node_base Hbase C key_ok ord s0 ps INV0 t A B Hps height Hh np Hnin s1 eq_refl
    eq_refl height 0 prev next s2) as (s3 & -> & Hs3 & Hhi & Hlo); try done; [intros; lia|].
  exists s3, np. split; [done|].
  destruct (inv_insert s s3 ps A B t height np INV Hps Ht HA HB Hh Hnin) as (Hinv & Hk & Hks);
    try (rewrite Hs3; done); try done.
  - intros p Hp. rewrite Hs3. simpl. pose proof (sk_below _ _ _ _ INV p Hp). unfold MAX_HEIGHT in *. lia.
  - rewrite Hs3. simpl. change (sl_arena s0) with (sl_arena s) in Hnp. lia.
  - split_and!; try done; rewrite Hs3; done.
Qed.

Lemma skl_new_ok cap : 8 * (cap / 8) < 2 ^ 62 → 1 + node_base + 160 + 7 ≤ cap / 8 * 8 →
  ∃ s, skl_new ck node_base cap = Ok s ∧ inv s [] ∧
    sl_arena s = mkArena (1 + node_base + 160 + 7) (cap / 8 * 8) ∧ sl_size s = 0.
Proof.
  intros Hcap Hroom. unfold skl_new. cbv zeta. set (s0 := mkSkl _ _ _ _ _ _).
  destruct (node_new_ok ck node_base Hbase [] MAX_HEIGHT s0) as (np & Hnp & ->); [|done|].
  { split; [split_and!; simpl; lia|]. change (Z.of_nat MAX_HEIGHT) with 20. simpl. lia. }
  change (Z.of_nat MAX_HEIGHT) with 20 in *.
  eexists. split; [done|]. split_and!; [|simpl; f_equal; lia|done].
  split; cbn [sl_nodes sl_head sl_height sl_cells sl_arena sl_set_mem].
  - by rewrite lookup_insert_eq.
  - unfold MAX_HEIGHT. lia.
  - intros p Hp. by apply elem_of_nil in Hp.
  - apply NoDup_singleton.
  - intros i Hi. change (null_cells np MAX_HEIGHT ∅ !! (np, i) = Some None).
    by rewrite null_cells_lookup, decide_True.
  - done.
  - intros p Hp%list_elem_of_singleton. subst. cbn [ar_len] in *. lia.
Qed.
End Operations.

(** ** The iterator *)
Section Iter.
Context (C : Comparator) (key_ok : bytes → Prop) (ord : bytes → bytes → comparison).
Context {CO : ComparatorOrder C key_ok ord}.
Notation inv := (skl_inv key_ok ord).

(** [it] walks over the keys [ks] and stands at [p]. *)
Definition skl_at (it : SklIter) (ks : list bytes) (p : option nat) : Prop :=
  ∃ ps, inv (si_list it) ps ∧ ks = kof (si_list it) <$> ps ∧ si_node it = p ≫= (ps !!.) ∧
    match p with Some i => (i < length ps)%nat | None => True end.

Lemma kof_lookup s (ps : list Z) (i : nat) k : (kof s <$> ps) !! i = Some k → ∃ p, ps !! i = Some p ∧ k = kof s p.
Proof. intros (p & -> & ?)%list_lookup_fmap_Some. eauto. Qed.

(** The nodes below and not below a target. *)
Lemma partition_at s (ps : list Z) t (i : option nat) : inv s ps →
  match i with
  | Some i => ∃ p, ps !! i = Some p ∧ ord (kof s p) t ≠ Lt ∧ ∀ j q, (j < i)%nat → ps !! j = Some q → ord (kof s q) t = Lt
  | None => ∀ j q, ps !! j = Some q → ord (kof s q) t = Lt
  end →
  let n := default (length ps) i in
  ps = take n ps ++ drop n ps ∧ (∀ p, p ∈ take n ps → ord (kof s p) t = Lt) ∧
  (∀ p, p ∈ drop n ps → ord (kof s p) t ≠ Lt) ∧ head (drop n ps) = i ≫= (ps !!.).
Proof.
  intros INV Hi n. split; [by rewrite take_drop|]. destruct i as [i|]; simpl in n; subst n; split_and!.
  - intros p (j & Hj)%list_elem_of_lookup_1. apply lookup_take_Some in Hj as [Hj ?].
    destruct Hi as (_ & _ & _ & Hlt). by eapply Hlt.
  - intros p (j & Hj)%list_elem_of_lookup_1. rewrite lookup_drop in Hj.
    destruct Hi as (p0 & Hp0 & Hge & _). intros Hlt. apply Hge. destruct j as [|j].
    + rewrite Nat.add_0_r, Hp0 in Hj. by injection Hj as <-.
    + eapply (ord_lt_trans ord); [|exact Hlt]. apply (sk_sorted _ _ _ _ INV i (i + S j)%nat); [lia|done|done].
  - simpl. by rewrite <- (Nat.add_0_r i) at 2; rewrite <- lookup_drop; destruct (drop i ps).
  - intros p (j & Hj)%list_elem_of_lookup_1. rewrite take_ge in Hj by done. by eapply Hi.
  - intros p Hp. rewrite drop_all in Hp. by apply elem_of_nil in Hp.
  - by rewrite drop_all.
Qed.

Lemma top_ok s ps : inv s ps →
  (sl_height s - 1 < hof s (sl_head s))%nat ∧ (sl_height s - 1 < MAX_HEIGHT)%nat.
Proof.
  intros INV. rewrite (hof_head _ _ _ _ INV). pose proof (sk_height _ _ _ _ INV). unfold MAX_HEIGHT in *. lia.
Qed.

Lemma fuel_ok s ps n : inv s ps → (n ≤ length ps)%nat → (sl_height s - 1 + n < walk_fuel s)%nat.
Proof. intros INV Hn. unfold walk_fuel. pose proof (length_ps _ _ _ _ INV). lia. Qed.

Lemma find_near_ge s ps t A B : inv s ps → key_ok t → ps = A ++ B →
  (∀ p, p ∈ A → ord (kof s p) t = Lt) → (∀ p, p ∈ B → ord (kof s p) t ≠ Lt) →
  ∃ b, find_near C s t false true = Ok (head B, b).
Proof.
  intros INV Ht Hps HA HB. destruct (top_ok s ps INV).
  apply (find_ge_loop C key_ok ord s ps INV t Ht A B Hps HA HB _ [] (sl_head s) A); [done..|].
  eapply fuel_ok; [done|]. rewrite Hps, length_app. lia.
Qed.
Lemma find_near_lt s ps t A B : inv s ps → key_ok t → ps = A ++ B →
  (∀ p, p ∈ A → ord (kof s p) t = Lt) → (∀ p, p ∈ B → ord (kof s p) t ≠ Lt) →
  find_near C s t true false = Ok (last A, false).
Proof.
  intros INV Ht Hps HA HB. destruct (top_ok s ps INV).
  apply (find_lt_loop C key_ok ord s ps INV t Ht A B Hps HA HB _ [] (sl_head s) A); [done..|].
  eapply fuel_ok; [done|]. rewrite Hps, length_app. lia.
Qed.

Lemma find_last_loop_ok fuel s ps A1 x A2 lv : inv s ps →
  sl_head s :: ps = A1 ++ x :: A2 → (lv < hof s x)%nat → (lv < MAX_HEIGHT)%nat → (lv + length A2 < fuel)%nat →
  find_last_loop fuel s x lv = Ok (last ps).
Proof.
  intros INV. revert A1 x A2 lv. induction fuel as [|fuel IH]; intros A1 x A2 lv Heq Hx Hlv Hf; [lia|].
  cbn [find_last_loop].
  destruct (next_cases key_ok ord s ps INV A1 x A2 [] lv) as [(R1 & y & R2 & -> & -> & Hy)|[Hnil ->]];
    [by rewrite app_nil_r|done|done| |]; rewrite Ok_bind.
  - apply (IH (A1 ++ x :: R1) y R2); [by rewrite Heq, <- app_assoc|done|done|].
    rewrite length_app in Hf. simpl in Hf. lia.
  - simpl. destruct lv as [|lv]; [|apply (IH A1 x A2); [done|lia|lia|lia]].
    rewrite (lvl0 key_ok ord s ps INV) in Hnil; [subst A2|].
    + by rewrite (or_null_last key_ok ord s ps INV ps [] (eq_sym (app_nil_r ps)) A1 x Heq).
    + intros p Hp. by eapply tail_elem.
Qed.

Lemma skl_len_loop_ok fuel s ps A x R n : inv s ps → sl_head s :: ps = A ++ x :: R → (length R < fuel)%nat →
  skl_len_loop fuel s x n = Ok (n + length R)%nat.
Proof.
  intros INV. revert A x R n. induction fuel as [|fuel IH]; intros A x R n Heq Hf; [lia|]. cbn [skl_len_loop].
  assert (0 < hof s x)%nat as Hx.
  { assert (x ∈ sl_head s :: ps) as [->|Hin]%elem_of_cons by (rewrite Heq, elem_of_app, elem_of_cons; auto).
    - rewrite (hof_head key_ok ord s ps INV). unfold MAX_HEIGHT. lia.
    - destruct (sk_nodes _ _ _ _ INV x Hin) as (_ & ? & _). lia. }
  rewrite (chain_next s 0 x _ (chain_from key_ok ord s ps INV A x R 0 Heq Hx ltac:(unfold MAX_HEIGHT; lia))), Ok_bind.
  rewrite (lvl0 key_ok ord s ps INV) by (intros p Hp; by eapply tail_elem).
  destruct R as [|y R]; cbn [head length]; [f_equal; lia|]. simpl in Hf. rewrite (IH (A ++ [x]) y R); [f_equal; lia| |lia]. by rewrite <- app_assoc.
Qed.
Lemma skl_len_ok s ps : inv s ps → skl_len s = Ok (length ps).
Proof.
  intros INV. unfold skl_len. apply (skl_len_loop_ok _ s ps [] (sl_head s) ps 0 INV); [done|].
  pose proof (fuel_ok s ps (length ps) INV ltac:(lia)). lia.
Qed.

Lemma si_first_ok it ks p : skl_at it ks p →
  ∃ it', si_seek_to_first it = Ok it' ∧ skl_at it' ks (if decide (0 < length ks)%nat then Some 0%nat else None).
Proof.
  intros (ps & INV & -> & _ & _). unfold si_seek_to_first.
  assert (get_next (si_list it) (sl_head (si_list it)) 0 = Ok (head ps)) as ->.
  { rewrite (chain_next _ _ _ _ (sk_chain _ _ _ _ INV 0 ltac:(unfold MAX_HEIGHT; lia))).
    by rewrite (lvl0 key_ok ord _ _ INV). }
  rewrite Ok_bind. eexists. split; [done|]. exists ps. rewrite length_fmap. split_and!; [done|done|..].
  - simpl. destruct ps; done.
  - case_decide; done.
Qed.

Lemma si_last_ok it ks p : skl_at it ks p →
  ∃ it', si_seek_to_last it = Ok it' ∧ skl_at it' ks (if decide (0 < length ks)%nat then Some (length ks - 1)%nat else None).
Proof.
  intros (ps & INV & -> & _ & _). unfold si_seek_to_last, find_last. destruct (top_ok _ _ INV).
  rewrite (find_last_loop_ok _ _ ps [] _ ps) by (done || by eapply fuel_ok). rewrite Ok_bind.
  eexists. split; [done|]. exists ps. rewrite length_fmap. split_and!; [done|done|..].
  - simpl. rewrite last_lookup. case_decide; simpl; [by rewrite Nat.sub_1_r|]. by destruct ps; simpl in *; [|lia].
  - case_decide; [lia|done].
Qed.

Lemma si_seek_ok it ks p t i : skl_at it ks p → key_ok t →
  match i with
  | Some i => ∃ k, ks !! i = Some k ∧ ord k t ≠ Lt ∧ ∀ j k', (j < i)%nat → ks !! j = Some k' → ord k' t = Lt
  | None => ∀ j k, ks !! j = Some k → ord k t = Lt
  end →
  ∃ it', si_seek C it t = Ok it' ∧ skl_at it' ks i.
Proof.
  intros (ps & INV & -> & _ & _) Ht Hi. unfold si_seek.
  destruct (partition_at (si_list it) ps t i INV) as (Hps & HA & HB & Hhd).
  { destruct i as [i|].
    - destruct Hi as (k & (q & Hq & ->)%kof_lookup & Hge & Hlt). exists q. split_and!; [done..|].
      intros j q' Hj Hq'. apply (Hlt j); [done|]. by rewrite list_lookup_fmap, Hq'.
    - intros j q Hq. apply (Hi j). by rewrite list_lookup_fmap, Hq. }
  destruct (find_near_ge _ _ _ _ _ INV Ht Hps HA HB) as [b ->]. rewrite Ok_bind.
  eexists. split; [done|]. exists ps. split_and!; [done|done|exact Hhd|]. destruct i as [i|]; [|done].
  destruct Hi as (k & (q & Hq & _)%kof_lookup & _). by eapply lookup_lt_Some.
Qed.

Lemma si_key_ok it ks i k : skl_at it ks (Some i) → ks !! i = Some k → si_key it = Ok k ∧ key_ok k.
Proof.
  intros (ps & INV & -> & Hn & Hi) (q & Hq & ->)%kof_lookup. unfold si_key, si_at. rewrite Hn. simpl. rewrite Hq, Ok_bind.
  apply list_elem_of_lookup_2 in Hq. split; [by apply (node_key_ps key_ok ord _ ps INV)|].
  by apply (sk_nodes _ _ _ _ INV).
Qed.

Lemma si_valid_ok it ks p : skl_at it ks p → si_valid it = match p with Some _ => true | None => false end.
Proof.
  intros (ps & INV & _ & Hn & Hi). unfold si_valid. rewrite Hn. destruct p as [i|]; [|done]. simpl.
  by destruct (lookup_lt_is_Some_2 ps i Hi) as [? ->].
Qed.

Lemma si_next_ok it ks i : skl_at it ks (Some i) →
  ∃ it', si_next it = Ok it' ∧ skl_at it' ks (if decide (S i < length ks)%nat then Some (S i) else None).
Proof.
  intros (ps & INV & -> & Hn & Hi). destruct (lookup_lt_is_Some_2 ps i Hi) as [q Hq].
  unfold si_next, si_at. rewrite Hn. simpl. rewrite Hq, Ok_bind.
  assert (get_next (si_list it) q 0 = Ok (ps !! S i)) as ->.
  { assert (sl_head (si_list it) :: ps = (sl_head (si_list it) :: take i ps) ++ q :: drop (S i) ps) as Heq.
    { simpl. by rewrite take_drop_middle. }
    apply list_elem_of_lookup_2 in Hq as Hin. destruct (sk_nodes _ _ _ _ INV q Hin) as (_ & ? & _).
    rewrite (chain_next _ _ _ _ (chain_from key_ok ord _ _ INV _ q _ 0 Heq ltac:(lia) ltac:(unfold MAX_HEIGHT; lia))).
    rewrite (lvl0 key_ok ord _ _ INV) by (intros p Hp; eapply tail_elem; done).
    by rewrite <- (Nat.add_0_r (S i)), <- lookup_drop, Nat.add_0_r; destruct (drop (S i) ps). }
  rewrite Ok_bind. eexists. split; [done|]. exists ps. rewrite length_fmap. split_and!; [done|done|..].
  - simpl. case_decide; [done|]. by apply lookup_ge_None_2; lia.
  - by case_decide.
Qed.

Lemma si_prev_ok it ks i : skl_at it ks (Some i) →
  ∃ it', si_prev C it = Ok it' ∧ skl_at it' ks (prev_pos i).
Proof.
  intros Hat. pose proof Hat as (ps & INV & -> & Hn & Hi). destruct (lookup_lt_is_Some_2 ps i Hi) as [q Hq].
  destruct (si_key_ok it _ i (kof (si_list it) q) Hat) as [Hk Hok]; [by rewrite list_lookup_fmap, Hq|].
  unfold si_prev. rewrite Hk, Ok_bind.
  rewrite (find_near_lt _ _ _ (take i ps) (drop i ps) INV Hok); [|by rewrite take_drop|..].
  - rewrite Ok_bind. eexists. split; [done|]. exists ps. split_and!; [done|done|..].
    + simpl. rewrite last_lookup, length_take_le by lia. destruct i as [|i]; [done|]. simpl. by rewrite lookup_take_lt by lia.
    + destruct i; simpl; lia.
  - intros p (j & Hj)%list_elem_of_lookup_1. apply lookup_take_Some in Hj as [Hj ?].
    by apply (sk_sorted _ _ _ _ INV j i).
  - intros p (j & Hj)%list_elem_of_lookup_1. rewrite lookup_drop in Hj. destruct j as [|j].
    + rewrite Nat.add_0_r, Hq in Hj. injection Hj as ->. by rewrite (ord_refl ord).
    + intros Hlt. pose proof (sk_sorted _ _ _ _ INV i (i + S j)%nat q p ltac:(lia) Hq Hj) as Hgt.
      pose proof (ord_lt_trans ord _ _ _ Hgt Hlt) as Hbad. by rewrite (ord_refl ord) in Hbad.
Qed.
End Iter.

(** ** Theorems *)

(** Allocations in a row: (size, exponent of the alignment) of each request, and the
    pointers returned. *)
Fixpoint allocate_all (ck : bool) (a : OffsetArena) (reqs : list (Z * Z)) : outcome (list (option Z) * OffsetArena) :=
  match reqs with
  | [] => Ok ([], a)
  | (size, k) :: reqs =>
    let '(r, a) := arena_allocate ck a size (2 ^ k) in
    p ← r; rest ← allocate_all ck a reqs; Ok (p :: rest.1, rest.2)
  end.

Definition demand (reqs : list (Z * Z)) : Z := foldr (λ '(size, k) n, size + 2 ^ k + n) 0 reqs.

Lemma demand_nonneg reqs : Forall (λ '(size, k), 0 ≤ size ∧ 0 ≤ k) reqs → 0 ≤ demand reqs.
Proof.
  induction reqs as [|[size k] reqs IH]; intros H; simpl; [done|]. apply Forall_cons in H as [[? ?] Hr].
  specialize (IH Hr). pose proof (Z.pow_nonneg 2 k). lia.
Qed.

Lemma allocate_all_ok ck a reqs :
  1 ≤ ar_len a → ar_cap a < 2 ^ 62 → Forall (λ '(size, k), 0 ≤ size ∧ 0 ≤ k) reqs → ar_len a + demand reqs < 2 ^ 62 →
  ∃ ptrs a', allocate_all ck a reqs = Ok (ptrs, a') ∧ length ptrs = length reqs ∧
    (∀ i p size k, ptrs !! i = Some (Some p) → reqs !! i = Some (size, k) →
       ar_len a ≤ p ∧ p + size ≤ ar_cap a ∧ p mod 2 ^ k = 0) ∧
    (∀ i j p q size k, (i < j)%nat → ptrs !! i = Some (Some p) → ptrs !! j = Some (Some q) →
       reqs !! i = Some (size, k) → p + size ≤ q).
Proof.
  revert a. induction reqs as [|[size k] reqs IH]; intros a H1 Hcap Hok Hd.
  { exists [], a. split_and!; done. }
  apply Forall_cons in Hok as [[Hs Hk] Hok']. simpl in Hd. pose proof (demand_nonneg reqs Hok').
  assert (0 < 2 ^ k) by (apply Z.pow_pos_nonneg; lia).
  destruct (arena_allocate_ok ck a size k) as (r & Hal & Hr); [split_and!; lia|done|done|lia|].
  cbn [allocate_all]. rewrite Hal, Ok_bind.
  destruct (IH (mkArena (ar_len a + size + (2 ^ k - 1)) (ar_cap a))) as (ptrs & a' & -> & Hl & Hin & Hdis);
    cbn [ar_len ar_cap]; [lia|lia|done|lia|].
  rewrite Ok_bind. eexists _, a'. split; [done|]. cbn [ar_len ar_cap] in *. split_and!.
  - simpl. by rewrite Hl.
  - intros [|i] p sz kk Hp Hq; simplify_eq/=; [lia|]. destruct (Hin i p sz kk Hp Hq) as (? & ? & ?). split_and!; [lia|done|done].
  - intros [|i] [|j] p q sz kk Hij Hp Hq Hreq; simplify_eq/=; [lia| |lia|by apply (Hdis i j p q sz kk); [lia|..]].
    apply lookup_lt_Some in Hq as Hlt. rewrite Hl in Hlt. destruct (lookup_lt_is_Some_2 reqs j Hlt) as [[s' k'] Hreq].
    destruct (Hin j q s' k' Hq Hreq) as (? & _). lia.
Qed.

(** The random height ends in the range of heights, whatever is drawn. *)
Lemma height_loop_range max up fuel random i h : (1 ≤ h ≤ max)%nat → (max < fuel + h)%nat → ∃ h', height_loop max up fuel random i h = Ok h' ∧ (1 ≤ h' ≤ max)%nat.
Proof.
  revert i h. induction fuel as [|fuel IH]; intros i h Hh Hf; [lia|]. cbn [height_loop]. destruct (Nat.ltb_spec h max); simpl; [|by exists h].
  destruct (up (random i)); [apply IH; lia|by exists h].
Qed.
Lemma random_height_range random : ∃ h, random_height random = Ok h ∧ (1 ≤ h ≤ MAX_HEIGHT)%nat.
Proof. apply height_loop_range; unfold MAX_HEIGHT; lia. Qed.

(** The arena hands out disjoint, aligned memory inside its capacity.  For any
    sequence of requests (size and power-of-two alignment), allocation never
    overflows, every pointer returned is a multiple of its alignment and its chunk
    lies inside the arena, and the chunks of two requests never overlap; a request
    that does not fit returns the null pointer. *)
Theorem arena_disjoint (ck : bool) (cap : Z) (reqs : list (Z * Z)) :
  0 ≤ cap < 2 ^ 62 → Forall (λ '(size, k), 0 ≤ size ∧ 0 ≤ k) reqs → 1 + demand reqs < 2 ^ 62 →
  ∃ ptrs a', allocate_all ck (arena_with_capacity cap) reqs = Ok (ptrs, a') ∧ length ptrs = length reqs ∧
    (∀ i p size k, ptrs !! i = Some (Some p) → reqs !! i = Some (size, k) →
       0 < p ∧ p + size ≤ cap ∧ p mod 2 ^ k = 0) ∧
    (∀ i j p q size k, (i < j)%nat → ptrs !! i = Some (Some p) → ptrs !! j = Some (Some q) →
       reqs !! i = Some (size, k) → p + size ≤ q).
Proof.
  intros Hcap Hok Hd. assert (cap / 8 * 8 ≤ cap) as Hle by (pose proof (Z.mul_div_le cap 8); lia).
  destruct (allocate_all_ok ck (arena_with_capacity cap) reqs) as (ptrs & a' & ? & ? & Hin & ?); simpl; [lia|lia|done|done|].
  exists ptrs, a'. split_and!; try done. intros i p size k Hp Hr. destruct (Hin i p size k Hp Hr) as (? & ? & ?).
  simpl in *. split_and!; [lia|lia|done].
Qed.

Lemma arena_disjoint_witness :
  ∃ ptrs a', allocate_all true (arena_with_capacity 128) [(10, 3); (1, 0); (40, 3); (100, 3)] = Ok (ptrs, a') ∧
    length ptrs = 4%nat ∧
    (∀ i p size k, ptrs !! i = Some (Some p) → [(10, 3); (1, 0); (40, 3); (100, 3)] !! i = Some (size, k) →
       0 < p ∧ p + size ≤ 128 ∧ p mod 2 ^ k = 0) ∧
    (∀ i j p q size k, (i < j)%nat → ptrs !! i = Some (Some p) → ptrs !! j = Some (Some q) →
       [(10, 3); (1, 0); (40, 3); (100, 3)] !! i = Some (size, k) → p + size ≤ q).
Proof.
  apply (arena_disjoint true 128 [(10, 3); (1, 0); (40, 3); (100, 3)]); [lia| |vm_compute; reflexivity].
  repeat constructor; lia.
Defined.
