(* ===== verification/OldSkipList.v ===== *)
(** * The skip list of [src/mem/skiplist.rs] and [BlockArena] of [src/mem/arena.rs]

    The trait [Arena] as an interface: an arena hands out addresses that are not in use.
    [BlockArena] keeps it when the allocator of the language returns fresh memory.  The
    skip list links nodes of several heights; a node is determined by the nodes that
    follow it. *)
From stdpp Require Import gmap sorting.
From S2P Require Import Prelude Comparator Iterator SkipList SkipListFacts.
Open Scope Z_scope.

(** ** The trait [Arena]: [None] is the null pointer *)
Class Arena (A : Type) : Type := {
  allocate : A → Z → Z → outcome (option Z) * A;
  arena_memory_used : A → Z;
}.

(** The addresses of a region. *)
Definition region (p size q : Z) : Prop := p ≤ q < p + size.
(** Memory for nodes (aligned to eight bytes) that is handed out is not in use. *)
Class ArenaLaws {A : Type} (AR : Arena A) (owns : (Z → Prop) → A → Prop) : Prop := {
  allocate_fresh used a size p a' : owns used a → 0 < size < 2 ^ 32 → allocate a size 8 = (Ok (Some p), a') →
    p mod 8 = 0 ∧ (∀ q, region p size q → ¬ used q) ∧ owns (λ q, used q ∨ region p size q) a';
}.
(** An arena that never runs out of memory. *)
Class ArenaTotal {A : Type} (AR : Arena A) (owns : (Z → Prop) → A → Prop) : Prop := {
  allocate_total used a size : owns used a → 0 < size < 2 ^ 32 → ∃ p a', allocate a size 8 = (Ok (Some p), a');
}.

(** ** [BlockArena] *)
Module BlockArena.
Definition BLOCK_SIZE : Z := 4096.

(** Blocks are given by the address and the size of their vectors. *)
Record BlockArena : Type := mkBlockArena {
  ba_ptr : Z;
  ba_bytes_remaining : Z;
  ba_blocks : list (Z * Z);
  ba_memory_usage : Z;
}.
Definition ba_default : BlockArena := mkBlockArena 0 0 [] 0.

Section BlockArena.
(** The address of a new vector of so many bytes, beside the blocks there are. *)
Context (new_vec : list (Z * Z) → Z → Z).

Definition allocate_new_block (block_bytes : Z) (a : BlockArena) : Z * BlockArena :=
  let p := new_vec (ba_blocks a) block_bytes in
  (p, mkBlockArena (ba_ptr a) (ba_bytes_remaining a) (ba_blocks a ++ [(p, block_bytes)]) (wrap 64 (ba_memory_usage a + block_bytes))).

Definition allocate_fallback (size : Z) (a : BlockArena) : Z * BlockArena :=
  if BLOCK_SIZE / 4 <? size then allocate_new_block size a
  else
    let '(p, a) := allocate_new_block BLOCK_SIZE a in
    (p, mkBlockArena (p + size) (BLOCK_SIZE - size) (ba_blocks a) (ba_memory_usage a)).

(** [allocate] by one thread: the lock is free and the exchange succeeds. *)
Definition ba_allocate (ck : bool) (a : BlockArena) (chunk align : Z) : outcome (option Z) * BlockArena :=
  match
    (_ ← rust_assert (0 <? chunk);
     align_mask ← usub ck 64 align 1;
     _ ← rust_assert (Z.land align align_mask =? 0);
     _ ← rust_assert (negb (align =? 0));
     slop ← usub ck 64 align (Z.land (ba_ptr a) align_mask);
     let slop := slop mod align in
     needed ← uadd ck 64 chunk slop;
     Ok (align_mask, slop, needed))
  with
  | Ok (align_mask, slop, needed) =>
    if needed <=? ba_bytes_remaining a then
      let adjusted_ptr := ba_ptr a + slop in
      let a := mkBlockArena (adjusted_ptr + chunk) (ba_bytes_remaining a - needed) (ba_blocks a) (ba_memory_usage a) in
      (_ ← rust_assert (Z.land adjusted_ptr align_mask =? 0); Ok (Some adjusted_ptr), a)
    else
      let '(new_ptr, a) := allocate_fallback chunk a in
      (_ ← rust_assert (Z.land new_ptr align_mask =? 0); Ok (Some new_ptr), a)
  | Err e => (Err e, a)
  | Panic => (Panic, a)
  | OutOfFuel => (OutOfFuel, a)
  end.
Definition ba_memory_used (a : BlockArena) : Z := ba_memory_usage a.

Definition BlockArena_Arena (ck : bool) : Arena BlockArena := {| allocate := ba_allocate ck; arena_memory_used := ba_memory_used |}.

(** *** Facts *)
Definition in_block (blocks : list (Z * Z)) (q : Z) : Prop := ∃ b, b ∈ blocks ∧ region b.1 b.2 q.
(** The allocator returns memory that overlaps no block. *)
Context (new_vec_fresh : ∀ blocks size q, region (new_vec blocks size) size q → ¬ in_block blocks q).

(** The memory in use lies in the blocks and outside the free rest of the last one. *)
Record ba_owns (used : Z → Prop) (a : BlockArena) : Prop := {
  bo_used q : used q → in_block (ba_blocks a) q ∧ ¬ region (ba_ptr a) (ba_bytes_remaining a) q;
  bo_rest q : region (ba_ptr a) (ba_bytes_remaining a) q → in_block (ba_blocks a) q;
}.
Lemma ba_default_owns : ba_owns (λ _, False) ba_default.
Proof. split; simpl; [done|]. unfold region. lia. Qed.

Lemma in_block_snoc blocks b q : in_block (blocks ++ [b]) q ↔ in_block blocks q ∨ region b.1 b.2 q.
Proof. unfold in_block. setoid_rewrite elem_of_app. setoid_rewrite list_elem_of_singleton. naive_solver. Qed.

Lemma fallback_owns used size a p a' : ba_owns used a → 0 < size → allocate_fallback size a = (p, a') →
  (∀ q, region p size q → ¬ used q) ∧ ba_owns (λ q, used q ∨ region p size q) a'.
Proof.
  intros [Hu Hr] Hs. unfold allocate_fallback, allocate_new_block.
  assert (∀ n q, region (new_vec (ba_blocks a) n) n q → ¬ used q ∧ ¬ region (ba_ptr a) (ba_bytes_remaining a) q) as Hnew.
  { intros n q Hq. pose proof (new_vec_fresh (ba_blocks a) n q Hq) as Hno. split; intros Hin; apply Hno; [by apply Hu|by apply Hr]. }
  unfold BLOCK_SIZE. destruct (Z.ltb_spec (4096 / 4) size) as [Hbig|Hsmall].
  - intros [= <- <-]. split; [intros q Hq; by apply (Hnew size)|]. split; simpl; intros q; rewrite in_block_snoc; simpl.
    + intros [Hq|Hq]; [destruct (Hu q Hq); auto|]. split; [by right|by apply (Hnew size)].
    + intros Hq. left. by apply Hr.
  - change (4096 / 4) with 1024 in Hsmall. intros [= <- <-].
    assert (∀ q, region (new_vec (ba_blocks a) 4096) size q → region (new_vec (ba_blocks a) 4096) 4096 q) as Hsub by (unfold region; lia).
    split; [intros q Hq; by apply (Hnew 4096), Hsub|]. split; simpl; intros q; rewrite in_block_snoc; simpl.
    + intros [Hq|Hq]; [|split; [right; by apply Hsub|unfold region in *; lia]]. split; [left; by apply Hu|]. intros Hin.
      destruct (Hnew 4096 q); [unfold region in *; lia|done].
    + intros Hq. right. unfold region in *. lia.
Qed.

Lemma slop_ok ck a size : 0 < size < 2 ^ 32 →
  ∃ slop, 0 ≤ slop < 8 ∧ (ba_ptr a + slop) mod 8 = 0 ∧ ba_allocate ck a size 8 =
    if size + slop <=? ba_bytes_remaining a then
      (_ ← rust_assert (Z.land (ba_ptr a + slop) 7 =? 0); Ok (Some (ba_ptr a + slop)),
       mkBlockArena (ba_ptr a + slop + size) (ba_bytes_remaining a - (size + slop)) (ba_blocks a) (ba_memory_usage a))
    else let '(new_ptr, a) := allocate_fallback size a in (_ ← rust_assert (Z.land new_ptr 7 =? 0); Ok (Some new_ptr), a).
Proof.
  intros Hs. assert (0 ≤ Z.land (ba_ptr a) 7 < 8) as Hl.
  { change 7 with (Z.ones 3). rewrite Z.land_ones by lia. apply Z.mod_pos_bound. lia. }
  exists ((8 - Z.land (ba_ptr a) 7) mod 8). split_and!; [apply Z.mod_pos_bound; lia..| |].
  { change 7 with (Z.ones 3). rewrite Z.land_ones by lia. change (2 ^ 3) with 8. Z.to_euclidean_division_equations. lia. }
  pose proof (Z.mod_pos_bound (8 - Z.land (ba_ptr a) 7) 8 ltac:(lia)). unfold ba_allocate. rewrite (proj2 (Z.ltb_lt 0 size)) by lia.
  cbn [rust_assert mbind outcome_bind]. change (usub ck 64 8 1) with (@Ok Z 7). cbn [mbind outcome_bind]. change (Z.land 8 7 =? 0) with true.
  change (8 =? 0) with false. cbn [negb rust_assert]. unfold usub. rewrite (proj2 (Z.leb_le _ 8)) by lia. cbn [mbind outcome_bind].
  rewrite uadd_small by lia. done.
Qed.

Lemma aligned p : Z.land p 7 = p mod 8.
Proof. change 7 with (Z.ones 3). by rewrite Z.land_ones by lia. Qed.
#[export] Instance BlockArena_laws ck : ArenaLaws (BlockArena_Arena ck) ba_owns.
Proof.
  split. intros used a size p a' Hown Hs. cbn [allocate BlockArena_Arena]. destruct (slop_ok ck a size Hs) as (slop & Hsl & Hal & ->).
  destruct (Z.leb_spec (size + slop) (ba_bytes_remaining a)) as [Hfit|Hno].
  - rewrite aligned, Hal. intros Heq. injection Heq as <- <-. destruct Hown as [Hu Hr]. split_and!; [done| |].
    + intros q Hq Hin. destruct (Hu _ Hin) as [_ Hout]. apply Hout. unfold region in *. lia.
    + split; simpl; intros q.
      * intros [Hq|Hq]; [destruct (Hu q Hq) as [? Hout]; split; [done|unfold region in *; lia]|]. split; [apply Hr; unfold region in *; lia|unfold region in *; lia].
      * intros Hq. apply Hr. unfold region in *. lia.
  - destruct (allocate_fallback size a) as [np a1] eqn:E. rewrite aligned. destruct (Z.eqb_spec (np mod 8) 0) as [Hnp|]; [|intros Heq; by injection Heq].
    intros Heq. injection Heq as <- <-. split; [done|]. eapply fallback_owns; [exact Hown| |exact E]. lia.
Qed.

(** The allocator aligns its memory to eight bytes. *)
Context (new_vec_aligned : ∀ blocks size, new_vec blocks size mod 8 = 0).
Lemma BlockArena_total ck : ArenaTotal (BlockArena_Arena ck) ba_owns.
Proof.
  split. intros used a size _ Hs. cbn [allocate BlockArena_Arena]. destruct (slop_ok ck a size Hs) as (slop & _ & Hal & ->). rewrite !aligned, Hal.
  destruct (size + slop <=? ba_bytes_remaining a); [by eexists _, _|]. unfold allocate_fallback, allocate_new_block.
  destruct (BLOCK_SIZE / 4 <? size); rewrite aligned, new_vec_aligned; by eexists _, _.
Qed.
End BlockArena.
End BlockArena.

(** ** [OffsetArena] is an arena as well *)
Definition OffsetArena_Arena (ck : bool) : Arena OffsetArena := {| allocate := arena_allocate ck; arena_memory_used := memory_used |}.
Definition offset_owns (used : Z → Prop) (a : OffsetArena) : Prop := arena_ok a ∧ ∀ q, used q → q < ar_len a.
#[export] Instance OffsetArena_laws ck : ArenaLaws (OffsetArena_Arena ck) offset_owns.
Proof.
  split. intros used a size p a' [Ha Hu] Hs Hal. destruct (arena_allocate_ok ck a size 3 Ha) as (r & Hr & Hp); [lia..|].
  cbn [allocate OffsetArena_Arena] in Hal. change (2 ^ 3) with 8 in *. rewrite Hr in Hal. injection Hal as -> <-. destruct Hp as (H1 & H2 & H3 & H4).
  destruct Ha as (Ha1 & Ha2 & Ha3). split_and!; [done|intros q Hq Hin; specialize (Hu q Hin); unfold region in Hq; lia|]. split.
  - split_and!; simpl; lia.
  - intros q [Hq|Hq]; simpl; [specialize (Hu q Hq); lia|unfold region in Hq; lia].
Qed.

(** ** [Skiplist] *)
Module Skiplist.
Definition MAX_HEIGHT : nat := 12.

(** [Node]: the array of next pointers has the length [height]; [None] is null. *)
Record Node : Type := mkNode { n_key : bytes; n_height : nat; n_next : list (option Z) }.

Record Skiplist (A : Type) : Type := mkSkiplist {
  k_max_height : nat;
  k_head : Z;
  k_arena : A;
  k_count : Z;
  k_size : Z;
  k_nodes : gmap Z Node;
}.
Arguments mkSkiplist {A}. Arguments k_max_height {A}. Arguments k_head {A}. Arguments k_arena {A}. Arguments k_count {A}. Arguments k_size {A}. Arguments k_nodes {A}.

Section Skiplist.
(** [node_size]: the size of a [Node] without its pointers. *)
Context {A : Type} {AR : Arena A} (C : Comparator) (node_size : Z).
Notation Skiplist := (Skiplist A).

Definition with_nodes (s : Skiplist) (nodes : gmap Z Node) : Skiplist := mkSkiplist (k_max_height s) (k_head s) (k_arena s) (k_count s) (k_size s) nodes.

(** Reading through a pointer that is null or dangling is undefined. *)
Definition node_at (s : Skiplist) (p : Z) : outcome Node := match k_nodes s !! p with Some n => Ok n | None => Panic end.
Definition get_next (s : Skiplist) (p : Z) (height : nat) : outcome (option Z) :=
  n ← node_at s p; match n_next n !! (height - 1)%nat with Some x => Ok x | None => Panic end.
Definition set_next (s : Skiplist) (p : Z) (height : nat) (x : option Z) : outcome Skiplist :=
  n ← node_at s p;
  match n_next n !! (height - 1)%nat with
  | Some _ => Ok (with_nodes s (<[p := mkNode (n_key n) (n_height n) (<[(height - 1)%nat := x]> (n_next n))]> (k_nodes s)))
  | None => Panic
  end.

(** [Node::new]: writing through a null pointer is undefined. *)
Definition node_new (key : bytes) (height : nat) (arena : A) (nodes : gmap Z Node) : outcome Z * A * gmap Z Node :=
  match allocate arena (node_size + Z.of_nat height * 8) 8 with
  | (Ok (Some p), arena) => (Ok p, arena, <[p := mkNode key height (replicate height None)]> nodes)
  | (Ok None, arena) => (Panic, arena, nodes)
  | (Err e, arena) => (Err e, arena, nodes)
  | (Panic, arena) => (Panic, arena, nodes)
  | (OutOfFuel, arena) => (OutOfFuel, arena, nodes)
  end.

Definition skiplist_new (arena : A) : outcome Skiplist :=
  let '(head, arena, nodes) := node_new [] MAX_HEIGHT arena ∅ in
  head ← head; Ok (mkSkiplist 1 head arena 0 0 nodes).

Definition key_is_less_than_or_equal (s : Skiplist) (key : bytes) (n : option Z) : outcome bool :=
  match n with
  | None => Ok true
  | Some p => n ← node_at s p; c ← @compare C key (n_key n); Ok (bool_decide (c ≠ Gt))
  end.

(** [find_greater_or_equal]; recording into no array is recording into an empty one. *)
Fixpoint find_ge_loop (fuel : nat) (s : Skiplist) (key : bytes) (level : nat) (node : Z) (prev_nodes : list (option Z)) : outcome (option Z * list (option Z)) :=
  match fuel with
  | O => OutOfFuel
  | S fuel =>
    next ← get_next s node level;
    le ← key_is_less_than_or_equal s key next;
    if (le : bool) then
      let prev_nodes := <[(level - 1)%nat := Some node]> prev_nodes in
      if (level =? 1)%nat then Ok (next, prev_nodes) else find_ge_loop fuel s key (level - 1) node prev_nodes
    else match next with Some next => find_ge_loop fuel s key level next prev_nodes | None => Panic end
  end.
(** More than the steps: every step moves right or down. *)
Definition walk_fuel (s : Skiplist) : nat := size (k_nodes s) + k_max_height s + 1.
Definition find_greater_or_equal (s : Skiplist) (key : bytes) (prev_nodes : list (option Z)) : outcome (option Z * list (option Z)) :=
  find_ge_loop (walk_fuel s) s key (k_max_height s) (k_head s) prev_nodes.

Fixpoint find_lt_loop (fuel : nat) (s : Skiplist) (key : bytes) (level : nat) (node : Z) : outcome Z :=
  match fuel with
  | O => OutOfFuel
  | S fuel =>
    next ← get_next s node level;
    let down := if (level =? 1)%nat then Ok node else find_lt_loop fuel s key (level - 1) node in
    match next with
    | None => down
    | Some p => n ← node_at s p; c ← @compare C (n_key n) key; if bool_decide (c = Lt) then find_lt_loop fuel s key level p else down
    end
  end.
Definition find_less_than (s : Skiplist) (key : bytes) : outcome Z := find_lt_loop (walk_fuel s) s key (k_max_height s) (k_head s).

Fixpoint find_last_loop (fuel : nat) (s : Skiplist) (level : nat) (node : Z) : outcome Z :=
  match fuel with
  | O => OutOfFuel
  | S fuel =>
    next ← get_next s node level;
    match next with
    | None => if (level =? 1)%nat then Ok node else find_last_loop fuel s (level - 1) node
    | Some next => find_last_loop fuel s level next
    end
  end.
Definition find_last (s : Skiplist) : outcome Z := find_last_loop (walk_fuel s) s (k_max_height s) (k_head s).

(** Linking the new node on the levels [i], [i + 1], ... *)
Fixpoint link (n : nat) (i : nat) (new_node : Z) (prev : list (option Z)) (s : Skiplist) : outcome Skiplist :=
  match n with
  | O => Ok s
  | S n =>
    p ← index prev (i - 1);
    p ← match p with Some p => Ok p | None => Panic end;
    x ← get_next s p i;
    s ← set_next s new_node i x;
    s ← set_next s p i (Some new_node);
    link n (S i) new_node prev s
  end.

(** [rand_height], from the numbers the generator of the thread returns. *)
Definition BRANCHING : Z := 4.
Definition rand_height (random : nat → Z) : outcome nat := height_loop MAX_HEIGHT (λ r, r mod BRANCHING =? 0) MAX_HEIGHT random 0 1.

(** [insert]; [height] is what [rand_height] returned. *)
Definition insert (height : nat) (key : bytes) (s : Skiplist) : outcome Skiplist :=
  r ← find_greater_or_equal s key (replicate MAX_HEIGHT None);
  let '(node, prev) := r in
  _ ← match node with
      | None => Ok tt
      | Some p => n ← node_at s p; c ← @compare C (n_key n) key; rust_assert (bool_decide (c ≠ Eq))
      end;
  let max_height := k_max_height s in
  let raise := (max_height <? height)%nat in
  let prev := if raise then imap (λ i p, if (max_height <=? i)%nat && (i <? height)%nat then Some (k_head s) else p) prev else prev in
  let max_height := if raise then height else max_height in
  let '(p, arena, nodes) := node_new key height (k_arena s) (k_nodes s) in
  new_node ← p;
  s ← link height 1 new_node prev (mkSkiplist max_height (k_head s) arena (k_count s) (k_size s) nodes);
  Ok (mkSkiplist (k_max_height s) (k_head s) (k_arena s) (wrap 64 (k_count s + 1)) (wrap 64 (k_size s + len key)) (k_nodes s)).

Definition count (s : Skiplist) : Z := k_count s.
Definition total_size (s : Skiplist) : Z := k_size s.

(** [SkiplistIterator]; its [value] is unimplemented. *)
Record SkiplistIterator : Type := mkIter { i_skl : Skiplist; i_node : option Z }.
Definition iter_new (s : Skiplist) : SkiplistIterator := mkIter s None.
Definition i_valid (it : SkiplistIterator) : bool := match i_node it with Some _ => true | None => false end.
Definition panic_valid (it : SkiplistIterator) : outcome Z := match i_node it with Some p => Ok p | None => Panic end.
Definition not_head (s : Skiplist) (p : Z) : option Z := if p =? k_head s then None else Some p.
Definition i_seek_to_first (it : SkiplistIterator) : outcome SkiplistIterator := n ← get_next (i_skl it) (k_head (i_skl it)) 1; Ok (mkIter (i_skl it) n).
Definition i_seek_to_last (it : SkiplistIterator) : outcome SkiplistIterator := n ← find_last (i_skl it); Ok (mkIter (i_skl it) (not_head (i_skl it) n)).
Definition i_seek (it : SkiplistIterator) (target : bytes) : outcome SkiplistIterator := r ← find_greater_or_equal (i_skl it) target []; Ok (mkIter (i_skl it) r.1).
Definition i_next (it : SkiplistIterator) : outcome SkiplistIterator := p ← panic_valid it; n ← get_next (i_skl it) p 1; Ok (mkIter (i_skl it) n).
Definition i_key (it : SkiplistIterator) : outcome bytes := p ← panic_valid it; n ← node_at (i_skl it) p; Ok (n_key n).
Definition i_prev (it : SkiplistIterator) : outcome SkiplistIterator :=
  k ← i_key it; n ← find_less_than (i_skl it) k; Ok (mkIter (i_skl it) (not_head (i_skl it) n)).
Definition i_value (it : SkiplistIterator) : outcome bytes := Panic.
Definition i_status (it : SkiplistIterator) : outcome unit * SkiplistIterator := (Ok tt, it).
End Skiplist.
End Skiplist.
