(* ===== verification/OldSkipListFacts.v ===== *)
(** * The skip list of [src/mem/skiplist.rs] keeps its keys in order

    A list of items, in the order of their keys, determines every node: a pointer of a
    level leads to the next item that reaches the level. *)
From stdpp Require Import gmap sorting.
From S2P Require Import Prelude Comparator Iterator SkipList SkipListFacts OldSkipList.
Import Skiplist.
Open Scope Z_scope.

(** ** Items and levels *)
Record item : Type := mkItem { t_addr : Z; t_key : bytes; t_height : nat }.
Notation reach i := (λ x : item, (i ≤ t_height x)%nat).

(** Where the pointer of level [i] leads in front of [l], and all pointers of a node. *)
Definition nx (i : nat) (l : list item) : option Z := t_addr <$> head (filter (reach i) l).
Definition nexts (h : nat) (l : list item) : list (option Z) := (λ i, nx i l) <$> seq 1 h.

Lemma length_nexts h l : length (nexts h l) = h.
Proof. unfold nexts. by rewrite length_fmap, length_seq. Qed.
Lemma nexts_lookup h l i : (1 ≤ i ≤ h)%nat → nexts h l !! (i - 1)%nat = Some (nx i l).
Proof. intros Hi. unfold nexts. rewrite list_lookup_fmap, lookup_seq_lt by lia. simpl. do 2 f_equal. lia. Qed.
Lemma nexts_ext h l l' : (∀ i, (1 ≤ i ≤ h)%nat → nx i l = nx i l') → nexts h l = nexts h l'.
Proof. intros Hi. unfold nexts. apply list_fmap_ext. intros k i (-> & Hk)%lookup_seq. apply Hi. lia. Qed.

Lemma filter_none {X} (P : X → Prop) `{!∀ x, Decision (P x)} (l : list X) : Forall (λ x, ¬ P x) l → filter P l = [].
Proof. induction 1 as [|x l Hx _ IH]; [done|]. by rewrite filter_cons, decide_False. Qed.

Lemma filter_every {X} (P : X → Prop) `{!∀ x, Decision (P x)} (l : list X) : Forall P l → filter P l = l.
Proof. induction 1 as [|x l Hx _ IH]; [done|]. by rewrite filter_cons, decide_True, IH. Qed.

(** In front of [b ++ a]: nothing of [b] reaches the level, or some first item does. *)
Lemma nx_cases i b a :
  (Forall (λ x, ¬ reach i x) b ∧ nx i (b ++ a) = nx i a) ∨
  (∃ b1 y b2, b = b1 ++ y :: b2 ∧ Forall (λ x, ¬ reach i x) b1 ∧ reach i y ∧ nx i (b ++ a) = Some (t_addr y)).
Proof.
  induction b as [|x b IH]; [by left|]. unfold nx in *. simpl. rewrite filter_cons. case_decide as Hx.
  - right. by exists [], x, b.
  - destruct IH as [[Hb Heq]|(b1 & y & b2 & -> & Hb1 & Hy & Heq)].
    + left. split; [by constructor|done].
    + right. exists (x :: b1), y, b2. split_and!; [done|by constructor|done|done].
Qed.
Lemma nx_skip i b a : Forall (λ x, ¬ reach i x) b → nx i (b ++ a) = nx i a.
Proof. intros Hb. unfold nx. rewrite filter_app, filter_none by done. done. Qed.
Lemma nx_in i b y b2 a : reach i y → nx i ((b ++ y :: b2) ++ a) = nx i (b ++ y :: b2).
Proof.
  intros Hy. unfold nx. rewrite !filter_app, !filter_cons, !decide_True by done. by destruct (filter (reach i) b).
Qed.
Lemma lastd_cons {X} (y : X) b x : List.last (y :: b) x = List.last b y.
Proof.
  revert x y. induction b as [|z b IH]; intros x y; [done|]. change (List.last (y :: z :: b) x) with (List.last (z :: b) x). by rewrite !IH.
Qed.
Lemma lastd_app {X} (b1 : list X) y b2 x : List.last (b1 ++ y :: b2) x = List.last b2 y.
Proof.
  revert x. induction b1 as [|z b1 IH]; intros x; [apply lastd_cons|]. rewrite <- app_comm_cons, lastd_cons. apply IH.
Qed.
(** The last item of a list that reaches a level. *)
Lemma last_reach i (l1 : list item) x b : reach i x → Forall (λ x, ¬ reach i x) b → last (filter (reach i) (l1 ++ x :: b)) = Some x.
Proof. intros Hx Hb. rewrite filter_app, filter_cons, decide_True, (filter_none _ b) by done. apply last_snoc. Qed.
Lemma last_reach_inv i (l : list item) x : last (filter (reach i) l) = Some x → ∃ l1 b, l = l1 ++ x :: b ∧ reach i x ∧ Forall (λ x, ¬ reach i x) b.
Proof.
  induction l as [|y l IH] using rev_ind; [done|]. rewrite filter_app, filter_cons, filter_nil. case_decide as Hy.
  - rewrite last_snoc. intros [= ->]. by exists l, [].
  - rewrite app_nil_r. intros (l1 & b & -> & Hx & Hb)%IH. exists l1, (b ++ [y]). rewrite <- app_assoc. split_and!; [done..|]. apply Forall_app. by repeat constructor.
Qed.

(** The random height ends in the range of heights, whatever is drawn. *)
Lemma rand_height_range random : ∃ h, rand_height random = Ok h ∧ (1 ≤ h ≤ MAX_HEIGHT)%nat.
Proof. apply height_loop_range; unfold MAX_HEIGHT; lia. Qed.

Section Facts.
Context {A : Type} {AR : Arena A} (owns : (Z → Prop) → A → Prop) {AL : ArenaLaws AR owns}.
Context (C : Comparator) (key_ok : bytes → Prop) (ord : bytes → bytes → comparison) {CO : ComparatorOrder C key_ok ord}.
Context (node_size : Z) (Hsize : 0 < node_size < 2 ^ 20).
Notation Skiplist := (Skiplist A).
Implicit Types (s : Skiplist) (l b a : list item).

Definition key_lt (x y : item) : Prop := ord (t_key x) (t_key y) = Lt.
Definition head_item s : item := mkItem (k_head s) [] MAX_HEIGHT.
Definition node_of (x : item) (l : list item) : Node := mkNode (t_key x) (t_height x) (nexts (t_height x) l).

Record skl_rep s l : Prop := {
  sr_nodes l1 x l2 : head_item s :: l = l1 ++ x :: l2 → k_nodes s !! t_addr x = Some (node_of x l2);
  sr_addrs : NoDup (t_addr <$> head_item s :: l);
  sr_dom : dom (k_nodes s) = list_to_set (t_addr <$> head_item s :: l);
  sr_sorted : StronglySorted key_lt l;
  sr_keys : Forall (λ x, key_ok (t_key x)) l;
  sr_heights : Forall (λ x, (1 ≤ t_height x ≤ k_max_height s)%nat) l;
  sr_max : (1 ≤ k_max_height s ≤ MAX_HEIGHT)%nat;
  sr_owns : ∃ used, owns used (k_arena s) ∧ ∀ p, p ∈ dom (k_nodes s) → used p;
}.

Lemma rep_get_next s l l1 x l2 i : skl_rep s l → head_item s :: l = l1 ++ x :: l2 → (1 ≤ i ≤ t_height x)%nat → get_next s (t_addr x) i = Ok (nx i l2).
Proof.
  intros Hr Heq Hi. unfold get_next, node_at. rewrite (sr_nodes _ _ Hr _ _ _ Heq), Ok_bind. cbn [node_of n_next]. by rewrite nexts_lookup.
Qed.
Lemma rep_node s l x : skl_rep s l → x ∈ l → ∃ l2, node_at s (t_addr x) = Ok (node_of x l2).
Proof.
  intros Hr (l1 & l2 & ->)%list_elem_of_split. exists l2. unfold node_at. by rewrite (sr_nodes _ _ Hr (head_item s :: l1) x l2) by done.
Qed.
Lemma rep_fuel s l : skl_rep s l → size (k_nodes s) = S (length l).
Proof.
  intros Hr. rewrite <- size_dom, (sr_dom _ _ Hr), size_list_to_set by apply Hr. by rewrite length_fmap.
Qed.

(** The items before the first key that is not below [key], and the others. *)
Definition parts (key : bytes) l b a : Prop := l = b ++ a ∧ Forall (λ x, ord (t_key x) key = Lt) b ∧ Forall (λ x, ord (t_key x) key ≠ Lt) a.
Lemma parts_exist key l : StronglySorted key_lt l → ∃ b a, parts key l b a.
Proof.
  induction 1 as [|x l Hs IH Hx]; [by exists [], []|]. destruct (ord (t_key x) key) eqn:E.
  2: { destruct IH as (b & a & -> & Hb & Ha). exists (x :: b), a. split_and!; [done|by constructor|done]. }
  all: exists [], (x :: l); split_and!; [done|constructor|constructor; [by rewrite E|]].
  all: eapply Forall_impl; [exact Hx|]; intros y Hy Hlt; unfold key_lt in Hy; rewrite (ord_lt_trans ord _ _ _ Hy Hlt) in E; done.
Qed.

(** ** Searching *)
Lemma le_ok s l key y : skl_rep s l → key_ok key → y ∈ l → key_is_less_than_or_equal C s key (Some (t_addr y)) = Ok (bool_decide (ord (t_key y) key ≠ Lt)).
Proof.
  intros Hr Hk Hy. destruct (rep_node s l y Hr Hy) as (l2 & Hn). unfold key_is_less_than_or_equal. rewrite Hn, Ok_bind. cbn [node_of n_key].
  pose proof (sr_keys _ _ Hr) as Hks. rewrite Forall_forall in Hks. rewrite compare_ord, Ok_bind by auto. f_equal. apply bool_decide_ext.
  rewrite (ord_opp ord (t_key y) key). by destruct (ord (t_key y) key).
Qed.
Lemma nx_head l a : Forall (λ x, (1 ≤ t_height x)%nat) a → nx 1 (l ++ a) = t_addr <$> head (filter (reach 1) l ++ a).
Proof. intros Ha. unfold nx. by rewrite filter_app, (filter_every _ a). Qed.

(** What [prev] holds after a search from level [i]. *)
Definition prevs_ok (pre : list item) (i : nat) (prev prev' : list (option Z)) : Prop :=
  length prev' = length prev ∧ ∀ j, (j < length prev)%nat →
    prev' !! j = if decide (j < i)%nat then Some (t_addr <$> last (filter (reach (S j)) pre)) else prev !! j.

Lemma find_ge_ok s l key a fuel i l1 x b prev : skl_rep s l → key_ok key →
  head_item s :: l = l1 ++ x :: b ++ a → (1 ≤ i ≤ t_height x)%nat → Forall (λ y, ord (t_key y) key = Lt) b → Forall (λ y, ord (t_key y) key ≠ Lt) a →
  (length b + i ≤ fuel)%nat →
  ∃ prev', find_ge_loop C fuel s key i (t_addr x) prev = Ok (t_addr <$> head a, prev') ∧ prevs_ok (l1 ++ x :: b) i prev prev'.
Proof.
  intros Hr Hk. revert i l1 x b prev. induction fuel as [|fuel IH]; intros i l1 x b prev Heq Hi Hb Ha Hfuel; [lia|].
  assert (∀ y, y ∈ b ++ a → y ∈ l) as Hin.
  { intros y Hy. destruct l1 as [|z l1]; simpl in Heq; injection Heq as _ ->; [done|]. apply elem_of_app. right. by right. }
  cbn [find_ge_loop]. rewrite (rep_get_next s l l1 x (b ++ a) i Hr Heq Hi), Ok_bind.
  destruct (nx_cases i b a) as [[Hno ->]|(b1 & y & b2 & -> & Hb1 & Hy & ->)].
  - assert (key_is_less_than_or_equal C s key (nx i a) = Ok true) as ->.
    { unfold nx. destruct (filter (reach i) a) as [|y a'] eqn:Ef; [done|]. change (t_addr <$> head (y :: a')) with (Some (t_addr y)).
      assert (y ∈ a) as Hya by (assert (y ∈ filter (reach i) a) as Hf by (rewrite Ef; by left); by apply list_elem_of_filter in Hf as [_ ?]).
      rewrite (le_ok s l) by (done || (apply Hin, elem_of_app; by right)). rewrite Forall_forall in Ha. by rewrite bool_decide_eq_true_2 by auto. }
    rewrite Ok_bind. assert (last (filter (reach i) (l1 ++ x :: b)) = Some x) as Hlast by (apply last_reach; [lia|done]).
    destruct (Nat.eqb_spec i 1) as [->|Hne].
    + assert (b = []) as ->.
      { destruct b as [|z b]; [done|]. apply Forall_cons in Hno as [Hz _]. pose proof (sr_heights _ _ Hr) as Hh. rewrite Forall_forall in Hh.
        specialize (Hh z (Hin z ltac:(by left))). lia. }
      assert (nx 1 a = t_addr <$> head a) as ->.
      { change a with ([] ++ a) at 1. rewrite nx_head; [done|]. apply Forall_forall. intros z Hz. pose proof (sr_heights _ _ Hr) as Hh. rewrite Forall_forall in Hh.
        by apply Hh, Hin, elem_of_app; right. }
      eexists. split; [done|]. split; [by rewrite length_insert|]. intros j Hj. destruct j as [|j].
      * rewrite list_lookup_insert_eq by done. by rewrite decide_True, Hlast by lia.
      * rewrite list_lookup_insert_ne by lia. by rewrite decide_False by lia.
    + destruct (IH (i - 1)%nat l1 x b (<[(i - 1)%nat := Some (t_addr x)]> prev)) as (prev' & -> & Hlen & Hp); [done|lia|done|done|lia|].
      eexists. split; [done|]. rewrite length_insert in Hlen, Hp. split; [done|]. intros j Hj. rewrite Hp by done.
      destruct (decide (j < i - 1)%nat) as [Hlt|Hge]; [by rewrite decide_True by lia|]. destruct (decide (j = i - 1)%nat) as [->|Hji].
      * rewrite decide_True, list_lookup_insert_eq by lia. replace (S (i - 1)) with i by lia. by rewrite Hlast.
      * rewrite decide_False, list_lookup_insert_ne by lia. done.
  - rewrite Forall_app, Forall_cons in Hb. destruct Hb as (_ & Hyk & Hb2). rewrite (le_ok s l key y Hr Hk) by (apply Hin, elem_of_app; left; apply elem_of_app; right; by left).
    rewrite bool_decide_eq_false_2, Ok_bind by (by rewrite Hyk; intros []). rewrite length_app in Hfuel. simpl in Hfuel.
    destruct (IH i (l1 ++ x :: b1) y b2 prev) as (prev' & -> & Hp); [by rewrite Heq, <- !app_assoc|lia|done|done|lia|].
    exists prev'. split; [done|]. by rewrite <- app_assoc in Hp.
Qed.

(** A search for the last item of the list or of a part of it. *)
Lemma find_lt_ok s l key a fuel i l1 x b : skl_rep s l → key_ok key →
  head_item s :: l = l1 ++ x :: b ++ a → (1 ≤ i ≤ t_height x)%nat → Forall (λ y, ord (t_key y) key = Lt) b → Forall (λ y, ord (t_key y) key ≠ Lt) a →
  (length b + i ≤ fuel)%nat → find_lt_loop C fuel s key i (t_addr x) = Ok (t_addr (List.last b x)).
Proof.
  intros Hr Hk. revert i l1 x b. induction fuel as [|fuel IH]; intros i l1 x b Heq Hi Hb Ha Hfuel; [lia|].
  assert (∀ y, y ∈ b ++ a → y ∈ l) as Hin.
  { intros y Hy. destruct l1 as [|z l1]; simpl in Heq; injection Heq as _ ->; [done|]. apply elem_of_app. right. by right. }
  pose proof (sr_heights _ _ Hr) as Hh. pose proof (sr_keys _ _ Hr) as Hks. rewrite Forall_forall in Hh, Hks.
  assert (∀ y, y ∈ l → ∃ l2, node_at s (t_addr y) = Ok (node_of y l2) ∧ @compare C (t_key y) key = Ok (ord (t_key y) key)) as Hcmp.
  { intros y Hy. destruct (rep_node s l y Hr Hy) as (l2 & Hn). exists l2. split; [done|]. apply compare_ord; auto. }
  cbn [find_lt_loop]. rewrite (rep_get_next s l l1 x (b ++ a) i Hr Heq Hi), Ok_bind.
  destruct (nx_cases i b a) as [[Hno ->]|(b1 & y & b2 & -> & Hb1 & Hy & ->)].
  - set (down := if (i =? 1)%nat then _ else _). assert (down = Ok (t_addr (List.last b x))) as Hdown.
    { unfold down. destruct (Nat.eqb_spec i 1) as [->|Hne]; [|apply (IH _ l1 x b); done || lia].
      destruct b as [|z b]; [done|]. apply Forall_cons in Hno as [Hz _]. specialize (Hh z (Hin z ltac:(by left))). lia. }
    unfold nx. destruct (filter (reach i) a) as [|y a'] eqn:Ef; [done|]. simpl.
    assert (y ∈ a) as Hya by (assert (y ∈ filter (reach i) a) as Hf by (rewrite Ef; by left); by apply list_elem_of_filter in Hf as [_ ?]).
    destruct (Hcmp y) as (l2 & -> & Hc); [apply Hin, elem_of_app; by right|]. rewrite Ok_bind. cbn [node_of n_key]. rewrite Hc, Ok_bind.
    rewrite Forall_forall in Ha. by rewrite bool_decide_eq_false_2 by auto.
  - rewrite Forall_app, Forall_cons in Hb. destruct Hb as (_ & Hyk & Hb2). destruct (Hcmp y) as (l2 & -> & Hc); [apply Hin, elem_of_app; left; apply elem_of_app; right; by left|].
    rewrite Ok_bind. cbn [node_of n_key]. rewrite Hc, Ok_bind, bool_decide_eq_true_2 by done. rewrite length_app in Hfuel. simpl in Hfuel.
    rewrite (IH i (l1 ++ x :: b1) y b2); [|by rewrite Heq, <- !app_assoc|lia|done|done|lia]. by rewrite lastd_app.
Qed.
Lemma find_last_ok s l fuel i l1 x b : skl_rep s l →
  head_item s :: l = l1 ++ x :: b → (1 ≤ i ≤ t_height x)%nat → (length b + i ≤ fuel)%nat → find_last_loop fuel s i (t_addr x) = Ok (t_addr (List.last b x)).
Proof.
  intros Hr. revert i l1 x b. induction fuel as [|fuel IH]; intros i l1 x b Heq Hi Hfuel; [lia|].
  pose proof (sr_heights _ _ Hr) as Hh. rewrite Forall_forall in Hh.
  cbn [find_last_loop]. rewrite (rep_get_next s l l1 x b i Hr Heq Hi), Ok_bind. pose proof (nx_cases i b []) as Hc. rewrite app_nil_r in Hc.
  destruct Hc as [[Hno ->]|(b1 & y & b2 & -> & Hb1 & Hy & ->)].
  - cbn [nx filter list_filter head fmap option_fmap option_map]. destruct (Nat.eqb_spec i 1) as [->|Hne]; [|apply (IH _ l1 x b); done || lia].
    destruct b as [|z b]; [done|]. apply Forall_cons in Hno as [Hz _]. assert (z ∈ l) as Hzl.
    { destruct l1 as [|w l1]; simpl in Heq; injection Heq as _ ->; [by left|]. apply elem_of_app. right. right. by left. }
    specialize (Hh z Hzl). lia.
  - rewrite length_app in Hfuel. simpl in Hfuel. rewrite (IH i (l1 ++ x :: b1) y b2); [|by rewrite Heq, <- !app_assoc|lia|lia]. by rewrite lastd_app.
Qed.

(** ** Linking a new node *)

(** The new item with the levels it is linked on so far. *)
Definition partial (np : Z) (key : bytes) (j : nat) : item := mkItem np key j.

Lemma nx_partial np key j i b a : nx i (b ++ partial np key (S j) :: a) =
  if decide (i = S j ∧ Forall (λ x, ¬ reach i x) b) then Some np else nx i (b ++ partial np key j :: a).
Proof.
  destruct (nx_cases i b (partial np key (S j) :: a)) as [[Hno ->]|(b1 & y & b2 & -> & Hb1 & Hy & ->)].
  - rewrite (nx_skip i b) by done. unfold nx, partial. rewrite !filter_cons. cbn [t_height].
    destruct (decide (i = S j)) as [->|Hne].
    + rewrite (decide_True (P := (S j ≤ S j)%nat)) by lia. by rewrite decide_True.
    + rewrite (decide_False (P := i = S j ∧ _)) by tauto. destruct (decide (i ≤ j)%nat); [by rewrite decide_True by lia|by rewrite decide_False by lia].
  - rewrite decide_False; [|intros [_ Hf]; apply Forall_app in Hf as [_ Hf]; by apply Forall_cons in Hf as [? _]].
    rewrite <- app_assoc, nx_skip, <- app_comm_cons by done. unfold nx. by rewrite filter_cons, decide_True by done.
Qed.

(** The nodes when the new one is linked on the levels up to [j]. *)
Record linked (nodes : gmap Z Node) (hd : item) (bl a : list item) (np : Z) (key : bytes) (h j : nat) : Prop := {
  lk_before l1 x b : hd :: bl = l1 ++ x :: b → nodes !! t_addr x = Some (node_of x (b ++ partial np key j :: a));
  lk_new : nodes !! np = Some (mkNode key h (nexts j a ++ replicate (h - j) None));
  lk_after l1 x b : a = l1 ++ x :: b → nodes !! t_addr x = Some (node_of x b);
}.

Lemma get_next_eq s p j n x : k_nodes s !! p = Some n → n_next n !! j = Some x → get_next s p (S j) = Ok x.
Proof. intros Hn Hx. unfold get_next, node_at. rewrite Hn, Ok_bind, Nat.sub_1_r. simpl. by rewrite Hx. Qed.
Lemma set_next_eq s p j n y x : k_nodes s !! p = Some n → n_next n !! j = Some y →
  set_next s p (S j) x = Ok (with_nodes s (<[p := mkNode (n_key n) (n_height n) (<[j := x]> (n_next n))]> (k_nodes s))).
Proof. intros Hn Hy. unfold set_next, node_at. rewrite Hn, Ok_bind, Nat.sub_1_r. simpl. by rewrite Hy. Qed.

Lemma nexts_link h j a : (j < h)%nat → <[j := nx (S j) a]> (nexts j a ++ replicate (h - j) None) = nexts (S j) a ++ replicate (h - S j) None.
Proof.
  intros Hj. replace (h - j)%nat with (S (h - S j)) by lia. rewrite insert_app_r_alt by (rewrite length_nexts; lia). rewrite length_nexts, Nat.sub_diag.
  assert (nexts (S j) a = nexts j a ++ [nx (S j) a]) as -> by (unfold nexts; by rewrite seq_S, fmap_app). by rewrite <- app_assoc.
Qed.

Lemma link_one_ok s hd bl a np key h j prev : linked (k_nodes s) hd bl a np key h j → (j < h)%nat → NoDup (np :: (t_addr <$> (hd :: bl) ++ a)) →
  (∃ x, last (filter (reach (S j)) (hd :: bl)) = Some x ∧ prev !! j = Some (Some (t_addr x))) →
  ∃ s', (∀ n, link (S n) (S j) np prev s = link n (S (S j)) np prev s') ∧ linked (k_nodes s') hd bl a np key h (S j) ∧
    (∃ nodes, s' = with_nodes s nodes) ∧ dom (k_nodes s') = dom (k_nodes s).
Proof.
  intros [Hbe Hne Haf] Hj Hnd (x & Hx & Hp). destruct (last_reach_inv _ _ _ Hx) as (l1 & b & Heq & Hxr & Hb).
  apply NoDup_cons in Hnd as [Hnp Hnd].
  assert (∀ y, y ∈ (hd :: bl) ++ a → t_addr y ≠ np) as Hdiff by (intros y Hy <-; apply Hnp; by apply list_elem_of_fmap_2).
  assert (x ∈ hd :: bl) as Hxin by (rewrite Heq; apply elem_of_app; right; by left).
  pose proof (Hbe _ _ _ Heq) as Hnx. pose proof (Hdiff x ltac:(apply elem_of_app; by left)) as Hxnp.
  set (n1 := mkNode key h (nexts (S j) a ++ replicate (h - S j) None)).
  set (n2 := mkNode (t_key x) (t_height x) (<[j := Some np]> (nexts (t_height x) (b ++ partial np key j :: a)))).
  exists (with_nodes s (<[t_addr x := n2]> (<[np := n1]> (k_nodes s)))).
  assert (nx (S j) (b ++ partial np key j :: a) = nx (S j) a) as Hnext.
  { rewrite nx_skip by done. unfold nx, partial. rewrite filter_cons. cbn [t_height]. by rewrite decide_False by lia. }
  split_and!.
  - intros n. cbn [link]. unfold index. rewrite Nat.sub_1_r. cbn [pred]. rewrite Hp, !Ok_bind.
    rewrite (get_next_eq s (t_addr x) j (node_of x (b ++ partial np key j :: a)) (nx (S j) a) Hnx), Ok_bind.
    2: { cbn [node_of n_next]. rewrite <- Hnext, <- (nexts_lookup (t_height x)) by lia. f_equal. lia. }
    rewrite (set_next_eq s np j _ None _ Hne), Ok_bind.
    2: { cbn [n_next]. rewrite lookup_app_r by (rewrite length_nexts; lia). rewrite length_nexts, Nat.sub_diag. apply lookup_replicate_2. lia. }
    cbn [n_next n_key n_height]. rewrite nexts_link by done. fold n1.
    rewrite (set_next_eq _ (t_addr x) j (node_of x (b ++ partial np key j :: a)) (nx (S j) a)), Ok_bind; [done|cbn [k_nodes with_nodes]; by rewrite lookup_insert_ne|].
    cbn [node_of n_next]. rewrite <- Hnext, <- (nexts_lookup (t_height x)) by lia. f_equal. lia.
  - split; cbn [k_nodes with_nodes].
    + intros l1' y b' Hy. assert (t_addr y ≠ np) as Hynp by (apply Hdiff; rewrite Hy, <- app_assoc; apply elem_of_app; right; by left).
      destruct (decide (t_addr y = t_addr x)) as [Hyx|Hyx].
      * assert (y = x ∧ b' = b) as [-> ->].
        { rewrite fmap_app in Hnd. apply NoDup_app in Hnd as (Hnd & _). assert (length l1' = length l1) as Hlen.
          { rewrite NoDup_alt in Hnd. apply (Hnd (length l1') (length l1) (t_addr y)).
            - by rewrite Hy, list_lookup_fmap, list_lookup_middle.
            - by rewrite Heq, list_lookup_fmap, list_lookup_middle, Hyx. }
          rewrite Heq in Hy. by apply app_inj_1 in Hy as [_ [= -> ->]]. }
        rewrite lookup_insert_eq. f_equal. unfold n2, node_of. f_equal. symmetry. apply list_eq_same_length with (n := t_height x);
          [by rewrite length_insert, length_nexts|apply length_nexts|]. intros k u v Hk Hu Hv. pose proof (nexts_lookup (t_height x) (b ++ partial np key (S j) :: a) (S k) ltac:(lia)) as Hl.
        rewrite Nat.sub_1_r in Hl. cbn [pred] in Hl. rewrite Hl, nx_partial in Hu. injection Hu as <-. destruct (decide (k = j)) as [->|Hkj].
        -- rewrite list_lookup_insert_eq in Hv by (rewrite length_nexts; lia). injection Hv as <-. by rewrite decide_True.
        -- rewrite list_lookup_insert_ne in Hv by lia. pose proof (nexts_lookup (t_height x) (b ++ partial np key j :: a) (S k) ltac:(lia)) as Hl2.
           rewrite Nat.sub_1_r in Hl2. cbn [pred] in Hl2. rewrite Hl2 in Hv. injection Hv as <-. rewrite decide_False by lia. done.
      * rewrite !lookup_insert_ne by done. rewrite (Hbe _ _ _ Hy). f_equal. unfold node_of. f_equal. apply nexts_ext. intros i Hi. rewrite nx_partial. rewrite decide_False; [done|].
        intros [-> Hf]. assert (last (filter (reach (S j)) (hd :: bl)) = Some y) as Hy2 by (rewrite Hy; apply last_reach; [lia|done]). by rewrite Hx in Hy2; injection Hy2 as ->.
    + rewrite lookup_insert_ne, lookup_insert_eq by done. done.
    + intros l1' y b' Hy. assert (y ∈ a) as Hya by (rewrite Hy; apply elem_of_app; right; by left). rewrite !lookup_insert_ne; [by apply (Haf l1')| |].
      * intros Heq2. symmetry in Heq2. revert Heq2. apply Hdiff, elem_of_app. by right.
      * intros Heq2. rewrite fmap_app in Hnd. apply NoDup_app in Hnd as (_ & Hd & _). apply (Hd (t_addr x)); [by apply list_elem_of_fmap_2|].
        rewrite Heq2. by apply list_elem_of_fmap_2.
  - by eexists.
  - cbn [k_nodes with_nodes]. rewrite !dom_insert_L. assert (t_addr x ∈ dom (k_nodes s)) by (apply elem_of_dom; by eexists).
    assert (np ∈ dom (k_nodes s)) by (apply elem_of_dom; by eexists). set_solver.
Qed.

Lemma link_all_ok n s hd bl a np key h j prev : linked (k_nodes s) hd bl a np key h j → (j + n = h)%nat → NoDup (np :: (t_addr <$> (hd :: bl) ++ a)) →
  (∀ i, (j ≤ i < h)%nat → ∃ x, last (filter (reach (S i)) (hd :: bl)) = Some x ∧ prev !! i = Some (Some (t_addr x))) →
  ∃ nodes, link n (S j) np prev s = Ok (with_nodes s nodes) ∧ linked nodes hd bl a np key h h ∧ dom nodes = dom (k_nodes s).
Proof.
  revert j s. induction n as [|n IH]; intros j s Hl Hj Hnd Hp.
  - assert (j = h) as <- by lia. exists (k_nodes s). split; [by destruct s|done].
  - destruct (link_one_ok s hd bl a np key h j prev Hl ltac:(lia) Hnd (Hp j ltac:(lia))) as (s' & Hstep & Hl' & (nodes' & Hs') & Hdom).
    destruct (IH (S j) s' Hl' ltac:(lia) Hnd) as (nodes & Hrun & Hlk & Hd); [intros i Hi; apply Hp; lia|]. exists nodes. rewrite Hstep, Hrun. split_and!; [by subst s'|done|congruence].
Qed.

(** The nodes of a list, with a fresh one beside them, are linked on no level yet. *)
Lemma linked_start s l b a np key h : skl_rep s l → l = b ++ a → np ∉ dom (k_nodes s) → linked (<[np := mkNode key h (replicate h None)]> (k_nodes s)) (head_item s) b a np key h 0.
Proof.
  intros Hr -> Hnp. assert (∀ l1 x l2, head_item s :: b ++ a = l1 ++ x :: l2 → np ≠ t_addr x) as Hne.
  { intros l1 x l2 Heq ->. apply Hnp, elem_of_dom. rewrite (sr_nodes _ _ Hr _ _ _ Heq). by eexists. }
  split.
  - intros l1 x c Heq. assert (head_item s :: b ++ a = l1 ++ x :: (c ++ a)) as Heq' by (rewrite app_comm_cons, Heq, <- app_assoc; done).
    rewrite lookup_insert_ne by (by eapply Hne). rewrite (sr_nodes _ _ Hr _ _ _ Heq'). f_equal. unfold node_of. f_equal. apply nexts_ext. intros i Hi.
    unfold nx, partial. rewrite !filter_app, filter_cons, (decide_False (P := (i ≤ _)%nat)) by (cbn [t_height]; lia). done.
  - rewrite lookup_insert_eq. by rewrite Nat.sub_0_r.
  - intros l1 x c ->. assert (head_item s :: b ++ l1 ++ x :: c = (head_item s :: b ++ l1) ++ x :: c) as Heq' by (by rewrite <- app_comm_cons, <- app_assoc).
    rewrite lookup_insert_ne by (by eapply Hne). by rewrite (sr_nodes _ _ Hr _ _ _ Heq').
Qed.
(** ... and on all levels the item is in the list. *)
Lemma linked_end nodes hd b a np key h : linked nodes hd b a np key h h →
  ∀ l1 x l2, hd :: b ++ mkItem np key h :: a = l1 ++ x :: l2 → nodes !! t_addr x = Some (node_of x l2).
Proof.
  intros [Hbe Hne Haf] l1 x l2 Heq. rewrite Nat.sub_diag, app_nil_r in Hne. rewrite app_comm_cons in Heq.
  apply app_eq_inv in Heq as [([|y k] & Hk1 & Hk)|([|y k] & Hk1 & Hk)]; simpl in Hk; injection Hk as Hx Hk; try (subst x l2; done).
  - subst x l2. by apply (Hbe l1).
  - by apply (Haf k).
Qed.

(** ** Inserting *)
Lemma search_ok s l key prev : skl_rep s l → key_ok key → ∃ b a prev', parts key l b a ∧ find_greater_or_equal C s key prev = Ok (t_addr <$> head a, prev') ∧
  prevs_ok (head_item s :: b) (k_max_height s) prev prev'.
Proof.
  intros Hr Hk. destruct (parts_exist key l (sr_sorted _ _ Hr)) as (b & a & Hl & Hb & Ha). exists b, a.
  destruct (find_ge_ok s l key a (walk_fuel s) (k_max_height s) [] (head_item s) b prev Hr Hk) as (prev' & Hf & Hp); [by rewrite Hl|apply Hr|done|done| |].
  - unfold walk_fuel. rewrite (rep_fuel s l Hr), Hl, length_app. lia.
  - by exists prev'.
Qed.

Definition room (s : Skiplist) (h : nat) (p : Z) (arena : A) : Prop := allocate (k_arena s) (node_size + Z.of_nat h * 8) 8 = (Ok (Some p), arena).

Lemma prev_levels s l b a h prev : skl_rep s l → l = b ++ a → (1 ≤ h ≤ MAX_HEIGHT)%nat → prevs_ok (head_item s :: b) (k_max_height s) (replicate MAX_HEIGHT None) prev →
  ∀ i, (i < h)%nat → ∃ x, last (filter (reach (S i)) (head_item s :: b)) = Some x ∧
    (if (k_max_height s <? h)%nat then imap (λ i p, if (k_max_height s <=? i)%nat && (i <? h)%nat then Some (k_head s) else p) prev else prev) !! i = Some (Some (t_addr x)).
Proof.
  intros Hr -> Hh [Hlen Hp] i Hi. rewrite length_replicate in Hlen, Hp. pose proof (sr_heights _ _ Hr) as Hhs. rewrite Forall_app in Hhs. destruct Hhs as [Hhs _].
  assert (∃ x, last (filter (reach (S i)) (head_item s :: b)) = Some x) as [x Hx].
  { rewrite filter_cons, decide_True by (cbn [head_item t_height]; lia). rewrite last_cons. destruct (last _); by eexists. }
  exists x. split; [done|]. specialize (Hp i ltac:(lia)). destruct (decide (i < k_max_height s)%nat) as [Hlt|Hge].
  - rewrite Hx in Hp. destruct (k_max_height s <? h)%nat; [|done]. rewrite list_lookup_imap, Hp. simpl. by rewrite (proj2 (Nat.leb_gt _ _)) by lia.
  - rewrite (proj2 (Nat.ltb_lt _ _)) by lia. rewrite list_lookup_imap, Hp, lookup_replicate_2 by lia. simpl. rewrite (proj2 (Nat.leb_le _ _)), (proj2 (Nat.ltb_lt _ _)) by lia. simpl.
    assert (Forall (λ x, ¬ reach (S i) x) b) as Hno by (eapply Forall_impl; [exact Hhs|]; simpl; lia).
    rewrite filter_cons, decide_True, (filter_none _ b Hno) in Hx by (cbn [head_item t_height]; lia). injection Hx as <-. done.
Qed.

(** A list with a new item, linked on all levels, between the smaller and the larger ones. *)
Lemma insert_rep s s' l b a h key p : skl_rep s l → parts key l b a → (∀ x, x ∈ l → ord (t_key x) key ≠ Eq) → key_ok key → p ∉ dom (k_nodes s) →
  linked (k_nodes s') (head_item s) b a p key h h → k_head s' = k_head s → (k_max_height s ≤ k_max_height s' ∧ 1 ≤ h ≤ k_max_height s' ∧ k_max_height s' ≤ MAX_HEIGHT)%nat →
  dom (k_nodes s') = {[p]} ∪ dom (k_nodes s) → (∃ used, owns used (k_arena s') ∧ ∀ q, q ∈ dom (k_nodes s') → used q) →
  skl_rep s' (b ++ mkItem p key h :: a).
Proof.
  intros Hr (Hl & Hb & Ha) Hne Hk Hpd Hlk Hhd Hmh Hdom Hown.
  assert (head_item s' = head_item s) as Hhi by (unfold head_item; by rewrite Hhd).
  assert (t_addr <$> head_item s :: b ++ mkItem p key h :: a ≡ₚ p :: (t_addr <$> (head_item s :: b) ++ a)) as Hperm.
  { rewrite <- !app_comm_cons, !fmap_cons, !fmap_app, fmap_cons. cbn [t_addr]. rewrite <- Permutation_middle. apply perm_swap. }
  assert (NoDup (p :: (t_addr <$> (head_item s :: b) ++ a))) as Hnd.
  { apply NoDup_cons. rewrite <- app_comm_cons, <- Hl. split; [|apply Hr]. intros Hin. apply Hpd. rewrite (sr_dom _ _ Hr). by apply elem_of_list_to_set. }
  pose proof (sr_sorted _ _ Hr) as Hs. pose proof (sr_keys _ _ Hr) as Hk2. pose proof (sr_heights _ _ Hr) as Hh2. rewrite Hl in Hs. rewrite Hl, Forall_app in Hk2, Hh2.
  split; rewrite ?Hhi.
  - apply (linked_end _ _ _ _ _ _ _ Hlk).
  - by rewrite Hperm.
  - rewrite Hdom, (sr_dom _ _ Hr), Hl. apply set_eq. intros q. rewrite elem_of_union, elem_of_singleton, !elem_of_list_to_set, Hperm, elem_of_cons. by rewrite <- app_comm_cons.
  - apply StronglySorted_app in Hs as (Hba & Hsb & Hsa). apply StronglySorted_app. split_and!; [|done|].
    + rewrite Forall_forall in Hb. intros x y Hx [->|Hy]%elem_of_cons; [by apply Hb|by apply Hba].
    + apply StronglySorted_cons. split; [|done]. rewrite Forall_forall in Ha |- *. intros y Hy. specialize (Ha y Hy). specialize (Hne y ltac:(rewrite Hl; apply elem_of_app; by right)).
      unfold key_lt. cbn [t_key]. rewrite (ord_opp ord (t_key y) key). by destruct (ord (t_key y) key).
  - apply Forall_app. split; [tauto|]. apply Forall_cons. tauto.
  - destruct Hh2 as [H1 H2]. apply Forall_app. split; [|apply Forall_cons; split].
    + eapply Forall_impl; [exact H1|]. simpl. lia.
    + simpl. lia.
    + eapply Forall_impl; [exact H2|]. simpl. lia.
  - lia.
  - done.
Qed.

(** The check for a duplicate, at the node a search returns. *)
Lemma duplicate_check s l key b a : skl_rep s l → key_ok key → l = b ++ a →
  (match t_addr <$> head a with None => Ok tt | Some q => n ← node_at s q; c ← @compare C (n_key n) key; rust_assert (bool_decide (c ≠ Eq)) end) =
  match head a with Some y => rust_assert (bool_decide (ord (t_key y) key ≠ Eq)) | None => Ok tt end.
Proof.
  intros Hr Hk ->. destruct a as [|y a]; [done|]. simpl. assert (y ∈ b ++ y :: a) as Hy by (apply elem_of_app; right; by left).
  destruct (rep_node s _ y Hr Hy) as (l2 & ->). pose proof (sr_keys _ _ Hr) as Hks. rewrite Forall_forall in Hks.
  rewrite Ok_bind. cbn [node_of n_key]. by rewrite compare_ord, Ok_bind by auto.
Qed.

(** Inserting a new key puts it between the smaller and the larger keys. *)
Lemma insert_ok s l h key p arena : skl_rep s l → key_ok key → (1 ≤ h ≤ MAX_HEIGHT)%nat → (∀ x, x ∈ l → ord (t_key x) key ≠ Eq) → room s h p arena →
  ∃ s' b a, insert C node_size h key s = Ok s' ∧ parts key l b a ∧ skl_rep s' (b ++ mkItem p key h :: a) ∧
    k_count s' = wrap 64 (k_count s + 1) ∧ k_size s' = wrap 64 (k_size s + len key).
Proof.
  intros Hr Hk Hh Hne Hroom. destruct (search_ok s l key (replicate MAX_HEIGHT None) Hr Hk) as (b & a & prev & Hparts & Hf & Hp).
  assert (l = b ++ a) as Hl by apply Hparts.
  destruct (sr_owns _ _ Hr) as (used & Hown & Hused).
  destruct (allocate_fresh used (k_arena s) (node_size + Z.of_nat h * 8) p arena Hown ltac:(unfold MAX_HEIGHT in *; lia) Hroom) as (_ & Hfresh & Hown').
  assert (p ∉ dom (k_nodes s)) as Hpd by (intros Hin; apply (Hfresh p); [unfold region; lia|by apply Hused]).
  pose proof (prev_levels s l b a h prev Hr Hl Hh Hp) as Hprev.
  unfold insert. rewrite Hf, Ok_bind, (duplicate_check s l key b a Hr Hk Hl).
  assert (match head a with Some y => rust_assert (bool_decide (ord (t_key y) key ≠ Eq)) | None => Ok tt end = Ok tt) as ->.
  { destruct a as [|y a]; [done|]. simpl. rewrite bool_decide_eq_true_2; [done|]. apply Hne. rewrite Hl. apply elem_of_app. right. by left. }
  rewrite Ok_bind. unfold node_new. rewrite Hroom. rewrite Ok_bind.
  set (mh := if (k_max_height s <? h)%nat then h else k_max_height s).
  set (s0 := mkSkiplist mh (k_head s) arena (k_count s) (k_size s) (<[p := mkNode key h (replicate h None)]> (k_nodes s))).
  assert (NoDup (p :: (t_addr <$> (head_item s :: b) ++ a))) as Hnd.
  { apply NoDup_cons. rewrite <- app_comm_cons, <- Hl. split; [|apply Hr]. intros Hin. apply Hpd. rewrite (sr_dom _ _ Hr). by apply elem_of_list_to_set. }
  destruct (link_all_ok h s0 (head_item s) b a p key h 0 _ (linked_start s l b a p key h Hr Hl Hpd) eq_refl Hnd (λ i Hi, Hprev i (proj2 Hi))) as (nodes & -> & Hlk & Hdom).
  cbn [k_nodes s0] in Hdom. rewrite dom_insert_L in Hdom.
  rewrite Ok_bind. eexists _, b, a. split; [done|]. split; [done|]. split; [|done]. apply (insert_rep s _ l); try done; cbn [with_nodes k_nodes k_head k_max_height k_arena s0].
  - unfold mh. destruct (sr_max _ _ Hr). destruct (Nat.ltb_spec (k_max_height s) h); lia.
  - eexists. split; [exact Hown'|]. intros q. rewrite Hdom, elem_of_union, elem_of_singleton. intros [->|Hq]; [right; unfold region; lia|left; by apply Hused].
Qed.

(** Inserting a key again is refused. *)
Lemma insert_duplicate s l h key x : skl_rep s l → key_ok key → x ∈ l → ord (t_key x) key = Eq → insert C node_size h key s = Panic.
Proof.
  intros Hr Hk Hx Heq. destruct (search_ok s l key (replicate MAX_HEIGHT None) Hr Hk) as (b & a & prev & (Hl & Hb & Ha) & Hf & _).
  unfold insert. rewrite Hf, Ok_bind, (duplicate_check s l key b a Hr Hk Hl). rewrite Hl, elem_of_app in Hx. rewrite Forall_forall in Hb, Ha.
  destruct Hx as [Hx|Hx]; [by rewrite (Hb x Hx) in Heq|]. pose proof (sr_sorted _ _ Hr) as Hs. rewrite Hl in Hs. apply StronglySorted_app in Hs as (_ & _ & Hs).
  destruct a as [|y a]; [by apply elem_of_nil in Hx|]. simpl. apply elem_of_cons in Hx as [->|Hx]; [by rewrite Heq|].
  apply StronglySorted_cons in Hs as [Hy _]. rewrite Forall_forall in Hy. specialize (Hy x Hx). unfold key_lt in Hy. pose proof (Ha y ltac:(by left)) as Hny.
  destruct (ord (t_key y) key) eqn:E; [done|done|]. rewrite (ord_eq_r ord _ _ _ Heq) in Hy. by rewrite Hy in E.
Qed.

(** ** Iterating *)

(** The iterator stands at the item [p] of the list ([None]: it is not valid). *)
Definition at_item (it : SkiplistIterator (A := A)) (l : list item) (p : option nat) : Prop :=
  skl_rep (i_skl it) l ∧ i_node it = t_addr <$> (p ≫= λ i, l !! i) ∧ ∀ i, p = Some i → (i < length l)%nat.

Lemma at_None it l : skl_rep (i_skl it) l → i_node it = None → at_item it l None.
Proof. intros Hr Hn. split_and!; done. Qed.
Lemma at_Some it l i x : skl_rep (i_skl it) l → l !! i = Some x → i_node it = Some (t_addr x) → at_item it l (Some i).
Proof. intros Hr Hx Hn. split_and!; [done|simpl; by rewrite Hx|]. intros ? [= <-]. by apply lookup_lt_Some in Hx. Qed.
Lemma at_inv it l i : at_item it l (Some i) → ∃ x, l !! i = Some x ∧ i_node it = Some (t_addr x) ∧ skl_rep (i_skl it) l.
Proof.
  intros (Hr & Hn & Hi). destruct (lookup_lt_is_Some_2 l i (Hi i eq_refl)) as [x Hx]. exists x. simpl in Hn. by rewrite Hx in Hn.
Qed.
(** The item after the last of the given ones. *)
Lemma at_head s l b a : skl_rep s l → l = b ++ a → at_item (mkIter s (t_addr <$> head a)) l (match a with [] => None | _ => Some (length b) end).
Proof.
  intros Hr ->. destruct a as [|x a]; [by apply at_None|]. apply (at_Some _ _ _ x); [done| |done]. by rewrite list_lookup_middle.
Qed.
(** The last of the items before a position; the head stands for none. *)
Lemma not_head_item s l x : skl_rep s l → x ∈ l → not_head s (t_addr x) = Some (t_addr x).
Proof.
  intros Hr Hx. unfold not_head. destruct (Z.eqb_spec (t_addr x) (k_head s)) as [Heq|]; [|done]. pose proof (sr_addrs _ _ Hr) as Hnd.
  rewrite fmap_cons, NoDup_cons in Hnd. destruct Hnd as [Hnd _]. destruct Hnd. cbn [head_item t_addr]. rewrite <- Heq. by apply list_elem_of_fmap_2.
Qed.
Lemma at_last s l b a : skl_rep s l → l = b ++ a →
  at_item (mkIter s (not_head s (t_addr (List.last b (head_item s))))) l (match b with [] => None | _ => Some (length b - 1)%nat end).
Proof.
  intros Hr ->. destruct b as [|x b _] using rev_ind.
  { apply at_None; [done|]. cbn [i_node List.last head_item t_addr]. unfold not_head. by rewrite Z.eqb_refl. }
  rewrite lastd_app. cbn [List.last]. rewrite (not_head_item s ((b ++ [x]) ++ a)) by (done || (apply elem_of_app; left; apply elem_of_app; right; by left)).
  replace (match b ++ [x] with [] => None | _ => _ end) with (Some (length b)) by (rewrite length_app; destruct b; simpl; f_equal; lia).
  apply (at_Some _ _ _ x); [done| |done]. rewrite <- app_assoc. by apply list_lookup_middle.
Qed.

Lemma nx_first s l a : skl_rep s l → (∀ x, x ∈ a → x ∈ l) → nx 1 a = t_addr <$> head a.
Proof.
  intros Hr Hin. destruct a as [|x a]; [done|]. pose proof (sr_heights _ _ Hr) as Hh. rewrite Forall_forall in Hh.
  unfold nx. rewrite filter_cons, decide_True; [done|]. apply Hh, Hin. by left.
Qed.

Lemma i_seek_to_first_ok it l : skl_rep (i_skl it) l → ∃ it', i_seek_to_first it = Ok it' ∧ at_item it' l (match l with [] => None | _ => Some 0%nat end).
Proof.
  intros Hr. unfold i_seek_to_first. change (k_head (i_skl it)) with (t_addr (head_item (i_skl it))). rewrite (rep_get_next (i_skl it) l [] (head_item (i_skl it)) l 1 Hr eq_refl) by (cbn [head_item t_height]; unfold MAX_HEIGHT; lia).
  rewrite Ok_bind, (nx_first _ l) by done. eexists. split; [done|]. by apply (at_head _ l []).
Qed.
Lemma i_seek_to_last_ok it l : skl_rep (i_skl it) l → ∃ it', i_seek_to_last it = Ok it' ∧ at_item it' l (match l with [] => None | _ => Some (length l - 1)%nat end).
Proof.
  intros Hr. unfold i_seek_to_last, find_last. change (k_head (i_skl it)) with (t_addr (head_item (i_skl it))). rewrite (find_last_ok (i_skl it) l _ _ [] (head_item (i_skl it)) l Hr eq_refl), Ok_bind.
  - eexists. split; [done|]. apply (at_last _ l l []); [done|by rewrite app_nil_r].
  - apply Hr.
  - unfold walk_fuel. rewrite (rep_fuel _ l Hr). lia.
Qed.
Lemma i_seek_ok it l target : skl_rep (i_skl it) l → key_ok target → ∃ it' b a, parts target l b a ∧ i_seek C it target = Ok it' ∧
  at_item it' l (match a with [] => None | _ => Some (length b) end).
Proof.
  intros Hr Ht. destruct (search_ok (i_skl it) l target [] Hr Ht) as (b & a & prev & Hp & Hf & _). unfold i_seek. rewrite Hf, Ok_bind.
  eexists _, b, a. split; [done|]. split; [done|]. apply at_head; [done|apply Hp].
Qed.
Lemma i_next_ok it l i : at_item it l (Some i) → ∃ it', i_next it = Ok it' ∧ at_item it' l (if decide (S i < length l)%nat then Some (S i) else None).
Proof.
  intros (x & Hx & Hn & Hr)%at_inv. destruct (list_elem_of_split_length l i x Hx) as (b & a & -> & ->). unfold i_next, panic_valid. rewrite Hn, Ok_bind.
  rewrite (rep_get_next (i_skl it) _ (head_item (i_skl it) :: b) x a 1 Hr eq_refl), Ok_bind.
  2: { pose proof (sr_heights _ _ Hr) as Hh. rewrite Forall_app, Forall_cons in Hh. lia. }
  rewrite (nx_first _ _ _ Hr) by (intros y Hy; apply elem_of_app; right; by right). eexists. split; [done|].
  pose proof (at_head (i_skl it) _ (b ++ [x]) a Hr ltac:(by rewrite <- app_assoc)) as Hat. rewrite !length_app in *. simpl in *. destruct a as [|y a]; simpl in *.
  - rewrite decide_False by lia. done.
  - rewrite decide_True by lia. by rewrite Nat.add_1_r in Hat.
Qed.
Lemma i_key_ok it l i x : at_item it l (Some i) → l !! i = Some x → i_key it = Ok (t_key x).
Proof.
  intros (y & Hy & Hn & Hr)%at_inv Hx. assert (y = x) as -> by congruence. unfold i_key, panic_valid. rewrite Hn, Ok_bind.
  destruct (rep_node _ l x Hr) as (l2 & ->); [by eapply list_elem_of_lookup_2|done].
Qed.
Lemma i_prev_ok it l i : at_item it l (Some i) → ∃ it', i_prev C it = Ok it' ∧ at_item it' l (if decide (i = 0)%nat then None else Some (i - 1)%nat).
Proof.
  intros Hat. destruct (at_inv _ _ _ Hat) as (x & Hx & Hn & Hr). unfold i_prev. rewrite (i_key_ok it l i x Hat Hx), Ok_bind.
  destruct (list_elem_of_split_length l i x Hx) as (b & a & -> & ->). pose proof (sr_sorted _ _ Hr) as Hs. apply StronglySorted_app in Hs as (Hba & _ & Hs).
  apply StronglySorted_cons in Hs as [Hxa _]. pose proof (sr_keys _ _ Hr) as Hks. rewrite Forall_app, Forall_cons in Hks.
  unfold find_less_than. change (k_head (i_skl it)) with (t_addr (head_item (i_skl it))). rewrite (find_lt_ok (i_skl it) _ (t_key x) (x :: a) _ _ [] (head_item (i_skl it)) b Hr); [|tauto|done|apply Hr| | |].
  - rewrite Ok_bind. eexists. split; [done|]. pose proof (at_last (i_skl it) _ b (x :: a) Hr eq_refl) as Hl. destruct b as [|y b]; [done|]. simpl in *. done.
  - apply Forall_forall. intros y Hy. apply (Hba y x); [done|by left].
  - constructor; [by rewrite (ord_refl ord)|]. eapply Forall_impl; [exact Hxa|]. intros y Hy Hlt. unfold key_lt in Hy. pose proof (ord_lt_trans ord _ _ _ Hy Hlt) as Hc. by rewrite (ord_refl ord) in Hc.
  - unfold walk_fuel. rewrite (rep_fuel _ _ Hr), length_app. lia.
Qed.

(** The keys from the position on, forwards and backwards. *)
Fixpoint keys_forward (fuel : nat) (it : SkiplistIterator (A := A)) : outcome (list bytes) :=
  if i_valid it then
    match fuel with
    | O => OutOfFuel
    | S fuel => k ← i_key it; it ← i_next it; r ← keys_forward fuel it; Ok (k :: r)
    end
  else Ok [].
Fixpoint keys_backward (fuel : nat) (it : SkiplistIterator (A := A)) : outcome (list bytes) :=
  if i_valid it then
    match fuel with
    | O => OutOfFuel
    | S fuel => k ← i_key it; it ← i_prev C it; r ← keys_backward fuel it; Ok (k :: r)
    end
  else Ok [].
Lemma at_valid it l p : at_item it l p → i_valid it = match p with Some _ => true | None => false end.
Proof.
  destruct p as [i|]; [intros (x & _ & Hn & _)%at_inv|intros (_ & Hn & _)]; unfold i_valid; by rewrite Hn.
Qed.
Lemma keys_forward_ok fuel it l p : at_item it l p → (length l ≤ fuel + default (length l) p)%nat →
  keys_forward fuel it = Ok (t_key <$> match p with Some i => drop i l | None => [] end).
Proof.
  revert it p. induction fuel as [|fuel IH]; intros it p Hat Hf; cbn [keys_forward]; rewrite (at_valid it l p Hat); (destruct p as [i|]; [|done]).
  { destruct Hat as (_ & _ & Hi). specialize (Hi i eq_refl). simpl in Hf. lia. }
  destruct (at_inv _ _ _ Hat) as (x & Hx & _). rewrite (i_key_ok it l i x Hat Hx), Ok_bind. destruct (i_next_ok it l i Hat) as (it' & -> & Hat'). rewrite Ok_bind.
  rewrite (drop_S _ _ _ Hx). simpl in Hf. case_decide as Hi.
  - rewrite (IH _ _ Hat'); [done|]. simpl. lia.
  - rewrite (IH _ _ Hat') by (simpl; lia). by rewrite drop_ge by lia.
Qed.
Lemma keys_backward_ok fuel it l p : at_item it l p → (default 0 (S <$> p) ≤ fuel)%nat →
  keys_backward fuel it = Ok (t_key <$> match p with Some i => reverse (take (S i) l) | None => [] end).
Proof.
  revert it p. induction fuel as [|fuel IH]; intros it p Hat Hf; cbn [keys_backward]; rewrite (at_valid it l p Hat); (destruct p as [i|]; [|done]); [simpl in Hf; lia|].
  destruct (at_inv _ _ _ Hat) as (x & Hx & _). rewrite (i_key_ok it l i x Hat Hx), Ok_bind. destruct (i_prev_ok it l i Hat) as (it' & -> & Hat'). rewrite Ok_bind.
  rewrite (take_S_r _ _ _ Hx), reverse_snoc. simpl in Hf. case_decide as Hi.
  - rewrite (IH _ _ Hat') by (simpl; lia). by subst i.
  - rewrite (IH _ _ Hat') by (simpl; lia). by replace (S (i - 1)) with i by lia.
Qed.

(** ** Lists of insertions *)
Fixpoint insert_all (hks : list (nat * bytes)) (s : Skiplist) : outcome Skiplist :=
  match hks with [] => Ok s | (h, k) :: hks => s ← insert C node_size h k s; insert_all hks s end.
Definition total (ks : list bytes) : Z := foldr (λ k n, len k + n) 0 ks.

Context {AT : ArenaTotal AR owns}.
Lemma skiplist_new_ok arena : owns (λ _, False) arena → ∃ s, skiplist_new node_size arena = Ok s ∧ skl_rep s [] ∧ k_count s = 0 ∧ k_size s = 0.
Proof.
  intros Hown. set (sz := node_size + Z.of_nat MAX_HEIGHT * 8). assert (0 < sz < 2 ^ 32) as Hsz by (unfold sz, MAX_HEIGHT; lia).
  destruct (allocate_total _ arena sz Hown Hsz) as (p & arena' & Hal). destruct (allocate_fresh _ arena sz p arena' Hown Hsz Hal) as (_ & _ & Hown').
  unfold skiplist_new, node_new. fold sz. rewrite Hal, Ok_bind. eexists. split; [done|]. split; [|done].
  split; cbn [k_nodes k_head k_max_height k_arena]; [| |rewrite insert_empty, dom_singleton_L; simpl; symmetry; apply union_empty_r_L|constructor|constructor|constructor|unfold MAX_HEIGHT; lia|].
  - intros [|y [|? ?]] x l2 Heq; simplify_eq/=. rewrite lookup_insert_eq. f_equal.
  - apply NoDup_cons. split; [apply not_elem_of_nil|constructor].
  - eexists. split; [exact Hown'|]. intros q. rewrite insert_empty, dom_singleton_L, elem_of_singleton. intros ->. right. unfold region. lia.
Qed.

Lemma insert_all_ok hks s l c n : skl_rep s l → Forall (λ hk, (1 ≤ hk.1 ≤ MAX_HEIGHT)%nat ∧ key_ok hk.2) hks →
  ForallOrdPairs (λ j k : bytes, ord j k ≠ Eq) hks.*2 → (∀ x k, x ∈ l → k ∈ hks.*2 → ord (t_key x) k ≠ Eq) → k_count s = wrap 64 c → k_size s = wrap 64 n →
  ∃ s' l', insert_all hks s = Ok s' ∧ skl_rep s' l' ∧ t_key <$> l' ≡ₚ (t_key <$> l) ++ hks.*2 ∧
    k_count s' = wrap 64 (c + len hks.*2) ∧ k_size s' = wrap 64 (n + total hks.*2).
Proof.
  revert s l c n. induction hks as [|[h k] hks IH]; intros s l c n Hr Hok Hd Hl Hc Hn.
  { exists s, l. simpl. rewrite app_nil_r, !Z.add_0_r. done. }
  apply Forall_cons in Hok as [[Hh Hk] Hok]. cbn [fst snd] in Hh, Hk. inversion Hd as [|k0 ks0 Hdk Hd' [Ek Eks]]; subst k0 ks0. rewrite Forall_forall in Hdk.
  destruct (sr_owns _ _ Hr) as (used & Hown & _). assert (0 < node_size + Z.of_nat h * 8 < 2 ^ 32) as Hsz by (unfold MAX_HEIGHT in Hh; lia).
  destruct (allocate_total used (k_arena s) _ Hown Hsz) as (p & arena & Hroom).
  destruct (insert_ok s l h k p arena Hr Hk Hh) as (s1 & b & a & Hins & (Hp & _) & Hr1 & Hc1 & Hn1); [intros x Hx; apply Hl; [done|by left]|done|].
  destruct (IH s1 (b ++ mkItem p k h :: a) (c + 1) (n + len k) Hr1 Hok Hd') as (s' & l' & Hrun & Hr' & Hperm & Hc' & Hn').
  - intros x k' [Hx|[->|Hx]%elem_of_cons]%elem_of_app Hk'; [|by apply Hdk|]; (apply Hl; [rewrite Hp; apply elem_of_app; by (left + right)|by right]).
  - rewrite Hc1, Hc. unfold wrap. apply Zplus_mod_idemp_l.
  - rewrite Hn1, Hn. unfold wrap. apply Zplus_mod_idemp_l.
  - exists s', l'. cbn [insert_all]. rewrite Hins, Ok_bind. split_and!; [done|done| | |].
    + rewrite Hperm, Hp, !fmap_app, !fmap_cons. cbn [t_key snd]. rewrite <- !app_assoc. apply Permutation_app_head. by rewrite <- app_comm_cons, Permutation_middle.
    + rewrite Hc', fmap_cons. unfold len. f_equal. cbn [length]. lia.
    + rewrite Hn', fmap_cons. f_equal. cbn [total foldr snd]. unfold total. lia.
Qed.

(** C40: The older skip list keeps what is inserted in order.  On an arena that hands out
    memory not in use and does not run out of it, inserting keys of which no two are
    equal, whatever the heights that are drawn, never fails; walking forwards from the
    first node then yields exactly the inserted keys in ascending order and walking
    backwards from the last one yields them in reverse; seeking a key walks over exactly
    the keys that are not below it; the count and the size served are those of the keys;
    and inserting a key again panics. *)
Theorem old_skiplist_ordered (arena : A) (hks : list (nat * bytes)) :
  owns (λ _, False) arena → Forall (λ hk, (1 ≤ hk.1 ≤ MAX_HEIGHT)%nat ∧ key_ok hk.2) hks → ForallOrdPairs (λ j k : bytes, ord j k ≠ Eq) hks.*2 →
  ∃ s ks, (s ← skiplist_new node_size arena; insert_all hks s) = Ok s ∧ ks ≡ₚ hks.*2 ∧ StronglySorted (λ j k, ord j k = Lt) ks ∧
    (it ← i_seek_to_first (iter_new s); keys_forward (length ks) it) = Ok ks ∧
    (it ← i_seek_to_last (iter_new s); keys_backward (length ks) it) = Ok (reverse ks) ∧
    (∀ target, key_ok target → (it ← i_seek C (iter_new s) target; keys_forward (length ks) it) = Ok (filter (λ k, ord k target ≠ Lt) ks)) ∧
    count s = wrap 64 (len hks.*2) ∧ total_size s = wrap 64 (total hks.*2) ∧
    (∀ h key, key_ok key → (∃ k, k ∈ hks.*2 ∧ ord k key = Eq) → insert C node_size h key s = Panic).
Proof.
  intros Hown Hok Hd. destruct (skiplist_new_ok arena Hown) as (s0 & -> & Hr0 & Hc0 & Hn0). rewrite Ok_bind.
  destruct (insert_all_ok hks s0 [] 0 0 Hr0 Hok Hd) as (s & l & -> & Hr & Hperm & Hc & Hn); [intros x k Hx; by apply elem_of_nil in Hx|done|done|].
  exists s, (t_key <$> l). rewrite length_fmap. split_and!; [done|done| | | | |done|done|].
  - pose proof (sr_sorted _ _ Hr) as Hs. clear -Hs. induction Hs as [|x l Hs IH Hx]; constructor; [done|]. by apply Forall_fmap.
  - destruct (i_seek_to_first_ok (iter_new s) l Hr) as (it & -> & Hat). rewrite Ok_bind, (keys_forward_ok _ _ _ _ Hat); [by destruct l|destruct l; simpl; lia].
  - destruct (i_seek_to_last_ok (iter_new s) l Hr) as (it & -> & Hat). rewrite Ok_bind, (keys_backward_ok _ _ _ _ Hat); [|destruct l; simpl; lia].
    destruct l as [|x l]; [done|]. rewrite take_ge by (cbn [length]; lia). by rewrite fmap_reverse.
  - intros target Ht. destruct (i_seek_ok (iter_new s) l target Hr Ht) as (it & b & a & (Hl & Hb & Ha) & -> & Hat). rewrite Ok_bind, (keys_forward_ok _ _ _ _ Hat).
    + assert (Forall (λ k, ¬ ord k target ≠ Lt) (t_key <$> b)) as Hbk by (apply Forall_fmap; eapply Forall_impl; [exact Hb|]; simpl; intros y ->; tauto).
      assert (Forall (λ k, ord k target ≠ Lt) (t_key <$> a)) as Hak by (by apply Forall_fmap).
      rewrite Hl, fmap_app, filter_app, (filter_none _ _ Hbk), (filter_every _ _ Hak). destruct a as [|y a]; [done|]. by rewrite drop_app_length.
    + rewrite Hl, length_app. destruct a; simpl; lia.
  - intros h key Hk (k & Hin & Heq). rewrite <- Hperm in Hin. apply list_elem_of_fmap_1 in Hin as (x & -> & Hx). by apply (insert_duplicate s l h key x).
Qed.
End Facts.

(** An allocator that returns addresses above all blocks. *)
Definition vec_above (blocks : list (Z * Z)) (size : Z) : Z := 8 * foldr (λ b m, Z.max (b.1 + b.2) m) 0 blocks.
Lemma vec_above_fresh blocks size q : region (vec_above blocks size) size q → ¬ BlockArena.in_block blocks q.
Proof.
  unfold vec_above, region. intros Hq (b & Hb & Hin). unfold region in Hin.
  assert (0 ≤ foldr (λ b m, Z.max (b.1 + b.2) m) 0 blocks ∧ b.1 + b.2 ≤ foldr (λ b m, Z.max (b.1 + b.2) m) 0 blocks); [|lia].
  clear -Hb. induction blocks as [|c blocks IH]; [by apply elem_of_nil in Hb|]. simpl. apply elem_of_cons in Hb as [->|Hb]; [|specialize (IH Hb); lia].
  split; [|lia]. assert (0 ≤ foldr (λ b m, Z.max (b.1 + b.2) m) 0 blocks) by (clear; induction blocks; simpl; lia). lia.
Qed.
Lemma vec_above_aligned blocks size : vec_above blocks size mod 8 = 0.
Proof. unfold vec_above. rewrite Z.mul_comm. apply Z.mod_mul. lia. Qed.

Lemma old_skiplist_ordered_witness :
  ∃ (s : Skiplist BlockArena.BlockArena) ks, ks ≡ₚ [[98]; [97]; [99; 1]] ∧ (it ← i_seek_to_first (iter_new s); keys_forward (length ks) it) = Ok ks ∧ count s = 3.
Proof.
  destruct (old_skiplist_ordered (AL := BlockArena.BlockArena_laws vec_above vec_above_fresh true) BlockArena.ba_owns bytewise (λ _, True) lex_compare 48 ltac:(lia)
    (AT := BlockArena.BlockArena_total vec_above vec_above_aligned true) BlockArena.ba_default [(2%nat, [98]); (1%nat, [97]); (4%nat, [99; 1])]) as (s & ks & _ & Hp & _ & Hf & _ & _ & Hc & _).
  - apply BlockArena.ba_default_owns.
  - repeat constructor.
  - repeat constructor; done.
  - exists s, ks. split; [exact Hp|]. split; [exact Hf|exact Hc].
Defined.
