(* ===== verification/MemTable.v ===== *)
(** * The memtable: [src/mem/mod.rs]

    Entries (internal key and value in one byte string), the comparator on
    entries, [MemTable] over the skip list and its iterator. *)
From stdpp Require Import gmap.
From S2P Require Import Prelude Coding Varint Comparator Format Iterator SkipList SkipListFacts.
Open Scope Z_scope.

(** [extract_varint32_encoded_slice]: the slice and the new [src]. *)
Definition extract_varint32_encoded_slice (src : bytes) : bytes * bytes :=
  match src with
  | [] => ([], [])
  | _ => match get_varint_prefixed_slice 32 src with Some r => r | None => (src, src) end
  end.

(** [KeyComparator]: compares the internal keys of two entries. *)
Definition kcmp_compare (ucmp : Comparator) (a b : bytes) : outcome comparison :=
  let ia := (extract_varint32_encoded_slice a).1 in
  let ib := (extract_varint32_encoded_slice b).1 in
  if bool_decide (ia = []) || bool_decide (ib = []) then Ok (lex_compare ia ib)
  else icmp_compare ucmp ia ib.
Definition KeyComparator (ucmp : Comparator) : Comparator := {|
  compare := kcmp_compare ucmp;
  cmp_name := @cmp_name (InternalKeyComparator ucmp);
  separator a b := icmp_separator ucmp (extract_varint32_encoded_slice a).1 (extract_varint32_encoded_slice b).1;
  successor k := icmp_successor ucmp (extract_varint32_encoded_slice k).1;
|}.

Section MemTable.
Context (ck : bool) (node_base : Z) (ucmp : Comparator).

(** The memtable is its skip list; [max_mem_size] is the capacity of the arena. *)
Definition mem_new (max_mem_size : Z) : outcome SkipList := skl_new ck node_base max_mem_size.
Definition approximate_memory_usage (s : SkipList) : outcome Z := total_size ck s.
Definition mem_len (s : SkipList) : outcome nat := skl_len s.
Definition mem_is_empty (s : SkipList) : outcome bool := n ← skl_len s; Ok (bool_decide (n = 0%nat)).

(** The entry [add] puts into the table. *)
Definition mem_entry (seq_number : Z) (val_type : ValueType) (key value : bytes) : bytes :=
  let buf := (put_varint 32 [] (wrap 32 (len key + Z.of_nat INTERNAL_KEY_TAIL))).1 in
  let buf := buf ++ key in
  let buf := put_fixed_64 buf (Z.lor (wrap 64 (Z.shiftl seq_number 8)) (value_type_code val_type)) in
  put_varint_prefixed_slice 32 buf value.
(** [add]; [height] is the random height of the new node. *)
Definition mem_add (height : nat) (seq_number : Z) (val_type : ValueType) (key value : bytes)
    (s : SkipList) : outcome unit * SkipList :=
  skl_put ck node_base (KeyComparator ucmp) height (mem_entry seq_number val_type key value) s.

(** [get]: [None] when the key is not there, [Some (Err (NotFound _))] when it was
    deleted. *)
Definition mem_get (s : SkipList) (key : LookupKey) : outcome (option (outcome bytes)) :=
  let mk := lk_mem_key key in
  iter ← si_seek (KeyComparator ucmp) (si_new s) mk;
  if si_valid iter then
    e ← si_key iter;
    let '(ikey, e) := extract_varint32_encoded_slice e in
    let key_size := length ikey in
    if (key_size <? INTERNAL_KEY_TAIL)%nat then Panic else
    uk ← lk_user_key key;
    c ← @compare ucmp (take (key_size - INTERNAL_KEY_TAIL) ikey) uk;
    match c with
    | Eq =>
      let tag := decode_fixed_64 (drop (key_size - INTERNAL_KEY_TAIL) ikey) in
      match value_type_from (Z.land tag 0xff) with
      | Value => Ok (Some (Ok (extract_varint32_encoded_slice e).1))
      | Deletion => Ok (Some (Err (NotFound None)))
      | Unknown => Ok None
      end
    | _ => Ok None
    end
  else Ok None.

(** ** [MemTableIterator] *)
Record MemTableIterator : Type := mkMemIter { mi_iter : SklIter; mi_tmp : bytes }.

Definition mi_new (s : SkipList) : MemTableIterator := mkMemIter (si_new s) [].
Definition mi_lift (it : MemTableIterator) (r : outcome SklIter) : outcome MemTableIterator :=
  i ← r; Ok (mkMemIter i (mi_tmp it)).
Definition mi_valid (it : MemTableIterator) : bool := si_valid (mi_iter it).
Definition mi_seek (it : MemTableIterator) (target : bytes) : outcome MemTableIterator :=
  let tmp := put_varint_prefixed_slice 32 [] target in
  i ← si_seek (KeyComparator ucmp) (mi_iter it) tmp;
  Ok (mkMemIter i tmp).
Definition mi_key (it : MemTableIterator) : outcome bytes :=
  k ← si_key (mi_iter it); Ok (extract_varint32_encoded_slice k).1.
Definition mi_value (it : MemTableIterator) : outcome bytes :=
  k ← si_key (mi_iter it);
  Ok (extract_varint32_encoded_slice (extract_varint32_encoded_slice k).2).1.

Definition MemTableIterator_Iterator : Iterator MemTableIterator := {|
  it_valid := mi_valid;
  it_seek_to_first := λ it, mi_lift it (si_seek_to_first (mi_iter it));
  it_seek_to_last := λ it, mi_lift it (si_seek_to_last (mi_iter it));
  it_seek := mi_seek;
  it_next := λ it, mi_lift it (si_next (mi_iter it));
  it_prev := λ it, mi_lift it (si_prev (KeyComparator ucmp) (mi_iter it));
  it_key := mi_key;
  it_value := mi_value;
  it_status := λ it, (Ok tt, it);
|}.
End MemTable.

(** ** Records: what an entry stands for *)

Record mrec : Type := mkRec { r_user : bytes; r_seq : Z; r_type : ValueType; r_value : bytes }.

Definition rec_ikey (r : mrec) : bytes := ikey (r_user r) (r_seq r) (r_type r).
Definition rec_entry (r : mrec) : bytes := mem_entry (r_seq r) (r_type r) (r_user r) (r_value r).
Definition rec_kv (r : mrec) : entry := (rec_ikey r, r_value r).

Record rec_ok (uok : bytes → Prop) (r : mrec) : Prop := {
  ro_user : uok (r_user r);
  ro_seq : seq_ok (r_seq r);
  ro_type : r_type r ≠ Unknown;
  ro_ulen : len (r_user r) + 8 < 2 ^ 32;
  ro_vlen : len (r_value r) < 2 ^ 32;
}.

Lemma width_32 : is_width 32.
Proof. by left. Qed.

(** The encoding of the value: nothing at all when it is empty. *)
Definition value_bytes (v : bytes) : bytes := match v with [] => [] | _ => varint_bytes 32 (len v) ++ v end.

Lemma len_ikey u seq t : len (ikey u seq t) = len u + 8.
Proof. unfold len. rewrite length_ikey. lia. Qed.

Lemma rec_entry_eq uok r : rec_ok uok r →
  rec_entry r = varint_bytes 32 (len (rec_ikey r)) ++ rec_ikey r ++ value_bytes (r_value r).
Proof.
  intros [Hu [Hs0 Hs] Ht Hul Hvl]. unfold rec_entry, mem_entry, rec_ikey. rewrite len_ikey.
  pose proof (len_nonneg (r_user r)). unfold MAX_KEY_SEQUENCE in Hs.
  rewrite put_varint_eq, put_fixed_64_eq. change (Z.of_nat INTERNAL_KEY_TAIL) with 8.
  rewrite wrap_small by (unfold in_uint; lia).
  assert (Z.lor (wrap 64 (Z.shiftl (r_seq r) 8)) (value_type_code (r_type r)) =
    r_seq r * 256 + value_type_code (r_type r)) as ->.
  { rewrite Z.shiftl_mul_pow2 by lia. rewrite wrap_small by (unfold in_uint; lia).
    rewrite Z.lor_comm, lor_disjoint_add; [lia|lia|]. pose proof (value_type_code_range (r_type r)). lia. }
  unfold ikey. destruct (decide (r_value r = [])) as [Hv|Hv].
  - rewrite Hv. simpl. by rewrite app_nil_r, <- !app_assoc.
  - rewrite put_prefixed_eq by done. destruct (r_value r) as [|b v]; [done|]. unfold value_bytes.
    by rewrite <- !app_assoc.
Qed.

Lemma varint_nonempty n rest : varint_bytes 32 n ++ rest ≠ [].
Proof.
  intros [Hn _]%app_nil. pose proof (varint_bytes_len 32 n width_32) as Hl. rewrite Hn in Hl.
  change (len (@nil Z)) with 0 in Hl. lia.
Qed.

Lemma extract_prefixed k rest : len k < 2 ^ 32 →
  extract_varint32_encoded_slice (varint_bytes 32 (len k) ++ k ++ rest) = (k, rest).
Proof.
  intros Hk. unfold extract_varint32_encoded_slice.
  rewrite get_prefixed_bytes by (apply width_32 || done).
  destruct (varint_bytes 32 (len k) ++ k ++ rest) eqn:E; [by apply varint_nonempty in E|done].
Qed.
Lemma extract_value v : len v < 2 ^ 32 → (extract_varint32_encoded_slice (value_bytes v)).1 = v.
Proof.
  intros Hv. destruct v as [|b v]; [done|]. unfold value_bytes.
  rewrite <- (app_nil_r (b :: v)) at 2. by rewrite extract_prefixed.
Qed.

(** ** The order of entries *)
Section Order.
Context (ucmp : Comparator) (uok : bytes → Prop) (uord : bytes → bytes → comparison).
Context {CO : ComparatorOrder ucmp uok uord}.

Definition mkey (e : bytes) : bytes := (extract_varint32_encoded_slice e).1.
Definition mord (a b : bytes) : comparison := iord uord (mkey a) (mkey b).
(** An internal key with its length in front. *)
Definition mkey_ok (e : bytes) : Prop :=
  ∃ k rest, e = varint_bytes 32 (len k) ++ k ++ rest ∧ len k < 2 ^ 32 ∧ ikey_ok uok k.

Lemma mkey_prefixed k rest : len k < 2 ^ 32 → mkey (varint_bytes 32 (len k) ++ k ++ rest) = k.
Proof. intros. unfold mkey. by rewrite extract_prefixed. Qed.

#[export] Instance mem_order : ComparatorOrder (KeyComparator ucmp) mkey_ok mord.
Proof.
  split.
  - pose proof (iord_order uord) as KO. split; unfold mord; intros *; apply KO.
  - intros a b (ka & ra & -> & Hla & Hka) (kb & rb & -> & Hlb & Hkb). unfold mord.
    rewrite !mkey_prefixed by done. simpl. unfold kcmp_compare. rewrite !extract_prefixed by done. cbn [fst].
    rewrite !bool_decide_eq_false_2; [|intros ->; by destruct Hkb as [?%Nat.nle_succ_0 _]|
      intros ->; by destruct Hka as [?%Nat.nle_succ_0 _]].
    simpl. exact (@compare_ord (InternalKeyComparator ucmp) (ikey_ok uok) (iord uord) _ ka kb Hka Hkb).
Qed.

Lemma rec_key_ok r : rec_ok uok r → mkey_ok (rec_entry r) ∧ mkey (rec_entry r) = rec_ikey r ∧
  ikey_ok uok (rec_ikey r) ∧ len (rec_ikey r) < 2 ^ 32.
Proof.
  intros Hr. pose proof (rec_entry_eq uok r Hr) as He. destruct (Hr) as [Hu Hs Ht Hul Hvl].
  assert (len (rec_ikey r) < 2 ^ 32) as Hl by (unfold rec_ikey; by rewrite len_ikey).
  assert (ikey_ok uok (rec_ikey r)) as Hk.
  { split; unfold rec_ikey; [rewrite length_ikey; lia|by rewrite ukey_ikey]. }
  rewrite He. split_and!; [|by apply mkey_prefixed|done|done]. by exists (rec_ikey r), (value_bytes (r_value r)).
Qed.
End Order.

(** ** The memtable represents its records *)
Section Rep.
Context (ck : bool) (node_base : Z) (Hbase : 0 < node_base < 2 ^ 40).
Context (ucmp : Comparator) (uok : bytes → Prop) (uord : bytes → bytes → comparison).
Context {CO : ComparatorOrder ucmp uok uord}.
Notation inv := (skl_inv (mkey_ok uok) (mord uord)).

(** [l]: the records in the order of the list. *)
Definition mem_rep (s : SkipList) (l : list mrec) : Prop :=
  ∃ ps, inv s ps ∧ kof s <$> ps = rec_entry <$> l ∧ Forall (rec_ok uok) l.

Definition rec_cmp (a b : mrec) : comparison := iord uord (rec_ikey a) (rec_ikey b).

Lemma mord_rec a b : rec_ok uok a → rec_ok uok b → mord uord (rec_entry a) (rec_entry b) = rec_cmp a b.
Proof.
  intros Ha Hb. unfold mord. destruct (rec_key_ok uok a Ha) as (_ & -> & _).
  by destruct (rec_key_ok uok b Hb) as (_ & -> & _).
Qed.

Lemma rec_cmp_eq a b : rec_ok uok a → rec_ok uok b →
  rec_cmp a b = Eq → uord (r_user a) (r_user b) = Eq ∧ r_seq a = r_seq b.
Proof.
  intros Ha Hb. unfold rec_cmp, iord, rec_ikey. rewrite !ukey_ikey, !kseq_ikey by (apply Ha || apply Hb).
  destruct (uord _ _) eqn:Hu; [|done..]. intros Hc%Z.compare_eq. by split.
Qed.

Lemma mem_lookup s (ps : list Z) (l : list mrec) (i : nat) : kof s <$> ps = rec_entry <$> l →
  match ps !! i, l !! i with
  | Some p, Some r => kof s p = rec_entry r
  | None, None => True
  | _, _ => False
  end.
Proof.
  intros Heq. apply (f_equal (.!! i)) in Heq. rewrite !list_lookup_fmap in Heq.
  destruct (ps !! i), (l !! i); try done. exact (Some_inj _ _ Heq).
Qed.

Lemma mem_new_rep cap : 8 * (cap / 8) < 2 ^ 62 → 1 + node_base + 160 + 7 ≤ cap / 8 * 8 →
  ∃ s, mem_new ck node_base cap = Ok s ∧ mem_rep s [] ∧
    sl_arena s = mkArena (1 + node_base + 160 + 7) (cap / 8 * 8) ∧ sl_size s = 0.
Proof.
  intros H1 H2. destruct (skl_new_ok ck node_base Hbase (mkey_ok uok) (mord uord) cap H1 H2) as (s & ? & ? & ? & ?).
  exists s. split_and!; [done| |done|done]. by exists [].
Qed.

(** A list of records splits at a new one. *)
Lemma split_records s ps l r :
  inv s ps → kof s <$> ps = rec_entry <$> l → Forall (rec_ok uok) l → rec_ok uok r →
  (∀ r', r' ∈ l → rec_cmp r' r ≠ Eq) →
  ∃ n, (∀ p, p ∈ take n ps → mord uord (kof s p) (rec_entry r) = Lt) ∧
       (∀ p, p ∈ drop n ps → mord uord (rec_entry r) (kof s p) = Lt).
Proof.
  intros INV Heq Hl Hr Hne. rewrite Forall_forall in Hl.
  set (i := fst <$> list_find (λ p, mord uord (kof s p) (rec_entry r) ≠ Lt) ps).
  destruct (partition_at (KeyComparator ucmp) (mkey_ok uok) (mord uord) s ps (rec_entry r) i INV) as (_ & HA & HB & _).
  { unfold i. destruct (list_find _ ps) as [[j p]|] eqn:Hf; simpl.
    - apply list_find_Some in Hf as (Hj & Hge & Hlt). exists p. split_and!; [done..|].
      intros j' q Hj' Hq. specialize (Hlt _ _ Hq Hj'). destruct (decide (mord uord (kof s q) (rec_entry r) = Lt)); tauto.
    - apply list_find_None in Hf. rewrite Forall_lookup in Hf. intros j q Hq. specialize (Hf _ _ Hq).
      destruct (decide (mord uord (kof s q) (rec_entry r) = Lt)); tauto. }
  exists (default (length ps) i). split; [done|]. intros p Hp. specialize (HB p Hp).
  assert (p ∈ ps) as Hin by (by eapply subseteq_drop). apply list_elem_of_lookup_1 in Hin as [j Hj].
  pose proof (mem_lookup s ps l j Heq) as Hlk. rewrite Hj in Hlk. destruct (l !! j) as [r'|] eqn:Hr'; [|done].
  apply list_elem_of_lookup_2 in Hr'. rewrite Hlk in *. rewrite mord_rec in HB |- * by auto.
  specialize (Hne r' Hr'). unfold rec_cmp in *.
  apply (ord_gt_lt (iord uord)). by destruct (iord uord (rec_ikey r') (rec_ikey r)).
Qed.

Lemma mem_add_rep s l r height :
  mem_rep s l → rec_ok uok r → (∀ r', r' ∈ l → rec_cmp r' r ≠ Eq) →
  (1 ≤ height ≤ MAX_HEIGHT)%nat → room node_base s height →
  ∃ s' l', mem_add ck node_base ucmp height (r_seq r) (r_type r) (r_user r) (r_value r) s = (Ok tt, s') ∧
    mem_rep s' l' ∧ l' ≡ₚ r :: l ∧
    sl_arena s' = mkArena (ar_len (sl_arena s) + node_base + 8 * Z.of_nat height + 7) (ar_cap (sl_arena s)) ∧
    sl_size s' = wrap 64 (sl_size s + len (rec_entry r)).
Proof.
  intros (ps & INV & Heq & Hl) Hr Hne Hh Hroom.
  destruct (split_records s ps l r INV Heq Hl Hr Hne) as (n & HA & HB).
  destruct (skl_put_ok ck node_base Hbase (KeyComparator ucmp) (mkey_ok uok) (mord uord) s ps (take n ps) (drop n ps)
    (rec_entry r) height INV) as (s' & np & Hput & INV' & Hnp & Hold & Har & Hsz); try done.
  { by rewrite take_drop. } { by apply rec_key_ok. }
  exists s', (take n l ++ r :: drop n l). split_and!; [exact Hput| | |done|done].
  - exists (take n ps ++ np :: drop n ps). split_and!; [done| |].
    + rewrite !fmap_app, !fmap_cons, Hnp.
      assert (kof s' <$> ps = rec_entry <$> l) as Heq'.
      { rewrite <- Heq. apply list_fmap_ext. intros i p Hp. apply Hold. by eapply list_elem_of_lookup_2. }
      by rewrite !fmap_take, !fmap_drop, Heq'.
    + rewrite Forall_app, Forall_cons. split_and!; [by apply Forall_take|done|by apply Forall_drop].
  - rewrite <- Permutation_middle. by rewrite take_drop.
Qed.

Lemma mem_len_rep s l : mem_rep s l → mem_len s = Ok (length l).
Proof.
  clear Hbase. intros (ps & INV & Heq & _). unfold mem_len. rewrite (skl_len_ok _ _ s ps INV). f_equal.
  apply (f_equal length) in Heq. by rewrite !length_fmap in Heq.
Qed.

(** *** Lookups *)

Definition visible (u : bytes) (seq : Z) (r : mrec) : Prop := uord (r_user r) u = Eq ∧ r_seq r ≤ seq.

(** What a lookup answers from the record it found. *)
Definition answer (r : mrec) : outcome bytes :=
  match r_type r with Value => Ok (r_value r) | _ => Err (NotFound None) end.

Lemma not_below u seq r : rec_ok uok r → seq_ok seq →
  iord uord (rec_ikey r) (ikey u seq Value) ≠ Lt ↔ uord (r_user r) u = Gt ∨ visible u seq r.
Proof.
  clear Hbase. intros Hr Hs. unfold iord, visible, rec_ikey. rewrite !ukey_ikey, !kseq_ikey by (done || apply Hr).
  destruct (uord (r_user r) u); rewrite ?Z.compare_lt_iff; split; intros; try naive_solver lia.
Qed.

Lemma rec_sorted s ps l i j a b : inv s ps → kof s <$> ps = rec_entry <$> l → Forall (rec_ok uok) l →
  (i < j)%nat → l !! i = Some a → l !! j = Some b → rec_cmp a b = Lt.
Proof.
  intros INV Heq Hl Hij Ha Hb. pose proof (mem_lookup s ps l i Heq) as Hi. pose proof (mem_lookup s ps l j Heq) as Hj.
  rewrite Ha in Hi. rewrite Hb in Hj. destruct (ps !! i) as [p|] eqn:Hp; [|done]. destruct (ps !! j) as [q|] eqn:Hq; [|done].
  rewrite <- mord_rec by (by eapply Forall_lookup_1). rewrite <- Hi, <- Hj. by eapply (sk_sorted _ _ _ _ INV i j).
Qed.

Lemma mem_get_rep s l u seq k : mem_rep s l → uok u → seq_ok seq → len u + 8 < 2 ^ 32 →
  lookup_key_new u seq = Ok k →
  ∃ res, mem_get ucmp s k = Ok res ∧
    match res with
    | Some x => ∃ r, r ∈ l ∧ visible u seq r ∧ (∀ r', r' ∈ l → visible u seq r' → r_seq r' ≤ r_seq r) ∧ x = answer r
    | None => ∀ r, r ∈ l → ¬ visible u seq r
    end.
Proof.
  clear Hbase. intros (ps & INV & Heq & Hl) Hu Hs Hul Hk. destruct (lookup_key_parts u seq k Hs Hul Hk) as [_ Huk].
  rewrite lookup_key_new_eq in Hk by done. injection Hk as <-. unfold mem_get. rewrite Huk.
  cbn [lk_mem_key lk_data]. set (target := ikey u seq Value) in *.
  assert (len target = len u + 8) as Hlt by apply len_ikey.
  set (mk := varint_bytes 32 (len target) ++ target ++ []).
  assert (varint_bytes 32 (len u + 8) ++ target = mk) as -> by (unfold mk; by rewrite Hlt, app_nil_r).
  assert (mkey_ok uok mk ∧ mkey mk = target) as [Hmk Hmkey].
  { split; [|by apply mkey_prefixed; lia]. exists target, []. split_and!; [done|lia|].
    split; [unfold target; rewrite length_ikey; lia|]. unfold target. by rewrite ukey_ikey. }
  set (i := fst <$> list_find (λ r, iord uord (rec_ikey r) target ≠ Lt) l).
  assert (∀ r, r ∈ l → mord uord (rec_entry r) mk = iord uord (rec_ikey r) target) as Hord.
  { intros r Hr. unfold mord. rewrite Hmkey. rewrite Forall_forall in Hl. by destruct (rec_key_ok uok r (Hl r Hr)) as (_ & -> & _). }
  destruct (si_seek_ok (KeyComparator ucmp) (mkey_ok uok) (mord uord) (si_new s) (rec_entry <$> l) None mk i)
    as (it & -> & Hat); [by exists ps|done| |].
  { unfold i. destruct (list_find _ l) as [[j r]|] eqn:Hf; simpl.
    - apply list_find_Some in Hf as (Hj & Hge & Hbefore). exists (rec_entry r).
      rewrite list_lookup_fmap, Hj. split_and!; [done|rewrite Hord; [done|by eapply list_elem_of_lookup_2]|].
      intros j' k' Hj' (r' & -> & Hr')%list_lookup_fmap_Some. rewrite Hord by (by eapply list_elem_of_lookup_2).
      specialize (Hbefore _ _ Hr' Hj'). destruct (decide (iord uord (rec_ikey r') target = Lt)); tauto.
    - apply list_find_None in Hf. rewrite Forall_lookup in Hf. intros j k' (r' & -> & Hr')%list_lookup_fmap_Some.
      rewrite Hord by (by eapply list_elem_of_lookup_2). specialize (Hf _ _ Hr').
      destruct (decide (iord uord (rec_ikey r') target = Lt)); tauto. }
  rewrite Ok_bind, (si_valid_ok _ _ _ _ _ Hat). unfold i in *.
  destruct (list_find _ l) as [[j r]|] eqn:Hf; simpl in Hat |- *.
  2: { exists None. split; [done|]. intros r Hr Hv. apply list_find_None in Hf. rewrite Forall_forall in Hf, Hl.
       apply (Hf r Hr). apply not_below; auto. }
  apply list_find_Some in Hf as (Hj & Hge & Hbefore). pose proof (Forall_lookup_1 _ _ _ _ Hl Hj) as Hr.
  destruct (si_key_ok _ _ it _ j (rec_entry r) Hat) as [-> _]; [by rewrite list_lookup_fmap, Hj|].
  rewrite Ok_bind, (rec_entry_eq uok r Hr).
  destruct (rec_key_ok uok r Hr) as (_ & _ & Hik & Hikl). rewrite extract_prefixed by done.
  assert (length (rec_ikey r) = length (r_user r) + 8)%nat as Hlik by apply length_ikey.
  unfold INTERNAL_KEY_TAIL. rewrite (proj2 (Nat.ltb_ge _ _)) by lia.
  change (take (length (rec_ikey r) - 8) (rec_ikey r)) with (ukey (rec_ikey r)).
  assert (ukey (rec_ikey r) = r_user r) as -> by apply ukey_ikey.
  rewrite (@compare_ord ucmp uok uord CO) by (done || apply Hr). rewrite Ok_bind.
  change (decode_fixed_64 (drop (length (rec_ikey r) - 8) (rec_ikey r))) with (ktag (rec_ikey r)).
  assert (value_type_from (Z.land (ktag (rec_ikey r)) 255) = r_type r) as ->.
  { unfold rec_ikey. rewrite ktag_ikey by apply Hr. change 255 with (2 ^ 8 - 1). rewrite land_pow2_mod by lia.
    pose proof (value_type_code_range (r_type r)). change (2 ^ 8) with 256.
    rewrite Z.add_comm, Z.mod_add, Z.mod_small by lia. apply value_type_from_code. }
  apply not_below in Hge; [|done|done].
  assert (∀ r', r' ∈ l → visible u seq r' → ∃ j', l !! j' = Some r' ∧ (j ≤ j')%nat) as Hafter.
  { intros r' [j' Hj']%list_elem_of_lookup_1 Hv. exists j'. split; [done|].
    destruct (decide (j' < j)%nat) as [Hlt'|]; [|lia]. exfalso. apply (Hbefore _ _ Hj' Hlt').
    apply not_below; [by eapply Forall_lookup_1|done|by right]. }
  destruct (uord (r_user r) u) eqn:Hc.
  - assert (visible u seq r) as Hv by (destruct Hge as [Hge|[? ?]]; [done|by split]).
    exists (Some (answer r)). split.
    + unfold answer. pose proof (ro_type _ _ Hr) as Ht. destruct (r_type r); [done| |done].
      by rewrite extract_value by apply Hr.
    + exists r. split_and!; [by eapply list_elem_of_lookup_2|done| |done].
      intros r' Hr' Hv'. destruct (Hafter r' Hr' Hv') as (j' & Hj' & Hle).
      destruct (decide (j = j')) as [->|Hne]; [rewrite Hj in Hj'; by injection Hj' as ->|].
      pose proof (rec_sorted s ps l j j' r r' INV Heq Hl ltac:(lia) Hj Hj') as Hlt'.
      unfold rec_cmp, iord, rec_ikey in Hlt'. pose proof (Forall_lookup_1 _ _ _ _ Hl Hj') as Hr''.
      rewrite !ukey_ikey, !kseq_ikey in Hlt' by (apply Hr || apply Hr'').
      destruct Hv' as [Hu' _]. apply (ord_eq_sym uord) in Hu'.
      rewrite <- (ord_eq_r uord _ _ _ Hu'), Hc in Hlt'. rewrite Z.compare_lt_iff in Hlt'. lia.
  - exfalso. destruct Hge as [|[? ?]]; congruence.
  - exists None. split; [done|]. intros r' Hr' Hv'. destruct (Hafter r' Hr' Hv') as (j' & Hj' & Hle).
    destruct (decide (j = j')) as [->|Hne]; [rewrite Hj in Hj'; injection Hj' as ->; by destruct Hv' as [? _]; congruence|].
    pose proof (rec_sorted s ps l j j' r r' INV Heq Hl ltac:(lia) Hj Hj') as Hlt'.
    unfold rec_cmp, iord, rec_ikey in Hlt'. rewrite !ukey_ikey in Hlt'.
    destruct Hv' as [Hu' _]. rewrite <- (ord_eq_r uord _ _ _ (ord_eq_sym uord _ _ Hu')), Hc in Hlt'. done.
Qed.
End Rep.

(** ** The iterator satisfies the interface *)
Section IterRep.
Context (ucmp : Comparator) (uok : bytes → Prop) (uord : bytes → bytes → comparison).
Context {CO : ComparatorOrder ucmp uok uord}.
#[local] Existing Instance MemTableIterator_Iterator.

Definition mem_iter_rep (it : MemTableIterator) (es : list entry) (p : option nat) : Prop :=
  ∃ l, es = rec_kv <$> l ∧ Forall (rec_ok uok) l ∧
    skl_at (mkey_ok uok) (mord uord) (mi_iter it) (rec_entry <$> l) p.

(** The targets one may seek. *)
Definition mem_target_ok (k : bytes) : Prop := ikey_ok uok k ∧ len k < 2 ^ 32.

Lemma pos_decide (l : list entry) : (if decide (0 < length l)%nat then Some 0%nat else None) = first_pos l.
Proof. by destruct l. Qed.
Lemma last_decide (l : list entry) :
  (if decide (0 < length l)%nat then Some (length l - 1)%nat else None) = last_pos l.
Proof. by destruct l. Qed.

Lemma mi_key_rep it l i r : Forall (rec_ok uok) l →
  skl_at (mkey_ok uok) (mord uord) (mi_iter it) (rec_entry <$> l) (Some i) → l !! i = Some r →
  mi_key it = Ok (rec_ikey r) ∧ mi_value it = Ok (r_value r).
Proof.
  intros Hl Hat Hi. pose proof (Forall_lookup_1 _ _ _ _ Hl Hi) as Hr.
  destruct (si_key_ok _ _ (mi_iter it) _ i (rec_entry r) Hat) as [Hk _]; [by rewrite list_lookup_fmap, Hi|].
  unfold mi_key, mi_value. rewrite Hk, !Ok_bind, (rec_entry_eq uok r Hr).
  destruct (rec_key_ok uok r Hr) as (_ & _ & _ & Hl32). rewrite extract_prefixed by done. cbn [fst snd].
  by rewrite extract_value by apply Hr.
Qed.

#[export] Instance mem_fwd :
  @FwdLaws _ (MemTableIterator_Iterator ucmp) (iord uord) mem_target_ok mem_iter_rep.
Proof.
  split; simpl.
  - intros it es i (l & -> & Hl & (ps & INV & Heq & Hn & Hi)). rewrite length_fmap.
    apply (f_equal length) in Heq. rewrite !length_fmap in Heq. lia.
  - intros it es p (l & -> & Hl & Hat). exact (si_valid_ok _ _ _ _ _ Hat).
  - intros it es p (l & -> & Hl & Hat). destruct (si_first_ok _ _ _ _ _ Hat) as (i & -> & Hat'). simpl.
    eexists. split; [done|]. exists l. split_and!; [done..|]. rewrite <- pos_decide, length_fmap. by rewrite length_fmap in Hat'.
  - intros it es p t (l & -> & Hl & Hat) [Ht Htl]. unfold mi_seek.
    assert (t ≠ []) as Hne by (intros ->; by destruct Ht as [?%Nat.nle_succ_0 _]).
    set (mk := varint_bytes 32 (len t) ++ t ++ []).
    assert (put_varint_prefixed_slice 32 [] t = mk) as ->.
    { rewrite put_prefixed_eq by done. unfold mk. by rewrite app_nil_r. }
    assert (mkey_ok uok mk ∧ mkey mk = t) as [Hmk Hmkey].
    { split; [|by apply mkey_prefixed]. by exists t, []. }
    assert (∀ r, r ∈ l → mord uord (rec_entry r) mk = iord uord (rec_ikey r) t) as Hord.
    { intros r Hr. unfold mord. rewrite Hmkey. rewrite Forall_forall in Hl.
      by destruct (rec_key_ok uok r (Hl r Hr)) as (_ & -> & _). }
    destruct (si_seek_ok (KeyComparator ucmp) _ _ _ _ _ mk (seek_pos (iord uord) (rec_kv <$> l) t) Hat Hmk)
      as (i & Hsk & Hat').
    { destruct (seek_pos (iord uord) (rec_kv <$> l) t) as [j|] eqn:Hsp.
      - apply seek_pos_Some in Hsp as [(e & (r & -> & Hr)%list_lookup_fmap_Some & Hge) Hlt].
        exists (rec_entry r). rewrite list_lookup_fmap, Hr.
        split_and!; [done|by rewrite Hord by (by eapply list_elem_of_lookup_2)|].
        intros j' k' Hj' (r' & -> & Hr')%list_lookup_fmap_Some. rewrite Hord by (by eapply list_elem_of_lookup_2).
        apply (Hlt j' (rec_kv r')); [done|]. by rewrite list_lookup_fmap, Hr'.
      - intros j k' (r' & -> & Hr')%list_lookup_fmap_Some. rewrite Hord by (by eapply list_elem_of_lookup_2).
        apply (proj1 (seek_pos_None _ _ _) Hsp j (rec_kv r')). by rewrite list_lookup_fmap, Hr'. }
    rewrite Hsk, Ok_bind. eexists. split; [done|]. by exists l.
  - intros it es i (l & -> & Hl & Hat). destruct (si_next_ok _ _ _ _ _ Hat) as (it' & -> & Hat'). simpl.
    eexists. split; [done|]. exists l. split_and!; [done..|]. unfold next_pos. rewrite length_fmap in Hat'. by rewrite length_fmap.
  - intros it es i e (l & -> & Hl & Hat) (r & -> & Hr)%list_lookup_fmap_Some. by destruct (mi_key_rep it l i r Hl Hat Hr).
  - intros it es i e (l & -> & Hl & Hat) (r & -> & Hr)%list_lookup_fmap_Some. by destruct (mi_key_rep it l i r Hl Hat Hr).
  - intros it es p Hr. eauto.
Qed.

#[export] Instance mem_bwd : @BwdLaws _ (MemTableIterator_Iterator ucmp) mem_iter_rep.
Proof.
  split; simpl.
  - intros it es p (l & -> & Hl & Hat). destruct (si_last_ok _ _ _ _ _ Hat) as (i & -> & Hat'). simpl.
    eexists. split; [done|]. exists l. split_and!; [done..|]. rewrite <- last_decide, length_fmap. by rewrite length_fmap in Hat'.
  - intros it es i (l & -> & Hl & Hat). destruct (si_prev_ok (KeyComparator ucmp) _ _ _ _ _ Hat) as (it' & -> & Hat'). simpl.
    eexists. split; [done|]. by exists l.
Qed.
End IterRep.

(** ** Theorems *)

(** [add] for every record, each with the height its node was given. *)
Fixpoint mem_add_all (ck : bool) (node_base : Z) (ucmp : Comparator) (rs : list (nat * mrec)) (s : SkipList)
    : outcome unit * SkipList :=
  match rs with
  | [] => (Ok tt, s)
  | (h, r) :: rs =>
    match mem_add ck node_base ucmp h (r_seq r) (r_type r) (r_user r) (r_value r) s with
    | (Ok _, s) => mem_add_all ck node_base ucmp rs s
    | r => r
    end
  end.

Section Theorems.
Context (ck : bool) (node_base : Z).
Context (ucmp : Comparator) (uok : bytes → Prop) (uord : bytes → bytes → comparison).
Context {CO : ComparatorOrder ucmp uok uord}.

(** Records with the same user key have different sequence numbers. *)
Definition distinct (rs : list mrec) : Prop :=
  ∀ i j a b, (i < j)%nat → rs !! i = Some a → rs !! j = Some b → uord (r_user a) (r_user b) = Eq → r_seq a ≠ r_seq b.

(** What is asked of the records and of the size of the memtable. *)
Record adds_ok (cap : Z) (rs : list (nat * mrec)) : Prop := {
  ao_base : 0 < node_base < 2 ^ 40;
  ao_cap : 8 * (cap / 8) < 2 ^ 62;
  ao_room : 1 + (node_base + 167) * (1 + len rs) ≤ cap / 8 * 8;
  ao_heights : Forall (λ hr, (1 ≤ hr.1 ≤ MAX_HEIGHT)%nat) rs;
  ao_recs : Forall (λ hr, rec_ok uok hr.2) rs;
  ao_distinct : distinct rs.*2;
}.

(** There is room for [n] more records. *)
Definition mem_room (n : Z) (s : SkipList) : Prop :=
  1 ≤ ar_len (sl_arena s) ∧ ar_cap (sl_arena s) < 2 ^ 62 ∧
  ar_len (sl_arena s) + (node_base + 167) * n ≤ ar_cap (sl_arena s).

(** The bytes of the keys and values stay far from the width when [n] more records
    are added. *)
Definition mem_sized (n : Z) (s : SkipList) : Prop := 0 ≤ sl_size s ∧ sl_size s + 2 ^ 34 * n ≤ 2 ^ 63.

Lemma rec_entry_size r : rec_ok uok r → 0 ≤ len (rec_entry r) ≤ 2 ^ 34.
Proof.
  intros Hr. split; [apply len_nonneg|]. rewrite (rec_entry_eq uok r Hr), !len_app. unfold rec_ikey at 2. rewrite len_ikey.
  destruct Hr as [_ _ _ Hu Hv]. pose proof (varint_bytes_len 32 (len (rec_ikey r)) width_32) as H1. change (max_bytes 32) with 5 in H1.
  assert (len (value_bytes (r_value r)) ≤ 5 + len (r_value r)); [|lia]. unfold value_bytes. destruct (r_value r) as [|b v] eqn:E; [unfold len; simpl; lia|].
  rewrite len_app. pose proof (varint_bytes_len 32 (len (b :: v)) width_32) as H2. change (max_bytes 32) with 5 in H2. lia.
Qed.

Lemma mem_add_all_rep s l rs n :
  0 < node_base < 2 ^ 40 → mem_rep uok uord s l → Forall (λ hr, (1 ≤ hr.1 ≤ MAX_HEIGHT)%nat) rs →
  Forall (λ hr, rec_ok uok hr.2) rs → distinct (rs.*2) →
  (∀ a b, a ∈ l → b ∈ rs.*2 → uord (r_user a) (r_user b) = Eq → r_seq a ≠ r_seq b) →
  0 ≤ n → mem_room (len rs + n) s →
  ∃ s' l', mem_add_all ck node_base ucmp rs s = (Ok tt, s') ∧ mem_rep uok uord s' l' ∧ l' ≡ₚ rs.*2 ++ l ∧ mem_room n s' ∧
    ∀ m, 0 ≤ m → mem_sized (len rs + m) s → mem_sized m s'.
Proof.
  intros Hbase. revert s l. induction rs as [|[h r] rs IH]; intros s l Hrep Hh Hok Hd Hx Hn (H1 & H2 & H3); [by exists s, l|].
  inversion Hh as [|?? Hh1 Hhs]; subst. inversion Hok as [|?? Hr Hrs]; subst. cbn [fst snd] in *. cbn [mem_add_all].
  rewrite len_cons in H3. pose proof (len_nonneg rs). unfold MAX_HEIGHT in Hh1.
  destruct (mem_add_rep ck node_base Hbase ucmp uok uord s l r h Hrep Hr) as (s1 & l1 & -> & Hrep1 & Hp1 & Ha1 & Hz1); [|done| |].
  { intros r' Hr' Hc. destruct Hrep as (ps & _ & _ & Hl). rewrite Forall_forall in Hl.
    apply (rec_cmp_eq uok uord) in Hc as [? ?]; [|by apply Hl|done]. apply (Hx r' r); [done|left|done|done]. }
  { split; [split_and!; nia|nia]. }
  destruct (IH s1 l1 Hrep1 Hhs Hrs) as (s2 & l2 & Hadd & Hrep2 & Hp2 & Hroom2 & Hsz2).
  - intros i j a b Hij Ha Hb. apply (Hd (S i) (S j)); [lia|done|done].
  - intros a b Ha Hb Hu. rewrite Hp1 in Ha. apply elem_of_cons in Ha as [->|Ha].
    + apply list_elem_of_lookup_1 in Hb as [j Hj]. apply (Hd 0%nat (S j)); [lia|done..].
    + apply (Hx a b); [done|by right|done].
  - done.
  - unfold mem_room. rewrite Ha1. cbn [ar_len ar_cap]. split_and!; nia.
  - exists s2, l2. split_and!; [done..| |done|].
    + rewrite Hp2, Hp1. simpl. by rewrite <- Permutation_middle.
    + intros m Hm [Hz0 Hz]. apply Hsz2; [done|]. rewrite len_cons in Hz. pose proof (rec_entry_size r Hr). unfold mem_sized. rewrite Hz1.
      rewrite wrap_small by (unfold in_uint; lia). split; lia.
Qed.

Lemma mem_new_room cap n : 0 < node_base < 2 ^ 40 → 8 * (cap / 8) < 2 ^ 62 → 0 ≤ n → 1 + (node_base + 167) * (1 + n) ≤ cap / 8 * 8 →
  ∃ s, mem_new ck node_base cap = Ok s ∧ mem_rep uok uord s [] ∧ mem_room n s ∧ sl_size s = 0.
Proof.
  intros Hbase Hcap Hn Hroom. destruct (mem_new_rep ck node_base Hbase uok uord cap Hcap) as (s & Hnew & Hrep & Ha & Hz); [nia|].
  exists s. split_and!; [done..| |done]. unfold mem_room. rewrite Ha. cbn [ar_len ar_cap]. split_and!; nia.
Qed.

Lemma mem_build cap rs : adds_ok cap rs →
  ∃ s0 s l, mem_new ck node_base cap = Ok s0 ∧ mem_add_all ck node_base ucmp rs s0 = (Ok tt, s) ∧
    mem_rep uok uord s l ∧ l ≡ₚ rs.*2.
Proof.
  intros [Hbase Hcap Hroom Hh Hok Hd]. pose proof (len_nonneg rs).
  destruct (mem_new_room cap (len rs) Hbase Hcap) as (s0 & Hnew & Hrep & Hr & _); [done..|].
  destruct (mem_add_all_rep s0 [] rs 0 Hbase Hrep Hh Hok Hd) as (s & l & Hadd & Hrep' & Hp & _ & _);
    [intros a b Ha'; by apply elem_of_nil in Ha'|done|by rewrite Z.add_0_r|].
  exists s0, s, l. rewrite app_nil_r in Hp. done.
Qed.

(** C12: lookups in the memtable are multi-version reads.  Whatever records were added,
    in any order and with any node heights, a lookup of a user key at a sequence
    number answers from the newest record of that key that is not newer than the
    sequence number: its value, or [NotFound] for a deletion; it answers [None]
    exactly when there is no such record. *)
Theorem mem_get_newest (cap : Z) (rs : list (nat * mrec)) (u : bytes) (seq : Z) :
  adds_ok cap rs → uok u → seq_ok seq → len u + 8 < 2 ^ 32 →
  ∃ s0 s k res, mem_new ck node_base cap = Ok s0 ∧ mem_add_all ck node_base ucmp rs s0 = (Ok tt, s) ∧
    lookup_key_new u seq = Ok k ∧ mem_get ucmp s k = Ok res ∧
    match res with
    | Some x => ∃ r, r ∈ rs.*2 ∧ visible uord u seq r ∧
        (∀ r', r' ∈ rs.*2 → visible uord u seq r' → r_seq r' ≤ r_seq r) ∧ x = answer r
    | None => ∀ r, r ∈ rs.*2 → ¬ visible uord u seq r
    end.
Proof.
  intros Hok Hu Hs Hul. destruct (mem_build cap rs Hok) as (s0 & s & l & Hnew & Hadd & Hrep & Hp).
  destruct (mem_get_rep ucmp uok uord s l u seq _ Hrep Hu Hs Hul (lookup_key_new_eq u seq Hs Hul)) as (res & Hget & Hres).
  eexists s0, s, _, res. split_and!; [done|done|by apply lookup_key_new_eq|exact Hget|].
  - destruct res as [x|].
    + destruct Hres as (r & Hr & Hv & Hmax & ->). exists r. rewrite <- Hp. split_and!; [done..| |done].
      intros r' Hr'. apply Hmax. by rewrite Hp.
    + intros r Hr. apply Hres. by rewrite Hp.
Qed.

(** The memtable iterator yields every record, in order.  Whatever records were
    added, in any order and with any node heights, walking the iterator forward
    yields the (internal key, value) pairs of exactly these records, sorted by
    internal key, and walking it backward yields the reverse. *)
Theorem mem_iterates (cap : Z) (rs : list (nat * mrec)) :
  adds_ok cap rs →
  ∃ s0 s l, mem_new ck node_base cap = Ok s0 ∧ mem_add_all ck node_base ucmp rs s0 = (Ok tt, s) ∧
    l ≡ₚ rs.*2 ∧ sorted (iord uord) (rec_kv <$> l) ∧
    let IT := MemTableIterator_Iterator ucmp in
    (∃ it, it_seek_to_first (mi_new s) = Ok it ∧ collect (length l) it = Ok (rec_kv <$> l)) ∧
    (∃ it, it_seek_to_last (mi_new s) = Ok it ∧ collect_back (length l) it = Ok (reverse (rec_kv <$> l))).
Proof.
  intros Hok. destruct (mem_build cap rs Hok) as (s0 & s & l & Hnew & Hadd & Hrep & Hp).
  exists s0, s, l. split_and!; [done..| |]; destruct Hrep as (ps & INV & Heq & Hl); [|cbv zeta; split].
  - intros i j a b Hij (ra & -> & Ha)%list_lookup_fmap_Some (rb & -> & Hb)%list_lookup_fmap_Some.
    exact (rec_sorted uok uord s ps l i j ra rb INV Heq Hl Hij Ha Hb).
  - assert (mem_iter_rep uok uord (mi_new s) (rec_kv <$> l) None) as Hr by (exists l; split_and!; [done..|by exists ps]).
    destruct (rep_seek_to_first (IT := MemTableIterator_Iterator ucmp) (iord uord) (mem_target_ok uok) _ _ _ Hr) as (it & Hit & Hr1).
    exists it. split; [done|]. assert (rest_from (rec_kv <$> l) (first_pos (rec_kv <$> l)) = rec_kv <$> l) as Hes by by destruct l.
    rewrite (collect_rep (IT := MemTableIterator_Iterator ucmp) (iord uord) (mem_target_ok uok) _ (length l) _ _ _ Hr1);
      rewrite Hes; [done|by rewrite length_fmap].
  - assert (mem_iter_rep uok uord (mi_new s) (rec_kv <$> l) None) as Hr by (exists l; split_and!; [done..|by exists ps]).
    destruct (rep_seek_to_last (IT := MemTableIterator_Iterator ucmp) _ _ _ Hr) as (it & Hit & Hr1).
    exists it. split; [done|].
    assert (rest_back (rec_kv <$> l) (last_pos (rec_kv <$> l)) = reverse (rec_kv <$> l)) as Hes.
    { destruct (rec_kv <$> l) as [|e l']; [done|]. unfold last_pos, rest_back. rewrite take_ge; [done|simpl; lia]. }
    rewrite (collect_back_rep (IT := MemTableIterator_Iterator ucmp) (iord uord) (mem_target_ok uok) _ (length l) _ _ _ Hr1);
      rewrite Hes; [done|by rewrite length_reverse, length_fmap].
Qed.
End Theorems.

(** *** Witnesses *)
Definition demo_recs : list (nat * mrec) :=
  [(1%nat, mkRec [98] 2 Value [1]); (3%nat, mkRec [102] 4 Value [4; 4]); (2%nat, mkRec [102] 3 Deletion []);
   (20%nat, mkRec [102] 2 Value [])].

Lemma demo_adds_ok : adds_ok 40 bytes_ok lex_compare 8192 demo_recs.
Proof.
  split.
  - lia.
  - vm_compute. reflexivity.
  - vm_compute. discriminate.
  - repeat constructor; simpl; unfold MAX_HEIGHT; lia.
  - repeat constructor; done.
  - assert (∀ i j : nat, (i < 4)%nat → (j < 4)%nat → (i < j)%nat →
      match (demo_recs.*2) !! i, (demo_recs.*2) !! j with
      | Some a, Some b => lex_compare (r_user a) (r_user b) = Eq → r_seq a ≠ r_seq b
      | _, _ => True
      end) as H.
    { intros i j Hi Hj Hij. destruct i as [|[|[|[|]]]], j as [|[|[|[|]]]]; simpl; try lia; done. }
    intros i j a b Hij Ha Hb Hu. apply lookup_lt_Some in Ha as Hi. apply lookup_lt_Some in Hb as Hj.
    specialize (H i j Hi Hj Hij). rewrite Ha, Hb in H. by apply H.
Qed.

Lemma mem_get_newest_witness :
  ∃ s0 s k res, mem_new true 40 8192 = Ok s0 ∧ mem_add_all true 40 bytewise demo_recs s0 = (Ok tt, s) ∧
    lookup_key_new [102] 3 = Ok k ∧ mem_get bytewise s k = Ok res ∧
    match res with
    | Some x => ∃ r, r ∈ demo_recs.*2 ∧ visible lex_compare [102] 3 r ∧
        (∀ r', r' ∈ demo_recs.*2 → visible lex_compare [102] 3 r' → r_seq r' ≤ r_seq r) ∧ x = answer r
    | None => ∀ r, r ∈ demo_recs.*2 → ¬ visible lex_compare [102] 3 r
    end.
Proof.
  apply (mem_get_newest true 40 bytewise bytes_ok lex_compare 8192 demo_recs [102] 3 demo_adds_ok).
  - apply (bool_decide_eq_true_1 (bytes_ok _)). vm_compute. reflexivity.
  - split; [lia|vm_compute; discriminate].
  - vm_compute. reflexivity.
Defined.

Lemma mem_iterates_witness :
  ∃ s0 s l, mem_new true 40 8192 = Ok s0 ∧ mem_add_all true 40 bytewise demo_recs s0 = (Ok tt, s) ∧
    l ≡ₚ demo_recs.*2 ∧ sorted (iord lex_compare) (rec_kv <$> l) ∧
    let IT := MemTableIterator_Iterator bytewise in
    (∃ it, it_seek_to_first (mi_new s) = Ok it ∧ collect (length l) it = Ok (rec_kv <$> l)) ∧
    (∃ it, it_seek_to_last (mi_new s) = Ok it ∧ collect_back (length l) it = Ok (reverse (rec_kv <$> l))).
Proof. apply (mem_iterates true 40 bytewise bytes_ok lex_compare 8192 demo_recs demo_adds_ok). Defined.

(** The deletion at sequence 3 hides the older value. *)
Example mem_get_deleted :
  (s0 ← mem_new true 40 8192; k ← lookup_key_new [102] 3; mem_get bytewise (mem_add_all true 40 bytewise demo_recs s0).2 k)
  = Ok (Some (Err (NotFound None))).
Proof. vm_compute. reflexivity. Qed.
