(* ===== verification/Batch.v ===== *)
(** * Write batches: [src/batch.rs]

    [WriteBatch] with its header and records, and [insert_into], which applies a
    batch to a memtable. *)
From stdpp Require Import gmap.
From S2P Require Import Prelude Coding Varint Comparator Format Iterator SkipList SkipListFacts MemTable.
Open Scope Z_scope.

Definition BATCH_HEADER_SIZE : nat := 12.

Record WriteBatch : Type := mkBatch { wb_contents : bytes }.

Definition wb_default : WriteBatch := mkBatch (replicate BATCH_HEADER_SIZE 0).

Definition get_count (b : WriteBatch) : outcome Z :=
  s ← slice_from (wb_contents b) 8; Ok (decode_fixed_32 s).
Definition set_count (b : WriteBatch) (count : Z) : outcome WriteBatch :=
  s ← slice_from (wb_contents b) 8;
  s ← encode_fixed_32 s count;
  Ok (mkBatch (take 8 (wb_contents b) ++ s)).
Definition set_sequence (b : WriteBatch) (seq : Z) : outcome WriteBatch :=
  c ← encode_fixed_64 (wb_contents b) seq; Ok (mkBatch c).
Definition get_sequence (b : WriteBatch) : Z := decode_fixed_64 (wb_contents b).
Definition wb_is_empty (b : WriteBatch) : outcome bool := c ← get_count b; Ok (c =? 0).
Definition approximate_size (b : WriteBatch) : Z := len (wb_contents b).
Definition wb_set_contents (src : bytes) : WriteBatch := mkBatch src.
Definition wb_clear (b : WriteBatch) : outcome WriteBatch :=
  set_count (mkBatch (replicate BATCH_HEADER_SIZE 0)) 0.

Section Batch.
Context (ck : bool).

Definition wb_put (b : WriteBatch) (key value : bytes) : outcome WriteBatch :=
  c ← get_count b;
  c ← uadd ck 32 c 1;
  b ← set_count b c;
  let d := wb_contents b ++ [value_type_code Value] in
  let d := (put_varint 32 d (wrap 32 (len key))).1 ++ key in
  let d := (put_varint 32 d (wrap 32 (len value))).1 ++ value in
  Ok (mkBatch d).

Definition wb_delete (b : WriteBatch) (key : bytes) : outcome WriteBatch :=
  c ← get_count b;
  c ← uadd ck 32 c 1;
  b ← set_count b c;
  let d := wb_contents b ++ [value_type_code Deletion] in
  Ok (mkBatch ((put_varint 32 d (wrap 32 (len key))).1 ++ key)).

Definition wb_append (b src : WriteBatch) : outcome WriteBatch :=
  _ ← rust_assert (bool_decide (BATCH_HEADER_SIZE ≤ length (wb_contents src))%nat);
  c ← get_count b;
  c' ← get_count src;
  c ← uadd ck 32 c c';
  b ← set_count b c;
  Ok (mkBatch (wb_contents b ++ drop BATCH_HEADER_SIZE (wb_contents src))).

Context (node_base : Z) (ucmp : Comparator).

(** The loop of [insert_into]; [heights] gives the height of the node of the n-th
    insertion.  Each iteration consumes at least the tag. *)
Fixpoint insert_loop (fuel : nat) (heights : list nat) (s : bytes) (found seq : Z) : st SkipList Z :=
  match s with
  | [] => mret found
  | tag :: s =>
    match fuel with
    | O => lift OutOfFuel
    | S fuel =>
      found ← lift (uadd ck 32 found 1);
      match value_type_from tag with
      | Value =>
        match get_varint_prefixed_slice 32 s with
        | Some (key, s) =>
          match get_varint_prefixed_slice 32 s with
          | Some (value, s) =>
            _ ← mem_add ck node_base ucmp (hd 1%nat heights) seq Value key value;
            seq ← lift (uadd ck 64 seq 1);
            insert_loop fuel (tl heights) s found seq
          | None => lift (Err (Corruption "[batch] bad WriteBatch put"))
          end
        | None => lift (Err (Corruption "[batch] bad WriteBatch put"))
        end
      | Deletion =>
        match get_varint_prefixed_slice 32 s with
        | Some (key, s) =>
          _ ← mem_add ck node_base ucmp (hd 1%nat heights) seq Deletion key [];
          seq ← lift (uadd ck 64 seq 1);
          insert_loop fuel (tl heights) s found seq
        | None => lift (Err (Corruption "[batch] bad WriteBatch delete"))
        end
      | Unknown => lift (Err (Corruption "[batch] unknown WriteBatch value type"))
      end
    end
  end.

Definition insert_into (heights : list nat) (b : WriteBatch) : st SkipList unit :=
  if bool_decide (length (wb_contents b) < BATCH_HEADER_SIZE)%nat
  then lift (Err (Corruption "[batch] malformed WriteBatch (too small)"))
  else
    let s := drop BATCH_HEADER_SIZE (wb_contents b) in
    found ← insert_loop (length s) heights s 0 (get_sequence b);
    c ← lift (get_count b);
    if negb (found =? c) then lift (Err (Corruption "[batch] WriteBatch has wrong count"))
    else mret tt.
End Batch.

(** ** What a batch stands for *)

Inductive batch_op : Type := Put (key value : bytes) | Delete (key : bytes).

Definition op_key (op : batch_op) : bytes := match op with Put k _ => k | Delete k => k end.
Definition op_bytes (op : batch_op) : bytes :=
  match op with
  | Put k v => value_type_code Value :: varint_bytes 32 (len k) ++ k ++ varint_bytes 32 (len v) ++ v
  | Delete k => value_type_code Deletion :: varint_bytes 32 (len k) ++ k
  end.
Definition op_rec (seq : Z) (op : batch_op) : mrec :=
  match op with Put k v => mkRec k seq Value v | Delete k => mkRec k seq Deletion [] end.
(** The operations get consecutive sequence numbers. *)
Fixpoint op_recs (seq : Z) (ops : list batch_op) : list mrec :=
  match ops with [] => [] | op :: ops => op_rec seq op :: op_recs (seq + 1) ops end.

Definition op_small (op : batch_op) : Prop :=
  match op with Put k v => len k < 2 ^ 32 ∧ len v < 2 ^ 32 | Delete k => len k < 2 ^ 32 end.

(** Running a list of operations against a batch. *)
Definition wb_apply (ck : bool) (b : WriteBatch) (op : batch_op) : outcome WriteBatch :=
  match op with Put k v => wb_put ck b k v | Delete k => wb_delete ck b k end.
Fixpoint wb_apply_all (ck : bool) (b : WriteBatch) (ops : list batch_op) : outcome WriteBatch :=
  match ops with [] => Ok b | op :: ops => b ← wb_apply ck b op; wb_apply_all ck b ops end.

Definition wb_rep (b : WriteBatch) (seq : Z) (ops : list batch_op) : Prop :=
  wb_contents b = to_le_bytes 8 seq ++ to_le_bytes 4 (len ops) ++ mjoin (op_bytes <$> ops) ∧
  in_uint 64 seq ∧ len ops < 2 ^ 32 ∧ Forall op_small ops.

Section Facts.
Context (ck : bool).

Lemma wb_get_count b seq ops : wb_rep b seq ops → get_count b = Ok (len ops).
Proof.
  intros (Hc & _ & Hn & _). unfold get_count. rewrite Hc, slice_from_app, Ok_bind by (by rewrite length_to_le_bytes).
  rewrite decode_fixed_32_app; [done|]. split; [apply len_nonneg|done].
Qed.
Lemma wb_get_sequence b seq ops : wb_rep b seq ops → get_sequence b = seq.
Proof. intros (Hc & Hs & _). unfold get_sequence. by rewrite Hc, decode_fixed_64_app. Qed.

Lemma wb_set_count b seq ops n : wb_rep b seq ops →
  ∃ b', set_count b n = Ok b' ∧ wb_contents b' = to_le_bytes 8 seq ++ to_le_bytes 4 n ++ mjoin (op_bytes <$> ops).
Proof.
  intros (Hc & _). unfold set_count. rewrite Hc, slice_from_app, Ok_bind by (by rewrite length_to_le_bytes).
  unfold encode_fixed_32. rewrite assert_true, !Ok_bind.
  - eexists. split; [done|]. cbn [wb_contents]. rewrite take_app_length' by (by rewrite length_to_le_bytes).
    by rewrite drop_app_length' by (by rewrite length_to_le_bytes).
  - apply bool_decide_eq_true_2. rewrite len_app. unfold len. rewrite length_to_le_bytes. lia.
Qed.

Lemma wb_default_rep : wb_rep wb_default 0 [].
Proof. split_and!; try done. Qed.

Lemma join_snoc (l : list batch_op) op : mjoin (op_bytes <$> (l ++ [op])) = mjoin (op_bytes <$> l) ++ op_bytes op.
Proof. rewrite fmap_app, join_app. simpl. by rewrite app_nil_r. Qed.

Lemma wb_apply_rep b seq ops op : wb_rep b seq ops → op_small op → len ops + 1 < 2 ^ 32 →
  ∃ b', wb_apply ck b op = Ok b' ∧ wb_rep b' seq (ops ++ [op]).
Proof.
  intros Hb Hop Hn. pose proof Hb as (Hc & Hs & _ & Hops).
  destruct (wb_set_count b seq ops (len ops + 1) Hb) as (b1 & Hset & Hc1).
  assert (∀ x, uadd ck 32 (len ops) 1 = Ok x ↔ x = len ops + 1) as Hadd.
  { intros x. unfold uadd. rewrite (proj2 (Z.ltb_lt _ _)) by lia. split; [by intros [= <-]|by intros ->]. }
  assert (∀ d, wb_contents b1 ++ d = to_le_bytes 8 seq ++ to_le_bytes 4 (len (ops ++ [op])) ++
    mjoin (op_bytes <$> ops) ++ d) as Hd.
  { intros d. rewrite Hc1, len_app, <- !app_assoc. done. }
  assert (len (ops ++ [op]) < 2 ^ 32 ∧ Forall op_small (ops ++ [op])) as Hok.
  { rewrite len_app. split; [exact Hn|]. apply Forall_app. split; [done|]. by constructor. }
  destruct op as [k v|k]; cbn [wb_apply op_small] in *; [unfold wb_put|unfold wb_delete];
    rewrite (wb_get_count b seq ops Hb), Ok_bind, (proj2 (Hadd _) eq_refl), Ok_bind, Hset, Ok_bind;
    (eexists; split; [done|]); split_and!; try tauto; try done; cbn [wb_contents];
    rewrite ?put_varint_eq, join_snoc; rewrite ?wrap_small by (split; [apply len_nonneg|tauto]);
    rewrite <- !app_assoc, Hd; done.
Qed.

Lemma wb_apply_all_rep b seq ops ops' : wb_rep b seq ops → Forall op_small ops' → len ops + len ops' < 2 ^ 32 →
  ∃ b', wb_apply_all ck b ops' = Ok b' ∧ wb_rep b' seq (ops ++ ops').
Proof.
  revert b ops. induction ops' as [|op ops' IH]; intros b ops Hb Hops Hn.
  { exists b. by rewrite app_nil_r. }
  inversion Hops as [|?? Hop Hops']; subst. rewrite len_cons in Hn. pose proof (len_nonneg ops').
  destruct (wb_apply_rep b seq ops op Hb Hop) as (b1 & Ha & Hb1); [lia|]. simpl. rewrite Ha, Ok_bind.
  destruct (IH b1 (ops ++ [op]) Hb1 Hops') as (b2 & ? & ?); [rewrite len_app; unfold len in *; simpl; lia|].
  exists b2. split; [done|]. by rewrite <- app_assoc in *.
Qed.

Lemma wb_set_sequence b seq seq' ops : wb_rep b seq ops → in_uint 64 seq' →
  ∃ b', set_sequence b seq' = Ok b' ∧ wb_rep b' seq' ops.
Proof.
  intros (Hc & _ & Hn & Hops) Hs. unfold set_sequence, encode_fixed_64. rewrite Hc, assert_true, !Ok_bind.
  - eexists. split; [done|]. split_and!; [|done|done|done]. cbn [wb_contents]. by rewrite drop_app_length' by (by rewrite length_to_le_bytes).
  - apply bool_decide_eq_true_2. rewrite len_app. unfold len. rewrite length_to_le_bytes. lia.
Qed.

Lemma wb_append_rep b seq ops src seq' ops' : wb_rep b seq ops → wb_rep src seq' ops' → len ops + len ops' < 2 ^ 32 →
  ∃ b', wb_append ck b src = Ok b' ∧ wb_rep b' seq (ops ++ ops').
Proof.
  intros Hb Hsrc Hn. pose proof Hb as (_ & Hs & _ & Hops). pose proof Hsrc as (Hc' & _ & _ & Hops').
  destruct (wb_set_count b seq ops (len ops + len ops') Hb) as (b1 & Hset & Hc1).
  unfold wb_append. rewrite assert_true, Ok_bind, (wb_get_count _ _ _ Hb), Ok_bind, (wb_get_count _ _ _ Hsrc), Ok_bind.
  2: { apply bool_decide_eq_true_2. rewrite Hc', !length_app, !length_to_le_bytes. unfold BATCH_HEADER_SIZE. lia. }
  unfold uadd. rewrite (proj2 (Z.ltb_lt _ _)), Ok_bind, Hset, Ok_bind by lia. eexists. split; [done|].
  split_and!; [|done|by rewrite len_app|by apply Forall_app].
  cbn [wb_contents]. rewrite Hc1, Hc'. rewrite (app_assoc (to_le_bytes 8 seq')), drop_app_length'
    by (rewrite length_app, !length_to_le_bytes; done).
  by rewrite len_app, fmap_app, join_app, <- !app_assoc.
Qed.
End Facts.

(** ** Applying a batch to a memtable *)
Section Insert.
Context (ck : bool) (node_base : Z) (ucmp : Comparator).

(** The heights of the nodes, in the order of insertion. *)
Fixpoint with_heights (heights : list nat) (rs : list mrec) : list (nat * mrec) :=
  match rs with [] => [] | r :: rs => (hd 1%nat heights, r) :: with_heights (tl heights) rs end.

Lemma with_heights_snd hs rs : (with_heights hs rs).*2 = rs.
Proof. revert hs. induction rs as [|r rs IH]; intros hs; simpl; [done|]. by rewrite IH. Qed.

Lemma insert_loop_ok fuel hs ops found seq (mem : SkipList) :
  (length (mjoin (op_bytes <$> ops)) ≤ fuel)%nat → Forall op_small ops → 0 ≤ found → found + len ops < 2 ^ 32 →
  seq + len ops < 2 ^ 64 →
  insert_loop ck node_base ucmp fuel hs (mjoin (op_bytes <$> ops)) found seq mem =
  match mem_add_all ck node_base ucmp (with_heights hs (op_recs seq ops)) mem with
  | (Ok _, m) => (Ok (found + len ops), m)
  | (Err e, m) => (Err e, m)
  | (Panic, m) => (Panic, m)
  | (OutOfFuel, m) => (OutOfFuel, m)
  end.
Proof.
  revert fuel hs found seq mem. induction ops as [|op ops IH]; intros fuel hs found seq mem Hf Hops H0 Hn Hseq.
  { simpl. destruct fuel; by rewrite Z.add_0_r. }
  inversion Hops as [|?? Hop Hops']; subst. rewrite len_cons in Hn, Hseq. pose proof (len_nonneg ops).
  change (mjoin (op_bytes <$> op :: ops)) with (op_bytes op ++ mjoin (op_bytes <$> ops)) in *.
  rewrite length_app in Hf. assert (1 ≤ length (op_bytes op))%nat as Hlen by (destruct op; simpl; lia).
  destruct fuel as [|fuel]; [lia|].
  assert (uadd ck 32 found 1 = Ok (found + 1) ∧ uadd ck 64 seq 1 = Ok (seq + 1)) as [Hfo Hse].
  { unfold uadd. rewrite !(proj2 (Z.ltb_lt _ _)) by lia. done. }
  assert (found + 1 + len ops = found + len (op :: ops)) as Hadd by (rewrite len_cons; lia).
  destruct op as [k v|k]; cbn [op_bytes op_small] in *.
  - cbn [app insert_loop]. rewrite Hfo, lift_Ok_bind. change (value_type_from (value_type_code Value)) with Value.
    rewrite <- !app_assoc. rewrite get_prefixed_bytes by (apply width_32 || apply Hop).
    rewrite get_prefixed_bytes by (apply width_32 || apply Hop). cbn [op_recs op_rec with_heights mem_add_all r_seq r_type r_user r_value].
    unfold mbind at 1, st_bind at 1. destruct (mem_add _ _ _ _ _ _ _ _ mem) as [[x|e| |] m]; [|done..].
    rewrite Hse, lift_Ok_bind, IH, Hadd; [done| |done|lia|lia|lia]. simpl in Hf. lia.
  - cbn [app insert_loop]. rewrite Hfo, lift_Ok_bind. change (value_type_from (value_type_code Deletion)) with Deletion.
    rewrite <- !app_assoc. rewrite get_prefixed_bytes by (apply width_32 || done).
    cbn [op_recs op_rec with_heights mem_add_all r_seq r_type r_user r_value].
    unfold mbind at 1, st_bind at 1. destruct (mem_add _ _ _ _ _ _ _ _ mem) as [[x|e| |] m]; [|done..].
    rewrite Hse, lift_Ok_bind, IH, Hadd; [done| |done|lia|lia|lia]. simpl in Hf. lia.
Qed.

Lemma insert_into_rep hs b seq ops mem : wb_rep b seq ops → seq + len ops < 2 ^ 64 →
  insert_into ck node_base ucmp hs b mem = mem_add_all ck node_base ucmp (with_heights hs (op_recs seq ops)) mem.
Proof.
  intros Hb Hseq. pose proof Hb as (Hc & Hs & Hn & Hops). unfold insert_into.
  rewrite bool_decide_eq_false_2.
  2: { rewrite Hc, !length_app, !length_to_le_bytes. unfold BATCH_HEADER_SIZE. lia. }
  rewrite (wb_get_sequence _ _ _ Hb), (wb_get_count _ _ _ Hb). cbv zeta.
  assert (drop BATCH_HEADER_SIZE (wb_contents b) = mjoin (op_bytes <$> ops)) as ->.
  { rewrite Hc, app_assoc. apply drop_app_length'. by rewrite length_app, !length_to_le_bytes. }
  unfold mbind at 1, st_bind at 1. rewrite insert_loop_ok by (done || lia).
  destruct (mem_add_all _ _ _ _ mem) as [[[]|e| |] m]; [|done..].
  rewrite lift_Ok_bind, Z.add_0_l, Z.eqb_refl. done.
Qed.
End Insert.

(** ** Theorems *)

(** C39: a batch is applied exactly, in order.  Build a batch with any sequence of [put]
    and [delete] and give it a sequence number: [insert_into] adds to the memtable
    one record per operation, in order, with consecutive sequence numbers, and
    accepts the count in the header. *)
Theorem batch_insert_exact (ck : bool) (node_base : Z) (ucmp : Comparator) (heights : list nat)
    (ops : list batch_op) (seq : Z) (mem : SkipList) :
  Forall op_small ops → len ops < 2 ^ 32 → 0 ≤ seq → seq + len ops < 2 ^ 64 →
  ∃ b b', wb_apply_all ck wb_default ops = Ok b ∧ set_sequence b seq = Ok b' ∧ get_count b' = Ok (len ops) ∧
    insert_into ck node_base ucmp heights b' mem =
      mem_add_all ck node_base ucmp (with_heights heights (op_recs seq ops)) mem.
Proof.
  intros Hops Hn H0 Hseq. pose proof (len_nonneg ops).
  destruct (wb_apply_all_rep ck wb_default 0 [] ops wb_default_rep Hops) as (b & Hb & Hrep); [unfold len in *; simpl; lia|].
  destruct (wb_set_sequence b 0 seq ops Hrep) as (b' & Hb' & Hrep'); [split; lia|].
  exists b, b'. split_and!; [done..|by eapply wb_get_count|]. by apply insert_into_rep.
Qed.

Lemma batch_insert_exact_witness :
  ∃ b b', wb_apply_all true wb_default [Put [1] [2; 3]; Delete []; Put [] []] = Ok b ∧ set_sequence b 100 = Ok b' ∧
    get_count b' = Ok 3 ∧
    ∀ mem, insert_into true 40 bytewise [2%nat] b' mem = mem_add_all true 40 bytewise
      [(2%nat, mkRec [1] 100 Value [2; 3]); (1%nat, mkRec [] 101 Deletion []); (1%nat, mkRec [] 102 Value [])] mem.
Proof.
  eexists _, _. split; [vm_compute; reflexivity|]. split; [vm_compute; reflexivity|]. split; [vm_compute; reflexivity|].
  intros mem. destruct (batch_insert_exact true 40 bytewise [2%nat] [Put [1] [2; 3]; Delete []; Put [] []] 100 mem)
    as (b & b' & Hb & Hb' & _ & Hins); [repeat constructor; vm_compute; reflexivity|vm_compute; reflexivity|lia|vm_compute; reflexivity|].
  vm_compute in Hb. injection Hb as <-. vm_compute in Hb'. injection Hb' as <-. exact Hins.
Defined.

(** Appending batches concatenates their operations: the batch that [append]
    returns has the sequence number of the receiver and is applied as the
    operations of the receiver followed by those of the argument. *)
Theorem batch_append_concat (ck : bool) (node_base : Z) (ucmp : Comparator) (heights : list nat)
    (ops1 ops2 : list batch_op) (b1 b2 : WriteBatch) (seq1 seq2 : Z) (mem : SkipList) :
  wb_rep b1 seq1 ops1 → wb_rep b2 seq2 ops2 → len ops1 + len ops2 < 2 ^ 32 →
  seq1 + len ops1 + len ops2 < 2 ^ 64 →
  ∃ b, wb_append ck b1 b2 = Ok b ∧ get_sequence b = seq1 ∧ get_count b = Ok (len ops1 + len ops2) ∧
    insert_into ck node_base ucmp heights b mem =
      mem_add_all ck node_base ucmp (with_heights heights (op_recs seq1 (ops1 ++ ops2))) mem.
Proof.
  intros H1 H2 Hn Hseq. destruct (wb_append_rep ck b1 seq1 ops1 b2 seq2 ops2 H1 H2 Hn) as (b & Hb & Hrep).
  exists b. split_and!; [done|by eapply wb_get_sequence|by rewrite (wb_get_count _ _ _ Hrep), len_app|].
  apply insert_into_rep; [done|]. rewrite len_app. lia.
Qed.

Lemma batch_append_concat_witness :
  ∃ b, wb_append true wb_default (mkBatch (to_le_bytes 8 7 ++ to_le_bytes 4 1 ++ op_bytes (Delete [5]))) = Ok b ∧
    get_sequence b = 0 ∧ get_count b = Ok 1 ∧
    insert_into true 40 bytewise [] b (mkSkl 1 0 (mkArena 1 0) 0 ∅ ∅) =
      mem_add_all true 40 bytewise [(1%nat, mkRec [5] 0 Deletion [])] (mkSkl 1 0 (mkArena 1 0) 0 ∅ ∅).
Proof.
  apply (batch_append_concat true 40 bytewise [] [] [Delete [5]] wb_default
    (mkBatch (to_le_bytes 8 7 ++ to_le_bytes 4 1 ++ op_bytes (Delete [5]))) 0 7).
  - apply wb_default_rep.
  - split; [vm_compute; reflexivity|]. split; [split; vm_compute; [discriminate|reflexivity]|].
    split; [vm_compute; reflexivity|]. repeat constructor; vm_compute; reflexivity.
  - vm_compute. reflexivity.
  - vm_compute. reflexivity.
Defined.
