(* ===== verification/VersionEdit.v ===== *)
(** * Version edits: [src/version/version_edit.rs]

    [FileMetaData], [VersionEdit], its encoding as a manifest record and the
    decoder. *)
From stdpp Require Import gmap.
From S2P Require Import Prelude Coding Varint Comparator Format.
Open Scope Z_scope.

(** ** Data *)

Inductive Tag : Type :=
| TComparator | LogNumber | NextFileNumber | LastSequence | CompactPointer | DeletedFile
| NewFile | PrevLogNumber | TUnknown.

#[export] Instance Tag_eq_dec : EqDecision Tag.
Proof. solve_decision. Defined.

Definition tag_code (t : Tag) : Z :=
  match t with
  | TComparator => 1 | LogNumber => 2 | NextFileNumber => 3 | LastSequence => 4
  | CompactPointer => 5 | DeletedFile => 6 | NewFile => 7 | PrevLogNumber => 9 | TUnknown => 10
  end.
Definition tag_from (i : Z) : Tag :=
  match i with
  | 1 => TComparator | 2 => LogNumber | 3 => NextFileNumber | 4 => LastSequence
  | 5 => CompactPointer | 6 => DeletedFile | 7 => NewFile | 9 => PrevLogNumber | _ => TUnknown
  end.

Record FileMetaData : Type := mkMeta {
  fm_allowed_seeks : Z;
  fm_file_size : Z;
  fm_number : Z;
  fm_smallest : InternalKey;
  fm_largest : InternalKey;
}.

#[export] Instance FileMetaData_eq_dec : EqDecision FileMetaData.
Proof. solve_decision. Defined.

Definition file_default : FileMetaData := mkMeta 0 0 0 ikey_default ikey_default.

(** [init_allowed_seeks]: one seek for every 16KB, at least 100. *)
Definition init_allowed_seeks (f : FileMetaData) : FileMetaData :=
  let allowed_seeks := fm_file_size f / (16 * 1024) in
  let allowed_seeks := if allowed_seeks <? 100 then 100 else allowed_seeks in
  mkMeta allowed_seeks (fm_file_size f) (fm_number f) (fm_smallest f) (fm_largest f).

(** [VersionEdit] with its [FileDelta]; a comparator name is the bytes of a
    [String]. *)
Record VersionEdit : Type := mkEdit {
  ve_max_levels : Z;
  ve_comparator_name : option bytes;
  ve_log_number : option Z;
  ve_prev_log_number : option Z;
  ve_next_file_number : option Z;
  ve_last_sequence : option Z;
  ve_compaction_pointers : list (Z * InternalKey);
  ve_deleted_files : gset (Z * Z);
  ve_new_files : list (Z * FileMetaData);
}.

Definition ve_new (max_levels : Z) : VersionEdit :=
  mkEdit max_levels None None None None None [] ∅ [].

(** [clear] keeps the compaction pointers. *)
Definition ve_clear (e : VersionEdit) : VersionEdit :=
  mkEdit (ve_max_levels e) None None None None None (ve_compaction_pointers e) ∅ [].

Definition set_comparator_name (n : bytes) (e : VersionEdit) : VersionEdit :=
  mkEdit (ve_max_levels e) (Some n) (ve_log_number e) (ve_prev_log_number e) (ve_next_file_number e)
    (ve_last_sequence e) (ve_compaction_pointers e) (ve_deleted_files e) (ve_new_files e).
Definition set_log_number (n : Z) (e : VersionEdit) : VersionEdit :=
  mkEdit (ve_max_levels e) (ve_comparator_name e) (Some n) (ve_prev_log_number e) (ve_next_file_number e)
    (ve_last_sequence e) (ve_compaction_pointers e) (ve_deleted_files e) (ve_new_files e).
Definition set_prev_log_number (n : Z) (e : VersionEdit) : VersionEdit :=
  mkEdit (ve_max_levels e) (ve_comparator_name e) (ve_log_number e) (Some n) (ve_next_file_number e)
    (ve_last_sequence e) (ve_compaction_pointers e) (ve_deleted_files e) (ve_new_files e).
Definition set_next_file (n : Z) (e : VersionEdit) : VersionEdit :=
  mkEdit (ve_max_levels e) (ve_comparator_name e) (ve_log_number e) (ve_prev_log_number e) (Some n)
    (ve_last_sequence e) (ve_compaction_pointers e) (ve_deleted_files e) (ve_new_files e).
Definition set_last_sequence (n : Z) (e : VersionEdit) : VersionEdit :=
  mkEdit (ve_max_levels e) (ve_comparator_name e) (ve_log_number e) (ve_prev_log_number e)
    (ve_next_file_number e) (Some n) (ve_compaction_pointers e) (ve_deleted_files e) (ve_new_files e).
Definition push_pointer (p : Z * InternalKey) (e : VersionEdit) : VersionEdit :=
  mkEdit (ve_max_levels e) (ve_comparator_name e) (ve_log_number e) (ve_prev_log_number e)
    (ve_next_file_number e) (ve_last_sequence e) (ve_compaction_pointers e ++ [p]) (ve_deleted_files e)
    (ve_new_files e).
Definition delete_file (level file_number : Z) (e : VersionEdit) : VersionEdit :=
  mkEdit (ve_max_levels e) (ve_comparator_name e) (ve_log_number e) (ve_prev_log_number e)
    (ve_next_file_number e) (ve_last_sequence e) (ve_compaction_pointers e)
    ({[(level, file_number)]} ∪ ve_deleted_files e) (ve_new_files e).
Definition add_file (level file_number file_size : Z) (smallest largest : InternalKey) (e : VersionEdit)
    : VersionEdit :=
  mkEdit (ve_max_levels e) (ve_comparator_name e) (ve_log_number e) (ve_prev_log_number e)
    (ve_next_file_number e) (ve_last_sequence e) (ve_compaction_pointers e) (ve_deleted_files e)
    (ve_new_files e ++ [(level, mkMeta 0 file_size file_number smallest largest)]).

(** ** [String::from_utf8] *)

Definition in_range (lo hi b : Z) : bool := (lo <=? b) && (b <=? hi).
Definition utf8_cont (b : Z) : bool := in_range 0x80 0xBF b.

(** The second byte that may follow a leading byte of a sequence of three or four. *)
Definition utf8_second (b : Z) (c : Z) : bool :=
  if b =? 0xE0 then in_range 0xA0 0xBF c
  else if b =? 0xED then in_range 0x80 0x9F c
  else if b =? 0xF0 then in_range 0x90 0xBF c
  else if b =? 0xF4 then in_range 0x80 0x8F c
  else utf8_cont c.

Fixpoint utf8_valid (l : bytes) : bool :=
  match l with
  | [] => true
  | b :: l =>
    if b <? 0x80 then utf8_valid l else
    match l with
    | [] => false
    | c :: l =>
      if in_range 0xC2 0xDF b then utf8_cont c && utf8_valid l else
      match l with
      | [] => false
      | d :: l =>
        if in_range 0xE0 0xEF b then utf8_second b c && utf8_cont d && utf8_valid l else
        match l with
        | [] => false
        | e :: l => in_range 0xF0 0xF4 b && utf8_second b c && utf8_cont d && utf8_cont e && utf8_valid l
        end
      end
    end
  end.

(** ** Encoding *)
Section Encode.
(** The order in which the iterator of a [HashSet] yields its elements. *)
Context (set_iter : gset (Z * Z) → list (Z * Z)).

Definition put_tag (t : Tag) (dst : bytes) : bytes := (put_varint 32 dst (tag_code t)).1.
Definition put_number (t : Tag) (o : option Z) (dst : bytes) : bytes :=
  match o with Some n => (put_varint 64 (put_tag t dst) n).1 | None => dst end.
Definition put_pointer (dst : bytes) (p : Z * InternalKey) : bytes :=
  let dst := put_tag CompactPointer dst in
  let dst := (put_varint 32 dst (wrap 32 p.1)).1 in
  put_varint_prefixed_slice 32 dst (ik_data p.2).
Definition put_deleted (dst : bytes) (d : Z * Z) : bytes :=
  let dst := put_tag DeletedFile dst in
  let dst := (put_varint 32 dst (wrap 32 d.1)).1 in
  (put_varint 64 dst d.2).1.
Definition put_new_file (dst : bytes) (f : Z * FileMetaData) : bytes :=
  let dst := put_tag NewFile dst in
  let dst := (put_varint 32 dst (wrap 32 f.1)).1 in
  let dst := (put_varint 64 dst (fm_number f.2)).1 in
  let dst := (put_varint 64 dst (fm_file_size f.2)).1 in
  let dst := put_varint_prefixed_slice 32 dst (ik_data (fm_smallest f.2)) in
  put_varint_prefixed_slice 32 dst (ik_data (fm_largest f.2)).

Definition encode_to (e : VersionEdit) (dst : bytes) : bytes :=
  let dst := match ve_comparator_name e with
             | Some cmp_name => put_varint_prefixed_slice 32 (put_tag TComparator dst) cmp_name
             | None => dst
             end in
  let dst := put_number LogNumber (ve_log_number e) dst in
  let dst := put_number PrevLogNumber (ve_prev_log_number e) dst in
  let dst := put_number NextFileNumber (ve_next_file_number e) dst in
  let dst := put_number LastSequence (ve_last_sequence e) dst in
  let dst := foldl put_pointer dst (ve_compaction_pointers e) in
  let dst := foldl put_deleted dst (set_iter (ve_deleted_files e)) in
  foldl put_new_file dst (ve_new_files e).
End Encode.

(** ** Decoding *)

Definition get_internal_key (src : bytes) : option (InternalKey * bytes) :=
  '(s, src) ← get_varint_prefixed_slice 32 src; Some (ikey_decoded_from s, src).
(** [l <= max_levels] is checked, not [l < max_levels]. *)
Definition get_level (max_levels : Z) (src : bytes) : option (Z * bytes) :=
  '(l, src) ← drain_read 32 src;
  if l <=? wrap 32 max_levels then Some (l, src) else None.

(** How one entry of the record ends: the rest of the input, [break] with a
    message, or [return Err]. *)
Inductive decode_step : Type :=
| Continue (s : bytes)
| Break (msg : string)
| Return (e : error).

Definition read_number (set : Z → VersionEdit → VersionEdit) (msg : string) (s : bytes) (e : VersionEdit)
    : decode_step * VersionEdit :=
  match drain_read 64 s with Some (n, s) => (Continue s, set n e) | None => (Break msg, e) end.

Definition decode_entry (t : Tag) (s : bytes) (e : VersionEdit) : decode_step * VersionEdit :=
  match t with
  | TComparator =>
    match get_varint_prefixed_slice 32 s with
    | Some (cmp, s) =>
      if utf8_valid cmp then (Continue s, set_comparator_name cmp e) else (Return UTF8Error, e)
    | None => (Break "comparator name", e)
    end
  | LogNumber => read_number set_log_number "log number" s e
  | NextFileNumber => read_number set_next_file "previous log number" s e
  | LastSequence => read_number set_last_sequence "last sequence number" s e
  | CompactPointer =>
    match ('(level, s) ← get_level (ve_max_levels e) s; '(key, s) ← get_internal_key s;
           Some (level, key, s)) with
    | Some (level, key, s) => (Continue s, push_pointer (level, key) e)
    | None => (Break "compaction pointer", e)
    end
  | DeletedFile =>
    match ('(level, s) ← get_level (ve_max_levels e) s; '(file_num, s) ← drain_read 64 s;
           Some (level, file_num, s)) with
    | Some (level, file_num, s) => (Continue s, delete_file level file_num e)
    | None => (Break "deleted file", e)
    end
  | NewFile =>
    match ('(level, s) ← get_level (ve_max_levels e) s; '(number, s) ← drain_read 64 s;
           '(file_size, s) ← drain_read 64 s; '(smallest, s) ← get_internal_key s;
           '(largest, s) ← get_internal_key s;
           Some (level, number, file_size, smallest, largest, s)) with
    | Some (level, number, file_size, smallest, largest, s) =>
      (Continue s, add_file level number file_size smallest largest e)
    | None => (Break "new-file entry", e)
    end
  | PrevLogNumber => read_number set_prev_log_number "previous log number" s e
  | TUnknown => (Break "unknown tag", e)
  end.

Definition decode_finish (msg : string) (e : VersionEdit) : outcome unit * VersionEdit :=
  if bool_decide (msg = ""%string) then (Ok tt, e)
  else (Err (Corruption ("VersionEdit: " +:+ msg)), e).

(** The loop: a tag that cannot be read appends to the message and reads again
    from the same place. *)
Fixpoint decode_loop (fuel : nat) (src s : bytes) (msg : string) (e : VersionEdit)
    : outcome unit * VersionEdit :=
  match s with
  | [] => decode_finish msg e
  | _ =>
    match fuel with
    | O => (OutOfFuel, e)
    | S fuel =>
      match drain_read 32 s with
      | Some (tag, s) =>
        match decode_entry (tag_from tag) s e with
        | (Continue s, e) => decode_loop fuel src s msg e
        | (Break m, e) => decode_finish (msg +:+ m) e
        | (Return err, e) => (Err err, e)
        end
      | None =>
        match src with
        | [] => decode_finish msg e
        | _ => decode_loop fuel src s (msg +:+ "invalid tag") e
        end
      end
    end
  end.

(** Every entry that is read consumes at least its tag. *)
Definition decoded_from (src : bytes) (e : VersionEdit) : outcome unit * VersionEdit :=
  decode_loop (length src) src src "" (ve_clear e).

(** ** The entries of an edit

    An edit as the list of the entries its encoding consists of. *)
Inductive field : Type :=
| FName (n : bytes)
| FNum (t : Tag) (n : Z)
| FPointer (p : Z * InternalKey)
| FDeleted (d : Z * Z)
| FNew (f : Z * FileMetaData).

Definition set_num (t : Tag) (n : Z) (e : VersionEdit) : VersionEdit :=
  match t with
  | LogNumber => set_log_number n e | PrevLogNumber => set_prev_log_number n e
  | NextFileNumber => set_next_file n e | LastSequence => set_last_sequence n e | _ => e
  end.
Definition is_num_tag (t : Tag) : Prop :=
  t = LogNumber ∨ t = PrevLogNumber ∨ t = NextFileNumber ∨ t = LastSequence.

Definition apply_field (e : VersionEdit) (f : field) : VersionEdit :=
  match f with
  | FName n => set_comparator_name n e
  | FNum t n => set_num t n e
  | FPointer p => push_pointer p e
  | FDeleted (l, n) => delete_file l n e
  | FNew (l, f) => add_file l (fm_number f) (fm_file_size f) (fm_smallest f) (fm_largest f) e
  end.

Definition put_field (dst : bytes) (f : field) : bytes :=
  match f with
  | FName n => put_varint_prefixed_slice 32 (put_tag TComparator dst) n
  | FNum t n => put_number t (Some n) dst
  | FPointer p => put_pointer dst p
  | FDeleted d => put_deleted dst d
  | FNew f => put_new_file dst f
  end.

Definition num_field (t : Tag) (o : option Z) : list field :=
  match o with Some n => [FNum t n] | None => [] end.
Definition fields (set_iter : gset (Z * Z) → list (Z * Z)) (e : VersionEdit) : list field :=
  match ve_comparator_name e with Some n => [FName n] | None => [] end ++
  num_field LogNumber (ve_log_number e) ++ num_field PrevLogNumber (ve_prev_log_number e) ++
  num_field NextFileNumber (ve_next_file_number e) ++ num_field LastSequence (ve_last_sequence e) ++
  (FPointer <$> ve_compaction_pointers e) ++ (FDeleted <$> set_iter (ve_deleted_files e)) ++
  (FNew <$> ve_new_files e).

Lemma foldl_fmap {A B C} (g : C → B → C) (h : A → B) (c : C) (l : list A) :
  foldl g c (h <$> l) = foldl (λ c x, g c (h x)) c l.
Proof. revert c. induction l; intros c; simpl; auto. Qed.

Lemma encode_to_fields set_iter e dst : encode_to set_iter e dst = foldl put_field dst (fields set_iter e).
Proof.
  unfold encode_to, fields. rewrite !foldl_app, !foldl_fmap.
  destruct (ve_comparator_name e), (ve_log_number e), (ve_prev_log_number e), (ve_next_file_number e),
    (ve_last_sequence e); reflexivity.
Qed.

(** What can be written: keys that are not empty, levels up to the bound, numbers
    of 64 bits. *)
Definition key_ok (k : InternalKey) : Prop := ik_data k ≠ [] ∧ len (ik_data k) < 2 ^ 32.
Definition level_ok (max_levels l : Z) : Prop := 0 ≤ l ≤ max_levels.

#[export] Instance key_ok_dec k : Decision (key_ok k).
Proof. unfold key_ok. apply _. Defined.
#[export] Instance level_ok_dec m l : Decision (level_ok m l).
Proof. unfold level_ok. apply _. Defined.

Definition field_ok (max_levels : Z) (f : field) : Prop :=
  match f with
  | FName n => n ≠ [] ∧ len n < 2 ^ 32 ∧ utf8_valid n = true
  | FNum t n => is_num_tag t ∧ in_uint 64 n
  | FPointer (l, k) => level_ok max_levels l ∧ key_ok k
  | FDeleted (l, n) => level_ok max_levels l ∧ in_uint 64 n
  | FNew (l, f) =>
    level_ok max_levels l ∧ in_uint 64 (fm_number f) ∧ in_uint 64 (fm_file_size f) ∧
    key_ok (fm_smallest f) ∧ key_ok (fm_largest f)
  end.

Record edit_ok (e : VersionEdit) : Prop := {
  eo_levels : in_uint 32 (ve_max_levels e);
  eo_name : ∀ n, ve_comparator_name e = Some n → n ≠ [] ∧ len n < 2 ^ 32 ∧ utf8_valid n = true;
  eo_log : ∀ n, ve_log_number e = Some n → in_uint 64 n;
  eo_prev : ∀ n, ve_prev_log_number e = Some n → in_uint 64 n;
  eo_next : ∀ n, ve_next_file_number e = Some n → in_uint 64 n;
  eo_last : ∀ n, ve_last_sequence e = Some n → in_uint 64 n;
  eo_pointers : Forall (λ p, level_ok (ve_max_levels e) p.1 ∧ key_ok p.2) (ve_compaction_pointers e);
  eo_deleted : ∀ d, d ∈ ve_deleted_files e → level_ok (ve_max_levels e) d.1 ∧ in_uint 64 d.2;
  eo_new : Forall (λ f, level_ok (ve_max_levels e) f.1 ∧ in_uint 64 (fm_number f.2) ∧
    in_uint 64 (fm_file_size f.2) ∧ key_ok (fm_smallest f.2) ∧ key_ok (fm_largest f.2)) (ve_new_files e);
}.

Lemma fields_ok set_iter e : (∀ s, set_iter s ≡ₚ elements s) → edit_ok e →
  Forall (field_ok (ve_max_levels e)) (fields set_iter e).
Proof.
  intros Hi [_ Hn Hl Hp Hx Hs Hc Hd Hw]. unfold fields.
  assert (∀ t o, is_num_tag t → (∀ n, o = Some n → in_uint 64 n) →
    Forall (field_ok (ve_max_levels e)) (num_field t o)) as Hnum.
  { intros t [n|] Ht Ho; [|done]. apply Forall_singleton. split; [done|by apply Ho]. }
  repeat apply Forall_app_2; try (apply Hnum; [unfold is_num_tag; by auto 4|done]).
  - destruct (ve_comparator_name e) as [n|]; [|done]. apply Forall_singleton. by apply Hn.
  - apply Forall_fmap. eapply Forall_impl; [exact Hc|]. by intros [l k].
  - apply Forall_fmap, Forall_forall. intros [l n] Hin. apply (Hd (l, n)).
    by rewrite (Hi _), elem_of_elements in Hin.
  - apply Forall_fmap. eapply Forall_impl; [exact Hw|]. by intros [l f].
Qed.

(** ** Decoding an encoded entry *)

Lemma width_64 : is_width 64.
Proof. by right. Qed.
Lemma w32 : is_width 32.
Proof. by left. Qed.

Lemma drain_tag t rest : t ≠ TUnknown →
  ∃ n, drain_read 32 (varint_bytes 32 (tag_code t) ++ rest) = Some (n, rest) ∧ tag_from n = t.
Proof.
  intros Ht. exists (tag_code t). split; [|by destruct t].
  apply drain_read_varint; [apply w32|]. destruct t; vm_compute; split; congruence.
Qed.

Lemma get_level_ok m l rest : in_uint 32 m → level_ok m l →
  get_level m (varint_bytes 32 (wrap 32 l) ++ rest) = Some (l, rest).
Proof.
  intros Hm Hl. unfold level_ok, in_uint in *. unfold get_level.
  rewrite !wrap_small by (unfold in_uint; lia). rewrite drain_read_varint; [|apply w32|unfold in_uint; lia].
  simpl. by destruct (Z.leb_spec l m); [|lia].
Qed.

Lemma get_internal_key_ok k rest : key_ok k →
  get_internal_key (varint_bytes 32 (len (ik_data k)) ++ ik_data k ++ rest) = Some (k, rest).
Proof.
  intros [_ Hk]. unfold get_internal_key. rewrite get_prefixed_bytes by (apply w32 || done). by destruct k.
Qed.

(** The bytes of one entry. *)
Definition tag_bytes (t : Tag) : bytes := varint_bytes 32 (tag_code t).
Definition prefixed (k : bytes) : bytes := varint_bytes 32 (len k) ++ k.
Definition field_bytes (f : field) : bytes :=
  match f with
  | FName n => tag_bytes TComparator ++ prefixed n
  | FNum t n => tag_bytes t ++ varint_bytes 64 n
  | FPointer p => tag_bytes CompactPointer ++ varint_bytes 32 (wrap 32 p.1) ++ prefixed (ik_data p.2)
  | FDeleted d => tag_bytes DeletedFile ++ varint_bytes 32 (wrap 32 d.1) ++ varint_bytes 64 d.2
  | FNew f =>
    tag_bytes NewFile ++ varint_bytes 32 (wrap 32 f.1) ++ varint_bytes 64 (fm_number f.2) ++
    varint_bytes 64 (fm_file_size f.2) ++ prefixed (ik_data (fm_smallest f.2)) ++
    prefixed (ik_data (fm_largest f.2))
  end.

Lemma put_field_eq m f dst : field_ok m f → put_field dst f = dst ++ field_bytes f.
Proof.
  destruct f as [n|t n|[l k]|[l n]|[l f]]; cbn [put_field field_ok field_bytes];
    unfold put_number, put_pointer, put_deleted, put_new_file, put_tag, prefixed, tag_bytes; cbn [fst snd].
  - intros (Hn & Hl & _). by rewrite put_prefixed_eq, put_varint_eq, <- !app_assoc.
  - intros _. by rewrite !put_varint_eq, <- !app_assoc.
  - intros [_ [Hk Hl]]. by rewrite put_prefixed_eq, !put_varint_eq, <- !app_assoc.
  - intros _. by rewrite !put_varint_eq, <- !app_assoc.
  - intros (_ & _ & _ & [Hk1 Hl1] & [Hk2 Hl2]).
    by rewrite !put_prefixed_eq, !put_varint_eq, <- !app_assoc.
Qed.

Lemma field_bytes_nonempty f : field_bytes f ≠ [].
Proof.
  assert (∀ t b, tag_bytes t ++ b ≠ []) as Hne.
  { intros t b [Hn _]%app_nil. pose proof (varint_bytes_len 32 (tag_code t) w32) as Hl.
    unfold tag_bytes in Hn. rewrite Hn in Hl. change (len (@nil Z)) with 0 in Hl. lia. }
  destruct f; apply Hne.
Qed.

Lemma put_fields_eq m fs dst : Forall (field_ok m) fs →
  foldl put_field dst fs = dst ++ mjoin (field_bytes <$> fs).
Proof.
  intros Hf. revert dst. induction Hf as [|f fs Hf _ IH]; intros dst; simpl; [by rewrite app_nil_r|].
  by rewrite IH, (put_field_eq m), app_assoc.
Qed.

(** One entry, as the loop reads it. *)
Lemma decode_field m f rest e : in_uint 32 m → ve_max_levels e = m → field_ok m f →
  ∃ tag s, drain_read 32 (field_bytes f ++ rest) = Some (tag, s) ∧
    decode_entry (tag_from tag) s e = (Continue rest, apply_field e f).
Proof.
  intros Hm He Hf.
  destruct f as [n|t n|[l k]|[l n]|[l f]]; cbn [field_ok] in Hf; cbn [field_bytes fst snd]; unfold prefixed;
    rewrite <- !app_assoc.
  - destruct Hf as (Hn & Hl & Hu). destruct (drain_tag TComparator (varint_bytes 32 (len n) ++ n ++ rest)) as (g & Hg & Ht); [done|].
    eexists g, _. split; [exact Hg|]. rewrite Ht. simpl.
    rewrite get_prefixed_bytes by (apply w32 || done). by rewrite Hu.
  - destruct Hf as [Ht Hn]. destruct (drain_tag t (varint_bytes 64 n ++ rest)) as (g & Hg & Hgt).
    { unfold is_num_tag in Ht. naive_solver. }
    eexists g, _. split; [exact Hg|].
    rewrite Hgt. destruct Ht as [-> | [-> | [-> | ->]]]; simpl; unfold read_number;
      by rewrite drain_read_varint by (apply width_64 || done).
  - destruct Hf as [Hl Hk].
    edestruct (drain_tag CompactPointer) as (g & Hg & Ht); [done|]. eexists g, _. split; [exact Hg|].
    rewrite Ht. simpl. rewrite He, get_level_ok by done. simpl. by rewrite get_internal_key_ok.
  - destruct Hf as [Hl Hn].
    edestruct (drain_tag DeletedFile) as (g & Hg & Ht); [done|]. eexists g, _. split; [exact Hg|].
    rewrite Ht. simpl. rewrite He, get_level_ok by done. simpl.
    by rewrite drain_read_varint by (apply width_64 || done).
  - destruct Hf as (Hl & Hn & Hs & Hk1 & Hk2).
    edestruct (drain_tag NewFile) as (g & Hg & Ht); [done|]. eexists g, _. split; [exact Hg|].
    rewrite Ht. simpl. rewrite He, get_level_ok by done. simpl.
    rewrite drain_read_varint by (apply width_64 || done). simpl.
    rewrite drain_read_varint by (apply width_64 || done). simpl.
    rewrite get_internal_key_ok by done. simpl. by rewrite get_internal_key_ok.
Qed.

Lemma apply_field_levels e f : ve_max_levels (apply_field e f) = ve_max_levels e.
Proof. destruct f as [|[]| |[]|[]]; reflexivity. Qed.

Lemma decode_fields m fs src fuel msg e : in_uint 32 m → Forall (field_ok m) fs → ve_max_levels e = m →
  (length (mjoin (field_bytes <$> fs)) ≤ fuel)%nat →
  decode_loop fuel src (mjoin (field_bytes <$> fs)) msg e = decode_finish msg (foldl apply_field e fs).
Proof.
  intros Hm Hf. revert fuel e. induction Hf as [|f fs Hf _ IH]; intros fuel e He Hfuel; [by destruct fuel|].
  rewrite fmap_cons in *. change (mjoin (?x :: ?l)) with (x ++ mjoin l) in *.
  destruct (decode_field m f (mjoin (field_bytes <$> fs)) e) as (tag & s & Hd & Hs); [done..|].
  pose proof (field_bytes_nonempty f) as Hne. rewrite length_app in Hfuel.
  destruct (field_bytes f) as [|b bs] eqn:Hb; [done|]. simpl in Hfuel. destruct fuel as [|fuel]; [lia|].
  rewrite <- app_comm_cons in *.
  cbn [decode_loop]. rewrite Hd, Hs. apply IH; [by rewrite apply_field_levels|lia].
Qed.

(** ** What the decoder reconstructs *)

Lemma fold_pointers ps e : foldl apply_field e (FPointer <$> ps) =
  mkEdit (ve_max_levels e) (ve_comparator_name e) (ve_log_number e) (ve_prev_log_number e)
    (ve_next_file_number e) (ve_last_sequence e) (ve_compaction_pointers e ++ ps) (ve_deleted_files e)
    (ve_new_files e).
Proof.
  revert e. induction ps as [|p ps IH]; intros e; simpl; [rewrite app_nil_r; by destruct e|].
  rewrite IH. simpl. by rewrite <- app_assoc.
Qed.
Lemma fold_deleted ds e : foldl apply_field e (FDeleted <$> ds) =
  mkEdit (ve_max_levels e) (ve_comparator_name e) (ve_log_number e) (ve_prev_log_number e)
    (ve_next_file_number e) (ve_last_sequence e) (ve_compaction_pointers e)
    (list_to_set ds ∪ ve_deleted_files e) (ve_new_files e).
Proof.
  revert e. induction ds as [|[l n] ds IH]; intros e; simpl.
  - rewrite (left_id_L ∅ (∪)). by destruct e.
  - rewrite IH. simpl. f_equal. set_solver.
Qed.
Definition reset_seeks (f : Z * FileMetaData) : Z * FileMetaData :=
  (f.1, mkMeta 0 (fm_file_size f.2) (fm_number f.2) (fm_smallest f.2) (fm_largest f.2)).
Lemma fold_new fs e : foldl apply_field e (FNew <$> fs) =
  mkEdit (ve_max_levels e) (ve_comparator_name e) (ve_log_number e) (ve_prev_log_number e)
    (ve_next_file_number e) (ve_last_sequence e) (ve_compaction_pointers e) (ve_deleted_files e)
    (ve_new_files e ++ (reset_seeks <$> fs)).
Proof.
  revert e. induction fs as [|[l f] fs IH]; intros e; simpl; [rewrite app_nil_r; by destruct e|].
  rewrite IH. simpl. by rewrite <- app_assoc.
Qed.

Lemma fold_fields set_iter e e0 : (∀ s, set_iter s ≡ₚ elements s) →
  foldl apply_field (ve_clear e0) (fields set_iter e) =
    mkEdit (ve_max_levels e0) (ve_comparator_name e) (ve_log_number e) (ve_prev_log_number e)
      (ve_next_file_number e) (ve_last_sequence e) (ve_compaction_pointers e0 ++ ve_compaction_pointers e)
      (ve_deleted_files e) (reset_seeks <$> ve_new_files e).
Proof.
  intros Hi. unfold fields. rewrite !foldl_app, fold_new, fold_deleted, fold_pointers.
  assert (list_to_set (set_iter (ve_deleted_files e)) = ve_deleted_files e) as ->.
  { apply set_eq. intros x. by rewrite elem_of_list_to_set, (Hi _), elem_of_elements. }
  destruct (ve_comparator_name e), (ve_log_number e), (ve_prev_log_number e), (ve_next_file_number e),
    (ve_last_sequence e); simpl; by rewrite (right_id_L ∅ (∪)).
Qed.

Lemma decode_encode (set_iter : gset (Z * Z) → list (Z * Z)) (e e0 : VersionEdit) :
  (∀ s, set_iter s ≡ₚ elements s) → edit_ok e → ve_max_levels e0 = ve_max_levels e →
  decoded_from (encode_to set_iter e []) e0 =
    (Ok tt, mkEdit (ve_max_levels e) (ve_comparator_name e) (ve_log_number e) (ve_prev_log_number e)
       (ve_next_file_number e) (ve_last_sequence e) (ve_compaction_pointers e0 ++ ve_compaction_pointers e)
       (ve_deleted_files e) (reset_seeks <$> ve_new_files e)).
Proof.
  intros Hi He Hm. pose proof (fields_ok set_iter e Hi He) as Hf. unfold decoded_from.
  rewrite encode_to_fields, (put_fields_eq _ _ _ Hf), app_nil_l.
  rewrite (decode_fields (ve_max_levels e)); [|apply He|done|done|done].
  rewrite (fold_fields set_iter e e0 Hi), Hm. done.
Qed.


(** An edit with every field. *)
Definition sample_edit : VersionEdit :=
  mkEdit 7 (Some [108; 195; 169]) (Some 5) None (Some (2 ^ 60)) (Some 9)
    [(1, mkIKey [1; 2; 3; 4; 5; 6; 7; 8; 9])] {[(2, 300)]}
    [(3, mkMeta 100 4096 12 (mkIKey [1; 0; 0; 0; 0; 0; 0; 0; 0]) (mkIKey [2; 0; 0; 0; 0; 0; 0; 0; 0]))].


(** ** Fuel *)

Lemma decode_finish_fuel msg e : (decode_finish msg e).1 ≠ OutOfFuel.
Proof. unfold decode_finish. by case_bool_decide. Qed.

(** A tag that cannot be read hangs the loop, whatever the fuel. *)
Lemma decode_stuck fuel src s msg e : src ≠ [] → s ≠ [] → drain_read 32 s = None →
  (decode_loop fuel src s msg e).1 = OutOfFuel.
Proof.
  intros Hsrc Hs Hd. revert msg. induction fuel as [|fuel IH]; intros msg; destruct s as [|b s], src as [|c src]; try done.
  cbn [decode_loop]. rewrite Hd. apply IH.
Qed.

(** Readers never return more than they were given. *)
Lemma drain_read_shrinks w s n r : drain_read w s = Some (n, r) → (length r < length s)%nat.
Proof.
  unfold drain_read. destruct (read w s) as [[v k]|] eqn:E; [|done]. intros [= <- <-].
  apply read_bounds in E. unfold len in E. rewrite length_drop. lia.
Qed.
Lemma prefixed_shrinks w s k r : get_varint_prefixed_slice w s = Some (k, r) → (length r ≤ length s)%nat.
Proof.
  unfold get_varint_prefixed_slice. destruct (read w s) as [[v n]|] eqn:E; [|done]. simpl.
  destruct (_ <? _); [done|]. intros [= <- <-]. rewrite length_drop. lia.
Qed.
Lemma get_level_shrinks m s l r : get_level m s = Some (l, r) → (length r < length s)%nat.
Proof.
  unfold get_level. destruct (drain_read 32 s) as [[v k]|] eqn:E; [|done]. simpl.
  destruct (_ <=? _); [|done]. intros [= <- <-]. by apply drain_read_shrinks in E.
Qed.
Lemma get_internal_key_shrinks s k r : get_internal_key s = Some (k, r) → (length r ≤ length s)%nat.
Proof.
  unfold get_internal_key. destruct (get_varint_prefixed_slice 32 s) as [[v n]|] eqn:E; [|done].
  intros [= <- <-]. by apply prefixed_shrinks in E.
Qed.

Lemma decode_entry_shrinks t s e s' e' :
  decode_entry t s e = (Continue s', e') → (length s' ≤ length s)%nat.
Proof.
  intros H. unfold decode_entry, read_number in H.
  destruct t; repeat (case_match; simplify_option_eq); try done;
  repeat match goal with
  | H : drain_read _ _ = Some _ |- _ => apply drain_read_shrinks in H
  | H : get_varint_prefixed_slice _ _ = Some _ |- _ => apply prefixed_shrinks in H
  | H : get_level _ _ = Some _ |- _ => apply get_level_shrinks in H
  | H : get_internal_key _ = Some _ |- _ => apply get_internal_key_shrinks in H
  end; lia.
Qed.

(** One turn of the loop that reads an entry. *)
Definition decode_turn (a b : bytes * VersionEdit) : Prop :=
  ∃ tag r, drain_read 32 a.1 = Some (tag, r) ∧ decode_entry (tag_from tag) r a.2 = (Continue b.1, b.2).

Lemma decode_hangs_1 fuel src s msg e : (length s ≤ fuel)%nat →
  (decode_loop fuel src s msg e).1 = OutOfFuel →
  ∃ s' e', rtc decode_turn (s, e) (s', e') ∧ s' ≠ [] ∧ drain_read 32 s' = None ∧ src ≠ [].
Proof.
  revert s msg e. induction fuel as [|fuel IH]; intros s msg e Hl H.
  { destruct s; [by apply decode_finish_fuel in H|simpl in Hl; lia]. }
  destruct s as [|b s]; [by apply decode_finish_fuel in H|]. cbn [decode_loop] in H.
  destruct (drain_read 32 (b :: s)) as [[tag r]|] eqn:Hd.
  - destruct (decode_entry (tag_from tag) r e) as [[s'|m|er] e'] eqn:He; [|by apply decode_finish_fuel in H|done].
    pose proof (drain_read_shrinks _ _ _ _ Hd). pose proof (decode_entry_shrinks _ _ _ _ _ He).
    destruct (IH s' msg e') as (s2 & e2 & Hr & Hn); [lia|done|]. exists s2, e2. split; [|done].
    eapply rtc_l; [|exact Hr]. by exists tag, r.
  - destruct src as [|c src]; [by apply decode_finish_fuel in H|]. exists (b :: s), e. by split_and!.
Qed.

Lemma decode_hangs_2 a b src msg fuel : rtc decode_turn a b → src ≠ [] → b.1 ≠ [] → drain_read 32 b.1 = None →
  (decode_loop fuel src a.1 msg a.2).1 = OutOfFuel.
Proof.
  intros Hr Hsrc Hb Hd. revert fuel. induction Hr as [[s e]|[s e] [s' e'] b (tag & r & Ht & He) _ IH]; intros fuel.
  - by apply decode_stuck.
  - simpl in *. assert (s ≠ []) by (intros ->; apply drain_read_shrinks in Ht; simpl in Ht; lia).
    destruct s as [|c s]; [done|]. destruct fuel as [|fuel]; [done|]. cbn [decode_loop].
    rewrite Ht, He. by apply IH.
Qed.

(** C30: termination of the decoder, exactly: it uses up the fuel of [decoded_from]
    just when reading the entries leads to a rest that is not empty and has no
    readable tag, and then no amount of fuel is enough; on every other input it
    returns. *)
Theorem version_edit_decode_terminates (src : bytes) (e : VersionEdit) :
  ((decoded_from src e).1 = OutOfFuel ↔
    ∃ s e', rtc decode_turn (src, ve_clear e) (s, e') ∧ s ≠ [] ∧ drain_read 32 s = None) ∧
  ((decoded_from src e).1 = OutOfFuel → ∀ fuel, (decode_loop fuel src src "" (ve_clear e)).1 = OutOfFuel).
Proof.
  assert ((decoded_from src e).1 = OutOfFuel →
    ∃ s e', rtc decode_turn (src, ve_clear e) (s, e') ∧ s ≠ [] ∧ drain_read 32 s = None ∧ src ≠ []) as H1
    by (by apply decode_hangs_1).
  split; [split|].
  - intros (s & e' & ? & ? & ? & _)%H1. eauto.
  - intros (s & e' & Hr & Hs & Hd). apply (decode_hangs_2 (src, ve_clear e) (s, e')); [done| |done..].
    intros ->. inversion Hr as [|x [s1 e1] z (tag & r & Ht & _)]; simplify_eq.
  - intros (s & e' & Hr & Hs & Hd & Hsrc)%H1 fuel. by apply (decode_hangs_2 (src, ve_clear e) (s, e')).
Qed.

(** A record that ends inside a tag hangs the decoder; the branch for an invalid
    tag has no [break]. *)
Example version_edit_torn_tag : ∀ fuel, (decode_loop fuel [128] [128] "" (ve_new 7)).1 = OutOfFuel.
Proof. intros fuel. by apply decode_stuck. Qed.

(** An empty comparator name is written as a tag with nothing after it, which
    swallows the next entry. *)
Example version_edit_empty_name : ∃ m,
  (decoded_from (encode_to elements (mkEdit 7 (Some []) (Some 5) None None None [] ∅ []) []) (ve_new 7)).1 =
    Err (Corruption m).
Proof. eexists. vm_compute. reflexivity. Qed.
