(* ===== verification/Version.v ===== *)
(** * Versions: [src/version/mod.rs]

    The files of a version by level: searching a level, overlap of key ranges,
    the choice of a level for a flushed memtable, point lookups over the tables
    and the iterator over the files of a level. *)
From stdpp Require Import gmap sorting.
From S2P Require Import Prelude Coding Comparator Format Iterator VersionEdit.
Open Scope Z_scope.

Definition FILE_META_LENGTH : Z := 16.

(** ** Searching a level *)
Section Files.
Context (ucmp : Comparator).
Notation icmp := (InternalKeyComparator ucmp).

(** [find_file]: every turn halves [right - left]. *)
Fixpoint find_file_loop (fuel : nat) (files : list FileMetaData) (ikey : bytes) (left_ right_ : nat)
    : outcome nat :=
  if (left_ <? right_)%nat then
    match fuel with
    | O => OutOfFuel
    | S fuel =>
      let mid := ((left_ + right_) / 2)%nat in
      f ← index files mid;
      c ← @compare icmp (ik_data (fm_largest f)) ikey;
      match c with
      | Lt => find_file_loop fuel files ikey (mid + 1) right_
      | _ => find_file_loop fuel files ikey left_ mid
      end
    end
  else Ok right_.
Definition find_file (files : list FileMetaData) (ikey : bytes) : outcome nat :=
  find_file_loop (length files) files ikey 0 (length files).

Definition is_cmp (c : comparison) (a b : bytes) : outcome bool :=
  r ← @compare ucmp a b; Ok (bool_decide (r = c)).
Definition key_is_after_file (file : FileMetaData) (ukey : option bytes) : outcome bool :=
  match ukey with
  | Some k => l ← ikey_user_key (fm_largest file); is_cmp Gt k l
  | None => Ok false
  end.
Definition key_is_before_file (file : FileMetaData) (ukey : option bytes) : outcome bool :=
  match ukey with
  | Some k => s ← ikey_user_key (fm_smallest file); is_cmp Lt k s
  | None => Ok false
  end.

Fixpoint some_file_overlap (files : list FileMetaData) (smallest_ukey largest_ukey : option bytes)
    : outcome bool :=
  match files with
  | [] => Ok false
  | file :: files =>
    a ← key_is_after_file file smallest_ukey;
    b ← (if (a : bool) then Ok true else key_is_before_file file largest_ukey);
    if (b : bool) then some_file_overlap files smallest_ukey largest_ukey else Ok true
  end.
Definition some_file_overlap_range (disjoint : bool) (files : list FileMetaData)
    (smallest_ukey largest_ukey : option bytes) : outcome bool :=
  if negb disjoint then some_file_overlap files smallest_ukey largest_ukey
  else
    idx ← match smallest_ukey with
            | Some s_ukey =>
              smallest_ikey ← ikey_new s_ukey MAX_KEY_SEQUENCE VALUE_TYPE_FOR_SEEK;
              find_file files (ik_data smallest_ikey)
            | None => Ok 0%nat
            end;
    if (length files <=? idx)%nat then Ok false
    else
      f ← index files idx;
      b ← key_is_before_file f largest_ukey;
      Ok (negb b).
End Files.

Section Overlap.
Context (ck : bool) (ucmp : Comparator).

Definition overlap_in_level (files : list (list FileMetaData)) (level : nat)
    (smallest_ukey largest_ukey : option bytes) : outcome bool :=
  fs ← index files level;
  some_file_overlap_range ucmp (0 <? level)%nat fs smallest_ukey largest_ukey.

(** One pass of the loop of [get_overlapping_inputs]: the files collected, or the
    extended bounds to start again with. *)
Fixpoint overlapping_pass (level : nat) (files : list FileMetaData) (user_begin user_end : option bytes)
    (result : list FileMetaData) : outcome (list FileMetaData + option bytes * option bytes) :=
  match files with
  | [] => Ok (inl result)
  | file :: files =>
    file_begin ← ikey_user_key (fm_smallest file);
    file_end ← ikey_user_key (fm_largest file);
    before ← match user_begin with Some b => is_cmp ucmp Lt file_end b | None => Ok false end;
    if (before : bool) then overlapping_pass level files user_begin user_end result else
    after ← match user_end with Some e => is_cmp ucmp Gt file_begin e | None => Ok false end;
    if (after : bool) then overlapping_pass level files user_begin user_end result else
    if (level =? 0)%nat then
      expand_begin ← match user_begin with Some b => is_cmp ucmp Lt file_begin b | None => Ok false end;
      expand_end ← match user_end with Some e => is_cmp ucmp Gt file_end e | None => Ok false end;
      if (expand_begin : bool) || (expand_end : bool) then
        Ok (inr (if expand_begin then Some file_begin else user_begin,
                 if expand_end then Some file_end else user_end))
      else overlapping_pass level files user_begin user_end (result ++ [file])
    else overlapping_pass level files user_begin user_end (result ++ [file])
  end.

(** [while need_restart]: every restart takes in a file that was not inside the
    bounds before, so there are at most as many as there are files. *)
Fixpoint overlapping_loop (fuel : nat) (level : nat) (files : list FileMetaData)
    (user_begin user_end : option bytes) : outcome (list FileMetaData) :=
  match fuel with
  | O => OutOfFuel
  | S fuel =>
    r ← overlapping_pass level files user_begin user_end [];
    match r with
    | inl result => Ok result
    | inr (b, e) => overlapping_loop fuel level files b e
    end
  end.

Definition get_overlapping_inputs (files : list (list FileMetaData)) (level : nat)
    (begin_ end_ : option InternalKey) : outcome (list FileMetaData) :=
  user_begin ← match begin_ with Some k => b ← ikey_user_key k; Ok (Some b) | None => Ok None end;
  user_end ← match end_ with Some k => e ← ikey_user_key k; Ok (Some e) | None => Ok None end;
  fs ← index files level;
  overlapping_loop (S (length fs)) level fs user_begin user_end.

(** [total_file_size]: the sum of the sizes. *)
Fixpoint sum_sizes (acc : Z) (files : list FileMetaData) : outcome Z :=
  match files with
  | [] => Ok acc
  | f :: files => acc ← uadd ck 64 acc (fm_file_size f); sum_sizes acc files
  end.
Definition total_file_size (files : list FileMetaData) : outcome Z := sum_sizes 0 files.

(** [u64] multiplication. *)
Definition umul (a b : Z) : outcome Z :=
  if (a * b <? 2 ^ 64) then Ok (a * b) else if ck then Panic else Ok (wrap 64 (a * b)).
Definition max_grandparent_overlap_bytes (max_file_size : Z) : outcome Z := umul 10 max_file_size.

(** The loop of [pick_level_for_memtable_output]: [n] levels may still be tried. *)
Fixpoint pick_level_loop (n : nat) (files : list (list FileMetaData)) (max_levels : nat) (max_file_size : Z)
    (smallest_ukey largest_ukey : bytes) (smallest_ikey largest_ikey : InternalKey) (level : nat) : outcome nat :=
  match n with
  | O => Ok level
  | S n =>
    o ← overlap_in_level files (level + 1) (Some smallest_ukey) (Some largest_ukey);
    if (o : bool) then Ok level else
    stop ← (if (level + 2 <? max_levels)%nat then
              overlaps ← get_overlapping_inputs files (level + 2) (Some smallest_ikey) (Some largest_ikey);
              total ← total_file_size overlaps;
              limit ← max_grandparent_overlap_bytes max_file_size;
              Ok (limit <? total)
            else Ok false);
    if (stop : bool) then Ok level
    else pick_level_loop n files max_levels max_file_size smallest_ukey largest_ukey smallest_ikey largest_ikey
           (level + 1)
  end.

Definition pick_level_for_memtable_output (files : list (list FileMetaData))
    (max_levels max_mem_compact_level : nat) (max_file_size : Z) (smallest_ukey largest_ukey : bytes) : outcome nat :=
  o ← overlap_in_level files 0 (Some smallest_ukey) (Some largest_ukey);
  if (o : bool) then Ok 0%nat
  else
    smallest_ikey ← ikey_new smallest_ukey MAX_KEY_SEQUENCE VALUE_TYPE_FOR_SEEK;
    largest_ikey ← ikey_new largest_ukey 0 Deletion;
    pick_level_loop max_mem_compact_level files max_levels max_file_size smallest_ukey largest_ukey
      smallest_ikey largest_ikey 0.
End Overlap.

(** ** Files of a level *)
Section Order.
Context (ucmp : Comparator) (uok : bytes → Prop) (uord : bytes → bytes → comparison).
Context {CO : ComparatorOrder ucmp uok uord}.

Notation smallest f := (ik_data (fm_smallest f)).
Notation largest f := (ik_data (fm_largest f)).
Notation usmallest f := (ukey (ik_data (fm_smallest f))).
Notation ulargest f := (ukey (ik_data (fm_largest f))).

(** The bounds of a file are internal keys in order. *)
Record file_ok (f : FileMetaData) : Prop := {
  fo_smallest : ikey_ok uok (smallest f);
  fo_largest : ikey_ok uok (largest f);
  fo_range : iord uord (smallest f) (largest f) ≠ Gt;
  fo_seq : kseq (largest f) ≤ MAX_KEY_SEQUENCE;
}.

(** The invariant of the levels above 0. *)
Definition disjoint_files (files : list FileMetaData) : Prop :=
  ∀ i j a b, (i < j)%nat → files !! i = Some a → files !! j = Some b → iord uord (largest a) (smallest b) = Lt.

Lemma iord_uord_le a b : iord uord a b ≠ Gt → uord (ukey a) (ukey b) ≠ Gt.
Proof. unfold iord. by destruct (uord (ukey a) (ukey b)). Qed.

Lemma file_ok_lookup (files : list FileMetaData) (i : nat) f : Forall file_ok files → files !! i = Some f → file_ok f.
Proof. rewrite Forall_lookup. eauto. Qed.

Lemma user_key_ok k : ikey_ok uok (ik_data k) → ikey_user_key k = Ok (ukey (ik_data k)).
Proof. destruct k. intros [? _]. by apply ikey_user_key_eq. Qed.

(** The largest keys of a level increase. *)
Lemma largest_sorted (files : list FileMetaData) (i j : nat) a b : Forall file_ok files → disjoint_files files →
  (i ≤ j)%nat → files !! i = Some a → files !! j = Some b → iord uord (largest a) (largest b) ≠ Gt.
Proof.
  intros Hf Hd Hij Ha Hb. destruct (decide (i = j)) as [->|].
  - simplify_eq. by rewrite (ord_refl (iord uord)).
  - rewrite (ord_lt_le_trans (iord uord) _ (smallest b)); [done|apply (Hd i j a b); [lia|done..]|].
    by eapply file_ok_lookup.
Qed.
Lemma smallest_sorted (files : list FileMetaData) (i j : nat) a b : Forall file_ok files → disjoint_files files →
  (i ≤ j)%nat → files !! i = Some a → files !! j = Some b → iord uord (smallest a) (smallest b) ≠ Gt.
Proof.
  intros Hf Hd Hij Ha Hb. destruct (decide (i = j)) as [->|].
  - simplify_eq. by rewrite (ord_refl (iord uord)).
  - rewrite (ord_le_lt_trans (iord uord) _ (largest a)); [done| |apply (Hd i j a b); [lia|done..]].
    by eapply file_ok_lookup.
Qed.

(** [i] is the position of the first file that ends at or after the key. *)
Definition first_not_below (files : list FileMetaData) (key : bytes) (r : nat) : Prop :=
  (r ≤ length files)%nat ∧
  (∀ i f, (i < r)%nat → files !! i = Some f → iord uord (largest f) key = Lt) ∧
  (∀ f, files !! r = Some f → iord uord (largest f) key ≠ Lt).

Lemma find_file_loop_ok fuel files key left_ right_ :
  Forall file_ok files → disjoint_files files → ikey_ok uok key →
  (left_ ≤ right_ ≤ length files)%nat → (right_ - left_ ≤ fuel)%nat →
  (∀ i f, (i < left_)%nat → files !! i = Some f → iord uord (largest f) key = Lt) →
  (∀ f, files !! right_ = Some f → iord uord (largest f) key ≠ Lt) →
  ∃ r, find_file_loop ucmp fuel files key left_ right_ = Ok r ∧ first_not_below files key r.
Proof.
  intros Hf Hd Hk. revert left_ right_. induction fuel as [|fuel IH]; intros l r Hlr Hfuel Hlt Hge; cbn [find_file_loop].
  all: destruct (Nat.ltb_spec l r); [|exists r; split; [done|]; assert (l = r) as -> by lia; by split; [lia|]].
  { lia. }
  assert (l ≤ (l + r) / 2 < r)%nat as Hmid.
  { split; [apply Nat.div_le_lower_bound; lia|apply Nat.Div0.div_lt_upper_bound; lia]. }
  destruct (lookup_lt_is_Some_2 files ((l + r) / 2)) as [f Hm]; [lia|].
  unfold index. rewrite Hm, Ok_bind. pose proof (file_ok_lookup _ _ _ Hf Hm) as Hfo.
  rewrite (@compare_ord (InternalKeyComparator ucmp) (ikey_ok uok) (iord uord) _) by (done || apply Hfo). rewrite Ok_bind.
  destruct (iord uord (largest f) key) eqn:E; apply IH; try lia; try done; try (intros; simplify_eq; congruence).
  intros i g Hi Hg. eapply (ord_le_lt_trans (iord uord)); [|exact E].
  eapply (largest_sorted files i ((l + r) / 2)); [done..|lia|done|done].
Qed.

Lemma find_file_ok files key : Forall file_ok files → disjoint_files files → ikey_ok uok key →
  ∃ r, find_file ucmp files key = Ok r ∧ first_not_below files key r.
Proof.
  intros Hf Hd Hk. apply find_file_loop_ok; try done; [lia|lia| |].
  - intros i f. lia.
  - intros f Hl. apply lookup_lt_Some in Hl. lia.
Qed.

(** *** Overlap with a range of user keys ([None]: no bound) *)

Definition not_after (lo : option bytes) (f : FileMetaData) : bool :=
  match lo with Some k => bool_decide (uord (ulargest f) k ≠ Lt) | None => true end.
Definition not_before (hi : option bytes) (f : FileMetaData) : bool :=
  match hi with Some k => bool_decide (uord (usmallest f) k ≠ Gt) | None => true end.
Definition overlaps (lo hi : option bytes) (f : FileMetaData) : bool := not_after lo f && not_before hi f.
Definition opt_ok (k : option bytes) : Prop := match k with Some k => uok k | None => True end.

Lemma is_cmp_ok c a b : uok a → uok b → is_cmp ucmp c a b = Ok (bool_decide (uord a b = c)).
Proof. intros. unfold is_cmp. by rewrite compare_ord. Qed.

Lemma key_is_after_file_ok f lo : file_ok f → opt_ok lo →
  key_is_after_file ucmp f lo = Ok (negb (not_after lo f)).
Proof.
  intros Hf Hlo. destruct lo as [k|]; [|done]. simpl in *.
  rewrite (user_key_ok _ (fo_largest f Hf)), Ok_bind, is_cmp_ok by (done || apply Hf).
  f_equal. rewrite <- bool_decide_not. apply bool_decide_ext. rewrite (ord_gt_lt uord).
  destruct (decide (uord (ulargest f) k = Lt)); tauto.
Qed.
Lemma key_is_before_file_ok f hi : file_ok f → opt_ok hi →
  key_is_before_file ucmp f hi = Ok (negb (not_before hi f)).
Proof.
  intros Hf Hhi. destruct hi as [k|]; [|done]. simpl in *.
  rewrite (user_key_ok _ (fo_smallest f Hf)), Ok_bind, is_cmp_ok by (done || apply Hf).
  f_equal. rewrite <- bool_decide_not. apply bool_decide_ext. rewrite (ord_gt_lt uord).
  destruct (decide (uord k (usmallest f) = Lt)); tauto.
Qed.

Lemma some_file_overlap_ok files lo hi : Forall file_ok files → opt_ok lo → opt_ok hi →
  some_file_overlap ucmp files lo hi = Ok (existsb (overlaps lo hi) files).
Proof.
  intros Hf Hlo Hhi. induction Hf as [|f files Hfo Hf IH]; [done|]. cbn [some_file_overlap existsb].
  rewrite key_is_after_file_ok, Ok_bind by done. unfold overlaps at 1.
  destruct (not_after lo f); simpl; [|done].
  rewrite key_is_before_file_ok, Ok_bind by done. by destruct (not_before hi f).
Qed.

(** The seek key of a user key sorts before all the internal keys of that user key. *)
Lemma seek_key_lt k u : kseq k ≤ MAX_KEY_SEQUENCE →
  iord uord k (ikey u MAX_KEY_SEQUENCE Value) = Lt ↔ uord (ukey k) u = Lt.
Proof.
  intros Hs. unfold iord. rewrite ukey_ikey, kseq_ikey by (unfold seq_ok, MAX_KEY_SEQUENCE; lia).
  destruct (uord (ukey k) u); [|done..]. split; [|done]. intros Hc.
  assert (MAX_KEY_SEQUENCE < kseq k) by exact Hc. lia.
Qed.

Lemma some_file_overlap_range_ok disjoint files lo hi :
  Forall file_ok files → (disjoint = true → disjoint_files files) → opt_ok lo → opt_ok hi →
  some_file_overlap_range ucmp disjoint files lo hi = Ok (existsb (overlaps lo hi) files).
Proof.
  intros Hf Hd Hlo Hhi. unfold some_file_overlap_range. destruct disjoint; cbn [negb]; [|by apply some_file_overlap_ok].
  specialize (Hd eq_refl).
  assert (∃ r, match lo with
      | Some s => k ← ikey_new s MAX_KEY_SEQUENCE VALUE_TYPE_FOR_SEEK; find_file ucmp files (ik_data k)
      | None => Ok 0%nat end = Ok r ∧
      (∀ i f, (i < r)%nat → files !! i = Some f → not_after lo f = false) ∧
      (∀ f, files !! r = Some f → not_after lo f = true)) as (r & -> & Hlt & Hge).
  { destruct lo as [s|]; [|exists 0%nat; split_and!; [done|intros i f Hi; exfalso; lia|done]].
    assert (seq_ok MAX_KEY_SEQUENCE) by (unfold seq_ok, MAX_KEY_SEQUENCE; lia).
    rewrite ikey_new_eq, Ok_bind by done. cbn [ik_data].
    destruct (find_file_ok files (ikey s MAX_KEY_SEQUENCE Value)) as (r & Hr & _ & Hlt & Hge); [done..| |].
    { split; [rewrite length_ikey; lia|by rewrite ukey_ikey]. }
    exists r. split_and!; [exact Hr| |].
    - intros i f Hi Hl. simpl. apply bool_decide_eq_false_2. intros Hc; apply Hc.
      apply (seek_key_lt (largest f)); [by eapply file_ok_lookup|by eapply Hlt].
    - intros f Hl. simpl. apply bool_decide_eq_true_2. intros Hc. eapply Hge; [exact Hl|].
      apply seek_key_lt; [by eapply file_ok_lookup|done]. }
  rewrite Ok_bind. destruct (Nat.leb_spec (length files) r).
  - f_equal. symmetry. apply not_true_is_false. rewrite existsb_exists. intros (f & Hin & Ho).
    apply list_elem_of_In, list_elem_of_lookup_1 in Hin as [i Hi]. unfold overlaps in Ho.
    rewrite (Hlt i f) in Ho; [done| |done]. apply lookup_lt_Some in Hi. lia.
  - destruct (lookup_lt_is_Some_2 files r) as [f Hr]; [lia|]. unfold index. rewrite Hr, Ok_bind.
    pose proof (file_ok_lookup _ _ _ Hf Hr) as Hfo.
    rewrite key_is_before_file_ok, Ok_bind, negb_involutive by done. f_equal.
    apply eq_true_iff_eq. rewrite existsb_exists. split.
    + intros Hb. exists f. split; [by eapply list_elem_of_In, list_elem_of_lookup_2|].
      unfold overlaps. by rewrite (Hge f Hr).
    + intros (g & Hin & Ho). apply list_elem_of_In, list_elem_of_lookup_1 in Hin as [j Hj].
      unfold overlaps in Ho. apply andb_true_iff in Ho as [Ha Hb].
      assert (r ≤ j)%nat. { destruct (Nat.le_gt_cases r j); [done|]. by rewrite (Hlt j g) in Ha. }
      destruct hi as [k|]; [|done]. simpl in *. apply bool_decide_eq_true_1 in Hb. apply bool_decide_eq_true_2.
      eapply (ord_le_trans uord); [|exact Hb]. apply iord_uord_le. by apply (smallest_sorted files r j).
Qed.

(** *** The files a compaction has to take in *)

(** The ranges of user keys of two files intersect. *)
Definition touches (f g : FileMetaData) : Prop :=
  uord (usmallest f) (ulargest g) ≠ Gt ∧ uord (usmallest g) (ulargest f) ≠ Gt.

(** The files that overlap the range, and all files connected to them. *)
Inductive connected (files : list FileMetaData) (lo hi : option bytes) : FileMetaData → Prop :=
| connected_range f : f ∈ files → overlaps lo hi f = true → connected files lo hi f
| connected_file f g : connected files lo hi g → f ∈ files → touches f g → connected files lo hi f.

(** A user key respects a lower, an upper bound. *)
Definition above (lo : option bytes) (a : bytes) : Prop :=
  match lo with Some k => uord a k ≠ Lt | None => True end.
Definition below (hi : option bytes) (a : bytes) : Prop :=
  match hi with Some k => uord a k ≠ Gt | None => True end.

#[local] Instance above_dec lo a : Decision (above lo a).
Proof. unfold above. destruct lo; apply _. Defined.
#[local] Instance below_dec hi a : Decision (below hi a).
Proof. unfold below. destruct hi; apply _. Defined.

(** The file lies inside the bounds. *)
Definition inside (lo hi : option bytes) (f : FileMetaData) : Prop :=
  above lo (usmallest f) ∧
  below hi (ulargest f).

#[local] Instance inside_dec lo hi f : Decision (inside lo hi f).
Proof. unfold inside. apply _. Defined.

Lemma overlaps_spec lo hi f : overlaps lo hi f = true ↔
  above lo (ulargest f) ∧
  below hi (usmallest f).
Proof. unfold overlaps. rewrite andb_true_iff. destruct lo, hi; simpl; rewrite ?bool_decide_eq_true; tauto. Qed.

Lemma inside_overlaps lo hi f g : inside lo hi g → touches f g → overlaps lo hi f = true.
Proof.
  intros [H1 H2] [H3 H4]. apply overlaps_spec. split.
  - destruct lo as [k|]; [|done]. apply (ord_not_lt uord). eapply (ord_le_trans uord); [|exact H4].
    by apply (ord_not_lt uord).
  - destruct hi as [k|]; [|done]. by eapply (ord_le_trans uord).
Qed.

(** The new bounds after a file sticks out of the old ones. *)
Record widened (f : FileMetaData) (lo hi lo' hi' : option bytes) : Prop := {
  wi_overlap : overlaps lo hi f = true;
  wi_out : ¬ inside lo hi f;
  wi_lo : lo' = lo ∨ ∃ k, lo = Some k ∧ lo' = Some (usmallest f) ∧ uord (usmallest f) k = Lt;
  wi_hi : hi' = hi ∨ ∃ k, hi = Some k ∧ hi' = Some (ulargest f) ∧ uord (ulargest f) k = Gt;
  wi_in : inside lo' hi' f;
}.

Lemma widened_mono f g lo hi lo' hi' : widened f lo hi lo' hi' →
  (inside lo hi g → inside lo' hi' g) ∧ (overlaps lo hi g = true → overlaps lo' hi' g = true).
Proof.
  intros [_ _ Hlo Hhi _]. unfold inside. rewrite !overlaps_spec.
  assert (∀ a k, lo = Some k → (lo' = lo ∨ lo' = Some (usmallest f) ∧ uord (usmallest f) k = Lt) →
    uord a k ≠ Lt → above lo' a) as H1.
  { intros a k -> [-> | [-> Hk]] Ha; [done|]. apply (ord_not_lt uord). apply (ord_not_lt uord) in Ha.
    eapply (ord_le_trans uord); [|exact Ha]. by rewrite Hk. }
  assert (∀ a k, hi = Some k → (hi' = hi ∨ hi' = Some (ulargest f) ∧ uord (ulargest f) k = Gt) →
    uord a k ≠ Gt → below hi' a) as H2.
  { intros a k -> [-> | [-> Hk]] Ha; [done|]. eapply (ord_le_trans uord); [exact Ha|].
    apply (ord_gt_lt uord) in Hk. by rewrite Hk. }
  assert (lo = None → lo' = None) by naive_solver. assert (hi = None → hi' = None) by naive_solver.
  split; intros [Ha Hb]; (split; [destruct lo; [eapply H1; naive_solver|by rewrite H]|
    destruct hi; [eapply H2; naive_solver|by rewrite H0]]).
Qed.

(** Everything that overlaps the new bounds overlaps the old ones or the file. *)
Lemma widened_overlap f g lo hi lo' hi' : file_ok g → widened f lo hi lo' hi' →
  overlaps lo' hi' g = true → overlaps lo hi g = true ∨ touches g f.
Proof.
  intros Hg [Ho _ Hlo Hhi _]. rewrite !overlaps_spec. intros [Ha Hb]. apply overlaps_spec in Ho as [Ho1 Ho2].
  pose proof (iord_uord_le _ _ (fo_range g Hg)) as Hgr.
  destruct (decide (above lo (ulargest g))) as [Hl|Hl].
  - destruct (decide (below hi (usmallest g))) as [Hh|Hh]; [by left|].
    right. destruct hi as [k|]; [|done]. destruct Hhi as [-> | (k' & [= <-] & -> & Hk)]; [done|].
    split; [done|]. eapply (ord_le_trans uord); [exact Ho2|]. eapply (ord_le_trans uord); [|exact Hgr].
    destruct (uord (usmallest g) k) eqn:E; try (exfalso; apply Hh; congruence).
    apply (ord_gt_lt uord) in E. by rewrite E.
  - right. destruct lo as [k|]; [|done]. destruct Hlo as [-> | (k' & [= <-] & -> & Hk)]; [done|].
    split; [|by apply (ord_not_lt uord)]. eapply (ord_le_trans uord); [exact Hgr|].
    eapply (ord_le_trans uord); [|apply (ord_not_lt uord); exact Ho1].
    destruct (uord (ulargest g) k) eqn:E; try done. exfalso. apply Hl. congruence.
Qed.

(** The tests of the pass, computed. *)
Lemma bound_test_lo lo a : opt_ok lo → uok a →
  match lo with Some b => is_cmp ucmp Lt a b | None => Ok false end = Ok (bool_decide (¬ above lo a)).
Proof.
  intros Hlo Ha. destruct lo as [k|]; simpl.
  - rewrite is_cmp_ok by done. f_equal. apply bool_decide_ext. destruct (uord a k); naive_solver.
  - done.
Qed.
Lemma bound_test_hi hi a : opt_ok hi → uok a →
  match hi with Some b => is_cmp ucmp Gt a b | None => Ok false end = Ok (bool_decide (¬ below hi a)).
Proof.
  intros Hhi Ha. destruct hi as [k|]; simpl.
  - rewrite is_cmp_ok by done. f_equal. apply bool_decide_ext. destruct (uord a k); naive_solver.
  - done.
Qed.

(** What one pass over the files of a level finds. *)
Definition pass_result (level : nat) (files : list FileMetaData) (lo hi : option bytes) (result : list FileMetaData)
    (r : list FileMetaData + option bytes * option bytes) : Prop :=
  match r with
  | inl res => res = result ++ filter (λ f, overlaps lo hi f = true) files ∧
      (level = 0%nat → ∀ f, f ∈ files → overlaps lo hi f = true → inside lo hi f)
  | inr (lo', hi') => level = 0%nat ∧ ∃ f, f ∈ files ∧ widened f lo hi lo' hi'
  end.

Lemma overlapping_pass_ok level files lo hi result : Forall file_ok files → opt_ok lo → opt_ok hi →
  ∃ r, overlapping_pass ucmp level files lo hi result = Ok r ∧ pass_result level files lo hi result r.
Proof.
  intros Hf Hlo Hhi. revert result. induction Hf as [|f files Hfo Hf IH]; intros result.
  { exists (inl result). split; [done|]. simpl. rewrite app_nil_r. split; [done|]. set_solver. }
  cbn [overlapping_pass]. rewrite (user_key_ok _ (fo_smallest f Hfo)), (user_key_ok _ (fo_largest f Hfo)), !Ok_bind.
  assert (∀ r, overlaps lo hi f = false → pass_result level files lo hi result r →
    pass_result level (f :: files) lo hi result r) as Hskip.
  { intros [res|[lo' hi']] Hov; simpl.
    - rewrite filter_cons_False by congruence. intros [-> Hin]. split; [done|].
      intros Hl g [->|Hg]%elem_of_cons Hgo; [congruence|by apply Hin].
    - intros (? & g & ? & ?). split; [done|]. exists g. split; [by right|done]. }
  assert (∀ r, overlaps lo hi f = true → (level = 0%nat → inside lo hi f) →
    pass_result level files lo hi (result ++ [f]) r → pass_result level (f :: files) lo hi result r) as Htake.
  { intros [res|[lo' hi']] Hov Hin; simpl.
    - rewrite filter_cons_True, <- app_assoc by done. intros [-> Hall]. split; [done|].
      intros Hl g [->|Hg]%elem_of_cons Hgo; [by apply Hin|by apply Hall].
    - intros (? & g & ? & ?). split; [done|]. exists g. split; [by right|done]. }
  rewrite (bound_test_lo lo (ulargest f)), Ok_bind by (done || apply Hfo). case_bool_decide as H1.
  { destruct (IH result) as (r & Hr & Hp). exists r. split; [exact Hr|]. apply Hskip; [|done].
    apply not_true_is_false. rewrite overlaps_spec. tauto. }
  rewrite (bound_test_hi hi (usmallest f)), Ok_bind by (done || apply Hfo). case_bool_decide as H2.
  { destruct (IH result) as (r & Hr & Hp). exists r. split; [exact Hr|]. apply Hskip; [|done].
    apply not_true_is_false. rewrite overlaps_spec. tauto. }
  assert (overlaps lo hi f = true) as Hov by (apply overlaps_spec; split; apply dec_stable; tauto).
  destruct (Nat.eqb_spec level 0) as [->|Hlv].
  - rewrite (bound_test_lo lo (usmallest f)), Ok_bind, (bound_test_hi hi (ulargest f)), Ok_bind by (done || apply Hfo).
    pose proof (iord_uord_le _ _ (fo_range f Hfo)) as Hr.
    destruct (decide (inside lo hi f)) as [Hin|Hin].
    + destruct Hin as [Hi1 Hi2]. rewrite !bool_decide_eq_false_2 by tauto. simpl.
      destruct (IH (result ++ [f])) as (r & Hr' & Hp). exists r. split; [done|]. by apply Htake.
    + assert (bool_decide (¬ above lo (usmallest f)) || bool_decide (¬ below hi (ulargest f)) = true) as ->.
      { apply orb_true_iff. rewrite !bool_decide_eq_true. unfold inside in Hin. apply not_and_l in Hin. done. }
      eexists (inr _). split; [done|]. split; [done|]. exists f. split; [set_solver|].
      split; [done|done| | |].
      * case_bool_decide as Hc; [right|by left]. destruct lo as [k|]; [|by destruct Hc]. exists k. split_and!; [done..|].
        simpl in Hc. by apply dec_stable in Hc.
      * case_bool_decide as Hc; [right|by left]. destruct hi as [k|]; [|by destruct Hc]. exists k. split_and!; [done..|].
        simpl in Hc. by apply dec_stable in Hc.
      * split; case_bool_decide as Hc; simpl; rewrite ?(ord_refl uord); try done; by apply dec_stable in Hc.
  - destruct (IH (result ++ [f])) as (r & Hr & Hp). exists r. split; [done|]. by apply Htake.
Qed.

Definition outside (lo hi : option bytes) (files : list FileMetaData) : nat :=
  length (filter (λ f, ¬ inside lo hi f) files).

Lemma outside_le lo hi files : (outside lo hi files ≤ length files)%nat.
Proof. apply length_filter. Qed.
Lemma widened_outside f files lo hi lo' hi' : f ∈ files → widened f lo hi lo' hi' →
  (outside lo' hi' files < outside lo hi files)%nat.
Proof.
  intros Hin Hw. unfold outside.
  assert (∀ l, length (filter (λ g, ¬ inside lo' hi' g) l) ≤ length (filter (λ g, ¬ inside lo hi g) l))%nat as Hle.
  { induction l as [|g l IH]; [done|]. rewrite !filter_cons.
    destruct (widened_mono f g _ _ _ _ Hw) as [Hg _]. repeat case_decide; simpl; try lia; tauto. }
  apply list_elem_of_split in Hin as (l1 & l2 & ->). rewrite !filter_app, !filter_cons, !length_app.
  rewrite decide_False by (intros Hc; apply Hc, Hw). rewrite decide_True by apply Hw. simpl.
  pose proof (Hle l1). pose proof (Hle l2). lia.
Qed.

Lemma widened_ok f lo hi lo' hi' : file_ok f → widened f lo hi lo' hi' → opt_ok lo → opt_ok hi →
  opt_ok lo' ∧ opt_ok hi'.
Proof.
  intros Hf [_ _ Hlo Hhi _] H1 H2. split.
  - destruct Hlo as [-> | (k & _ & -> & _)]; [done|]. apply Hf.
  - destruct Hhi as [-> | (k & _ & -> & _)]; [done|]. apply Hf.
Qed.

(** Level 0: the loop ends with exactly the connected files. *)
Lemma overlapping_loop_0 fuel files lo0 hi0 lo hi : Forall file_ok files → opt_ok lo → opt_ok hi →
  (outside lo hi files < fuel)%nat →
  (∀ g, overlaps lo0 hi0 g = true → overlaps lo hi g = true) →
  (∀ g, g ∈ files → overlaps lo hi g = true → connected files lo0 hi0 g) →
  ∃ res, overlapping_loop ucmp fuel 0 files lo hi = Ok res ∧ res `sublist_of` files ∧
    ∀ f, f ∈ res ↔ connected files lo0 hi0 f.
Proof.
  intros Hf. pose proof Hf as Hfo. rewrite Forall_forall in Hfo. revert lo hi.
  induction fuel as [|fuel IH]; intros lo hi Hlo Hhi Hfuel Hsub Hcon; [lia|]. cbn [overlapping_loop].
  destruct (overlapping_pass_ok 0 files lo hi [] Hf Hlo Hhi) as ([res|[lo' hi']] & -> & Hp); rewrite Ok_bind; simpl in Hp.
  - destruct Hp as [-> Hin]. eexists. split; [done|]. split; [apply sublist_filter|]. intros f.
    rewrite list_elem_of_filter. split; [naive_solver|]. intros Hc.
    induction Hc as [f Hff Ho|f g Hg [IHg1 IHg2] Hff Ht]; [by auto|]. split; [|done].
    eapply (inside_overlaps lo hi f g); [by apply Hin|done].
  - destruct Hp as [_ (f & Hff & Hw)].
    destruct (widened_ok f lo hi lo' hi' (Hfo f Hff) Hw Hlo Hhi) as [Hlo' Hhi'].
    apply IH; [done|done| | |].
    + pose proof (widened_outside f files lo hi lo' hi' Hff Hw). lia.
    + intros g Hg. apply (widened_mono f g lo hi lo' hi' Hw). by apply Hsub.
    + intros g Hgf Hg. destruct (widened_overlap f g lo hi lo' hi' (Hfo g Hgf) Hw Hg) as [Ho|Ht]; [by apply Hcon|].
      eapply connected_file; [|done|exact Ht]. apply Hcon; [done|]. apply Hw.
Qed.

Lemma overlapping_loop_n fuel level files lo hi : level ≠ 0%nat → Forall file_ok files → opt_ok lo → opt_ok hi →
  overlapping_loop ucmp (S fuel) level files lo hi = Ok (filter (λ f, overlaps lo hi f = true) files).
Proof.
  intros Hl Hf Hlo Hhi. cbn [overlapping_loop].
  destruct (overlapping_pass_ok level files lo hi [] Hf Hlo Hhi) as ([res|[lo' hi']] & -> & Hp); rewrite Ok_bind; simpl in Hp.
  - by destruct Hp as [-> _].
  - by destruct Hp as [-> _].
Qed.

(** *** The levels of a version *)

(** The invariant of the files of a version: bounds in order on every level, and no
    overlap above level 0. *)
Record levels_ok (files : list (list FileMetaData)) : Prop := {
  lo_files : ∀ level fs, files !! level = Some fs → Forall file_ok fs;
  lo_disjoint : ∀ level fs, files !! level = Some fs → level ≠ 0%nat → disjoint_files fs;
}.

Lemma overlap_in_level_ok files level fs lo hi : levels_ok files → files !! level = Some fs →
  opt_ok lo → opt_ok hi → overlap_in_level ucmp files level lo hi = Ok (existsb (overlaps lo hi) fs).
Proof.
  intros [Hf Hd] Hl Hlo Hhi. unfold overlap_in_level, index. rewrite Hl, Ok_bind.
  apply some_file_overlap_range_ok; [by eapply Hf| |done..].
  intros ?%Nat.ltb_lt. eapply Hd; [done|lia].
Qed.

Definition sizes (fs : list FileMetaData) : Z := foldr (λ f s, fm_file_size f + s) 0 fs.

(** The sizes are numbers whose sum on any level has 64 bits. *)
Definition sizes_ok (files : list (list FileMetaData)) : Prop :=
  ∀ level fs, files !! level = Some fs → Forall (λ f, 0 ≤ fm_file_size f) fs ∧ sizes fs < 2 ^ 64.

Lemma sizes_nonneg fs : Forall (λ f, 0 ≤ fm_file_size f) fs → 0 ≤ sizes fs.
Proof. induction 1; simpl; lia. Qed.
Lemma sum_sizes_ok ck fs acc : Forall (λ f, 0 ≤ fm_file_size f) fs → 0 ≤ acc → acc + sizes fs < 2 ^ 64 →
  sum_sizes ck acc fs = Ok (acc + sizes fs).
Proof.
  intros Hf. revert acc. induction Hf as [|f fs Hfs Hf IH]; intros acc Ha Hs; simpl in *; [f_equal; lia|].
  pose proof (sizes_nonneg fs Hf). unfold uadd. destruct (Z.ltb_spec (acc + fm_file_size f) (2 ^ 64)); [|lia].
  rewrite Ok_bind, IH by lia. f_equal. lia.
Qed.
Lemma sizes_filter (P : FileMetaData → Prop) `{!∀ f, Decision (P f)} fs : Forall (λ f, 0 ≤ fm_file_size f) fs →
  sizes (filter P fs) ≤ sizes fs ∧ Forall (λ f, 0 ≤ fm_file_size f) (filter P fs).
Proof.
  induction 1 as [|f fs Hfs Hf [IH1 IH2]]; [done|]. rewrite filter_cons. case_decide; simpl; split; try lia; auto.
Qed.

(** The sum that [pick_level_for_memtable_output] compares. *)
Lemma grandparents_ok ck files level fs s l : levels_ok files → sizes_ok files → files !! level = Some fs →
  (2 ≤ level)%nat → uok s → uok l →
  ∃ z, (overlaps ← get_overlapping_inputs ucmp files level
          (Some (mkIKey (ikey s MAX_KEY_SEQUENCE Value))) (Some (mkIKey (ikey l 0 Deletion)));
        total_file_size ck overlaps) = Ok z.
Proof.
  intros Hlv Hsz Hl H2 Hs Hl'. unfold get_overlapping_inputs, index.
  rewrite !ikey_user_key_eq, !Ok_bind, !ukey_ikey, Hl, Ok_bind by (rewrite length_ikey; lia).
  rewrite overlapping_loop_n; [|lia|by eapply lo_files|done..]. rewrite Ok_bind. unfold total_file_size.
  destruct (Hsz _ _ Hl) as [Hnn Hlt].
  destruct (sizes_filter (λ f, overlaps (Some s) (Some l) f = true) fs Hnn) as [Hle Hff].
  rewrite sum_sizes_ok; [by eexists|done|lia|lia].
Qed.

(** No file of the level has a user key in the range. *)
Definition level_free (files : list (list FileMetaData)) (s l : bytes) (level : nat) : Prop :=
  ∀ fs f, files !! level = Some fs → f ∈ fs → overlaps (Some s) (Some l) f = false.

Lemma existsb_free files level fs s l : files !! level = Some fs →
  existsb (overlaps (Some s) (Some l)) fs = false → level_free files s l level.
Proof.
  intros Hl He fs' f Hl' Hin. simplify_eq. apply not_true_is_false. intros Ho.
  apply not_true_iff_false in He. apply He, existsb_exists. exists f. by rewrite <- list_elem_of_In.
Qed.

Lemma pick_level_loop_ok ck n files max_file_size s l level : levels_ok files → sizes_ok files →
  (level + n < length files)%nat → 0 ≤ 10 * max_file_size < 2 ^ 64 → uok s → uok l →
  (∀ j, (j ≤ level)%nat → level_free files s l j) →
  ∃ r, pick_level_loop ck ucmp n files (length files) max_file_size s l
         (mkIKey (ikey s MAX_KEY_SEQUENCE Value)) (mkIKey (ikey l 0 Deletion)) level = Ok r ∧
    (level ≤ r ≤ level + n)%nat ∧ ∀ j, (j ≤ r)%nat → level_free files s l j.
Proof.
  intros Hlv Hsz Hn Hm Hs Hl. revert level Hn. induction n as [|n IH]; intros level Hn Hfree.
  { exists level. split_and!; [done|lia|lia|done]. }
  cbn [pick_level_loop]. destruct (lookup_lt_is_Some_2 files (level + 1)) as [fs Hfs]; [lia|].
  rewrite (overlap_in_level_ok files (level + 1) fs), Ok_bind by done.
  destruct (existsb _ fs) eqn:He; [exists level; split_and!; [done|lia|lia|done]|].
  assert (∃ b, (if (level + 2 <? length files)%nat then
       overlaps ← get_overlapping_inputs ucmp files (level + 2)
          (Some (mkIKey (ikey s MAX_KEY_SEQUENCE Value))) (Some (mkIKey (ikey l 0 Deletion)));
       total ← total_file_size ck overlaps;
       limit ← max_grandparent_overlap_bytes ck max_file_size;
       Ok (limit <? total)
     else Ok false) = Ok b) as [b ->].
  { destruct (Nat.ltb_spec (level + 2) (length files)); [|by eexists].
    destruct (lookup_lt_is_Some_2 files (level + 2)) as [fs2 Hfs2]; [lia|].
    destruct (grandparents_ok ck files (level + 2) fs2 s l Hlv Hsz Hfs2) as [z Hz]; [lia|done..|].
    apply bind_Ok in Hz as (o & -> & Hz). rewrite Ok_bind, Hz, Ok_bind.
    unfold max_grandparent_overlap_bytes, umul. destruct (Z.ltb_spec (10 * max_file_size) (2 ^ 64)); [|lia].
    by eexists. }
  rewrite Ok_bind. destruct b; [exists level; split_and!; [done|lia|lia|done]|].
  destruct (IH (level + 1)%nat) as (r & Hr & Hle & Hfr); [lia| |exists r; split_and!; [done|lia|lia|done]].
  intros j Hj. destruct (decide (j = level + 1)%nat) as [->|]; [|apply Hfree; lia].
  by eapply existsb_free.
Qed.
End Order.

(** ** Properties *)
Section Claims.
Context (ucmp : Comparator) (uok : bytes → Prop) (uord : bytes → bytes → comparison).
Context {CO : ComparatorOrder ucmp uok uord}.

(** The range test of a level is exact: the scan of level 0 and the binary
    search of the other levels both answer whether some file of the level has a
    range of user keys that meets the given one. *)
Theorem overlap_in_level_exact (files : list (list FileMetaData)) (level : nat) (fs : list FileMetaData)
    (lo hi : option bytes) :
  levels_ok uok uord files → files !! level = Some fs → opt_ok uok lo → opt_ok uok hi →
  overlap_in_level ucmp files level lo hi = Ok (existsb (overlaps uord lo hi) fs).
Proof. apply overlap_in_level_ok. exact CO. Qed.

(** C22: [get_overlapping_inputs] terminates and selects exactly the files it must:
    on level 0 those that are connected to the range by a chain of overlapping
    files, on the other levels those that overlap the range. *)
Theorem overlapping_inputs_exact (files : list (list FileMetaData)) (level : nat) (fs : list FileMetaData)
    (b e : option InternalKey) :
  levels_ok uok uord files → files !! level = Some fs →
  (∀ k, b = Some k → ikey_ok uok (ik_data k)) → (∀ k, e = Some k → ikey_ok uok (ik_data k)) →
  let lo := (λ k, ukey (ik_data k)) <$> b in
  let hi := (λ k, ukey (ik_data k)) <$> e in
  ∃ res, get_overlapping_inputs ucmp files level b e = Ok res ∧ res `sublist_of` fs ∧
    ∀ f, f ∈ res ↔ if decide (level = 0%nat) then connected uord fs lo hi f
                   else f ∈ fs ∧ overlaps uord lo hi f = true.
Proof.
  intros Hlv Hfs Hb He lo hi.
  assert (∀ k, (∀ x, k = Some x → ikey_ok uok (ik_data x)) →
    (match k with Some x => u ← ikey_user_key x; Ok (Some u) | None => Ok None end) =
      Ok ((λ k, ukey (ik_data k)) <$> k) ∧ opt_ok uok ((λ k, ukey (ik_data k)) <$> k)) as Hk.
  { intros [x|] Hx; [|done]. specialize (Hx x eq_refl). rewrite (user_key_ok uok) by done. split; [done|apply Hx]. }
  unfold get_overlapping_inputs, index. destruct (Hk b Hb) as [-> Hlo], (Hk e He) as [-> Hhi].
  rewrite !Ok_bind, Hfs, Ok_bind. fold lo hi. pose proof (lo_files _ _ _ Hlv _ _ Hfs) as Hf.
  destruct (decide (level = 0%nat)) as [->|Hl].
  - apply (overlapping_loop_0 ucmp uok uord); [done..| |done|].
    + pose proof (outside_le uord lo hi fs). lia.
    + intros g Hg Ho. by apply connected_range.
  - rewrite (overlapping_loop_n ucmp uok uord) by done. eexists. split; [done|].
    split; [apply sublist_filter|]. intros f. rewrite list_elem_of_filter. tauto.
Qed.

Lemma pick_level_ok (ck : bool) (files : list (list FileMetaData)) (max_mem_compact_level : nat)
    (max_file_size : Z) (smallest largest : bytes) :
  levels_ok uok uord files → sizes_ok files → (max_mem_compact_level < length files)%nat →
  0 ≤ 10 * max_file_size < 2 ^ 64 → uok smallest → uok largest →
  ∃ level, pick_level_for_memtable_output ck ucmp files (length files) max_mem_compact_level max_file_size
             smallest largest = Ok level ∧
    (level ≤ max_mem_compact_level)%nat ∧
    (level ≠ 0%nat → ∀ j, (j ≤ level)%nat → level_free uord files smallest largest j).
Proof.
  intros Hlv Hsz Hmax Hm Hs Hl. unfold pick_level_for_memtable_output.
  destruct (lookup_lt_is_Some_2 files 0) as [fs Hfs]; [lia|].
  rewrite (overlap_in_level_ok ucmp uok uord files 0 fs), Ok_bind by done.
  destruct (existsb _ fs) eqn:He; [exists 0%nat; split_and!; [done|lia|done]|].
  rewrite !ikey_new_eq, !Ok_bind by (unfold seq_ok, MAX_KEY_SEQUENCE; lia).
  destruct (pick_level_loop_ok ucmp uok uord ck max_mem_compact_level files max_file_size smallest largest 0)
    as (r & Hr & Hle & Hfree); try done.
  - intros j Hj. assert (j = 0%nat) as -> by lia. by eapply existsb_free.
  - exists r. split_and!; [exact Hr|lia|done].
Qed.

(** C23: flushing a memtable below level 0 is safe: the level chosen is at most
    [max_mem_compact_level], and when it is not 0 no file on it or on any level
    above it has a user key in the range of the memtable. *)
Theorem memtable_level_safe (ck : bool) (files : list (list FileMetaData)) (max_mem_compact_level : nat)
    (max_file_size : Z) (smallest largest : bytes) :
  levels_ok uok uord files → sizes_ok files → (max_mem_compact_level < length files)%nat →
  0 ≤ 10 * max_file_size < 2 ^ 64 → uok smallest → uok largest →
  ∃ level, pick_level_for_memtable_output ck ucmp files (length files) max_mem_compact_level max_file_size
             smallest largest = Ok level ∧
    (level ≤ max_mem_compact_level)%nat ∧
    (level ≠ 0%nat → ∀ j, (j ≤ level)%nat → level_free uord files smallest largest j).
Proof. apply pick_level_ok. Qed.
End Claims.

(** *** A small version *)

Definition sample_file (number size : Z) (lo hi : bytes) : FileMetaData :=
  mkMeta 100 size number (mkIKey (ikey lo 9 Value)) (mkIKey (ikey hi 5 Value)).
Definition sample_levels : list (list FileMetaData) :=
  [ [sample_file 7 10 [10] [30]; sample_file 8 20 [25] [50]; sample_file 9 30 [60] [70]];
    [sample_file 3 10 [1] [2]; sample_file 4 10 [40] [45]];
    [sample_file 1 10 [90] [99]] ].

Lemma sample_file_ok number size lo hi : lex_compare lo hi = Lt → file_ok (λ _, True) lex_compare (sample_file number size lo hi).
Proof.
  intros Hlt. split; cbn [sample_file fm_smallest fm_largest ik_data].
  - split; [rewrite length_ikey; lia|done].
  - split; [rewrite length_ikey; lia|done].
  - by rewrite iord_ukey; rewrite Hlt.
  - rewrite kseq_ikey by (unfold seq_ok, MAX_KEY_SEQUENCE; lia). unfold MAX_KEY_SEQUENCE. lia.
Qed.
Lemma sample_levels_ok : levels_ok (λ _, True) lex_compare sample_levels ∧ sizes_ok sample_levels.
Proof.
  split; [split|]; intros [|[|[|level]]] fs Hfs; try done; injection Hfs as <-; try (intros _).
  1-3: repeat (constructor; [by apply sample_file_ok|]); constructor.
  1-2: intros [|[|i]] [|[|j]] a b Hij Ha Hb; try lia; try done; by injection Ha as <-; injection Hb as <-.
  all: split; [repeat constructor; simpl; lia|vm_compute; done].
Qed.

Lemma overlap_in_level_exact_witness :
  overlap_in_level bytewise sample_levels 1 (Some [3]) (Some [39]) = Ok false ∧
  overlap_in_level bytewise sample_levels 1 (Some [3]) (Some [40]) = Ok true.
Proof.
  destruct sample_levels_ok as [H _].
  split; (etransitivity; [by apply (overlap_in_level_exact bytewise (λ _, True) lex_compare sample_levels 1
    [sample_file 3 10 [1] [2]; sample_file 4 10 [40] [45]])|reflexivity]).
Defined.

Lemma overlapping_inputs_exact_witness :
  ∃ res, get_overlapping_inputs bytewise sample_levels 0 (Some (mkIKey (ikey [5] 1 Value))) (Some (mkIKey (ikey [12] 1 Value))) = Ok res ∧
    sample_file 8 20 [25] [50] ∈ res.
Proof.
  destruct sample_levels_ok as [H _].
  destruct (overlapping_inputs_exact bytewise (λ _, True) lex_compare sample_levels 0
    [sample_file 7 10 [10] [30]; sample_file 8 20 [25] [50]; sample_file 9 30 [60] [70]]
    (Some (mkIKey (ikey [5] 1 Value))) (Some (mkIKey (ikey [12] 1 Value)))) as (res & Hr & _ & Hin); [done|done| | |].
  { intros k [= <-]. split; [vm_compute; lia|done]. } { intros k [= <-]. split; [vm_compute; lia|done]. }
  exists res. split; [done|]. apply Hin. simpl.
  apply (connected_file lex_compare _ _ _ _ (sample_file 7 10 [10] [30])); [|set_solver|by split].
  apply connected_range; [set_solver|reflexivity].
Defined.

Lemma memtable_level_safe_witness :
  pick_level_for_memtable_output true bytewise sample_levels 3 2 (2 ^ 20) [80] [85] = Ok 2%nat ∧
  ∀ j, (j ≤ 2)%nat → level_free lex_compare sample_levels [80] [85] j.
Proof.
  destruct sample_levels_ok as [H H'].
  destruct (memtable_level_safe bytewise (λ _, True) lex_compare true sample_levels 2 (2 ^ 20) [80] [85])
    as (level & Hp & _ & Hfree); [done|done|vm_compute; lia|lia|done|done|].
  assert (level = 2%nat) as ->; [|split; [exact Hp|by apply Hfree]].
  vm_compute in Hp. by injection Hp as <-.
Defined.
