(* ===== verification/LevelIter.v ===== *)
(** * Iterating a level: [src/version/mod.rs], [src/version/version_set.rs]

    [LevelFileNumIterator] walks over the files of a level, [FileIterFactory]
    opens the table of a file through the table cache, and the concatenation of
    the two yields the entries of the whole level. *)
From stdpp Require Import gmap.
From S2P Require Import Prelude Coding Comparator Format Iterator Concat VersionEdit Version.
Open Scope Z_scope.

(** ** [LevelFileNumIterator] *)

Record LevelFileNumIterator : Type := mkLevelIter {
  lf_files : list FileMetaData;
  lf_index : nat;
  lf_value_buf : bytes;
}.

Section LevelIter.
Context (ucmp : Comparator).

Definition lf_new (files : list FileMetaData) : LevelFileNumIterator :=
  mkLevelIter files (length files) (replicate 16 0).
Definition lf_valid (it : LevelFileNumIterator) : bool := (lf_index it <? length (lf_files it))%nat.
Definition lf_valid_or_panic (it : LevelFileNumIterator) : outcome unit := rust_assert (lf_valid it).

(** [fill_value_buf]: the number and the size of the current file. *)
Definition fill_value_buf (it : LevelFileNumIterator) : outcome LevelFileNumIterator :=
  if lf_valid it then
    file ← index (lf_files it) (lf_index it);
    buf ← encode_fixed_64 (lf_value_buf it) (fm_number file);
    tail ← slice_from buf 8;
    tail ← encode_fixed_64 tail (fm_file_size file);
    Ok (mkLevelIter (lf_files it) (lf_index it) (take 8 buf ++ tail))
  else Ok it.
Definition lf_move (it : LevelFileNumIterator) (i : nat) : outcome LevelFileNumIterator :=
  fill_value_buf (mkLevelIter (lf_files it) i (lf_value_buf it)).

Definition lf_seek_to_first (it : LevelFileNumIterator) : outcome LevelFileNumIterator := lf_move it 0.
Definition lf_seek_to_last (it : LevelFileNumIterator) : outcome LevelFileNumIterator :=
  match lf_files it with
  | [] => lf_move it 0
  | _ => lf_move it (length (lf_files it) - 1)
  end.
Definition lf_seek (it : LevelFileNumIterator) (target : bytes) : outcome LevelFileNumIterator :=
  i ← find_file ucmp (lf_files it) target; lf_move it i.
Definition lf_next (it : LevelFileNumIterator) : outcome LevelFileNumIterator :=
  _ ← lf_valid_or_panic it; lf_move it (lf_index it + 1).
Definition lf_prev (it : LevelFileNumIterator) : outcome LevelFileNumIterator :=
  _ ← lf_valid_or_panic it;
  match lf_index it with
  | O => Ok (mkLevelIter (lf_files it) (length (lf_files it)) (lf_value_buf it))
  | S i => lf_move it i
  end.
Definition lf_key (it : LevelFileNumIterator) : outcome bytes :=
  _ ← lf_valid_or_panic it; f ← index (lf_files it) (lf_index it); Ok (ik_data (fm_largest f)).
Definition lf_value (it : LevelFileNumIterator) : outcome bytes :=
  _ ← lf_valid_or_panic it; Ok (lf_value_buf it).

Definition LevelFileNumIterator_Iterator : Iterator LevelFileNumIterator := {|
  it_valid := lf_valid;
  it_seek_to_first := lf_seek_to_first;
  it_seek_to_last := lf_seek_to_last;
  it_seek := lf_seek;
  it_next := lf_next;
  it_prev := lf_prev;
  it_key := lf_key;
  it_value := lf_value;
  it_status := λ it, (Ok tt, it);
|}.
End LevelIter.

(** ** [FileIterFactory] *)

(** What the level iterator asks of the table cache: an iterator for the table
    with a number and a size. *)
Class TableSource (TI : Type) : Type := { new_iter : Z → Z → outcome TI }.

Definition file_iter_derive {TI} {TS : TableSource TI} (value : bytes) : outcome TI :=
  if negb (len value =? FILE_META_LENGTH) then Err (Corruption "file reader invoked with unexpected value")
  else
    let file_number := decode_fixed_64 value in
    rest ← slice_from value 8;
    let file_size := decode_fixed_64 rest in
    new_iter file_number file_size.
Definition FileIterFactory {TI} {TS : TableSource TI} : DerivedIterFactory TI := {| derive := file_iter_derive |}.

(** The iterator of [current_sst_iter] for a level above 0. *)
Definition level_iterator {TI} (files : list FileMetaData) : ConcatenateIterator LevelFileNumIterator TI :=
  concat_new (lf_new files).

(** What the table cache promises for the files of a level: every table opens and
    walks over its entries, which lie between the bounds of the file. *)
Class TableSourceLaws {TI} (IT : Iterator TI) (TS : TableSource TI) (uok : bytes → Prop)
    (uord : bytes → bytes → comparison) (repT : TI → list entry → option nat → Prop)
    (tables : Z → Z → list entry) (files : list FileMetaData) : Prop := {
  ts_fwd :: @FwdLaws TI IT (iord uord) (ikey_ok uok) repT;
  ts_bwd :: @BwdLaws TI IT repT;
  ts_open f : f ∈ files → in_uint 64 (fm_number f) ∧ in_uint 64 (fm_file_size f) ∧
    ∃ it, new_iter (fm_number f) (fm_file_size f) = Ok it ∧ repT it (tables (fm_number f) (fm_file_size f)) None;
  ts_bounds f e : f ∈ files → e ∈ tables (fm_number f) (fm_file_size f) →
    iord uord (ik_data (fm_smallest f)) e.1 ≠ Gt ∧ iord uord e.1 (ik_data (fm_largest f)) ≠ Gt;
}.

(** ** Facts *)
Section Facts.
Context (ucmp : Comparator) (uok : bytes → Prop) (uord : bytes → bytes → comparison).
Context {CO : ComparatorOrder ucmp uok uord}.

(** The entry of a file: its largest key, and its number and size. *)
Definition meta_bytes (f : FileMetaData) : bytes := to_le_bytes 8 (fm_number f) ++ to_le_bytes 8 (fm_file_size f).
Definition file_entry (f : FileMetaData) : entry := (ik_data (fm_largest f), meta_bytes f).

Definition level_rep (it : LevelFileNumIterator) (l : list entry) (p : option nat) : Prop :=
  l = file_entry <$> lf_files it ∧ Forall (file_ok uok uord) (lf_files it) ∧ disjoint_files uord (lf_files it) ∧
  length (lf_value_buf it) = 16%nat ∧
  match p with
  | Some i => lf_index it = i ∧ ∃ f, lf_files it !! i = Some f ∧ lf_value_buf it = meta_bytes f
  | None => (length (lf_files it) ≤ lf_index it)%nat
  end.

Definition pos_of (files : list FileMetaData) (i : nat) : option nat :=
  if (i <? length files)%nat then Some i else None.

Lemma lf_move_ok it l p i : level_rep it l p → ∃ it', lf_move it i = Ok it' ∧ level_rep it' l (pos_of (lf_files it) i).
Proof.
  intros (-> & Hf & Hd & Hb & _). unfold lf_move, fill_value_buf, lf_valid, pos_of. cbn [lf_files lf_index lf_value_buf].
  destruct (Nat.ltb_spec i (length (lf_files it))) as [Hi|Hi].
  - destruct (lookup_lt_is_Some_2 _ _ Hi) as [f Hl]. unfold index. rewrite Hl, Ok_bind.
    unfold encode_fixed_64. rewrite assert_true, !Ok_bind by (apply bool_decide_eq_true_2; unfold len; lia).
    rewrite slice_from_app, Ok_bind by (by rewrite length_to_le_bytes).
    rewrite assert_true, !Ok_bind by (apply bool_decide_eq_true_2; unfold len; rewrite length_drop; lia).
    rewrite take_app_length' by (by rewrite length_to_le_bytes). rewrite (drop_ge (drop _ _)) by (rewrite length_drop; lia).
    rewrite app_nil_r. eexists. split; [done|]. unfold level_rep. cbn [lf_files lf_index lf_value_buf].
    split_and!; [done..| |done|by exists f]. by rewrite length_app, !length_to_le_bytes.
  - eexists. split; [done|]. unfold level_rep. by split_and!.
Qed.

Lemma level_seek_pos files target r : Forall (file_ok uok uord) files → first_not_below uord files target r →
  seek_pos (iord uord) (file_entry <$> files) target = pos_of files r.
Proof.
  intros Hf (Hr & Hlt & Hge). unfold pos_of. destruct (Nat.ltb_spec r (length files)) as [Hlen|Hlen].
  - apply seek_pos_Some. destruct (lookup_lt_is_Some_2 _ _ Hlen) as [f Hl]. split.
    + exists (file_entry f). rewrite list_lookup_fmap, Hl. split; [done|by apply Hge].
    + intros j e Hj. rewrite list_lookup_fmap, fmap_Some. intros (g & Hg & ->). by apply (Hlt j).
  - apply seek_pos_None. intros j e. rewrite list_lookup_fmap, fmap_Some. intros (g & Hg & ->).
    apply (Hlt j); [|done]. apply lookup_lt_Some in Hg. lia.
Qed.

Instance level_fwd : @FwdLaws _ (LevelFileNumIterator_Iterator ucmp) (iord uord) (ikey_ok uok) level_rep.
Proof.
  split; simpl.
  - intros it l i (-> & _ & _ & _ & _ & f & Hl & _). rewrite length_fmap. by eapply lookup_lt_Some.
  - intros it l [i|] (-> & _ & _ & _ & Hp); unfold lf_valid.
    + destruct Hp as [-> (f & Hl & _)]. apply Nat.ltb_lt. by eapply lookup_lt_Some.
    + by apply Nat.ltb_ge.
  - intros it l p Hr. destruct (lf_move_ok it l p 0 Hr) as (it' & Hm & Hr'). exists it'. split; [done|].
    destruct Hr as (-> & _). by destruct (lf_files it).
  - intros it l p t Hr Ht. destruct (Hr) as (Hl & Hf & Hd & _). unfold lf_seek.
    destruct (find_file_ok ucmp uok uord (lf_files it) t Hf Hd Ht) as (r & -> & Hrr). rewrite Ok_bind.
    rewrite Hl, (level_seek_pos _ _ _ Hf Hrr), <- Hl. by eapply lf_move_ok.
  - intros it l i Hr. destruct (Hr) as (Hl & _ & _ & _ & Hi & f & Hlk & _). unfold lf_next, lf_valid_or_panic, lf_valid.
    rewrite assert_true, Ok_bind by (apply Nat.ltb_lt; rewrite Hi; by eapply lookup_lt_Some).
    destruct (lf_move_ok it l _ (lf_index it + 1) Hr) as (it' & -> & Hr'). exists it'. split; [done|].
    unfold next_pos. rewrite Hl, length_fmap, <- Hl. unfold pos_of in Hr'. rewrite Hi, Nat.add_1_r in Hr'.
    case_decide; [by rewrite (proj2 (Nat.ltb_lt _ _)) in Hr' by done|by rewrite (proj2 (Nat.ltb_ge _ _)) in Hr' by lia].
  - intros it l i e (-> & _ & _ & _ & Hi & f & Hl & _) He. unfold lf_key, lf_valid_or_panic, lf_valid, index.
    rewrite assert_true, Ok_bind by (apply Nat.ltb_lt; rewrite Hi; by eapply lookup_lt_Some).
    rewrite Hi, Hl, Ok_bind. rewrite list_lookup_fmap, Hl in He. by injection He as <-.
  - intros it l i e (-> & _ & _ & _ & Hi & f & Hl & Hb) He. unfold lf_value, lf_valid_or_panic, lf_valid.
    rewrite assert_true, Ok_bind by (apply Nat.ltb_lt; rewrite Hi; by eapply lookup_lt_Some).
    rewrite Hb. rewrite list_lookup_fmap, Hl in He. by injection He as <-.
  - intros it l p Hr. by exists it.
Qed.

Instance level_bwd : @BwdLaws _ (LevelFileNumIterator_Iterator ucmp) level_rep.
Proof.
  split; simpl.
  - intros it l p Hr. destruct (Hr) as (Hl & _). unfold lf_seek_to_last. destruct (lf_files it) as [|f fs] eqn:E.
    + destruct (lf_move_ok it l p 0 Hr) as (it' & -> & Hr'). exists it'. split; [done|]. rewrite Hl in *. by rewrite E in Hr'.
    + rewrite <- E in *. destruct (lf_move_ok it l p (length (lf_files it) - 1) Hr) as (it' & -> & Hr').
      exists it'. split; [done|]. unfold pos_of in Hr'. rewrite (proj2 (Nat.ltb_lt _ _)) in Hr' by (rewrite E; simpl; lia).
      assert (last_pos l = Some (length (lf_files it) - 1)%nat) as ->; [|done].
      rewrite Hl, E. unfold last_pos. by rewrite length_fmap.
  - intros it l i Hr. destruct (Hr) as (Hl & Hf & Hd & Hb & Hi & f & Hlk & _). unfold lf_prev, lf_valid_or_panic, lf_valid.
    assert (i < length (lf_files it))%nat by (by eapply lookup_lt_Some).
    rewrite assert_true, Ok_bind by (apply Nat.ltb_lt; by rewrite Hi). rewrite Hi. destruct i as [|i]; simpl.
    + eexists. split; [done|]. unfold level_rep. cbn [lf_files lf_index lf_value_buf]. by split_and!.
    + destruct (lf_move_ok it l _ i Hr) as (it' & -> & Hr'). exists it'. split; [done|].
      unfold pos_of in Hr'. by rewrite (proj2 (Nat.ltb_lt _ _)) in Hr' by lia.
Qed.

(** *** The whole level *)
Section Level.
Context {TI : Type} {IT : Iterator TI} {TS : TableSource TI}.
Context (repT : TI → list entry → option nat → Prop) (tables : Z → Z → list entry) (files : list FileMetaData).
Context {TL : TableSourceLaws IT TS uok uord repT tables files}.

(** The entries behind a file entry, and behind the level. *)
Definition table_of (value : bytes) : list entry := tables (decode_fixed_64 value) (decode_fixed_64 (drop 8 value)).
Definition level_entries : list entry := mjoin ((λ f, tables (fm_number f) (fm_file_size f)) <$> files).

Lemma table_of_meta f : f ∈ files → table_of (meta_bytes f) = tables (fm_number f) (fm_file_size f).
Proof.
  intros Hf. destruct (ts_open f Hf) as (Hn & Hs & _). unfold table_of, meta_bytes.
  rewrite decode_fixed_64_app by done. rewrite drop_app_length' by (by rewrite length_to_le_bytes).
  by rewrite <- (app_nil_r (to_le_bytes 8 (fm_file_size f))), decode_fixed_64_app.
Qed.
Lemma derive_meta f : f ∈ files → file_iter_derive (meta_bytes f) = new_iter (fm_number f) (fm_file_size f).
Proof.
  intros Hf. destruct (ts_open f Hf) as (Hn & Hs & _). unfold file_iter_derive, meta_bytes.
  rewrite decode_fixed_64_app by done. rewrite len_app. unfold len. rewrite !length_to_le_bytes.
  change (negb (_ =? FILE_META_LENGTH)) with false. cbv iota.
  rewrite slice_from_app by (by rewrite length_to_le_bytes). rewrite Ok_bind.
  by rewrite <- (app_nil_r (to_le_bytes 8 (fm_file_size f))), decode_fixed_64_app.
Qed.

Lemma file_lookup (j : nat) k v : (file_entry <$> files) !! j = Some (k, v) →
  ∃ f, files !! j = Some f ∧ f ∈ files ∧ k = ik_data (fm_largest f) ∧ v = meta_bytes f.
Proof.
  rewrite list_lookup_fmap, fmap_Some. intros (f & Hf & [= -> ->]). exists f.
  split_and!; [done|by eapply list_elem_of_lookup_2|done..].
Qed.

Lemma level_origin_ok fuel : Forall (file_ok uok uord) files → disjoint_files uord files → (S (length files) < fuel)%nat →
  @origin_ok TI FileIterFactory fuel (iord uord) repT table_of (file_entry <$> files).
Proof.
  intros Hok Hd Hfuel. split.
  - intros j k v (f & _ & Hf & -> & ->)%file_lookup. simpl. rewrite derive_meta, table_of_meta by done. by apply ts_open.
  - intros j k v (f & _ & Hf & -> & ->)%file_lookup. intros Hn%(f_equal length). unfold meta_bytes in Hn.
    by rewrite length_app, !length_to_le_bytes in Hn.
  - intros j k v e (f & _ & Hf & -> & ->)%file_lookup. rewrite table_of_meta by done. intros He.
    by destruct (ts_bounds f e Hf He).
  - intros j j' k v k' v' e Hj (f & Hlf & Hf & -> & ->)%file_lookup (g & Hlg & Hg & -> & ->)%file_lookup.
    rewrite table_of_meta by done. intros He'. destruct (ts_bounds g e Hg He') as [He _].
    eapply (ord_lt_le_trans (iord uord)); [|exact He]. by apply (Hd j j').
  - by rewrite length_fmap.
Qed.

Lemma level_blocks : mjoin (blocks_of table_of (file_entry <$> files)) = level_entries.
Proof.
  unfold level_entries, blocks_of. rewrite <- list_fmap_compose. f_equal. apply list_fmap_ext.
  intros i f Hf. simpl. apply table_of_meta. by eapply list_elem_of_lookup_2.
Qed.

Definition level_iter_rep (fuel : nat) :=
  @concat_rep _ _ _ (FileIterFactory (TI := TI)) fuel (iord uord) level_rep repT table_of.

Lemma level_iterator_rep fuel : Forall (file_ok uok uord) files → disjoint_files uord files → (S (length files) < fuel)%nat →
  level_iter_rep fuel (level_iterator files) level_entries None.
Proof.
  intros Hok Hd Hfuel. exists (file_entry <$> files), None. split_and!; [|by rewrite level_blocks|done].
  split_and!; [by apply level_origin_ok|unfold level_rep; by split_and!|done|done|done].
Qed.
End Level.
End Facts.

(** The operations of the level iterator: [fuel] bounds the files skipped at once. *)
Definition LevelIterator {TI} (IT : Iterator TI) (TS : TableSource TI) (ucmp : Comparator) (fuel : nat)
    : Iterator (ConcatenateIterator LevelFileNumIterator TI) :=
  @ConcatenateIterator_Iterator _ _ (LevelFileNumIterator_Iterator ucmp) IT FileIterFactory fuel.

(** The iterator of a level above 0 is exact, for any table cache that keeps its
    promise: from the start it yields the entries of all the tables of the level in
    order, from the end the same in reverse, and a seek stands on the first entry
    that is not below the target. *)
Theorem level_iterates {TI} (IT : Iterator TI) (TS : TableSource TI) (ucmp : Comparator) (uok : bytes → Prop)
    (uord : bytes → bytes → comparison) (repT : TI → list entry → option nat → Prop)
    (tables : Z → Z → list entry) (files : list FileMetaData) (fuel : nat) (target : bytes) :
  ComparatorOrder ucmp uok uord → TableSourceLaws IT TS uok uord repT tables files →
  Forall (file_ok uok uord) files → disjoint_files uord files → (S (length files) < fuel)%nat → ikey_ok uok target →
  let II := LevelIterator IT TS ucmp fuel in
  let es := level_entries tables files in
  (∃ it, it_seek_to_first (level_iterator files) = Ok it ∧ collect (length es) it = Ok es) ∧
  (∃ it, it_seek_to_last (level_iterator files) = Ok it ∧ collect_back (length es) it = Ok (reverse es)) ∧
  (∃ it, it_seek (level_iterator files) target = Ok it ∧
     collect (length es) it = Ok (rest_from es (seek_pos (iord uord) es target))).
Proof.
  intros CO TL Hok Hd Hfuel Ht II es. pose proof (iord_order uord) as KO.
  pose proof (level_fwd ucmp uok uord) as FL. pose proof (level_bwd ucmp uok uord) as BL.
  pose proof (level_iterator_rep ucmp uok uord repT tables files fuel Hok Hd Hfuel) as Hrep. fold es in Hrep.
  set (R := level_iter_rep uok uord repT tables fuel) in *.
  assert (@FwdLaws _ II (iord uord) (ikey_ok uok) R) as FR by apply _.
  assert (@BwdLaws _ II R) as BR by apply _.
  split_and!.
  - destruct (rep_seek_to_first (iord uord) (ikey_ok uok) _ _ _ Hrep) as (it & Hit & Hr). exists it. split; [done|].
    rewrite (collect_rep _ _ _ _ _ _ _ Hr); destruct es; simpl; rewrite ?drop_0; done.
  - destruct (rep_seek_to_last _ _ _ Hrep) as (it & Hit & Hr). exists it. split; [done|].
    assert (rest_back es (last_pos es) = reverse es) as Hall.
    { destruct es as [|e es']; [done|]. unfold rest_back, last_pos. by rewrite take_ge by (simpl; lia). }
    rewrite (collect_back_rep (iord uord) (ikey_ok uok) R _ _ _ _ Hr), Hall; [done|].
    by rewrite Hall, length_reverse.
  - destruct (rep_seek (iord uord) (ikey_ok uok) _ _ _ target Hrep Ht) as (it & Hit & Hr). exists it. split; [done|].
    apply (collect_rep (iord uord) (ikey_ok uok) R _ _ _ _ Hr).
    unfold rest_from. case_match; [rewrite length_drop; lia|simpl; lia].
Qed.

(** *** A level of two tables *)

Definition sample_tables (number size : Z) : list entry :=
  match number with
  | 3 => [(ikey [1] 9 Value, [100]); (ikey [2] 5 Value, [101])]
  | 4 => [(ikey [40] 9 Value, [102]); (ikey [42] 8 Deletion, []); (ikey [45] 5 Value, [103])]
  | _ => []
  end.
Definition sample_level : list FileMetaData := [sample_file 3 10 [1] [2]; sample_file 4 10 [40] [45]].
Definition sample_source : TableSource ListIter := {| new_iter n s := Ok (mkListIter (sample_tables n s) None) |}.

Lemma sample_source_laws : TableSourceLaws (ListIter_Iterator (iord lex_compare)) sample_source (λ _, True) lex_compare
  list_rep sample_tables sample_level.
Proof.
  split.
  - apply list_fwd.
  - apply list_bwd.
  - intros f Hf. split_and!.
    1-2: repeat (apply elem_of_cons in Hf as [->|Hf]; [vm_compute; split; congruence|]); by apply elem_of_nil in Hf.
    eexists. split; [done|]. by split.
  - intros f e Hf He. unfold sample_level in Hf. rewrite !elem_of_cons in Hf.
    destruct Hf as [-> |[-> |Hf]]; [| |by apply elem_of_nil in Hf]; simpl in He; rewrite !elem_of_cons in He;
      destruct_or! He; subst; try (by apply elem_of_nil in He); by vm_compute.
Qed.

Lemma level_iterates_witness :
  let II := LevelIterator (ListIter_Iterator (iord lex_compare)) sample_source bytewise 4 in
  ∃ it, it_seek_to_first (level_iterator sample_level) = Ok it ∧
    collect 5 it = Ok [(ikey [1] 9 Value, [100]); (ikey [2] 5 Value, [101]); (ikey [40] 9 Value, [102]);
                       (ikey [42] 8 Deletion, []); (ikey [45] 5 Value, [103])].
Proof.
  destruct sample_levels_ok as [[Hok Hd] _].
  destruct (level_iterates (ListIter_Iterator (iord lex_compare)) sample_source bytewise (λ _, True) lex_compare
    list_rep sample_tables sample_level 4 (ikey [1] 1 Value)) as [H _]; [apply _|apply sample_source_laws| | | | |exact H].
  - by apply (Hok 1%nat).
  - by apply (Hd 1%nat).
  - simpl. lia.
  - split; [vm_compute; lia|done].
Defined.
