(* ===== verification/VersionGet.v ===== *)
(** * Point lookups in a version: [Version::get] of [src/version/mod.rs]

    The files that may hold the key are collected level by level, sorted by file
    number and searched in that order through the table cache. *)
From stdpp Require Import gmap sorting.
From S2P Require Import Prelude Coding Comparator Format Iterator VersionEdit Version.
Open Scope Z_scope.

(** What a lookup asks of the table cache: [get] returns the block iterator on the
    entry it found; only its key and value are used. *)
Class TableLookup : Type := { tc_get : bytes → Z → Z → outcome (option entry) }.

Record SeekStats : Type := mkStats { ss_file : FileMetaData; ss_level : nat }.

Section Get.
Context {TL : TableLookup} (ucmp : Comparator).

(** Level 0: all files whose range holds the key, newest first. *)
Fixpoint level0_files (files : list FileMetaData) (ukey : bytes) : outcome (list (FileMetaData * nat)) :=
  match files with
  | [] => Ok []
  | f :: files =>
    l ← ikey_user_key (fm_largest f);
    c ← @compare ucmp ukey l;
    b ← match c with
        | Gt => Ok false
        | _ => s ← ikey_user_key (fm_smallest f); c ← @compare ucmp ukey s; Ok (bool_decide (c ≠ Lt))
        end;
    rest ← level0_files files ukey;
    Ok (if (b : bool) then (f, 0%nat) :: rest else rest)
  end.

(** The other levels: at most one file. *)
Definition leveln_files (level : nat) (files : list FileMetaData) (ikey ukey : bytes)
    : outcome (list (FileMetaData * nat)) :=
  idx ← find_file ucmp files ikey;
  if (length files <=? idx)%nat then Ok []
  else
    target ← index files idx;
    s ← ikey_user_key (fm_smallest target);
    c ← @compare ucmp ukey s;
    Ok (if bool_decide (c ≠ Lt) then [(target, level)] else []).

Fixpoint files_to_seek (level : nat) (levels : list (list FileMetaData)) (ikey ukey : bytes)
    : outcome (list (FileMetaData * nat)) :=
  match levels with
  | [] => Ok []
  | files :: levels =>
    here ← match files with
           | [] => Ok []
           | _ => if (level =? 0)%nat then level0_files (reverse files) ukey
                  else leveln_files level files ikey ukey
           end;
    rest ← files_to_seek (S level) levels ikey ukey;
    Ok (here ++ rest)
  end.

(** [sort_by(|a, b| b.number.cmp(&a.number))], a stable sort. *)
Definition newer_file (a b : FileMetaData * nat) : Prop := fm_number b.1 ≤ fm_number a.1.
#[local] Instance newer_file_dec a b : Decision (newer_file a b).
Proof. unfold newer_file. apply _. Defined.
Definition sort_files (l : list (FileMetaData * nat)) : list (FileMetaData * nat) := merge_sort newer_file l.

(** The search; the statistics name the first file that was read. *)
Fixpoint search_files (l : list (FileMetaData * nat)) (ikey ukey : bytes) (seek_stats : option SeekStats)
    : outcome (option bytes * option SeekStats) :=
  match l with
  | [] => Ok (None, seek_stats)
  | (file, level) :: l =>
    let seek_stats := match seek_stats with None => Some (mkStats file level) | s => s end in
    r ← tc_get ikey (fm_number file) (fm_file_size file);
    match r with
    | None => search_files l ikey ukey seek_stats
    | Some (encoded_key, value) =>
      match decode_from encoded_key with
      | None => Err (Corruption "bad internal key")
      | Some parsed_key =>
        c ← @compare ucmp (pk_user_key parsed_key) ukey;
        match c, pk_value_type parsed_key with
        | Eq, Value => Ok (Some value, seek_stats)
        | Eq, Deletion => Ok (None, seek_stats)
        | _, _ => search_files l ikey ukey seek_stats
        end
      end
    end
  end.

Definition version_get (levels : list (list FileMetaData)) (key : LookupKey)
    : outcome (option bytes * option SeekStats) :=
  ikey ← lk_internal_key key;
  ukey ← lk_user_key key;
  fs ← files_to_seek 0 levels ikey ukey;
  search_files (sort_files fs) ikey ukey None.
End Get.

(** ** What the tables hold *)
Section Facts.
Context {TL : TableLookup} (ucmp : Comparator) (uok : bytes → Prop) (uord : bytes → bytes → comparison).
Context {CO : ComparatorOrder ucmp uok uord}.
Context (tables : FileMetaData → list entry).

(** An entry for the user key that a reader at [seq] may see. *)
Definition sees (u : bytes) (seq : Z) (e : entry) : Prop := uord (ukey e.1) u = Eq ∧ kseq e.1 ≤ seq.

Definition entry_wf (e : entry) : Prop :=
  ∃ u s t, e.1 = ikey u s t ∧ uok u ∧ seq_ok s ∧ t ≠ Unknown.

(** A table: sorted entries between the bounds of its file, the last of them at the
    upper bound; a lookup finds the first entry not below the key unless the table
    has no visible entry. *)
Record table_ok (f : FileMetaData) : Prop := {
  to_file : file_ok uok uord f;
  to_sorted : sorted (iord uord) (tables f);
  to_wf : Forall entry_wf (tables f);
  to_bounds e : e ∈ tables f → iord uord (ik_data (fm_smallest f)) e.1 ≠ Gt ∧ iord uord e.1 (ik_data (fm_largest f)) ≠ Gt;
  to_last : ∃ e, e ∈ tables f ∧ iord uord e.1 (ik_data (fm_largest f)) = Eq;
  to_get u seq : uok u → seq_ok seq →
    ∃ r, tc_get (ikey u seq Value) (fm_number f) (fm_file_size f) = Ok r ∧
      match r with
      | Some e => ∃ i, seek_pos (iord uord) (tables f) (ikey u seq Value) = Some i ∧ tables f !! i = Some e
      | None => ∀ e, e ∈ tables f → ¬ sees u seq e
      end;
}.

Definition in_levels (levels : list (list FileMetaData)) (f : FileMetaData) : Prop :=
  ∃ fs, fs ∈ levels ∧ f ∈ fs.

(** Among the entries a reader sees, those in a file with a larger number are newer,
    and no two files share a number. *)
Record numbers_agree (levels : list (list FileMetaData)) (u : bytes) (seq : Z) : Prop := {
  na_newer f g a b : in_levels levels f → in_levels levels g → a ∈ tables f → b ∈ tables g →
    sees u seq a → sees u seq b → fm_number g < fm_number f → kseq b.1 ≤ kseq a.1;
  na_unique f g : in_levels levels f → in_levels levels g → fm_number f = fm_number g → f = g;
}.

(** What a lookup answers from an entry. *)
Definition answer_of (e : entry) : option bytes :=
  match decode_from e.1 with
  | Some p => match pk_value_type p with Value => Some e.2 | _ => None end
  | None => None
  end.

Lemma squeeze a b c : iord uord a b ≠ Gt → iord uord b c ≠ Gt → uord (ukey c) (ukey a) = Eq →
  uord (ukey b) (ukey a) = Eq.
Proof.
  intros H1%iord_uord_le H2%iord_uord_le Heq. pose proof (ord_eq_r uord _ _ (ukey b) Heq) as Hr. rewrite Hr in H2.
  destruct (uord (ukey b) (ukey a)) eqn:E; [done| |done].
  apply (ord_gt_lt uord) in E. congruence.
Qed.

Lemma sees_not_below u seq e : seq_ok seq → sees u seq e → iord uord e.1 (ikey u seq Value) ≠ Lt.
Proof.
  intros Hs [Hu Hk]. unfold iord. rewrite ukey_ikey, kseq_ikey, Hu by done. intros Hc.
  assert (seq < kseq e.1) by exact Hc. lia.
Qed.
Lemma not_below_sees u seq e : seq_ok seq → iord uord e.1 (ikey u seq Value) ≠ Lt →
  uord (ukey e.1) u = Eq → sees u seq e.
Proof.
  intros Hs Hn Hu. split; [done|]. unfold iord in Hn. rewrite ukey_ikey, kseq_ikey, Hu in Hn by done.
  destruct (Z.le_gt_cases (kseq e.1) seq); [done|]. exfalso. by apply Hn.
Qed.
Lemma iord_seq a b : iord uord a b ≠ Gt → uord (ukey a) (ukey b) = Eq → kseq b ≤ kseq a.
Proof. unfold iord. intros H Hu. rewrite Hu in H. exact H. Qed.

(** The entry a seek finds is the newest one the reader sees, if there is one. *)
Lemma seek_newest u seq l i e : sorted (iord uord) l → seq_ok seq → seek_pos (iord uord) l (ikey u seq Value) = Some i →
  l !! i = Some e →
  (uord (ukey e.1) u = Eq → sees u seq e) ∧
  (∀ e', e' ∈ l → sees u seq e' → uord (ukey e.1) u = Eq ∧ kseq e'.1 ≤ kseq e.1).
Proof.
  intros Hsort Hs Hp He. apply seek_pos_Some in Hp as [(e0 & He0 & Hge) Hlt].
  rewrite He in He0. injection He0 as <-.
  split; [by apply not_below_sees|]. intros e' [j Hj]%list_elem_of_lookup_1 Hsee.
  assert (i ≤ j)%nat as Hij.
  { destruct (Nat.le_gt_cases i j); [done|]. exfalso. by eapply sees_not_below; [| |eapply (Hlt j)]. }
  destruct (decide (i = j)) as [->|Hne]; [simplify_eq; destruct Hsee; split; [done|lia]|].
  assert (iord uord e.1 e'.1 = Lt) as Hlt' by (eapply (Hsort i j); [lia|done..]).
  destruct Hsee as [Hu Hk].
  assert (uord (ukey e.1) u = Eq) as Hue.
  { pose proof (squeeze (ikey u seq Value) e.1 e'.1) as Hsq. rewrite ukey_ikey in Hsq. apply Hsq; [|by rewrite Hlt'|done].
    by apply (ord_not_lt (iord uord)). }
  split; [done|]. apply iord_seq; [by rewrite Hlt'|]. by rewrite (ord_eq_l uord _ _ _ Hue), (ord_eq_sym uord _ _ Hu).
Qed.

Lemma wf_decode e : entry_wf e → ∃ t, decode_from e.1 = Some (mkParsed (ukey e.1) (kseq e.1) t) ∧ t ≠ Unknown ∧ uok (ukey e.1).
Proof. intros (u & s & t & -> & Hu & Hs & Ht). exists t. by rewrite decode_from_ikey, ukey_ikey, kseq_ikey. Qed.

(** ** The search *)

Definition newest (P : FileMetaData → Prop) (u : bytes) (seq : Z) (ans : option bytes) : Prop :=
  (∃ f e, P f ∧ e ∈ tables f ∧ sees u seq e ∧ ans = answer_of e ∧
     ∀ f' e', P f' → e' ∈ tables f' → sees u seq e' → kseq e'.1 ≤ kseq e.1) ∨
  (ans = None ∧ ∀ f e, P f → e ∈ tables f → ¬ sees u seq e).

Lemma search_files_ok levels l u seq st : uok u → seq_ok seq →
  numbers_agree levels u seq → StronglySorted newer_file l →
  (∀ f lv, (f, lv) ∈ l → in_levels levels f ∧ table_ok f) →
  ∃ ans st', search_files ucmp l (ikey u seq Value) u st = Ok (ans, st') ∧
    newest (λ f, ∃ lv, (f, lv) ∈ l) u seq ans.
Proof.
  intros Hu Hs Hna Hsort. revert st. induction l as [|[f lv] l IH]; intros st Hl; cbn [search_files].
  { exists None, st. split; [done|]. right. split; [done|]. intros f e [lv []%elem_of_nil]. }
  apply StronglySorted_cons in Hsort as [Hhd Hsort]. rewrite Forall_forall in Hhd.
  destruct (Hl f lv) as [Hin Htab]; [by left|]. destruct (to_get f Htab u seq Hu Hs) as (r & -> & Hr). rewrite Ok_bind.
  set (st1 := match st with None => Some (mkStats f lv) | _ => st end).
  assert ((∀ e, e ∈ tables f → ¬ sees u seq e) →
    ∃ ans st', search_files ucmp l (ikey u seq Value) u st1 = Ok (ans, st') ∧ newest (λ f', ∃ lv', (f', lv') ∈ (f, lv) :: l) u seq ans) as Hskip.
  { intros Hno. destruct (IH Hsort st1) as (ans & st' & Hse & Hnew); [intros f' lv' ?; apply (Hl f' lv'); by right|].
    exists ans, st'. split; [done|]. destruct Hnew as [(g & e & [lv' Hg] & He & Hsee & -> & Hmax)|[-> Hnone]]; [left|right].
    - exists g, e. split_and!; [exists lv'; by right|done..|]. intros f' e' [lv'' [Heq|Hf']%elem_of_cons] He' Hsee'.
      + simplify_eq. by destruct (Hno e').
      + by eapply Hmax; [eexists|..].
    - split; [done|]. intros g e [lv' [Heq|Hg]%elem_of_cons]; [simplify_eq; apply Hno|]. apply Hnone. by exists lv'. }
  destruct r as [e|]; [|by apply Hskip]. destruct Hr as (i & Hi & He).
  assert (e ∈ tables f) as Hef by (by eapply list_elem_of_lookup_2).
  destruct (seek_newest u seq (tables f) i e (to_sorted f Htab) Hs Hi He) as [Hsee Hmax].
  pose proof (to_wf f Htab) as Hwf. rewrite Forall_forall in Hwf.
  destruct (wf_decode e (Hwf e Hef)) as (t & Hd & Ht & Huk). destruct e as [k v]. cbn [fst snd] in *. rewrite Hd.
  cbn [pk_user_key pk_value_type]. rewrite compare_ord, Ok_bind by done.
  destruct (uord (ukey k) u) eqn:Hc; [|apply Hskip; intros e' He' Hse'; by destruct (Hmax e' He' Hse')..].
  assert (newest (λ f', ∃ lv', (f', lv') ∈ (f, lv) :: l) u seq (answer_of (k, v))) as Hnew.
  { left. exists f, (k, v). split_and!; [exists lv; by left|done|by apply Hsee|done|].
    intros g e' [lv' [Heq|Hg]%elem_of_cons] He' Hse'; [simplify_eq; by apply Hmax|].
    destruct (Hl g lv') as [Hgin Hgtab]; [by right|]. specialize (Hhd _ Hg). unfold newer_file in Hhd. simpl in Hhd.
    destruct (decide (fm_number g = fm_number f)) as [Heq|Hne].
    - rewrite (na_unique levels u seq Hna g f Hgin Hin Heq) in He'. by apply Hmax.
    - apply (na_newer levels u seq Hna f g (k, v) e'); try done; [by apply Hsee|lia]. }
  destruct t; [|by eexists _, _; split; [done|]; unfold answer_of in Hnew; cbn [fst snd] in Hnew; rewrite Hd in Hnew..|done].
  eexists _, _. split; [done|]. unfold answer_of in Hnew. cbn [fst snd] in Hnew. by rewrite Hd in Hnew.
Qed.

(** ** The files that are searched *)

(** The list takes its files from [fs] and misses no visible entry of theirs, except
    for older ones. *)
Definition covers (u : bytes) (seq : Z) (l : list (FileMetaData * nat)) (fs : list FileMetaData) : Prop :=
  (∀ g lv, (g, lv) ∈ l → g ∈ fs) ∧
  ∀ f e, f ∈ fs → e ∈ tables f → sees u seq e →
    ∃ g lv e', (g, lv) ∈ l ∧ e' ∈ tables g ∧ sees u seq e' ∧ kseq e.1 ≤ kseq e'.1.

(** An entry the reader sees puts the user key between the bounds of the file. *)
Lemma sees_bounds u seq f e : table_ok f → e ∈ tables f → sees u seq e →
  uord u (ukey (ik_data (fm_largest f))) ≠ Gt ∧ uord u (ukey (ik_data (fm_smallest f))) ≠ Lt.
Proof.
  intros Ht He [Hu _]. destruct (to_bounds f Ht e He) as [H1%iord_uord_le H2%iord_uord_le]. split.
  - by rewrite <- (ord_eq_l uord _ _ _ Hu).
  - apply (ord_not_lt uord). by rewrite <- (ord_eq_r uord _ _ _ Hu).
Qed.

Lemma level0_covers u seq files : uok u → Forall table_ok files →
  ∃ l, level0_files ucmp files u = Ok l ∧ covers u seq l files.
Proof.
  intros Hu. induction 1 as [|f files Hf Hfs (l & Hl & Hfrom & Hcov)]; cbn [level0_files].
  { exists []. split; [done|]. split; [by intros g lv ?%elem_of_nil|by intros f e ?%elem_of_nil]. }
  pose proof (to_file f Hf) as Hfo. rewrite (user_key_ok uok _ (fo_largest _ _ _ Hfo)), Ok_bind.
  rewrite compare_ord, Ok_bind by (done || apply Hfo).
  set (b := bool_decide (uord u (ukey (ik_data (fm_largest f))) ≠ Gt) && bool_decide (uord u (ukey (ik_data (fm_smallest f))) ≠ Lt)).
  assert (match uord u (ukey (ik_data (fm_largest f))) with
    | Gt => Ok false
    | _ => s ← ikey_user_key (fm_smallest f); c ← @compare ucmp u s; Ok (bool_decide (c ≠ Lt)) end = Ok b) as ->.
  { rewrite (user_key_ok uok _ (fo_smallest _ _ _ Hfo)), Ok_bind, compare_ord, Ok_bind by (done || apply Hfo).
    unfold b. by destruct (uord u (ukey (ik_data (fm_largest f)))). }
  rewrite Ok_bind, Hl, Ok_bind. eexists. split; [done|]. split.
  - intros g lv. destruct b; [intros [Heq|Hg]%elem_of_cons|intros Hg]; [simplify_eq; by left|right; by eapply Hfrom..].
  - intros g e [->|Hg]%elem_of_cons He Hsee.
    + destruct (sees_bounds u seq f e Hf He Hsee). assert (b = true) as ->.
      { unfold b. by rewrite !bool_decide_eq_true_2. }
      exists f, 0%nat, e. split_and!; [by left|done..].
    + destruct (Hcov g e Hg He Hsee) as (g' & lv & e' & Hg' & Hrest). exists g', lv, e'. split; [|done].
      destruct b; [by right|done].
Qed.

Lemma leveln_covers u seq level files : uok u → seq_ok seq → Forall table_ok files → disjoint_files uord files →
  ∃ l, leveln_files ucmp level files (ikey u seq Value) u = Ok l ∧ covers u seq l files.
Proof.
  intros Hu Hs Hf Hd. pose proof Hf as Hft. rewrite Forall_forall in Hft.
  assert (Forall (file_ok uok uord) files) as Hfo by (eapply Forall_impl; [exact Hf|]; by intros f []).
  assert (ikey_ok uok (ikey u seq Value)) as Hk by (split; [rewrite length_ikey; lia|by rewrite ukey_ikey]).
  unfold leveln_files. destruct (find_file_ok ucmp uok uord files _ Hfo Hd Hk) as (r & -> & Hr & Hlt & Hge). rewrite Ok_bind.
  assert (∀ j f e, files !! j = Some f → e ∈ tables f → sees u seq e → (r ≤ j)%nat) as Hafter.
  { intros j f e Hj He Hsee. destruct (Nat.le_gt_cases r j) as [|Hjr]; [done|]. exfalso.
    eapply sees_not_below; [exact Hs|exact Hsee|]. eapply (ord_le_lt_trans (iord uord)); [|by eapply (Hlt j)].
    apply to_bounds; [|done]. apply Hft. by eapply list_elem_of_lookup_2. }
  destruct (Nat.leb_spec (length files) r) as [Hlen|Hlen].
  { exists []. split; [done|]. split; [by intros g lv ?%elem_of_nil|]. intros f e [j Hj]%list_elem_of_lookup_1 He Hsee.
    pose proof (Hafter j f e Hj He Hsee). apply lookup_lt_Some in Hj. lia. }
  destruct (lookup_lt_is_Some_2 _ _ Hlen) as [t Ht]. unfold index. rewrite Ht, Ok_bind.
  assert (t ∈ files) as Htf by (by eapply list_elem_of_lookup_2). pose proof (to_file t (Hft t Htf)) as Hto.
  rewrite (user_key_ok uok _ (fo_smallest _ _ _ Hto)), Ok_bind, compare_ord, Ok_bind by (done || apply Hto).
  (* an entry of a later file: the last entry of the found file is visible and newer *)
  assert (∀ j f e, files !! j = Some f → e ∈ tables f → sees u seq e →
    ∃ e', e' ∈ tables t ∧ sees u seq e' ∧ kseq e.1 ≤ kseq e'.1) as Hnewer.
  { intros j f e Hj He Hsee. pose proof (Hafter j f e Hj He Hsee) as Hrj.
    destruct (decide (r = j)) as [->|Hne]; [simplify_eq; exists e; split_and!; [done..|lia]|].
    destruct (to_last t (Hft t Htf)) as (e' & He' & Hlast). exists e'. split; [done|].
    pose proof (Hge t Ht) as Hkt. assert (f ∈ files) as Hff by (by eapply list_elem_of_lookup_2).
    assert (iord uord e'.1 e.1 = Lt) as Hord.
    { rewrite (ord_eq_l (iord uord) _ _ _ Hlast). eapply (ord_lt_le_trans (iord uord)); [by apply (Hd r j); [lia|..]|].
      by apply (to_bounds f (Hft f Hff)). }
    assert (iord uord e'.1 (ikey u seq Value) ≠ Lt) as Hnb by (by rewrite (ord_eq_l (iord uord) _ _ _ Hlast)).
    destruct Hsee as [Hue Hke].
    assert (uord (ukey e'.1) u = Eq) as Hue'.
    { pose proof (squeeze (ikey u seq Value) e'.1 e.1) as Hsq. rewrite ukey_ikey in Hsq. apply Hsq; [|by rewrite Hord|done].
      by apply (ord_not_lt (iord uord)). }
    split; [by apply not_below_sees|]. apply iord_seq; [by rewrite Hord|].
    by rewrite (ord_eq_l uord _ _ _ Hue'), (ord_eq_sym uord _ _ Hue). }
  eexists. split; [done|]. split.
  - intros g lv. case_bool_decide; [intros Heq%list_elem_of_singleton; by simplify_eq|by intros ?%elem_of_nil].
  - intros f e [j Hj]%list_elem_of_lookup_1 He Hsee. destruct (Hnewer j f e Hj He Hsee) as (e' & He' & Hsee' & Hle).
    exists t, level, e'. split; [|done]. rewrite bool_decide_eq_true_2; [by left|].
    by apply (sees_bounds u seq t e' (Hft t Htf)).
Qed.

Lemma files_to_seek_covers u seq levels level : uok u → seq_ok seq →
  (∀ i fs, levels !! i = Some fs → Forall table_ok fs ∧ ((level + i ≠ 0)%nat → disjoint_files uord fs)) →
  ∃ l, files_to_seek ucmp level levels (ikey u seq Value) u = Ok l ∧ covers u seq l (mjoin levels).
Proof.
  intros Hu Hs. revert level. induction levels as [|fs levels IH]; intros level Hlv; cbn [files_to_seek].
  { exists []. split; [done|]. split; [by intros g lv ?%elem_of_nil|by intros f e ?%elem_of_nil]. }
  destruct (Hlv 0%nat fs eq_refl) as [Htab Hd].
  assert (∃ l, match fs with
    | [] => Ok []
    | _ => if (level =? 0)%nat then level0_files ucmp (reverse fs) u else leveln_files ucmp level fs (ikey u seq Value) u
    end = Ok l ∧ covers u seq l fs) as (l1 & -> & Hf1 & Hc1).
  { destruct fs as [|f0 fs0] eqn:Efs; [exists []; split; [done|]; split; [by intros g lv ?%elem_of_nil|by intros f e ?%elem_of_nil]|].
    rewrite <- Efs in *. destruct (Nat.eqb_spec level 0) as [->|Hne].
    - destruct (level0_covers u seq (reverse fs) Hu) as (l & Hl & Hf & Hc); [by apply Forall_reverse|].
      exists l. split; [done|]. split; [intros g lv Hg; apply elem_of_reverse; by eapply Hf|].
      intros f e Hff. apply Hc. by apply elem_of_reverse.
    - apply leveln_covers; [done..|apply Hd; lia]. }
  destruct (IH (S level)) as (l2 & -> & Hf2 & Hc2).
  { intros i fs' Hi. destruct (Hlv (S i) fs' Hi) as [H1 H2]. split; [done|]. intros Hne. apply H2. lia. }
  rewrite !Ok_bind. eexists. split; [done|]. split.
  - intros g lv [Hg|Hg]%elem_of_app; apply elem_of_app; [left; by eapply Hf1|right; by eapply Hf2].
  - intros f e [Hf|Hf]%elem_of_app He Hsee.
    + destruct (Hc1 f e Hf He Hsee) as (g & lv & e' & Hg & Hr). exists g, lv, e'. split; [apply elem_of_app; by left|done].
    + destruct (Hc2 f e Hf He Hsee) as (g & lv & e' & Hg & Hr). exists g, lv, e'. split; [apply elem_of_app; by right|done].
Qed.
End Facts.

(** ** Properties *)

Lemma version_get_ok (TL : TableLookup) (ucmp : Comparator) (uok : bytes → Prop)
    (uord : bytes → bytes → comparison) (tables : FileMetaData → list entry)
    (levels : list (list FileMetaData)) (u : bytes) (seq : Z) :
  ComparatorOrder ucmp uok uord → levels_ok uok uord levels →
  (∀ f, in_levels levels f → table_ok uok uord tables f) →
  numbers_agree uord tables levels u seq → uok u → seq_ok seq → len u + 8 < 2 ^ 32 →
  ∃ key ans stats, lookup_key_new u seq = Ok key ∧ version_get ucmp levels key = Ok (ans, stats) ∧
    newest uord tables (in_levels levels) u seq ans.
Proof.
  intros CO Hlv Htab Hna Hu Hs Hlen. pose proof (lookup_key_new_eq u seq Hs Hlen) as Hk.
  eexists. destruct (lookup_key_parts u seq _ Hs Hlen Hk) as [Hik Huk].
  unfold version_get. rewrite Hik, Huk, !Ok_bind.
  assert (∀ f, f ∈ mjoin levels ↔ in_levels levels f) as Hin.
  { intros f. rewrite list_elem_of_join. unfold in_levels. naive_solver. }
  destruct (files_to_seek_covers ucmp uok uord tables u seq levels 0 Hu Hs) as (l & -> & Hfrom & Hcov).
  { intros i fs Hi. split; [|intros Hne; by eapply lo_disjoint].
    apply Forall_forall. intros f Hf. apply Htab. exists fs. split; [by eapply list_elem_of_lookup_2|done]. }
  rewrite Ok_bind.
  assert (∀ x, x ∈ sort_files l ↔ x ∈ l) as Hperm by (intros x; unfold sort_files; by rewrite merge_sort_Permutation).
  destruct (search_files_ok ucmp uok uord tables levels (sort_files l) u seq None Hu Hs Hna) as (ans & st & Hse & Hnew).
  { apply StronglySorted_merge_sort; unfold newer_file; [intros a b c; lia|intros a b; lia]. }
  { intros f lv Hf. rewrite Hperm in Hf. apply Hfrom, Hin in Hf. split; [done|by apply Htab]. }
  exists ans, st. split_and!; [done..|]. destruct Hnew as [(f & e & [lv Hf] & He & Hsee & -> & Hmax)|[-> Hnone]]; [left|right].
  - rewrite Hperm in Hf. exists f, e. split_and!; [by eapply Hin, Hfrom|done..|]. intros f' e' Hf' He' Hsee'.
    destruct (Hcov f' e') as (g & lv' & e2 & Hg & He2 & Hsee2 & Hle); [by apply Hin|done..|].
    etrans; [exact Hle|]. eapply Hmax; [exists lv'; by apply Hperm|done..].
  - split; [done|]. intros f e Hf He Hsee. destruct (Hcov f e) as (g & lv' & e2 & Hg & He2 & Hsee2 & _); [by apply Hin|done..|].
    eapply Hnone; [exists lv'; by apply Hperm|done..].
Qed.

(** C17: a lookup that goes through all levels returns what the newest entry visible
    at the sequence number says (its value, or nothing when it is a deletion or
    there is none), provided that among the visible entries of the key a larger
    file number means a newer entry. *)
Theorem version_get_newest (TL : TableLookup) (ucmp : Comparator) (uok : bytes → Prop)
    (uord : bytes → bytes → comparison) (tables : FileMetaData → list entry)
    (levels : list (list FileMetaData)) (u : bytes) (seq : Z) :
  ComparatorOrder ucmp uok uord → levels_ok uok uord levels →
  (∀ f, in_levels levels f → table_ok uok uord tables f) →
  numbers_agree uord tables levels u seq → uok u → seq_ok seq → len u + 8 < 2 ^ 32 →
  ∃ key ans stats, lookup_key_new u seq = Ok key ∧ version_get ucmp levels key = Ok (ans, stats) ∧
    newest uord tables (in_levels levels) u seq ans.
Proof. apply version_get_ok. Qed.

(** *** A version with one table on each of two levels *)
Section Sample.
Context (num0 num1 : Z).

(** Level 0 holds sequence number 9 of the key [7], level 1 an older one. *)
Definition file0 : FileMetaData := mkMeta 100 10 num0 (mkIKey (ikey [7] 9 Value)) (mkIKey (ikey [7] 9 Value)).
Definition file1 : FileMetaData := mkMeta 100 10 num1 (mkIKey (ikey [7] 3 Value)) (mkIKey (ikey [7] 3 Value)).
Definition two_levels : list (list FileMetaData) := [[file0]; [file1]].
Definition two_tables (f : FileMetaData) : list entry :=
  if decide (fm_number f = num0) then [(ikey [7] 9 Value, [1])] else [(ikey [7] 3 Value, [0])].
Definition two_lookup : TableLookup := {|
  tc_get k num _ :=
    let l := if decide (num = num0) then [(ikey [7] 9 Value, [1])] else [(ikey [7] 3 Value, [0])] in
    Ok (snd <$> list_find (λ e : entry, iord lex_compare e.1 k ≠ Lt) l)
|}.

Lemma two_levels_ok : levels_ok (λ _, True) lex_compare two_levels.
Proof.
  assert (∀ s n z, seq_ok s → file_ok (λ _, True) lex_compare (mkMeta n z num0 (mkIKey (ikey [7] s Value)) (mkIKey (ikey [7] s Value)))) as Hf.
  { intros s n z Hs. split; cbn [fm_smallest fm_largest ik_data].
    - split; [rewrite length_ikey; lia|done].
    - split; [rewrite length_ikey; lia|done].
    - by rewrite (ord_refl (iord lex_compare)).
    - rewrite kseq_ikey by done. apply Hs. }
  assert (seq_ok 9 ∧ seq_ok 3) as [H9 H3] by (unfold seq_ok, MAX_KEY_SEQUENCE; lia).
  split; intros [|[|i]] fs Hfs; try done; injection Hfs as <-.
  - constructor; [|done]. destruct (Hf 9 100 10 H9). by split.
  - constructor; [|done]. destruct (Hf 3 100 10 H3). by split.
  - intros _ [|i] [|j] a b Hij Ha Hb; try lia; done.
Qed.
End Sample.

Lemma version_get_newest_witness :
  ∃ key ans stats, lookup_key_new [7] 20 = Ok key ∧
    @version_get (two_lookup 5) bytewise (two_levels 5 4) key = Ok (ans, stats) ∧
    newest lex_compare (two_tables 5) (in_levels (two_levels 5 4)) [7] 20 ans.
Proof.
  assert (∀ f, in_levels (two_levels 5 4) f → f = file0 5 ∨ f = file1 4) as Hin.
  { intros f (fs & [->|[->|[]%elem_of_nil]%elem_of_cons]%elem_of_cons & Hf); apply list_elem_of_singleton in Hf; auto. }
  assert (seq_ok 20 ∧ seq_ok 9 ∧ seq_ok 3) as (H20 & H9 & H3) by (unfold seq_ok, MAX_KEY_SEQUENCE; lia).
  destruct (two_levels_ok 5 4) as [Hlo _].
  apply (version_get_newest (two_lookup 5) bytewise (λ _, True) lex_compare (two_tables 5) (two_levels 5 4) [7] 20);
    [apply _|apply two_levels_ok| | |done|done|vm_compute; reflexivity].
  - intros f Hf. assert (∃ s v, two_tables 5 f = [(ikey [7] s Value, v)] ∧ seq_ok s ∧
      fm_smallest f = mkIKey (ikey [7] s Value) ∧ fm_largest f = mkIKey (ikey [7] s Value) ∧
      file_ok (λ _, True) lex_compare f ∧ (∀ k, @tc_get (two_lookup 5) k (fm_number f) (fm_file_size f) =
        Ok (snd <$> list_find (λ e : entry, iord lex_compare e.1 k ≠ Lt) (two_tables 5 f)))) as (s & v & Ht & Hs & H1 & H2 & Hok & Hget).
    { destruct (Hin f Hf) as [-> | ->].
      - exists 9, [1]. split_and!; try done. pose proof (Hlo 0%nat _ eq_refl) as Hl. by inversion Hl.
      - exists 3, [0]. split_and!; try done. pose proof (Hlo 1%nat _ eq_refl) as Hl. by inversion Hl. }
    split; rewrite ?Ht.
    + done.
    + intros [|i] [|j] a b Hij Ha Hb; try lia; done.
    + constructor; [|done]. by exists [7], s, Value.
    + intros e ->%list_elem_of_singleton. rewrite H1, H2. simpl. by rewrite (ord_refl (iord lex_compare)).
    + exists (ikey [7] s Value, v). split; [by left|]. rewrite H2. simpl. by rewrite (ord_refl (iord lex_compare)).
    + intros u seq _ Hseq. eexists. split; [apply Hget|]. rewrite Ht. unfold seek_pos.
      destruct (list_find _ _) as [[i e]|] eqn:E; simpl.
      * exists i. split; [done|]. by apply list_find_Some in E as [? _].
      * apply list_find_None in E. inversion E as [|? ? Hn]; subst. intros e ->%list_elem_of_singleton Hsee.
        apply Hn. by apply sees_not_below.
  - split.
    + intros f g a b Hf Hg Ha Hb _ _ Hlt. destruct (Hin f Hf) as [-> | ->], (Hin g Hg) as [-> | ->]; simpl in Hlt; try lia.
      apply list_elem_of_singleton in Ha, Hb. subst. vm_compute. congruence.
    + intros f g Hf Hg Heq. by destruct (Hin f Hf) as [-> | ->], (Hin g Hg) as [-> | ->].
Defined.

(** When the table on level 1 has the larger number, as it has after a compaction of
    older tables, the lookup returns the old value although the file on level 0 holds
    a newer one: the order by file number crosses the levels. *)
Example version_get_stale :
  ∃ key stats, lookup_key_new [7] 20 = Ok key ∧
    @version_get (two_lookup 5) bytewise (two_levels 5 6) key = Ok (Some [0], stats) ∧
    levels_ok (λ _, True) lex_compare (two_levels 5 6).
Proof. eexists _, _. split; [reflexivity|]. split; [vm_compute; reflexivity|]. apply two_levels_ok. Qed.
