(* ===== verification/VersionBuild.v ===== *)
(** * Building versions: [VersionBuilder] of [src/version/version_set.rs]

    [accumulate] collects version edits, [apply_to_new] applies them to the files
    of the base version. *)
From stdpp Require Import gmap sorting.
From S2P Require Import Prelude Coding Comparator Format VersionEdit Version.
Open Scope Z_scope.

(** ** [slice::sort_by]

    A stable sort; the comparison may panic. *)
Section SortBy.
Context {A : Type} (cmp : A → A → outcome comparison).

Fixpoint sort_insert (x : A) (l : list A) : outcome (list A) :=
  match l with
  | [] => Ok [x]
  | y :: l' =>
    c ← cmp x y;
    match c with
    | Gt => r ← sort_insert x l'; Ok (y :: r)
    | _ => Ok (x :: l)
    end
  end.
Fixpoint sort_by (l : list A) : outcome (list A) :=
  match l with
  | [] => Ok []
  | x :: l => r ← sort_by l; sort_insert x r
  end.
End SortBy.

(** ** [VersionBuilder] *)

Record LevelDiff : Type := mkDiff { ld_deleted : gset Z; ld_added : list FileMetaData }.

(** The levels of the builder; the base version is an argument of [apply_to_new]. *)
Definition builder_new (max_levels : nat) : list LevelDiff := replicate max_levels (mkDiff ∅ []).

(** [self.levels[level] = f(self.levels[level])] and the like. *)
Definition index_update {A} (l : list A) (i : nat) (f : A → A) : outcome (list A) :=
  x ← index l i; Ok (<[i := f x]> l).

Definition apply_pointer (ps : list InternalKey) (p : Z * InternalKey) : outcome (list InternalKey) :=
  index_update ps (Z.to_nat p.1) (λ _, p.2).
Definition apply_deleted (b : list LevelDiff) (d : Z * Z) : outcome (list LevelDiff) :=
  index_update b (Z.to_nat d.1) (λ x, mkDiff ({[d.2]} ∪ ld_deleted x) (ld_added x)).
Definition apply_added (b : list LevelDiff) (n : Z * FileMetaData) : outcome (list LevelDiff) :=
  let new_file := init_allowed_seeks n.2 in
  index_update b (Z.to_nat n.1) (λ x, mkDiff (ld_deleted x ∖ {[fm_number new_file]}) (ld_added x ++ [new_file])).

(** A loop whose body may panic. *)
Fixpoint foldM {A B} (f : A → B → outcome A) (a : A) (l : list B) : outcome A :=
  match l with [] => Ok a | x :: l => a ← f a x; foldM f a l end.

(** [accumulate]: the builder and the compaction pointers of the version set; the
    deleted files come in the order of the hash set. *)
Definition accumulate (set_iter : gset (Z * Z) → list (Z * Z)) (e : VersionEdit) (b : list LevelDiff)
    (compaction_pointer : list InternalKey) : outcome (list LevelDiff * list InternalKey) :=
  ps ← foldM apply_pointer compaction_pointer (ve_compaction_pointers e);
  b ← foldM apply_deleted b (set_iter (ve_deleted_files e));
  b ← foldM apply_added b (ve_new_files e);
  Ok (b, ps).

Section Apply.
Context (ucmp : Comparator).
Notation icmp := (InternalKeyComparator ucmp).

(** The order of level 0: largest key, smallest key, number. *)
Definition compare_level0 (a b : FileMetaData) : outcome comparison :=
  c ← @compare icmp (ik_data (fm_largest a)) (ik_data (fm_largest b));
  match c with
  | Eq =>
    c ← @compare icmp (ik_data (fm_smallest a)) (ik_data (fm_smallest b));
    match c with Eq => Ok (Z.compare (fm_number a) (fm_number b)) | c => Ok c end
  | c => Ok c
  end.
Definition compare_smallest (a b : FileMetaData) : outcome comparison :=
  @compare icmp (ik_data (fm_smallest a)) (ik_data (fm_smallest b)).

(** The merge of the sorted base files and the sorted new files. *)
Fixpoint merge_files (fuel : nat) (base added merged : list FileMetaData) : outcome (list FileMetaData) :=
  match base, added with
  | f :: base', g :: added' =>
    match fuel with
    | O => OutOfFuel
    | S fuel =>
      c ← compare_smallest f g;
      match c with
      | Lt => merge_files fuel base' added (merged ++ [f])
      | _ => merge_files fuel base added' (merged ++ [g])
      end
    end
  | _, _ => Ok (merged ++ base ++ added)
  end.

Fixpoint has_overlapping (files : list FileMetaData) : outcome bool :=
  match files with
  | a :: (b :: _) as files' =>
    c ← @compare icmp (ik_data (fm_largest a)) (ik_data (fm_smallest b));
    match c with Lt => has_overlapping files' | _ => Ok true end
  | _ => Ok false
  end.

Definition apply_level (level : nat) (base : list FileMetaData) (delta : LevelDiff) : outcome (list FileMetaData) :=
  let base_files := filter (λ f, fm_number f ∉ ld_deleted delta) base in
  let added_files := filter (λ f, fm_number f ∉ ld_deleted delta) (ld_added delta) in
  if (level =? 0)%nat then sort_by compare_level0 (added_files ++ base_files)
  else
    added_files ← sort_by compare_smallest added_files;
    merged ← merge_files (length base_files + length added_files) base_files added_files [];
    o ← has_overlapping merged;
    _ ← rust_assert (negb o);
    Ok merged.

Fixpoint apply_levels (level : nat) (base : list (list FileMetaData)) (levels : list LevelDiff)
    : outcome (list (list FileMetaData)) :=
  match base, levels with
  | fs :: base, d :: levels =>
    fs ← apply_level level fs d;
    rest ← apply_levels (S level) base levels;
    Ok (fs :: rest)
  | _, _ => Ok []
  end.

(** [apply_to_new]: the number and the files of the new version. *)
Definition apply_to_new (ck : bool) (vnum : Z) (base : list (list FileMetaData)) (levels : list LevelDiff)
    : outcome (Z * list (list FileMetaData)) :=
  vnum ← uadd ck 64 vnum 1;
  files ← apply_levels 0 base levels;
  Ok (vnum, files).
End Apply.

(** ** Sorting *)
Section SortFacts.
Context {A : Type} (cmp : A → A → outcome comparison) (c : A → A → comparison) (ok : A → Prop).
Context (Hcmp : ∀ x y, ok x → ok y → cmp x y = Ok (c x y)).
Context (Hopp : ∀ x y, c x y = Gt → c y x ≠ Gt).
Context (Htrans : ∀ x y z, c x y ≠ Gt → c y z ≠ Gt → c x z ≠ Gt).

Lemma sort_insert_ok x l : ok x → Forall ok l → StronglySorted (λ a b, c a b ≠ Gt) l →
  ∃ l', sort_insert cmp x l = Ok l' ∧ l' ≡ₚ x :: l ∧ StronglySorted (λ a b, c a b ≠ Gt) l'.
Proof.
  intros Hx Hl Hs. induction l as [|y l IH]; cbn [sort_insert].
  { exists [x]. split_and!; [done..|]. repeat constructor. }
  apply Forall_cons in Hl as [Hy Hl]. apply StronglySorted_cons in Hs as [Hhd Hs].
  rewrite Hcmp, Ok_bind by done.
  assert (c x y ≠ Gt → StronglySorted (λ a b, c a b ≠ Gt) (x :: y :: l)) as Hle.
  { intros Hxy. apply StronglySorted_cons. split; [|by apply StronglySorted_cons].
    constructor; [done|]. eapply Forall_impl; [exact Hhd|]. intros z Hz. by eapply Htrans. }
  destruct (c x y) eqn:E; [by exists (x :: y :: l); split_and!; [..|apply Hle]..|].
  destruct (IH Hl Hs) as (l' & -> & Hp & Hs'). rewrite Ok_bind. exists (y :: l').
  split_and!; [done|by rewrite Hp; constructor|]. apply StronglySorted_cons. split; [|done].
  rewrite Hp. constructor; [by apply Hopp|done].
Qed.

Lemma sort_by_ok l : Forall ok l →
  ∃ l', sort_by cmp l = Ok l' ∧ l' ≡ₚ l ∧ StronglySorted (λ a b, c a b ≠ Gt) l'.
Proof.
  induction 1 as [|x l Hx Hl (r & Hr & Hp & Hs)]; cbn [sort_by]; [exists []; split_and!; [done..|constructor]|].
  rewrite Hr, Ok_bind. destruct (sort_insert_ok x r Hx) as (l' & -> & Hp' & Hs'); [by rewrite Hp|done|].
  exists l'. split_and!; [done|by rewrite Hp', Hp|done].
Qed.
End SortFacts.

(** ** The files of the new version *)
Section Facts.
Context (ucmp : Comparator) (uok : bytes → Prop) (uord : bytes → bytes → comparison).
Context {CO : ComparatorOrder ucmp uok uord}.

Notation smallest f := (ik_data (fm_smallest f)).
Notation largest f := (ik_data (fm_largest f)).
Notation by_smallest := (λ a b, iord uord (smallest a) (smallest b) ≠ Gt).

(** What a level is made of: the files that are not deleted. *)
Definition surviving (delta : LevelDiff) (fs : list FileMetaData) : list FileMetaData :=
  filter (λ f, fm_number f ∉ ld_deleted delta) fs.
Definition expected (base : list FileMetaData) (delta : LevelDiff) : list FileMetaData :=
  surviving delta base ++ surviving delta (ld_added delta).

(** The ranges of any two of the files are apart. *)
Definition apart (a b : FileMetaData) : Prop :=
  iord uord (largest a) (smallest b) = Lt ∨ iord uord (largest b) (smallest a) = Lt.
Definition separated (l : list FileMetaData) : Prop := ∀ a b l', l ≡ₚ a :: b :: l' → apart a b.

Lemma separated_lookup (l : list FileMetaData) (i j : nat) a b : separated l → (i < j)%nat →
  l !! i = Some a → l !! j = Some b → apart a b.
Proof.
  intros Hs Hij Ha Hb. apply list_elem_of_split_length in Ha as (l1 & l2 & -> & Hl1). subst i.
  rewrite lookup_app_r in Hb by lia. destruct (j - length l1)%nat as [|k] eqn:Ek; [lia|]. simpl in Hb.
  apply list_elem_of_split_length in Hb as (l3 & l4 & -> & _).
  apply (Hs a b (l1 ++ l3 ++ l4)). by rewrite <- !Permutation_middle.
Qed.

(** Files in the order of their smallest keys that are apart are disjoint. *)
Lemma sorted_disjoint l : Forall (file_ok uok uord) l → StronglySorted by_smallest l → separated l → disjoint_files uord l.
Proof.
  intros Hf Hsort Hsep i j a b Hij Ha Hb. destruct (separated_lookup l i j a b Hsep Hij Ha Hb) as [|Hc]; [done|exfalso].
  assert (iord uord (smallest a) (smallest b) ≠ Gt) as Hle.
  { apply list_elem_of_split_length in Ha as (l1 & l2 & -> & Hl1). subst i.
    rewrite lookup_app_r in Hb by lia. destruct (j - length l1)%nat as [|k] eqn:Ek; [lia|]. simpl in Hb.
    apply StronglySorted_app in Hsort as (_ & _ & [Hhd _]%StronglySorted_cons). rewrite Forall_lookup in Hhd. by eapply Hhd. }
  pose proof (file_ok_lookup uok uord l j b Hf Hb) as Hbo.
  assert (iord uord (smallest b) (smallest a) = Lt) as Hlt.
  { eapply (ord_le_lt_trans (iord uord)); [apply Hbo|exact Hc]. }
  by apply Hle, (ord_gt_lt (iord uord)).
Qed.
Lemma disjoint_sorted l : Forall (file_ok uok uord) l → disjoint_files uord l → StronglySorted by_smallest l.
Proof.
  intros Hf Hd. induction l as [|f l IH]; [constructor|]. apply StronglySorted_cons. split.
  - apply Forall_lookup. intros i g Hg. by apply (smallest_sorted ucmp uok uord (f :: l) 0 (S i) f g); [..|lia| |].
  - apply IH; [by inversion Hf|]. intros i j a b Hij. apply (Hd (S i) (S j)). lia.
Qed.
Lemma disjoint_filter (P : FileMetaData → Prop) `{!∀ f, Decision (P f)} l : Forall (file_ok uok uord) l →
  disjoint_files uord l → disjoint_files uord (filter P l).
Proof.
  intros Hf Hd. assert (StronglySorted (λ a b, iord uord (largest a) (smallest b) = Lt) l) as Hs.
  { induction l as [|f l IH]; [constructor|]. apply StronglySorted_cons. split.
    - apply Forall_lookup. intros i g Hg. by apply (Hd 0%nat (S i)); [lia|..].
    - apply IH; [by inversion Hf|]. intros i j a b Hij. apply (Hd (S i) (S j)). lia. }
  assert (StronglySorted (λ a b, iord uord (largest a) (smallest b) = Lt) (filter P l)) as Hs'.
  { clear Hd Hf. induction Hs as [|f l Hs IH Hhd]; [constructor|]. rewrite filter_cons. case_decide; [|done].
    apply StronglySorted_cons. split; [|done]. rewrite Forall_forall in *. intros x [_ Hx]%list_elem_of_filter. by apply Hhd. }
  intros i j a b Hij Ha Hb. apply list_elem_of_split_length in Ha as (l1 & l2 & Heq & Hl1). rewrite Heq in Hs', Hb. subst i.
  rewrite lookup_app_r in Hb by lia. destruct (j - length l1)%nat as [|k] eqn:Ek; [lia|]. simpl in Hb.
  apply StronglySorted_app in Hs' as (_ & _ & [Hhd _]%StronglySorted_cons). rewrite Forall_lookup in Hhd. by eapply Hhd.
Qed.

Lemma icmp_ok a b : ikey_ok uok a → ikey_ok uok b → @compare (InternalKeyComparator ucmp) a b = Ok (iord uord a b).
Proof. apply compare_ord. Qed.
Lemma compare_smallest_ok a b : file_ok uok uord a → file_ok uok uord b →
  compare_smallest ucmp a b = Ok (iord uord (smallest a) (smallest b)).
Proof.
  intros Ha Hb. apply (@compare_ord (InternalKeyComparator ucmp) (ikey_ok uok) (iord uord) _); [apply Ha|apply Hb].
Qed.

Lemma merge_files_ok fuel base added merged : Forall (file_ok uok uord) base → Forall (file_ok uok uord) added →
  StronglySorted by_smallest base → StronglySorted by_smallest added → (length base + length added ≤ fuel)%nat →
  StronglySorted by_smallest merged → (∀ a b, a ∈ merged → b ∈ base ++ added → iord uord (smallest a) (smallest b) ≠ Gt) →
  ∃ l, merge_files ucmp fuel base added merged = Ok l ∧ l ≡ₚ merged ++ base ++ added ∧ StronglySorted by_smallest l.
Proof.
  revert base added merged. induction fuel as [|fuel IH]; intros base added merged Hb Ha Sb Sa Hfuel Sm Hm.
  { destruct base, added; simpl in Hfuel; try lia. eexists. split; [done|]. split; [done|]. simpl. by rewrite app_nil_r. }
  destruct base as [|f base].
  { eexists. split; [done|]. split; [done|]. simpl. apply StronglySorted_app. by split_and!. }
  destruct added as [|g added].
  { eexists. split; [done|]. split; [done|]. rewrite app_nil_r in Hm |- *. apply StronglySorted_app. by split_and!. }
  cbn [merge_files]. apply Forall_cons in Hb as [Hf Hb]. apply Forall_cons in Ha as [Hg Ha].
  apply StronglySorted_cons in Sb as [Hfb Sb']. apply StronglySorted_cons in Sa as [Hga Sa'].
  rewrite Forall_forall in Hfb, Hga. rewrite compare_smallest_ok, Ok_bind by done.
  assert (∀ x, x ∈ merged ++ [f] → x ∈ merged ∨ x = f) as Hxf by (intros x; rewrite elem_of_app, list_elem_of_singleton; tauto).
  assert (∀ x, x ∈ merged ++ [g] → x ∈ merged ∨ x = g) as Hxg by (intros x; rewrite elem_of_app, list_elem_of_singleton; tauto).
  assert (∀ x, StronglySorted by_smallest merged → (∀ a, a ∈ merged → iord uord (smallest a) (smallest x) ≠ Gt) →
    StronglySorted by_smallest (merged ++ [x])) as Hsnoc.
  { intros x Hs Hx. apply StronglySorted_app. split_and!; [|done|repeat constructor].
    intros a b Hin ->%list_elem_of_singleton. by apply Hx. }
  destruct (iord uord (smallest f) (smallest g)) eqn:E.
  2: { (* the base file comes first *)
    destruct (IH base (g :: added) (merged ++ [f])) as (l & Hl & Hp & Hs); try done.
    - by constructor.
    - by apply StronglySorted_cons; split; [apply Forall_forall|].
    - simpl in *. lia.
    - apply Hsnoc; [done|]. intros a Hin. apply Hm; [done|by left].
    - intros a b [Hin| ->]%Hxf Hbin; [apply Hm; [done|by right]|].
      apply elem_of_app in Hbin as [Hbin|[->|Hbin]%elem_of_cons]; [by apply Hfb|by rewrite E|].
      eapply (ord_le_trans (iord uord)); [by rewrite E|by apply Hga].
    - exists l. split_and!; [done| |done]. rewrite Hp, <- app_assoc. done. }
  all: destruct (IH (f :: base) added (merged ++ [g])) as (l & Hl & Hp & Hs); try done;
    [by constructor|by apply StronglySorted_cons; split; [apply Forall_forall|]|simpl in *; lia
    |apply Hsnoc; [done|]; intros a Hin; apply Hm; [done|]; apply elem_of_app; right; by left| |].
  1,3: assert (iord uord (smallest g) (smallest f) ≠ Gt) as Hgf
         by (rewrite (ord_opp (iord uord) (smallest f)), E; done);
       intros a b [Hin| ->]%Hxg Hbin;
         [apply Hm; [done|]; apply elem_of_app in Hbin as [Hbin|Hbin]; apply elem_of_app; [by left|right; by right]
         |apply elem_of_app in Hbin as [[->|Hbin]%elem_of_cons|Hbin];
           [done|eapply (ord_le_trans (iord uord)); [exact Hgf|by apply Hfb]|by apply Hga]].
  all: exists l; split_and!; [done| |done]; rewrite Hp, <- app_assoc; f_equiv;
    apply (Permutation_middle (f :: base) added g).
Qed.

Lemma has_overlapping_ok l : Forall (file_ok uok uord) l → disjoint_files uord l → has_overlapping ucmp l = Ok false.
Proof.
  intros Hf Hd. induction l as [|a l IH]; [done|]. destruct l as [|b l]; [done|]. cbn [has_overlapping].
  pose proof (file_ok_lookup uok uord _ 0 a Hf eq_refl) as Ha. pose proof (file_ok_lookup uok uord _ 1 b Hf eq_refl) as Hb.
  rewrite icmp_ok, Ok_bind by (apply Ha || apply Hb).
  rewrite (Hd 0%nat 1%nat a b) by (done || lia). apply IH; [by inversion Hf|].
  intros i j x y Hij. apply (Hd (S i) (S j)). lia.
Qed.

Lemma has_overlapping_false l : Forall (file_ok uok uord) l → has_overlapping ucmp l = Ok false → disjoint_files uord l.
Proof.
  induction l as [|a l IH]; intros Hf Ho i j x y Hij Hx Hy; [done|]. apply Forall_cons in Hf as [Ha Hf].
  destruct l as [|b l]; [by destruct j as [|[|j]]; [lia|..]|]. cbn [has_overlapping] in Ho.
  assert (file_ok uok uord b) as Hb by (by inversion Hf).
  rewrite icmp_ok, Ok_bind in Ho by (apply Ha || apply Hb).
  destruct (iord uord (largest a) (smallest b)) eqn:E; try done. specialize (IH Hf Ho).
  destruct i as [|i], j as [|j]; try lia; simpl in Hx, Hy; [|by apply (IH i j); [lia|..]].
  injection Hx as ->. eapply (ord_lt_le_trans (iord uord)); [exact E|].
  by apply (smallest_sorted ucmp uok uord (b :: l) 0 j b y); [..|lia| |].
Qed.
Lemma has_overlapping_total l : Forall (file_ok uok uord) l → ∃ b, has_overlapping ucmp l = Ok b.
Proof.
  induction l as [|a l IH]; intros Hf; [by eexists|]. apply Forall_cons in Hf as [Ha Hf].
  destruct l as [|b l]; [by eexists|]. cbn [has_overlapping]. assert (file_ok uok uord b) as Hb by (by inversion Hf).
  rewrite icmp_ok, Ok_bind by (apply Ha || apply Hb).
  destruct (iord uord (largest a) (smallest b)); [by eexists|by apply IH|by eexists].
Qed.
Lemma disjoint_separated l : disjoint_files uord l → ∀ l', l' ≡ₚ l → separated l'.
Proof.
  intros Hd l' Hp a b r Hr. rewrite Hr in Hp. clear Hr l'.
  destruct (list_elem_of_lookup_1 l a) as [i Hi]; [rewrite <- Hp; by left|].
  apply list_elem_of_split_length in Hi as (l1 & l2 & -> & _).
  rewrite <- Permutation_middle in Hp. apply Permutation_cons_inv in Hp.
  assert (b ∈ l1 ++ l2) as [Hb|Hb]%elem_of_app by (rewrite <- Hp; by left).
  - right. apply list_elem_of_lookup_1 in Hb as [j Hj]. apply (Hd j (length l1)).
    + by eapply lookup_lt_Some.
    + by apply lookup_app_l_Some.
    + by rewrite list_lookup_middle.
  - left. apply list_elem_of_lookup_1 in Hb as [j Hj]. apply (Hd (length l1) (length l1 + S j)%nat).
    + lia.
    + by rewrite list_lookup_middle.
    + rewrite lookup_app_r by lia. by replace (length l1 + S j - length l1)%nat with (S j) by lia.
Qed.

Lemma surviving_ok delta fs : Forall (file_ok uok uord) fs → Forall (file_ok uok uord) (surviving delta fs).
Proof. rewrite !Forall_forall. intros H f [_ Hf]%list_elem_of_filter. by apply H. Qed.

(** One level: the expected files, in order, or a panic when they overlap. *)
Lemma apply_level_ok level base delta : Forall (file_ok uok uord) base → Forall (file_ok uok uord) (ld_added delta) →
  (level ≠ 0%nat → disjoint_files uord base) →
  (level = 0%nat ∨ separated (expected base delta) →
    ∃ l, apply_level ucmp level base delta = Ok l ∧ l ≡ₚ expected base delta ∧ Forall (file_ok uok uord) l ∧
      (level ≠ 0%nat → disjoint_files uord l)) ∧
  (level ≠ 0%nat → ¬ separated (expected base delta) → apply_level ucmp level base delta = Panic).
Proof.
  intros Hb Ha Hd. pose proof (surviving_ok delta base Hb) as Hsb. pose proof (surviving_ok delta _ Ha) as Hsa.
  unfold apply_level. fold (surviving delta base). fold (surviving delta (ld_added delta)).
  destruct (Nat.eqb_spec level 0) as [Hl|Hl].
  - split; [|done]. intros _.
    set (c := λ a b : FileMetaData, match iord uord (largest a) (largest b) with
      | Eq => match iord uord (smallest a) (smallest b) with Eq => Z.compare (fm_number a) (fm_number b) | c => c end
      | c => c end).
    destruct (sort_by_ok (compare_level0 ucmp) c (file_ok uok uord)) with (l := surviving delta (ld_added delta) ++ surviving delta base)
      as (l & Hsort & Hp & _).
    + intros x y Hx Hy. unfold compare_level0, c.
      rewrite (icmp_ok (largest x) (largest y)), Ok_bind by (apply Hx || apply Hy).
      destruct (iord uord (largest x) (largest y)); [|done..].
      rewrite icmp_ok, Ok_bind by (apply Hx || apply Hy).
      by destruct (iord uord (smallest x) (smallest y)).
    + intros x y. unfold c. rewrite (ord_opp (iord uord) (largest x)), (ord_opp (iord uord) (smallest x)), (Z.compare_antisym (fm_number x)).
      by destruct (iord uord (largest x) (largest y)), (iord uord (smallest x) (smallest y)), (fm_number x ?= fm_number y).
    + intros x y z. unfold c.
      destruct (iord uord (largest x) (largest y)) eqn:E1; [| |done].
      * rewrite (ord_eq_l (iord uord) _ _ _ E1). destruct (iord uord (largest y) (largest z)); [|done..].
        destruct (iord uord (smallest x) (smallest y)) eqn:E2; [| |done].
        -- rewrite (ord_eq_l (iord uord) _ _ _ E2). destruct (iord uord (smallest y) (smallest z)); [|done..].
           intros H1 H2. apply Z.compare_le_iff. by trans (fm_number y).
        -- intros _. destruct (iord uord (smallest y) (smallest z)) eqn:E3; [| |done].
           ++ by rewrite <- (ord_eq_r (iord uord) _ _ _ E3), E2.
           ++ by rewrite (ord_lt_trans (iord uord) _ _ _ E2 E3).
      * intros _. destruct (iord uord (largest y) (largest z)) eqn:E3; [| |done].
        -- by rewrite <- (ord_eq_r (iord uord) _ _ _ E3), E1.
        -- by rewrite (ord_lt_trans (iord uord) _ _ _ E1 E3).
    + by apply Forall_app.
    + exists l. split_and!; [done|by rewrite Hp, Permutation_app_comm| |done]. rewrite Hp. by apply Forall_app.
  - specialize (Hd Hl).
    destruct (sort_by_ok (compare_smallest ucmp) (λ a b, iord uord (smallest a) (smallest b)) (file_ok uok uord))
      with (l := surviving delta (ld_added delta)) as (add & -> & Hp & Hs); [by apply compare_smallest_ok| | |done|].
    { intros x y Hg. apply (ord_gt_lt (iord uord)) in Hg. by rewrite Hg. }
    { intros x y z. apply (ord_le_trans (iord uord)). }
    rewrite Ok_bind. assert (Forall (file_ok uok uord) add) as Hadd by (by rewrite Hp).
    destruct (merge_files_ok (length (surviving delta base) + length add) (surviving delta base) add [])
      as (l & -> & Hpl & Hsl); try done.
    { apply disjoint_sorted; [done|]. by apply disjoint_filter. }
    { constructor. } { by intros a b []%elem_of_nil. }
    rewrite Ok_bind. assert (l ≡ₚ expected base delta) as Hpe by (by rewrite Hpl, Hp).
    assert (Forall (file_ok uok uord) l) as Hlo by (rewrite Hpe; by apply Forall_app). split.
    + intros [?|Hsep]; [done|]. assert (disjoint_files uord l) as Hdl.
      { apply sorted_disjoint; [done..|]. intros a b r Hr. apply (Hsep a b r). by rewrite <- Hpe. }
      rewrite has_overlapping_ok, Ok_bind by done. exists l. by split_and!.
    + intros _ Hns. destruct (has_overlapping_total l Hlo) as [[|] Ho]; rewrite Ho, Ok_bind; [done|]. exfalso.
      apply Hns. eapply disjoint_separated; [by apply has_overlapping_false|done].
Qed.

Lemma apply_levels_ok level base deltas : length deltas = length base →
  (∀ i fs, base !! i = Some fs → Forall (file_ok uok uord) fs ∧ ((level + i ≠ 0)%nat → disjoint_files uord fs)) →
  (∀ i d, deltas !! i = Some d → Forall (file_ok uok uord) (ld_added d)) →
  (∀ i fs d, base !! i = Some fs → deltas !! i = Some d → (level + i ≠ 0)%nat → separated (expected fs d)) →
  ∃ files, apply_levels ucmp level base deltas = Ok files ∧ length files = length base ∧
    ∀ i fs d l, base !! i = Some fs → deltas !! i = Some d → files !! i = Some l →
      l ≡ₚ expected fs d ∧ Forall (file_ok uok uord) l ∧ ((level + i ≠ 0)%nat → disjoint_files uord l).
Proof.
  revert level deltas. induction base as [|fs base IH]; intros level [|d deltas] Hlen Hb Hd Hsep; try done.
  { exists []. by split_and!. }
  cbn [apply_levels]. destruct (Hb 0%nat fs eq_refl) as [Hf Hdis].
  destruct (apply_level_ok level fs d Hf (Hd 0%nat d eq_refl)) as [Hok _]; [intros; apply Hdis; lia|].
  destruct Hok as (l & -> & Hp & Hlo & Hdl).
  { destruct (decide (level = 0%nat)); [by left|right]. apply (Hsep 0%nat); [done..|lia]. }
  destruct (IH (S level) deltas) as (files & -> & Hlen' & Hall).
  - by injection Hlen.
  - intros i fs' Hi. destruct (Hb (S i) fs' Hi) as [H1 H2]. split; [done|]. intros Hne. apply H2. lia.
  - intros i d' Hi. by apply (Hd (S i)).
  - intros i fs' d' Hi Hi' Hne. apply (Hsep (S i)); [done..|lia].
  - rewrite !Ok_bind. exists (l :: files). split_and!; [done|by simpl; rewrite Hlen'|].
    intros [|i] fs' d' l' H1 H2 H3; simpl in *.
    + simplify_eq. split_and!; [done..|]. intros Hne. apply Hdl. lia.
    + destruct (Hall i fs' d' l' H1 H2 H3) as (Hp' & Ho' & Hd'). split_and!; [done..|]. intros Hne. apply Hd'. lia.
Qed.
End Facts.

(** ** Accumulating an edit *)

(** What an edit says about one level. *)
Definition deleted_at (level : nat) (ds : list (Z * Z)) : gset Z :=
  list_to_set (snd <$> filter (λ d : Z * Z, Z.to_nat d.1 = level) ds).
Definition added_at (level : nat) (ns : list (Z * FileMetaData)) : list FileMetaData :=
  (λ n, init_allowed_seeks n.2) <$> filter (λ n : Z * FileMetaData, Z.to_nat n.1 = level) ns.

Lemma index_update_ok {A} (l : list A) i f x : l !! i = Some x → index_update l i f = Ok (<[i := f x]> l).
Proof. intros H. unfold index_update, index. by rewrite H. Qed.

Lemma foldM_app {A B} (f : A → B → outcome A) a l k : foldM f a (l ++ k) = (a ← foldM f a l; foldM f a k).
Proof. revert a. induction l as [|x l IH]; intros a; [done|]. simpl. destruct (f a x); simpl; [apply IH|done..]. Qed.

Lemma foldM_deleted ds (b : list LevelDiff) : Forall (λ d, (Z.to_nat d.1 < length b)%nat) ds →
  ∃ b', foldM apply_deleted b ds = Ok b' ∧ length b' = length b ∧
    ∀ i x, b !! i = Some x → b' !! i = Some (mkDiff (deleted_at i ds ∪ ld_deleted x) (ld_added x)).
Proof.
  intros Hds. revert b Hds. induction ds as [|[l n] ds IH]; intros b Hds; cbn [foldM].
  { exists b. split_and!; [done..|]. intros i x Hx. rewrite Hx. destruct x. unfold deleted_at. simpl. by rewrite (left_id_L ∅ (∪)). }
  apply Forall_cons in Hds as [Hl Hds]. simpl in Hl. destruct (lookup_lt_is_Some_2 _ _ Hl) as [x Hx].
  rewrite (index_update_ok b (Z.to_nat (l, n).1) _ x Hx : apply_deleted b (l, n) = _), Ok_bind. cbn [fst snd].
  destruct (IH (<[Z.to_nat l := mkDiff ({[n]} ∪ ld_deleted x) (ld_added x)]> b)) as (b' & -> & Hlen & Hall).
  { rewrite length_insert. done. }
  rewrite length_insert in Hlen. exists b'. split_and!; [done..|]. intros i y Hy. unfold deleted_at. rewrite filter_cons. cbn [fst].
  destruct (decide (Z.to_nat l = i)) as [<-|Hne].
  - rewrite Hx in Hy. injection Hy as <-. erewrite (Hall (Z.to_nat l)) by (by rewrite list_lookup_insert_eq).
    cbn [ld_deleted ld_added]. f_equal. f_equal. unfold deleted_at. rewrite fmap_cons, list_to_set_cons. simpl.
    by rewrite (assoc_L (∪)), (comm_L (∪) (list_to_set _) {[n]}).
  - rewrite (Hall i y) by (by rewrite list_lookup_insert_ne). done.
Qed.

Lemma foldM_added ns (b : list LevelDiff) : Forall (λ n, (Z.to_nat n.1 < length b)%nat) ns →
  ∃ b', foldM apply_added b ns = Ok b' ∧ length b' = length b ∧
    ∀ i x, b !! i = Some x → b' !! i = Some (mkDiff (ld_deleted x ∖ list_to_set (fm_number <$> added_at i ns)) (ld_added x ++ added_at i ns)).
Proof.
  intros Hns. revert b Hns. induction ns as [|[l n] ns IH]; intros b Hns; cbn [foldM].
  { exists b. split_and!; [done..|]. intros i x Hx. rewrite Hx. destruct x. unfold added_at. simpl. by rewrite app_nil_r, difference_empty_L. }
  apply Forall_cons in Hns as [Hl Hns]. simpl in Hl. destruct (lookup_lt_is_Some_2 _ _ Hl) as [x Hx].
  rewrite (index_update_ok b (Z.to_nat (l, n).1) _ x Hx : apply_added b (l, n) = _), Ok_bind. cbn [fst snd].
  destruct (IH (<[Z.to_nat l := mkDiff (ld_deleted x ∖ {[fm_number (init_allowed_seeks n)]}) (ld_added x ++ [init_allowed_seeks n])]> b))
    as (b' & -> & Hlen & Hall).
  { rewrite length_insert. done. }
  rewrite length_insert in Hlen. exists b'. split_and!; [done..|]. intros i y Hy. unfold added_at. rewrite filter_cons. cbn [fst].
  destruct (decide (Z.to_nat l = i)) as [<-|Hne].
  - rewrite Hx in Hy. injection Hy as <-. erewrite (Hall (Z.to_nat l)) by (by rewrite list_lookup_insert_eq).
    cbn [ld_deleted ld_added]. f_equal. rewrite !fmap_cons. cbn [snd]. fold (added_at (Z.to_nat l) ns).
    by rewrite <- app_assoc, list_to_set_cons, difference_difference_l_L.
  - rewrite (Hall i y) by (by rewrite list_lookup_insert_ne). done.
Qed.

Lemma foldM_pointers ps (cp : list InternalKey) : Forall (λ p, (Z.to_nat p.1 < length cp)%nat) ps →
  foldM apply_pointer cp ps = Ok (foldl (λ c p, <[Z.to_nat p.1 := p.2]> c) cp ps).
Proof.
  revert cp. induction ps as [|p ps IH]; intros cp Hps; [done|]. apply Forall_cons in Hps as [Hp Hps]. cbn [foldM foldl].
  destruct (lookup_lt_is_Some_2 _ _ Hp) as [x Hx]. rewrite (index_update_ok cp (Z.to_nat p.1) _ x Hx : apply_pointer cp p = _), Ok_bind.
  apply IH. rewrite length_insert. done.
Qed.

(** The files an edit leaves on a level: the files it does not delete (a file that is
    added again under its number is not deleted) and the new ones. *)
Definition edited (level : nat) (base : list FileMetaData) (e : VersionEdit) : list FileMetaData :=
  filter (λ f, fm_number f ∉ deleted_at level (elements (ve_deleted_files e)) ∨
               fm_number f ∈ fm_number <$> added_at level (ve_new_files e)) base ++
  added_at level (ve_new_files e).

(** The levels an edit mentions exist. *)
Record edit_levels (n : nat) (e : VersionEdit) : Prop := {
  el_pointers : Forall (λ p, (Z.to_nat p.1 < n)%nat) (ve_compaction_pointers e);
  el_deleted : ∀ d, d ∈ ve_deleted_files e → (Z.to_nat d.1 < n)%nat;
  el_new : Forall (λ f, (Z.to_nat f.1 < n)%nat) (ve_new_files e);
}.

Lemma accumulate_gen set_iter e b cp : (∀ s, set_iter s ≡ₚ elements s) → edit_levels (length b) e → length cp = length b →
  ∃ b', accumulate set_iter e b cp = Ok (b', foldl (λ c p, <[Z.to_nat p.1 := p.2]> c) cp (ve_compaction_pointers e)) ∧
    length b' = length b ∧ ∀ i x, b !! i = Some x →
      b' !! i = Some (mkDiff ((deleted_at i (elements (ve_deleted_files e)) ∪ ld_deleted x) ∖ list_to_set (fm_number <$> added_at i (ve_new_files e)))
                        (ld_added x ++ added_at i (ve_new_files e))).
Proof.
  intros Hi [Hp Hd Hn] Hcp. unfold accumulate. rewrite foldM_pointers, Ok_bind by (by rewrite Hcp).
  destruct (foldM_deleted (set_iter (ve_deleted_files e)) b) as (b1 & -> & Hl1 & H1).
  { apply Forall_forall. intros d Hin. apply Hd. by rewrite (Hi _), elem_of_elements in Hin. }
  rewrite Ok_bind. destruct (foldM_added (ve_new_files e) b1) as (b2 & -> & Hl2 & H2); [by rewrite Hl1|].
  rewrite Ok_bind. exists b2. split_and!; [done|by rewrite Hl2, Hl1|]. intros i x Hx.
  rewrite (H2 _ _ (H1 _ _ Hx)). cbn [ld_deleted ld_added]. do 4 f_equal. unfold deleted_at. apply set_eq. intros m.
  rewrite !elem_of_list_to_set, !list_elem_of_fmap. setoid_rewrite list_elem_of_filter.
  by setoid_rewrite (Hi (ve_deleted_files e)).
Qed.

Lemma accumulate_ok set_iter e n cp : (∀ s, set_iter s ≡ₚ elements s) → edit_levels n e → length cp = n →
  ∃ b, accumulate set_iter e (builder_new n) cp =
      Ok (b, foldl (λ c p, <[Z.to_nat p.1 := p.2]> c) cp (ve_compaction_pointers e)) ∧
    length b = n ∧ ∀ i x, b !! i = Some x → ld_added x = added_at i (ve_new_files e) ∧
      ld_deleted x = deleted_at i (elements (ve_deleted_files e)) ∖ list_to_set (fm_number <$> added_at i (ve_new_files e)).
Proof.
  intros Hi Hel Hcp. assert (length (builder_new n) = n) as Hbn by apply length_replicate.
  destruct (accumulate_gen set_iter e (builder_new n) cp Hi) as (b & Hacc & Hlen & Hb); [by rewrite Hbn..|].
  rewrite Hbn in Hlen. exists b. split_and!; [done..|]. intros i x Hx.
  assert (builder_new n !! i = Some (mkDiff ∅ [])) as Hb0 by (apply lookup_replicate_2; rewrite <- Hlen; by eapply lookup_lt_Some).
  rewrite (Hb i _ Hb0) in Hx. injection Hx as <-. cbn [ld_deleted ld_added]. by rewrite (right_id_L ∅ (∪)).
Qed.

Lemma filter_all {A} (P : A → Prop) `{!∀ x, Decision (P x)} l : Forall P l → filter P l = l.
Proof. induction 1 as [|x l Hx _ IH]; [done|]. rewrite filter_cons_True by done. by rewrite IH. Qed.
Lemma expected_edited i fs x e : ld_added x = added_at i (ve_new_files e) →
  ld_deleted x = deleted_at i (elements (ve_deleted_files e)) ∖ list_to_set (fm_number <$> added_at i (ve_new_files e)) →
  expected fs x = edited i fs e.
Proof.
  intros Ha Hd. unfold expected, edited, surviving. rewrite Ha, Hd. f_equal.
  - apply list_filter_iff. intros f. rewrite elem_of_difference, elem_of_list_to_set.
    destruct (decide (fm_number f ∈ deleted_at i (elements (ve_deleted_files e)))),
      (decide (fm_number f ∈ fm_number <$> added_at i (ve_new_files e))); tauto.
  - apply filter_all. apply Forall_forall. intros f Hf [_ Hn]%elem_of_difference. apply Hn.
    rewrite elem_of_list_to_set. by apply list_elem_of_fmap_2.
Qed.

(** ** Properties *)

Lemma apply_edit_ok (ucmp : Comparator) (uok : bytes → Prop) (uord : bytes → bytes → comparison)
    (set_iter : gset (Z * Z) → list (Z * Z)) (ck : bool) (vnum : Z) (base : list (list FileMetaData))
    (e : VersionEdit) (pointers : list InternalKey) :
  ComparatorOrder ucmp uok uord → (∀ s, set_iter s ≡ₚ elements s) →
  levels_ok uok uord base → edit_levels (length base) e → length pointers = length base →
  Forall (λ n, file_ok uok uord n.2) (ve_new_files e) → vnum + 1 < 2 ^ 64 →
  (∀ i fs, base !! i = Some fs → i ≠ 0%nat → separated uord (edited i fs e)) →
  ∃ b files, accumulate set_iter e (builder_new (length base)) pointers =
      Ok (b, foldl (λ c p, <[Z.to_nat p.1 := p.2]> c) pointers (ve_compaction_pointers e)) ∧
    apply_to_new ucmp ck vnum base b = Ok (vnum + 1, files) ∧ length files = length base ∧
    levels_ok uok uord files ∧ ∀ i fs fs', base !! i = Some fs → files !! i = Some fs' → fs' ≡ₚ edited i fs e.
Proof.
  intros CO Hi Hlv Hel Hp Hnew Hv Hsep.
  destruct (accumulate_ok set_iter e (length base) pointers Hi Hel Hp) as (b & Hacc & Hlen & Hb).
  assert (∀ i fs x, b !! i = Some x → expected fs x = edited i fs e) as Hexp.
  { intros i fs x Hx. destruct (Hb i x Hx). by apply expected_edited. }
  destruct (apply_levels_ok ucmp uok uord 0 base b Hlen) as (files & Happ & Hlf & Hall).
  - intros i fs Hfs. split; [by eapply lo_files|]. intros Hne. by eapply lo_disjoint.
  - intros i d Hd. destruct (Hb i d Hd) as [-> _]. unfold added_at. apply Forall_fmap, Forall_forall.
    rewrite Forall_forall in Hnew. intros n [_ Hn]%list_elem_of_filter. destruct (Hnew n Hn). by split.
  - intros i fs d Hfs Hd Hne. rewrite (Hexp i fs d Hd). by apply Hsep.
  - exists b, files. unfold apply_to_new, uadd. rewrite (proj2 (Z.ltb_lt _ _) Hv), Ok_bind, Happ, Ok_bind.
    assert (∀ i fs', files !! i = Some fs' → ∃ fs d, base !! i = Some fs ∧ b !! i = Some d) as Hlk.
    { intros i fs' Hf. apply lookup_lt_Some in Hf. rewrite Hlf in Hf. destruct (lookup_lt_is_Some_2 _ _ Hf) as [fs Hfs].
      rewrite <- Hlen in Hf. destruct (lookup_lt_is_Some_2 _ _ Hf) as [d Hd]. eauto. }
    split_and!; [done..| |].
    + split; intros i fs' Hf; destruct (Hlk i fs' Hf) as (fs & d & Hfs & Hd); by destruct (Hall i fs d fs' Hfs Hd Hf) as (_ & ? & ?).
    + intros i fs fs' Hfs Hf. destruct (Hlk i fs' Hf) as (fs0 & d & Hfs0 & Hd). rewrite Hfs in Hfs0. injection Hfs0 as <-.
      destruct (Hall i fs d fs' Hfs Hd Hf) as (Hperm & _). by rewrite Hperm, (Hexp i fs d Hd).
Qed.


(** An edit that moves file 4 of the sample version from level 1 to level 2. *)
Definition move_edit : VersionEdit :=
  mkEdit 3 None None None None None [(1, mkIKey (ikey [45] 5 Value))] {[(1, 4)]} [(2, sample_file 4 10 [40] [45])].

