(* ===== verification/KMerge.v ===== *)
(** * The merging iterator: [KMergeIter] of [src/iterator.rs]

    [KMergeIter] with the core that the database uses: two groups of children,
    memtables and tables in [DBIteratorCore] ([src/db/iterator.rs]), tables of
    level 0 and the other levels in [SSTableIters] ([src/version/version_set.rs]).
    The forward direction is proved against the [Iterator] interface. *)
From stdpp Require Import gmap sorting.
From S2P Require Import Prelude Comparator Iterator.

Inductive IterDirection : Type := Forward | Reverse.
#[export] Instance IterDirection_eq_dec : EqDecision IterDirection.
Proof. solve_decision. Defined.

Section KMerge.
Context {CI : Type} {IT : Iterator CI} (C : Comparator).

(** The children of a core, in two groups. *)
Record KMergeCore : Type := mkCore { kc_first : list CI; kc_second : list CI }.

Definition iters_len (c : KMergeCore) : nat := length (kc_first c) + length (kc_second c).

(** [smaller] and [larger]: whether the child's key replaces the best one so far. *)
Definition better (want : comparison) (best : option bytes) (iter : CI) : outcome (option bytes) :=
  if it_valid iter then
    k ← it_key iter;
    match best with
    | None => Ok (Some k)
    | Some b => c ← compare k b; Ok (if bool_decide (c = want) then Some k else None)
    end
  else Ok None.

(** The scan of one group; [i] is the index of its first child. *)
Fixpoint find_best (want : comparison) (children : list CI) (i : nat) (best : option bytes) (idx : nat)
    : outcome (option bytes * nat) :=
  match children with
  | [] => Ok (best, idx)
  | child :: children =>
    b ← better want best child;
    match b with
    | Some k => find_best want children (S i) (Some k) i
    | None => find_best want children (S i) best idx
    end
  end.
Definition find_extreme (want : comparison) (c : KMergeCore) : outcome nat :=
  r ← find_best want (kc_first c) 0 None (iters_len c);
  r ← find_best want (kc_second c) (length (kc_first c)) r.1 r.2;
  Ok r.2.
Definition find_smallest : KMergeCore → outcome nat := find_extreme Lt.
Definition find_largest : KMergeCore → outcome nat := find_extreme Gt.

(** [get_child]: [unwrap] panics out of range. *)
Definition get_child (c : KMergeCore) (i : nat) : outcome CI :=
  if (i <? length (kc_first c))%nat then index (kc_first c) i
  else index (kc_second c) (i - length (kc_first c)).
Definition set_child (c : KMergeCore) (i : nat) (x : CI) : KMergeCore :=
  if (i <? length (kc_first c))%nat then mkCore (<[i := x]> (kc_first c)) (kc_second c)
  else mkCore (kc_first c) (<[i - length (kc_first c) := x]> (kc_second c)).

(** [for_each] over a vector, with an operation that may panic. *)
Fixpoint for_each (f : CI → outcome CI) (l : list CI) : outcome (list CI) :=
  match l with [] => Ok [] | x :: l => y ← f x; r ← for_each f l; Ok (y :: r) end.
Definition for_each_child (f : CI → outcome CI) (c : KMergeCore) : outcome KMergeCore :=
  a ← for_each f (kc_first c); b ← for_each f (kc_second c); Ok (mkCore a b).

(** [for_not_ith] visits the other children of the group of the [n]-th child only. *)
Fixpoint for_others (f : CI → outcome CI) (n i : nat) (l : list CI) : outcome (list CI) :=
  match l with
  | [] => Ok []
  | x :: l => y ← (if decide (i = n) then Ok x else f x); r ← for_others f n (S i) l; Ok (y :: r)
  end.
Definition for_not_ith (n : nat) (f : CI → outcome CI) (c : KMergeCore) : outcome KMergeCore :=
  if (n <? length (kc_first c))%nat then a ← for_others f n 0 (kc_first c); Ok (mkCore a (kc_second c))
  else b ← for_others f (n - length (kc_first c)) 0 (kc_second c); Ok (mkCore (kc_first c) b).

(** [take_err]: the first error of the children. *)
Fixpoint take_err_list (l : list CI) : outcome unit * list CI :=
  match l with
  | [] => (Ok tt, [])
  | x :: l =>
    match it_status x with
    | (Ok _, x) => let '(r, l) := take_err_list l in (r, x :: l)
    | (r, x) => (r, x :: l)
    end
  end.
Definition take_err (c : KMergeCore) : outcome unit * KMergeCore :=
  match take_err_list (kc_first c) with
  | (Ok _, a) => let '(r, b) := take_err_list (kc_second c) in (r, mkCore a b)
  | (r, a) => (r, mkCore a (kc_second c))
  end.

Record KMergeIter : Type := mkKMerge { km_core : KMergeCore; km_current : nat; km_direction : IterDirection }.

Definition km_new (core : KMergeCore) : KMergeIter := mkKMerge core (iters_len core) Forward.
Definition km_valid (it : KMergeIter) : bool :=
  if (km_current it <? iters_len (km_core it))%nat then
    match get_child (km_core it) (km_current it) with Ok c => it_valid c | _ => false end
  else false.
(** [seek_to_first], [seek_to_last] and [seek]: move every child, then look for the current one. *)
Definition km_restart (move : CI → outcome CI) (want : comparison) (d : IterDirection) (it : KMergeIter)
    : outcome KMergeIter :=
  core ← for_each_child move (km_core it);
  current ← find_extreme want core;
  Ok (mkKMerge core current d).
Definition km_seek_to_first : KMergeIter → outcome KMergeIter := km_restart it_seek_to_first Lt Forward.
Definition km_seek_to_last : KMergeIter → outcome KMergeIter := km_restart it_seek_to_last Gt Reverse.
Definition km_seek (it : KMergeIter) (target : bytes) : outcome KMergeIter :=
  km_restart (λ i, it_seek i target) Lt Forward it.
Definition km_key (it : KMergeIter) : outcome bytes := c ← get_child (km_core it) (km_current it); it_key c.
Definition km_value (it : KMergeIter) : outcome bytes := c ← get_child (km_core it) (km_current it); it_value c.

(** Turning a child around. *)
Definition turn_forward (key : bytes) (child : CI) : outcome CI :=
  child ← it_seek child key;
  if it_valid child then
    k ← it_key child;
    c ← compare key k;
    match c with Eq => it_next child | _ => Ok child end
  else Ok child.
Definition turn_reverse (key : bytes) (child : CI) : outcome CI :=
  child ← it_seek child key;
  if it_valid child then it_prev child else it_seek_to_last child.

Definition km_advance (turn : bytes → CI → outcome CI) (step : CI → outcome CI) (want : comparison)
    (d : IterDirection) (it : KMergeIter) : outcome KMergeIter :=
  core ← (if decide (km_direction it = d) then Ok (km_core it)
          else key ← km_key it; for_not_ith (km_current it) (turn key) (km_core it));
  child ← get_child core (km_current it);
  child ← step child;
  let core := set_child core (km_current it) child in
  current ← find_extreme want core;
  Ok (mkKMerge core current d).
Definition km_next : KMergeIter → outcome KMergeIter := km_advance turn_forward it_next Lt Forward.
Definition km_prev : KMergeIter → outcome KMergeIter := km_advance turn_reverse it_prev Gt Reverse.
Definition km_status (it : KMergeIter) : outcome unit * KMergeIter :=
  let '(r, core) := take_err (km_core it) in (r, mkKMerge core (km_current it) (km_direction it)).

Definition KMergeIter_Iterator : Iterator KMergeIter := {|
  it_valid := km_valid;
  it_seek_to_first := km_seek_to_first;
  it_seek_to_last := km_seek_to_last;
  it_seek := km_seek;
  it_next := km_next;
  it_prev := km_prev;
  it_key := km_key;
  it_value := km_value;
  it_status := km_status;
|}.
End KMerge.
Arguments KMergeCore CI : clear implicits.
Arguments KMergeIter CI : clear implicits.

(** ** Sorted lists of entries *)
Section Sorted.
Context (ord : bytes → bytes → comparison) {KO : KeyOrder ord}.
Notation below := (λ a b : entry, ord a.1 b.1 = Lt).

Lemma sorted_strongly l : sorted ord l ↔ StronglySorted below l.
Proof.
  split.
  - intros Hs. induction l as [|e l IH]; [constructor|]. apply StronglySorted_cons. split.
    + apply Forall_lookup. intros i x Hx. by apply (Hs 0 (S i)); [lia|..].
    + apply IH. intros i j a b Hij. apply (Hs (S i) (S j)). lia.
  - induction 1 as [|e l Hs IH Hhd]; intros i j a b Hij Ha Hb; [done|]. rewrite Forall_lookup in Hhd.
    destruct i as [|i], j as [|j]; try lia; simpl in *; [simplify_eq; by eapply Hhd|]. by eapply (IH i j); [lia|..].
Qed.
Lemma sorted_cons e l : sorted ord (e :: l) ↔ (∀ x, x ∈ l → ord e.1 x.1 = Lt) ∧ sorted ord l.
Proof. by rewrite !sorted_strongly, StronglySorted_cons, Forall_forall. Qed.
Lemma sorted_drop n l : sorted ord l → sorted ord (drop n l).
Proof. intros Hs i j a b Hij. rewrite !lookup_drop. apply Hs. lia. Qed.
Lemma sorted_rest l p : sorted ord l → sorted ord (rest_from l p).
Proof. intros Hs. destruct p; [by apply sorted_drop|]. intros i j a b _ Ha. done. Qed.

(** Two sorted lists with the same entries are equal. *)
Lemma sorted_unique l k : sorted ord l → sorted ord k → l ≡ₚ k → l = k.
Proof.
  rewrite !sorted_strongly. apply StronglySorted_unique_strong. intros x y _ _ H1 H2.
  exfalso. by apply (ord_lt_not_lt ord) in H1.
Qed.

(** A seek leaves exactly the entries that are not below the target. *)
Lemma rest_seek l t : sorted ord l → rest_from l (seek_pos ord l t) = filter (λ e, ord e.1 t ≠ Lt) l.
Proof.
  intros Hs. induction l as [|e l IH]; [done|]. apply sorted_cons in Hs as [Hhd Hs]. specialize (IH Hs).
  rewrite filter_cons. unfold seek_pos. cbn [list_find]. case_decide as Hd; simpl.
  - f_equal. symmetry. assert (Forall (λ e, ord e.1 t ≠ Lt) l) as Hall.
    { apply Forall_forall. intros x Hx Hc. apply Hd. by eapply (ord_lt_trans ord); [apply Hhd|]. }
    clear -Hall. induction Hall as [|x l Hx _ IHl]; [done|]. rewrite filter_cons_True by done. by rewrite IHl.
  - rewrite <- IH. unfold seek_pos. destruct (list_find _ l) as [[i x]|]; done.
Qed.
Lemma rest_first l : rest_from l (first_pos l) = l.
Proof. by destruct l. Qed.
Lemma rest_next l i e : l !! i = Some e → rest_from l (next_pos l i) = drop (S i) l.
Proof. intros Hi. unfold next_pos. case_decide; [done|]. simpl. by rewrite drop_ge by lia. Qed.
End Sorted.

(** ** Merging forward *)
Section Facts.
Context {CI : Type} {IT : Iterator CI} (C : Comparator).
Context (ord : bytes → bytes → comparison) (key_ok : bytes → Prop) {CO : ComparatorOrder C key_ok ord}.
Context (repC : CI → list entry → option nat → Prop) {FL : FwdLaws ord key_ok repC}.
Notation all_children c := (kc_first c ++ kc_second c).

(** A child over [l] that still has to yield [r]. *)
Definition child_at (c : CI) (l r : list entry) : Prop := ∃ p, repC c l p ∧ r = rest_from l p.

Lemma child_valid c l r : child_at c l r → it_valid c = match r with [] => false | _ => true end.
Proof.
  intros (p & Hr & ->). rewrite (rep_valid ord key_ok c l p Hr). destruct p as [i|]; [|done].
  pose proof (rep_lt ord key_ok c l i Hr) as Hi. destruct (lookup_lt_is_Some_2 l i Hi) as [e He]. simpl.
  by rewrite (drop_S _ _ _ He).
Qed.
Lemma child_head c l e r : child_at c l (e :: r) →
  it_key c = Ok e.1 ∧ it_value c = Ok e.2 ∧ ∃ c', it_next c = Ok c' ∧ child_at c' l r.
Proof.
  intros (p & Hr & Hrest). destruct p as [i|]; [|done]. simpl in Hrest.
  pose proof (rep_lt ord key_ok c l i Hr) as Hi. destruct (lookup_lt_is_Some_2 l i Hi) as [x Hx].
  rewrite (drop_S _ _ _ Hx) in Hrest. injection Hrest as -> ->.
  rewrite (rep_key ord key_ok c l i x Hr Hx), (rep_value ord key_ok c l i x Hr Hx). split_and!; [done..|].
  destruct (rep_next ord key_ok c l i Hr) as (c' & Hn & Hr'). exists c'. split; [done|].
  exists (next_pos l i). split; [done|]. by rewrite (rest_next l i x).
Qed.

(** All children, their lists and what they still have to yield. *)
Definition children_at (cs : list CI) (ls rs : list (list entry)) : Prop :=
  length cs = length ls ∧ length rs = length ls ∧
  ∀ j c l r, cs !! j = Some c → ls !! j = Some l → rs !! j = Some r → child_at c l r.

Lemma children_cons c cs l ls r rs :
  children_at (c :: cs) (l :: ls) (r :: rs) ↔ child_at c l r ∧ children_at cs ls rs.
Proof.
  split.
  - intros (H1 & H2 & H3). split; [by apply (H3 0)|]. split_and!; [by injection H1|by injection H2|].
    intros j. apply (H3 (S j)).
  - intros (Hc & H1 & H2 & H3). split_and!; [by simpl; f_equal..|]. intros [|j] c' l' r' ? ? ?; simplify_eq/=; [done|by eapply H3].
Qed.
Lemma children_nil rs ls : children_at [] ls rs → ls = [] ∧ rs = [].
Proof. intros (H1 & H2 & _). destruct ls; [|done]. by destruct rs. Qed.

Lemma for_each_at f (g : list entry → list entry) cs ls rs : children_at cs ls rs →
  (∀ c l r, l ∈ ls → child_at c l r → ∃ c', f c = Ok c' ∧ child_at c' l (g l)) →
  ∃ cs', for_each f cs = Ok cs' ∧ children_at cs' ls (g <$> ls).
Proof.
  revert ls rs. induction cs as [|c cs IH]; intros ls rs Hc Hf.
  { apply children_nil in Hc as [-> ->]. by exists []. }
  destruct ls as [|l ls], rs as [|r rs]; try (by destruct Hc as (? & ? & _)). apply children_cons in Hc as [Hc Hcs].
  destruct (Hf c l r) as (c' & Hfc & Hc'); [by left|done|]. cbn [for_each]. rewrite Hfc, Ok_bind.
  destruct (IH ls rs Hcs) as (cs' & -> & Hcs'); [intros ? ? ? ?; apply Hf; by right|].
  rewrite Ok_bind. exists (c' :: cs'). split; [done|]. rewrite fmap_cons. by apply children_cons.
Qed.

(** ** Choosing the current child *)

Lemma find_best_app want cs cs' i best idx :
  find_best C want (cs ++ cs') i best idx =
    (r ← find_best C want cs i best idx; find_best C want cs' (i + length cs) r.1 r.2).
Proof.
  revert i best idx. induction cs as [|c cs IH]; intros i best idx; [simpl; by rewrite Nat.add_0_r|].
  cbn [app find_best length]. destruct (better C want best c) as [[k|]| | |]; [|simpl|done..]; simpl; by rewrite IH, Nat.add_succ_r.
Qed.
Lemma find_extreme_eq want c :
  find_extreme C want c = (r ← find_best C want (all_children c) 0 None (iters_len c); Ok r.2).
Proof.
  unfold find_extreme. rewrite find_best_app. simpl. by destruct (find_best C want (kc_first c) 0 None (iters_len c)) as [[]| | |].
Qed.

(** The scan for the smallest key. *)
Lemma find_best_ok cs ls rs i best idx : children_at cs ls rs → (∀ b, best = Some b → key_ok b) →
  (∀ r e, r ∈ rs → e ∈ r → key_ok e.1) →
  ∃ best' idx', find_best C Lt cs i best idx = Ok (best', idx') ∧
    ((best' = best ∧ idx' = idx ∧ ∀ e r, (e :: r) ∈ rs → ∃ b, best = Some b ∧ ord e.1 b ≠ Lt) ∨
     (∃ j e r, rs !! j = Some (e :: r) ∧ idx' = i + j ∧ best' = Some e.1 ∧ (∀ b, best = Some b → ord e.1 b = Lt) ∧
        ∀ e' r', (e' :: r') ∈ rs → ord e'.1 e.1 ≠ Lt)).
Proof.
  revert ls rs i best idx. induction cs as [|c cs IH]; intros ls rs i best idx Hc Hb Hk.
  { apply children_nil in Hc as [-> ->]. exists best, idx. split; [done|]. left. split_and!; [done..|]. by intros ? ? []%elem_of_nil. }
  destruct ls as [|l ls], rs as [|r rs]; try (by destruct Hc as (? & ? & _)). apply children_cons in Hc as [Hc Hcs].
  cbn [find_best]. unfold better. rewrite (child_valid c l r Hc).
  assert (∀ r0 e0, r0 ∈ rs → e0 ∈ r0 → key_ok e0.1) as Hk' by (intros ? ? ?; apply Hk; by right).
  (* the child does not improve *)
  assert ((∀ e r', r = e :: r' → ∃ b, best = Some b ∧ ord e.1 b ≠ Lt) →
    ∃ best' idx', find_best C Lt cs (S i) best idx = Ok (best', idx') ∧
    ((best' = best ∧ idx' = idx ∧ ∀ e r0, (e :: r0) ∈ r :: rs → ∃ b, best = Some b ∧ ord e.1 b ≠ Lt) ∨
     (∃ j e r0, (r :: rs) !! j = Some (e :: r0) ∧ idx' = i + j ∧ best' = Some e.1 ∧ (∀ b, best = Some b → ord e.1 b = Lt) ∧
        ∀ e' r', (e' :: r') ∈ r :: rs → ord e'.1 e.1 ≠ Lt))) as Hskip.
  { intros Hno. destruct (IH ls rs (S i) best idx Hcs Hb Hk') as (best' & idx' & Hf & Hres). exists best', idx'. split; [done|].
    destruct Hres as [(-> & -> & Hall)|(j & e & r0 & Hj & -> & -> & Hlt & Hmin)]; [left|right].
    - split_and!; [done..|]. intros e r0 [Heq|Hin]%elem_of_cons; [by eapply Hno|by eapply Hall].
    - exists (S j), e, r0. split_and!; [done|lia|done..|]. intros e' r' [Heq|Hin]%elem_of_cons; [|by eapply Hmin].
      destruct (Hno e' r') as (b & Hbb & Hge); [done|]. intros Hc'. apply Hge.
      eapply (ord_lt_trans ord); [exact Hc'|by apply Hlt]. }
  destruct r as [|e r]; [by rewrite Ok_bind; apply Hskip|]. destruct (child_head c l e r Hc) as (-> & _ & _).
  assert (key_ok e.1) as Hke by (apply (Hk (e :: r)); by left).
  (* the child becomes the best one *)
  assert ((∀ b, best = Some b → ord e.1 b = Lt) →
    ∃ best' idx', find_best C Lt cs (S i) (Some e.1) i = Ok (best', idx') ∧
    (∃ j e0 r0, ((e :: r) :: rs) !! j = Some (e0 :: r0) ∧ idx' = i + j ∧ best' = Some e0.1 ∧ (∀ b, best = Some b → ord e0.1 b = Lt) ∧
        ∀ e' r', (e' :: r') ∈ (e :: r) :: rs → ord e'.1 e0.1 ≠ Lt)) as Htake.
  { intros Hlt. destruct (IH ls rs (S i) (Some e.1) i Hcs) as (best' & idx' & Hf & Hres); [by intros b [= <-]|done|].
    exists best', idx'. split; [done|]. destruct Hres as [(-> & -> & Hall)|(j & e0 & r0 & Hj & -> & -> & Hlt0 & Hmin)].
    - exists 0, e, r. split_and!; [done|lia|done..|]. intros e' r' [Heq|Hin]%elem_of_cons.
      + simplify_eq. by apply (ord_lt_irrefl ord).
      + by destruct (Hall e' r' Hin) as (b & [= <-] & Hge).
    - specialize (Hlt0 _ eq_refl). exists (S j), e0, r0. split_and!; [done|lia|done| |].
      + intros b Hbb. by eapply (ord_lt_trans ord); [|apply Hlt].
      + intros e' r' [Heq|Hin]%elem_of_cons; [simplify_eq; by apply (ord_lt_not_lt ord)|by eapply Hmin]. }
  rewrite Ok_bind. destruct best as [b|].
  - rewrite compare_ord, Ok_bind by auto. case_bool_decide as Hlt; rewrite Ok_bind.
    + destruct Htake as (best' & idx' & Hf & Hres); [by intros ? [= <-]|]. exists best', idx'. split; [done|by right].
    + apply Hskip. intros e0 r0 [= <- <-]. by exists b.
  - rewrite Ok_bind. destruct Htake as (best' & idx' & Hf & Hres); [done|]. exists best', idx'. split; [done|by right].
Qed.
(** The current child is the one that has the head of the merged rest. *)
Lemma find_smallest_ok c ls rs rest : children_at (all_children c) ls rs → Forall (sorted ord) rs →
  mjoin rs ≡ₚ rest → sorted ord rest → (∀ e, e ∈ rest → key_ok e.1) →
  ∃ j, find_extreme C Lt c = Ok j ∧
    match rest with [] => j = iters_len c | e :: _ => ∃ r, rs !! j = Some (e :: r) end.
Proof.
  intros Hc Hsr Hperm Hsort Hk. rewrite find_extreme_eq.
  assert (∀ r e, r ∈ rs → e ∈ r → e ∈ rest) as Hin.
  { intros r e Hr He. rewrite <- Hperm, list_elem_of_join. eauto. }
  destruct (find_best_ok (all_children c) ls rs 0 None (iters_len c) Hc) as (best & j & -> & Hres); [done|eauto|].
  rewrite Ok_bind. exists j. split; [done|]. destruct rest as [|e0 rest].
  - destruct Hres as [(_ & -> & _)|(j' & e & r & Hj & _)]; [done|]. exfalso.
    apply list_elem_of_lookup_2 in Hj. assert (e ∈ []) as []%elem_of_nil. eapply Hin; [exact Hj|by left].
  - apply sorted_cons in Hsort as [Hhd Hsort].
    assert (∃ r, (e0 :: r) ∈ rs) as (r0 & Hr0).
    { assert (e0 ∈ mjoin rs) as (r & He0 & Hr)%list_elem_of_join by (rewrite Hperm; by left).
      destruct r as [|h r]; [by apply elem_of_nil in He0|].
      apply elem_of_cons in He0 as [->|He0]; [by exists r|]. exfalso.
      rewrite Forall_forall in Hsr. pose proof (Hsr _ Hr) as [Hh _]%(sorted_cons ord).
      specialize (Hh _ He0). assert (h ∈ e0 :: rest) as [->|Hh']%elem_of_cons by (eapply Hin; [done|by left]).
      - by apply (ord_lt_irrefl ord) in Hh.
      - specialize (Hhd _ Hh'). by apply (ord_lt_not_lt ord) in Hhd. }
    destruct Hres as [(_ & _ & Hall)|(j' & e & r & Hj & -> & _ & _ & Hmin)].
    { destruct (Hall _ _ Hr0) as (b & ? & _). done. }
    exists r. simpl. rewrite Hj. specialize (Hmin _ _ Hr0). do 2 f_equal.
    assert (e ∈ e0 :: rest) as [->|He]%elem_of_cons; [|done|by apply Hhd in He].
    eapply Hin; [by eapply list_elem_of_lookup_2|by left].
Qed.

(** ** The merged iterator *)

(** [ls]: the lists of the children, [rs]: what each has left, [l]: the merged list,
    [rest]: what is left of it. *)
Record km_inv (it : KMergeIter CI) (ls rs : list (list entry)) (l rest : list entry) : Prop := {
  ki_children : children_at (all_children (km_core it)) ls rs;
  ki_entries : mjoin ls ≡ₚ l;
  ki_sorted : sorted ord l;
  ki_keys : ∀ e, e ∈ l → key_ok e.1;
  ki_each : Forall (sorted ord) ls;
  ki_rest : mjoin rs ≡ₚ rest;
  ki_forward : km_direction it = Forward;
  ki_current : match rest with
    | [] => km_current it = iters_len (km_core it)
    | e :: _ => ∃ r, rs !! km_current it = Some (e :: r)
    end;
}.

Definition km_rep (it : KMergeIter CI) (l : list entry) (p : option nat) : Prop :=
  (∀ i, p = Some i → i < length l) ∧ ∃ ls rs, km_inv it ls rs l (rest_from l p).

Lemma iters_len_eq c : iters_len (CI := CI) c = length (all_children c).
Proof. unfold iters_len. by rewrite length_app. Qed.
Lemma get_child_eq (c : KMergeCore CI) i : get_child c i = index (all_children c) i.
Proof.
  unfold get_child, index. destruct (Nat.ltb_spec i (length (kc_first c))); [by rewrite lookup_app_l|by rewrite lookup_app_r].
Qed.
Lemma set_child_eq (c : KMergeCore CI) i x : all_children (set_child c i x) = <[i := x]> (all_children c).
Proof.
  unfold set_child. destruct (Nat.ltb_spec i (length (kc_first c))); simpl; [by rewrite insert_app_l|].
  by rewrite insert_app_r_alt.
Qed.

Lemma join_insert (rs : list (list entry)) j e r : rs !! j = Some (e :: r) → mjoin rs ≡ₚ e :: mjoin (<[j := r]> rs).
Proof.
  revert j. induction rs as [|x rs IH]; intros [|j] Hj; try done; simpl in *.
  - by injection Hj as ->.
  - rewrite (IH j Hj). by rewrite Permutation_middle.
Qed.
Lemma rests_sorted cs ls rs : children_at cs ls rs → Forall (sorted ord) ls → Forall (sorted ord) rs.
Proof.
  intros (H1 & H2 & H3) Hs. rewrite Forall_lookup in *. intros j r Hr. apply lookup_lt_Some in Hr as Hlt.
  destruct (lookup_lt_is_Some_2 ls j) as [l Hl]; [lia|]. destruct (lookup_lt_is_Some_2 cs j) as [c Hc]; [lia|].
  destruct (H3 j c l r Hc Hl Hr) as (p & _ & ->). apply sorted_rest. by eapply Hs.
Qed.

(** Restarting all children leaves the sorted merge of what they have left. *)
Lemma km_restart_ok move (g : list entry → list entry) it ls rs l rest rest' : km_inv it ls rs l rest →
  (∀ c k r, k ∈ ls → child_at c k r → ∃ c', move c = Ok c' ∧ child_at c' k (g k)) →
  mjoin (g <$> ls) ≡ₚ rest' → sorted ord rest' → (∀ e, e ∈ rest' → e ∈ l) →
  ∃ it', km_restart C move Lt Forward it = Ok it' ∧ km_inv it' ls (g <$> ls) l rest'.
Proof.
  intros [Hc He Hs Hk Hl Hr Hf _] Hmove Hp Hs' Hin. unfold km_restart, for_each_child.
  destruct (for_each_at move g _ ls rs Hc Hmove) as (cs' & Hfe & Hc').
  assert (∃ a b, for_each move (kc_first (km_core it)) = Ok a ∧ for_each move (kc_second (km_core it)) = Ok b ∧ a ++ b = cs')
    as (a & b & -> & -> & Hab).
  { clear -Hfe. revert cs' Hfe. induction (kc_first (km_core it)) as [|x xs IH]; intros cs' Hfe; simpl in *; [by exists [], cs'|].
    destruct (move x) as [y| | |]; try done. rewrite Ok_bind in Hfe |- *. apply bind_Ok in Hfe as (ys & Hys & [= <-]).
    destruct (IH ys Hys) as (a & b & -> & Hb & Hab). exists (y :: a), b. rewrite Ok_bind. simpl. by rewrite Hab. }
  rewrite !Ok_bind. subst cs'.
  destruct (find_smallest_ok (mkCore a b) ls (g <$> ls) rest') as (j & -> & Hj); [done|by eapply rests_sorted|done|done|eauto|].
  rewrite Ok_bind. eexists. split; [done|]. by split.
Qed.

Lemma rest_lookup (l : list entry) i e : l !! i = Some e → rest_from l (Some i) = e :: drop (S i) l.
Proof. intros He. simpl. by rewrite (drop_S _ _ _ He). Qed.

Lemma current_child it ls rs l i e : km_inv it ls rs l (rest_from l (Some i)) → l !! i = Some e →
  ∃ c k r, all_children (km_core it) !! km_current it = Some c ∧ ls !! km_current it = Some k ∧
    rs !! km_current it = Some (e :: r) ∧ child_at c k (e :: r).
Proof.
  intros [(H1 & H2 & H3) _ _ _ _ _ _ Hcur] He. rewrite (rest_lookup l i e He) in Hcur. destruct Hcur as (r & Hr).
  apply lookup_lt_Some in Hr as Hlt. destruct (lookup_lt_is_Some_2 ls (km_current it)) as [k Hk]; [lia|].
  destruct (lookup_lt_is_Some_2 (all_children (km_core it)) (km_current it)) as [c Hc]; [lia|].
  exists c, k, r. split_and!; [done..|]. by eapply H3.
Qed.

Lemma km_next_ok it ls rs l i e : km_inv it ls rs l (rest_from l (Some i)) → l !! i = Some e →
  ∃ it' rs', km_next C it = Ok it' ∧ km_inv it' ls rs' l (drop (S i) l).
Proof.
  intros Hinv He. destruct (current_child it ls rs l i e Hinv He) as (c & k & r & Hc & Hk & Hr & Hat).
  destruct (Hinv) as [(H1 & H2 & H3) Hent Hs Hkey Hl Hrest Hf _]. unfold km_next, km_advance.
  rewrite decide_True, Ok_bind by done. rewrite get_child_eq. unfold index. rewrite Hc, Ok_bind.
  destruct (child_head c k e r Hat) as (_ & _ & c' & -> & Hat'). rewrite Ok_bind.
  set (cur := km_current it) in *. set (core' := set_child (km_core it) cur c').
  assert (children_at (all_children core') ls (<[cur := r]> rs)) as Hc'.
  { unfold core'. rewrite set_child_eq. split_and!; [by rewrite length_insert|by rewrite length_insert|].
    intros j x y z Hx Hy Hz. destruct (decide (j = cur)) as [->|Hne].
    - rewrite list_lookup_insert_eq in Hx by (by eapply lookup_lt_Some).
      rewrite list_lookup_insert_eq in Hz by (by eapply lookup_lt_Some). rewrite Hk in Hy. congruence.
    - rewrite list_lookup_insert_ne in Hx by done. rewrite list_lookup_insert_ne in Hz by done. by eapply H3. }
  rewrite (rest_lookup l i e He) in Hrest.
  assert (mjoin (<[cur := r]> rs) ≡ₚ drop (S i) l) as Hrest'.
  { apply (Permutation_cons_inv (a := e)). by rewrite <- (join_insert rs cur e r Hr). }
  destruct (find_smallest_ok core' ls (<[cur := r]> rs) (drop (S i) l)) as (j & -> & Hj); try done.
  { by eapply rests_sorted. } { by apply sorted_drop. } { intros x Hx. apply Hkey. by eapply subseteq_drop. }
  rewrite Ok_bind. eexists _, _. split; [done|]. by split.
Qed.

(** A new iterator over children that stand nowhere. *)
Lemma km_new_rep core ls l : Forall2 (λ c k, repC c k None) (all_children core) ls → Forall (sorted ord) ls →
  l ≡ₚ mjoin ls → sorted ord l → (∀ e, e ∈ l → key_ok e.1) → km_rep (km_new core) l None.
Proof.
  intros Hc Hls Hp Hs Hk. split; [done|]. exists ls, ((λ _, []) <$> ls). split; try done.
  - split_and!; [by eapply Forall2_length|by rewrite length_fmap|]. intros j c k r Hcj Hkj Hr.
    rewrite list_lookup_fmap, Hkj in Hr. injection Hr as <-. exists None. split; [|done].
    by eapply (Forall2_lookup_lr _ _ _ j c k Hc).
  - clear. induction ls; [done|]. simpl. done.
Qed.

#[export] Instance km_fwd : @FwdLaws _ (KMergeIter_Iterator C) ord key_ok km_rep.
Proof.
  split; simpl.
  - intros it l i [Hi _]. by apply Hi.
  - intros it l [i|] [Hi (ls & rs & Hinv)].
    + destruct (lookup_lt_is_Some_2 l i (Hi i eq_refl)) as [e He].
      destruct (current_child it ls rs l i e Hinv He) as (c & k & r & Hc & _ & _ & Hat). unfold km_valid.
      rewrite iters_len_eq, (proj2 (Nat.ltb_lt _ _)) by (by eapply lookup_lt_Some).
      rewrite get_child_eq. unfold index. rewrite Hc. by rewrite (child_valid c k _ Hat).
    + destruct Hinv as [_ _ _ _ _ _ _ Hcur]. simpl in Hcur. unfold km_valid. by rewrite Hcur, Nat.ltb_irrefl.
  - intros it l p [_ (ls & rs & Hinv)].
    destruct (km_restart_ok it_seek_to_first id it ls rs l _ l Hinv) as (it' & Hit & Hinv').
    + intros c k r Hk (q & Hr & _). destruct (rep_seek_to_first ord key_ok c k q Hr) as (c' & Hc' & Hr').
      exists c'. split; [done|]. exists (first_pos k). split; [done|]. by rewrite rest_first.
    + rewrite list_fmap_id. apply Hinv.
    + apply Hinv.
    + done.
    + exists it'. split; [exact Hit|]. split.
      * intros i Hi. destruct l; [done|]. simpl in *. injection Hi as <-. lia.
      * exists ls, (id <$> ls). by rewrite rest_first.
  - intros it l p t [_ (ls & rs & Hinv)] Ht.
    destruct (km_restart_ok (λ i, it_seek i t) (filter (λ e, ord e.1 t ≠ Lt)) it ls rs l _ (filter (λ e, ord e.1 t ≠ Lt) l) Hinv)
      as (it' & Hit & Hinv').
    + intros c k r Hk (q & Hr & _). destruct (rep_seek ord key_ok c k q t Hr Ht) as (c' & Hc' & Hr').
      exists c'. split; [done|]. exists (seek_pos ord k t). split; [done|]. rewrite rest_seek; [done|apply CO|].
      pose proof (ki_each _ _ _ _ _ Hinv) as Hs. rewrite Forall_forall in Hs. by apply Hs.
    + rewrite <- (ki_entries _ _ _ _ _ Hinv). clear. induction ls as [|k ls IH]; [done|]. simpl. rewrite filter_app. by rewrite IH.
    + rewrite <- (rest_seek ord) by apply Hinv. apply sorted_rest. apply Hinv.
    + intros e [_ He]%list_elem_of_filter. done.
    + exists it'. split; [exact Hit|]. split; [apply seek_pos_lt|]. exists ls. eexists.
      rewrite (rest_seek ord) by apply Hinv. exact Hinv'.
  - intros it l i [Hi (ls & rs & Hinv)]. destruct (lookup_lt_is_Some_2 l i (Hi i eq_refl)) as [e He].
    destruct (km_next_ok it ls rs l i e Hinv He) as (it' & rs' & Hit & Hinv'). exists it'. split; [exact Hit|]. split.
    + unfold next_pos. case_decide; intros j Hj; simplify_eq. done.
    + exists ls, rs'. by rewrite (rest_next l i e He).
  - intros it l i e [_ (ls & rs & Hinv)] He.
    destruct (current_child it ls rs l i e Hinv He) as (c & k & r & Hc & _ & _ & Hat).
    unfold km_key. rewrite get_child_eq. unfold index. rewrite Hc, Ok_bind. by destruct (child_head c k e r Hat) as (-> & _).
  - intros it l i e [_ (ls & rs & Hinv)] He.
    destruct (current_child it ls rs l i e Hinv He) as (c & k & r & Hc & _ & _ & Hat).
    unfold km_value. rewrite get_child_eq. unfold index. rewrite Hc, Ok_bind. by destruct (child_head c k e r Hat) as (_ & -> & _).
  - intros it l p [Hp (ls & rs & Hinv)].
    assert (∀ cs ls rs, children_at cs ls rs → ∃ cs', take_err_list cs = (Ok tt, cs') ∧ children_at cs' ls rs ∧ length cs' = length cs) as Htake.
    { clear -FL. induction cs as [|c cs IH]; intros ls rs Hc; [by exists []|].
      destruct ls as [|k ls], rs as [|r rs]; try (by destruct Hc as (? & ? & _)). apply children_cons in Hc as [(q & Hr & ->) Hcs].
      destruct (rep_status ord key_ok c k q Hr) as (c' & Hst & Hr'). simpl. rewrite Hst.
      destruct (IH ls rs Hcs) as (cs' & -> & Hcs' & Hlen). exists (c' :: cs'). split; [done|]. split; [|by simpl; rewrite Hlen].
      apply children_cons. split; [by exists q|done]. }
    assert (∀ a b, take_err_list (a ++ b) = match take_err_list a with (Ok _, a) => let '(r, b) := take_err_list b in (r, a ++ b) | (r, a) => (r, a ++ b) end) as Happ.
    { clear. induction a as [|x a IH]; intros b; simpl; [by destruct (take_err_list b)|].
      destruct (it_status x) as [[]]; try done. rewrite IH. destruct (take_err_list a) as [[]]; try done. by destruct (take_err_list b). }
    destruct (Hinv) as [Hc Hent Hs Hk Hl Hrest Hf Hcur].
    destruct (Htake _ _ _ Hc) as (cs' & Hcs & Hc' & Hlen). unfold km_status, take_err. rewrite Happ in Hcs.
    destruct (take_err_list (kc_first (km_core it))) as [[[]| | |] a] eqn:Ea; try done.
    destruct (take_err_list (kc_second (km_core it))) as [r b]. injection Hcs as -> <-.
    eexists. split; [done|]. split; [done|]. exists ls, rs. split; try done.
    cbn [km_current km_core]. rewrite iters_len_eq in *. cbn [kc_first kc_second]. by rewrite Hlen.
Qed.
End Facts.

(** ** Properties *)

(** Merging forward is exact.  When every child walks over a sorted list and no
    key occurs twice, the merging iterator walks over the sorted list of all the
    entries: from the start it yields all of them in order, and after a seek those
    that are not below the target. *)
Theorem kmerge_forward {CI} (IT : Iterator CI) (C : Comparator) (ord : bytes → bytes → comparison) (key_ok : bytes → Prop)
    (repC : CI → list entry → option nat → Prop) (core : KMergeCore CI) (ls : list (list entry)) (l : list entry)
    (target : bytes) :
  ComparatorOrder C key_ok ord → FwdLaws ord key_ok repC →
  Forall2 (λ c k, repC c k None) (kc_first core ++ kc_second core) ls → Forall (sorted ord) ls →
  l ≡ₚ mjoin ls → sorted ord l → (∀ e, e ∈ l → key_ok e.1) → key_ok target →
  (∃ it, km_seek_to_first C (km_new core) = Ok it ∧ @collect _ (KMergeIter_Iterator C) (length l) it = Ok l) ∧
  (∃ it, km_seek C (km_new core) target = Ok it ∧
     @collect _ (KMergeIter_Iterator C) (length l) it = Ok (filter (λ e, ord e.1 target ≠ Lt) l)).
Proof.
  intros CO FL Hc Hls Hp Hs Hk Ht.
  pose proof (km_new_rep ord key_ok repC core ls l Hc Hls Hp Hs Hk) as Hrep.
  pose proof (km_fwd C ord key_ok repC) as FK. split.
  - destruct (@rep_seek_to_first _ (KMergeIter_Iterator C) ord key_ok _ FK _ _ _ Hrep) as (it & Hit & Hr).
    exists it. split; [exact Hit|]. rewrite (collect_rep (IT := KMergeIter_Iterator C) ord key_ok _ _ _ _ _ Hr); by rewrite rest_first.
  - destruct (@rep_seek _ (KMergeIter_Iterator C) ord key_ok _ FK _ _ _ target Hrep Ht) as (it & Hit & Hr).
    exists it. split; [exact Hit|]. rewrite (collect_rep (IT := KMergeIter_Iterator C) ord key_ok _ _ _ _ _ Hr); rewrite (rest_seek ord) by done; [done|].
    apply length_filter.
Qed.

(** Two groups of children over byte keys. *)
Definition sample_core : KMergeCore ListIter :=
  (mkCore [mkListIter [([1], [10]); ([4], [40])] None]
     [mkListIter [([2], [20])] None; mkListIter [([3], [30]); ([5], [50])] None])%Z.

Lemma kmerge_forward_witness :
  ∃ it, km_seek (IT := ListIter_Iterator lex_compare) bytewise (km_new sample_core) [3%Z] = Ok it ∧
    @collect _ (KMergeIter_Iterator (IT := ListIter_Iterator lex_compare) bytewise) 5 it =
      Ok [([3], [30]); ([4], [40]); ([5], [50])]%Z.
Proof.
  destruct (kmerge_forward (ListIter_Iterator lex_compare) bytewise lex_compare (λ _, True) list_rep sample_core
    [[([1], [10]); ([4], [40])]; [([2], [20])]; [([3], [30]); ([5], [50])]]
    [([1], [10]); ([2], [20]); ([3], [30]); ([4], [40]); ([5], [50])] [3])%Z as [_ (it & Hit & Hcol)].
  - apply _.
  - apply list_fwd.
  - repeat constructor; intros; discriminate.
  - repeat constructor; by apply sortedb_sorted.
  - by apply (bool_decide_eq_true_1 _).
  - by apply sortedb_sorted.
  - done.
  - done.
  - exists it. split; [exact Hit|]. etransitivity; [exact Hcol|reflexivity].
Defined.

(** Turning around: after two steps forward one step back should return to the first
    key; the children of the other group are not turned, and the key [4] comes again. *)
Example kmerge_turn_wrong :
  (it ← km_seek_to_first (IT := ListIter_Iterator lex_compare) bytewise (km_new sample_core);
   it ← km_next (IT := ListIter_Iterator lex_compare) bytewise it;
   k ← km_key (IT := ListIter_Iterator lex_compare) it;
   it ← km_prev (IT := ListIter_Iterator lex_compare) bytewise it;
   k' ← km_key (IT := ListIter_Iterator lex_compare) it;
   Ok (k, k')) = Ok ([2], [4])%Z.
Proof. vm_compute. reflexivity. Qed.
