(* ===== verification/DbIter.v ===== *)
(** * The iterator of the database: [DBIterator] of [src/db/iterator.rs]

    Combines the internal entries of the inner iterator (all versions of all keys,
    deletions included) into the user entries a reader at a sequence number sees.
    The sampling of reads in [parse_key], which may schedule a compaction, does not
    change what is returned and is with the other uses of samples in [Lifecycle]. *)
From stdpp Require Import gmap sorting.
From S2P Require Import Prelude Coding Comparator Format Iterator KMerge.
Open Scope Z_scope.

Section DBIterator.
Context {I : Type} {IT : Iterator I} (ucmp : Comparator).
(** More than the entries of the inner iterator. *)
Context (fuel : nat).

Record DBIterator : Type := mkDbIter {
  di_valid : bool;
  di_sequence : Z;
  di_err : option error;
  di_inner : I;
  di_direction : IterDirection;
  di_saved_key : bytes;
  di_saved_value : bytes;
}.

Definition di_new (iter : I) (sequence : Z) : DBIterator := mkDbIter false sequence None iter Forward [] [].

Definition with_valid (v : bool) (it : DBIterator) : DBIterator :=
  mkDbIter v (di_sequence it) (di_err it) (di_inner it) (di_direction it) (di_saved_key it) (di_saved_value it).
Definition with_inner (i : I) (it : DBIterator) : DBIterator :=
  mkDbIter (di_valid it) (di_sequence it) (di_err it) i (di_direction it) (di_saved_key it) (di_saved_value it).
Definition with_direction (d : IterDirection) (it : DBIterator) : DBIterator :=
  mkDbIter (di_valid it) (di_sequence it) (di_err it) (di_inner it) d (di_saved_key it) (di_saved_value it).
Definition with_key (k : bytes) (it : DBIterator) : DBIterator :=
  mkDbIter (di_valid it) (di_sequence it) (di_err it) (di_inner it) (di_direction it) k (di_saved_value it).
Definition with_value (v : bytes) (it : DBIterator) : DBIterator :=
  mkDbIter (di_valid it) (di_sequence it) (di_err it) (di_inner it) (di_direction it) (di_saved_key it) v.

(** [parse_key]: the key of the inner iterator (its value is read for the sampling). *)
Definition parse_key (it : DBIterator) : outcome InternalKey :=
  k ← it_key (di_inner it);
  _ ← it_value (di_inner it);
  Ok (ikey_decoded_from k).

Definition di_valid_or_panic (it : DBIterator) : outcome unit := rust_assert (di_valid it).

(** The end of [find_next_user_entry]. *)
Definition no_more (it : DBIterator) : DBIterator := with_valid false (with_key [] it).

Fixpoint find_next_loop (n : nat) (skipping : bool) (it : DBIterator) : outcome DBIterator :=
  match n with
  | O => OutOfFuel
  | S n =>
    ikey ← parse_key it;
    pkey ← ikey_parsed ikey;
    let advance (skipping : bool) (it : DBIterator) :=
      inner ← it_next (di_inner it);
      let it := with_inner inner it in
      if it_valid inner then find_next_loop n skipping it else Ok (no_more it) in
    match pkey with
    | Some pkey =>
      if pk_seq pkey <=? di_sequence it then
        match pk_value_type pkey with
        | Value =>
          hidden ← (if (skipping : bool)
                    then c ← @compare ucmp (pk_user_key pkey) (di_saved_key it); Ok (bool_decide (c ≠ Gt))
                    else Ok false);
          if (hidden : bool) then advance skipping it
          else Ok (with_valid true (with_key [] it))
        | Deletion => advance true (with_key (pk_user_key pkey) it)
        | Unknown => advance skipping it
        end
      else advance skipping it
    | None => advance skipping it
    end
  end.
Definition find_next_user_entry (skipping : bool) (it : DBIterator) : outcome DBIterator :=
  find_next_loop fuel skipping it.

(** The loop of [find_prev_user_key]; it returns the last value type it saw. *)
Fixpoint find_prev_loop (n : nat) (value_type : ValueType) (it : DBIterator) : outcome (ValueType * DBIterator) :=
  match n with
  | O => OutOfFuel
  | S n =>
    ikey ← parse_key it;
    pkey ← ikey_parsed ikey;
    let advance (value_type : ValueType) (it : DBIterator) :=
      inner ← it_prev (di_inner it);
      let it := with_inner inner it in
      if it_valid inner then find_prev_loop n value_type it else Ok (value_type, it) in
    match pkey with
    | Some pkey =>
      if pk_seq pkey <=? di_sequence it then
        stop ← (if bool_decide (value_type = Value)
                then c ← @compare ucmp (pk_user_key pkey) (di_saved_key it); Ok (bool_decide (c = Lt))
                else Ok false);
        if (stop : bool) then Ok (value_type, it)
        else
          match pk_value_type pkey with
          | Deletion => advance Deletion (with_value [] (with_key [] it))
          | Value =>
            k ← it_key (di_inner it);
            u ← extract_user_key k;
            v ← it_value (di_inner it);
            advance Value (with_value v (with_key u it))
          | Unknown => advance Unknown it
          end
      else advance value_type it
    | None => advance value_type it
    end
  end.
Definition find_prev_user_key (it : DBIterator) : outcome DBIterator :=
  r ← (if it_valid (di_inner it) then find_prev_loop fuel Deletion it else Ok (Deletion, it));
  let '(value_type, it) := r in
  if bool_decide (value_type ≠ Value)
  then Ok (with_direction Forward (with_value [] (with_key [] (with_valid false it))))
  else Ok (with_valid true it).

Definition di_seek_to_first (it : DBIterator) : outcome DBIterator :=
  inner ← it_seek_to_first (di_inner it);
  let it := with_inner inner (with_value [] (with_direction Forward it)) in
  if it_valid inner then find_next_user_entry false it else Ok (with_valid false it).
Definition di_seek_to_last (it : DBIterator) : outcome DBIterator :=
  inner ← it_seek_to_last (di_inner it);
  find_prev_user_key (with_inner inner (with_value [] (with_direction Reverse it))).
Definition di_seek (it : DBIterator) (target : bytes) : outcome DBIterator :=
  ikey ← pk_encode (mkParsed target (di_sequence it) VALUE_TYPE_FOR_SEEK);
  inner ← it_seek (di_inner it) (ik_data ikey);
  let it := with_inner inner (with_key [] (with_value [] (with_direction Forward it))) in
  if it_valid inner then find_next_user_entry false it else Ok (with_valid false it).

Definition di_next (it : DBIterator) : outcome DBIterator :=
  _ ← di_valid_or_panic it;
  match di_direction it with
  | Forward =>
    k ← it_key (di_inner it);
    u ← extract_user_key k;
    inner ← it_next (di_inner it);
    let it := with_inner inner (with_key u it) in
    if it_valid inner then find_next_user_entry true it else Ok (no_more it)
  | Reverse =>
    inner ← (if it_valid (di_inner it) then it_next (di_inner it) else it_seek_to_first (di_inner it));
    let it := with_inner inner (with_direction Forward it) in
    find_next_user_entry true (if it_valid inner then it else no_more it)
  end.

(** The scan of [prev] back to the previous user key; [None]: there is none. *)
Fixpoint back_to_prev (n : nat) (it : DBIterator) : outcome (option DBIterator * DBIterator) :=
  match n with
  | O => OutOfFuel
  | S n =>
    inner ← it_prev (di_inner it);
    let it := with_inner inner it in
    if it_valid inner then
      k ← it_key inner;
      u ← extract_user_key k;
      c ← @compare ucmp u (di_saved_key it);
      match c with Lt => Ok (Some it, it) | _ => back_to_prev n it end
    else Ok (None, it)
  end.
Definition di_prev (it : DBIterator) : outcome DBIterator :=
  _ ← di_valid_or_panic it;
  match di_direction it with
  | Forward =>
    k ← it_key (di_inner it);
    u ← extract_user_key k;
    r ← back_to_prev fuel (with_key u it);
    match r with
    | (Some it, _) => find_prev_user_key (with_direction Reverse it)
    | (None, it) => Ok (with_value [] (no_more it))
    end
  | Reverse => find_prev_user_key it
  end.

Definition di_key (it : DBIterator) : outcome bytes :=
  _ ← di_valid_or_panic it;
  match di_direction it with
  | Forward => k ← it_key (di_inner it); extract_user_key k
  | Reverse => Ok (di_saved_key it)
  end.
Definition di_value (it : DBIterator) : outcome bytes :=
  _ ← di_valid_or_panic it;
  match di_direction it with
  | Forward => it_value (di_inner it)
  | Reverse => Ok (di_saved_value it)
  end.
Definition di_status (it : DBIterator) : outcome unit * DBIterator :=
  match di_err it with
  | Some e => (Err e, mkDbIter (di_valid it) (di_sequence it) None (di_inner it) (di_direction it) (di_saved_key it) (di_saved_value it))
  | None => let '(r, inner) := it_status (di_inner it) in (r, with_inner inner it)
  end.

Definition DBIterator_Iterator : Iterator DBIterator := {|
  it_valid := di_valid;
  it_seek_to_first := di_seek_to_first;
  it_seek_to_last := di_seek_to_last;
  it_seek := di_seek;
  it_next := di_next;
  it_prev := di_prev;
  it_key := di_key;
  it_value := di_value;
  it_status := di_status;
|}.
End DBIterator.
Arguments DBIterator I : clear implicits.

(** ** What a reader sees *)
Section View.
Context (uord : bytes → bytes → comparison) {KO : KeyOrder uord}.

Definition kind_of (e : entry) : ValueType := value_type_from (ktag e.1 mod 256).

(** The newest visible entry of every user key, without the deleted ones; [skip]: a
    user key whose entries are hidden. *)
Fixpoint view (seq : Z) (skip : option bytes) (l : list entry) : list entry :=
  match l with
  | [] => []
  | e :: l =>
    if seq <? kseq e.1 then view seq skip l
    else
      match kind_of e with
      | Value =>
        if match skip with Some k => bool_decide (uord (ukey e.1) k ≠ Gt) | None => false end
        then view seq skip l
        else (ukey e.1, e.2) :: view seq (Some (ukey e.1)) l
      | Deletion => view seq (Some (ukey e.1)) l
      | Unknown => view seq skip l
      end
  end.

(** [v] is the value of the user key [u] at [seq]: the newest entry of [u] that is
    visible says so. *)
Definition live (l : list entry) (seq : Z) (u v : bytes) : Prop :=
  ∃ e, e ∈ l ∧ ukey e.1 = u ∧ e.2 = v ∧ kind_of e = Value ∧ kseq e.1 ≤ seq ∧
    ∀ e', e' ∈ l → uord (ukey e'.1) u = Eq → kseq e'.1 ≤ seq → kseq e'.1 ≤ kseq e.1.

Lemma iord_lt_cases a b : iord uord a b = Lt → uord (ukey a) (ukey b) = Lt ∨ uord (ukey a) (ukey b) = Eq ∧ kseq b < kseq a.
Proof. unfold iord. destruct (uord (ukey a) (ukey b)); [|by left|done]. intros Hc. right. split; [done|exact Hc]. Qed.

(** The view lists exactly the live keys above the skipped one. *)
Lemma view_live seq skip l u v : sorted (iord uord) l → Forall (λ e, kind_of e ≠ Unknown) l →
  (∀ k e, skip = Some k → e ∈ l → uord k (ukey e.1) ≠ Gt) →
  (u, v) ∈ view seq skip l ↔ live l seq u v ∧ ∀ k, skip = Some k → uord u k = Gt.
Proof.
  revert skip. induction l as [|e l IH]; intros skip Hs Hk Hskip.
  { split; [by intros ?%elem_of_nil|]. intros [(e & []%elem_of_nil & _) _]. }
  apply (sorted_cons (iord uord)) in Hs as [Hhd Hs]. apply Forall_cons in Hk as [Hke Hk].
  assert (∀ k e0, skip = Some k → e0 ∈ l → uord k (ukey e0.1) ≠ Gt) as Hskip' by (intros; apply Hskip; [done|by right]).
  assert (∀ e0, e0 ∈ l → uord (ukey e.1) (ukey e0.1) ≠ Gt) as Hle.
  { intros e0 He0. destruct (iord_lt_cases _ _ (Hhd e0 He0)) as [Hc|[Hc _]]; by rewrite Hc. }
  (* the live keys of the tail, when the head does not count for [u] *)
  assert ((seq < kseq e.1 ∨ uord (ukey e.1) u ≠ Eq) → live (e :: l) seq u v ↔ live l seq u v) as Htail.
  { intros Hno. split.
    - intros (x & [->|Hx]%elem_of_cons & Hu & Hv & Hkind & Hseq & Hmax).
      + destruct Hno as [?|Hno]; [lia|]. subst u. by rewrite (ord_refl uord) in Hno.
      + exists x. split_and!; try done. intros e' He'. apply Hmax. by right.
    - intros (x & Hx & Hu & Hv & Hkind & Hseq & Hmax). exists x. split_and!; try done; [by right|].
      intros e' [->|He']%elem_of_cons Hue Hse; [|by apply Hmax]. destruct Hno; [lia|done]. }
  (* a key of the tail that equals the user key of a visible head is not live *)
  assert (kseq e.1 ≤ seq → ∀ x, x ∈ l → ukey x.1 = u → (∀ e', e' ∈ e :: l → uord (ukey e'.1) u = Eq → kseq e'.1 ≤ seq → kseq e'.1 ≤ kseq x.1) →
    uord u (ukey e.1) = Gt) as Habove.
  { intros Hvis x Hx Hu Hmax. destruct (iord_lt_cases _ _ (Hhd x Hx)) as [Hc|[Hc Hlt]]; rewrite Hu in Hc; [by apply (ord_gt_lt uord)|].
    exfalso. specialize (Hmax e ltac:(by left) Hc Hvis). lia. }
  cbn [view]. destruct (Z.ltb_spec seq (kseq e.1)) as [Hinv|Hvis].
  { rewrite IH by done. rewrite Htail by (by left). done. }
  (* entries hidden behind a visible head *)
  assert (∀ w, (∀ k, Some (ukey e.1) = Some k → uord u k = Gt) → live l seq u w ↔ live (e :: l) seq u w) as Hrest.
  { intros w Hg. specialize (Hg _ eq_refl). split.
    - intros (x & Hx & Hu & Hv & Hkind & Hseq & Hmax). exists x. split_and!; try done; [by right|].
      intros e' [->|He']%elem_of_cons Hue Hse; [|by apply Hmax]. exfalso.
      by rewrite (ord_eq_sym uord _ _ Hue) in Hg.
    - intros (x & [->|Hx]%elem_of_cons & Hu & Hv & Hkind & Hseq & Hmax); [subst u; by rewrite (ord_refl uord) in Hg|].
      exists x. split_and!; try done. intros e' He'. apply Hmax. by right. }
  assert (∀ k, skip = Some k → uord u (ukey e.1) = Gt → uord u k = Gt) as Habk.
  { intros k Hk' Hg. apply (ord_gt_lt uord) in Hg. apply (ord_gt_lt uord).
    eapply (ord_le_lt_trans uord); [|exact Hg]. apply Hskip; [done|by left]. }
  destruct (kind_of e) eqn:Ekind; [| |done].
  - (* a deletion *)
    rewrite IH; [|done..|by intros k e0 [= <-]; apply Hle]. split.
    + intros [Hl Hg]. split; [by apply Hrest|]. intros k Hk'. by apply Habk, Hg.
    + intros [Hl Hg]. assert (uord u (ukey e.1) = Gt) as Hug.
      { destruct Hl as (x & [->|Hx]%elem_of_cons & Hu & Hv & Hkind & Hseq & Hmax); [congruence|]. by eapply Habove. }
      split; [|by intros k [= <-]]. apply Hrest; [by intros k [= <-]|done].
  - destruct (match skip with Some k => bool_decide (uord (ukey e.1) k ≠ Gt) | None => false end) eqn:Ehid.
    + (* hidden *)
      destruct skip as [k|]; [|done]. apply bool_decide_eq_true_1 in Ehid.
      assert (uord (ukey e.1) k = Eq) as Heq.
      { pose proof (Hskip k e eq_refl ltac:(by left)) as Hke'. destruct (uord (ukey e.1) k) eqn:E; [done| |done].
        exfalso. apply Hke'. by apply (ord_gt_lt uord). }
      rewrite IH by done. split; intros [Hl Hg]; (split; [|done]); specialize (Hg k eq_refl);
        (apply Htail; [right|done]); intros Hc; apply (ord_eq_sym uord) in Hc;
        rewrite (ord_eq_l uord _ _ _ Hc), Heq in Hg; done.
    + (* the newest visible entry of its key *)
      rewrite elem_of_cons, IH; [|done..|by intros k e0 [= <-]; apply Hle]. split.
      * intros [[= -> ->]|[Hl Hg]].
        -- split.
           ++ exists e. split_and!; try done; [by left|]. intros e' [->|He']%elem_of_cons Hue Hse; [lia|].
              destruct (iord_lt_cases _ _ (Hhd e' He')) as [Hc|[_ Hlt]]; [|lia].
              exfalso. rewrite (ord_eq_sym uord _ _ Hue) in Hc. done.
           ++ intros k ->. apply bool_decide_eq_false_1 in Ehid. destruct (uord (ukey e.1) k); [exfalso; by apply Ehid..|done].
        -- split; [by apply Hrest|]. intros k Hk'. by apply Habk, Hg.
      * intros [Hl Hg]. destruct Hl as (x & Hin & Hu & Hv & Hkind & Hseq & Hmax).
        apply elem_of_cons in Hin as [->|Hx]; [left; by rewrite <- Hu, <- Hv|right].
        assert (uord u (ukey e.1) = Gt) as Hug by (by eapply Habove).
        split; [|by intros k [= <-]]. apply Hrest; [by intros k [= <-]|]. exists x. split_and!; try done. by right.
Qed.

Lemma view_sorted seq skip l : sorted (iord uord) l → Forall (λ e, kind_of e ≠ Unknown) l → sorted uord (view seq skip l).
Proof.
  revert skip. induction l as [|e l IH]; intros skip Hs Hk; [intros ? ? ? ? _ ?; done|].
  apply (sorted_cons (iord uord)) in Hs as [Hhd Hs]. apply Forall_cons in Hk as [Hke Hk]. cbn [view].
  destruct (seq <? kseq e.1); [by apply IH|]. destruct (kind_of e); [by apply IH| |by apply IH].
  case_match; [by apply IH|]. apply (sorted_cons uord). split; [|by apply IH]. intros [u v] Hin. simpl.
  apply view_live in Hin as [_ Hg]; [|done..|].
  - apply (ord_gt_lt uord). by apply Hg.
  - intros k e0 [= <-] He0. destruct (iord_lt_cases _ _ (Hhd e0 He0)) as [Hc|[Hc _]]; by rewrite Hc.
Qed.

(** Seeking in the internal entries is seeking in the view. *)
Lemma live_seek l seq t u v : seq_ok seq →
  live (filter (λ e, iord uord e.1 (ikey t seq Value) ≠ Lt) l) seq u v ↔ live l seq u v ∧ uord u t ≠ Lt.
Proof.
  intros Hseq.
  assert (∀ k, kseq k ≤ seq → iord uord k (ikey t seq Value) ≠ Lt ↔ uord (ukey k) t ≠ Lt) as Hvis.
  { intros k Hk. unfold iord. rewrite ukey_ikey, kseq_ikey by done. destruct (uord (ukey k) t); [|done..].
    split; [done|]. intros _ Hc. assert (seq < kseq k) by exact Hc. lia. }
  split.
  - intros (x & [Hx Hin]%list_elem_of_filter & Hu & Hv & Hkind & Hs & Hmax). apply Hvis in Hx; [|done].
    rewrite Hu in Hx. split; [|done]. exists x. split_and!; try done. intros e He Hue Hse. apply Hmax; [|done..].
    apply list_elem_of_filter. split; [|done]. apply Hvis; [done|]. by rewrite (ord_eq_l uord _ _ _ Hue).
  - intros [(x & Hin & Hu & Hv & Hkind & Hs & Hmax) Hge]. exists x. split_and!; try done.
    + apply list_elem_of_filter. split; [|done]. apply Hvis; [done|]. by rewrite Hu.
    + intros e [_ He]%list_elem_of_filter. by apply Hmax.
Qed.

Lemma sorted_filter (ord : bytes → bytes → comparison) (P : entry → Prop) `{!∀ e, Decision (P e)} l :
  sorted ord l → sorted ord (filter P l).
Proof.
  induction l as [|e l IH]; intros Hs; [done|]. apply (sorted_cons ord) in Hs as [Hhd Hs]. rewrite filter_cons.
  case_decide; [|by apply IH]. apply (sorted_cons ord). split; [|by apply IH].
  intros x [_ Hx]%list_elem_of_filter. by apply Hhd.
Qed.

(** Sorted lists with the same elements are equal. *)
Lemma sorted_ext l k : sorted uord l → sorted uord k → (∀ e, e ∈ l ↔ e ∈ k) → l = k.
Proof.
  intros Hl Hk Hlk. apply (sorted_unique uord); [done..|].
  assert (∀ m, sorted uord m → NoDup m) as Hnd.
  { induction m as [|e m IH]; intros Hs; [constructor|]. apply (sorted_cons uord) in Hs as [Hhd Hs].
    constructor; [|by apply IH]. intros Hin%Hhd. by apply (ord_lt_irrefl uord) in Hin. }
  apply NoDup_Permutation; auto.
Qed.

Lemma view_seek l seq t : seq_ok seq → sorted (iord uord) l → Forall (λ e, kind_of e ≠ Unknown) l →
  view seq None (filter (λ e, iord uord e.1 (ikey t seq Value) ≠ Lt) l) = filter (λ e, uord e.1 t ≠ Lt) (view seq None l).
Proof.
  intros Hseq Hs Hk.
  assert (Forall (λ e, kind_of e ≠ Unknown) (filter (λ e, iord uord e.1 (ikey t seq Value) ≠ Lt) l)) as Hk'.
  { apply Forall_forall. intros e [_ He]%list_elem_of_filter. rewrite Forall_forall in Hk. by apply Hk. }
  apply sorted_ext.
  - apply view_sorted; [by apply sorted_filter|done].
  - by apply sorted_filter, view_sorted.
  - intros [u v]. rewrite list_elem_of_filter, !view_live by (done || by apply sorted_filter).
    rewrite live_seek by done. simpl. naive_solver.
Qed.
End View.

(** ** The iterator walks over the view *)
Section Facts.
Context {I : Type} {IT : Iterator I} (ucmp : Comparator).
Context (uord : bytes → bytes → comparison) (uok : bytes → Prop) {CO : ComparatorOrder ucmp uok uord}.
Context (rep : I → list entry → option nat → Prop) {FL : FwdLaws (iord uord) (ikey_ok uok) rep}.
Context (fuel : nat).

(** An entry of the database: a well-formed internal key of a value or a deletion. *)
Definition db_entry (e : entry) : Prop := ikey_ok uok e.1 ∧ kind_of e ≠ Unknown.

Lemma db_entry_parsed e : db_entry e → ikey_parsed (mkIKey e.1) = Ok (Some (mkParsed (ukey e.1) (kseq e.1) (kind_of e))).
Proof.
  intros [[Hlen _] Hk]. rewrite ikey_parsed_decode, decode_from_spec, bool_decide_eq_false_2 by (done || lia).
  unfold kind_of in *. by destruct (value_type_from _).
Qed.

(** The iterator, at sequence number [seq] over the internal entries [l], still has
    to yield [r]. *)
Record db_at (it : DBIterator I) (seq : Z) (l r : list entry) : Prop := {
  da_seq : di_sequence it = seq;
  da_err : di_err it = None;
  da_rest : match r with
    | [] => di_valid it = false ∧ ∃ k, child_at rep (di_inner it) l k
    | (u, v) :: r => di_valid it = true ∧ di_direction it = Forward ∧
        ∃ e k, child_at rep (di_inner it) l (e :: k) ∧ Forall db_entry (e :: k) ∧ ukey e.1 = u ∧ e.2 = v ∧
          view uord seq (Some u) k = r
    end;
}.

Lemma find_next_ok n skipping it seq l e k :
  di_sequence it = seq → di_err it = None → di_direction it = Forward → child_at rep (di_inner it) l (e :: k) →
  Forall db_entry (e :: k) → (skipping = true → uok (di_saved_key it)) → (length k < n)%nat →
  ∃ it', find_next_loop ucmp n skipping it = Ok it' ∧
    db_at it' seq l (view uord seq (if skipping then Some (di_saved_key it) else None) (e :: k)).
Proof.
  revert skipping it e k. induction n as [|n IH]; intros skipping it e k Hseq Herr Hd Hc Hall Hsk Hn; [lia|].
  destruct (child_head (iord uord) (ikey_ok uok) rep _ _ _ _ Hc) as (Hkey & Hval & inner & Hnext & Hc').
  inversion Hall as [|? ? He Hk]; subst. destruct (He) as [[Hlen Huk] Hkind].
  (* stepping over the entry *)
  assert (∀ sk jt, di_sequence jt = di_sequence it → di_err jt = None → di_direction jt = Forward →
    di_inner jt = di_inner it → (sk = true → uok (di_saved_key jt)) →
    ∃ it', (inner ← it_next (di_inner jt);
            if it_valid inner then find_next_loop ucmp n sk (with_inner inner jt) else Ok (no_more (with_inner inner jt))) = Ok it' ∧
      db_at it' (di_sequence it) l (view uord (di_sequence it) (if (sk : bool) then Some (di_saved_key jt) else None) k)) as Hstep.
  { intros sk jt Hs1 He1 Hd1 Hi1 Hk1. rewrite Hi1, Hnext, Ok_bind, (child_valid (iord uord) (ikey_ok uok) rep _ _ _ Hc').
    destruct k as [|e' k].
    - eexists. split; [done|]. split; [done..|]. simpl. split; [done|]. by exists [].
    - destruct (IH sk (with_inner inner jt) e' k) as (it' & -> & Hat); try done; [simpl in *; lia|]. by exists it'. }
  cbn [find_next_loop]. unfold parse_key. rewrite Hkey, Hval, !Ok_bind. unfold ikey_decoded_from.
  rewrite db_entry_parsed, Ok_bind by done. cbn [pk_seq pk_value_type pk_user_key view].
  destruct (Z.leb_spec (kseq e.1) (di_sequence it)); destruct (Z.ltb_spec (di_sequence it) (kseq e.1)); try lia; [|by apply Hstep].
  destruct (kind_of e) eqn:Ek; [| |done].
  - destruct (Hstep true (with_key (ukey e.1) it)) as (it' & Hit & Hat); try done. by exists it'.
  - (* a value *)
    assert ((if skipping then c ← @compare ucmp (ukey e.1) (di_saved_key it); Ok (bool_decide (c ≠ Gt)) else Ok false) =
      Ok (match (if skipping then Some (di_saved_key it) else None) with
          | Some k0 => bool_decide (uord (ukey e.1) k0 ≠ Gt) | None => false end)) as ->.
    { destruct skipping; [|done]. by rewrite compare_ord, Ok_bind by auto. }
    rewrite Ok_bind. case_match; [by apply Hstep|].
    eexists. split; [done|]. split; [done..|]. split_and!; [done..|]. by exists e, k.
Qed.

Definition db_rep (seq : Z) (it : DBIterator I) (r : list entry) (p : option nat) : Prop :=
  (∀ i, p = Some i → (i < length r)%nat) ∧
  ∃ l, sorted (iord uord) l ∧ Forall db_entry l ∧ (length l ≤ fuel)%nat ∧ r = view uord seq None l ∧
    db_at it seq l (rest_from r p).

Lemma db_at_child it seq l r : db_at it seq l r → ∃ p, rep (di_inner it) l p.
Proof.
  intros [_ _ Hr]. destruct r as [|[u v] r].
  - destruct Hr as (_ & k & p & Hp & _). eauto.
  - destruct Hr as (_ & _ & e & k & (p & Hp & _) & _). eauto.
Qed.

Lemma child_sub c l k e : child_at rep c l k → e ∈ k → e ∈ l.
Proof. intros ([i|] & _ & ->); simpl; [|by intros ?%elem_of_nil]. intros He. rewrite <- (take_drop i l). apply elem_of_app. by right. Qed.

(** Looking for the next entry from where the inner iterator stands. *)
Lemma find_from_ok it seq l k :
  di_sequence it = seq → di_err it = None → di_direction it = Forward → child_at rep (di_inner it) l k →
  Forall db_entry l → (length l ≤ fuel)%nat →
  ∃ it', (if it_valid (di_inner it) then find_next_user_entry ucmp fuel false it else Ok (with_valid false it)) = Ok it' ∧
    db_at it' seq l (view uord seq None k).
Proof.
  intros Hs He Hd Hc Hl Hf. rewrite (child_valid (iord uord) (ikey_ok uok) rep _ _ _ Hc). destruct k as [|e k].
  - eexists. split; [done|]. split; [done..|]. split; [done|]. by exists [].
  - assert (Forall db_entry (e :: k)) as Hall.
    { rewrite Forall_forall in *. intros x Hx. apply Hl. by eapply child_sub. }
    apply (find_next_ok fuel false); try done. destruct Hc as ([i|] & _ & Hk); [|done].
    apply (f_equal length) in Hk. simpl in Hk. rewrite length_drop in Hk. lia.
Qed.

Lemma rest_lt {r p} : (∀ i, p = Some i → (i < length r)%nat) → match rest_from r p with [] => p = None | x :: k => ∃ i, p = Some i ∧ r !! i = Some x ∧ k = drop (S i) r end.
Proof.
  intros Hp. destruct p as [i|]; [|done]. specialize (Hp i eq_refl). destruct (lookup_lt_is_Some_2 r i Hp) as [x Hx].
  simpl. rewrite (drop_S _ _ _ Hx). eauto.
Qed.

Lemma db_fwd seq : seq_ok seq → @FwdLaws _ (DBIterator_Iterator ucmp fuel) uord uok (db_rep seq).
Proof.
  intros Hseq. split.
  - intros it r i [Hi _]. by apply Hi.
  - intros it r p [Hp (l & Hs & Hl & Hf & Hr & Hat)]. pose proof (rest_lt Hp) as Hrest. destruct Hat as [_ _ Hat].
    destruct (rest_from r p) as [|[u v] k]; [subst p; by destruct Hat|]. destruct Hrest as (i & -> & _). by destruct Hat.
  - (* seek_to_first *)
    intros it r p [Hp (l & Hs & Hl & Hf & Hr & Hat)]. destruct (db_at_child _ _ _ _ Hat) as [q Hq].
    destruct (rep_seek_to_first (iord uord) (ikey_ok uok) _ _ _ Hq) as (inner & Hin & Hq'). destruct Hat as [Hsq Her _].
    simpl. unfold di_seek_to_first. rewrite Hin, Ok_bind.
    destruct (find_from_ok (with_inner inner (with_value [] (with_direction Forward it))) seq l l) as (it' & Hit & Hat'); try done.
    { exists (first_pos l). by rewrite rest_first. }
    exists it'. split; [exact Hit|]. split; [by destruct r; intros i [= <-]; simpl; lia|]. exists l. rewrite rest_first.
    rewrite <- Hr in Hat'. by split_and!.
  - (* seek *)
    intros it r p t [Hp (l & Hs & Hl & Hf & Hr & Hat)] Ht. destruct (db_at_child _ _ _ _ Hat) as [q Hq].
    destruct (rep_seek (iord uord) (ikey_ok uok) _ _ _ (ikey t seq Value) Hq) as (inner & Hin & Hq').
    { split; [rewrite length_ikey; lia|by rewrite ukey_ikey]. }
    destruct Hat as [Hsq Her _]. simpl. unfold di_seek, pk_encode. cbn [pk_user_key pk_seq pk_value_type].
    rewrite Hsq. unfold VALUE_TYPE_FOR_SEEK. rewrite ikey_new_eq, Ok_bind by done. cbn [ik_data]. rewrite Hin, Ok_bind.
    destruct (find_from_ok (with_inner inner (with_key [] (with_value [] (with_direction Forward it)))) seq l
      (rest_from l (seek_pos (iord uord) l (ikey t seq Value)))) as (it' & Hit & Hat'); try done.
    { by eexists. }
    exists it'. split; [exact Hit|]. split; [apply seek_pos_lt|]. exists l. split_and!; try done.
    assert (Forall (λ e, kind_of e ≠ Unknown) l) as Hkinds by (eapply Forall_impl; [exact Hl|by intros ? []]).
    rewrite (rest_seek uord) by (subst r; by apply (view_sorted uord)).
    rewrite (rest_seek (iord uord)) in Hat' by done. rewrite (view_seek uord) in Hat' by done. by rewrite <- Hr in Hat'.
  - (* next *)
    intros it r i [Hi (l & Hs & Hl & Hf & Hr & Hat)]. specialize (Hi i eq_refl).
    destruct (lookup_lt_is_Some_2 r i Hi) as [[u v] Hx]. destruct Hat as [Hsq Her Hat]. simpl in Hat. rewrite (drop_S _ _ _ Hx) in Hat.
    destruct Hat as (Hv & Hd & e & k & Hc & Hall & Hu & Hev & Hview).
    destruct (child_head (iord uord) (ikey_ok uok) rep _ _ _ _ Hc) as (Hkey & Hval & inner & Hnext & Hc').
    apply Forall_cons in Hall as [He Hk]. destruct (He) as [[Hlen Huk] _].
    simpl. unfold di_next, di_valid_or_panic. rewrite Hv. cbn [rust_assert]. rewrite Ok_bind, Hd, Hkey, Ok_bind.
    rewrite extract_user_key_eq, Ok_bind, Hnext, Ok_bind by done. rewrite (child_valid (iord uord) (ikey_ok uok) rep _ _ _ Hc').
    assert (∀ it', db_at it' seq l (view uord seq (Some (ukey e.1)) k) → db_rep seq it' r (next_pos r i)) as Hdone.
    { intros it' Hat'. split; [unfold next_pos; case_decide; intros j [= <-]; lia|]. exists l. split_and!; try done.
      rewrite (rest_next r i _ Hx), <- Hview, <- Hu. done. }
    destruct k as [|e' k].
    + eexists. split; [done|]. apply Hdone. split; [done..|]. split; [done|]. by exists [].
    + destruct (find_next_ok fuel true (with_inner inner (with_key (ukey e.1) it)) seq l e' k) as (it' & Hit & Hat'); try done.
      { destruct Hc as ([j|] & _ & Hc); [|done]. apply (f_equal length) in Hc. simpl in Hc. rewrite length_drop in Hc. lia. }
      exists it'. split; [exact Hit|]. by apply Hdone.
  - intros it r i e [Hi (l & Hs & Hl & Hf & Hr & Hat)] Hx. destruct Hat as [_ _ Hat]. simpl in Hat. rewrite (drop_S _ _ _ Hx) in Hat.
    destruct e as [u v]. destruct Hat as (Hv & Hd & e & k & Hc & Hall & Hu & _).
    destruct (child_head (iord uord) (ikey_ok uok) rep _ _ _ _ Hc) as (Hkey & _). apply Forall_cons in Hall as [[[Hlen _] _] _].
    simpl. unfold di_key, di_valid_or_panic. rewrite Hv, Hd. simpl. rewrite Hkey. simpl. by rewrite extract_user_key_eq, Hu.
  - intros it r i e [Hi (l & Hs & Hl & Hf & Hr & Hat)] Hx. destruct Hat as [_ _ Hat]. simpl in Hat. rewrite (drop_S _ _ _ Hx) in Hat.
    destruct e as [u v]. destruct Hat as (Hv & Hd & e & k & Hc & Hall & _ & Hev & _).
    destruct (child_head (iord uord) (ikey_ok uok) rep _ _ _ _ Hc) as (_ & Hval & _).
    simpl. unfold di_value, di_valid_or_panic. rewrite Hv, Hd. simpl. by rewrite Hval, Hev.
  - intros it r p [Hp (l & Hs & Hl & Hf & Hr & [Hsq Her Hat])].
    simpl. unfold di_status. rewrite Her. destruct (rest_from r p) as [|[u v] k] eqn:Erest.
    + destruct Hat as (Hv & k & q & Hq & Hk). destruct (rep_status (iord uord) (ikey_ok uok) _ _ _ Hq) as (inner & -> & Hq').
      eexists. split; [done|]. split; [done|]. exists l. split_and!; try done. rewrite Erest. split; [done..|].
      split; [done|]. exists k. by exists q.
    + destruct Hat as (Hv & Hd & e & k' & (q & Hq & Hk) & Hrest). destruct (rep_status (iord uord) (ikey_ok uok) _ _ _ Hq) as (inner & -> & Hq').
      eexists. split; [done|]. split; [done|]. exists l. split_and!; try done. rewrite Erest. split; [done..|].
      split_and!; [done..|]. exists e, k'. split; [by exists q|done].
Qed.
End Facts.

(** ** Properties *)

(** C20: iterating over a snapshot.  The database iterator at sequence number [seq]
    over an inner iterator that walks over the sorted internal entries [l] (all
    versions and deletions of all keys) yields, from the start, a list sorted by user
    key that contains [(u, v)] exactly when the newest entry of [u] with a sequence
    number of at most [seq] is a value and holds [v]; after a seek it yields those of
    them that are not below the target. *)
Theorem db_iter_snapshot {I} (IT : Iterator I) (ucmp : Comparator) (uord : bytes → bytes → comparison) (uok : bytes → Prop)
    (rep : I → list entry → option nat → Prop) (inner : I) (l : list entry) (seq : Z) (target : bytes) :
  ComparatorOrder ucmp uok uord → FwdLaws (iord uord) (ikey_ok uok) rep →
  rep inner l None → sorted (iord uord) l → Forall (db_entry uok) l → seq_ok seq → uok target →
  ∃ r, sorted uord r ∧ (∀ u v, (u, v) ∈ r ↔ live uord l seq u v) ∧
    (∃ it, di_seek_to_first ucmp (length l) (di_new inner seq) = Ok it ∧
       @collect _ (DBIterator_Iterator ucmp (length l)) (length r) it = Ok r) ∧
    (∃ it, di_seek ucmp (length l) (di_new inner seq) target = Ok it ∧
       @collect _ (DBIterator_Iterator ucmp (length l)) (length r) it = Ok (filter (λ e, uord e.1 target ≠ Lt) r)).
Proof.
  intros CO FL Hrep Hs Hl Hseq Ht. exists (view uord seq None l).
  assert (Forall (λ e, kind_of e ≠ Unknown) l) as Hk by (eapply Forall_impl; [exact Hl|by intros ? []]).
  assert (sorted uord (view uord seq None l)) as Hsv by (by apply (view_sorted uord)).
  assert (db_rep uord uok rep (length l) seq (di_new inner seq) (view uord seq None l) None) as Hdb.
  { split; [done|]. exists l. split_and!; try done. split; [done..|]. split; [done|]. exists []. by exists None. }
  pose proof (db_fwd ucmp uord uok rep (length l) seq Hseq) as FD. split_and!; [done| | |].
  - intros u v. rewrite (view_live uord) by done. naive_solver.
  - destruct (@rep_seek_to_first _ (DBIterator_Iterator ucmp (length l)) _ _ _ FD _ _ _ Hdb) as (it & Hit & Hr).
    exists it. split; [exact Hit|].
    rewrite (collect_rep (IT := DBIterator_Iterator ucmp (length l)) uord uok _ _ _ _ _ Hr); by rewrite rest_first.
  - destruct (@rep_seek _ (DBIterator_Iterator ucmp (length l)) _ _ _ FD _ _ _ target Hdb Ht) as (it & Hit & Hr).
    exists it. split; [exact Hit|].
    rewrite (collect_rep (IT := DBIterator_Iterator ucmp (length l)) uord uok _ _ _ _ _ Hr); rewrite (rest_seek uord) by done; [done|].
    apply length_filter.
Qed.

(** Three keys: [1] overwritten after the snapshot, [2] deleted, [3] written twice. *)
Definition sample_entries : list entry :=
  [(ikey [1] 9 Value, [19]); (ikey [1] 4 Value, [14]); (ikey [2] 5 Deletion, []); (ikey [2] 3 Value, [23]);
   (ikey [3] 6 Value, [36]); (ikey [3] 1 Value, [31])].

Lemma db_iter_snapshot_witness :
  ∃ r, (∀ u v, (u, v) ∈ r ↔ live lex_compare sample_entries 6 u v) ∧
    ∃ it, di_seek_to_first (IT := ListIter_Iterator (iord lex_compare)) bytewise 6
            (di_new (mkListIter sample_entries None) 6) = Ok it ∧
      @collect _ (DBIterator_Iterator (IT := ListIter_Iterator (iord lex_compare)) bytewise 6) (length r) it = Ok r ∧
      (∀ it', di_seek_to_first (IT := ListIter_Iterator (iord lex_compare)) bytewise 6
            (di_new (mkListIter sample_entries None) 6) = Ok it' →
       @collect _ (DBIterator_Iterator (IT := ListIter_Iterator (iord lex_compare)) bytewise 6) 2 it' =
         Ok [([1], [14]); ([3], [36])]).
Proof.
  destruct (db_iter_snapshot (ListIter_Iterator (iord lex_compare)) bytewise lex_compare (λ _, True) list_rep
    (mkListIter sample_entries None) sample_entries 6 [2]) as (r & _ & Hin & (it & Hit & Hcol) & _).
  - apply _.
  - apply list_fwd.
  - by split.
  - by apply sortedb_sorted.
  - by repeat constructor; vm_compute; try lia.
  - by vm_compute.
  - done.
  - exists r. split; [exact Hin|]. exists it. split_and!; [exact Hit|exact Hcol|]. intros it' Hit'.
    vm_compute in Hit'. injection Hit' as <-. reflexivity.
Defined.
