(* ===== verification/Lru.v ===== *)
(** * The LRU cache: [src/cache/lru.rs] and the shards of [src/cache/mod.rs]

    The nodes live on a heap and are linked in both directions between two sentinels,
    as the raw pointers of the code; reading through a null or freed pointer, or an
    uninitialised key, is [Panic].  The operations run under the lock of the cache, one
    at a time.  The calls of the eviction hook are a trace. *)
From stdpp Require Import gmap.
From S2P Require Import Prelude.
Open Scope Z_scope.

Section Lru.
Context {K V : Type} `{Countable K}.

Notation addr := nat.

(** [LRUEntry]; a null pointer and uninitialised memory are [None]. *)
Record LRUEntry : Type := mkEntry {
  le_key : option K;
  le_value : option V;
  le_prev : option addr;
  le_next : option addr;
  le_charge : Z;
}.
Notation heap := (gmap addr LRUEntry).

Definition entry_new (key : K) (value : V) (charge : Z) : LRUEntry := mkEntry (Some key) (Some value) None None charge.
Definition entry_new_empty : LRUEntry := mkEntry None None None None 0.

Definition set_prev (p : option addr) (n : LRUEntry) : LRUEntry := mkEntry (le_key n) (le_value n) p (le_next n) (le_charge n).
Definition set_next (p : option addr) (n : LRUEntry) : LRUEntry := mkEntry (le_key n) (le_value n) (le_prev n) p (le_charge n).
Definition set_value (v : V) (n : LRUEntry) : LRUEntry := mkEntry (le_key n) (Some v) (le_prev n) (le_next n) (le_charge n).
Definition set_kv (k : K) (v : V) (n : LRUEntry) : LRUEntry := mkEntry (Some k) (Some v) (le_prev n) (le_next n) (le_charge n).

Definition ptr (p : option addr) : outcome addr := match p with Some p => Ok p | None => Panic end.
Definition deref (h : heap) (p : addr) : outcome LRUEntry := match h !! p with Some n => Ok n | None => Panic end.
Definition write (h : heap) (p : addr) (f : LRUEntry → LRUEntry) : outcome heap :=
  n ← deref h p; Ok (<[p := f n]> h).
Definition init {A} (x : option A) : outcome A := match x with Some x => Ok x | None => Panic end.

(** [LRUCache] with its [LRUInner]; [lc_hook] is what the hook was called with. *)
Record LRUCache : Type := mkLru {
  lc_capacity : Z;
  lc_table : gmap K addr;
  lc_heap : heap;
  lc_head : addr;
  lc_tail : addr;
  lc_usage : Z;
  lc_hook : list (K * V);
}.

Definition detach (h : heap) (n : addr) : outcome heap :=
  node ← deref h n; next ← ptr (le_next node); h ← write h next (set_prev (le_prev node));
  node ← deref h n; prev ← ptr (le_prev node); write h prev (set_next (le_next node)).
Definition attach (h : heap) (head n : addr) : outcome heap :=
  first ← deref h head; h ← write h n (set_next (le_next first));
  h ← write h n (set_prev (Some head));
  h ← write h head (set_next (Some n));
  node ← deref h n; next ← ptr (le_next node); write h next (set_prev (Some n)).

Definition lru_new (cap : Z) : LRUCache :=
  mkLru cap ∅ {[0%nat := set_next (Some 1%nat) entry_new_empty; 1%nat := set_prev (Some 0%nat) entry_new_empty]} 0 1 0 [].

(** The address of a new box. *)
Definition alloc (h : heap) : addr := fresh (dom h : gset addr).

(** The node for a new key: the least recently used one is recycled (its recorded
    charge is kept) when the cache is full, otherwise a box is allocated. *)
Definition recycle (c : LRUCache) (key : K) (value : V) : outcome (addr * LRUCache) :=
  last ← deref (lc_heap c) (lc_tail c);
  p ← ptr (le_prev last);
  n ← deref (lc_heap c) p;
  k ← init (le_key n);
  p ← init (lc_table c !! k);
  n ← deref (lc_heap c) p;
  k' ← init (le_key n);
  v' ← init (le_value n);
  h ← write (lc_heap c) p (set_kv key value);
  h ← detach h p;
  Ok (p, mkLru (lc_capacity c) (delete k (lc_table c)) h (lc_head c) (lc_tail c) (wrap 64 (lc_usage c - le_charge n))
           (lc_hook c ++ [(k', v')])).
Definition new_node (c : LRUCache) (key : K) (value : V) (charge : Z) : addr * LRUCache :=
  let p := alloc (lc_heap c) in
  (p, mkLru (lc_capacity c) (lc_table c) (<[p := entry_new key value charge]> (lc_heap c)) (lc_head c) (lc_tail c)
        (lc_usage c) (lc_hook c)).

Definition lru_insert (c : LRUCache) (key : K) (value : V) (charge : Z) : outcome (option V * LRUCache) :=
  if 0 <? lc_capacity c then
    match lc_table c !! key with
    | Some p =>
      n ← deref (lc_heap c) p;
      old ← init (le_value n);
      h ← write (lc_heap c) p (set_value value);
      h ← detach h p;
      h ← attach h (lc_head c) p;
      Ok (Some old, mkLru (lc_capacity c) (lc_table c) h (lc_head c) (lc_tail c) (lc_usage c) (lc_hook c ++ [(key, old)]))
    | None =>
      r ← (if lc_capacity c <=? lc_usage c then recycle c key value else Ok (new_node c key value charge));
      let '(p, c) := r in
      h ← attach (lc_heap c) (lc_head c) p;
      Ok (None, mkLru (lc_capacity c) (<[key := p]> (lc_table c)) h (lc_head c) (lc_tail c)
                  (wrap 64 (lc_usage c + charge)) (lc_hook c))
    end
  else Ok (None, c).

Definition lru_get (c : LRUCache) (key : K) : outcome (option V * LRUCache) :=
  match lc_table c !! key with
  | Some p =>
    h ← detach (lc_heap c) p;
    h ← attach h (lc_head c) p;
    n ← deref h p;
    v ← init (le_value n);
    Ok (Some v, mkLru (lc_capacity c) (lc_table c) h (lc_head c) (lc_tail c) (lc_usage c) (lc_hook c))
  | None => Ok (None, c)
  end.

(** The box of the removed entry is freed when the operation ends. *)
Definition lru_erase (c : LRUCache) (key : K) : outcome LRUCache :=
  match lc_table c !! key with
  | Some p =>
    n ← deref (lc_heap c) p;
    h ← detach (lc_heap c) p;
    v ← init (le_value n);
    Ok (mkLru (lc_capacity c) (delete key (lc_table c)) (delete p h) (lc_head c) (lc_tail c)
          (wrap 64 (lc_usage c - le_charge n)) (lc_hook c ++ [(key, v)]))
  | None => Ok c
  end.

Definition lru_total_charge (c : LRUCache) : Z := lc_usage c.
End Lru.
Arguments LRUEntry K V : clear implicits.
Arguments LRUCache K V {_ _}.

(** ** The doubly linked list *)
Section Chain.
Context {K V : Type}.
Notation addr := nat.
Notation heap := (gmap addr (LRUEntry K V)).
Implicit Types (h : heap) (p q a b n : addr) (l : list addr).

Definition nxt h p : option addr := h !! p ≫= le_next.
Definition prv h p : option addr := h !! p ≫= le_prev.

(** Consecutive nodes point at each other. *)
Fixpoint chain h l : Prop :=
  match l with
  | [] => True
  | a :: r => match r with [] => True | b :: _ => nxt h a = Some b ∧ prv h b = Some a end ∧ chain h r
  end.

Lemma chain_app h l a r : chain h (l ++ a :: r) ↔ chain h (l ++ [a]) ∧ chain h (a :: r).
Proof.
  induction l as [|x l IH]; [simpl; tauto|]. cbn [app chain]. rewrite IH.
  destruct l as [|y l]; simpl; tauto.
Qed.
(** The link between two nodes, split from the two sides. *)
Lemma chain_mid h l a b r :
  chain h (l ++ a :: b :: r) ↔ chain h (l ++ [a]) ∧ nxt h a = Some b ∧ prv h b = Some a ∧ chain h (b :: r).
Proof. rewrite chain_app. simpl. tauto. Qed.

Lemma chain_frame_l h h' l a : chain h (l ++ [a]) → (∀ p, p ∈ l → nxt h' p = nxt h p) →
  (∀ p, p ∈ l ++ [a] → prv h' p = prv h p) → chain h' (l ++ [a]).
Proof.
  induction l as [|x l IH]; [done|]. cbn [app chain]. intros [Hx Hc] Hn Hp. split.
  - destruct (l ++ [a]) as [|y r] eqn:E; [done|]. rewrite Hn, Hp; [done|right; by left|by left].
  - apply IH; [done|intros p ?; apply Hn; by right|intros p ?; apply Hp; by right].
Qed.
Lemma chain_frame_r h h' b r : chain h (b :: r) → (∀ p, p ∈ b :: r → nxt h' p = nxt h p) →
  (∀ p, p ∈ r → prv h' p = prv h p) → chain h' (b :: r).
Proof.
  revert b. induction r as [|x r IH]; intros b; [done|]. intros [Hx Hc] Hn Hp. split.
  - rewrite Hn, Hp; [done|by left|by left].
  - apply IH; [done|intros p ?; apply Hn; by right|intros p ?; apply Hp; by right].
Qed.

(** What an operation on the links leaves alone. *)
Definition same_data h h' : Prop :=
  ∀ p, match h !! p, h' !! p with
       | Some n, Some n' => le_key n' = le_key n ∧ le_value n' = le_value n ∧ le_charge n' = le_charge n
       | None, None => True
       | _, _ => False
       end.
Lemma same_data_refl h : same_data h h.
Proof. intros p. by destruct (h !! p). Qed.
Lemma same_data_trans h h' h'' : same_data h h' → same_data h' h'' → same_data h h''.
Proof. intros H1 H2 p. specialize (H1 p). specialize (H2 p). repeat case_match; naive_solver congruence. Qed.

Lemma deref_ok h p x : h !! p = Some x → deref h p = Ok x.
Proof. intros Hx. unfold deref. by rewrite Hx. Qed.

(** Writing one pointer. *)
Lemma write_next h p (q : option addr) x : h !! p = Some x → ∃ h', write h p (set_next q) = Ok h' ∧ same_data h h' ∧
  (∀ r, nxt h' r = if decide (r = p) then q else nxt h r) ∧ (∀ r, prv h' r = prv h r).
Proof.
  intros Hx. unfold write, deref. rewrite Hx, Ok_bind. eexists. split; [done|]. split_and!.
  - intros r. destruct (decide (r = p)) as [->|]; [by rewrite lookup_insert_eq, Hx|]. rewrite lookup_insert_ne by done. by destruct (h !! r).
  - intros r. unfold nxt. case_decide as E; [subst; by rewrite lookup_insert_eq|]. by rewrite lookup_insert_ne by done.
  - intros r. unfold prv. destruct (decide (r = p)) as [->|]; [by rewrite lookup_insert_eq, Hx|]. by rewrite lookup_insert_ne by done.
Qed.
Lemma write_prev h p (q : option addr) x : h !! p = Some x → ∃ h', write h p (set_prev q) = Ok h' ∧ same_data h h' ∧
  (∀ r, nxt h' r = nxt h r) ∧ (∀ r, prv h' r = if decide (r = p) then q else prv h r).
Proof.
  intros Hx. unfold write, deref. rewrite Hx, Ok_bind. eexists. split; [done|]. split_and!.
  - intros r. destruct (decide (r = p)) as [->|]; [by rewrite lookup_insert_eq, Hx|]. rewrite lookup_insert_ne by done. by destruct (h !! r).
  - intros r. unfold nxt. destruct (decide (r = p)) as [->|]; [by rewrite lookup_insert_eq, Hx|]. by rewrite lookup_insert_ne by done.
  - intros r. unfold prv. case_decide as E; [subst; by rewrite lookup_insert_eq|]. by rewrite lookup_insert_ne by done.
Qed.

Lemma nxt_alive h p q : nxt h p = Some q → ∃ x, h !! p = Some x ∧ le_next x = Some q.
Proof. unfold nxt. destruct (h !! p) as [n|]; [|done]. eauto. Qed.
Lemma prv_alive h p q : prv h p = Some q → ∃ x, h !! p = Some x ∧ le_prev x = Some q.
Proof. unfold prv. destruct (h !! p) as [n|]; [|done]. eauto. Qed.
Lemma same_data_alive h h' p x : same_data h h' → h !! p = Some x → is_Some (h' !! p).
Proof. intros Hs Hp. specialize (Hs p). rewrite Hp in Hs. by destruct (h' !! p). Qed.

(** Detaching a node links its neighbours. *)
Lemma detach_ok h l a n b r : chain h (l ++ a :: n :: b :: r) → NoDup (l ++ a :: n :: b :: r) →
  ∃ h', detach h n = Ok h' ∧ same_data h h' ∧ chain h' (l ++ a :: b :: r).
Proof.
  intros Hc Hnd. pose proof Hc as (H1 & Han & Hna & Hc2)%chain_mid. destruct Hc2 as [[Hnb Hbn] Hc2].
  destruct (nxt_alive _ _ _ Han) as (na & Ha & _). destruct (prv_alive _ _ _ Hna) as (nn & Hn & Hnp).
  destruct (prv_alive _ _ _ Hbn) as (nb & Hb & _). unfold detach. rewrite (deref_ok h n nn Hn), Ok_bind.
  assert (le_next nn = Some b) as Hnn by (unfold nxt in Hnb; by rewrite Hn in Hnb). rewrite Hnn. cbn [ptr]. rewrite Ok_bind.
  destruct (write_prev h b (le_prev nn) nb Hb) as (h1 & -> & Hs1 & Hn1 & Hp1). rewrite Ok_bind.
  assert (a ≠ b ∧ n ≠ b ∧ a ≠ n ∧ (∀ p, p ∈ l → p ≠ a ∧ p ≠ b) ∧ (∀ p, p ∈ r → p ≠ b ∧ p ≠ a)) as (Hab & Hnb' & Han' & Hl & Hr).
  { apply NoDup_app in Hnd as (_ & Hd & Hnd). apply NoDup_cons in Hnd as [Ha' Hnd]. apply NoDup_cons in Hnd as [Hn' Hnd].
    apply NoDup_cons in Hnd as [Hb' _]. rewrite !elem_of_cons in *. split_and!; [intros ->; tauto..| |].
    - intros p Hp. specialize (Hd p Hp). rewrite !elem_of_cons in Hd. split; intros ->; tauto.
    - intros p Hp. split; intros ->; tauto. }
  destruct (same_data_alive _ _ _ _ Hs1 Hn) as [nn' Hnn']. rewrite (deref_ok h1 n nn' Hnn'), Ok_bind.
  assert (le_prev nn' = Some a) as ->.
  { specialize (Hp1 n). rewrite decide_False in Hp1 by done. rewrite Hna in Hp1. unfold prv in Hp1. by rewrite Hnn' in Hp1. }
  cbn [ptr]. rewrite Ok_bind.
  assert (le_next nn' = Some b) as ->.
  { specialize (Hn1 n). rewrite Hnb in Hn1. unfold nxt in Hn1. by rewrite Hnn' in Hn1. }
  destruct (same_data_alive _ _ _ _ Hs1 Ha) as [na' Hna'].
  destruct (write_next h1 a (Some b) na' Hna') as (h2 & -> & Hs2 & Hn2 & Hp2).
  exists h2. split_and!; [done|by eapply same_data_trans|]. apply chain_mid. split_and!.
  - apply (chain_frame_l h); [done| |].
    + intros p Hp. destruct (Hl p Hp). by rewrite Hn2, decide_False, Hn1.
    + intros p Hp. rewrite Hp2, Hp1, decide_False; [done|]. apply elem_of_app in Hp as [Hp| ->%list_elem_of_singleton]; [by apply Hl|done].
  - by rewrite Hn2, decide_True.
  - by rewrite Hp2, Hp1, decide_True.
  - apply (chain_frame_r h); [done| |].
    + intros p Hp. rewrite Hn2, decide_False, Hn1; [done|]. apply elem_of_cons in Hp as [->|Hp]; [done|by apply Hr].
    + intros p Hp. rewrite Hp2, Hp1, decide_False; [done|]. by apply Hr.
Qed.

(** Attaching a node puts it behind the head. *)
Lemma attach_ok h head n b r x : chain h (head :: b :: r) → NoDup (head :: n :: b :: r) → h !! n = Some x →
  ∃ h', attach h head n = Ok h' ∧ same_data h h' ∧ chain h' (head :: n :: b :: r).
Proof.
  intros [[Hhb Hbh] Hc] Hnd Hx. destruct (nxt_alive _ _ _ Hhb) as (nh & Hh & Hhn). destruct (prv_alive _ _ _ Hbh) as (nb & Hb & _).
  apply NoDup_cons in Hnd as [Hh' Hnd]. apply NoDup_cons in Hnd as [Hn' Hnd]. apply NoDup_cons in Hnd as [Hb' _].
  rewrite !elem_of_cons in *.
  unfold attach. rewrite (deref_ok h head nh Hh), Ok_bind, Hhn.
  destruct (write_next h n (Some b) x Hx) as (h1 & -> & Hs1 & Hn1 & Hp1). rewrite Ok_bind.
  destruct (same_data_alive _ _ _ _ Hs1 Hx) as [x1 Hx1].
  destruct (write_prev h1 n (Some head) x1 Hx1) as (h2 & -> & Hs2 & Hn2 & Hp2). rewrite Ok_bind.
  pose proof (same_data_trans _ _ _ Hs1 Hs2) as Hs12.
  destruct (same_data_alive _ _ _ _ Hs12 Hh) as [nh2 Hh2].
  destruct (write_next h2 head (Some n) nh2 Hh2) as (h3 & -> & Hs3 & Hn3 & Hp3). rewrite Ok_bind.
  pose proof (same_data_trans _ _ _ Hs12 Hs3) as Hs13.
  destruct (same_data_alive _ _ _ _ Hs13 Hx) as [x3 Hx3]. rewrite (deref_ok h3 n x3 Hx3), Ok_bind.
  assert (le_next x3 = Some b) as ->.
  { specialize (Hn3 n). rewrite decide_False, Hn2, Hn1, decide_True in Hn3 by (done || intros ->; tauto). unfold nxt in Hn3. by rewrite Hx3 in Hn3. }
  cbn [ptr]. rewrite Ok_bind. destruct (same_data_alive _ _ _ _ Hs13 Hb) as [nb3 Hb3].
  destruct (write_prev h3 b (Some n) nb3 Hb3) as (h4 & -> & Hs4 & Hn4 & Hp4).
  exists h4. split_and!; [done|by eapply same_data_trans|]. split; [|split].
  - rewrite Hn4, Hn3, decide_True, Hp4, decide_False, Hp3, Hp2, decide_True by (done || intros ->; tauto). done.
  - rewrite Hn4, Hn3, decide_False, Hn2, Hn1, decide_True, Hp4, decide_True by (done || intros ->; tauto). done.
  - apply (chain_frame_r h); [done| |].
    + intros p Hp. rewrite Hn4, Hn3, decide_False, Hn2, Hn1, decide_False; [done|..]; intros ->; apply elem_of_cons in Hp; tauto.
    + intros p Hp. rewrite Hp4, decide_False, Hp3, Hp2, decide_False, Hp1; [done|..]; intros ->; tauto.
Qed.

(** ** Whole lists between the sentinels *)
Lemma links_ext h h' l : chain h l → (∀ p, p ∈ l → nxt h' p = nxt h p ∧ prv h' p = prv h p) → chain h' l.
Proof.
  intros Hc Hp. destruct l as [|b r]; [done|]. apply (chain_frame_r h); [done|..]; intros p Hin; apply Hp; [done|by right].
Qed.

Lemma neighbours head m1 p m2 tail : ∃ l a b r,
  head :: m1 ++ p :: m2 ++ [tail] = l ++ a :: p :: b :: r ∧ head :: m1 ++ m2 ++ [tail] = l ++ a :: b :: r.
Proof.
  assert (∃ l a, head :: m1 = l ++ [a]) as (l & a & Hl).
  { destruct (@exists_last _ (head :: m1)) as (l & a & ->); [done|]. eauto. }
  assert (∃ b r, m2 ++ [tail] = b :: r) as (b & r & Hr) by (destruct m2; simpl; eauto).
  exists l, a, b, r. rewrite Hr, !app_comm_cons, Hl, <- !app_assoc. done.
Qed.

Lemma unlink_ok h head m1 p m2 tail : chain h (head :: m1 ++ p :: m2 ++ [tail]) → NoDup (head :: m1 ++ p :: m2 ++ [tail]) →
  ∃ h', detach h p = Ok h' ∧ same_data h h' ∧ chain h' (head :: m1 ++ m2 ++ [tail]).
Proof.
  destruct (neighbours head m1 p m2 tail) as (l & a & b & r & -> & ->). apply detach_ok.
Qed.
Lemma link_ok h head p m tail x : chain h (head :: m ++ [tail]) → NoDup (head :: p :: m ++ [tail]) → h !! p = Some x →
  ∃ h', attach h head p = Ok h' ∧ same_data h h' ∧ chain h' (head :: p :: m ++ [tail]).
Proof.
  assert (∃ b r, m ++ [tail] = b :: r) as (b & r & ->) by (destruct m; simpl; eauto). apply attach_ok.
Qed.
Lemma list_moved (head : addr) m1 p m2 tail :
  head :: m1 ++ p :: m2 ++ [tail] ≡ₚ head :: p :: (m1 ++ m2) ++ [tail].
Proof. rewrite <- app_assoc. apply Permutation_skip. symmetry. apply Permutation_middle. Qed.
Lemma relink_ok h head m1 p m2 tail x : chain h (head :: m1 ++ p :: m2 ++ [tail]) → NoDup (head :: m1 ++ p :: m2 ++ [tail]) →
  h !! p = Some x →
  ∃ h1 h', detach h p = Ok h1 ∧ attach h1 head p = Ok h' ∧ same_data h h' ∧ chain h' (head :: p :: (m1 ++ m2) ++ [tail]).
Proof.
  intros Hc Hnd Hx. destruct (unlink_ok h head m1 p m2 tail Hc Hnd) as (h1 & H1 & Hs1 & Hc1).
  rewrite (list_moved head m1 p m2 tail) in Hnd. destruct (same_data_alive _ _ _ _ Hs1 Hx) as [x1 Hx1].
  rewrite app_assoc in Hc1. destruct (link_ok h1 head p (m1 ++ m2) tail x1 Hc1 Hnd Hx1) as (h2 & H2 & Hs2 & Hc2).
  exists h1, h2. split_and!; try done. by eapply same_data_trans.
Qed.
End Chain.

(** ** The specification: a list in the order of use *)
Section Spec.
Context {K V : Type} `{Countable K}.

(** Keys with their values and recorded charges, the most recently used first. *)
Record LruSpec : Type := mkSpec {
  sp_capacity : Z;
  sp_entries : list (K * (V * Z));
  sp_usage : Z;
  sp_hook : list (K * V);
}.

Fixpoint take_out (k : K) (es : list (K * (V * Z))) : option ((V * Z) * list (K * (V * Z))) :=
  match es with
  | [] => None
  | e :: es =>
    if decide (e.1 = k) then Some (e.2, es)
    else match take_out k es with Some (x, r) => Some (x, e :: r) | None => None end
  end.
Definition split_last {A} (l : list A) : option (list A * A) :=
  match reverse l with [] => None | x :: r => Some (reverse r, x) end.

Definition spec_new (cap : Z) : LruSpec := mkSpec cap [] 0 [].
(** [None]: a full cache without an entry has nothing to evict. *)
Definition spec_insert (s : LruSpec) (k : K) (v : V) (charge : Z) : option (option V * LruSpec) :=
  if 0 <? sp_capacity s then
    match take_out k (sp_entries s) with
    | Some ((old, c), r) => Some (Some old, mkSpec (sp_capacity s) ((k, (v, c)) :: r) (sp_usage s) (sp_hook s ++ [(k, old)]))
    | None =>
      if sp_capacity s <=? sp_usage s then
        match split_last (sp_entries s) with
        | Some (r, (k', (v', c'))) =>
          Some (None, mkSpec (sp_capacity s) ((k, (v, c')) :: r) (wrap 64 (wrap 64 (sp_usage s - c') + charge)) (sp_hook s ++ [(k', v')]))
        | None => None
        end
      else Some (None, mkSpec (sp_capacity s) ((k, (v, charge)) :: sp_entries s) (wrap 64 (sp_usage s + charge)) (sp_hook s))
    end
  else Some (None, s).
Definition spec_get (s : LruSpec) (k : K) : option V * LruSpec :=
  match take_out k (sp_entries s) with
  | Some ((v, c), r) => (Some v, mkSpec (sp_capacity s) ((k, (v, c)) :: r) (sp_usage s) (sp_hook s))
  | None => (None, s)
  end.
Definition spec_erase (s : LruSpec) (k : K) : LruSpec :=
  match take_out k (sp_entries s) with
  | Some ((v, c), r) => mkSpec (sp_capacity s) r (wrap 64 (sp_usage s - c)) (sp_hook s ++ [(k, v)])
  | None => s
  end.

(** ** The refinement *)
Notation addr := nat.
Notation heap := (gmap addr (LRUEntry K V)).
Implicit Types (h : heap) (es : list (addr * (K * (V * Z)))).

Definition node_at h (e : addr * (K * (V * Z))) : Prop :=
  ∃ n, h !! e.1 = Some n ∧ le_key n = Some e.2.1 ∧ le_value n = Some e.2.2.1 ∧ le_charge n = e.2.2.2.
Definition index_of es : gmap K addr := list_to_map ((λ e, (e.2.1, e.1)) <$> es).

Record lru_at (c : LRUCache K V) (s : LruSpec) es : Prop := {
  la_entries : sp_entries s = es.*2;
  la_chain : chain (lc_heap c) (lc_head c :: es.*1 ++ [lc_tail c]);
  la_nodup : NoDup (lc_head c :: es.*1 ++ [lc_tail c]);
  la_nodes : Forall (node_at (lc_heap c)) es;
  la_table : lc_table c = index_of es;
  la_keys : NoDup (es.*2.*1);
  la_head : ∃ n, lc_heap c !! lc_head c = Some n ∧ le_key n = None;
  la_capacity : lc_capacity c = sp_capacity s;
  la_usage : lc_usage c = sp_usage s;
  la_hook : lc_hook c = sp_hook s;
}.
Definition lru_rep (c : LRUCache K V) (s : LruSpec) : Prop := ∃ es, lru_at c s es.

Lemma node_at_same h h' e : same_data h h' → node_at h e → node_at h' e.
Proof.
  intros Hs (n & Hn & Hk & Hv & Hc). specialize (Hs e.1). rewrite Hn in Hs. destruct (h' !! e.1) as [n'|] eqn:E; [|done].
  destruct Hs as (Hk' & Hv' & Hc'). exists n'. by rewrite E, Hk', Hv', Hc'.
Qed.
Lemma nodes_same h h' es : same_data h h' → Forall (node_at h) es → Forall (node_at h') es.
Proof. intros Hs Hn. eapply Forall_impl; [exact Hn|]. intros e. by apply node_at_same. Qed.
Lemma head_same h h' p : same_data h h' → (∃ n, h !! p = Some n ∧ le_key n = None) → ∃ n, h' !! p = Some n ∧ le_key n = None.
Proof.
  intros Hs (n & Hn & Hk). specialize (Hs p). rewrite Hn in Hs. destruct (h' !! p) as [n'|]; [|done].
  destruct Hs as (Hk' & _). exists n'. by rewrite Hk'.
Qed.

Lemma index_of_keys es : ((λ e, (e.2.1, e.1)) <$> es).*1 = es.*2.*1.
Proof. rewrite <- !list_fmap_compose. done. Qed.
Lemma index_perm es es' : NoDup (es.*2.*1) → es ≡ₚ es' → index_of es = index_of es'.
Proof. intros Hnd Hp. apply list_to_map_proper; [by rewrite index_of_keys|]. by rewrite Hp. Qed.
Lemma index_cons e es : index_of (e :: es) = <[e.2.1 := e.1]> (index_of es).
Proof. done. Qed.

(** Looking a key up in the table and in the list. *)
Lemma lookup_split es k : NoDup (es.*2.*1) →
  match index_of es !! k with
  | Some p => ∃ e1 x e2, es = e1 ++ (p, (k, x)) :: e2 ∧ take_out k (es.*2) = Some (x, (e1 ++ e2).*2)
  | None => take_out k (es.*2) = None ∧ k ∉ es.*2.*1
  end.
Proof.
  induction es as [|[p [k' x]] es IH]; intros Hnd; [split; [done|by apply not_elem_of_nil]|].
  rewrite index_cons. cbn [fst snd]. rewrite !fmap_cons in *. cbn [fst snd take_out] in *. apply NoDup_cons in Hnd as [Hk Hnd].
  case_decide as E.
  - subst k'. rewrite lookup_insert_eq. by exists [], x, es.
  - rewrite lookup_insert_ne by done. specialize (IH Hnd). destruct (index_of es !! k) as [q|].
    + destruct IH as (e1 & y & e2 & -> & ->). exists ((p, (k', x)) :: e1), y, e2. done.
    + destruct IH as [-> Hin]. split; [done|]. by apply not_elem_of_cons.
Qed.

(** Writing key and value of a node leaves the links alone. *)
Lemma write_data h p (f : LRUEntry K V → LRUEntry K V) n : h !! p = Some n →
  (∀ x, le_next (f x) = le_next x ∧ le_prev (f x) = le_prev x) →
  write h p f = Ok (<[p := f n]> h) ∧ ∀ l, chain h l → chain (<[p := f n]> h) l.
Proof.
  intros Hn Hf. split; [unfold write; by rewrite (deref_ok h p n Hn)|].
  intros l Hc. apply (links_ext h); [done|]. intros q _. unfold nxt, prv.
  destruct (decide (q = p)) as [->|]; [|by rewrite lookup_insert_ne]. rewrite lookup_insert_eq, Hn. apply Hf.
Qed.
Lemma nodes_insert h p x es : p ∉ es.*1 → Forall (node_at h) es → Forall (node_at (<[p := x]> h)) es.
Proof.
  rewrite !Forall_forall. intros Hp Hn e He. destruct (Hn e He) as (n & Hl & ?). exists n.
  rewrite lookup_insert_ne; [done|]. intros ->. apply Hp. by apply list_elem_of_fmap_2.
Qed.
Lemma nodes_delete h p es : p ∉ es.*1 → Forall (node_at h) es → Forall (node_at (delete p h)) es.
Proof.
  rewrite !Forall_forall. intros Hp Hn e He. destruct (Hn e He) as (n & Hl & ?). exists n.
  rewrite lookup_delete_ne; [done|]. intros ->. apply Hp. by apply list_elem_of_fmap_2.
Qed.
Lemma head_insert h p q x : p ≠ q → (∃ n, h !! p = Some n ∧ le_key n = None) → ∃ n, <[q := x]> h !! p = Some n ∧ le_key n = None.
Proof. intros Hne (n & Hn & Hk). exists n. by rewrite lookup_insert_ne. Qed.

(** A cache with its list split at one entry. *)
Lemma at_split c s e1 p k x e2 : lru_at c s (e1 ++ (p, (k, x)) :: e2) →
  chain (lc_heap c) (lc_head c :: e1.*1 ++ p :: e2.*1 ++ [lc_tail c]) ∧
  NoDup (lc_head c :: e1.*1 ++ p :: e2.*1 ++ [lc_tail c]) ∧ node_at (lc_heap c) (p, (k, x)) ∧
  Forall (node_at (lc_heap c)) (e1 ++ e2) ∧ NoDup (k :: (e1 ++ e2).*2.*1) ∧ p ∉ (e1 ++ e2).*1 ∧ p ≠ lc_head c ∧ p ≠ lc_tail c ∧
  lc_table c = <[k := p]> (index_of (e1 ++ e2)) ∧ index_of (e1 ++ e2) !! k = None.
Proof.
  intros Hat. pose proof (la_chain _ _ _ Hat) as Hc. pose proof (la_nodup _ _ _ Hat) as Hnd. pose proof (la_nodes _ _ _ Hat) as Hn.
  pose proof (la_keys _ _ _ Hat) as Hk. pose proof (la_table _ _ _ Hat) as Ht.
  assert (NoDup (k :: (e1 ++ e2).*2.*1)) as Hk'.
  { rewrite !fmap_app in Hk |- *. simpl in Hk. by rewrite <- Permutation_middle in Hk. }
  rewrite !fmap_app, fmap_cons, <- app_assoc, <- app_comm_cons in Hc. rewrite !fmap_app, fmap_cons, <- app_assoc, <- app_comm_cons in Hnd.
  pose proof Hnd as Hnd'. rewrite (list_moved (lc_head c)) in Hnd'. apply NoDup_cons in Hnd' as [Hh Hnd'].
  apply NoDup_cons in Hnd' as [Hp _]. apply Forall_app in Hn as [Hn1 Hn2]. apply Forall_cons in Hn2 as [Hn Hn2].
  rewrite elem_of_cons in Hh. rewrite !elem_of_app, list_elem_of_singleton in Hp.
  split_and!; try done.
  - by apply Forall_app.
  - rewrite fmap_app, elem_of_app. tauto.
  - intros ->. tauto.
  - intros ->. tauto.
  - rewrite Ht. rewrite (index_perm _ ((p, (k, x)) :: e1 ++ e2)); [done..|]. symmetry. apply Permutation_middle.
  - apply NoDup_cons in Hk' as [Hk' _]. apply not_elem_of_list_to_map_1. by rewrite index_of_keys.
Qed.

(** Putting an entry in front. *)
Lemma at_front (c : LRUCache K V) es e x h : chain h (lc_head c :: es.*1 ++ [lc_tail c]) → NoDup (lc_head c :: e.1 :: es.*1 ++ [lc_tail c]) →
  Forall (node_at h) (e :: es) → NoDup (e.2.1 :: es.*2.*1) → (∃ n, h !! lc_head c = Some n ∧ le_key n = None) → h !! e.1 = Some x →
  ∃ h', attach h (lc_head c) e.1 = Ok h' ∧ same_data h h' ∧
    ∀ cap u hk t, t = <[e.2.1 := e.1]> (index_of es) →
      lru_at (mkLru cap t h' (lc_head c) (lc_tail c) u hk) (mkSpec cap (e :: es).*2 u hk) (e :: es).
Proof.
  intros Hc Hnd Hn Hk Hh Hx. destruct (link_ok h (lc_head c) e.1 (es.*1) (lc_tail c) x Hc Hnd Hx) as (h' & Hat & Hs & Hc').
  exists h'. split_and!; [done..|]. intros cap u hk t ->. split; try done; cbn [lc_heap lc_head].
  - by apply (nodes_same h).
  - by apply (head_same h).
Qed.

Lemma la_rebuild c s es : lru_at c s es → s = mkSpec (lc_capacity c) es.*2 (lc_usage c) (lc_hook c).
Proof. intros Hat. destruct s, Hat; simpl in *. by subst. Qed.

Lemma lru_get_ok c s k : lru_rep c s → ∃ c', lru_get c k = Ok ((spec_get s k).1, c') ∧ lru_rep c' (spec_get s k).2.
Proof.
  intros [es Hat]. pose proof (lookup_split es k (la_keys _ _ _ Hat)) as Hl. unfold lru_get, spec_get.
  rewrite (la_entries _ _ _ Hat), (la_table _ _ _ Hat). destruct (index_of es !! k) as [p|] eqn:Ep.
  - destruct Hl as (e1 & [v ch] & e2 & -> & ->). cbn [fst snd].
    destruct (at_split _ _ _ _ _ _ _ Hat) as (Hc & Hnd & Hn & Hns & Hk & Hp & _ & _ & Ht & _).
    destruct (Hn) as (n & Hx & _). cbn [fst snd] in *.
    destruct (unlink_ok _ _ _ _ _ _ Hc Hnd) as (h1 & -> & Hs1 & Hc1). rewrite Ok_bind.
    rewrite (list_moved (lc_head c)), <- fmap_app in Hnd. rewrite app_assoc, <- fmap_app in Hc1.
    destruct (same_data_alive _ _ _ _ Hs1 Hx) as [n1 Hx1].
    destruct (at_front c (e1 ++ e2) (p, (k, (v, ch))) n1 h1 Hc1 Hnd) as (h2 & Ha & Hs2 & Hat2); try done.
    { apply (nodes_same _ _ _ Hs1). by constructor. }
    { apply (head_same _ _ _ Hs1), (la_head _ _ _ Hat). }
    cbn [fst snd] in Ha. rewrite Ha, Ok_bind.
    destruct (node_at_same _ _ _ (same_data_trans _ _ _ Hs1 Hs2) Hn) as (n2 & Hx2 & _ & Hv2 & _). cbn [fst snd] in *.
    rewrite (deref_ok _ _ _ Hx2), Ok_bind, Hv2. cbn [init]. rewrite Ok_bind. eexists. split; [done|]. eexists.
    rewrite <- (la_capacity _ _ _ Hat), <- (la_usage _ _ _ Hat), <- (la_hook _ _ _ Hat), <- (la_table _ _ _ Hat).
    apply (Hat2 _ _ _ _ Ht).
  - destruct Hl as [-> _]. exists c. split; [done|]. by exists es.
Qed.

Lemma lru_erase_ok c s k : lru_rep c s → ∃ c', lru_erase c k = Ok c' ∧ lru_rep c' (spec_erase s k).
Proof.
  intros [es Hat]. pose proof (lookup_split es k (la_keys _ _ _ Hat)) as Hl. unfold lru_erase, spec_erase.
  rewrite (la_entries _ _ _ Hat), (la_table _ _ _ Hat). destruct (index_of es !! k) as [p|] eqn:Ep.
  - destruct Hl as (e1 & [v ch] & e2 & -> & ->).
    destruct (at_split _ _ _ _ _ _ _ Hat) as (Hc & Hnd & Hn & Hns & Hk & Hp & Hph & Hpt & Ht & Hno).
    destruct (Hn) as (n & Hx & _ & Hv & Hch). cbn [fst snd] in *. rewrite (deref_ok _ _ _ Hx), Ok_bind.
    destruct (unlink_ok _ _ _ _ _ _ Hc Hnd) as (h1 & -> & Hs1 & Hc1). rewrite Ok_bind, Hv. cbn [init]. rewrite Ok_bind.
    rewrite (list_moved (lc_head c)), <- fmap_app in Hnd. rewrite app_assoc, <- fmap_app in Hc1.
    eexists. split; [done|]. exists (e1 ++ e2).
    rewrite <- (la_capacity _ _ _ Hat), <- (la_usage _ _ _ Hat), <- (la_hook _ _ _ Hat), <- (la_table _ _ _ Hat), Ht, Hch.
    apply NoDup_cons in Hk as [_ Hk]. split; try done; cbn [lc_heap lc_head lc_tail lc_table].
    + apply (links_ext h1); [done|]. intros q Hq. unfold nxt, prv. rewrite lookup_delete_ne; [done|]. intros ->.
      rewrite elem_of_cons, elem_of_app, list_elem_of_singleton in Hq. tauto.
    + apply NoDup_cons in Hnd as [Hh Hnd]. apply NoDup_cons in Hnd as [_ Hnd]. apply NoDup_cons. split; [|done].
      rewrite elem_of_cons in Hh. tauto.
    + apply nodes_delete; [done|]. by apply (nodes_same _ _ _ Hs1).
    + by apply delete_insert_id.
    + destruct (head_same _ _ _ Hs1 (la_head _ _ _ Hat)) as (m & Hm & Hmk). exists m. by rewrite lookup_delete_ne.
  - destruct Hl as [-> _]. exists c. split; [done|]. by exists es.
Qed.

Lemma split_last_spec {A} (l : list A) :
  match split_last l with Some (r, x) => l = r ++ [x] | None => l = [] end.
Proof.
  unfold split_last. destruct (reverse l) as [|x r] eqn:E; apply (f_equal reverse) in E; rewrite reverse_involutive in E; [done|].
  by rewrite reverse_cons in E.
Qed.
Lemma split_last_snoc {A} (l : list A) x : split_last (l ++ [x]) = Some (l, x).
Proof. unfold split_last. by rewrite reverse_snoc, reverse_involutive. Qed.
(** The node in front of the tail. *)
Lemma tail_prev h head m tail : chain h (head :: m ++ [tail]) → ∃ n, h !! tail = Some n ∧ le_prev n = Some (List.last m head).
Proof.
  intros Hc. apply prv_alive. revert head Hc. induction m as [|x m IH]; intros head Hc; [by destruct Hc as [[_ ?] _]|].
  destruct Hc as [_ Hc]. rewrite (IH x Hc). destruct m as [|y m]; [done|]. f_equal. clear. simpl. revert y.
  induction m as [|z m IHm]; intros y; [done|]. apply IHm.
Qed.

Lemma insert_present c s k v charge e1 p old ch e2 : lru_at c s (e1 ++ (p, (k, (old, ch))) :: e2) → 0 < lc_capacity c →
  ∃ c', lru_insert c k v charge = Ok (Some old, c') ∧
    lru_rep c' (mkSpec (sp_capacity s) ((k, (v, ch)) :: (e1 ++ e2).*2) (sp_usage s) (sp_hook s ++ [(k, old)])).
Proof.
  intros Hat Hcap. destruct (at_split _ _ _ _ _ _ _ Hat) as (Hc & Hnd & Hn & Hns & Hk & Hp & Hph & Hpt & Ht & _).
  destruct (Hn) as (n & Hx & Hnk & Hv & Hch). cbn [fst snd] in *. unfold lru_insert.
  rewrite (proj2 (Z.ltb_lt _ _) Hcap), Ht, lookup_insert_eq, (deref_ok _ _ _ Hx), Ok_bind, Hv. cbn [init]. rewrite Ok_bind.
  destruct (write_data _ p (set_value v) n Hx) as [-> Hch0]; [done|]. rewrite Ok_bind.
  set (h0 := <[p := set_value v n]> (lc_heap c)) in *.
  destruct (unlink_ok _ _ _ _ _ _ (Hch0 _ Hc) Hnd) as (h1 & -> & Hs1 & Hc1). rewrite Ok_bind.
  rewrite (list_moved (lc_head c)), <- fmap_app in Hnd. rewrite app_assoc, <- fmap_app in Hc1.
  assert (h0 !! p = Some (set_value v n)) as Hx0 by apply lookup_insert_eq.
  destruct (same_data_alive _ _ _ _ Hs1 Hx0) as [n1 Hx1].
  destruct (at_front c (e1 ++ e2) (p, (k, (v, ch))) n1 h1 Hc1 Hnd) as (h2 & Ha & _ & Hat2); try done.
  { apply (nodes_same _ _ _ Hs1). constructor; [eexists; split; [exact Hx0|done]|]. by apply nodes_insert. }
  { apply (head_same _ _ _ Hs1). apply head_insert; [done|]. apply (la_head _ _ _ Hat). }
  cbn [fst snd] in Ha. rewrite Ha, Ok_bind. eexists. split; [done|]. eexists.
  rewrite <- (la_capacity _ _ _ Hat), <- (la_usage _ _ _ Hat), <- (la_hook _ _ _ Hat).
  by apply (Hat2 _ _ _ _).
Qed.

Lemma insert_fresh c s k v charge es : lru_at c s es → k ∉ es.*2.*1 → index_of es !! k = None → 0 < lc_capacity c → lc_usage c < lc_capacity c →
  ∃ c', lru_insert c k v charge = Ok (None, c') ∧
    lru_rep c' (mkSpec (sp_capacity s) ((k, (v, charge)) :: es.*2) (wrap 64 (sp_usage s + charge)) (sp_hook s)).
Proof.
  intros Hat Hk Hno Hcap Hroom. unfold lru_insert. rewrite (proj2 (Z.ltb_lt _ _) Hcap), (la_table _ _ _ Hat), Hno.
  rewrite (proj2 (Z.leb_gt _ _) Hroom), Ok_bind. unfold new_node. cbn [lc_heap lc_head lc_tail lc_capacity lc_usage lc_hook lc_table].
  set (p := alloc (lc_heap c)). assert (lc_heap c !! p = None) as Hp.
  { apply not_elem_of_dom. apply is_fresh. }
  assert (∀ q n, lc_heap c !! q = Some n → q ≠ p) as Hne by (intros q n Hq ->; congruence).
  destruct (la_head _ _ _ Hat) as (nh & Hh & Hhk). destruct (tail_prev _ _ _ _ (la_chain _ _ _ Hat)) as (nt & Htl & _).
  assert (p ∉ es.*1) as Hpes.
  { intros ([q x] & Hq & Hin)%list_elem_of_fmap. simpl in Hq. subst q. pose proof (la_nodes _ _ _ Hat) as Hns.
    rewrite Forall_forall in Hns. destruct (Hns _ Hin) as (n & Hn & _). simpl in Hn. congruence. }
  set (h0 := <[p := entry_new k v charge]> (lc_heap c)).
  assert (h0 !! p = Some (entry_new k v charge)) as Hx0 by apply lookup_insert_eq.
  destruct (at_front c es (p, (k, (v, charge))) (entry_new k v charge) h0) as (h2 & Ha & _ & Hat2); try done.
  - apply (links_ext (lc_heap c)); [apply (la_chain _ _ _ Hat)|]. intros q Hq. unfold nxt, prv, h0. rewrite lookup_insert_ne; [done|].
    intros <-. rewrite elem_of_cons, elem_of_app, list_elem_of_singleton in Hq. destruct Hq as [Hq|[Hq|Hq]]; [|done|].
    + by apply (Hne _ _ Hh).
    + by apply (Hne _ _ Htl).
  - pose proof (la_nodup _ _ _ Hat) as Hnd. apply NoDup_cons in Hnd as [Hhd Hnd]. apply NoDup_cons. cbn [fst]. split.
    + rewrite elem_of_cons. intros [Heq|?]; [|done]. by apply (Hne _ _ Hh).
    + apply NoDup_cons. split; [|done]. rewrite elem_of_app, list_elem_of_singleton. intros [?|Heq]; [done|]. by apply (Hne _ _ Htl).
  - constructor; [eexists; split; [exact Hx0|done]|]. apply nodes_insert; [done|]. apply (la_nodes _ _ _ Hat).
  - apply NoDup_cons. split; [done|]. apply (la_keys _ _ _ Hat).
  - apply head_insert; [by apply (Hne _ _ Hh)|]. eauto.
  - cbn [fst snd] in Ha. fold h0. rewrite Ha, Ok_bind. eexists. split; [done|]. eexists.
    rewrite <- (la_capacity _ _ _ Hat), <- (la_usage _ _ _ Hat), <- (la_hook _ _ _ Hat). apply Hat2. by rewrite (la_table _ _ _ Hat).
Qed.

Lemma insert_full c s k v charge es p k' v' ch : lru_at c s (es ++ [(p, (k', (v', ch)))]) →
  k ∉ (es ++ [(p, (k', (v', ch)))]).*2.*1 → lc_table c !! k = None → 0 < lc_capacity c → lc_capacity c ≤ lc_usage c →
  ∃ c', lru_insert c k v charge = Ok (None, c') ∧
    lru_rep c' (mkSpec (sp_capacity s) ((k, (v, ch)) :: es.*2) (wrap 64 (wrap 64 (sp_usage s - ch) + charge)) (sp_hook s ++ [(k', v')])).
Proof.
  intros Hat Hk Hno Hcap Hfull. destruct (at_split _ _ _ _ _ _ _ Hat) as (Hc & Hnd & Hn & Hns & Hks & Hp & Hph & Hpt & Ht & Hno').
  destruct (Hn) as (n & Hx & Hnk & Hv & Hch). rewrite !app_nil_r in *. cbn [fst snd] in *.
  unfold lru_insert. rewrite (proj2 (Z.ltb_lt _ _) Hcap), Hno, (proj2 (Z.leb_le _ _) Hfull). unfold recycle.
  destruct (tail_prev (lc_heap c) (lc_head c) (es.*1 ++ [p]) (lc_tail c)) as (nt & Htl & Htp); [by rewrite <- app_assoc; apply Hc|].
  rewrite (deref_ok _ _ _ Htl), Ok_bind, Htp. rewrite List.last_last. cbn [ptr]. rewrite Ok_bind, (deref_ok _ _ _ Hx), Ok_bind, Hnk.
  cbn [init]. rewrite Ok_bind, Ht, lookup_insert_eq. cbn [init]. rewrite Ok_bind, (deref_ok _ _ _ Hx), Ok_bind, Hnk, Hv. cbn [init]. rewrite !Ok_bind.
  destruct (write_data _ p (set_kv k v) n Hx) as [-> Hch0]; [done|]. rewrite Ok_bind.
  set (h0 := <[p := set_kv k v n]> (lc_heap c)) in *.
  destruct (unlink_ok _ _ _ _ [] _ (Hch0 _ Hc) Hnd) as (h1 & -> & Hs1 & Hc1). rewrite Ok_bind, Ok_bind.
  rewrite (list_moved (lc_head c) _ _ []) in Hnd. rewrite app_nil_r in Hnd. cbn [app] in Hc1.
  assert (h0 !! p = Some (set_kv k v n)) as Hx0 by apply lookup_insert_eq.
  destruct (same_data_alive _ _ _ _ Hs1 Hx0) as [n1 Hx1]. cbn [lc_heap lc_head lc_tail lc_capacity lc_usage lc_hook lc_table].
  destruct (at_front c es (p, (k, (v, ch))) n1 h1 Hc1 Hnd) as (h2 & Ha & _ & Hat2); try done.
  { apply (nodes_same _ _ _ Hs1). constructor; [eexists; split; [exact Hx0|done]|]. by apply nodes_insert. }
  { apply NoDup_cons in Hks as [_ Hks]. apply NoDup_cons. split; [|done]. rewrite !fmap_app, elem_of_app in Hk. tauto. }
  { apply (head_same _ _ _ Hs1). apply head_insert; [done|]. apply (la_head _ _ _ Hat). }
  cbn [fst snd] in Ha. rewrite Ha, Ok_bind. eexists. split; [done|]. eexists.
  rewrite <- (la_capacity _ _ _ Hat), <- (la_usage _ _ _ Hat), <- (la_hook _ _ _ Hat), Hch, delete_insert_id by done.
  by apply (Hat2 _ _ _ _).
Qed.

Lemma insert_stuck c s k v charge : lru_at c s [] → 0 < lc_capacity c → lc_capacity c ≤ lc_usage c → lru_insert c k v charge = Panic.
Proof.
  intros Hat Hcap Hfull. unfold lru_insert. rewrite (proj2 (Z.ltb_lt _ _) Hcap), (la_table _ _ _ Hat). change (index_of [] !! k) with (None : option nat). rewrite (proj2 (Z.leb_le _ _) Hfull).
  unfold recycle. destruct (tail_prev _ _ [] (lc_tail c) (la_chain _ _ _ Hat)) as (nt & Htl & Htp).
  destruct (la_head _ _ _ Hat) as (nh & Hh & Hhk). by rewrite (deref_ok _ _ _ Htl), Ok_bind, Htp; simpl; rewrite (deref_ok _ _ _ Hh); simpl; rewrite Hhk.
Qed.

Lemma lru_insert_ok c s k v charge : lru_rep c s →
  match spec_insert s k v charge with
  | Some (r, s') => ∃ c', lru_insert c k v charge = Ok (r, c') ∧ lru_rep c' s'
  | None => lru_insert c k v charge = Panic
  end.
Proof.
  intros [es Hat]. unfold spec_insert. rewrite <- (la_capacity _ _ _ Hat). destruct (Z.ltb_spec 0 (lc_capacity c)) as [Hcap|Hcap].
  - pose proof (lookup_split es k (la_keys _ _ _ Hat)) as Hl. rewrite (la_entries _ _ _ Hat), <- (la_usage _ _ _ Hat).
    destruct (index_of es !! k) as [p|] eqn:Ep.
    + destruct Hl as (e1 & [old ch] & e2 & -> & ->). rewrite (la_capacity _ _ _ Hat), (la_usage _ _ _ Hat). by eapply insert_present.
    + destruct Hl as [-> Hk]. destruct (Z.leb_spec (lc_capacity c) (lc_usage c)) as [Hfull|Hroom].
      * pose proof (split_last_spec es) as Hs. destruct (split_last es) as [[r [p [k' [v' ch]]]]|].
        -- subst es. rewrite fmap_app. cbn [fmap list_fmap]. rewrite split_last_snoc. cbn [snd].
           rewrite (la_capacity _ _ _ Hat), (la_usage _ _ _ Hat). eapply insert_full; try done. by rewrite (la_table _ _ _ Hat).
        -- subst es. by apply (insert_stuck _ s).
      * rewrite (la_capacity _ _ _ Hat), (la_usage _ _ _ Hat). by apply insert_fresh.
  - exists c. split; [|by exists es]. unfold lru_insert. by rewrite (proj2 (Z.ltb_ge _ _) Hcap).
Qed.

Lemma lru_new_ok cap : lru_rep (lru_new cap) (spec_new cap).
Proof.
  exists []. split; try done.
  - apply NoDup_cons. split; [|apply NoDup_singleton]. by intros ?%list_elem_of_singleton.
  - constructor.
  - eexists. split; done.
Qed.

(** ** Sequences of operations *)
Inductive CacheOp : Type := OpInsert (k : K) (v : V) (charge : Z) | OpGet (k : K) | OpErase (k : K).

Definition op_lru (c : LRUCache K V) (op : CacheOp) : outcome (option V * LRUCache K V) :=
  match op with
  | OpInsert k v charge => lru_insert c k v charge
  | OpGet k => lru_get c k
  | OpErase k => c ← lru_erase c k; Ok (None, c)
  end.
Definition op_spec (s : LruSpec) (op : CacheOp) : option (option V * LruSpec) :=
  match op with
  | OpInsert k v charge => spec_insert s k v charge
  | OpGet k => Some (spec_get s k)
  | OpErase k => Some (None, spec_erase s k)
  end.
Fixpoint run_lru (c : LRUCache K V) (ops : list CacheOp) : outcome (list (option V) * LRUCache K V) :=
  match ops with
  | [] => Ok ([], c)
  | op :: ops => r ← op_lru c op; rs ← run_lru r.2 ops; Ok (r.1 :: rs.1, rs.2)
  end.
Fixpoint run_spec (s : LruSpec) (ops : list CacheOp) : option (list (option V) * LruSpec) :=
  match ops with
  | [] => Some ([], s)
  | op :: ops =>
    match op_spec s op with
    | Some (r, s) => match run_spec s ops with Some (rs, s) => Some (r :: rs, s) | None => None end
    | None => None
    end
  end.

Lemma op_ok c s op : lru_rep c s →
  match op_spec s op with
  | Some (r, s') => ∃ c', op_lru c op = Ok (r, c') ∧ lru_rep c' s'
  | None => op_lru c op = Panic
  end.
Proof.
  intros Hrep. destruct op as [k v charge|k|k]; simpl.
  - by apply lru_insert_ok.
  - destruct (spec_get s k) as [r s'] eqn:E. pose proof (lru_get_ok c s k Hrep) as Hg. by rewrite E in Hg.
  - destruct (lru_erase_ok c s k Hrep) as (c' & -> & Hrep'). by exists c'.
Qed.
Lemma run_ok c s ops : lru_rep c s →
  match run_spec s ops with
  | Some (rs, s') => ∃ c', run_lru c ops = Ok (rs, c') ∧ lru_rep c' s'
  | None => run_lru c ops = Panic
  end.
Proof.
  revert c s. induction ops as [|op ops IH]; intros c s Hrep; simpl; [by exists c|].
  pose proof (op_ok c s op Hrep) as Hop. destruct (op_spec s op) as [[r s1]|]; [|by rewrite Hop].
  destruct Hop as (c1 & -> & Hrep1). specialize (IH c1 s1 Hrep1). rewrite Ok_bind. cbn [snd fst].
  destruct (run_spec s1 ops) as [[rs s2]|]; [|by rewrite IH]. destruct IH as (c2 & -> & Hrep2). by exists c2.
Qed.

(** ** Charges of one *)

(** Every recorded charge is one and the usage counts the entries. *)
Record unit_charged (s : LruSpec) : Prop := {
  uc_one : Forall (λ e, e.2.2 = 1) (sp_entries s);
  uc_usage : sp_usage s = len (sp_entries s);
  uc_bound : len (sp_entries s) ≤ sp_capacity s;
  uc_capacity : 0 < sp_capacity s < 2 ^ 64;
}.

Lemma take_out_split k (es : list (K * (V * Z))) x r : take_out k es = Some (x, r) → es ≡ₚ (k, x) :: r.
Proof.
  revert r. induction es as [|[k' y] es IH]; intros r; [done|]. simpl. case_decide as E.
  - intros [= -> ->]. by subst.
  - destruct (take_out k es) as [[z r']|]; [|done]. intros [= -> <-]. rewrite (IH r' eq_refl). apply perm_swap.
Qed.
Lemma unit_perm (es es' : list (K * (V * Z))) : es ≡ₚ es' → Forall (λ e : K * (V * Z), e.2.2 = 1) es → Forall (λ e, e.2.2 = 1) es' ∧ len es = len es'.
Proof. intros Hp Hf. split; [by rewrite <- Hp|]. unfold len. by rewrite Hp. Qed.

Lemma unit_op s op : unit_charged s → (∀ k v c, op = OpInsert k v c → c = 1) →
  ∃ r s', op_spec s op = Some (r, s') ∧ unit_charged s' ∧ sp_capacity s' = sp_capacity s.
Proof.
  intros [Hone Hus Hb Hcap] Hop.
  assert (∀ k v c r, take_out k (sp_entries s) = Some (v, c, r) → c = 1 ∧ Forall (λ e, e.2.2 = 1) r ∧ len (sp_entries s) = 1 + len r) as Hout.
  { intros k v c r Hto. destruct (unit_perm _ _ (take_out_split _ _ _ _ Hto) Hone) as [Hf Hl]. apply Forall_cons in Hf as [Hc Hf].
    simpl in Hc. by rewrite len_cons in Hl. }
  destruct op as [k v c|k|k]; simpl.
  - rewrite (Hop k v c eq_refl). unfold spec_insert. rewrite (proj2 (Z.ltb_lt _ _)) by lia.
    destruct (take_out k (sp_entries s)) as [[[old c'] r]|] eqn:Eto.
    + destruct (Hout _ _ _ _ Eto) as (-> & Hr & Hl). eexists _, _. split; [done|]. split; [|done].
      split; cbn [sp_entries sp_usage sp_capacity]; rewrite ?len_cons; try lia. by constructor.
    + destruct (Z.leb_spec (sp_capacity s) (sp_usage s)) as [Hfull|Hroom].
      * pose proof (split_last_spec (sp_entries s)) as Hs. destruct (split_last (sp_entries s)) as [[r [k' [v' c']]]|].
        -- rewrite Hs in *. apply Forall_app in Hone as [Hr Hlast]. apply Forall_cons in Hlast as [Hc' _]. simpl in Hc'. subst c'.
           rewrite len_app, len_cons, len_nil in *. eexists _, _. split; [done|]. split; [|done].
           split; cbn [sp_entries sp_usage sp_capacity]; rewrite ?len_cons; try lia; [by constructor|].
           pose proof (len_nonneg r). rewrite (wrap_small 64 (sp_usage s - 1)) by (unfold in_uint; lia). rewrite wrap_small; [lia|unfold in_uint; lia].
        -- rewrite Hs, len_nil in *. lia.
      * eexists _, _. split; [done|]. split; [|done]. pose proof (len_nonneg (sp_entries s)).
        split; cbn [sp_entries sp_usage sp_capacity]; rewrite ?len_cons; try lia; [by constructor|].
        rewrite wrap_small; [lia|unfold in_uint; lia].
  - eexists _, _. split; [apply f_equal, surjective_pairing|]. unfold spec_get.
    destruct (take_out k (sp_entries s)) as [[[v c] r]|] eqn:Eto; simpl; [|by split].
    destruct (Hout _ _ _ _ Eto) as (-> & Hr & Hl). split; [|done].
    split; cbn [sp_entries sp_usage sp_capacity]; rewrite ?len_cons; try lia. by constructor.
  - eexists _, _. split; [done|]. unfold spec_erase.
    destruct (take_out k (sp_entries s)) as [[[v c] r]|] eqn:Eto; simpl; [|by split].
    destruct (Hout _ _ _ _ Eto) as (-> & Hr & Hl). split; [|done]. pose proof (len_nonneg r).
    split; cbn [sp_entries sp_usage sp_capacity]; try done; try lia. rewrite wrap_small; [lia|unfold in_uint; lia].
Qed.
Lemma unit_run s ops : unit_charged s → Forall (λ op, ∀ k v c, op = OpInsert k v c → c = 1) ops →
  ∃ rs s', run_spec s ops = Some (rs, s') ∧ unit_charged s' ∧ sp_capacity s' = sp_capacity s.
Proof.
  revert s. induction ops as [|op ops IH]; intros s Hu Hops; simpl; [by eexists _, _|]. apply Forall_cons in Hops as [Hop Hops].
  destruct (unit_op s op Hu Hop) as (r & s1 & -> & Hu1 & Hcap1). destruct (IH s1 Hu1 Hops) as (rs & s2 & -> & Hu2 & Hcap2).
  eexists _, _. split_and!; [done..|congruence].
Qed.

Lemma rep_size c s : lru_rep c s → Z.of_nat (size (lc_table c)) = len (sp_entries s).
Proof.
  intros [es Hat]. rewrite (la_table _ _ _ Hat), (la_entries _ _ _ Hat). unfold index_of, len.
  rewrite length_fmap. rewrite map_size_list_to_map, length_fmap; [done|]. rewrite index_of_keys. apply (la_keys _ _ _ Hat).
Qed.
Lemma get_inserted s k v charge r s' : 0 < sp_capacity s → spec_insert s k v charge = Some (r, s') → (spec_get s' k).1 = Some v.
Proof.
  intros Hcap. unfold spec_insert, spec_get. rewrite (proj2 (Z.ltb_lt _ _) Hcap). intros Hi.
  assert (∃ c rest, sp_entries s' = (k, (v, c)) :: rest) as (c & rest & ->).
  { repeat case_match; simplify_eq/=; eauto. }
  simpl. by rewrite decide_True.
Qed.
End Spec.
Arguments LruSpec K V : clear implicits.

(** ** Properties *)

(** C26: the cache refines a list in the order of use.  Any sequence of insertions,
    lookups and removals on the linked nodes returns what the same sequence returns on
    a list of entries that starts with the most recently used one, with the same
    charge in use and the same calls of the eviction hook; it reads through a dangling
    or uninitialised pointer exactly when the specification has nothing to evict. *)
Theorem lru_refines {K V} `{Countable K} (cap : Z) (ops : list (@CacheOp K V)) :
  match run_spec (spec_new cap) ops with
  | Some (rs, s) => ∃ c, run_lru (lru_new cap) ops = Ok (rs, c) ∧ lru_total_charge c = sp_usage s ∧
      lc_hook c = sp_hook s ∧ dom (lc_table c) = list_to_set (sp_entries s).*1
  | None => run_lru (lru_new cap) ops = Panic
  end.
Proof.
  pose proof (run_ok _ _ ops (lru_new_ok cap)) as Hrun. destruct (run_spec (spec_new cap) ops) as [[rs s]|]; [|done].
  destruct Hrun as (c & Hc & [es Hat]). exists c. split_and!; [done|apply (la_usage _ _ _ Hat)|apply (la_hook _ _ _ Hat)|].
  rewrite (la_table _ _ _ Hat), (la_entries _ _ _ Hat). unfold index_of. by rewrite dom_list_to_map_L, index_of_keys.
Qed.

(** Bounds of a cache of charge-one entries (the table cache).  When every
    insertion has charge one, no sequence of operations fails, the charge in use is
    the number of entries and never exceeds the capacity, and a key that was just
    inserted is found. *)
Theorem lru_bounded {K V} `{Countable K} (cap : Z) (ops : list (@CacheOp K V)) (k : K) (v : V) :
  0 < cap < 2 ^ 64 → Forall (λ op, ∀ k v c, op = OpInsert k v c → c = 1) ops →
  ∃ rs c, run_lru (lru_new cap) ops = Ok (rs, c) ∧
    lru_total_charge c = Z.of_nat (size (lc_table c)) ∧ lru_total_charge c ≤ cap ∧
    ∃ r c1 c2, lru_insert c k v 1 = Ok (r, c1) ∧ lru_get c1 k = Ok (Some v, c2).
Proof.
  intros Hcap Hops. assert (unit_charged (@spec_new K V cap)) as Hu by (split; cbn [spec_new sp_entries sp_usage sp_capacity]; rewrite ?len_nil; first [lia | by constructor]).
  destruct (unit_run _ ops Hu Hops) as (rs & s & Hrun & Hus & Hc). pose proof (run_ok _ _ ops (lru_new_ok cap)) as Hl.
  rewrite Hrun in Hl. destruct Hl as (c & Hrc & Hrep). exists rs, c. destruct (Hrep) as [es Hat].
  rewrite (rep_size c s Hrep). unfold lru_total_charge. rewrite (la_usage _ _ _ Hat), (uc_usage s Hus). simpl in Hc.
  split_and!; [done..|rewrite <- Hc; apply (uc_bound s Hus)|].
  destruct (unit_op s (OpInsert k v 1) Hus) as (r & s1 & Hi & _); [by intros ? ? ? [= _ _ <-]|]. simpl in Hi.
  pose proof (lru_insert_ok c s k v 1 Hrep) as Hok. rewrite Hi in Hok. destruct Hok as (c1 & Hc1 & Hrep1).
  destruct (lru_get_ok c1 s1 k Hrep1) as (c2 & Hg & _). rewrite (get_inserted s k v 1 r s1) in Hg; [by exists r, c1, c2|lia|done].
Qed.

Lemma lru_bounded_witness :
  ∃ rs c, run_lru (lru_new 2) [OpInsert 1 10 1; OpInsert 2 20 1; OpGet 1; OpInsert 3 30 1] = Ok (rs, c) ∧
    rs = [None; None; Some 10; None] ∧ lru_total_charge c ≤ 2 ∧ lc_hook c = [(2, 20)].
Proof.
  destruct (lru_bounded 2 [OpInsert 1 10 1; OpInsert 2 20 1; OpGet 1; OpInsert 3 30 1] 4 40) as (rs & c & Hrun & _ & Hb & _).
  - lia.
  - repeat constructor; intros ? ? ? Heq; by inversion Heq.
  - exists rs, c. pose proof Hrun as Hr. vm_compute in Hr. injection Hr as <- <-. split_and!; [exact Hrun|reflexivity|exact Hb|reflexivity].
Defined.

(** A recycled node keeps the charge recorded for the entry it held before: erasing
    the new entry then releases more than it took, the usage wraps around, and the
    next insertion evicts from an empty list. *)
Example lru_charge_drift :
  (r ← run_lru (lru_new 10) [OpInsert 1 1 10; OpInsert 2 2 1; OpErase 2]; Ok (lru_total_charge r.2)) = Ok (2 ^ 64 - 9) ∧
  run_lru (lru_new 10) [OpInsert 1 1 10; OpInsert 2 2 1; OpErase 2; OpInsert 3 3 1] = Panic.
Proof. vm_compute. auto. Qed.
