(* ===== verification/Sharded.v ===== *)
(** * The sharded cache: [ShardedCache] of [src/cache/mod.rs]

    A vector of LRU caches; a key goes to the shard its hash selects.  The hash of the
    standard library is a parameter. *)
From stdpp Require Import gmap.
From S2P Require Import Prelude Lru.
Open Scope Z_scope.

Section Sharded.
Context {K V : Type} `{Countable K} (hash : K → Z).
Notation shards_t := (list (LRUCache K V)).
Implicit Types (shards : shards_t) (ops : list (@CacheOp K V)).

(** [find_shard]: the remainder panics when there is no shard. *)
Definition shard_index (n : nat) (k : K) : nat := Z.to_nat (hash k mod Z.of_nat n).
Definition find_shard shards (k : K) : outcome nat :=
  match shards with [] => Panic | _ => Ok (shard_index (length shards) k) end.

Definition sharded_insert shards (k : K) (v : V) (charge : Z) : outcome (option V * shards_t) :=
  idx ← find_shard shards k; c ← index shards idx; r ← lru_insert c k v charge; Ok (r.1, <[idx := r.2]> shards).
Definition sharded_get shards (k : K) : outcome (option V * shards_t) :=
  idx ← find_shard shards k; c ← index shards idx; r ← lru_get c k; Ok (r.1, <[idx := r.2]> shards).
Definition sharded_erase shards (k : K) : outcome shards_t :=
  idx ← find_shard shards k; c ← index shards idx; c ← lru_erase c k; Ok (<[idx := c]> shards).
(** The sum of the shards, with the overflow behaviour of the build. *)
Fixpoint sharded_sum (ck : bool) (acc : Z) shards : outcome Z :=
  match shards with [] => Ok acc | c :: shards => acc ← uadd ck 64 acc (lru_total_charge c); sharded_sum ck acc shards end.
Definition sharded_total_charge (ck : bool) shards : outcome Z := sharded_sum ck 0 shards.

Definition op_key (op : @CacheOp K V) : K := match op with OpInsert k _ _ | OpGet k | OpErase k => k end.
Definition op_sharded shards (op : @CacheOp K V) : outcome (option V * shards_t) :=
  match op with
  | OpInsert k v charge => sharded_insert shards k v charge
  | OpGet k => sharded_get shards k
  | OpErase k => s ← sharded_erase shards k; Ok (None, s)
  end.
Fixpoint run_sharded shards ops : outcome (list (option V) * shards_t) :=
  match ops with
  | [] => Ok ([], shards)
  | op :: ops => r ← op_sharded shards op; rs ← run_sharded r.2 ops; Ok (r.1 :: rs.1, rs.2)
  end.

(** The operations of one shard, and their results. *)
Definition goes_to (n i : nat) (op : @CacheOp K V) : Prop := shard_index n (op_key op) = i.
#[local] Instance goes_to_dec n i op : Decision (goes_to n i op).
Proof. unfold goes_to. apply _. Defined.
Definition own_ops (n i : nat) ops : list (@CacheOp K V) := filter (goes_to n i) ops.
Definition own_results (n i : nat) ops (rs : list (option V)) : list (option V) :=
  (filter (λ x : @CacheOp K V * option V, goes_to n i x.1) (zip ops rs)).*2.

Lemma op_sharded_eq shards op c : shards ≠ [] → shards !! shard_index (length shards) (op_key op) = Some c →
  op_sharded shards op = (r ← op_lru c op; Ok (r.1, <[shard_index (length shards) (op_key op) := r.2]> shards)).
Proof.
  intros Hne Hc. assert (∀ k, find_shard shards k = Ok (shard_index (length shards) k)) as Hf by (by destruct shards).
  destruct op as [k v charge|k|k]; simpl in *; unfold sharded_insert, sharded_get, sharded_erase; rewrite Hf, Ok_bind; unfold index; rewrite Hc, Ok_bind;
    [done..|]. by destruct (lru_erase c k).
Qed.
Lemma shard_lt shards k : (∀ k, 0 ≤ hash k) → shards ≠ [] → (shard_index (length shards) k < length shards)%nat.
Proof.
  intros Hh Hne. unfold shard_index. destruct shards as [|c r]; [done|].
  pose proof (Z.mod_pos_bound (hash k) (Z.of_nat (length (c :: r)))). simpl in *. lia.
Qed.

End Sharded.

(** ** Properties *)

(** The shards are independent.  When the operations that go to each shard run on
    it, a sequence of operations on the sharded cache runs too: every operation
    returns what the cache of its own shard returns when it executes only its own
    operations, in their order, and that cache ends in the same state. *)
Theorem sharded_independent {K V} `{Countable K} (hash : K → Z) (shards : list (LRUCache K V)) (ops : list (@CacheOp K V)) :
  (∀ k, 0 ≤ hash k) → shards ≠ [] →
  (∀ i c, shards !! i = Some c → ∃ r, run_lru c (own_ops hash (length shards) i ops) = Ok r) →
  ∃ rs shards', run_sharded hash shards ops = Ok (rs, shards') ∧ length rs = length ops ∧ length shards' = length shards ∧
    ∀ i c, shards !! i = Some c →
      ∃ c', run_lru c (own_ops hash (length shards) i ops) = Ok (own_results hash (length shards) i ops rs, c') ∧ shards' !! i = Some c'.
Proof.
  intros Hh. revert shards. induction ops as [|op ops IH]; intros shards Hne Hown.
  { exists [], shards. split_and!; [done..|]. intros i c Hc. by exists c. }
  set (j := shard_index hash (length shards) (op_key op)). pose proof (shard_lt hash shards (op_key op) Hh Hne) as Hj. fold j in Hj.
  destruct (lookup_lt_is_Some_2 shards j Hj) as [cj Hcj].
  assert (∀ i, goes_to hash (length shards) i op ↔ i = j) as Hgo by (intros i; unfold goes_to; fold j; naive_solver).
  assert (∃ r, op_lru cj op = Ok r ∧ ∃ r', run_lru r.2 (own_ops hash (length shards) j ops) = Ok r') as ([r cj'] & Hop & Hrest).
  { destruct (Hown j cj Hcj) as (r & Hr). unfold own_ops in Hr. rewrite filter_cons_True in Hr by (by apply Hgo). simpl in Hr.
    apply bind_Ok in Hr as (x & Hx & Hr). apply bind_Ok in Hr as (y & Hy & _). exists x. split; [done|]. by exists y. }
  cbn [run_sharded]. rewrite (op_sharded_eq hash shards op cj) by done. fold j. rewrite Hop, !Ok_bind. cbn [fst snd] in *.
  destruct (IH (<[j := cj']> shards)) as (rs & shards' & Hrun & Hlr & Hls & Hall).
  { intros E. apply Hne. apply nil_length_inv. by rewrite <- (length_insert shards j cj'), E. }
  { rewrite length_insert. intros i c Hc. destruct (decide (i = j)) as [->|Hij].
    - rewrite list_lookup_insert_eq in Hc by done. injection Hc as <-. done.
    - rewrite list_lookup_insert_ne in Hc by done. destruct (Hown i c Hc) as (x & Hx). unfold own_ops in Hx.
      rewrite filter_cons_False in Hx by (by rewrite Hgo). by exists x. }
  rewrite length_insert in *. rewrite Hrun, Ok_bind. exists (r :: rs), shards'. split_and!; [done|simpl; congruence|done|].
  intros i c Hc. unfold own_ops, own_results. cbn [zip]. fold (zip ops rs). destruct (decide (i = j)) as [->|Hij].
  - rewrite !filter_cons_True by (by apply Hgo). rewrite Hcj in Hc. injection Hc as <-.
    destruct (Hall j cj') as (c' & Hc' & Hs'); [by rewrite list_lookup_insert_eq|]. unfold own_ops, own_results in Hc'.
    cbn [run_lru]. rewrite Hop, Ok_bind. cbn [snd fst]. rewrite Hc', Ok_bind. by exists c'.
  - rewrite !filter_cons_False by (by rewrite Hgo). apply (Hall i c). by rewrite list_lookup_insert_ne.
Qed.

Definition sample_ops : list (@CacheOp Z Z) := [OpInsert 1 10 1; OpInsert 2 20 1; OpInsert 3 30 1; OpGet 1; OpGet 2].

Lemma sharded_independent_witness :
  ∃ rs shards', run_sharded Z.abs [lru_new 1; lru_new 1] sample_ops = Ok (rs, shards') ∧
    rs = [None; None; None; None; Some 20].
Proof.
  destruct (sharded_independent Z.abs [lru_new 1; lru_new 1] sample_ops) as (rs & shards' & Hrun & _).
  - apply Z.abs_nonneg.
  - done.
  - intros [|[|i]] c Hc; simplify_eq/=; eexists; vm_compute; reflexivity.
  - exists rs, shards'. split; [exact Hrun|]. vm_compute in Hrun. by injection Hrun as <- _.
Defined.
