(* ===== verification/Snapshot.v ===== *)
(** * Snapshots: [src/snapshot.rs]

    The list of the sequence numbers that readers hold.  An [Arc] has an identity and
    the store of its strong count, because [gc] decides by the number of owners. *)
From stdpp Require Import gmap sorting.
From S2P Require Import Prelude.
Open Scope Z_scope.

Definition MIN_SNAPSHOT : Z := 0.

(** [Arc<Snapshot>] *)
Record Arc : Type := mkArc { arc_id : nat; arc_seq : Z }.
#[export] Instance Arc_eq_dec : EqDecision Arc.
Proof. solve_decision. Defined.

Record SnapshotList : Type := mkSnapshots {
  sl_first : Arc;
  sl_snapshots : list Arc;
  sl_strong : gmap nat nat;
}.

Definition strong_count (s : SnapshotList) (a : Arc) : nat := default 0%nat (sl_strong s !! arc_id a).
Definition set_strong (n : nat) (a : Arc) (s : SnapshotList) : SnapshotList :=
  mkSnapshots (sl_first s) (sl_snapshots s) (<[arc_id a := n]> (sl_strong s)).
(** [Arc::clone] and dropping an [Arc]. *)
Definition clone_arc (a : Arc) (s : SnapshotList) : SnapshotList := set_strong (S (strong_count s a)) a s.
Definition drop_arc (s : SnapshotList) (a : Arc) : SnapshotList := set_strong (pred (strong_count s a)) a s.

Definition snapshots_default : SnapshotList := mkSnapshots (mkArc 0 MIN_SNAPSHOT) [] {[0%nat := 1%nat]}.

Definition sl_is_empty (s : SnapshotList) : bool := match sl_snapshots s with [] => true | _ => false end.
Definition sl_oldest (s : SnapshotList) : Arc := match sl_snapshots s with [] => sl_first s | a :: _ => a end.
Definition sl_newest (s : SnapshotList) : Arc := match last (sl_snapshots s) with None => sl_first s | Some a => a end.
Definition last_seq (s : SnapshotList) : Z := match last (sl_snapshots s) with None => arc_seq (sl_first s) | Some a => arc_seq a end.

Definition acquire (s : SnapshotList) (seq : Z) : outcome (Arc * SnapshotList) :=
  let last_seq := last_seq s in
  _ ← rust_assert (last_seq <=? seq);
  if last_seq =? seq then Ok (sl_newest s, clone_arc (sl_newest s) s)
  else
    let a := mkArc (fresh (dom (sl_strong s))) seq in
    Ok (a, mkSnapshots (sl_first s) (sl_snapshots s ++ [a]) (<[arc_id a := 2%nat]> (sl_strong s))).

(** [retain]: the removed elements are dropped. *)
Definition gc (s : SnapshotList) : SnapshotList :=
  let keep := filter (λ a, (1 < strong_count s a)%nat) (sl_snapshots s) in
  let gone := filter (λ a, ¬ (1 < strong_count s a)%nat) (sl_snapshots s) in
  foldl drop_arc (mkSnapshots (sl_first s) keep (sl_strong s)) gone.

(** [slice::binary_search] on the sequence numbers: the index of an equal element. *)
Fixpoint search_loop (fuel : nat) (l : list Z) (x : Z) (base size : nat) : outcome nat :=
  if (size <=? 1)%nat then Ok base
  else
    match fuel with
    | O => OutOfFuel
    | S fuel =>
      let half := (size / 2)%nat in
      let mid := (base + half)%nat in
      m ← index l mid;
      search_loop fuel l x (if x <? m then base else mid) (size - half)
    end.
Definition binary_search (l : list Z) (x : Z) : outcome (option nat) :=
  if (length l =? 0)%nat then Ok None
  else
    base ← search_loop (length l) l x 0 (length l);
    m ← index l base;
    Ok (if m =? x then Some base else None).

(** [release]: the element is removed from the list and dropped, then the argument. *)
Definition release (s : SnapshotList) (a : Arc) : outcome (bool * SnapshotList) :=
  r ← binary_search (arc_seq <$> sl_snapshots s) (arc_seq a);
  match r with
  | Some i =>
    b ← index (sl_snapshots s) i;
    Ok (true, drop_arc (drop_arc (mkSnapshots (sl_first s) (delete i (sl_snapshots s)) (sl_strong s)) b) a)
  | None => Ok (false, drop_arc s a)
  end.

(** ** The binary search *)
Definition increasing (l : list Z) : Prop := ∀ i j a b, (i < j)%nat → l !! i = Some a → l !! j = Some b → a < b.

Lemma search_loop_ok fuel l x base size : increasing l → (0 < size)%nat → (base + size ≤ length l)%nat → (size ≤ fuel)%nat →
  ∃ r, search_loop fuel l x base size = Ok r ∧ (r < length l)%nat ∧
    ∀ i, l !! i = Some x → (base ≤ i < base + size)%nat → i = r.
Proof.
  intros Hl. revert base size. induction fuel as [|fuel IH]; intros base size Hs Hb Hf; [lia|]. cbn [search_loop].
  destruct (Nat.leb_spec size 1) as [H1|H1]; [exists base; split_and!; [done|lia|intros; lia]|].
  pose proof (Nat.div_lt size 2 ltac:(lia) ltac:(lia)) as Hh. assert (0 < size / 2)%nat as Hh0 by (apply Nat.div_str_pos; lia).
  set (half := (size / 2)%nat) in *.
  destruct (lookup_lt_is_Some_2 l (base + half)%nat ltac:(lia)) as [m Hm]. unfold index. rewrite Hm, Ok_bind.
  destruct (Z.ltb_spec x m) as [Hx|Hx].
  - destruct (IH base (size - half)%nat) as (r & Hr & Hlt & Hin); [lia..|]. exists r. split_and!; [done..|].
    intros i Hi Hrange. apply Hin; [done|]. destruct (decide (i < base + half)%nat); [|exfalso].
    + (* the lower half is kept whole *)
      assert (half ≤ size - half)%nat by (unfold half; pose proof (Nat.mul_div_le size 2); lia). lia.
    + destruct (decide (i = base + half)%nat) as [->|]; [rewrite Hm in Hi; injection Hi as ->; lia|].
      assert (m < x) by (eapply (Hl (base + half)%nat i); [lia|done..]). lia.
  - destruct (IH (base + half)%nat (size - half)%nat) as (r & Hr & Hlt & Hin); [lia..|]. exists r. split_and!; [done..|].
    intros i Hi Hrange. apply Hin; [done|]. destruct (decide (i < base + half)%nat); [exfalso|lia].
    assert (x < m) by (eapply (Hl i (base + half)%nat); [lia|done..]). lia.
Qed.
Lemma binary_search_ok l x : increasing l →
  ∃ r, binary_search l x = Ok r ∧ match r with Some i => l !! i = Some x | None => x ∉ l end.
Proof.
  intros Hl. unfold binary_search. destruct (Nat.eqb_spec (length l) 0) as [H0|H0].
  { apply nil_length_inv in H0. subst. exists None. split; [done|apply not_elem_of_nil]. }
  destruct (search_loop_ok (length l) l x 0 (length l)) as (r & -> & Hr & Hin); [done|lia..|]. rewrite Ok_bind.
  destruct (lookup_lt_is_Some_2 l r Hr) as [m Hm]. unfold index. rewrite Hm, Ok_bind.
  destruct (Z.eqb_spec m x) as [->|Hne]; eexists; (split; [done|]); [done|].
  intros [i Hi]%list_elem_of_lookup. rewrite (Hin i) in Hi; [congruence|done|]. apply lookup_lt_Some in Hi. lia.
Qed.

(** ** The invariant *)

(** How many of the [Arc]s in a list share an identity. *)
Definition occ (i : nat) (l : list Arc) : nat := length (filter (λ a, arc_id a = i) l).

Lemma occ_cons i a l : occ i (a :: l) = ((if decide (arc_id a = i) then 1 else 0) + occ i l)%nat.
Proof. unfold occ. rewrite filter_cons. by case_decide. Qed.
Lemma occ_nil i : occ i [] = 0%nat.
Proof. done. Qed.
Lemma occ_app i l k : occ i (l ++ k) = (occ i l + occ i k)%nat.
Proof. unfold occ. by rewrite filter_app, length_app. Qed.
#[export] Instance occ_perm i : Proper ((≡ₚ) ==> eq) (occ i).
Proof. intros l k Hp. unfold occ. by rewrite Hp. Qed.
Lemma occ_pos i l : (0 < occ i l)%nat ↔ ∃ a, a ∈ l ∧ arc_id a = i.
Proof.
  unfold occ. split.
  - destruct (filter _ l) as [|a k] eqn:E; simpl; [lia|]. intros _. exists a. assert (a ∈ a :: k) as Ha by (by left).
    rewrite <- E, list_elem_of_filter in Ha. tauto.
  - intros (a & Ha & Hi). assert (a ∈ filter (λ a, arc_id a = i) l) as Hin by (by apply list_elem_of_filter).
    destruct (filter _ l); [by apply elem_of_nil in Hin|simpl; lia].
Qed.

(** [hs]: the handles outside the list.  The strong counts are exact, an identity
    belongs to one sequence number, and the list increases. *)
Record snap_inv (s : SnapshotList) (hs : list Arc) : Prop := {
  si_first : sl_first s = mkArc 0 MIN_SNAPSHOT;
  si_increasing : increasing (arc_seq <$> sl_snapshots s);
  si_positive : Forall (λ a, 0 < arc_seq a) (sl_snapshots s);
  si_strong i : default 0%nat (sl_strong s !! i) = occ i (sl_first s :: sl_snapshots s ++ hs);
  si_id a b : a ∈ sl_first s :: sl_snapshots s ++ hs → b ∈ sl_first s :: sl_snapshots s ++ hs → arc_id a = arc_id b → a = b;
  si_held a : a ∈ hs → a = sl_first s ∨ a ∈ sl_snapshots s;
}.

(** The operations of the database on the list; a handle is released only by its last
    owner. *)
Inductive snap_step : SnapshotList * list Arc → SnapshotList * list Arc → Prop :=
| step_acquire s hs seq a s' : acquire s seq = Ok (a, s') → snap_step (s, hs) (s', a :: hs)
| step_drop s hs a hs' : hs ≡ₚ a :: hs' → snap_step (s, hs) (drop_arc s a, hs')
| step_gc s hs : snap_step (s, hs) (gc s, hs)
| step_release s hs a hs' b s' : hs ≡ₚ a :: hs' → a ∉ hs' → release s a = Ok (b, s') → snap_step (s, hs) (s', hs').

Lemma set_strong_lookup n a s i : sl_strong (set_strong n a s) !! i = if decide (arc_id a = i) then Some n else sl_strong s !! i.
Proof. simpl. case_decide; [subst; apply lookup_insert_eq|by apply lookup_insert_ne]. Qed.
Lemma clone_count a s i : default 0%nat (sl_strong (clone_arc a s) !! i) = ((if decide (arc_id a = i) then 1 else 0) + default 0%nat (sl_strong s !! i))%nat.
Proof. unfold clone_arc. rewrite set_strong_lookup. case_decide; [subst|]; done. Qed.
Lemma drop_count a s i : default 0%nat (sl_strong (drop_arc s a) !! i) = (default 0%nat (sl_strong s !! i) - (if decide (arc_id a = i) then 1 else 0))%nat.
Proof. unfold drop_arc. rewrite set_strong_lookup. case_decide; [subst; simpl; unfold strong_count; lia|lia]. Qed.

Lemma drops_spec s l : sl_first (foldl drop_arc s l) = sl_first s ∧ sl_snapshots (foldl drop_arc s l) = sl_snapshots s ∧
  ∀ i, default 0%nat (sl_strong (foldl drop_arc s l) !! i) = (default 0%nat (sl_strong s !! i) - occ i l)%nat.
Proof.
  revert s. induction l as [|a l IH]; intros s; simpl; [split_and!; [done..|intros; unfold occ; simpl; lia]|].
  destruct (IH (drop_arc s a)) as (-> & -> & Hc). split_and!; [done..|]. intros i. rewrite Hc, drop_count, occ_cons. lia.
Qed.

Lemma increasing_snoc l x : increasing (l ++ [x]) ↔ increasing l ∧ ∀ y, y ∈ l → y < x.
Proof.
  split.
  - intros Hl. split.
    + intros i j a b Hij Ha Hb. apply (Hl i j a b Hij); by apply lookup_app_l_Some.
    + intros y [i Hi]%list_elem_of_lookup. apply (Hl i (length l) y x); [by eapply lookup_lt_Some|by apply lookup_app_l_Some|].
      rewrite lookup_app_r, Nat.sub_diag by lia. done.
  - intros [Hl Hx] i j a b Hij Ha Hb. apply lookup_lt_Some in Hb as Hj. rewrite length_app in Hj. simpl in Hj.
    rewrite lookup_app_l in Ha by lia. destruct (decide (j = length l)) as [->|].
    + rewrite lookup_app_r, Nat.sub_diag in Hb by lia. injection Hb as <-. apply Hx. by eapply list_elem_of_lookup_2.
    + rewrite lookup_app_l in Hb by lia. by apply (Hl i j).
Qed.
Lemma increasing_sublist l k : k `sublist_of` l → increasing l → increasing k.
Proof.
  intros Hs Hl. assert (StronglySorted Z.lt l) as HS.
  { clear Hs. induction l as [|x l IH]; [constructor|]. apply StronglySorted_cons. split.
    - apply Forall_lookup. intros i y Hy. by apply (Hl 0%nat (S i)); [lia|..].
    - apply IH. intros i j a b Hij. apply (Hl (S i) (S j)). lia. }
  assert (StronglySorted Z.lt k) as HK.
  { clear Hl. induction Hs as [|x l k Hs IH|x l k Hs IH]; [done|..]; apply StronglySorted_cons in HS as [Hx HS].
    - apply StronglySorted_cons. split; [|by apply IH]. rewrite Forall_forall in Hx |- *. intros y Hy. apply Hx. by eapply elem_of_sublist.
    - by apply IH. }
  clear -HK. induction HK as [|x k HK IH Hx]; intros i j a b Hij Ha Hb; [done|]. rewrite Forall_lookup in Hx.
  destruct i as [|i], j as [|j]; try lia; simpl in *; [simplify_eq; by eapply Hx|]. by eapply (IH i j); [lia|..].
Qed.

Lemma sublist_seqs l k : k `sublist_of` l → arc_seq <$> k `sublist_of` arc_seq <$> l.
Proof. induction 1; simpl; by constructor. Qed.

(** Removing elements and handles keeps the invariant when the counts follow. *)
Lemma inv_shrink s hs s' hs' : snap_inv s hs → sl_first s' = sl_first s → sl_snapshots s' `sublist_of` sl_snapshots s →
  hs' ⊆ hs → (∀ i, default 0%nat (sl_strong s' !! i) = occ i (sl_first s' :: sl_snapshots s' ++ hs')) →
  (∀ a, a ∈ hs' → a ∈ sl_snapshots s → a ∈ sl_snapshots s') → snap_inv s' hs'.
Proof.
  intros [Hf Hi Hp Hc Hid Hh] Hf' Hsub Hhs Hc' Hkeep.
  assert (∀ a, a ∈ sl_first s' :: sl_snapshots s' ++ hs' → a ∈ sl_first s :: sl_snapshots s ++ hs) as Hin.
  { intros a. rewrite !elem_of_cons, !elem_of_app, Hf'. intros [?|[Ha|?]]; [tauto| |auto]. right. left. by eapply elem_of_sublist. }
  split; [congruence|by eapply increasing_sublist, Hi; apply sublist_seqs| |done| |].
  - rewrite Forall_forall in *. intros a Ha. apply Hp. by eapply elem_of_sublist.
  - intros a b Ha Hb. apply Hid; auto.
  - intros a Ha. rewrite Hf'. destruct (Hh a (Hhs a Ha)) as [?|?]; [by left|right; auto].
Qed.

Lemma inv_drop s hs a hs' : snap_inv s hs → hs ≡ₚ a :: hs' → snap_inv (drop_arc s a) hs'.
Proof.
  intros Hinv Hp. apply (inv_shrink s hs); try done.
  - intros b Hb. rewrite Hp. by right.
  - intros i. rewrite drop_count, (si_strong s hs Hinv). simpl. rewrite !occ_cons, !occ_app, Hp, occ_cons. lia.
Qed.

Lemma occ_filter_le i (P : Arc → Prop) `{!∀ a, Decision (P a)} l :
  (occ i (filter P l) + occ i (filter (λ a, ¬ P a) l) = occ i l)%nat.
Proof.
  induction l as [|a l IH]; [done|]. rewrite !filter_cons. destruct (decide (P a)) as [HP|HP].
  - rewrite decide_False by tauto. rewrite !occ_cons. lia.
  - rewrite decide_True by tauto. rewrite !occ_cons. lia.
Qed.

(** An [Arc] is in the list at most once. *)
Lemma increasing_nodup l : increasing (arc_seq <$> l) → NoDup l.
Proof.
  intros Hl. apply NoDup_alt. intros i j a Hi Hj.
  assert (∀ i j, l !! i = Some a → l !! j = Some a → ¬ (i < j)%nat) as Hno.
  { intros i' j' Hi' Hj' Hlt. assert (arc_seq a < arc_seq a); [|lia].
    by apply (Hl i' j'); [|rewrite list_lookup_fmap, ?Hi', ?Hj'..]. }
  pose proof (Hno i j Hi Hj). pose proof (Hno j i Hj Hi). lia.
Qed.
Lemma listed_once s hs a : snap_inv s hs → a ∈ sl_snapshots s → occ (arc_id a) (sl_snapshots s) = 1%nat.
Proof.
  intros Hinv Ha. pose proof (increasing_nodup _ (si_increasing s hs Hinv)) as Hnd.
  assert (∀ b, b ∈ sl_snapshots s → arc_id b = arc_id a → b = a) as Hid.
  { intros b Hb. apply (si_id s hs Hinv); rewrite elem_of_cons, elem_of_app; tauto. }
  apply list_elem_of_split in Ha as (l1 & l2 & Heq). rewrite Heq in *. rewrite occ_app, occ_cons, decide_True by done.
  assert (a ∉ l1 ∧ a ∉ l2) as [H1 H2].
  { apply NoDup_app in Hnd as (_ & Hd & Hnd). apply NoDup_cons in Hnd as [H2 _]. split; [|done]. intros Hin. apply (Hd a Hin). by left. }
  assert (∀ l, a ∉ l → (∀ b, b ∈ l → b ∈ l1 ++ a :: l2) → occ (arc_id a) l = 0%nat) as Hz.
  { intros l Hl Hsub. destruct (occ (arc_id a) l) eqn:E; [done|]. exfalso. destruct (proj1 (occ_pos (arc_id a) l)) as (b & Hb & Hbi); [lia|].
    rewrite (Hid b) in Hb; [done|by apply Hsub|done]. }
  rewrite !Hz; [done|done| |done|]; intros b Hb; rewrite elem_of_app, elem_of_cons; tauto.
Qed.

(** In the list, an [Arc] with more than one owner is one that has a handle. *)
Lemma strong_listed s hs a : snap_inv s hs → a ∈ sl_snapshots s → (1 < strong_count s a)%nat ↔ a ∈ hs.
Proof.
  intros Hinv Ha. unfold strong_count. rewrite (si_strong s hs Hinv), occ_cons, occ_app, (listed_once s hs) by done.
  assert (a ∈ sl_first s :: sl_snapshots s ++ hs) as Hall by (rewrite elem_of_cons, elem_of_app; tauto).
  rewrite decide_False.
  2:{ intros Heq. pose proof (si_id s hs Hinv _ _ ltac:(by left) Hall Heq) as Hfa. pose proof (si_positive s hs Hinv) as Hp.
    rewrite Forall_forall in Hp. specialize (Hp a Ha). rewrite <- Hfa, (si_first s hs Hinv) in Hp. done. }
  split.
  - intros Hgt. destruct (proj1 (occ_pos (arc_id a) hs)) as (b & Hb & Hid); [lia|].
    rewrite <- (si_id s hs Hinv b a); [done| |done..]. rewrite elem_of_cons, elem_of_app. tauto.
  - intros Hin. assert (0 < occ (arc_id a) hs)%nat by (apply occ_pos; eauto). lia.
Qed.

Lemma filter_eq_on {A} (P Q : A → Prop) `{!∀ a, Decision (P a)} `{!∀ a, Decision (Q a)} (l : list A) :
  (∀ a, a ∈ l → P a ↔ Q a) → filter P l = filter Q l.
Proof.
  induction l as [|a l IH]; intros Hl; [done|]. rewrite !filter_cons, IH by (intros; apply Hl; by right).
  specialize (Hl a ltac:(by left)). repeat case_decide; tauto.
Qed.

(** [gc] keeps exactly the snapshots that somebody holds. *)
Lemma gc_exact s hs : snap_inv s hs → sl_snapshots (gc s) = filter (λ a, a ∈ hs) (sl_snapshots s).
Proof.
  intros Hinv. unfold gc. rewrite (proj1 (proj2 (drops_spec _ _))). cbn [sl_snapshots]. apply filter_eq_on.
  intros a Ha. by apply strong_listed.
Qed.
Lemma inv_gc s hs : snap_inv s hs → snap_inv (gc s) hs.
Proof.
  intros Hinv. apply (inv_shrink s hs); try done.
  - unfold gc. by rewrite (proj1 (drops_spec _ _)).
  - rewrite (gc_exact s hs Hinv). apply sublist_filter.
  - intros i. unfold gc. destruct (drops_spec (mkSnapshots (sl_first s) (filter (λ a, (1 < strong_count s a)%nat) (sl_snapshots s)) (sl_strong s))
      (filter (λ a, ¬ (1 < strong_count s a)%nat) (sl_snapshots s))) as (-> & -> & ->). cbn [sl_first sl_snapshots sl_strong].
    rewrite (si_strong s hs Hinv), !occ_cons, !occ_app.
    pose proof (occ_filter_le i (λ a, (1 < strong_count s a)%nat) (sl_snapshots s)). lia.
  - intros a Ha Hl. rewrite (gc_exact s hs Hinv). by apply list_elem_of_filter.
Qed.

Lemma inv_release s hs a hs' b s' : snap_inv s hs → hs ≡ₚ a :: hs' → a ∉ hs' → release s a = Ok (b, s') → snap_inv s' hs'.
Proof.
  intros Hinv Hp Hlast. unfold release. destruct (binary_search_ok (arc_seq <$> sl_snapshots s) (arc_seq a)) as (r & -> & Hr).
  { apply (si_increasing s hs Hinv). } rewrite Ok_bind. destruct r as [i|]; [|intros [= <- <-]; by apply (inv_drop s hs a)].
  rewrite list_lookup_fmap in Hr. apply fmap_Some in Hr as (c & Hc & Hseq). unfold index. rewrite Hc, Ok_bind. intros [= <- <-].
  apply list_elem_of_lookup_2 in Hc as Hcl.
  assert (c = a) as ->.
  { destruct (si_held s hs Hinv a) as [Ha|Ha]; [rewrite Hp; by left| |].
    - exfalso. pose proof (si_positive s hs Hinv) as Hpos. rewrite Forall_forall in Hpos. specialize (Hpos c Hcl).
      rewrite <- Hseq, Ha, (si_first s hs Hinv) in Hpos. done.
    - apply list_elem_of_lookup in Ha as [j Hj]. pose proof (si_increasing s hs Hinv) as Hinc.
      destruct (decide (i = j)) as [<-|Hne]; [congruence|]. exfalso. destruct (decide (i < j)%nat).
      + assert (arc_seq c < arc_seq a); [|lia]. by apply (Hinc i j); [|rewrite list_lookup_fmap, ?Hj, ?Hc..].
      + assert (arc_seq a < arc_seq c); [|lia]. by apply (Hinc j i); [lia|rewrite list_lookup_fmap, ?Hj, ?Hc..]. }
  pose proof (delete_Permutation _ _ _ Hc) as Hdel. apply (inv_shrink s hs); try done.
  - apply sublist_delete.
  - intros x Hx. rewrite Hp. by right.
  - intros k. rewrite !drop_count. cbn [sl_strong sl_first sl_snapshots drop_arc set_strong].
    pose proof (occ_perm k _ _ Hdel) as E1. pose proof (occ_perm k _ _ Hp) as E2. rewrite occ_cons in E1, E2.
    rewrite (si_strong s hs Hinv), !occ_cons, !occ_app. lia.
  - intros x Hx Hxl. assert (x ∈ a :: delete i (sl_snapshots s)) as [->|?]%elem_of_cons by (by rewrite <- Hdel); done.
Qed.

Lemma last_is_newest s hs a : snap_inv s hs → a ∈ sl_snapshots s → arc_seq a ≤ last_seq s.
Proof.
  intros Hinv [i Hi]%list_elem_of_lookup. unfold last_seq. pose proof (lookup_lt_Some _ _ _ Hi) as Hlt.
  destruct (last (sl_snapshots s)) as [b|] eqn:El.
  - rewrite last_lookup in El. destruct (decide (i = pred (length (sl_snapshots s)))) as [->|]; [rewrite El in Hi; injection Hi as ->; lia|].
    apply Z.lt_le_incl. by apply (si_increasing s hs Hinv i (pred (length (sl_snapshots s)))); [lia|rewrite list_lookup_fmap, ?Hi, ?El..].
  - apply last_None in El. by rewrite El in Hi.
Qed.
Lemma newest_in s : sl_newest s = sl_first s ∨ sl_newest s ∈ sl_snapshots s.
Proof.
  unfold sl_newest. destruct (last (sl_snapshots s)) as [a|] eqn:E; [|by left]. right.
  apply last_Some in E as (l & ->). apply elem_of_app. right. by left.
Qed.

(** Cloning a listed snapshot. *)
Lemma inv_clone s hs a : snap_inv s hs → a = sl_first s ∨ a ∈ sl_snapshots s → snap_inv (clone_arc a s) (a :: hs).
Proof.
  intros [Hf Hi Hp Hc Hid Hh] Hn. split; try done.
  - intros i. rewrite clone_count, Hc. cbn [sl_first sl_snapshots clone_arc set_strong]. rewrite !occ_cons, !occ_app, occ_cons. lia.
  - intros x y. cbn [sl_first sl_snapshots clone_arc set_strong]. rewrite !elem_of_cons, !elem_of_app, !elem_of_cons.
    intros Hx Hy. apply Hid; rewrite elem_of_cons, elem_of_app; naive_solver.
  - intros x [->|Hx]%elem_of_cons; [done|]. by apply Hh.
Qed.
(** Appending a new snapshot. *)
Lemma inv_push s hs seq : snap_inv s hs → last_seq s < seq → let a := mkArc (fresh (dom (sl_strong s))) seq in
  snap_inv (mkSnapshots (sl_first s) (sl_snapshots s ++ [a]) (<[arc_id a := 2%nat]> (sl_strong s))) (a :: hs).
Proof.
  intros Hinv Hgt a.
  assert (sl_strong s !! arc_id a = None) as Hfresh by (apply not_elem_of_dom; apply is_fresh).
  assert (∀ x, x ∈ sl_first s :: sl_snapshots s ++ hs → arc_id x ≠ arc_id a) as Hnew'.
  { intros x Hx Hid. pose proof (si_strong s hs Hinv (arc_id a)) as Hc. rewrite Hfresh in Hc.
    assert (0 < occ (arc_id a) (sl_first s :: sl_snapshots s ++ hs))%nat by (apply occ_pos; eauto). cbn [default from_option] in Hc. lia. }
  assert (occ (arc_id a) (sl_first s :: sl_snapshots s ++ hs) = 0%nat) as Hz.
  { pose proof (si_strong s hs Hinv (arc_id a)) as Hc. rewrite Hfresh in Hc. done. }
  assert (Forall (λ b, arc_seq b < seq) (sl_snapshots s)) as Hlt.
  { apply Forall_forall. intros b Hb. pose proof (last_is_newest s hs b Hinv Hb). lia. }
  assert (0 < seq) as Hpos.
  { assert (0 ≤ last_seq s); [|lia]. unfold last_seq. destruct (last (sl_snapshots s)) as [b|] eqn:El; [|by rewrite (si_first s hs Hinv)].
    apply last_Some in El as (l & El). pose proof (si_positive s hs Hinv) as Hp. rewrite El, Forall_app, Forall_singleton in Hp. lia. }
  split; cbn [sl_first sl_snapshots sl_strong].
  + apply (si_first s hs Hinv).
  + rewrite fmap_app. apply increasing_snoc. split; [apply (si_increasing s hs Hinv)|].
    intros y (b & -> & Hb)%list_elem_of_fmap. rewrite Forall_forall in Hlt. by apply Hlt.
  + apply Forall_app. split; [apply (si_positive s hs Hinv)|]. by constructor.
  + intros i. rewrite occ_cons, !occ_app, !occ_cons, occ_nil. destruct (decide (arc_id a = i)) as [<-|Hi].
    * rewrite lookup_insert_eq. rewrite occ_cons, occ_app in Hz. cbn [default from_option id]. unfold id. lia.
    * rewrite lookup_insert_ne, (si_strong s hs Hinv), occ_cons, occ_app by done. lia.
  + intros x y. rewrite !elem_of_cons, !elem_of_app, !elem_of_cons. intros Hx Hy Hid.
    assert (∀ z, z = sl_first s ∨ (z ∈ sl_snapshots s ∨ z = a ∨ z ∈ []) ∨ z = a ∨ z ∈ hs →
      z = a ∨ z ∈ sl_first s :: sl_snapshots s ++ hs) as Hcase.
    { intros z. rewrite elem_of_cons, elem_of_app, elem_of_nil. tauto. }
    destruct (Hcase x Hx) as [->|Hx'], (Hcase y Hy) as [->|Hy']; [done|..|by apply (si_id s hs Hinv)].
    * exfalso. by apply (Hnew' y Hy').
    * exfalso. by apply (Hnew' x Hx').
  + intros x [->|Hx]%elem_of_cons; [right; apply elem_of_app; right; by left|].
    destruct (si_held s hs Hinv x Hx); [by left|right; apply elem_of_app; by left].
Qed.
Lemma inv_acquire s hs seq a s' : snap_inv s hs → acquire s seq = Ok (a, s') → snap_inv s' (a :: hs).
Proof.
  intros Hinv. unfold acquire. destruct (Z.leb_spec (last_seq s) seq) as [Hle|]; [|done]. simpl.
  destruct (Z.eqb_spec (last_seq s) seq) as [Heq|Hne]; intros [= <- <-].
  - apply inv_clone; [done|apply newest_in].
  - apply inv_push; [done|lia].
Qed.

Lemma inv_default : snap_inv snapshots_default [].
Proof.
  split; try done.
  - intros i. cbn [snapshots_default sl_strong sl_first sl_snapshots app]. rewrite occ_cons, occ_nil. cbn [arc_id].
    destruct (decide (0%nat = i)) as [<-|]; [by rewrite lookup_singleton_eq|by rewrite lookup_singleton_ne].
  - intros a b ->%list_elem_of_singleton ->%list_elem_of_singleton. done.
  - by intros a []%elem_of_nil.
Qed.
Lemma inv_step s hs s' hs' : snap_inv s hs → snap_step (s, hs) (s', hs') → snap_inv s' hs'.
Proof.
  intros Hinv Hst. inversion Hst; subst.
  - by eapply inv_acquire.
  - by eapply inv_drop.
  - by apply inv_gc.
  - by eapply inv_release.
Qed.
Lemma inv_reach s hs s' hs' : rtc snap_step (s, hs) (s', hs') → snap_inv s hs → snap_inv s' hs'.
Proof.
  intros Hr. remember (s, hs) as x eqn:Hx. remember (s', hs') as y eqn:Hy. revert s hs Hx.
  induction Hr as [x|x [s1 hs1] y Hst Hr IH]; intros s hs -> Hinv.
  - by injection Hy as -> ->.
  - apply (IH Hy s1 hs1 eq_refl). by eapply inv_step.
Qed.

(** ** Properties *)



(** Two readers at the same sequence number share one snapshot: when the first one
    releases it, the list forgets it although the second still holds it. *)
Example snapshot_shared_release :
  (r1 ← acquire snapshots_default 5;
   r2 ← acquire r1.2 5;
   r3 ← release r2.2 r2.1;
   Ok (bool_decide (r1.1 = r2.1), r3.1, sl_is_empty r3.2)) = Ok (true, true, true).
Proof. vm_compute. reflexivity. Qed.
