(* ===== verification/Compaction.v ===== *)
(** * Compactions: [src/compaction.rs] and the merge of [src/db/mod.rs]

    The data of a compaction, its tests on keys, and [do_compaction]: the loop that
    reads the merged input tables, drops the entries no reader can see any more and
    writes the others to new tables of the next level.  The tables are written through
    the class [TableSink]. *)
From stdpp Require Import gmap sorting.
From S2P Require Import Prelude Coding Comparator Format Iterator VersionEdit Version KMerge DbIter.
Open Scope Z_scope.

(** What the loop uses of [VersionSet::create_compaction_output_file] (creating the
    file and its builder), [TableBuilder] and [TableCache::new_iter]. *)
Class TableSink (B : Type) : Type := {
  sink_create : Z → outcome B;
  sink_add : B → bytes → bytes → outcome B;
  sink_num_entries : B → Z;
  sink_file_size : B → Z;
  sink_finish : B → outcome B;
  sink_check : B → Z → Z → outcome unit;
}.

(** What it promises: a table holds the entries added, in increasing order. *)
Class TableSinkLaws {B : Type} {TS : TableSink B} (ord : bytes → bytes → comparison) (key_ok : bytes → Prop)
    (holds : B → list entry → Prop) : Prop := {
  sink_create_ok n : ∃ b, sink_create n = Ok b ∧ holds b [];
  sink_add_ok b es k v : holds b es → key_ok k → (∀ e, e ∈ es → ord e.1 k = Lt) →
    ∃ b', sink_add b k v = Ok b' ∧ holds b' (es ++ [(k, v)]);
  sink_entries_ok b es : holds b es → sink_num_entries b = len es;
  sink_finish_ok b es : holds b es → ∃ b', sink_finish b = Ok b' ∧ holds b' es ∧
    ∀ n, sink_check b' n (sink_file_size b') = Ok tt;
}.

Inductive CompactionReason : Type := MaxSize | SeekLimit | Manual.

Record CompactionInputs : Type := mkInputs { ci_base : list FileMetaData; ci_parent : list FileMetaData }.

(** [Compaction]; the input version is its files by level.  [cp_tables] are the
    finished tables, which the code leaves in their files.  The byte counts for the
    log are left out. *)
Record Compaction (B : Type) : Type := mkCompaction {
  cp_reason : CompactionReason;
  cp_level : nat;
  cp_input_version : list (list FileMetaData);
  cp_edit : VersionEdit;
  cp_inputs : CompactionInputs;
  cp_grand_parents : list FileMetaData;
  cp_grand_parent_index : nat;
  cp_seen_key : bool;
  cp_overlapped_bytes : Z;
  cp_oldest_snapshot_alive : Z;
  cp_outputs : list FileMetaData;
  cp_builder : option B;
  cp_tables : list B;
}.
Arguments mkCompaction {B}.
Arguments cp_reason {B}. Arguments cp_level {B}. Arguments cp_input_version {B}. Arguments cp_edit {B}.
Arguments cp_inputs {B}. Arguments cp_grand_parents {B}. Arguments cp_grand_parent_index {B}. Arguments cp_seen_key {B}.
Arguments cp_overlapped_bytes {B}. Arguments cp_oldest_snapshot_alive {B}. Arguments cp_outputs {B}.
Arguments cp_builder {B}. Arguments cp_tables {B}.

Section Compaction.
Context {B : Type} {TS : TableSink B} {I : Type} {IT : Iterator I}.
Context (ck : bool) (ucmp : Comparator).
(** The options the code reads. *)
Context (max_levels : nat) (max_file_size : Z).
Notation icmp := (InternalKeyComparator ucmp).
Notation compaction := (Compaction B).

Definition compaction_new (level : nat) (reason : CompactionReason) (version : list (list FileMetaData)) (edit : VersionEdit)
    : compaction :=
  mkCompaction reason level version edit (mkInputs [] []) [] 0 false 0 0 [] None [].

Definition with_grand_parent (c : compaction) (index : nat) (seen : bool) (overlapped : Z) : compaction :=
  mkCompaction (cp_reason c) (cp_level c) (cp_input_version c) (cp_edit c) (cp_inputs c) (cp_grand_parents c) index seen
    overlapped (cp_oldest_snapshot_alive c) (cp_outputs c) (cp_builder c) (cp_tables c).
Definition with_output (c : compaction) (outputs : list FileMetaData) (builder : option B) (tables : list B) : compaction :=
  mkCompaction (cp_reason c) (cp_level c) (cp_input_version c) (cp_edit c) (cp_inputs c) (cp_grand_parents c)
    (cp_grand_parent_index c) (cp_seen_key c) (cp_overlapped_bytes c) (cp_oldest_snapshot_alive c) outputs builder tables.
Definition with_edit (c : compaction) (edit : VersionEdit) (outputs : list FileMetaData) : compaction :=
  mkCompaction (cp_reason c) (cp_level c) (cp_input_version c) edit (cp_inputs c) (cp_grand_parents c)
    (cp_grand_parent_index c) (cp_seen_key c) (cp_overlapped_bytes c) (cp_oldest_snapshot_alive c) outputs (cp_builder c)
    (cp_tables c).

(** The loop of [should_stop_before] over the remaining grand parents. *)
Fixpoint skip_grand_parents (gps : list FileMetaData) (ikey : bytes) (index : nat) (seen : bool) (overlapped : Z)
    : outcome (nat * Z) :=
  match gps with
  | [] => Ok (index, overlapped)
  | g :: gps =>
    c ← @compare icmp ikey (ik_data (fm_largest g));
    match c with
    | Gt =>
      overlapped ← (if seen then uadd ck 64 overlapped (fm_file_size g) else Ok overlapped);
      skip_grand_parents gps ikey (S index) seen overlapped
    | _ => Ok (index, overlapped)
    end
  end.
Definition should_stop_before (c : compaction) (ikey : bytes) : outcome (bool * compaction) :=
  r ← skip_grand_parents (drop (cp_grand_parent_index c) (cp_grand_parents c)) ikey (cp_grand_parent_index c)
        (cp_seen_key c) (cp_overlapped_bytes c);
  let '(index, overlapped) := r in
  limit ← max_grandparent_overlap_bytes ck max_file_size;
  if limit <? overlapped then Ok (true, with_grand_parent c index true 0)
  else Ok (false, with_grand_parent c index true overlapped).

(** One level of [key_exist_in_deeper_level]. *)
Fixpoint key_in_level (files : list FileMetaData) (key : bytes) : outcome bool :=
  match files with
  | [] => Ok false
  | f :: files =>
    largest ← ikey_user_key (fm_largest f);
    c ← @compare ucmp key largest;
    match c with
    | Gt => key_in_level files key
    | _ =>
      smallest ← ikey_user_key (fm_smallest f);
      c ← @compare ucmp key smallest;
      Ok (bool_decide (c ≠ Lt))
    end
  end.
(** The levels from [level] on; [get_level_files] panics out of range. *)
Fixpoint key_in_levels (n : nat) (files : list (list FileMetaData)) (level : nat) (key : bytes) : outcome bool :=
  match n with
  | O => Ok false
  | S n =>
    fs ← index files level;
    b ← key_in_level fs key;
    if (b : bool) then Ok true else key_in_levels n files (S level) key
  end.
Definition key_exist_in_deeper_level (c : compaction) (key : bytes) : outcome bool :=
  key_in_levels (max_levels - (cp_level c + 2)) (cp_input_version c) (cp_level c + 2) key.

Definition apply_to_edit (c : compaction) : compaction :=
  let level := Z.of_nat (cp_level c) in
  let edit := foldl (λ e f, delete_file level (fm_number f) e) (cp_edit c) (ci_base (cp_inputs c)) in
  let edit := foldl (λ e f, delete_file (level + 1) (fm_number f) e) edit (ci_parent (cp_inputs c)) in
  let edit := mkEdit (ve_max_levels edit) (ve_comparator_name edit) (ve_log_number edit) (ve_prev_log_number edit)
    (ve_next_file_number edit) (ve_last_sequence edit) (ve_compaction_pointers edit) (ve_deleted_files edit)
    (ve_new_files edit ++ ((λ f, (level + 1, f)) <$> cp_outputs c)) in
  with_edit c edit [].

(** [finish_output_file]: [c.builder] and [c.outputs] must not be empty. *)
Definition finish_output_file (c : compaction) (status : outcome unit) : outcome compaction :=
  match cp_builder c, last (cp_outputs c) with
  | Some b, Some f =>
    let entries := sink_num_entries b in
    r ← match status with
        | Ok _ => b ← sink_finish b; Ok (b, true)
        | Err _ => Ok (b, false)
        | Panic => Panic
        | OutOfFuel => OutOfFuel
        end;
    let '(b, ok) := r in
    let f := mkMeta (fm_allowed_seeks f) (sink_file_size b) (fm_number f) (fm_smallest f) (fm_largest f) in
    _ ← (if (ok : bool) && (0 <? entries) then sink_check b (fm_number f) (fm_file_size f) else Ok tt);
    match status with
    | Err e => Err e
    | _ => Ok (with_output c (take (length (cp_outputs c) - 1) (cp_outputs c) ++ [f]) None (cp_tables c ++ [b]))
    end
  | _, _ => Panic
  end.

(** [create_compaction_output_file] *)
Definition create_compaction_output_file (c : compaction) (file_number : Z) : outcome compaction :=
  match cp_builder c with
  | Some _ => Panic
  | None =>
    b ← sink_create file_number;
    Ok (with_output c (cp_outputs c ++ [mkMeta 0 0 file_number ikey_default ikey_default]) (Some b) (cp_tables c))
  end.

(** The bounds of the last output. *)
Definition set_bounds (outputs : list FileMetaData) (first : bool) (ikey : bytes) : outcome (list FileMetaData) :=
  match last outputs with
  | Some f =>
    Ok (take (length outputs - 1) outputs ++
        [mkMeta (fm_allowed_seeks f) (fm_file_size f) (fm_number f)
           (if first then ikey_decoded_from ikey else fm_smallest f) (ikey_decoded_from ikey)])
  | None => Panic
  end.

(** Writing one entry to the current output, which is created when there is none;
    [next] is the next file number.  The last component: the output is large enough. *)
Definition write_entry (c : compaction) (next : Z) (ikey value : bytes) : outcome (compaction * Z * bool) :=
  r ← match cp_builder c with
      | None => next' ← uadd ck 64 next 1; c ← create_compaction_output_file c next; Ok (c, next')
      | Some _ => Ok (c, next)
      end;
  let '(c, next) := r in
  match cp_builder c with
  | Some b =>
    outputs ← set_bounds (cp_outputs c) (sink_num_entries b =? 0) ikey;
    b ← sink_add b ikey value;
    Ok (with_output c outputs (Some b) (cp_tables c), next, max_file_size <=? sink_file_size b)
  | None => Panic
  end.

(** Whether the entry is dropped. *)
Definition drops (c : compaction) (last_sequence : Z) (key : ParsedInternalKey) : outcome bool :=
  if last_sequence <=? cp_oldest_snapshot_alive c then Ok true
  else if bool_decide (pk_value_type key = Deletion) && (pk_seq key <=? cp_oldest_snapshot_alive c) then
    b ← key_exist_in_deeper_level c (pk_user_key key); Ok (negb b)
  else Ok false.

Definition MAX_U64 : Z := 2 ^ 64 - 1.

(** The loop of [do_compaction], when no memtable waits to be flushed and the database
    is not shut down; [fuel]: more than the entries of the input. *)
Fixpoint compaction_loop (fuel : nat) (it : I) (c : compaction) (next : Z) (current : option bytes) (last_sequence : Z)
    : outcome (I * compaction * Z) :=
  if it_valid it then
    match fuel with
    | O => OutOfFuel
    | S fuel =>
      let '(status, it) := it_status it in
      ikey ← it_key it;
      r ← should_stop_before c ikey;
      let '(stop, c) := r in
      c ← (if (stop : bool) && bool_decide (is_Some (cp_builder c)) then finish_output_file c status else Ok c);
      r ← match decode_from ikey with
          | Some key =>
            same ← match current with
                   | Some u => o ← @compare ucmp (pk_user_key key) u; Ok (bool_decide (o = Eq))
                   | None => Ok false
                   end;
            let current := if (same : bool) then current else Some (pk_user_key key) in
            let last_sequence := if same then last_sequence else MAX_U64 in
            d ← drops c last_sequence key;
            w ← (if (d : bool) then Ok (c, next, false) else value ← it_value it; write_entry c next ikey value);
            let '(c, next, full) := w in
            let '(status, it) := if (full : bool) then it_status it else (Ok tt, it) in
            c ← (if full then finish_output_file c status else Ok c);
            Ok (it, c, next, current, pk_seq key)
          | None => Ok (it, c, next, None, MAX_U64)
          end;
      let '(it, c, next, current, last_sequence) := r in
      it ← it_next it;
      compaction_loop fuel it c next current last_sequence
    end
  else Ok (it, c, next).

(** [do_compaction]: the new state, with the edit to log when the input was read
    without an error. *)
Definition do_compaction (fuel : nat) (it : I) (c : compaction) (next : Z) : outcome (compaction * Z * bool) :=
  it ← it_seek_to_first it;
  r ← compaction_loop fuel it c next None MAX_U64;
  let '(it, c, next) := r in
  let '(status, it) := if bool_decide (is_Some (cp_builder c)) then it_status it else (Ok tt, it) in
  c ← (if bool_decide (is_Some (cp_builder c)) then finish_output_file c status else Ok c);
  match (it_status it).1 with
  | Ok _ => Ok (apply_to_edit c, next, true)
  | Err _ => Ok (c, next, false)
  | Panic => Panic
  | OutOfFuel => OutOfFuel
  end.
End Compaction.

(** ** Which entries survive *)
Section Kept.
Context (uord : bytes → bytes → comparison) {KO : KeyOrder uord}.
Context (oldest : Z) (deeper : bytes → bool).

Definition same_key (current : option bytes) (e : entry) : bool :=
  match current with Some u => bool_decide (uord (ukey e.1) u = Eq) | None => false end.
(** An entry is dropped when a newer one of its key is visible to the oldest snapshot,
    or when it is a deletion visible to it that hides nothing below. *)
Definition dropped (last : Z) (e : entry) : bool :=
  (last <=? oldest) || (bool_decide (kind_of e = Deletion) && (kseq e.1 <=? oldest) && negb (deeper (ukey e.1))).
Fixpoint kept (current : option bytes) (last : Z) (l : list entry) : list entry :=
  match l with
  | [] => []
  | e :: l =>
    let same := same_key current e in
    (if dropped (if same then last else MAX_U64) e then [] else [e]) ++
      kept (if same then current else Some (ukey e.1)) (kseq e.1) l
  end.

Lemma kept_sublist current last l : kept current last l `sublist_of` l.
Proof.
  revert current last. induction l as [|e l IH]; intros current last; [done|]. cbn [kept].
  destruct (dropped _ e); simpl; [by constructor|]. by constructor.
Qed.

Lemma kept_in current last l x : x ∈ kept current last l → x ∈ l.
Proof. intros Hx. eapply elem_of_sublist; [exact Hx|apply kept_sublist]. Qed.

(** The current key after an entry is the key of that entry. *)
Lemma current_after current e c : (if same_key current e then current else Some (ukey e.1)) = Some c → uord (ukey e.1) c = Eq.
Proof.
  unfold same_key. destruct current as [u|]; [case_bool_decide|]; intros [= <-]; try done; apply (ord_refl uord).
Qed.
Lemma sorted_after e l x : sorted (iord uord) (e :: l) → x ∈ l →
  uord (ukey e.1) (ukey x.1) = Lt ∨ uord (ukey e.1) (ukey x.1) = Eq ∧ kseq x.1 < kseq e.1.
Proof. intros [Hhd _]%(sorted_cons (iord uord)) Hx. apply (iord_lt_cases uord). by apply Hhd. Qed.

(** Once a visible entry of a key was seen, nothing of that key is kept. *)
Lemma kept_hidden l c last u : sorted (iord uord) l → last ≤ oldest → uord u c = Eq →
  (∀ x, x ∈ l → uord c (ukey x.1) ≠ Gt ∧ (uord c (ukey x.1) = Eq → kseq x.1 ≤ last)) →
  ∀ x, x ∈ kept (Some c) last l → uord (ukey x.1) u ≠ Eq.
Proof.
  revert c last. induction l as [|e l IH]; intros c last Hs Hlast Hu Hc x; [by intros []%elem_of_nil|].
  pose proof (λ x, sorted_after e l x Hs) as Hafter. pose proof Hs as [_ Hs']%(sorted_cons (iord uord)).
  destruct (Hc e) as [Hle Hlt]; [by left|]. cbn [kept same_key]. case_bool_decide as Hsame.
  - apply (ord_eq_sym uord) in Hsame. unfold dropped at 1. rewrite (proj2 (Z.leb_le _ _) Hlast). simpl.
    apply IH; [done| |done|].
    + specialize (Hlt Hsame). lia.
    + intros y Hy. specialize (Hafter y Hy). rewrite (ord_eq_l uord _ _ _ Hsame). destruct Hafter as [->|[-> ?]]; split; try done; lia.
  - assert (uord c (ukey e.1) = Lt) as Hce.
    { destruct (uord c (ukey e.1)) eqn:E; [|done|done]. by apply (ord_eq_sym uord) in E. }
    intros Hx Heq. apply elem_of_app in Hx.
    assert (uord c (ukey x.1) = Lt) as Hcx.
    { destruct Hx as [Hx|Hx%kept_in].
      - destruct (dropped _ e); [by apply elem_of_nil in Hx|]. by apply list_elem_of_singleton in Hx as ->.
      - eapply (ord_lt_le_trans uord); [exact Hce|]. destruct (Hafter x Hx) as [->|[-> _]]; done. }
    rewrite (ord_eq_r uord _ _ _ Heq) in Hcx. apply (ord_eq_sym uord) in Hu. congruence.
Qed.

(** The newest visible entry of a key is kept, or it is a deletion that leaves nothing. *)
Lemma kept_top l current last s u e : sorted (iord uord) l → 0 ≤ oldest ≤ s → oldest < MAX_U64 →
  (∀ c, current = Some c → uord u c = Eq → oldest < last) →
  e ∈ l → uord (ukey e.1) u = Eq → kseq e.1 ≤ s →
  (∀ x, x ∈ l → uord (ukey x.1) u = Eq → kseq x.1 ≤ s → kseq x.1 ≤ kseq e.1) →
  e ∈ kept current last l ∨
  (kind_of e = Deletion ∧ deeper (ukey e.1) = false ∧ ∀ x, x ∈ kept current last l → uord (ukey x.1) u = Eq → s < kseq x.1).
Proof.
  revert current last. induction l as [|h l IH]; intros current last Hs Hold Hmax Hcur He Heu Hes Htop; [by apply elem_of_nil in He|].
  pose proof (λ x, sorted_after h l x Hs) as Hafter. pose proof Hs as [_ Hs']%(sorted_cons (iord uord)). cbn [kept].
  pose proof (current_after current h) as Hca. set (cur' := if same_key current h then current else Some (ukey h.1)) in *.
  apply elem_of_cons in He as [<-|He].
  - (* the head *)
    destruct (dropped (if same_key current e then last else MAX_U64) e) eqn:Hd; [|by left; left]. right. simpl.
    unfold dropped in Hd. apply orb_true_iff in Hd as [Hd|Hd].
    + exfalso. apply Z.leb_le in Hd. unfold same_key in Hd. destruct current as [c|]; [|lia]. case_bool_decide as Hsame; [|lia].
      specialize (Hcur c eq_refl). rewrite <- (ord_eq_l uord _ _ _ Heu) in Hcur. specialize (Hcur Hsame). lia.
    + apply andb_true_iff in Hd as [[Hk%bool_decide_eq_true_1 Hsq%Z.leb_le]%andb_true_iff Hdeep%negb_true_iff].
      split_and!; [done..|]. intros x Hx Hxu. exfalso. assert (∃ c, cur' = Some c) as [c Ec] by (unfold cur', same_key; destruct current; [case_bool_decide|]; eauto).
      rewrite Ec in Hx. specialize (Hca c Ec). apply (kept_hidden l c (kseq e.1) u) in Hx; [done..| |].
      * by rewrite <- (ord_eq_l uord _ _ _ Heu).
      * intros y Hy. rewrite <- (ord_eq_l uord _ _ _ Hca). destruct (Hafter y Hy) as [->|[-> ?]]; split; try done; lia.
  - destruct (decide (uord (ukey h.1) u = Eq)) as [Hhu|Hhu].
    + (* a newer entry of the key that is not visible *)
      assert (s < kseq h.1) as Hinv.
      { destruct (decide (kseq h.1 ≤ s)) as [Hle|]; [exfalso|lia]. specialize (Htop h ltac:(by left) Hhu Hle).
        destruct (Hafter e He) as [Hc|[_ ?]]; [|lia]. rewrite (ord_eq_l uord _ _ _ Hhu) in Hc. apply (ord_eq_sym uord) in Heu. congruence. }
      destruct (IH cur' (kseq h.1)) as [Hin|(Hk & Hdeep & Hno)]; try done.
      * intros c _ _. lia.
      * intros x Hx. apply Htop. by right.
      * left. apply elem_of_app. by right.
      * right. split_and!; [done..|]. intros x [Hx|Hx]%elem_of_app; [|by apply Hno].
        destruct (dropped _ h); [by apply elem_of_nil in Hx|]. by apply list_elem_of_singleton in Hx as ->.
    + destruct (IH cur' (kseq h.1)) as [Hin|(Hk & Hdeep & Hno)]; try done.
      * intros c Hc Hcu. exfalso. apply Hhu. eapply (ord_eq_trans uord); [by apply Hca|]. by apply (ord_eq_sym uord).
      * intros x Hx. apply Htop. by right.
      * left. apply elem_of_app. by right.
      * right. split_and!; [done..|]. intros x [Hx|Hx]%elem_of_app; [|by apply Hno].
        destruct (dropped _ h); [by apply elem_of_nil in Hx|]. by apply list_elem_of_singleton in Hx as ->.
Qed.

(** The newest visible entry of a key, when there is a visible one. *)
Lemma top_visible (l : list entry) s u : (∃ x, x ∈ l ∧ uord (ukey x.1) u = Eq ∧ kseq x.1 ≤ s) →
  ∃ e, e ∈ l ∧ uord (ukey e.1) u = Eq ∧ kseq e.1 ≤ s ∧
    ∀ x, x ∈ l → uord (ukey x.1) u = Eq → kseq x.1 ≤ s → kseq x.1 ≤ kseq e.1.
Proof.
  induction l as [|h l IH]; intros (x & Hx & Hxu & Hxs); [by apply elem_of_nil in Hx|].
  destruct (decide (Exists (λ y : entry, uord (ukey y.1) u = Eq ∧ kseq y.1 ≤ s) l)) as [Hy%Exists_exists|Hno]; [|rewrite Exists_exists in Hno].
  - destruct (IH Hy) as (e & He & Heu & Hes & Hmax).
    destruct (decide (uord (ukey h.1) u = Eq ∧ kseq h.1 ≤ s ∧ kseq e.1 < kseq h.1)) as [(Hhu & Hhs & Hlt)|Hn].
    + exists h. split_and!; [by left|done..|]. intros y [->|Hy']%elem_of_cons Hyu Hys; [done|]. specialize (Hmax y Hy' Hyu Hys). lia.
    + exists e. split_and!; [by right|done..|]. intros y [->|Hy']%elem_of_cons Hyu Hys; [|by apply Hmax].
      destruct (decide (kseq e.1 < kseq h.1)); [exfalso; by apply Hn|lia].
  - exists h. apply elem_of_cons in Hx as [->|Hx]; [|exfalso; apply Hno; eauto]. split_and!; [by left|done..|].
    intros y [->|Hy]%elem_of_cons Hyu Hys; [done|]. exfalso. apply Hno. eauto.
Qed.

(** A reader at or after the oldest snapshot sees the same before and after. *)
Lemma kept_live l deep s u v : sorted (iord uord) l → 0 ≤ oldest ≤ s → oldest < MAX_U64 →
  (∀ x y, x ∈ l → y ∈ deep → uord (ukey x.1) (ukey y.1) = Eq → kseq y.1 < kseq x.1) →
  (∀ x y, x ∈ l → y ∈ deep → uord (ukey x.1) (ukey y.1) = Eq → deeper (ukey x.1) = true) →
  live uord (l ++ deep) s u v ↔ live uord (kept None MAX_U64 l ++ deep) s u v.
Proof.
  intros Hs Hold Hmax Hdeep Hcov.
  pose proof (λ e, kept_top l None MAX_U64 s u e Hs Hold Hmax) as Htop.
  split.
  - intros (x & Hx & Hu & Hv & Hk & Hxs & Htx). assert (uord (ukey x.1) u = Eq) as Hxu by (rewrite Hu; apply (ord_refl uord)).
    apply elem_of_app in Hx as [Hx|Hx].
    + destruct (Htop x) as [Hin|(Hdel & _)]; [done..| |exists x|congruence].
      { intros y Hy. apply Htx. apply elem_of_app. by left. }
      split_and!; try done; [apply elem_of_app; by left|]. intros y Hy. apply Htx. rewrite elem_of_app in Hy |- *.
      destruct Hy as [Hy%kept_in|?]; tauto.
    + exists x. split_and!; try done; [apply elem_of_app; by right|]. intros y Hy. apply Htx. rewrite elem_of_app in Hy |- *.
      destruct Hy as [Hy%kept_in|?]; tauto.
  - intros (x & Hx & Hu & Hv & Hk & Hxs & Htx). assert (uord (ukey x.1) u = Eq) as Hxu by (rewrite Hu; apply (ord_refl uord)).
    assert (x ∈ l ++ deep) as Hxl by (rewrite elem_of_app in Hx |- *; destruct Hx as [Hx%kept_in|?]; tauto).
    exists x. split_and!; try done. intros y Hy Hyu Hys. apply elem_of_app in Hy as [Hy|Hy]; [|apply Htx; [apply elem_of_app; by right|done..]].
    destruct (top_visible l s u) as (e & He & Heu & Hes & Hmaxe); [by eauto|].
    etransitivity; [by apply Hmaxe|]. destruct (Htop e) as [Hin|(Hdel & Hnd & Hno)]; [done..| |].
    + apply Htx; [apply elem_of_app; by left|done..].
    + exfalso. apply elem_of_app in Hx as [Hx|Hx]; [specialize (Hno x Hx Hxu); lia|].
      assert (uord (ukey e.1) (ukey x.1) = Eq) as Hex by (by rewrite Hu). rewrite (Hcov e x He Hx Hex) in Hnd. done.
Qed.
End Kept.

Lemma len_snoc {A} (l : list A) x : len (l ++ [x]) = len l + 1.
Proof. unfold len. rewrite length_app. simpl. lia. Qed.

Lemma foldl_delete level fs e : let e' := foldl (λ e f, delete_file level (fm_number f) e) e fs in
  ve_new_files e' = ve_new_files e ∧ ve_deleted_files e' = ve_deleted_files e ∪ list_to_set ((λ f, (level, fm_number f)) <$> fs).
Proof.
  revert e. induction fs as [|f fs IH]; intros e; simpl; [split; [done|set_solver]|].
  destruct (IH (delete_file level (fm_number f) e)) as [-> ->]. split; [done|]. simpl. set_solver.
Qed.

(** ** The loop writes exactly the kept entries *)
Section Facts.
Context {B : Type} {TS : TableSink B} {I : Type} {IT : Iterator I}.
Context (ck : bool) (ucmp : Comparator) (max_levels : nat) (max_file_size : Z).
Context (uord : bytes → bytes → comparison) (uok : bytes → Prop) {CO : ComparatorOrder ucmp uok uord}.
Context (rep : I → list entry → option nat → Prop) {FL : FwdLaws (iord uord) (ikey_ok uok) rep}.
Context (holds : B → list entry → Prop) {SL : TableSinkLaws (iord uord) (ikey_ok uok) holds}.
Implicit Types (c : Compaction B) (parts : list (list entry)).

(** The metadata of a table that holds [p]. *)
Definition meta_of (f : FileMetaData) (p : list entry) : Prop :=
  ∃ a b, head p = Some a ∧ last p = Some b ∧ ik_data (fm_smallest f) = a.1 ∧ ik_data (fm_largest f) = b.1.

(** The outputs hold [parts]; the builder, if any, has the last of them; the files are
    numbered from [n0]. *)
Record sink_inv (n0 : Z) (c : Compaction B) (next : Z) parts : Prop := {
  sk_tables : Forall2 holds (cp_tables c ++ option_list (cp_builder c)) parts;
  sk_outputs : Forall2 meta_of (cp_outputs c) parts;
  sk_numbers : fm_number <$> cp_outputs c = seqZ n0 (len parts);
  sk_next : next = n0 + len parts;
}.

(** What the loop does not change. *)
Definition same_plan (c c' : Compaction B) : Prop :=
  cp_level c' = cp_level c ∧ cp_input_version c' = cp_input_version c ∧ cp_edit c' = cp_edit c ∧ cp_inputs c' = cp_inputs c ∧
  cp_grand_parents c' = cp_grand_parents c ∧ cp_oldest_snapshot_alive c' = cp_oldest_snapshot_alive c.

Lemma same_plan_trans c1 c2 c3 : same_plan c1 c2 → same_plan c2 c3 → same_plan c1 c3.
Proof. intros (?&?&?&?&?&?) (?&?&?&?&?&?). repeat split; congruence. Qed.

(** The count of the overlapped bytes has 64 bits. *)
Definition gp_inv c : Prop :=
  0 ≤ cp_overlapped_bytes c ∧ Forall (λ f, 0 ≤ fm_file_size f ∧ ikey_ok uok (ik_data (fm_largest f))) (cp_grand_parents c) ∧
  cp_overlapped_bytes c + sizes (drop (cp_grand_parent_index c) (cp_grand_parents c)) < 2 ^ 64.

Lemma skip_grand_parents_ok gps key index seen ov : ikey_ok uok key → 0 ≤ ov →
  Forall (λ f, 0 ≤ fm_file_size f ∧ ikey_ok uok (ik_data (fm_largest f))) gps → ov + sizes gps < 2 ^ 64 →
  ∃ n ov', skip_grand_parents ck ucmp gps key index seen ov = Ok ((index + n)%nat, ov') ∧ 0 ≤ ov' ∧ ov' + sizes (drop n gps) < 2 ^ 64.
Proof.
  intros Hk. revert index ov. induction gps as [|g gps IH]; intros index ov Hov Hg Hlt; cbn [skip_grand_parents].
  { exists 0%nat, ov. by rewrite Nat.add_0_r. }
  apply Forall_cons in Hg as [[Hsz Hgk] Hg]. cbn [sizes foldr] in Hlt. fold (sizes gps) in Hlt.
  assert (0 ≤ sizes gps) by (apply sizes_nonneg; eapply Forall_impl; [exact Hg|naive_solver]).
  rewrite (@compare_ord (InternalKeyComparator ucmp) (ikey_ok uok) (iord uord) _), Ok_bind by done.
  destruct (iord uord key (ik_data (fm_largest g))); [exists 0%nat, ov; by rewrite Nat.add_0_r..|].
  assert (∃ ov1, (if seen then uadd ck 64 ov (fm_file_size g) else Ok ov) = Ok ov1 ∧ 0 ≤ ov1 ∧ ov1 + sizes gps < 2 ^ 64) as (ov1 & -> & H0 & H1).
  { destruct seen; [|exists ov; split_and!; [done..|lia]]. unfold uadd. destruct (Z.ltb_spec (ov + fm_file_size g) (2 ^ 64)); [|lia].
    eexists. split_and!; [done|lia..]. }
  rewrite Ok_bind. destruct (IH (S index) ov1) as (n & ov' & -> & ? & ?); [done..|]. exists (S n), ov'. rewrite Nat.add_succ_r. done.
Qed.

Lemma should_stop_ok c key : gp_inv c → ikey_ok uok key → 0 ≤ 10 * max_file_size < 2 ^ 64 →
  ∃ b c', should_stop_before ck ucmp max_file_size c key = Ok (b, c') ∧ gp_inv c' ∧ same_plan c c' ∧
    cp_outputs c' = cp_outputs c ∧ cp_builder c' = cp_builder c ∧ cp_tables c' = cp_tables c.
Proof.
  intros (Hov & Hg & Hlt) Hk Hm. unfold should_stop_before.
  destruct (skip_grand_parents_ok (drop (cp_grand_parent_index c) (cp_grand_parents c)) key (cp_grand_parent_index c)
    (cp_seen_key c) (cp_overlapped_bytes c)) as (n & ov & -> & Hov' & Hlt'); [done..|by apply Forall_drop|done|]. rewrite Ok_bind.
  unfold max_grandparent_overlap_bytes, umul. destruct (Z.ltb_spec (10 * max_file_size) (2 ^ 64)); [|lia]. rewrite Ok_bind.
  rewrite drop_drop in Hlt'.
  destruct (10 * max_file_size <? ov); eexists _, _; (split; [done|]); (split; [split_and!|by repeat split]); simpl; try done; lia.
Qed.

Lemma finish_ok n0 c next parts : sink_inv n0 c next parts → is_Some (cp_builder c) →
  ∃ c', finish_output_file c (Ok tt) = Ok c' ∧ sink_inv n0 c' next parts ∧ cp_builder c' = None ∧ same_plan c c' ∧ gp_inv c = gp_inv c'.
Proof.
  intros [Ht Ho Hn Hx] [b Hb]. unfold finish_output_file. rewrite Hb in *. cbn [option_list] in Ht.
  apply Forall2_app_inv_l in Ht as (ps & pl & Hts & Hl & ->). apply Forall2_cons_inv_l in Hl as (p & pl' & Hp & Hnil & ->).
  apply Forall2_nil_inv_l in Hnil as ->. apply Forall2_app_inv_r in Ho as (fs & fl & Hfs & Hl & Ho).
  apply Forall2_cons_inv_r in Hl as (f & fl' & Hf & Hnil & ->). apply Forall2_nil_inv_r in Hnil as ->. rewrite Ho in *.
  rewrite last_snoc. destruct (sink_finish_ok b p Hp) as (b' & -> & Hp' & Hck). rewrite !Ok_bind. cbn [fm_number fm_file_size andb].
  rewrite Hck. assert ((if 0 <? sink_num_entries b then Ok tt else Ok tt) = Ok tt) as -> by (by case_match). rewrite Ok_bind.
  eexists. split; [done|]. rewrite length_app, Nat.add_sub, take_app_length. split_and!; [|done|by repeat split|done].
  split; cbn [cp_tables cp_builder cp_outputs with_output option_list].
  - rewrite app_nil_r. apply Forall2_app; [done|]. by constructor.
  - apply Forall2_app; [done|]. constructor; [|constructor]. destruct Hf as (x & y & ?). by exists x, y.
  - rewrite <- Hn, !fmap_app. done.
  - done.
Qed.

Lemma mjoin_snoc (ps : list (list entry)) p : mjoin (ps ++ [p]) = mjoin ps ++ p.
Proof. rewrite join_app. simpl. by rewrite app_nil_r. Qed.

Lemma write_entry_ok n0 c next parts key v : sink_inv n0 c next parts → ikey_ok uok key →
  (∀ e, e ∈ mjoin parts → iord uord e.1 key = Lt) → next + 1 < 2 ^ 64 →
  ∃ c' next' full parts', write_entry ck max_file_size c next key v = Ok (c', next', full) ∧ sink_inv n0 c' next' parts' ∧
    mjoin parts' = mjoin parts ++ [(key, v)] ∧ is_Some (cp_builder c') ∧ same_plan c c' ∧ gp_inv c = gp_inv c' ∧ next ≤ next' ≤ next + 1.
Proof.
  intros [Ht Ho Hn Hx] Hk Hlt Hnext. unfold write_entry. destruct (cp_builder c) as [b|] eqn:Hb; cbn [option_list] in Ht.
  - rewrite Ok_bind, Hb.
    apply Forall2_app_inv_l in Ht as (ps & pl & Hts & Hl & ->). apply Forall2_cons_inv_l in Hl as (p & pl' & Hp & Hnil & ->).
    apply Forall2_nil_inv_l in Hnil as ->. apply Forall2_app_inv_r in Ho as (fs & fl & Hfs & Hl & Ho).
    apply Forall2_cons_inv_r in Hl as (f & fl' & Hf & Hnil & ->). apply Forall2_nil_inv_r in Hnil as ->. rewrite Ho in *.
    rewrite mjoin_snoc in Hlt. destruct Hf as (a & z & Ha & Hz & Hsa & Hlz).
    rewrite (sink_entries_ok b p Hp). destruct (len p =? 0) eqn:E0; [apply Z.eqb_eq in E0; by destruct p|].
    unfold set_bounds. rewrite last_snoc, Ok_bind, length_app, Nat.add_sub, take_app_length.
    destruct (sink_add_ok b p key v Hp Hk) as (b' & -> & Hp'); [intros e He; apply Hlt, elem_of_app; by right|]. rewrite Ok_bind.
    eexists _, _, _, (ps ++ [p ++ [(key, v)]]). split; [done|]. split_and!; [|by rewrite !mjoin_snoc, app_assoc|by eexists|by repeat split|done|lia..].
    split; cbn [cp_tables cp_builder cp_outputs with_output option_list].
    + apply Forall2_app; [done|]. by constructor.
    + apply Forall2_app; [done|]. constructor; [|constructor]. exists a, (key, v). rewrite last_snoc.
      split_and!; [by destruct p|done..].
    + rewrite len_snoc in *. rewrite <- Hn, !fmap_app. done.
    + rewrite len_snoc in *. done.
  - rewrite app_nil_r in Ht. unfold uadd. destruct (Z.ltb_spec (next + 1) (2 ^ 64)); [|lia]. rewrite Ok_bind.
    unfold create_compaction_output_file. rewrite Hb. destruct (sink_create_ok next) as (b & -> & Hbe). rewrite !Ok_bind.
    cbn [cp_builder cp_outputs cp_tables with_output]. assert (sink_num_entries b =? 0 = true) as -> by (by rewrite (sink_entries_ok b [] Hbe)).
    unfold set_bounds. rewrite last_snoc, Ok_bind, length_app, Nat.add_sub, take_app_length.
    destruct (sink_add_ok b [] key v Hbe Hk) as (b' & -> & Hp'); [by intros e []%elem_of_nil|]. rewrite Ok_bind.
    eexists _, _, _, (parts ++ [[(key, v)]]). split; [done|]. split_and!; [|by rewrite mjoin_snoc|by eexists|by repeat split|done|lia..].
    split; cbn [cp_tables cp_builder cp_outputs with_output option_list].
    + apply Forall2_app; [done|]. by constructor.
    + apply Forall2_app; [done|]. constructor; [|constructor]. by exists (key, v), (key, v).
    + rewrite fmap_app, Hn, len_snoc, seqZ_app by (pose proof (len_nonneg parts); lia). simpl.
      rewrite Hx. done.
    + rewrite len_snoc. lia.
Qed.

(** ** Deeper levels *)

Lemma key_in_level_ok files k : Forall (file_ok uok uord) files → disjoint_files uord files → uok k →
  key_in_level ucmp files k = Ok (existsb (overlaps uord (Some k) (Some k)) files).
Proof.
  intros Hf. induction Hf as [|f files Hfo Hf IH]; intros Hd Hk; [done|]. cbn [key_in_level existsb].
  rewrite (user_key_ok uok _ (fo_largest uok uord f Hfo)), Ok_bind, compare_ord, Ok_bind by (done || apply Hfo).
  assert (disjoint_files uord files) as Hd' by (intros i j a b Hij; apply (Hd (S i) (S j)); lia).
  unfold overlaps at 1. cbn [not_after not_before]. rewrite (ord_opp uord k (ukey (ik_data (fm_largest f)))).
  destruct (uord k (ukey (ik_data (fm_largest f)))) eqn:Hkl; cbn [CompOpp]; [rewrite bool_decide_eq_true_2 by done; cbn [andb]..|].
  3:{ rewrite bool_decide_eq_false_2 by naive_solver. cbn [andb orb]. by apply IH. }
  all: rewrite (user_key_ok uok _ (fo_smallest uok uord f Hfo)), Ok_bind, compare_ord, Ok_bind by (done || apply Hfo); f_equal;
    rewrite (ord_opp uord k (ukey (ik_data (fm_smallest f)))); destruct (uord k (ukey (ik_data (fm_smallest f)))) eqn:Hks; cbn [CompOpp];
    [rewrite !bool_decide_eq_true_2 by done; done| |rewrite !bool_decide_eq_true_2 by done; done];
    rewrite !bool_decide_eq_false_2 by naive_solver; cbn [orb]; symmetry; apply not_true_is_false; rewrite existsb_exists;
    intros (g & Hg%list_elem_of_In & Ho); apply list_elem_of_lookup in Hg as [i Hi];
    pose proof (Hd 0%nat (S i) f g ltac:(lia) eq_refl Hi) as Hfg; unfold overlaps in Ho; apply andb_true_iff in Ho as [_ Hb];
    cbn [not_before] in Hb; apply bool_decide_eq_true_1 in Hb; apply Hb; apply (ord_gt_lt uord);
    eapply (ord_lt_le_trans uord); [exact Hks|]; apply (iord_uord_le uord); rewrite (ord_le_lt_trans (iord uord) _ (ik_data (fm_largest f)));
    [done|apply Hfo|done].
Qed.

(** Some file below the output level may have the key. *)
Definition in_deeper (levels : list (list FileMetaData)) (level : nat) (k : bytes) : bool :=
  existsb (λ fs, existsb (overlaps uord (Some k) (Some k)) fs) (drop (level + 2) levels).

Lemma key_in_levels_ok n levels level k : levels_ok uok uord levels → (level + n)%nat = length levels → (0 < level)%nat → uok k →
  key_in_levels ucmp n levels level k = Ok (existsb (λ fs, existsb (overlaps uord (Some k) (Some k)) fs) (drop level levels)).
Proof.
  intros Hlv. revert level. induction n as [|n IH]; intros level Hn Hl Hk; cbn [key_in_levels].
  { by rewrite drop_ge by lia. }
  destruct (lookup_lt_is_Some_2 levels level) as [fs Hfs]; [lia|]. unfold index. rewrite Hfs, Ok_bind, (drop_S _ _ _ Hfs). cbn [existsb].
  rewrite key_in_level_ok, Ok_bind; [|by eapply lo_files|eapply lo_disjoint; [done..|lia]|done].
  destruct (existsb (overlaps uord (Some k) (Some k)) fs); [done|]. apply IH; [lia..|done].
Qed.
Lemma key_exist_ok c k : levels_ok uok uord (cp_input_version c) → length (cp_input_version c) = max_levels → uok k →
  key_exist_in_deeper_level ucmp max_levels c k = Ok (in_deeper (cp_input_version c) (cp_level c) k).
Proof.
  intros Hlv Hlen Hk. unfold key_exist_in_deeper_level, in_deeper.
  destruct (decide (cp_level c + 2 ≤ max_levels)%nat).
  - apply key_in_levels_ok; [done|lia..|done].
  - replace (max_levels - (cp_level c + 2))%nat with 0%nat by lia. by rewrite drop_ge by lia.
Qed.

Lemma drops_ok c last e : levels_ok uok uord (cp_input_version c) → length (cp_input_version c) = max_levels → db_entry uok e →
  drops ucmp max_levels c last (mkParsed (ukey e.1) (kseq e.1) (kind_of e)) =
    Ok (dropped (cp_oldest_snapshot_alive c) (in_deeper (cp_input_version c) (cp_level c)) last e).
Proof.
  intros Hlv Hlen [[_ Hu] _]. unfold drops, dropped. cbn [pk_seq pk_value_type pk_user_key].
  destruct (last <=? cp_oldest_snapshot_alive c); [done|]. cbn [orb].
  destruct (bool_decide (kind_of e = Deletion) && (kseq e.1 <=? cp_oldest_snapshot_alive c)); [|done].
  by rewrite key_exist_ok.
Qed.

(** ** The loop *)

Lemma child_status it l r : child_at rep it l r → ∃ it', it_status it = (Ok tt, it') ∧ child_at rep it' l r.
Proof.
  intros (p & Hr & Hrest). destruct (rep_status (iord uord) (ikey_ok uok) it l p Hr) as (it' & Hs & Hr'). exists it'. split; [done|].
  by exists p.
Qed.

Lemma db_entry_decode e : db_entry uok e → decode_from e.1 = Some (mkParsed (ukey e.1) (kseq e.1) (kind_of e)).
Proof.
  intros [[Hlen _] Hk]. rewrite decode_from_spec, bool_decide_eq_false_2 by lia. unfold kind_of in *. by destruct (value_type_from _).
Qed.

(** One turn: the entry is written when it is kept. *)
Lemma turn_ok n0 it c next parts current last l e r : child_at rep it l (e :: r) → db_entry uok e → sink_inv n0 c next parts → gp_inv c →
  levels_ok uok uord (cp_input_version c) → length (cp_input_version c) = max_levels → 0 ≤ 10 * max_file_size < 2 ^ 64 →
  (∀ x, x ∈ mjoin parts → iord uord x.1 e.1 = Lt) → next + 1 < 2 ^ 64 → (∀ u, current = Some u → uok u) →
  let same := same_key uord current e in
  ∃ it' c' next' parts', (∀ fuel, compaction_loop ck ucmp max_levels max_file_size (S fuel) it c next current last =
      compaction_loop ck ucmp max_levels max_file_size fuel it' c' next' (if same then current else Some (ukey e.1)) (kseq e.1)) ∧
    child_at rep it' l r ∧ sink_inv n0 c' next' parts' ∧ gp_inv c' ∧ same_plan c c' ∧ next ≤ next' ≤ next + 1 ∧
    mjoin parts' = mjoin parts ++
      (if dropped (cp_oldest_snapshot_alive c) (in_deeper (cp_input_version c) (cp_level c)) (if same then last else MAX_U64) e then [] else [e]).
Proof.
  intros Hc He Hsk Hgp Hlv Hlen Hm Hlt Hnext Hcur same. destruct (He) as [[Hl8 Hue] _].
  destruct (child_status it l _ Hc) as (it1 & Hst1 & Hc1).
  destruct (child_head (iord uord) (ikey_ok uok) rep it1 l e r Hc1) as (Hkey & Hval & _).
  destruct (should_stop_ok c e.1 Hgp) as (stop & c1 & Hstop & Hgp1 & Hplan1 & Ho1 & Hb1 & Ht1); [by split|done|].
  assert (sink_inv n0 c1 next parts) as Hsk1 by (destruct Hsk; split; congruence).
  (* finishing the current output first *)
  assert (∃ c2, (if stop && bool_decide (is_Some (cp_builder c1)) then finish_output_file c1 (Ok tt) else Ok c1) = Ok c2 ∧
    sink_inv n0 c2 next parts ∧ gp_inv c2 ∧ same_plan c1 c2) as (c2 & Hfin & Hsk2 & Hgp2 & Hplan2).
  { destruct stop; [|exists c1; split_and!; [done..|by repeat split]]. simpl. case_bool_decide as Hb; [|exists c1; split_and!; [done..|by repeat split]].
    destruct (finish_ok n0 c1 next parts Hsk1 Hb) as (c2 & -> & Hsk2 & _ & Hplan2 & Hgpe). exists c2. split_and!; [done..| |done].
    by rewrite <- Hgpe. }
  pose proof (same_plan_trans _ _ _ Hplan1 Hplan2) as Hplan. pose proof Hplan as (Hlv2 & Hiv2 & _ & _ & _ & Hos2).
  assert ((match current with Some u => o ← @compare ucmp (ukey e.1) u; Ok (bool_decide (o = Eq)) | None => Ok false end) = Ok same) as Hsame.
  { unfold same, same_key. destruct current as [u|]; [|done]. rewrite compare_ord; [done|done|by apply Hcur]. }
  set (last' := if same then last else MAX_U64).
  assert (drops ucmp max_levels c2 last' (mkParsed (ukey e.1) (kseq e.1) (kind_of e)) =
    Ok (dropped (cp_oldest_snapshot_alive c) (in_deeper (cp_input_version c) (cp_level c)) last' e)) as Hdr.
  { rewrite drops_ok; [by rewrite Hlv2, Hiv2, Hos2|by rewrite Hiv2|by rewrite Hiv2|done]. }
  destruct (dropped (cp_oldest_snapshot_alive c) (in_deeper (cp_input_version c) (cp_level c)) last' e) eqn:Edr.
  - destruct (child_head (iord uord) (ikey_ok uok) rep it1 l e r Hc1) as (_ & _ & it2 & Hnx & Hc2).
    exists it2, c2, next, parts. split_and!; try done; [|lia|by rewrite app_nil_r].
    intros fuel. cbn [compaction_loop]. rewrite (child_valid (iord uord) (ikey_ok uok) rep it l _ Hc), Hst1, Hkey, Ok_bind, Hstop, Ok_bind, Hfin, Ok_bind.
    rewrite db_entry_decode by done. cbn [pk_user_key pk_seq]. rewrite Hsame, Ok_bind. fold last'. rewrite Hdr, !Ok_bind. rewrite Hnx, Ok_bind. done.
  - destruct (write_entry_ok n0 c2 next parts e.1 e.2 Hsk2) as (c3 & next3 & full & parts3 & Hw & Hsk3 & Hj & Hb3 & Hplan3 & Hgpe & Hn3); [by split|done..|].
    (* finishing a full output *)
    assert (∃ it3 c4, (if full then it_status it1 else (Ok tt, it1)) = (Ok tt, it3) ∧ (if full then finish_output_file c3 (Ok tt) else Ok c3) = Ok c4 ∧
      child_at rep it3 l (e :: r) ∧ sink_inv n0 c4 next3 parts3 ∧ gp_inv c4 ∧ same_plan c3 c4) as (it3 & c4 & Hst3 & Hf4 & Hc3 & Hsk4 & Hgp4 & Hplan4).
    { destruct full.
      - destruct (child_status it1 l _ Hc1) as (it3 & Hst3 & Hc3). destruct (finish_ok n0 c3 next3 parts3 Hsk3 Hb3) as (c4 & Hf & Hsk4 & _ & Hplan4 & Hgp4).
        exists it3, c4. split_and!; try done. by rewrite <- Hgp4, <- Hgpe.
      - exists it1, c3. split_and!; try done. by rewrite <- Hgpe. }
    destruct (child_head (iord uord) (ikey_ok uok) rep it3 l e r Hc3) as (_ & _ & it4 & Hnx & Hc4).
    exists it4, c4, next3, parts3. split_and!; try done; [|by eapply same_plan_trans; [|eapply same_plan_trans]|lia|lia|by rewrite Hj, <- surjective_pairing].
    intros fuel. cbn [compaction_loop]. rewrite (child_valid (iord uord) (ikey_ok uok) rep it l _ Hc), Hst1, Hkey, Ok_bind, Hstop, Ok_bind, Hfin, Ok_bind.
    rewrite db_entry_decode by done. cbn [pk_user_key pk_seq]. rewrite Hsame, Ok_bind. fold last'. rewrite Hdr, Ok_bind, Hval, Ok_bind, Hw, Ok_bind.
    rewrite Hst3, Hf4, !Ok_bind, Hnx, Ok_bind. done.
Qed.

Lemma compaction_loop_ok fuel n0 it c next parts current last l r : child_at rep it l r → Forall (db_entry uok) r → sorted (iord uord) r →
  sink_inv n0 c next parts → gp_inv c → levels_ok uok uord (cp_input_version c) → length (cp_input_version c) = max_levels →
  0 ≤ 10 * max_file_size < 2 ^ 64 → (∀ x y, x ∈ mjoin parts → y ∈ r → iord uord x.1 y.1 = Lt) → next + len r < 2 ^ 64 →
  (∀ u, current = Some u → uok u) → (length r ≤ fuel)%nat →
  ∃ it' c' next' parts', compaction_loop ck ucmp max_levels max_file_size fuel it c next current last = Ok (it', c', next') ∧
    child_at rep it' l [] ∧ sink_inv n0 c' next' parts' ∧ same_plan c c' ∧
    mjoin parts' = mjoin parts ++ kept uord (cp_oldest_snapshot_alive c) (in_deeper (cp_input_version c) (cp_level c)) current last r.
Proof.
  revert fuel it c next parts current last. induction r as [|e r IH]; intros fuel it c next parts current last Hc Hr Hs Hsk Hgp Hlv Hlen Hm Hlt Hn Hcur Hf.
  { exists it, c, next, parts. rewrite app_nil_r. split_and!; try done.
    destruct fuel; cbn [compaction_loop]; by rewrite (child_valid (iord uord) (ikey_ok uok) rep it l _ Hc). }
  destruct fuel as [|fuel]; [simpl in Hf; lia|]. apply Forall_cons in Hr as [He Hr]. apply (sorted_cons (iord uord)) in Hs as [Hhd Hs].
  rewrite len_cons in Hn. pose proof (len_nonneg r).
  destruct (turn_ok n0 it c next parts current last l e r) as (it1 & c1 & next1 & parts1 & Hloop & Hc1 & Hsk1 & Hgp1 & Hplan1 & Hn1 & Hj1); try done.
  { intros x Hx. apply Hlt; [done|by left]. } { lia. }
  rewrite Hloop. destruct (Hplan1) as (Hl1 & Hv1 & _ & _ & _ & Ho1).
  destruct (IH fuel it1 c1 next1 parts1 (if same_key uord current e then current else Some (ukey e.1)) (kseq e.1))
    as (it2 & c2 & next2 & parts2 & Hrun & Hc2 & Hsk2 & Hplan2 & Hj2); try done; [by rewrite Hv1|by rewrite Hv1| |lia| |simpl in Hf; lia|].
  - rewrite Hj1. intros x y Hx Hy. apply elem_of_app in Hx as [Hx|Hx]; [apply Hlt; [done|by right]|].
    destruct (dropped _ _ _ e); [by apply elem_of_nil in Hx|]. apply list_elem_of_singleton in Hx as ->. by apply Hhd.
  - intros u Hu. destruct (same_key uord current e); [by apply Hcur|]. injection Hu as <-. apply He.
  - exists it2, c2, next2, parts2. split_and!; try done; [by eapply same_plan_trans|]. rewrite Hj2, Hj1, Hv1, Hl1, Ho1. cbn [kept]. by rewrite app_assoc.
Qed.

(** The outputs, in order, are disjoint. *)
Lemma outputs_disjoint fs parts : Forall2 meta_of fs parts → sorted (iord uord) (mjoin parts) → disjoint_files uord fs.
Proof.
  intros Hm Hs i j a b Hij Ha Hb.
  destruct (Forall2_lookup_l _ _ _ _ _ Hm Ha) as (p & Hp & (_ & x & _ & Hx & _ & Hax)).
  destruct (Forall2_lookup_l _ _ _ _ _ Hm Hb) as (q & Hq & (y & _ & Hy & _ & Hby & _)). rewrite Hax, Hby.
  assert (∃ l1 l2 l3, mjoin parts = (l1 ++ p) ++ l2 ++ q ++ l3) as (l1 & l2 & l3 & Hj).
  { rewrite <- (take_drop_middle parts i p Hp), join_app. exists (mjoin (take i parts)).
    assert (drop (S i) parts !! (j - S i)%nat = Some q) as Hq' by (rewrite lookup_drop; by replace (S i + (j - S i))%nat with j by lia).
    simpl. rewrite <- (take_drop_middle _ _ _ Hq'), join_app. simpl.
    exists (mjoin (take (j - S i) (drop (S i) parts))), (mjoin (drop (S (j - S i)) (drop (S i) parts))). by rewrite <- !app_assoc. }
  apply last_Some in Hx as (p' & ->). apply head_Some in Hy as (q' & ->).
  rewrite Hj in Hs. apply (Hs (length l1 + length p')%nat (length (l1 ++ p' ++ [x]) + length l2)%nat).
  - rewrite !length_app. simpl. lia.
  - rewrite lookup_app_l by (rewrite !length_app; simpl; lia). rewrite lookup_app_r by lia. rewrite lookup_app_r by lia.
    by replace (length l1 + length p' - length l1 - length p')%nat with 0%nat by lia.
  - rewrite lookup_app_r by lia. rewrite Nat.add_comm, Nat.add_sub, lookup_app_r by lia. by rewrite Nat.sub_diag.
Qed.

Lemma do_compaction_ok it c next l : rep it l None → sorted (iord uord) l → Forall (db_entry uok) l →
  cp_outputs c = [] → cp_builder c = None → cp_tables c = [] → gp_inv c →
  levels_ok uok uord (cp_input_version c) → length (cp_input_version c) = max_levels → 0 ≤ 10 * max_file_size < 2 ^ 64 → next + len l < 2 ^ 64 →
  ∃ c' parts fs, do_compaction ck ucmp max_levels max_file_size (length l) it c next = Ok (c', next + len parts, true) ∧
    mjoin parts = kept uord (cp_oldest_snapshot_alive c) (in_deeper (cp_input_version c) (cp_level c)) None MAX_U64 l ∧
    Forall2 holds (cp_tables c') parts ∧ Forall2 meta_of fs parts ∧ fm_number <$> fs = seqZ next (len parts) ∧
    cp_edit c' = cp_edit (apply_to_edit (with_edit c (cp_edit c) fs)).
Proof.
  intros Hrep Hs Hl Ho Hb Ht Hgp Hlv Hlen Hm Hn. unfold do_compaction.
  destruct (rep_seek_to_first (iord uord) (ikey_ok uok) it l None Hrep) as (it1 & -> & Hr1). rewrite Ok_bind.
  assert (child_at rep it1 l l) as Hc1 by (exists (first_pos l); by rewrite rest_first).
  destruct (compaction_loop_ok (length l) next it1 c next [] None MAX_U64 l l) as (it2 & c2 & next2 & parts & -> & Hc2 & Hsk2 & Hplan2 & Hj); try done.
  { split; rewrite ?Ho, ?Ht, ?Hb; try done; [constructor..|]. rewrite len_nil. lia. }
  { by intros x y []%elem_of_nil. }
  rewrite Ok_bind. simpl in Hj.
  assert (∃ it3 c3, (if bool_decide (is_Some (cp_builder c2)) then it_status it2 else (Ok tt, it2)) = (Ok tt, it3) ∧
    (if bool_decide (is_Some (cp_builder c2)) then finish_output_file c2 (Ok tt) else Ok c2) = Ok c3 ∧ child_at rep it3 l [] ∧
    sink_inv next c3 next2 parts ∧ cp_builder c3 = None ∧ same_plan c2 c3) as (it3 & c3 & -> & -> & Hc3 & Hsk3 & Hb3 & Hplan3).
  { case_bool_decide as Hbs.
    - destruct (child_status it2 l _ Hc2) as (it3 & -> & Hc3). destruct (finish_ok next c2 next2 parts Hsk2 Hbs) as (c3 & -> & Hsk3 & Hb3 & Hp3 & _).
      by exists it3, c3.
    - exists it2, c2. split_and!; try done. by apply eq_None_not_Some. }
  rewrite Ok_bind. destruct (child_status it3 l _ Hc3) as (it4 & -> & _). cbn [fst].
  pose proof (same_plan_trans _ _ _ Hplan2 Hplan3) as (Hl3 & Hv3 & He3 & Hi3 & _ & _).
  destruct Hsk3 as [Ht3 Ho3 Hn3 Hx3]. rewrite Hb3, app_nil_r in Ht3. subst next2.
  exists (apply_to_edit c3), parts, (cp_outputs c3). split_and!; try done.
  unfold apply_to_edit. cbn [cp_edit with_edit cp_level cp_inputs cp_outputs]. by rewrite Hl3, He3, Hi3.
Qed.
End Facts.

Lemma sorted_sublist (ord : bytes → bytes → comparison) {KO : KeyOrder ord} l k : sorted ord l → k `sublist_of` l → sorted ord k.
Proof.
  intros Hs Hsub. revert Hs. induction Hsub as [|e k l Hsub IH|e k l Hsub IH]; intros Hs; [done|..]; apply (sorted_cons ord) in Hs as [Hhd Hs].
  - apply (sorted_cons ord). split; [|by apply IH]. intros x Hx. apply Hhd. by eapply elem_of_sublist.
  - by apply IH.
Qed.

(** ** The entries of the deeper levels *)
Section Deep.
Context (uord : bytes → bytes → comparison) {KO : KeyOrder uord}.

(** [deep] lies below the output level: in the files of the levels from [level + 2]
    on, and older than the entries of the same key in [l]. *)
Record below_level (levels : list (list FileMetaData)) (level : nat) (l deep : list entry) : Prop := {
  bl_covered (y : entry) : y ∈ deep → ∃ j fs f, (level + 2 ≤ j)%nat ∧ levels !! j = Some fs ∧ f ∈ fs ∧
    overlaps uord (Some (ukey y.1)) (Some (ukey y.1)) f = true;
  bl_older (x y : entry) : x ∈ l → y ∈ deep → uord (ukey x.1) (ukey y.1) = Eq → kseq y.1 < kseq x.1;
}.

Lemma below_in_deeper levels level l deep (x y : entry) : below_level levels level l deep → y ∈ deep → uord (ukey x.1) (ukey y.1) = Eq →
  in_deeper uord levels level (ukey x.1) = true.
Proof.
  intros [Hcov _] Hy Hxy. destruct (Hcov y Hy) as (j & fs & f & Hj & Hfs & Hf & Ho). unfold in_deeper.
  apply existsb_exists. exists fs. rewrite <- list_elem_of_In. split.
  - apply (list_elem_of_lookup_2 _ (j - (level + 2))%nat). rewrite lookup_drop. by replace (level + 2 + (j - (level + 2)))%nat with j by lia.
  - apply existsb_exists. exists f. rewrite <- list_elem_of_In. split; [done|]. unfold overlaps, not_after, not_before in *.
    by rewrite !(ord_eq_r uord _ _ _ Hxy).
Qed.
End Deep.

(** A table in memory, as a sink: its size is one more than the number of bytes added. *)
Definition entries_size (es : list entry) : Z := foldr (λ e s, len e.1 + len e.2 + s) 1 es.
Lemma entries_size_pos es : 0 < entries_size es.
Proof. unfold entries_size. induction es as [|e es IH]; cbn [foldr]; [done|]. pose proof (len_nonneg e.1). pose proof (len_nonneg e.2). lia. Qed.
#[export] Instance ListSink : TableSink (list entry) := {|
  sink_create _ := Ok [];
  sink_add b k v := Ok (b ++ [(k, v)]);
  sink_num_entries b := len b;
  sink_file_size b := entries_size b;
  sink_finish b := Ok b;
  sink_check _ _ _ := Ok tt;
|}.
Lemma list_sink_laws ord key_ok : TableSinkLaws ord key_ok (λ b es, b = es).
Proof. split; simpl; intros; subst; eauto. Qed.

(** ** Properties *)


(** Three keys at oldest snapshot 6: of [1] the version 4 is still visible to it, 2 is
    not; the deletion of [2] hides an entry of level 2 and stays; [3] is deleted. *)
Definition sample_input : list entry :=
  [(ikey [1] 9 Value, [19]); (ikey [1] 4 Value, [14]); (ikey [1] 2 Value, [12]); (ikey [2] 5 Deletion, []); (ikey [2] 3 Value, [23]);
   (ikey [3] 6 Deletion, []); (ikey [3] 1 Value, [31])].
Definition sample_deep : list entry := [(ikey [2] 2 Value, [22])].
Definition sample_compaction : Compaction (list entry) :=
  mkCompaction MaxSize 0 [[]; []; [sample_file 1 10 [2] [2; 5]]] (ve_new 3) (mkInputs [sample_file 4 10 [1] [3]] []) [] 0 false 0 6 [] None [].

