(* ===== verification/CompactPick.v ===== *)
(** * Choosing the inputs of a compaction

    [base_range] and [total_range] of [src/compaction.rs], and of
    [src/version/version_set.rs] the boundary files, [setup_other_inputs],
    [compact_range] and [pick_compaction].  The state of the version set they use is
    the files of the current version and the compaction pointers. *)
From stdpp Require Import gmap sorting.
From S2P Require Import Prelude Coding Comparator Format VersionEdit Version Iterator KMerge DbIter Compaction.
Open Scope Z_scope.

Section Pick.
Context {B : Type} (ck : bool) (ucmp : Comparator) (max_levels : nat) (max_file_size : Z).
Notation icmp := (InternalKeyComparator ucmp).
Notation compaction := (Compaction B).

Definition icmp_is (c : comparison) (a b : InternalKey) : outcome bool :=
  r ← @compare icmp (ik_data a) (ik_data b); Ok (bool_decide (r = c)).

(** ** Key ranges *)

(** The loop over the files of level 0. *)
Fixpoint widen_range (files : list FileMetaData) (smallest largest : InternalKey) : outcome (InternalKey * InternalKey) :=
  match files with
  | [] => Ok (smallest, largest)
  | f :: files =>
    s ← icmp_is Lt (fm_smallest f) smallest;
    l ← icmp_is Gt (fm_largest f) largest;
    widen_range files (if (s : bool) then fm_smallest f else smallest) (if (l : bool) then fm_largest f else largest)
  end.
Definition base_range (files : list FileMetaData) (level : nat) : outcome (InternalKey * InternalKey) :=
  match files, last files with
  | f :: files', Some z =>
    if (level =? 0)%nat then widen_range files' (fm_smallest f) (fm_largest f)
    else Ok (fm_smallest f, fm_largest z)
  | _, _ => Panic
  end.
Definition total_range (current_l_files next_l_files : list FileMetaData) (level : nat) : outcome (InternalKey * InternalKey) :=
  r ← base_range current_l_files level;
  let '(smallest, largest) := r in
  match next_l_files, last next_l_files with
  | first :: _, Some z =>
    s ← icmp_is Lt (fm_smallest first) smallest;
    l ← icmp_is Gt (fm_largest z) largest;
    Ok (if (s : bool) then fm_smallest first else smallest, if (l : bool) then fm_largest z else largest)
  | _, _ => Ok (smallest, largest)
  end.

(** ** Boundary files *)

Fixpoint find_boundary (level_files : list FileMetaData) (largest_key : InternalKey) (best : option FileMetaData)
    : outcome (option FileMetaData) :=
  match level_files with
  | [] => Ok best
  | f :: level_files =>
    gt ← icmp_is Gt (fm_smallest f) largest_key;
    same ← (if (gt : bool) then
              a ← ikey_user_key (fm_smallest f); b ← ikey_user_key largest_key; is_cmp ucmp Eq a b
            else Ok false);
    if (same : bool) then
      match best with
      | None => find_boundary level_files largest_key (Some f)
      | Some current =>
        lt ← icmp_is Lt (fm_smallest f) (fm_smallest current);
        find_boundary level_files largest_key (if (lt : bool) then Some f else best)
      end
    else find_boundary level_files largest_key best
  end.
Definition find_smallest_boundary_file (level_files : list FileMetaData) (largest_key : InternalKey) : outcome (option FileMetaData) :=
  find_boundary level_files largest_key None.

(** The file with the largest key. *)
Fixpoint largest_file (files : list FileMetaData) (tmp : FileMetaData) : outcome FileMetaData :=
  match files with
  | [] => Ok tmp
  | f :: files => gt ← icmp_is Gt (fm_largest f) (fm_largest tmp); largest_file files (if (gt : bool) then f else tmp)
  end.
(** Every turn moves the largest key past a file, so there are at most as many turns
    as files. *)
Fixpoint boundary_loop (fuel : nat) (level_files : list FileMetaData) (largest_key : InternalKey) (result : list FileMetaData)
    : outcome (list FileMetaData) :=
  match fuel with
  | O => OutOfFuel
  | S fuel =>
    b ← find_smallest_boundary_file level_files largest_key;
    match b with
    | Some f => boundary_loop fuel level_files (fm_largest f) (result ++ [f])
    | None => Ok result
    end
  end.
Definition add_boundary_inputs_for_compact_files (level_files files_to_compact : list FileMetaData) : outcome (list FileMetaData) :=
  match files_to_compact with
  | [] => Ok []
  | f :: fs =>
    tmp ← largest_file fs f;
    boundary_loop (S (length level_files)) level_files (fm_largest tmp) files_to_compact
  end.

(** ** [setup_other_inputs] *)

Definition expanded_compaction_byte_size_limit : outcome Z := umul ck 25 max_file_size.

Definition with_inputs (c : compaction) (inputs : CompactionInputs) (grand_parents : list FileMetaData) (edit : VersionEdit) : compaction :=
  mkCompaction (cp_reason c) (cp_level c) (cp_input_version c) edit inputs grand_parents (cp_grand_parent_index c) (cp_seen_key c)
    (cp_overlapped_bytes c) (cp_oldest_snapshot_alive c) (cp_outputs c) (cp_builder c) (cp_tables c).
Definition push_pointer_edit (p : Z * InternalKey) (e : VersionEdit) : VersionEdit :=
  mkEdit (ve_max_levels e) (ve_comparator_name e) (ve_log_number e) (ve_prev_log_number e) (ve_next_file_number e)
    (ve_last_sequence e) (ve_compaction_pointers e ++ [p]) (ve_deleted_files e) (ve_new_files e).

(** Growing the inputs of the level without taking more files of the next one. *)
Definition expand_inputs (files : list (list FileMetaData)) (level : nat) (not_expand overlapping_next_level : list FileMetaData)
    (all_smallest all_largest : InternalKey) : outcome (list FileMetaData * list FileMetaData) :=
  expanded0 ← get_overlapping_inputs ucmp files level (Some all_smallest) (Some all_largest);
  level_files ← index files level;
  expanded0 ← add_boundary_inputs_for_compact_files level_files expanded0;
  expanded0_size ← total_file_size ck expanded0;
  _ ← total_file_size ck not_expand;
  next_size ← total_file_size ck overlapping_next_level;
  fits ← (if (length not_expand <? length expanded0)%nat then
            sum ← uadd ck 64 next_size expanded0_size;
            limit ← expanded_compaction_byte_size_limit;
            Ok (sum <=? limit)
          else Ok false);
  if (fits : bool) then
    r ← base_range expanded0 level;
    let '(new_smallest, new_largest) := r in
    expanded_next ← get_overlapping_inputs ucmp files (level + 1) (Some new_smallest) (Some new_largest);
    if (length expanded_next =? length overlapping_next_level)%nat then Ok (expanded0, expanded_next)
    else Ok (expanded0, overlapping_next_level)
  else Ok (expanded0, overlapping_next_level).

Definition setup_other_inputs (files : list (list FileMetaData)) (pointers : list InternalKey) (c : compaction)
    : outcome (compaction * list InternalKey) :=
  let level := cp_level c in
  level_files ← index files level;
  not_expand ← add_boundary_inputs_for_compact_files level_files (ci_base (cp_inputs c));
  r ← base_range not_expand level;
  let '(smallest, largest) := r in
  overlapping_next_level ← get_overlapping_inputs ucmp files (level + 1) (Some smallest) (Some largest);
  r ← total_range not_expand overlapping_next_level level;
  let '(all_smallest, all_largest) := r in
  r ← match overlapping_next_level with
      | [] => Ok (not_expand, [])
      | _ => expand_inputs files level not_expand overlapping_next_level all_smallest all_largest
      end;
  let '(current_files, next_files) := r in
  r ← total_range current_files next_files level;
  let '(final_smallest, final_largest) := r in
  grand_parents ← (if (level + 2 <? max_levels)%nat
                   then get_overlapping_inputs ucmp files (level + 2) (Some final_smallest) (Some final_largest)
                   else Ok (cp_grand_parents c));
  _ ← index pointers level;
  Ok (with_inputs c (mkInputs current_files next_files) grand_parents (push_pointer_edit (Z.of_nat level, final_largest) (cp_edit c)),
      <[level := final_largest]> pointers).

(** [is_trivial_move] *)
Definition is_trivial_move (c : compaction) : outcome bool :=
  if (length (ci_base (cp_inputs c)) =? 1)%nat && bool_decide (ci_parent (cp_inputs c) = []) then
    total ← total_file_size ck (cp_grand_parents c);
    limit ← max_grandparent_overlap_bytes ck max_file_size;
    Ok (total <=? limit)
  else Ok false.

(** ** Manual compactions *)

(** The prefix of the files whose sizes reach the limit. *)
Fixpoint truncate_inputs (files : list FileMetaData) (total : Z) : outcome (list FileMetaData) :=
  match files with
  | [] => Ok []
  | f :: files =>
    total ← uadd ck 64 total (fm_file_size f);
    if max_file_size <=? total then Ok [f] else r ← truncate_inputs files total; Ok (f :: r)
  end.
Definition with_base (c : compaction) (base : list FileMetaData) : compaction :=
  with_inputs c (mkInputs base (ci_parent (cp_inputs c))) (cp_grand_parents c) (cp_edit c).
Definition compact_range (files : list (list FileMetaData)) (pointers : list InternalKey) (level : nat) (begin_ end_ : option InternalKey)
    : outcome (option (compaction * list InternalKey)) :=
  overlapping_inputs ← get_overlapping_inputs ucmp files level begin_ end_;
  match overlapping_inputs with
  | [] => Ok None
  | _ =>
    inputs ← (if (0 <? level)%nat then truncate_inputs overlapping_inputs 0 else Ok overlapping_inputs);
    let c := compaction_new level Manual files (ve_new (Z.of_nat max_levels)) in
    r ← setup_other_inputs files pointers (with_base c inputs);
    Ok (Some r)
  end.

(** ** Automatic compactions *)

(** What [pick_compaction] reads of the current version: its files, the level to
    compact when its score reaches one, and the file that was sought too often. *)
Record VersionState : Type := mkVersionState {
  vs_files : list (list FileMetaData);
  vs_size_compaction : option nat;
  vs_file_to_compact : option (FileMetaData * nat);
}.

(** The first file after the compaction pointer of the level. *)
Fixpoint first_after (files : list FileMetaData) (pointer : InternalKey) : outcome (list FileMetaData) :=
  match files with
  | [] => Ok []
  | f :: files =>
    b ← (if ikey_is_empty pointer then Ok true else icmp_is Gt (fm_largest f) pointer);
    if (b : bool) then Ok [f] else first_after files pointer
  end.

(** The result: a compaction, or none with the files whose seek counter is reset; and
    the new pointers. *)
Inductive Picked : Type :=
| PickedSome (c : compaction) (pointers : list InternalKey)
| PickedNone (reset : list FileMetaData) (pointers : list InternalKey).

(** The file a size compaction starts from; when the pointer is past the last file the
    code takes the first file of level 0. *)
Definition pick_by_size (v : VersionState) (pointers : list InternalKey) (level : nat) : outcome (list FileMetaData) :=
  _ ← rust_assert (level + 1 <? max_levels)%nat;
  fs ← index (vs_files v) level;
  pointer ← (match fs with [] => Ok ikey_default | _ => index pointers level end);
  base ← first_after fs pointer;
  match base with
  | [] => level0 ← index (vs_files v) 0; Ok (take 1 level0)
  | _ => Ok base
  end.

Definition pick_compaction (v : VersionState) (pointers : list InternalKey) : outcome Picked :=
  start ← match vs_size_compaction v, vs_file_to_compact v with
          | Some level, _ => base ← pick_by_size v pointers level; Ok (Some (level, MaxSize, base))
          | None, Some (f, level) => Ok (if (level <? max_levels - 1)%nat then Some (level, SeekLimit, [f]) else None)
          | None, None => Ok None
          end;
  match start with
  | None => Ok (PickedNone [] pointers)
  | Some (level, reason, base) =>
    base ← (if (level =? 0)%nat then
              r ← base_range base level;
              base ← get_overlapping_inputs ucmp (vs_files v) level (Some r.1) (Some r.2);
              _ ← rust_assert (negb (bool_decide (base = [])));
              Ok base
            else Ok base);
    let c := with_base (compaction_new level reason (vs_files v) (ve_new (Z.of_nat max_levels))) base in
    r ← setup_other_inputs (vs_files v) pointers c;
    let '(c, pointers) := r in
    trivial ← (if (1 <? level)%nat && bool_decide (is_Some (vs_file_to_compact v)) then
                 t ← is_trivial_move c;
                 if (t : bool) then next ← index (vs_files v) (level + 1); Ok (bool_decide (next = [])) else Ok false
               else Ok false);
    if (trivial : bool) then Ok (PickedNone (ci_base (cp_inputs c)) pointers) else Ok (PickedSome c pointers)
  end.
End Pick.

(** ** Boundary files are taken in *)
Section Facts.
Context (ucmp : Comparator) (uord : bytes → bytes → comparison) (uok : bytes → Prop) {CO : ComparatorOrder ucmp uok uord}.
Notation smallest f := (ik_data (fm_smallest f)).
Notation largest f := (ik_data (fm_largest f)).

(** [f] begins after the key, with the same user key. *)
Definition boundary (key : bytes) (f : FileMetaData) : Prop := iord uord (smallest f) key = Gt ∧ uord (ukey (smallest f)) (ukey key) = Eq.

Lemma icmp_is_ok c a b : ikey_ok uok (ik_data a) → ikey_ok uok (ik_data b) →
  icmp_is ucmp c a b = Ok (bool_decide (iord uord (ik_data a) (ik_data b) = c)).
Proof. intros. unfold icmp_is. by rewrite (@compare_ord (InternalKeyComparator ucmp) (ikey_ok uok) (iord uord) _). Qed.

Lemma find_boundary_ok files key best : Forall (file_ok uok uord) files → ikey_ok uok (ik_data key) →
  (∀ f, best = Some f → file_ok uok uord f ∧ boundary (ik_data key) f) →
  ∃ r, find_boundary ucmp files key best = Ok r ∧
    match r with
    | Some f => (f ∈ files ∨ best = Some f) ∧ boundary (ik_data key) f
    | None => best = None ∧ ∀ g, g ∈ files → ¬ boundary (ik_data key) g
    end.
Proof.
  intros Hf Hk. revert best. induction Hf as [|f files Hfo Hf IH]; intros best Hbest; cbn [find_boundary].
  { exists best. split; [done|]. destruct best as [g|]; [split; [by right|by apply Hbest]|]. split; [done|]. by intros g []%elem_of_nil. }
  rewrite icmp_is_ok, Ok_bind by (done || apply Hfo).
  assert ((if bool_decide (iord uord (smallest f) (ik_data key) = Gt)
           then a ← ikey_user_key (fm_smallest f); b ← ikey_user_key key; is_cmp ucmp Eq a b else Ok false) =
    Ok (bool_decide (boundary (ik_data key) f))) as ->.
  { unfold boundary. case_bool_decide as Hgt; [|rewrite bool_decide_eq_false_2; naive_solver].
    rewrite (user_key_ok uok _ (fo_smallest uok uord f Hfo)), (user_key_ok uok key Hk), !Ok_bind, (is_cmp_ok ucmp uok uord) by (done || apply Hfo || apply Hk).
    f_equal. apply bool_decide_ext. naive_solver. }
  rewrite Ok_bind. case_bool_decide as Hb.
  - assert (∃ g, (match best with
      | Some current => lt ← icmp_is ucmp Lt (fm_smallest f) (fm_smallest current); find_boundary ucmp files key (if (lt : bool) then Some f else best)
      | None => find_boundary ucmp files key (Some f) end) = find_boundary ucmp files key (Some g) ∧ (g = f ∨ best = Some g) ∧ file_ok uok uord g ∧ boundary (ik_data key) g) as (g & Heq & Hg & Hgo & Hgb).
    { destruct best as [b|]; [|exists f; split_and!; [done|by left|done..]]. destruct (Hbest b eq_refl) as [Hbo Hbb].
      rewrite icmp_is_ok, Ok_bind by (apply Hfo || apply Hbo). case_bool_decide; [exists f; split_and!; [done|by left|done..]|exists b; split_and!; [done|by right|done..]]. }
    rewrite Heq. destruct (IH (Some g)) as (r & -> & Hr); [by intros ? [= <-]|]. exists r. split; [done|]. destruct r as [x|]; [|by destruct Hr].
    destruct Hr as [[Hx|[= <-]] Hxb]; (split; [|done]); [left; by right|]. destruct Hg as [->|?]; [left; by left|by right].
  - destruct (IH best Hbest) as (r & -> & Hr). exists r. split; [done|]. destruct r as [x|].
    + destruct Hr as [[Hx|?] Hxb]; (split; [|done]); [left; by right|by right].
    + destruct Hr as [? Hno]. split; [done|]. by intros g [->|Hg]%elem_of_cons; [|apply Hno].
Qed.

(** The files that begin after a key. *)
Definition after_key (files : list FileMetaData) (key : bytes) : list FileMetaData := filter (λ f, iord uord (smallest f) key = Gt) files.

Lemma after_key_lt files key f : file_ok uok uord f → f ∈ files → iord uord (smallest f) key = Gt →
  (length (after_key files (largest f)) < length (after_key files key))%nat.
Proof.
  intros Hfo Hin Hgt.
  assert (∀ g, iord uord (smallest g) (largest f) = Gt → iord uord (smallest g) key = Gt) as Hmono.
  { intros g Hg. apply (ord_gt_lt (iord uord)) in Hg. apply (ord_gt_lt (iord uord)) in Hgt. apply (ord_gt_lt (iord uord)).
    eapply (ord_lt_trans (iord uord)); [exact Hgt|]. eapply (ord_le_lt_trans (iord uord)); [apply Hfo|exact Hg]. }
  assert (iord uord (smallest f) (largest f) ≠ Gt) as Hself by apply Hfo.
  apply list_elem_of_split in Hin as (l1 & l2 & ->). unfold after_key. rewrite !filter_app, !length_app, !filter_cons.
  rewrite decide_False, decide_True by done. simpl.
  assert (∀ l, length (filter (λ g, iord uord (smallest g) (largest f) = Gt) l) ≤ length (filter (λ g, iord uord (smallest g) key = Gt) l))%nat as Hle.
  { intros l. induction l as [|g l IH]; [done|]. rewrite !filter_cons. specialize (Hmono g). repeat case_decide; simpl; try tauto; lia. }
  pose proof (Hle l1). pose proof (Hle l2). lia.
Qed.

Lemma boundary_loop_ok fuel files key result : Forall (file_ok uok uord) files → ikey_ok uok (ik_data key) →
  (∀ f, f ∈ result → iord uord (largest f) (ik_data key) ≠ Gt) → (∃ f, f ∈ result ∧ fm_largest f = key) →
  (length (after_key files (ik_data key)) < fuel)%nat →
  ∃ added m, boundary_loop ucmp fuel files key result = Ok (result ++ added) ∧ added ⊆ files ∧
    (∃ f, f ∈ result ++ added ∧ fm_largest f = m) ∧ (∀ f, f ∈ result ++ added → iord uord (largest f) (ik_data m) ≠ Gt) ∧
    ∀ g, g ∈ files → ¬ boundary (ik_data m) g.
Proof.
  intros Hf. revert key result. induction fuel as [|fuel IH]; intros key result Hk Hmax Hin Hfuel; [lia|]. cbn [boundary_loop].
  destruct (find_boundary_ok files key None Hf Hk) as (r & Hr & Hspec); [done|]. unfold find_smallest_boundary_file. rewrite Hr, Ok_bind.
  destruct r as [f|].
  - destruct Hspec as [[Hfin|?] Hb]; [|done]. pose proof Hf as Hf'. rewrite Forall_forall in Hf'. specialize (Hf' f Hfin).
    destruct (IH (fm_largest f) (result ++ [f])) as (added & m & Hrun & Hsub & Hm & Hmx & Hno).
    + apply Hf'.
    + assert (iord uord (ik_data key) (largest f) = Lt) as Hkf.
      { eapply (ord_lt_le_trans (iord uord)); [apply (ord_gt_lt (iord uord)), Hb|apply Hf']. }
      intros g [Hg| ->%list_elem_of_singleton]%elem_of_app; [|by rewrite (ord_refl (iord uord))].
      rewrite (ord_le_lt_trans (iord uord) _ (ik_data key)); [done|by apply Hmax|done].
    + exists f. split; [apply elem_of_app; right; by left|done].
    + pose proof (after_key_lt files (ik_data key) f Hf' Hfin (proj1 Hb)). lia.
    + exists (f :: added), m. rewrite <- app_assoc in Hrun. rewrite <- app_assoc in Hm, Hmx. split_and!; try done. set_solver.
  - destruct Hspec as [_ Hno]. exists [], key. rewrite app_nil_r. split_and!; try done. set_solver.
Qed.

Lemma largest_file_ok files tmp : Forall (file_ok uok uord) files → file_ok uok uord tmp →
  ∃ f, largest_file ucmp files tmp = Ok f ∧ f ∈ tmp :: files ∧ ∀ g, g ∈ tmp :: files → iord uord (largest g) (largest f) ≠ Gt.
Proof.
  intros Hf. revert tmp. induction Hf as [|f files Hfo Hf IH]; intros tmp Ht; cbn [largest_file].
  { exists tmp. split_and!; [done|by left|]. intros g ->%list_elem_of_singleton. by rewrite (ord_refl (iord uord)). }
  rewrite icmp_is_ok, Ok_bind by (apply Hfo || apply Ht). case_bool_decide as Hgt.
  - destruct (IH f Hfo) as (x & -> & Hx & Hmax). exists x. split_and!; [done|by right|]. intros g [->|Hg]%elem_of_cons; [|by apply Hmax].
    rewrite (ord_lt_le_trans (iord uord) _ (largest f)); [done|by apply (ord_gt_lt (iord uord))|apply Hmax; by left].
  - destruct (IH tmp Ht) as (x & -> & Hx & Hmax). exists x. split_and!; [done|rewrite !elem_of_cons in *; tauto|].
    intros g [->|[->|Hg]%elem_of_cons]%elem_of_cons; [apply Hmax; by left| |apply Hmax; by right].
    intros Hc. assert (iord uord (largest tmp) (largest x) ≠ Gt) as Htx by (apply Hmax; by left). apply (ord_gt_lt (iord uord)) in Hc.
    destruct (iord uord (largest tmp) (largest x)) eqn:E; [|apply Hgt|done].
    + rewrite <- (ord_eq_l (iord uord) _ _ _ E) in Hc. by apply Hgt, (ord_gt_lt (iord uord)).
    + apply (ord_gt_lt (iord uord)). by eapply (ord_lt_trans (iord uord)).
Qed.
(** C24: When the inputs of a compaction are files of the level,
    [add_boundary_inputs_for_compact_files] terminates and only appends files of the
    level; afterwards no file of the level begins with the user key the inputs end
    with, so no older record of that key is left behind when the newer ones move to the
    next level. *)
Theorem boundary_inputs_closed level_files inputs : Forall (file_ok uok uord) level_files → inputs ≠ [] → inputs ⊆ level_files →
  ∃ added m, add_boundary_inputs_for_compact_files ucmp level_files inputs = Ok (inputs ++ added) ∧ added ⊆ level_files ∧
    m ∈ inputs ++ added ∧ (∀ f, f ∈ inputs ++ added → iord uord (largest f) (largest m) ≠ Gt) ∧
    ∀ g, g ∈ level_files → ¬ boundary (largest m) g.
Proof.
  intros Hf Hne Hsub. destruct inputs as [|f fs]; [done|].
  assert (Forall (file_ok uok uord) (f :: fs)) as [Hfo Hfs]%Forall_cons.
  { apply Forall_forall. intros x Hx. rewrite Forall_forall in Hf. by apply Hf, Hsub. }
  destruct (largest_file_ok fs f Hfs Hfo) as (t & Ht & Htin & Hmax).
  assert (file_ok uok uord t) as Hto by (rewrite Forall_forall in Hf; by apply Hf, Hsub).
  destruct (boundary_loop_ok (S (length level_files)) level_files (fm_largest t) (f :: fs)) as (added & m & Hrun & Hadd & (x & Hx & <-) & Hmx & Hno).
  { done. } { apply Hto. } { done. } { by exists t. } { pose proof (length_filter (λ g, iord uord (smallest g) (largest t) = Gt) level_files). unfold after_key. lia. }
  exists added, x. cbn [add_boundary_inputs_for_compact_files]. rewrite Ht, Ok_bind. by split_and!.
Qed.
End Facts.

(** ** Examples *)

(** The records of user key 20 are spread over three files, listed out of order. *)
Definition boundary_file (number : Z) (lo : bytes) (lo_seq : Z) (hi : bytes) (hi_seq : Z) : FileMetaData :=
  mkMeta 100 10 number (mkIKey (ikey lo lo_seq Value)) (mkIKey (ikey hi hi_seq Value)).
Definition boundary_files : list FileMetaData :=
  [boundary_file 1 [10] 9 [20] 9; boundary_file 3 [20] 3 [30] 1; boundary_file 2 [20] 7 [20] 5; boundary_file 4 [40] 9 [50] 9].

Lemma boundary_inputs_closed_witness :
  ∃ added m, add_boundary_inputs_for_compact_files bytewise boundary_files (take 1 boundary_files) = Ok (take 1 boundary_files ++ added) ∧
    m ∈ take 1 boundary_files ++ added ∧ (∀ g, g ∈ boundary_files → ¬ boundary lex_compare (ik_data (fm_largest m)) g) ∧
    fm_number <$> added = [2; 3].
Proof.
  destruct (boundary_inputs_closed bytewise lex_compare (λ _, True) boundary_files (take 1 boundary_files)) as (added & m & Hr & _ & Hm & _ & Hno).
  - repeat constructor; try (vm_compute; done).
    all: vm_compute; lia.
  - done.
  - intros x Hx. by apply (elem_of_take _ 1) in Hx as (? & ?%list_elem_of_lookup_2 & _).
  - exists added, m. split_and!; [exact Hr|exact Hm|exact Hno|]. vm_compute in Hr. by injection Hr as <-.
Defined.

(** [setup_other_inputs] keeps the enlarged inputs of the level even when enlarging
    them would take in a further file of the next level: file 4 of level 2 overlaps the
    input file 2 and is not an input. *)
Example expanded_inputs_overlap :
  let files := [ []; [sample_file 1 10 [10] [20]; sample_file 2 10 [30] [40]]; [sample_file 3 10 [15] [35]; sample_file 4 10 [38] [50]]; [] ] in
  (r ← setup_other_inputs true bytewise 4 1000 files [ikey_default; ikey_default; ikey_default; ikey_default]
         (with_base (B := unit) (compaction_new 1 Manual files (ve_new 4)) [sample_file 1 10 [10] [20]]);
   Ok (fm_number <$> ci_base (cp_inputs r.1), fm_number <$> ci_parent (cp_inputs r.1))) = Ok ([1; 2], [3]).
Proof. reflexivity. Qed.
