(* ===== verification/DbWrite.v ===== *)
(** * The write path of the database: [src/db/mod.rs]

    The queue of write tasks, [group_batches], which joins waiting batches, and one
    round of [process_batch]: the joined batch gets the next sequence numbers, is
    appended to the log, synced on demand and applied to the memtable, and every
    writer of the group is told the result. *)
From stdpp Require Import gmap.
From S2P Require Import Prelude Coding Varint Comparator Format Storage Record Iterator SkipList SkipListFacts MemTable Batch.
Open Scope Z_scope.

(** [BatchTask]; a writer waits on the channel [bt_signal]. *)
Record BatchTask : Type := mkTask {
  bt_stop_process : bool;
  bt_force_mem_compaction : bool;
  bt_batch : WriteBatch;
  bt_signal : nat;
  bt_sync : bool;
}.
Definition with_batch (t : BatchTask) (b : WriteBatch) : BatchTask :=
  mkTask (bt_stop_process t) (bt_force_mem_compaction t) b (bt_signal t) (bt_sync t).

Definition KB128 : Z := Z.shiftl 128 10.

Section Write.
Context `{CRC : Crc32} `{FO : File F} (ck : bool) (node_base : Z) (ucmp : Comparator).

(** The loop of [group_batches]: the group, its signals and the queue left. *)
Fixpoint group_loop (queue : list BatchTask) (grouped : BatchTask) (size max_size : Z) (signals : list nat)
    : outcome (BatchTask * list nat * list BatchTask) :=
  match queue with
  | [] => Ok (grouped, signals, [])
  | current :: queue =>
    if bt_stop_process current || (bt_sync current && negb (bt_sync grouped)) then Ok (grouped, signals, current :: queue)
    else
      size ← uadd ck 64 size (approximate_size (bt_batch current));
      if max_size <? size then Ok (grouped, signals, queue)
      else
        b ← wb_append ck (bt_batch grouped) (bt_batch current);
        group_loop queue (with_batch grouped b) size max_size (signals ++ [bt_signal current])
  end.
(** How large the group may grow. *)
Definition group_limit (first : BatchTask) : Z :=
  let size := approximate_size (bt_batch first) in
  if size <=? KB128 then size + KB128 else Z.shiftl 1 20.
Definition group_batches (first : BatchTask) (queue : list BatchTask) : outcome (BatchTask * list nat * list BatchTask) :=
  group_loop queue first (approximate_size (bt_batch first)) (group_limit first) [bt_signal first].

(** What a round changes: the memtable, the log writer and the last sequence number
    (both in the version set), the background error. *)
Record WriteState : Type := mkWriteState {
  ws_mem : SkipList;
  ws_writer : option (Writer F);
  ws_last_sequence : Z;
  ws_bg_error : option error;
}.

(** [record_bg_error]: an earlier error stays. *)
Definition record_bg_error (s : WriteState) (e : error) : WriteState :=
  match ws_bg_error s with
  | Some _ => s
  | None => mkWriteState (ws_mem s) (ws_writer s) (ws_last_sequence s) (Some e)
  end.

(** Appending to the log and syncing; the last component: the sync failed. *)
Definition log_batch (w : Writer F) (data : bytes) (sync : bool) : outcome unit * Writer F * bool :=
  match add_record w data with
  | (Ok _, w) =>
    if sync then
      match writer_sync w with
      | (Err e, w) => (Err e, w, true)
      | (r, w) => (r, w, false)
      end
    else (Ok tt, w, false)
  | (r, w) => (r, w, false)
  end.

(** A round of [process_batch] on a group, once there is room in the memtable:
    the answers sent and the new state. *)
Definition commit_group (heights : list nat) (grouped : BatchTask) (signals : list nat) (s : WriteState)
    : outcome (list (nat * outcome unit) * WriteState) :=
  empty ← wb_is_empty (bt_batch grouped);
  if (empty : bool) then Ok ((λ x, (x, Ok tt)) <$> signals, s)
  else
    first ← uadd ck 64 (ws_last_sequence s) 1;
    batch ← set_sequence (bt_batch grouped) first;
    count ← get_count batch;
    last_seq ← uadd ck 64 (ws_last_sequence s) count;
    match ws_writer s with
    | None => Panic
    | Some w =>
      let '(res, w, sync_err) := log_batch w (wb_contents batch) (bt_sync grouped) in
      let '(res, mem) := match res with Ok _ => insert_into ck node_base ucmp heights batch (ws_mem s) | r => (r, ws_mem s) end in
      let s := mkWriteState mem (Some w) last_seq (ws_bg_error s) in
      match res with
      | Ok _ => Ok ((λ x, (x, Ok tt)) <$> signals, s)
      | Err e =>
        let answer := Err (Customized "[process batch] write batch failed") in
        Ok ((λ x, (x, answer)) <$> signals, if (sync_err : bool) then record_bg_error s e else s)
      | Panic => Panic
      | OutOfFuel => OutOfFuel
      end
    end.
End Write.
Arguments WriteState F : clear implicits.

(** ** Rounds *)

(** Rounds of [process_batch] one after the other. *)
Fixpoint commit_all `{CRC : Crc32} `{FO : File F} (ck : bool) (node_base : Z) (ucmp : Comparator)
    (rounds : list (list nat * BatchTask * list nat)) (s : WriteState F) : outcome (WriteState F) :=
  match rounds with
  | [] => Ok s
  | (heights, grouped, signals) :: rounds =>
    r ← commit_group ck node_base ucmp heights grouped signals s;
    commit_all ck node_base ucmp rounds r.2
  end.

(** ** Grouping *)
Section Group.
Context (ck : bool).

Definition batch_sizes (tasks : list BatchTask) : Z := foldr (λ t n, approximate_size (bt_batch t) + n) 0 tasks.

(** The operations of a task. *)
Definition task_ops (t : BatchTask) (ops : list batch_op) : Prop := ∃ seq, wb_rep (bt_batch t) seq ops.

(** The queue splits into the tasks taken and the rest; when the group would grow too
    large the next task is removed from the queue as well. *)
Definition taken (grouped : BatchTask) (taken_tasks lost rest : list BatchTask) (size max_size : Z) : Prop :=
  Forall (λ t, bt_stop_process t = false ∧ (bt_sync t = true → bt_sync grouped = true)) taken_tasks ∧
  (lost = [] ∧ (rest = [] ∨ ∃ t rest', rest = t :: rest' ∧ (bt_stop_process t = true ∨ bt_sync t = true ∧ bt_sync grouped = false))
   ∨ ∃ t, lost = [t] ∧ max_size < size + batch_sizes (taken_tasks ++ lost)).

Lemma group_loop_ok queue opss grouped ops size max_size signals :
  Forall2 task_ops queue opss → task_ops grouped ops → 0 ≤ size →
  size + batch_sizes queue < 2 ^ 64 →
  len ops + len (mjoin opss) < 2 ^ 32 →
  ∃ g tasks lost rest, group_loop ck queue grouped size max_size signals = Ok (g, signals ++ (bt_signal <$> tasks), rest) ∧
    queue = tasks ++ lost ++ rest ∧ task_ops g (ops ++ mjoin (take (length tasks) opss)) ∧
    bt_sync g = bt_sync grouped ∧ taken grouped tasks lost rest size max_size.
Proof.
  intros Hq. revert grouped ops size signals.
  induction Hq as [|t tops queue opss Ht Hq IH]; intros grouped ops size signals Hg Hs Hsz Hn; cbn [group_loop].
  { exists grouped, [], [], []. rewrite !app_nil_r. split_and!; try done. split; [constructor|]. left. split; [done|by left]. }
  destruct (bt_stop_process t || _) eqn:Hstop.
  { exists grouped, [], [], (t :: queue). rewrite !app_nil_r. split_and!; try done. split; [constructor|]. left. split; [done|]. right.
    exists t, queue. split; [done|]. apply orb_true_iff in Hstop as [?|[? ?%negb_true_iff]%andb_true_iff]; auto. }
  apply orb_false_iff in Hstop as [Hstop Hsync]. cbn [batch_sizes foldr] in Hsz. fold (batch_sizes queue) in Hsz.
  assert (0 ≤ batch_sizes queue) as Hpos.
  { clear. induction queue as [|t queue IH]; simpl; [done|].
    pose proof (len_nonneg (wb_contents (bt_batch t)) : 0 ≤ approximate_size (bt_batch t)). lia. }
  assert (0 ≤ approximate_size (bt_batch t)) as Htpos by apply len_nonneg.
  rewrite uadd_small, Ok_bind by lia.
  assert (bt_sync t = true → bt_sync grouped = true) as Hsy by (intros Hy; rewrite Hy in Hsync; by destruct (bt_sync grouped)).
  destruct (max_size <? _) eqn:Hmax.
  { apply Z.ltb_lt in Hmax. exists grouped, [], [t], queue. rewrite !app_nil_r. split_and!; try done. split; [constructor|].
    right. exists t. split; [done|]. simpl. lia. }
  destruct Hg as (seq & Hg), Ht as (seq' & Ht). change (mjoin (tops :: opss)) with (tops ++ mjoin opss) in Hn.
  rewrite len_app in Hn. pose proof (len_nonneg (mjoin opss)).
  destruct (wb_append_rep ck _ _ _ _ _ _ Hg Ht) as (b & -> & Hb); [lia|]. rewrite Ok_bind.
  destruct (IH (with_batch grouped b) (ops ++ tops) (size + approximate_size (bt_batch t)) (signals ++ [bt_signal t]))
    as (g & tasks & lost & rest & -> & -> & Hgo & Hgs & Hall & Htaken); [by exists seq|lia|lia|rewrite len_app; lia|].
  exists g, (t :: tasks), lost, rest. rewrite fmap_cons, <- app_assoc. split_and!; [done|done| |done|].
  - cbn [length take]. change (mjoin (tops :: ?l)) with (tops ++ mjoin l). by rewrite app_assoc.
  - split; [by constructor|]. destruct Htaken as [?|(x & -> & Hx)]; [by left|right]. exists x. split; [done|]. cbn [app batch_sizes foldr]. fold (batch_sizes (tasks ++ [x])). lia.
Qed.
End Group.

(** ** Committing a group *)
Section Commit.
Context `{CRC : Crc32, !Crc32Laws} `{FL : FileLaws F} (ck : bool) (node_base : Z) (Hbase : 0 < node_base < 2 ^ 40).
Context (ucmp : Comparator) (uok : bytes → Prop) (uord : bytes → bytes → comparison) {CO : ComparatorOrder ucmp uok uord}.

(** An operation the memtable can take. *)
Definition op_ok (op : batch_op) : Prop :=
  uok (op_key op) ∧ len (op_key op) + 8 < 2 ^ 32 ∧ match op with Put _ v => len v < 2 ^ 32 | Delete _ => True end.

Lemma op_ok_small op : op_ok op → op_small op.
Proof. destruct op; unfold op_ok, op_small; simpl; intros (_ & ? & ?); [split; lia|lia]. Qed.

Lemma op_recs_lookup seq ops i r : op_recs seq ops !! i = Some r → ∃ op, ops !! i = Some op ∧ r = op_rec (seq + Z.of_nat i) op.
Proof.
  revert seq i. induction ops as [|op ops IH]; intros seq i Hi; [done|]. destruct i as [|i].
  - injection Hi as <-. exists op. split; [done|]. f_equal. lia.
  - apply IH in Hi as (op' & Ho & ->). exists op'. split; [done|]. f_equal. lia.
Qed.
Lemma op_recs_app seq ops1 ops2 : op_recs seq (ops1 ++ ops2) = op_recs seq ops1 ++ op_recs (seq + len ops1) ops2.
Proof.
  revert seq. induction ops1 as [|op ops1 IH]; intros seq; simpl; [by rewrite Z.add_0_r|].
  rewrite IH, len_cons. f_equal. f_equal. f_equal. lia.
Qed.
Lemma length_op_recs seq ops : length (op_recs seq ops) = length ops.
Proof. revert seq. induction ops as [|op ops IH]; intros seq; simpl; [done|]. by rewrite IH. Qed.
Lemma op_rec_seq seq op : r_seq (op_rec seq op) = seq.
Proof. by destruct op. Qed.
Lemma op_recs_seq seq ops r : r ∈ op_recs seq ops → seq ≤ r_seq r < seq + len ops.
Proof.
  intros [i Hi]%list_elem_of_lookup_1. pose proof (lookup_lt_Some _ _ _ Hi) as Hlt. rewrite length_op_recs in Hlt.
  apply op_recs_lookup in Hi as (op & _ & ->). rewrite op_rec_seq. unfold len. lia.
Qed.
Lemma op_recs_distinct seq ops : distinct uord (op_recs seq ops).
Proof.
  intros i j a b Hij (? & _ & ->)%op_recs_lookup (? & _ & ->)%op_recs_lookup _. rewrite !op_rec_seq. lia.
Qed.
Lemma op_recs_ok seq ops : Forall op_ok ops → 0 ≤ seq → seq + len ops ≤ MAX_KEY_SEQUENCE + 1 → Forall (rec_ok uok) (op_recs seq ops).
Proof.
  intros Hops Hs0 Hmax. apply Forall_forall. intros r Hr. pose proof (op_recs_seq _ _ _ Hr) as Hseq.
  apply list_elem_of_lookup_1 in Hr as [i Hi]. apply op_recs_lookup in Hi as (op & Ho & ->).
  rewrite Forall_forall in Hops. destruct (Hops op (list_elem_of_lookup_2 _ _ _ Ho)) as (Hu & Hul & Hv).
  rewrite op_rec_seq in Hseq. destruct op; (split; [exact Hu|unfold seq_ok; simpl; lia|done|done|done]).
Qed.

Definition heights_ok (hs : list nat) : Prop := Forall (λ h, (1 ≤ h ≤ MAX_HEIGHT)%nat) hs.
Lemma with_heights_ok hs rs : heights_ok hs → Forall (λ hr, (1 ≤ hr.1 ≤ MAX_HEIGHT)%nat) (with_heights hs rs).
Proof.
  revert hs. induction rs as [|r rs IH]; intros hs Hhs; simpl; constructor.
  - destruct Hhs; simpl; [unfold MAX_HEIGHT; lia|done].
  - apply IH. destruct Hhs; [constructor|done].
Qed.
Lemma length_with_heights hs rs : length (with_heights hs rs) = length rs.
Proof. revert hs. induction rs as [|r rs IH]; intros hs; simpl; [done|]. by rewrite IH. Qed.

(** Applying a batch to a memtable whose records are all older. *)
Lemma insert_batch_ok hs b seq ops mem l n : wb_rep b seq ops → Forall op_ok ops → heights_ok hs →
  0 ≤ seq → seq + len ops ≤ MAX_KEY_SEQUENCE + 1 → mem_rep uok uord mem l → (∀ r, r ∈ l → r_seq r < seq) →
  0 ≤ n → mem_room node_base (len ops + n) mem →
  ∃ mem' l', insert_into ck node_base ucmp hs b mem = (Ok tt, mem') ∧ mem_rep uok uord mem' l' ∧
    l' ≡ₚ op_recs seq ops ++ l ∧ mem_room node_base n mem' ∧ ∀ m, 0 ≤ m → mem_sized (len ops + m) mem → mem_sized m mem'.
Proof.
  intros Hb Hops Hhs Hs0 Hmax Hrep Hold Hn Hroom. unfold MAX_KEY_SEQUENCE in Hmax. pose proof (len_nonneg ops).
  rewrite (insert_into_rep ck node_base ucmp hs b seq ops mem Hb) by lia.
  destruct (mem_add_all_rep ck node_base ucmp uok uord mem l (with_heights hs (op_recs seq ops)) n Hbase Hrep) as (mem' & l' & Hadd & Hrep' & Hp & Hroom' & Hsized').
  - by apply with_heights_ok.
  - assert (Forall (rec_ok uok) (with_heights hs (op_recs seq ops)).*2) as Hr by (rewrite with_heights_snd; by apply op_recs_ok).
    by rewrite Forall_fmap in Hr.
  - rewrite with_heights_snd. apply op_recs_distinct.
  - rewrite with_heights_snd. intros a c Ha Hc%op_recs_seq _. specialize (Hold a Ha). lia.
  - done.
  - by unfold len in *; rewrite length_with_heights, length_op_recs.
  - exists mem', l'. rewrite with_heights_snd in Hp. unfold len in Hsized'. rewrite length_with_heights, length_op_recs in Hsized'. done.
Qed.

Lemma writer_sync_ok (w w' : Writer F) E off : wrote w w' E off → ∃ w2, writer_sync w' = (Ok tt, w2) ∧ wrote w w2 E off.
Proof.
  intros ((Hok & Hcrc & Hrange) & Hc & Hp & Ho). unfold writer_sync.
  destruct (law_flush (w_dest w') Hok) as (f' & -> & Hok' & Hc' & Hp'). exists (with_dest w' f'). split; [done|].
  unfold wrote, writer_ok, with_dest. cbn [w_dest w_crc_cache w_block_offset]. by rewrite Hc', Hp'.
Qed.

Lemma log_batch_ok (w : Writer F) data sync : writer_ok w →
  ∃ w' E off, log_batch w data sync = (Ok tt, w', false) ∧ log_frags (w_block_offset w) true data E off ∧ wrote w w' E off.
Proof.
  intros Hw. unfold log_batch. destruct (add_record_ok w data Hw) as (w' & E & off & -> & Hf & Hwr). destruct sync; [|by exists w', E, off].
  destruct (writer_sync_ok w w' E off Hwr) as (w2 & -> & Hwr2). by exists w2, E, off.
Qed.

(** The state between two rounds: the memtable holds the records written since it was
    created, none newer than the last sequence number. *)
Record write_inv (s : WriteState F) (l : list mrec) (n : Z) : Prop := {
  wi_writer : ∃ w, ws_writer s = Some w ∧ writer_ok w;
  wi_mem : mem_rep uok uord (ws_mem s) l;
  wi_seq : 0 ≤ ws_last_sequence s;
  wi_old : ∀ r, r ∈ l → r_seq r ≤ ws_last_sequence s;
  wi_room : mem_room node_base n (ws_mem s);
}.

Lemma commit_group_ok hs g signals s w l ops n : write_inv s l (len ops + n) → ws_writer s = Some w → task_ops g ops → ops ≠ [] →
  Forall op_ok ops → heights_ok hs → ws_last_sequence s + len ops ≤ MAX_KEY_SEQUENCE → 0 ≤ n →
  ∃ s' l' w' b E off, commit_group ck node_base ucmp hs g signals s = Ok ((λ x, (x, Ok tt)) <$> signals, s') ∧
    write_inv s' l' n ∧ l' ≡ₚ op_recs (ws_last_sequence s + 1) ops ++ l ∧
    ws_last_sequence s' = ws_last_sequence s + len ops ∧ ws_bg_error s' = ws_bg_error s ∧ ws_writer s' = Some w' ∧
    wb_rep b (ws_last_sequence s + 1) ops ∧ log_frags (w_block_offset w) true (wb_contents b) E off ∧ wrote w w' E off.
Proof.
  intros [(w0 & Hw0 & Hwok) Hmem Hseq Hold Hroom] Hw (seq & Hg) Hne Hops Hhs Hmax Hn. rewrite Hw in Hw0. injection Hw0 as <-.
  unfold MAX_KEY_SEQUENCE in *. pose proof (len_nonneg ops). assert (0 < len ops) by (destruct ops; [done|rewrite len_cons; pose proof (len_nonneg ops); lia]).
  unfold commit_group, wb_is_empty. rewrite (wb_get_count _ _ _ Hg), !Ok_bind, (proj2 (Z.eqb_neq _ _)) by lia.
  rewrite uadd_small, Ok_bind by lia.
  destruct (wb_set_sequence _ _ (ws_last_sequence s + 1) _ Hg) as (b & -> & Hb); [split; lia|].
  rewrite Ok_bind, (wb_get_count _ _ _ Hb), Ok_bind. rewrite uadd_small, Ok_bind, Hw by lia.
  destruct (log_batch_ok w (wb_contents b) (bt_sync g) Hwok) as (w' & E & off & -> & Hf & Hwr).
  destruct (insert_batch_ok hs b (ws_last_sequence s + 1) ops (ws_mem s) l n) as (mem' & l' & -> & Hmem' & Hp & Hroom' & _); try done.
  { lia. } { unfold MAX_KEY_SEQUENCE. lia. } { intros r Hr. specialize (Hold r Hr). lia. }
  eexists _, l', w', b, E, off. split_and!; try done. split; cbn [ws_mem ws_writer ws_last_sequence]; try done.
  - exists w'. split; [done|]. apply Hwr.
  - lia.
  - intros r. rewrite Hp. intros [Hr%op_recs_seq|Hr]%elem_of_app; [lia|]. specialize (Hold r Hr). lia.
Qed.
(** The records of the log are the batches [opss], with consecutive sequence numbers
    from [q] on. *)
Fixpoint batches_from (q : Z) (rs : list bytes) (opss : list (list batch_op)) : Prop :=
  match rs, opss with
  | [], [] => True
  | d :: rs, ops :: opss => wb_rep (mkBatch d) q ops ∧ ops ≠ [] ∧ Forall op_ok ops ∧ batches_from (q + len ops) rs opss
  | _, _ => False
  end.


Lemma batches_det q rs rs' opss : batches_from q rs opss → batches_from q rs' opss → rs = rs'.
Proof.
  revert q rs rs'. induction opss as [|ops opss IH]; intros q [|d rs] [|d' rs']; try done.
  intros ((Hd & _) & _ & _ & Hb) ((Hd' & _) & _ & _ & Hb'). cbn [wb_contents] in *. f_equal; [congruence|by eapply IH].
Qed.
Lemma batches_take q rs opss j : batches_from q rs opss → batches_from q (take j rs) (take j opss).
Proof.
  revert q rs opss. induction j as [|j IH]; intros q [|d rs] [|ops opss]; try done.
  intros (Hd & Hne & Hok & Hb). cbn [take batches_from]. by split_and!; [..|apply IH].
Qed.
Lemma batches_length q rs opss : batches_from q rs opss → length rs = length opss.
Proof. revert q opss. induction rs as [|d rs IH]; intros q [|ops opss]; try done. intros (_ & _ & _ & Hb). simpl. f_equal. by eapply IH. Qed.

(** A round with the operations of its group. *)
Definition round_ok (rd : list nat * BatchTask * list nat) (ops : list batch_op) : Prop :=
  heights_ok rd.1.1 ∧ task_ops rd.1.2 ops ∧ ops ≠ [] ∧ Forall op_ok ops.

Lemma commit_all_ok rounds opss s w l n : Forall2 round_ok rounds opss → write_inv s l (len (mjoin opss) + n) → ws_writer s = Some w →
  ws_last_sequence s + len (mjoin opss) ≤ MAX_KEY_SEQUENCE → 0 ≤ n →
  ∃ s' l' w' rs E off, commit_all ck node_base ucmp rounds s = Ok s' ∧ write_inv s' l' n ∧
    l' ≡ₚ op_recs (ws_last_sequence s + 1) (mjoin opss) ++ l ∧
    ws_last_sequence s' = ws_last_sequence s + len (mjoin opss) ∧ ws_writer s' = Some w' ∧
    batches_from (ws_last_sequence s + 1) rs opss ∧ log_records (w_block_offset w) rs E off ∧ wrote w w' E off.
Proof.
  intros Hrs. revert s w l. induction Hrs as [|[[hs g] sig] ops rounds opss (Hhs & Hg & Hne & Hops) Hrs IH]; intros s w l Hinv Hw Hmax Hn.
  { exists s, l, w, [], [], (w_block_offset w). simpl in *. rewrite Z.add_0_r. split_and!; try done; [constructor|].
    destruct Hinv as [(w0 & Hw0 & Hok) _ _ _ _]. rewrite Hw in Hw0. injection Hw0 as <-. split_and!; [done|by rewrite app_nil_r|done|done]. }
  change (mjoin (ops :: opss)) with (ops ++ mjoin opss) in *. rewrite len_app in *. cbn [fst snd] in *. pose proof (len_nonneg (mjoin opss)).
  rewrite <- Z.add_assoc in Hinv. cbn [commit_all].
  destruct (commit_group_ok hs g sig s w l ops (len (mjoin opss) + n) Hinv Hw Hg Hne Hops Hhs) as
    (s1 & l1 & w1 & b & E1 & o1 & -> & Hinv1 & Hp1 & Hs1 & _ & Hw1 & Hb & Hf & Hwr); [lia|lia|]. rewrite Ok_bind. cbn [snd].
  destruct (IH s1 w1 l1 Hinv1 Hw1) as (s2 & l2 & w2 & rs & E2 & o2 & -> & Hinv2 & Hp2 & Hs2 & Hw2 & Hbs & Hlog & Hwr2); [lia|lia|].
  assert (w_block_offset w1 = o1) as <- by apply Hwr.
  exists s2, l2, w2, (wb_contents b :: rs), (E1 ++ E2), o2. split_and!; try done.
  - rewrite Hp2, Hp1, Hs1, op_recs_app, app_assoc. apply Permutation_app_tail. rewrite Permutation_app_comm. by rewrite <- Z.add_assoc, (Z.add_comm (len ops) 1), Z.add_assoc.
  - lia.
  - cbn [batches_from]. destruct b. split_and!; try done. rewrite Hs1 in Hbs. by replace (ws_last_sequence s + 1 + len ops) with (ws_last_sequence s + len ops + 1) by lia.
  - by econstructor.
  - by eapply wrote_trans.
Qed.
End Commit.

(** ** Properties *)

(** C21: [group_batches] joins the first task and a prefix of the queue, in order, into
    one batch with all their operations, and collects the signals of exactly these
    writers.  It takes no stop task and no sync write into a group that does not sync,
    and leaves the rest of the queue, except that when the group would grow too large
    one further task is removed ([lost]). *)
Theorem group_batches_exact (ck : bool) (first : BatchTask) (ops : list batch_op) (queue : list BatchTask) (opss : list (list batch_op)) :
  task_ops first ops → Forall2 task_ops queue opss → batch_sizes (first :: queue) < 2 ^ 64 → len ops + len (mjoin opss) < 2 ^ 32 →
  ∃ g tasks lost rest, group_batches ck first queue = Ok (g, bt_signal <$> first :: tasks, rest) ∧
    queue = tasks ++ lost ++ rest ∧ task_ops g (ops ++ mjoin (take (length tasks) opss)) ∧ bt_sync g = bt_sync first ∧
    Forall (λ t, bt_stop_process t = false ∧ (bt_sync t = true → bt_sync first = true)) tasks ∧
    (lost = [] ∨ ∃ t, lost = [t] ∧ group_limit first < batch_sizes (first :: tasks ++ [t])) ∧
    (lost = [] → rest = [] ∨ ∃ t rest', rest = t :: rest' ∧ (bt_stop_process t = true ∨ bt_sync t = true ∧ bt_sync first = false)).
Proof.
  intros Hf Hq Hsz Hn. unfold group_batches.
  pose proof (len_nonneg (wb_contents (bt_batch first)) : 0 ≤ approximate_size (bt_batch first)) as H0.
  destruct (group_loop_ok ck queue opss first ops (approximate_size (bt_batch first)) (group_limit first) [bt_signal first] Hq Hf H0 Hsz Hn)
    as (g & tasks & lost & rest & Hrun & -> & Hg & Hgs & Hall & Htaken).
  exists g, tasks, lost, rest. split_and!; [exact Hrun|done..| |].
  - destruct Htaken as [[-> _]|(t & -> & Ht)]; [by left|right]. by exists t.
  - intros ->. by destruct Htaken as [[_ ?]|(t & ? & _)].
Qed.

(** A queue of a plain write, a sync write and a plain write, behind a plain write. *)
Definition sample_task (sync : bool) (signal : nat) (op : batch_op) : BatchTask :=
  mkTask false false (mkBatch (to_le_bytes 8 0 ++ to_le_bytes 4 1 ++ op_bytes op)) signal sync.
Lemma sample_task_ops sync signal op : op_small op → task_ops (sample_task sync signal op) [op].
Proof.
  intros Hop. exists 0. split; [cbn; by rewrite ?app_nil_r|]. split; [by split|]. split; [done|]. by constructor.
Qed.

Lemma group_batches_exact_witness :
  ∃ g lost rest, group_batches true (sample_task false 0 (Put [1] [2]))
      [sample_task false 1 (Delete [1]); sample_task true 2 (Delete [3]); sample_task false 3 (Delete [4])] = Ok (g, [0; 1]%nat, rest) ∧
    task_ops g [Put [1] [2]; Delete [1]] ∧ lost = [] ∧ bt_signal <$> lost ++ rest = [2; 3]%nat.
Proof.
  destruct (group_batches_exact true (sample_task false 0 (Put [1] [2])) [Put [1] [2]]
    [sample_task false 1 (Delete [1]); sample_task true 2 (Delete [3]); sample_task false 3 (Delete [4])] [[Delete [1]]; [Delete [3]]; [Delete [4]]])
    as (g & tasks & lost & rest & Hrun & Hq & Hg & _ & _ & Hlost & _).
  - by apply sample_task_ops.
  - repeat constructor; by apply sample_task_ops.
  - reflexivity.
  - reflexivity.
  - assert (bt_signal <$> tasks = [1]%nat) as Ht by (clear -Hrun; vm_compute in Hrun; by injection Hrun).
    destruct tasks as [|t [|? ?]]; [done| |done]. exists g, lost, rest. split_and!; [|exact Hg| |].
    + rewrite Hrun. simpl in Ht |- *. by injection Ht as ->.
    + destruct Hlost as [?|(t' & -> & Hlt)]; [done|]. injection Hq as <- <- _. vm_compute in Hlt. done.
    + injection Hq as _ Hq. by rewrite <- Hq.
Defined.

(** A task that would make the group too large is removed from the queue and answered
    by nobody: its channel is closed, and its writer gets an error. *)
Example group_batches_drops_task :
  match group_batches true (sample_task false 0 (Put [1] [2])) [sample_task false 1 (Put [7] (replicate (Z.to_nat 131072) 0)); sample_task false 2 (Delete [4])] with
  | Ok (_, signals, rest) => signals = [0]%nat ∧ bt_signal <$> rest = [2]%nat
  | _ => False
  end.
Proof. vm_compute. done. Qed.

(** A batch that does not fit in what is left of the arena panics, although the
    memtable was not full when the room was checked. *)
Example commit_full_arena_panics :
  let m := match mem_new true 40 1024 with Ok m => m | _ => mkSkl 1 0 (mkArena 1 0) 0 ∅ ∅ end in
  approximate_memory_usage true m = Ok 208 ∧
  (insert_into true 40 bytewise (replicate 6 20%nat) (mkBatch (to_le_bytes 8 1 ++ to_le_bytes 4 6 ++ mjoin (op_bytes <$> replicate 6 (Delete [1])))) m).1 = Panic.
Proof. split; vm_compute; reflexivity. Qed.
