(* ===== verification/Flush.v ===== *)
(** * Writing a memtable to a table

    [build_table] of [src/db/mod.rs] and [write_level0_files] of
    [src/version/version_set.rs].  The table is written through the class [TableSink]
    of [Compaction]; [storage_remove] is [Storage::remove] of the table file with that
    number. *)
From stdpp Require Import gmap sorting.
From S2P Require Import Prelude Coding Comparator Format Iterator VersionEdit Version KMerge DbIter Compaction.
Open Scope Z_scope.

(** What [write_level0_files] changes: the next file number, the edit, and the tables
    that were written. *)
Record FlushState (B : Type) : Type := mkFlush { fl_next : Z; fl_edit : VersionEdit; fl_tables : list B }.
Arguments mkFlush {B}. Arguments fl_next {B}. Arguments fl_edit {B}. Arguments fl_tables {B}.

Section Flush.
Context {B : Type} {TS : TableSink B} {I : Type} {IT : Iterator I}.
Context (ck : bool) (ucmp : Comparator) (storage_remove : Z → outcome unit).
Context (max_mem_compact_level : nat) (max_file_size : Z).

(** The loop that adds the entries: how it ended, the builder and the last key added. *)
Fixpoint build_loop (fuel : nat) (it : I) (b : B) (prev_key : bytes) : outcome (outcome unit * I * B * bytes) :=
  if it_valid it then
    match fuel with
    | O => OutOfFuel
    | S fuel =>
      key ← it_key it;
      value ← it_value it;
      match sink_add b key value with
      | Ok b => it ← it_next it; build_loop fuel it b key
      | Err e => Ok (Err e, it, b, prev_key)
      | Panic => Panic
      | OutOfFuel => OutOfFuel
      end
    end
  else Ok (Ok tt, it, b, prev_key).

Definition with_bounds (meta : FileMetaData) (size : Z) (smallest largest : InternalKey) : FileMetaData :=
  mkMeta (fm_allowed_seeks meta) size (fm_number meta) smallest largest.

(** [build_table] when the iterator has an entry: the status, the metadata, the table. *)
Definition build_entries (fuel : nat) (it : I) (meta : FileMetaData) : outcome (outcome unit * I * FileMetaData * option B) :=
  b ← sink_create (fm_number meta);
  first ← it_key it;
  r ← build_loop fuel it b [];
  let '(status, it, b, prev_key) := r in
  let largest := match prev_key with [] => fm_largest meta | _ => ikey_decoded_from prev_key end in
  let meta := with_bounds meta 0 (ikey_decoded_from first) largest in
  match status with
  | Ok _ =>
    match sink_finish b with
    | Ok b =>
      let size := sink_file_size b in
      _ ← rust_assert (0 <? size);
      match sink_check b (fm_number meta) size with
      | Panic => Panic
      | OutOfFuel => OutOfFuel
      | status => Ok (status, it, with_bounds meta size (fm_smallest meta) (fm_largest meta), Some b)
      end
    | Err e => Ok (Err e, it, meta, None)
    | Panic => Panic
    | OutOfFuel => OutOfFuel
    end
  | status => Ok (status, it, meta, None)
  end.
Definition build_table (fuel : nat) (it : I) (meta : FileMetaData) : outcome (FileMetaData * option B) :=
  let meta := with_bounds meta 0 (fm_smallest meta) (fm_largest meta) in
  it ← it_seek_to_first it;
  r ← (if it_valid it then build_entries fuel it meta else Ok (Ok tt, it, meta, None));
  let '(status, it, meta, table) := r in
  let status := match (it_status it).1 with Ok _ => status | iter_status => iter_status end in
  match status with
  | Ok _ =>
    if fm_file_size meta =? 0 then _ ← storage_remove (fm_number meta); Ok (meta, None) else Ok (meta, table)
  | Err e => _ ← storage_remove (fm_number meta); Err e
  | Panic => Panic
  | OutOfFuel => OutOfFuel
  end.

(** [write_level0_files] on the files of the current version. *)
Definition write_level0_files (fuel : nat) (files : list (list FileMetaData)) (max_levels : nat) (it : I) (into_base : bool)
    : st (FlushState B) unit :=
  number ← gets fl_next;
  next ← lift (uadd ck 64 number 1);
  _ ← modify (λ s, mkFlush next (fl_edit s) (fl_tables s));
  r ← lift (build_table fuel it (mkMeta 0 0 number ikey_default ikey_default));
  let '(meta, table) := r in
  if 0 <? fm_file_size meta then
    smallest ← lift (ikey_user_key (fm_smallest meta));
    largest ← lift (ikey_user_key (fm_largest meta));
    level ← lift (if into_base
                  then pick_level_for_memtable_output ck ucmp files max_levels max_mem_compact_level max_file_size smallest largest
                  else Ok 0%nat);
    modify (λ s, mkFlush (fl_next s)
      (add_file (Z.of_nat level) (fm_number meta) (fm_file_size meta) (fm_smallest meta) (fm_largest meta) (fl_edit s))
      (fl_tables s ++ option_list table))
  else mret tt.
End Flush.

(** ** A flush writes the memtable *)
Section Facts.
Context {B : Type} {TS : TableSink B} {I : Type} {IT : Iterator I}.
Context (ck : bool) (ucmp : Comparator) (uok : bytes → Prop) (uord : bytes → bytes → comparison) {CO : ComparatorOrder ucmp uok uord}.
Context (key_ok : bytes → Prop) (rep : I → list entry → option nat → Prop) {FL : FwdLaws (iord uord) key_ok rep}.
Context (holds : B → list entry → Prop) {SL : TableSinkLaws (iord uord) (ikey_ok uok) holds}.
(** A finished table is not empty. *)
Context (sink_nonempty : ∀ b es b', holds b es → sink_finish b = Ok b' → 0 < sink_file_size b').
Context (storage_remove : Z → outcome unit) (max_mem_compact_level : nat) (max_file_size : Z).

(** The table and its size come from finishing a builder with these entries. *)
Definition finished (b : B) (size : Z) (l : list entry) : Prop := ∃ b0, holds b0 l ∧ sink_finish b0 = Ok b ∧ size = sink_file_size b.

Lemma build_loop_ok l i it b prev fuel : sorted (iord uord) l → Forall (λ e, ikey_ok uok e.1) l →
  rep it l (if decide (i < length l)%nat then Some i else None) → (i ≤ length l)%nat → holds b (take i l) → (length l - i ≤ fuel)%nat →
  ∃ it' b', build_loop fuel it b prev = Ok (Ok tt, it', b', match last (drop i l) with Some e => e.1 | None => prev end) ∧
    rep it' l None ∧ holds b' l.
Proof.
  intros Hs Hok. remember (length l - i)%nat as n eqn:Hn. revert i it b prev fuel Hn.
  induction n as [|n IH]; intros i it b prev fuel Hn Hrep Hi Hb Hfuel.
  - rewrite decide_False in Hrep by lia. exists it, b. destruct fuel; cbn [build_loop]; rewrite (rep_valid _ _ it _ _ Hrep), drop_ge by lia;
      rewrite take_ge in Hb by lia; done.
  - rewrite decide_True in Hrep by lia. destruct fuel as [|fuel]; [lia|]. cbn [build_loop]. rewrite (rep_valid _ _ it _ _ Hrep).
    destruct (lookup_lt_is_Some_2 l i) as [[k v] Hkv]; [lia|].
    rewrite (rep_key _ _ it _ _ _ Hrep Hkv), (rep_value _ _ it _ _ _ Hrep Hkv), !Ok_bind. cbn [fst snd].
    destruct (sink_add_ok (holds := holds) b (take i l) k v) as (b' & -> & Hb'); [done| | |].
    { rewrite Forall_forall in Hok. apply (Hok (k, v)). by eapply list_elem_of_lookup_2. }
    { intros e [j [Hj Hlt]]%elem_of_take. exact (Hs j i e (k, v) Hlt Hj Hkv). }
    rewrite <- (take_S_r _ _ _ Hkv) in Hb'. destruct (rep_next _ _ it _ _ Hrep) as (it' & -> & Hrep'). rewrite Ok_bind.
    destruct (IH (S i) it' b' k fuel) as (it2 & b2 & -> & ? & ?); [lia| |lia|done|lia|].
    { revert Hrep'. unfold next_pos. by repeat case_decide; try lia. }
    exists it2, b2. split; [|done]. f_equal. f_equal. rewrite (drop_S _ _ _ Hkv). destruct (drop (S i) l) as [|e l'] eqn:E; [done|].
    change (last ((k, v) :: e :: l')) with (last (e :: l')). destruct (last (e :: l')) eqn:E'; [done|]. by apply last_None in E'.
Qed.
Lemma build_table_ok l a z it number fuel : sorted (iord uord) l → Forall (λ e, ikey_ok uok e.1) l →
  head l = Some a → last l = Some z → rep it l None → (length l ≤ fuel)%nat →
  ∃ b size, build_table storage_remove fuel it (mkMeta 0 0 number ikey_default ikey_default) =
      Ok (mkMeta 0 size number (mkIKey a.1) (mkIKey z.1), Some b) ∧ 0 < size ∧ holds b l ∧ finished b size l.
Proof.
  intros Hs Hok Ha Hz Hrep Hfuel. destruct l as [|e l]; [done|]. injection Ha as ->.
  unfold build_table. destruct (rep_seek_to_first _ _ it _ _ Hrep) as (it1 & -> & Hrep1). rewrite Ok_bind.
  cbn [first_pos] in Hrep1. rewrite (rep_valid _ _ it1 _ _ Hrep1). unfold build_entries. cbn [fm_number with_bounds fm_smallest fm_largest].
  destruct (sink_create_ok (holds := holds) number) as (b0 & -> & Hb0). rewrite Ok_bind.
  rewrite (rep_key _ _ it1 _ _ a Hrep1) by done. rewrite Ok_bind.
  destruct (build_loop_ok (a :: l) 0 it1 b0 [] fuel Hs Hok) as (it2 & b1 & -> & Hrep2 & Hb1); [done|simpl; lia|done|simpl in *; lia|].
  rewrite Ok_bind, drop_0, Hz. destruct (sink_finish_ok (holds := holds) b1 (a :: l) Hb1) as (b2 & Hfin & Hb2 & Hcheck).
  rewrite Hfin. pose proof (sink_nonempty _ _ _ Hb1 Hfin) as Hpos.
  rewrite assert_true, Ok_bind, Hcheck by (by apply Z.ltb_lt). rewrite Ok_bind.
  destruct (rep_status _ _ it2 _ _ Hrep2) as (it3 & -> & _). cbn [fst fm_file_size with_bounds fm_number fm_smallest fm_largest fm_allowed_seeks].
  rewrite (proj2 (Z.eqb_neq _ _)) by lia. exists b2, (sink_file_size b2). split_and!; [|done|done|by exists b1]. repeat f_equal.
  assert (ikey_ok uok z.1) as [Hlen _].
  { rewrite Forall_forall in Hok. apply Hok. rewrite last_lookup in Hz. by eapply list_elem_of_lookup_2. }
  destruct z.1; [simpl in Hlen; lia|done].
Qed.

Lemma write_level0_ok files l a z it number edit tables fuel into_base : levels_ok uok uord files → sizes_ok files →
  (max_mem_compact_level < length files)%nat → 0 ≤ 10 * max_file_size < 2 ^ 64 → number + 1 < 2 ^ 64 →
  sorted (iord uord) l → Forall (λ e, ikey_ok uok e.1) l → head l = Some a → last l = Some z → rep it l None → (length l ≤ fuel)%nat →
  ∃ b size level, write_level0_files ck ucmp storage_remove max_mem_compact_level max_file_size fuel files (length files) it into_base
      (mkFlush number edit tables) =
      (Ok tt, mkFlush (number + 1) (add_file (Z.of_nat level) number size (mkIKey a.1) (mkIKey z.1) edit) (tables ++ [b])) ∧
    0 < size ∧ holds b l ∧ (level < length files)%nat ∧ (into_base = false → level = 0%nat) ∧
    (level ≠ 0%nat → ∀ j, (j ≤ level)%nat → level_free uord files (ukey a.1) (ukey z.1) j) ∧ finished b size l.
Proof.
  intros Hlv Hsz Hmax Hm Hn Hs Hok Ha Hz Hrep Hfuel.
  destruct (build_table_ok l a z it number fuel Hs Hok Ha Hz Hrep Hfuel) as (b & size & Hbuild & Hpos & Hb & Hfin).
  assert (ikey_ok uok a.1 ∧ ikey_ok uok z.1) as [Hao Hzo].
  { rewrite Forall_forall in Hok. rewrite head_lookup in Ha. rewrite last_lookup in Hz. split; apply Hok; by eapply list_elem_of_lookup_2. }
  assert (∃ level, (if into_base then pick_level_for_memtable_output ck ucmp files (length files) max_mem_compact_level max_file_size
      (ukey a.1) (ukey z.1) else Ok 0%nat) = Ok level ∧ (level < length files)%nat ∧ (into_base = false → level = 0%nat) ∧
    (level ≠ 0%nat → ∀ j, (j ≤ level)%nat → level_free uord files (ukey a.1) (ukey z.1) j)) as (level & Hlevel & Hlt & Hbase & Hfree).
  { destruct into_base; [|exists 0%nat; split_and!; [done|lia|done|done]].
    destruct (pick_level_ok ucmp uok uord ck files max_mem_compact_level max_file_size (ukey a.1) (ukey z.1)) as (level & ? & ? & ?);
      [done|done|done|done|apply Hao|apply Hzo|]. exists level. split_and!; [done|lia|done|done]. }
  exists b, size, level. split_and!; try done. unfold write_level0_files. rewrite gets_bind. cbn [fl_next].
  rewrite uadd_small, lift_Ok_bind, modify_bind, Hbuild, lift_Ok_bind by done. cbn [fm_file_size fm_smallest fm_largest fm_number].
  rewrite (proj2 (Z.ltb_lt _ _) Hpos), (user_key_ok uok (mkIKey a.1) Hao), lift_Ok_bind, (user_key_ok uok (mkIKey z.1) Hzo), lift_Ok_bind.
  cbn [ik_data]. rewrite Hlevel, lift_Ok_bind. done.
Qed.
End Facts.
