(* ===== verification/Recovery.v ===== *)
(** * Recovery of the write-ahead log: [DBImpl::replay_log_file] of [src/db/mod.rs]

    The records of a log are read back, applied to a memtable and written to level 0
    when the memtable is full; at the end the memtable becomes the memtable of the
    database (when the log is reused) or is written out too. *)
From stdpp Require Import gmap sorting.
From S2P Require Import Prelude Coding Varint Comparator Format Storage Record Iterator SkipList SkipListFacts MemTable Batch VersionEdit Version KMerge DbIter Compaction Flush DbWrite.
Open Scope Z_scope.

Section Replay.
Context `{CRC : Crc32} `{FO : File F} {B : Type} {TS : TableSink B}.
Context (ck : bool) (node_base : Z) (ucmp : Comparator) (storage_remove : Z → outcome unit).
(** The options the code reads. *)
Context (write_buffer_size : Z) (paranoid_checks reuse_logs : bool) (max_mem_compact_level : nat) (max_file_size : Z).
(** [Display] of an error. *)
Context (error_text : error → string).

(** [LogReporter::result] *)
Definition log_reporter_result (l : LogReporter) : outcome unit :=
  if lr_ok l then Ok tt
  else Err (Corruption match lr_reason l with Some (Msg s) => s | Some (OfError e) => error_text e | None => "" end).

(** The variables of the loop. *)
Record ReplayState : Type := mkReplay {
  rp_mem : option SkipList;
  rp_flush : FlushState B;
  rp_save_manifest : bool;
  rp_need_compaction : bool;
  rp_max_sequence : Z;
}.

Definition run_flush (fuel : nat) (files : list (list FileMetaData)) (mem : SkipList) (fl : FlushState B) : outcome (FlushState B) :=
  match write_level0_files (IT := MemTableIterator_Iterator ucmp) ck ucmp storage_remove max_mem_compact_level max_file_size fuel
          files (length files) (mi_new mem) false fl with
  | (Ok _, fl) => Ok fl
  | (Err e, _) => Err e
  | (Panic, _) => Panic
  | (OutOfFuel, _) => OutOfFuel
  end.

(** One record of the log. *)
Definition replay_record (fuel : nat) (files : list (list FileMetaData)) (heights : list nat) (data : bytes) (s : ReplayState)
    : outcome ReplayState :=
  if len data <? Z.of_nat BATCH_HEADER_SIZE then Err (Corruption "log record too small")
  else
    mem ← match rp_mem s with Some m => Ok m | None => mem_new ck node_base write_buffer_size end;
    let batch := wb_set_contents data in
    count ← get_count batch;
    sum ← uadd ck 64 (get_sequence batch) count;
    last_seq ← usub ck 64 sum 1;
    let '(res, mem) := insert_into ck node_base ucmp heights batch mem in
    _ ← match res with Err e => if paranoid_checks then Err e else Ok tt | r => r end;
    let max_sequence := if rp_max_sequence s <? last_seq then last_seq else rp_max_sequence s in
    usage ← approximate_memory_usage ck mem;
    if write_buffer_size <? usage then
      fl ← run_flush fuel files mem (rp_flush s);
      Ok (mkReplay None fl true true max_sequence)
    else Ok (mkReplay (Some mem) (rp_flush s) (rp_save_manifest s) (rp_need_compaction s) max_sequence).

(** The loop; [n]: more than the records of the log. *)
Fixpoint replay_loop (n fuel : nat) (files : list (list FileMetaData)) (heights : list (list nat)) (r : Reader F) (s : ReplayState)
    : outcome (Reader F * ReplayState) :=
  match n with
  | O => OutOfFuel
  | S n =>
    res ← read_record ck fuel r [];
    match res with
    | (false, _, r) => Ok (r, s)
    | (true, data, r) =>
      _ ← match r_reporter r with Some log => log_reporter_result (log_reporter_of log) | None => Ok tt end;
      s ← replay_record fuel files (hd [] heights) data s;
      replay_loop n fuel files (tl heights) r s
    end
  end.

(** What the replay of a log leaves: the last sequence number, the flags and the edit,
    and, when the log is reused, its writer and the memtable of the database. *)
Record Replayed : Type := mkReplayed {
  rd_max_sequence : Z;
  rd_save_manifest : bool;
  rd_flush : FlushState B;
  rd_reuse : option (Writer F * SkipList);
}.

(** [opened] is the result of opening the log. *)
Definition replay_log_file (n fuel : nat) (files : list (list FileMetaData)) (heights : list (list nat)) (opened : outcome F)
    (last_log save_manifest : bool) (fl : FlushState B) : outcome Replayed :=
  match opened with
  | Panic => Panic
  | OutOfFuel => OutOfFuel
  | Err e => if paranoid_checks then Err e else Ok (mkReplayed 0 save_manifest fl None)
  | Ok log_file =>
    r ← replay_loop n fuel files heights (reader_new log_file (Some []) true 0) (mkReplay None fl save_manifest false 0);
    let '(reader, s) := r in
    if reuse_logs && last_log && negb (rp_need_compaction s) then
      w ← writer_new (r_file reader);
      mem ← match rp_mem s with Some m => Ok m | None => mem_new ck node_base write_buffer_size end;
      Ok (mkReplayed (rp_max_sequence s) (rp_save_manifest s) (rp_flush s) (Some (w, mem)))
    else
      match rp_mem s with
      | Some m => fl ← run_flush fuel files m (rp_flush s); Ok (mkReplayed (rp_max_sequence s) true fl None)
      | None => Ok (mkReplayed (rp_max_sequence s) (rp_save_manifest s) (rp_flush s) None)
      end
  end.
End Replay.
Arguments ReplayState B : clear implicits.
Arguments Replayed F B : clear implicits.

Lemma fmap_join {A C} (f : A → C) (ll : list (list A)) : f <$> mjoin ll = mjoin (fmap (M:=list) f <$> ll).
Proof. induction ll as [|l ll IH]; [done|]. change (mjoin (l :: ll)) with (l ++ mjoin ll). by rewrite fmap_app, IH. Qed.

(** The entries of a memtable and its iterator. *)
Lemma mem_entries (uok : bytes → Prop) (uord : bytes → bytes → comparison) {KO : KeyOrder uord} m l : mem_rep uok uord m l →
  sorted (iord uord) (rec_kv <$> l) ∧ Forall (λ e, ikey_ok uok e.1) (rec_kv <$> l) ∧ mem_iter_rep uok uord (mi_new m) (rec_kv <$> l) None.
Proof.
  intros (ps & INV & Heq & Hl). split_and!.
  - intros i j a b Hij (ra & -> & Ha)%list_lookup_fmap_Some (rb & -> & Hb)%list_lookup_fmap_Some.
    exact (rec_sorted uok uord m ps l i j ra rb INV Heq Hl Hij Ha Hb).
  - apply Forall_fmap. eapply Forall_impl; [exact Hl|]. intros r Hr. split; cbn [rec_kv fst compose]; unfold rec_ikey.
    + rewrite length_ikey. lia.
    + rewrite ukey_ikey. apply Hr.
  - exists l. split_and!; [done..|]. by exists ps.
Qed.

(** ** Replaying a log *)
Section Facts.
Context `{CRC : Crc32, !Crc32Laws} `{FL : FileLaws F} {B : Type} {TS : TableSink B}.
Context (ck : bool) (node_base : Z) (Hbase : 0 < node_base < 2 ^ 40).
Context (ucmp : Comparator) (uok : bytes → Prop) (uord : bytes → bytes → comparison) {CO : ComparatorOrder ucmp uok uord}.
Context (holds : B → list entry → Prop) {SL : TableSinkLaws (iord uord) (ikey_ok uok) holds}.
Context (sink_nonempty : ∀ b es b', holds b es → sink_finish b = Ok b' → 0 < sink_file_size b').
Context (storage_remove : Z → outcome unit) (max_mem_compact_level : nat) (max_file_size : Z).
Context (write_buffer_size : Z) (paranoid_checks reuse_logs : bool) (error_text : error → string).
Context (files : list (list FileMetaData)).
Context (Hlv : levels_ok uok uord files) (Hsz : sizes_ok files) (Hmax : (max_mem_compact_level < length files)%nat) (Hmf : 0 ≤ 10 * max_file_size < 2 ^ 64).
(** The state the replay starts from, and the records that fit in a memtable. *)
Context (fl0 : FlushState B) (total : Z) (Hcap : 8 * (write_buffer_size / 8) < 2 ^ 62)
  (Hroom : 1 + (node_base + 167) * (1 + total) ≤ write_buffer_size / 8 * 8) (Htotal : 0 ≤ total < 2 ^ 28).

(** A table made of the records [l], and its file. *)
Record table_of (f : FileMetaData) (b : B) (l : list mrec) : Prop := {
  to_made : finished holds b (fm_file_size f) (rec_kv <$> l);
  to_holds : holds b (rec_kv <$> l);
  to_sorted : sorted (iord uord) (rec_kv <$> l);
  to_ok : Forall (rec_ok uok) l;
  to_bounds : ∃ a z, head l = Some a ∧ last l = Some z ∧ fm_smallest f = mkIKey (rec_ikey a) ∧ fm_largest f = mkIKey (rec_ikey z);
  to_seeks : fm_allowed_seeks f = 0;
}.
Definition add_meta (e : VersionEdit) (f : FileMetaData) : VersionEdit := add_file 0 (fm_number f) (fm_file_size f) (fm_smallest f) (fm_largest f) e.

(** The tables written since the start hold the records [parts] and the edit lists them. *)
Definition flushed (fl : FlushState B) (parts : list (list mrec)) : Prop :=
  ∃ tabs fs, fl_tables fl = fl_tables fl0 ++ tabs ∧ Forall3 table_of fs tabs parts ∧ fl_edit fl = foldl add_meta (fl_edit fl0) fs ∧
    fm_number <$> fs = seqZ (fl_next fl0) (len parts) ∧ fl_next fl = fl_next fl0 + len parts.

Lemma flushed_start : flushed fl0 [].
Proof. exists [], []. rewrite !app_nil_r. split_and!; try done; [constructor|]. unfold len. simpl. lia. Qed.

Lemma run_flush_ok fuel m l fl parts : mem_rep uok uord m l → l ≠ [] → (length l ≤ fuel)%nat → flushed fl parts → fl_next fl + 1 < 2 ^ 64 →
  ∃ fl', run_flush ck ucmp storage_remove max_mem_compact_level max_file_size fuel files m fl = Ok fl' ∧ flushed fl' (parts ++ [l]).
Proof.
  intros Hrep Hne Hfuel (tabs & fs & Htabs & Hall & Hedit & Hnum & Hnext) Hlt. unfold run_flush.
  destruct (mem_entries uok uord m l Hrep) as (Hsorted & Hkeys & Hit). destruct l as [|r l]; [done|].
  destruct (last (r :: l)) as [z|] eqn:Hz; [|by apply last_None in Hz]. assert (last (rec_kv <$> r :: l) = Some (rec_kv z)) as Hz' by (by rewrite fmap_last, Hz).
  destruct fl as [next edit tables]. cbn [fl_next fl_tables fl_edit] in *.
  destruct (write_level0_ok (IT := MemTableIterator_Iterator ucmp) ck ucmp uok uord (mem_target_ok uok) (mem_iter_rep uok uord) holds sink_nonempty
    storage_remove max_mem_compact_level max_file_size files (rec_kv <$> r :: l) (rec_kv r) (rec_kv z) (mi_new m) next edit tables fuel false)
    as (b & size & level & -> & _ & Hb & _ & Hl0 & _ & Hfin); try done.
  { by rewrite length_fmap. }
  rewrite (Hl0 eq_refl). eexists. split; [done|]. exists (tabs ++ [b]), (fs ++ [mkMeta 0 size next (mkIKey (rec_ikey r)) (mkIKey (rec_ikey z))]).
  cbn [fl_next fl_tables fl_edit]. split_and!.
  - by rewrite Htabs, app_assoc.
  - apply Forall3_app; [done|]. constructor; [|constructor]. destruct Hrep as (_ & _ & _ & Hok). split; try done. by exists r, z.
  - by rewrite foldl_app, Hedit.
  - rewrite fmap_app, Hnum, len_snoc, seqZ_app by (apply len_nonneg || lia). by rewrite <- Hnext.
  - rewrite len_snoc. lia.
Qed.

(** Every record of a part is older than those of the later parts. *)
Definition oldest_first (parts : list (list mrec)) : Prop :=
  ∀ i j p q a b, (i < j)%nat → parts !! i = Some p → parts !! j = Some q → a ∈ p → b ∈ q → r_seq a < r_seq b.
Lemma oldest_first_snoc parts l : oldest_first (parts ++ [l]) ↔ oldest_first parts ∧ ∀ a b, a ∈ mjoin parts → b ∈ l → r_seq a < r_seq b.
Proof.
  split.
  - intros Ho. split.
    + intros i j p q a b Hij Hp Hq. apply (Ho i j); [done|by apply lookup_app_l_Some..].
    + intros a b (p & Hap & [i Hp]%list_elem_of_lookup_1)%list_elem_of_join Hb. apply (Ho i (length parts) p l a b); try done.
      * by eapply lookup_lt_Some.
      * by apply lookup_app_l_Some.
      * by apply list_lookup_middle.
  - intros [Ho Hl] i j p q a b Hij Hp Hq Ha Hb. apply lookup_lt_Some in Hq as Hj. rewrite length_app in Hj. simpl in Hj.
    rewrite lookup_app_l in Hp by lia. destruct (decide (j = length parts)) as [->|Hne].
    + rewrite list_lookup_middle in Hq by done. injection Hq as <-. apply Hl; [|done]. apply list_elem_of_join. exists p. split; [done|by eapply list_elem_of_lookup_2].
    + rewrite lookup_app_l in Hq by lia. by apply (Ho i j p q).
Qed.

(** The state of the loop after the records [recs] were applied. *)
Definition replay_inv (s : ReplayState B) (recs : list mrec) (left : Z) : Prop :=
  ∃ parts l, flushed (rp_flush s) parts ∧ recs ≡ₚ mjoin parts ++ l ∧ oldest_first (parts ++ [l]) ∧ len parts ≤ len (mjoin parts) ∧
    (∀ r, r ∈ l → r ∈ recs) ∧ (length l ≤ length recs)%nat ∧ (rp_need_compaction s = false → parts = [] ∧ rp_flush s = fl0) ∧
    match rp_mem s with
    | Some m => mem_rep uok uord m l ∧ l ≠ [] ∧ mem_room node_base left m ∧ mem_sized left m
    | None => l = []
    end.

(** The memtable a record is applied to: the current one or a fresh one. *)
Lemma replay_mem s recs left : replay_inv s recs left → 0 ≤ left ≤ total →
  ∃ m parts l, match rp_mem s with Some m => Ok m | None => mem_new ck node_base write_buffer_size end = Ok m ∧
    flushed (rp_flush s) parts ∧ recs ≡ₚ mjoin parts ++ l ∧ oldest_first (parts ++ [l]) ∧ len parts ≤ len (mjoin parts) ∧
    (∀ r, r ∈ l → r ∈ recs) ∧ (length l ≤ length recs)%nat ∧ (rp_need_compaction s = false → parts = [] ∧ rp_flush s = fl0) ∧
    mem_rep uok uord m l ∧ mem_room node_base left m ∧ mem_sized left m.
Proof.
  intros (parts & l & Hfl & Hp & Hof & Hn & Hin & Hlen & Hneed & Hm) Hleft. destruct (rp_mem s) as [m|].
  { exists m, parts, l. naive_solver. }
  subst l. destruct (mem_new_room ck node_base uok uord write_buffer_size left Hbase Hcap) as (m & Hnew & Hrep & Hr & Hz); [lia|nia|].
  exists m, parts, []. split_and!; try done. unfold mem_sized. rewrite Hz. split; lia.
Qed.

Lemma usage_ok left m : 0 ≤ left → mem_room node_base left m → mem_sized left m → ∃ u, approximate_memory_usage ck m = Ok u.
Proof.
  intros Hl (H1 & H2 & H3) [H4 H5]. exists (sl_size m + ar_len (sl_arena m)). unfold approximate_memory_usage, total_size, memory_used.
  apply uadd_small. nia.
Qed.

Lemma replay_record_ok fuel hs data s recs left q ops : replay_inv s recs (len ops + left) → wb_rep (mkBatch data) q ops → ops ≠ [] →
  Forall (op_ok uok) ops → heights_ok hs → 0 < q → q + len ops ≤ MAX_KEY_SEQUENCE + 1 → (∀ r, r ∈ recs → r_seq r < q) → 0 ≤ left →
  len recs + len ops + left ≤ total → (Z.to_nat total ≤ fuel)%nat → fl_next fl0 + total + 1 < 2 ^ 64 →
  ∃ s', replay_record ck node_base ucmp storage_remove write_buffer_size paranoid_checks max_mem_compact_level max_file_size fuel files hs data s = Ok s' ∧
    replay_inv s' (recs ++ op_recs q ops) left ∧ rp_max_sequence s' = Z.max (rp_max_sequence s) (q + len ops - 1) ∧
    (rp_save_manifest s = true → rp_save_manifest s' = true).
Proof.
  intros Hinv Hb Hne Hops Hhs Hq Hqm Hold Hleft Htot Hfuel Hnext. pose proof (len_nonneg recs). unfold MAX_KEY_SEQUENCE in Hqm.
  assert (0 < len ops) as Hpos by (destruct ops; [done|rewrite len_cons; pose proof (len_nonneg ops); lia]).
  destruct (replay_mem s recs _ Hinv) as (m & parts & l & Hmem & Hfl & Hp & Hof & Hn & Hin & Hlen & Hneed & Hrep & Hr & Hz); [lia|].
  assert (len parts ≤ len recs) as Hnr by (apply Permutation_length in Hp; rewrite length_app in Hp; unfold len in *; lia).
  unfold replay_record. rewrite (proj2 (Z.ltb_ge _ _)).
  2: { destruct Hb as (Hc & _). cbn [wb_contents] in Hc. rewrite Hc, !len_app. unfold len. rewrite !length_to_le_bytes. unfold BATCH_HEADER_SIZE. lia. }
  rewrite Hmem, Ok_bind. unfold wb_set_contents. rewrite (wb_get_count _ _ _ Hb), Ok_bind, (wb_get_sequence _ _ _ Hb).
  rewrite uadd_small, Ok_bind, usub_small, Ok_bind by lia.
  destruct (insert_batch_ok ck node_base Hbase ucmp uok uord hs (mkBatch data) q ops m l left) as (m' & l' & -> & Hrep' & Hp' & Hr' & Hz'); try done.
  { lia. } { intros r Hr'. by apply Hold, Hin. }
  specialize (Hz' left Hleft Hz). rewrite Ok_bind. destruct (usage_ok left m' Hleft Hr' Hz') as (u & ->). rewrite Ok_bind.
  assert ((if rp_max_sequence s <? q + len ops - 1 then q + len ops - 1 else rp_max_sequence s) = Z.max (rp_max_sequence s) (q + len ops - 1)) as ->.
  { destruct (Z.ltb_spec (rp_max_sequence s) (q + len ops - 1)); lia. }
  assert (l' ≠ []) as Hl'. { intros ->. destruct ops; [done|]. by apply Permutation_nil_cons in Hp'. }
  assert (length l' ≤ length (recs ++ op_recs q ops))%nat as Hlen'. { rewrite Hp', !length_app. lia. }
  assert (recs ++ op_recs q ops ≡ₚ mjoin parts ++ l') as Hperm.
  { rewrite Hp', Hp, <- app_assoc. by rewrite (Permutation_app_comm l). }
  assert (∀ r, r ∈ l' → r ∈ recs ++ op_recs q ops) as Hin'. { intros r. rewrite Hp', !elem_of_app. naive_solver. }
  assert (oldest_first (parts ++ [l'])) as Hof'.
  { apply oldest_first_snoc in Hof as [Hof Hol]. apply oldest_first_snoc. split; [done|]. intros x y Hx. rewrite Hp', elem_of_app. intros [Hy%op_recs_seq|Hy]; [|by apply Hol].
    assert (x ∈ recs) as Hxr by (rewrite Hp; apply elem_of_app; by left). specialize (Hold x Hxr). lia. }
  destruct (write_buffer_size <? u).
  - destruct (run_flush_ok fuel m' l' (rp_flush s) parts Hrep' Hl') as (fl' & -> & Hfl'); [|done| |].
    { rewrite length_app, length_op_recs in Hlen'. unfold len in *. lia. } { destruct Hfl as (_ & _ & _ & _ & _ & _ & ->). lia. }
    rewrite Ok_bind. eexists. split; [done|]. split; [|by split]. exists (parts ++ [l']), []. split_and!; try done.
    + rewrite join_app. simpl. by rewrite !app_nil_r.
    + apply oldest_first_snoc. split; [done|]. by intros x y _ Hy%elem_of_nil.
    + rewrite join_app, len_snoc, len_app. destruct l' as [|r0 l']; [done|]. simpl. rewrite app_nil_r, len_cons. pose proof (len_nonneg l'). lia.
    + by intros r Hx%elem_of_nil.
    + simpl. lia.
  - eexists. split; [done|]. split; [|by split]. exists parts, l'. by split_and!.
Qed.

Lemma replay_loop_ok n fuel r buf rs r' : reads ck (λ _, []) fuel r buf rs r' → buf = [] → r_reporter r = Some [] →
  ∀ hss s recs q opss left, Forall heights_ok hss → batches_from uok q rs opss → replay_inv s recs (len (mjoin opss) + left) →
  0 < q → q + len (mjoin opss) ≤ MAX_KEY_SEQUENCE + 1 → (∀ r, r ∈ recs → r_seq r < q) → 0 ≤ left →
  len recs + len (mjoin opss) + left ≤ total → (Z.to_nat total ≤ fuel)%nat → fl_next fl0 + total + 1 < 2 ^ 64 → (length rs < n)%nat →
  ∃ s', replay_loop ck node_base ucmp storage_remove write_buffer_size paranoid_checks max_mem_compact_level max_file_size error_text n fuel files hss r s = Ok (r', s') ∧
    replay_inv s' (recs ++ op_recs q (mjoin opss)) left ∧
    rp_max_sequence s' = match opss with [] => rp_max_sequence s | _ => Z.max (rp_max_sequence s) (q + len (mjoin opss) - 1) end ∧
    (rp_save_manifest s = true → rp_save_manifest s' = true).
Proof.
  intros Hreads. revert n. induction Hreads as [r buf buf' r' Hread Hrep|r buf d r1 rs r2 Hread Hrep Hreads IH];
    intros n -> Hr hss s recs q opss left Hhs Hbs Hinv Hq Hqm Hold Hleft Htot Hfuel Hnext Hn;
    (destruct n as [|n]; [lia|]); cbn [replay_loop]; rewrite Hread, Ok_bind.
  - destruct opss; [|done]. exists s. simpl in *. by rewrite app_nil_r.
  - destruct opss as [|ops opss]; [done|]. destruct Hbs as (Hb & Hne & Hops & Hbs). simpl in Hn.
    change (mjoin (ops :: opss)) with (ops ++ mjoin opss) in *. rewrite len_app in *. pose proof (len_nonneg (mjoin opss)). pose proof (len_nonneg ops).
    rewrite Hrep, Hr. change (log_reporter_result error_text (log_reporter_of [])) with (Ok tt). rewrite Ok_bind. rewrite <- Z.add_assoc in Hinv.
    destruct (replay_record_ok fuel (hd [] hss) d s recs (len (mjoin opss) + left) q ops) as (s1 & -> & Hinv1 & Hmx1 & Hsv1); try done; try lia.
    { destruct Hhs; [constructor|done]. }
    rewrite Ok_bind. destruct (IH n eq_refl (eq_trans Hrep Hr) (tl hss) s1 (recs ++ op_recs q ops) (q + len ops) opss left) as (s2 & -> & Hinv2 & Hmx2 & Hsv2); try done; try lia.
    { destruct Hhs; [constructor|done]. }
    { intros x [Hx|Hx%op_recs_seq]%elem_of_app; [specialize (Hold x Hx); lia|lia]. }
    { rewrite len_app. unfold len at 2. rewrite length_op_recs. fold (len ops). lia. }
    exists s2. split; [done|]. rewrite op_recs_app, app_assoc. split_and!; [done| |by auto]. rewrite Hmx2, Hmx1. destruct opss; [rewrite Z.add_0_r in *; simpl; lia|lia].
Qed.

(** What the replay of a log recovered. *)
Definition recovered (res : Replayed F B) (recs : list mrec) : Prop :=
  match rd_reuse res with
  | Some (_, m) => rd_flush res = fl0 ∧ ∃ l, mem_rep uok uord m l ∧ l ≡ₚ recs
  | None => ∃ parts, flushed (rd_flush res) parts ∧ mjoin parts ≡ₚ recs ∧ oldest_first parts ∧ len parts ≤ len recs
  end.

Notation replay := (replay_log_file ck node_base ucmp storage_remove write_buffer_size paranoid_checks reuse_logs max_mem_compact_level max_file_size error_text).

Lemma replay_log_ok n fuel hss f2 last_log save r' rs q opss : reads ck (λ _, []) fuel (reader_new f2 (Some []) true 0) [] rs r' →
  Forall heights_ok hss → batches_from uok q rs opss → 0 < q → q + len (mjoin opss) ≤ MAX_KEY_SEQUENCE + 1 → len (mjoin opss) ≤ total →
  (Z.to_nat total ≤ fuel)%nat → fl_next fl0 + total + 1 < 2 ^ 64 → (length rs < n)%nat →
  ∃ res, replay n fuel files hss (Ok f2) last_log save fl0 = Ok res ∧ recovered res (op_recs q (mjoin opss)) ∧
    rd_max_sequence res = match opss with [] => 0 | _ => q + len (mjoin opss) - 1 end ∧
    (save = true → rd_save_manifest res = true) ∧ (reuse_logs = false → rd_reuse res = None).
Proof.
  intros Hreads Hhs Hbs Hq Hqm Htot Hfuel Hnext Hn. cbn [replay_log_file]. pose proof (len_nonneg (mjoin opss)).
  destruct (replay_loop_ok n fuel _ _ _ _ Hreads eq_refl eq_refl hss (mkReplay None fl0 save false 0) [] q opss 0)
    as (s & -> & (parts & l & Hfl & Hp & Hof & Hnp & Hin & Hlen & Hneed & Hmem) & Hmx & Hsv); try done.
  { exists [], []. split_and!; try done; [apply flushed_start|]. apply oldest_first_snoc. split; [by intros i j p|]. by intros x y _ Hy%elem_of_nil. } { by intros r Hr%elem_of_nil. } { rewrite len_nil. lia. }
  rewrite Ok_bind. cbn [app] in Hp, Hin, Hlen.
  assert (rp_max_sequence s = match opss with [] => 0 | _ => q + len (mjoin opss) - 1 end) as Hmx'.
  { rewrite Hmx. destruct opss; [done|]. cbn [rp_max_sequence]. lia. }
  destruct (reuse_logs && last_log && negb (rp_need_compaction s)) eqn:Hre.
  - apply andb_true_iff in Hre as [[Hre _]%andb_true_iff Hneed'%negb_true_iff]. assert (reuse_logs ≠ false) as Hre' by (by rewrite Hre). destruct (Hneed Hneed') as [-> Hfl0]. cbn [mjoin list_join app] in Hp.
    rewrite writer_new_eq, Ok_bind. destruct (rp_mem s) as [m|].
    + rewrite Ok_bind. eexists. split; [done|]. split; [|split_and!; done || (intros ?; by destruct Hre')]. split; [done|]. exists l. by destruct Hmem.
    + subst l. destruct (mem_new_room ck node_base uok uord write_buffer_size 0 Hbase Hcap) as (m & -> & Hrep & _); [done|nia|].
      rewrite Ok_bind. eexists. split; [done|]. split; [|split_and!; done || (intros ?; by destruct Hre')]. split; [done|]. by exists [].
  - destruct (rp_mem s) as [m|].
    + destruct Hmem as (Hrep & Hne & _ & _). assert (length (op_recs q (mjoin opss)) = length (mjoin opss)) as Hlo by apply length_op_recs.
      assert (len parts ≤ len (mjoin opss)) as Hlp by (apply Permutation_length in Hp; rewrite length_app in Hp; unfold len in *; simpl in *; lia).
      destruct (run_flush_ok fuel m l (rp_flush s) parts Hrep Hne) as (fl' & -> & Hfl'); [unfold len in *; lia|done| |].
      { destruct Hfl as (_ & _ & _ & _ & _ & _ & ->). lia. }
      rewrite Ok_bind. eexists. split; [done|]. split; [|by split_and!]. exists (parts ++ [l]). split; [done|]. split_and!; [|done|].
      * rewrite Hp, join_app. simpl. by rewrite app_nil_r.
      * apply Permutation_length in Hp. rewrite length_app in Hp. destruct l; [done|]. simpl in Hp. rewrite len_snoc. unfold len in *. lia.
    + subst l. eexists. split; [done|]. split; [|by split_and!]. exists parts. split; [exact Hfl|]. apply oldest_first_snoc in Hof as [Hof _]. rewrite app_nil_r in Hp. split_and!; [by rewrite Hp|done|]. apply Permutation_length in Hp. unfold len in *. lia.
Qed.
Lemma commit_log f m0 last0 rounds opss : f_ok f → f_contents f = [] → mem_rep uok uord m0 [] → mem_room node_base total m0 →
  Forall2 (round_ok uok) rounds opss → len (mjoin opss) ≤ total → 0 ≤ last0 → last0 + len (mjoin opss) ≤ MAX_KEY_SEQUENCE →
  ∃ s w' w2 rs, commit_all ck node_base ucmp rounds (mkWriteState m0 (Some (mkWriter f 0 type_crcs)) last0 None) = Ok s ∧
    ws_writer s = Some w' ∧ ws_last_sequence s = last0 + len (mjoin opss) ∧ batches_from uok (last0 + 1) rs opss ∧
    add_records (mkWriter f 0 type_crcs) rs = (Ok tt, w2) ∧ f_contents (w_dest w') = f_contents (w_dest w2).
Proof.
  intros Hf Hc Hm0 Hr0 Hrs Htot Hge Hlast. pose proof (len_nonneg (mjoin opss)).
  assert (writer_ok (mkWriter f 0 type_crcs)) as Hwok by (by split_and!).
  destruct (commit_all_ok ck node_base Hbase ucmp uok uord rounds opss (mkWriteState m0 (Some (mkWriter f 0 type_crcs)) last0 None)
    (mkWriter f 0 type_crcs) [] (total - len (mjoin opss)) Hrs) as (s & l & w' & rs & E & off & Hrun & _ & _ & Hlast' & Hw' & Hbs & Hlog & Hwr); try done.
  { split; cbn [ws_writer ws_mem ws_last_sequence]; try done; [by eexists|by intros r Hr%elem_of_nil|].
    by replace (len (mjoin opss) + (total - len (mjoin opss))) with total by lia. }
  { lia. }
  destruct (add_records_ok (mkWriter f 0 type_crcs) rs Hwok) as (w2 & E2 & o2 & Hadd & Hlog2 & Hwr2).
  exists s, w', w2, rs. split_and!; try done. destruct (log_records_det _ _ _ _ Hlog _ _ Hlog2) as [-> _].
  destruct Hwr as (_ & -> & _), Hwr2 as (_ & -> & _). done.
Qed.

End Facts.

(** *** Witness, on in-memory files with the IEEE checksum *)
Import IeeeCrc.

Definition demo_task (ops : list batch_op) : BatchTask :=
  mkTask false false (mkBatch (to_le_bytes 8 0 ++ to_le_bytes 4 (len ops) ++ mjoin (op_bytes <$> ops))) 0 true.
Definition demo_opss : list (list batch_op) := [[Put [1] [10]; Delete [2]]; [Put [3] [30]]].
Definition demo_rounds : list (list nat * BatchTask * list nat) := [([2%nat], demo_task [Put [1] [10]; Delete [2]], [0%nat; 1%nat]); ([], demo_task [Put [3] [30]], [2%nat])].
Definition no_tables : FlushState (list entry) := mkFlush 5 (ve_new 3) [].

Lemma demo_rounds_ok : Forall2 (round_ok (λ _, True)) demo_rounds demo_opss.
Proof.
  repeat constructor; simpl; try (unfold MAX_HEIGHT; lia); try done.
  all: exists 0; (split; [reflexivity|]); (split; [by split|]); (split; [done|]); repeat constructor; done.
Qed.


(** A reused log gets a writer that starts at block offset 0 wherever the log ends: the
    next record can cross the end of a block, and then it cannot be read back.  (Here
    the log ends 20 bytes before the end of its block.) *)
Example reused_log_loses_record :
  let FI := InmemFile_File true in
  let w1 := (add_record (mkWriter inmem_default 0 type_crcs) (replicate 32741 0)).2 in
  match writer_new (w_dest w1) with
  | Ok w2 =>
    let w3 := (add_record w2 (replicate 50 1)).2 in
    (r ← read_records true 4 40000 (reader_new (w_dest w3) (Some []) true 0) []; Ok (length r.1, r_reporter r.2)) =
      Ok (1%nat, Some [(20, Msg "bad record length")])
  | _ => False
  end.
Proof. vm_compute. reflexivity. Qed.
