(* ===== verification/Manifest.v ===== *)
(** * The manifest: [log_and_apply] and [recover] of [src/version/version_set.rs]

    The version set keeps the counters of the database, the files of the current
    version and the writer of the manifest.  [log_and_apply] applies an edit to the
    current version and logs it; [recover] rebuilds the version set from a manifest. *)
From stdpp Require Import gmap sorting.
From S2P Require Import Prelude Coding Varint Comparator Format Storage Record Iterator VersionEdit Version LevelIter VersionGet VersionBuild KMerge DbIter Compaction Flush DbWrite Recovery.
Open Scope Z_scope.

(** [VersionSet]; of the versions the current one, with its number and its files. *)
Record VersionSet (F : Type) : Type := mkVset {
  v_next_file_number : Z;
  v_last_sequence : Z;
  v_log_number : Z;
  v_prev_log_number : Z;
  v_manifest_file_number : Z;
  v_manifest_writer : option (Writer F);
  v_vnum : Z;
  v_current : list (list FileMetaData);
  v_compaction_pointer : list InternalKey;
}.
Arguments mkVset {F}. Arguments v_next_file_number {F}. Arguments v_last_sequence {F}. Arguments v_log_number {F}.
Arguments v_prev_log_number {F}. Arguments v_manifest_file_number {F}. Arguments v_manifest_writer {F}. Arguments v_vnum {F}.
Arguments v_current {F}. Arguments v_compaction_pointer {F}.

Section Manifest.
Context `{CRC : Crc32} `{FO : File F} (ck : bool) (ucmp : Comparator) (max_levels : nat).
(** The iteration order of the hash set of deleted files. *)
Context (set_iter : gset (Z * Z) → list (Z * Z)).
(** The storage: creating and removing the manifest with a number ([None]: the empty
    name), and [update_current]. *)
Context (create_manifest : Z → outcome F) (remove_manifest : option Z → outcome unit) (update_current : Z → outcome unit).

(** [VersionSet::new] *)
Definition vset_new : VersionSet F :=
  mkVset 0 0 0 0 0 None 0 (replicate max_levels []) (replicate max_levels ikey_default).

Definition inc_next_file_number (v : VersionSet F) : outcome (Z * VersionSet F) :=
  next ← uadd ck 64 (v_next_file_number v) 1;
  Ok (v_next_file_number v, mkVset next (v_last_sequence v) (v_log_number v) (v_prev_log_number v) (v_manifest_file_number v)
    (v_manifest_writer v) (v_vnum v) (v_current v) (v_compaction_pointer v)).

Definition mark_file_number_used (num : Z) (v : VersionSet F) : outcome (VersionSet F) :=
  if v_next_file_number v <=? num then
    next ← uadd ck 64 num 1;
    Ok (mkVset next (v_last_sequence v) (v_log_number v) (v_prev_log_number v) (v_manifest_file_number v) (v_manifest_writer v)
      (v_vnum v) (v_current v) (v_compaction_pointer v))
  else Ok v.

Definition with_writer (v : VersionSet F) (w : option (Writer F)) : VersionSet F :=
  mkVset (v_next_file_number v) (v_last_sequence v) (v_log_number v) (v_prev_log_number v) (v_manifest_file_number v) w
    (v_vnum v) (v_current v) (v_compaction_pointer v).
Definition with_pointers (v : VersionSet F) (ps : list InternalKey) : VersionSet F :=
  mkVset (v_next_file_number v) (v_last_sequence v) (v_log_number v) (v_prev_log_number v) (v_manifest_file_number v)
    (v_manifest_writer v) (v_vnum v) (v_current v) ps.

(** The edit with the counters of the version set filled in. *)
Definition complete_edit (v : VersionSet F) (e : VersionEdit) : outcome VersionEdit :=
  e ← match ve_log_number e with
      | Some target_log => _ ← rust_assert ((v_log_number v <=? target_log) && (target_log <? v_next_file_number v)); Ok e
      | None => Ok (set_log_number (v_log_number v) e)
      end;
  let e := match ve_prev_log_number e with None => set_prev_log_number (v_prev_log_number v) e | Some _ => e end in
  Ok (set_last_sequence (v_last_sequence v) (set_next_file (v_next_file_number v) e)).

(** [write_snapshot] *)
Fixpoint pointer_entries (level : Z) (ps : list InternalKey) : list (Z * InternalKey) :=
  match ps with
  | [] => []
  | p :: ps => (if ikey_is_empty p then [] else [(level, p)]) ++ pointer_entries (level + 1) ps
  end.
Fixpoint file_entries (level : Z) (files : list (list FileMetaData)) : list (Z * FileMetaData) :=
  match files with
  | [] => []
  | fs :: files =>
    ((λ f, (level, mkMeta 0 (fm_file_size f) (fm_number f) (fm_smallest f) (fm_largest f))) <$> fs) ++ file_entries (level + 1) files
  end.
Definition snapshot_edit (v : VersionSet F) : VersionEdit :=
  mkEdit (Z.of_nat max_levels) (Some (bytes_of_string (@cmp_name ucmp))) None None None None
    (pointer_entries 0 (v_compaction_pointer v)) ∅ (file_entries 0 (v_current v)).
Definition write_snapshot (v : VersionSet F) (w : Writer F) : outcome unit * Writer F :=
  add_record w (encode_to set_iter (snapshot_edit v) []).

(** The manifest to write to; a new one begins with a snapshot.  [inr]: the function
    returns early. *)
Definition open_manifest (v : VersionSet F) : (Writer F * option Z) + outcome unit :=
  match v_manifest_writer v with
  | Some w => inl (w, None)
  | None =>
    match create_manifest (v_manifest_file_number v) with
    | Ok f =>
      match writer_new f with
      | Ok w =>
        match write_snapshot v w with
        | (Ok _, w) => inl (w, Some (v_manifest_file_number v))
        | (Err _, _) => inr (remove_manifest (Some (v_manifest_file_number v)))
        | (Panic, _) => inr Panic
        | (OutOfFuel, _) => inr OutOfFuel
        end
      | Err e => inr (Err e) | Panic => inr Panic | OutOfFuel => inr OutOfFuel
      end
    | Err e => inr (Err e) | Panic => inr Panic | OutOfFuel => inr OutOfFuel
    end
  end.

(** Appending the edit to the manifest and, when the manifest is new, making it the
    current one. *)
Definition log_edit (w : Writer F) (new_manifest : option Z) (record : bytes) : outcome unit * Writer F :=
  match add_record w record with
  | (Ok _, w) =>
    match writer_sync w with
    | (Ok _, w) => (match new_manifest with Some n => update_current n | None => Ok tt end, w)
    | r => r
    end
  | r => r
  end.

Definition log_and_apply (v : VersionSet F) (e : VersionEdit) : outcome unit * VersionSet F :=
  match
    (e ← complete_edit v e;
     r ← accumulate set_iter e (builder_new max_levels) (v_compaction_pointer v);
     n ← apply_to_new ucmp ck (v_vnum v) (v_current v) r.1;
     Ok (e, r.2, n))
  with
  | Ok (e, pointers, (vnum, files)) =>
    let v := with_pointers v pointers in
    match open_manifest v with
    | inr r => (r, v)
    | inl (w, new_manifest) =>
      match log_edit w new_manifest (encode_to set_iter e []) with
      | (Ok _, w) =>
        match ve_log_number e, ve_prev_log_number e with
        | Some log, Some prev =>
          (Ok tt, mkVset (v_next_file_number v) (v_last_sequence v) log prev (v_manifest_file_number v) (Some w) vnum files pointers)
        | _, _ => (Panic, v)
        end
      | (Err _, _) => (remove_manifest new_manifest, with_writer v None)
      | (Panic, _) => (Panic, v)
      | (OutOfFuel, _) => (OutOfFuel, v)
      end
    end
  | Err e => (Err e, v)
  | Panic => (Panic, v)
  | OutOfFuel => (OutOfFuel, v)
  end.

(** ** Recovery *)

Context (error_text : error → string).

(** The variables of the loop of [recover]. *)
Record RecoverState : Type := mkRecover {
  rs_builder : list LevelDiff;
  rs_pointers : list InternalKey;
  rs_next_file_number : option Z;
  rs_log_number : option Z;
  rs_prev_log_number : option Z;
  rs_last_sequence : option Z;
}.
Definition or_else (a b : option Z) : option Z := match a with Some _ => a | None => b end.

(** One record of the manifest. *)
Definition recover_record (data : bytes) (s : RecoverState) : outcome RecoverState :=
  match decoded_from data (ve_new (Z.of_nat max_levels)) with
  | (Ok _, e) =>
    _ ← match ve_comparator_name e with
        | Some name => if bool_decide (name = bytes_of_string (@cmp_name ucmp)) then Ok tt
                       else Err (InvalidArgument (string_of_bytes name +:+ " does not match existing compactor"))
        | None => Ok tt
        end;
    r ← accumulate set_iter e (rs_builder s) (rs_pointers s);
    Ok (mkRecover r.1 r.2 (or_else (ve_next_file_number e) (rs_next_file_number s)) (or_else (ve_log_number e) (rs_log_number s))
      (or_else (ve_prev_log_number e) (rs_prev_log_number s)) (or_else (ve_last_sequence e) (rs_last_sequence s)))
  | (Err e, _) => Err e
  | (Panic, _) => Panic
  | (OutOfFuel, _) => OutOfFuel
  end.

Definition reporter_result (r : Reader F) : outcome unit :=
  match r_reporter r with Some log => log_reporter_result error_text (log_reporter_of log) | None => Ok tt end.

Fixpoint recover_loop (n fuel : nat) (r : Reader F) (buf : bytes) (s : RecoverState) : outcome RecoverState :=
  match n with
  | O => OutOfFuel
  | S n =>
    res ← read_record ck fuel r buf;
    match res with
    | (false, _, r) => _ ← reporter_result r; Ok s
    | (true, data, r) =>
      _ ← reporter_result r;
      s ← recover_record data s;
      recover_loop n fuel r data s
    end
  end.

(** [recover] from the manifest that CURRENT names; [reuse] is the writer and the number
    of the manifest when [should_reuse_manifest] keeps it.  The result: whether a new
    manifest is needed. *)
Definition recover (n fuel : nat) (manifest : F) (reuse : option (Writer F * Z)) (v : VersionSet F) : outcome (bool * VersionSet F) :=
  s ← recover_loop n fuel (reader_new manifest (Some []) true 0) []
        (mkRecover (builder_new max_levels) (v_compaction_pointer v) None None None None);
  match rs_next_file_number s, rs_log_number s, rs_last_sequence s with
  | None, _, _ => Err (Corruption "no meta-nextfile entry in manifest")
  | _, None, _ => Err (Corruption "no meta-lognumber entry in manifest")
  | _, _, None => Err (Corruption "no last-sequence-number entry in manifest")
  | Some next_file_number, Some log_number, Some last_sequence =>
    let prev_log_number := default 0 (rs_prev_log_number s) in
    v ← mark_file_number_used prev_log_number v;
    v ← mark_file_number_used log_number v;
    n ← apply_to_new ucmp ck 0 (replicate max_levels []) (rs_builder s);
    next ← uadd ck 64 next_file_number 1;
    let '(writer, manifest_number) :=
      match reuse with Some (w, n) => (Some w, n) | None => (v_manifest_writer v, next_file_number) end in
    Ok (match reuse with Some _ => false | None => true end,
        mkVset next last_sequence log_number prev_log_number manifest_number writer n.1 n.2 (rs_pointers s))
  end.
End Manifest.

(** ** Replaying edits gives the same files *)

Notation set_pointers := (foldl (λ (c : list InternalKey) (p : Z * InternalKey), <[Z.to_nat p.1 := p.2]> c)).

Lemma filter_ext_in {A} (P Q : A → Prop) `{!∀ x, Decision (P x), !∀ x, Decision (Q x)} (l : list A) :
  (∀ x, x ∈ l → P x ↔ Q x) → filter P l = filter Q l.
Proof.
  induction l as [|x l IH]; intros Hl; [done|]. assert (P x ↔ Q x) as Hx by (apply Hl; by left). rewrite !filter_cons.
  rewrite IH by (intros y Hy; apply Hl; by right). by destruct (decide (P x)), (decide (Q x)); try tauto.
Qed.
Lemma filter_fmap {A B} (g : A → B) (P : B → Prop) `{!∀ x, Decision (P x)} (l : list A) : filter P (g <$> l) = g <$> filter (λ x, P (g x)) l.
Proof. induction l as [|x l IH]; [done|]. rewrite fmap_cons, !filter_cons, IH. by case_decide. Qed.

Lemma init_added i ns : init_allowed_seeks <$> added_at i ns = added_at i ns.
Proof. unfold added_at. rewrite <- list_fmap_compose. by apply list_fmap_ext. Qed.
Lemma added_at_reset i ns : added_at i (reset_seeks <$> ns) = added_at i ns.
Proof.
  induction ns as [|[l f] ns IH]; [done|]. unfold added_at in *. rewrite fmap_cons, !filter_cons. cbn [reset_seeks fst].
  case_decide; [|done]. rewrite !fmap_cons. by f_equal.
Qed.
Lemma added_at_app i ns ms : added_at i (ns ++ ms) = added_at i ns ++ added_at i ms.
Proof. unfold added_at. by rewrite filter_app, fmap_app. Qed.

Lemma file_entries_added level files i fs : 0 ≤ level → files !! i = Some fs →
  added_at (Z.to_nat level + i) (file_entries level files) = init_allowed_seeks <$> fs.
Proof.
  assert (∀ l fs j, 0 ≤ l → added_at j ((λ f, (l, mkMeta 0 (fm_file_size f) (fm_number f) (fm_smallest f) (fm_largest f))) <$> fs) =
    if decide (Z.to_nat l = j) then init_allowed_seeks <$> fs else []) as Hone.
  { intros l gs j Hl. unfold added_at. induction gs as [|g gs IH]; [by destruct (decide _)|].
    rewrite fmap_cons, filter_cons. cbn [fst]. destruct (decide (Z.to_nat l = j)); [|done]. rewrite !fmap_cons. by f_equal. }
  assert (∀ l files j, 0 ≤ l → (j < Z.to_nat l)%nat → added_at j (file_entries l files) = []) as Hbelow.
  { intros l gs j. revert l. induction gs as [|g gs IH]; intros l Hl Hj; [done|]. cbn [file_entries].
    rewrite added_at_app, Hone, decide_False, IH by lia. done. }
  revert level i. induction files as [|gs files IH]; intros level i Hl Hi; [done|]. cbn [file_entries]. rewrite added_at_app, Hone by done.
  destruct i as [|i].
  - injection Hi as ->. rewrite decide_True, Hbelow, app_nil_r by lia. done.
  - rewrite decide_False by lia. rewrite app_nil_l, <- (IH (level + 1) i) by (done || lia). f_equal. lia.
Qed.

Lemma pointer_entries_set level ps cs : 0 ≤ level → (∀ i, (Z.to_nat level ≤ i)%nat → (i < Z.to_nat level + length ps)%nat → cs !! i = Some ikey_default) →
  set_pointers cs (pointer_entries level ps) = take (Z.to_nat level) cs ++ ps ++ drop (Z.to_nat level + length ps) cs.
Proof.
  revert level cs. induction ps as [|p ps IH]; intros level cs Hl Hcs.
  { simpl. by rewrite Nat.add_0_r, take_drop. }
  cbn [pointer_entries length]. rewrite foldl_app. set (cs' := foldl _ cs _).
  assert (cs' = <[Z.to_nat level := p]> cs) as ->.
  { subst cs'. assert (cs !! Z.to_nat level = Some ikey_default) as H0 by (apply Hcs; simpl; lia). unfold ikey_is_empty. case_bool_decide as He; [|done].
    cbn [foldl]. symmetry. apply list_insert_id. rewrite H0. destruct p. simpl in He. by subst. }
  assert (Z.to_nat level < length cs)%nat as Hlt by (apply (lookup_lt_Some cs _ ikey_default), Hcs; simpl; lia).
  rewrite IH; [|lia|].
  - replace (Z.to_nat (level + 1)) with (S (Z.to_nat level)) by lia.
    rewrite (take_S_r _ _ p) by (by rewrite list_lookup_insert_eq). rewrite take_insert_ge, <- app_assoc by lia. simpl. do 3 f_equal.
    rewrite drop_insert_lt by lia. f_equal. lia.
  - intros i H1 H2. rewrite list_lookup_insert_ne by lia. apply Hcs; simpl; lia.
Qed.

Lemma set_pointers_length ps cs : length (set_pointers cs ps) = length cs.
Proof. revert cs. induction ps as [|p ps IH]; intros cs; simpl; [done|]. by rewrite IH, length_insert. Qed.
(** Setting the same pointers twice. *)
Lemma set_pointers_idem ps cs : set_pointers (set_pointers cs ps) ps = set_pointers cs ps.
Proof.
  assert (∀ i cs cs', length cs = length cs' → (i ∈ (λ p : Z * InternalKey, Z.to_nat p.1) <$> ps ∨ cs !! i = cs' !! i) →
    set_pointers cs ps !! i = set_pointers cs' ps !! i) as H.
  { induction ps as [|p ps IH]; intros i c c' Hlen Hi; simpl; [destruct Hi as [Hi|]; [by apply elem_of_nil in Hi|done]|].
    apply IH; [by rewrite !length_insert|]. rewrite fmap_cons, elem_of_cons in Hi.
    destruct (decide (i = Z.to_nat p.1)) as [->|Hne]; [|destruct Hi as [[?|?]|Hi]; [done|by left|right; by rewrite !list_lookup_insert_ne]].
    right. destruct (decide (Z.to_nat p.1 < length c)%nat); [by rewrite !list_lookup_insert_eq by lia|].
    by rewrite !lookup_ge_None_2 by (rewrite length_insert; lia). }
  apply list_eq. intros i. apply H; [apply set_pointers_length|].
  destruct (decide (i ∈ (λ p : Z * InternalKey, Z.to_nat p.1) <$> ps)) as [|Hn]; [by left|right].
  clear H. revert cs. induction ps as [|p ps IH]; intros cs; simpl; [done|]. rewrite fmap_cons, elem_of_cons in Hn.
  rewrite IH by tauto. apply list_lookup_insert_ne. intros Heq. by apply Hn; left.
Qed.

Section Facts.
Context `{CRC : Crc32, !Crc32Laws} `{FL : FileLaws F} (ck : bool).
Context (ucmp : Comparator) (uok : bytes → Prop) (uord : bytes → bytes → comparison) {CO : ComparatorOrder ucmp uok uord}.
Context (set_iter : gset (Z * Z) → list (Z * Z)) (Hset : ∀ s, set_iter s ≡ₚ elements s).

(** The (level, number) pairs of the files an edit adds. *)
Definition new_ids (ns : list (Z * FileMetaData)) : list (nat * Z) := (λ n, (Z.to_nat n.1, fm_number n.2)) <$> ns.
Definition edit_all (files : list (list FileMetaData)) (e : VersionEdit) : list (list FileMetaData) := imap (λ i fs, edited i fs e) files.

Lemma added_at_ids i ns f : f ∈ added_at i ns → (i, fm_number f) ∈ new_ids ns.
Proof.
  intros ((l & g) & -> & Hin)%list_elem_of_fmap. apply list_elem_of_filter in Hin as [Hl Hin]. simpl in Hl. subst i.
  apply list_elem_of_fmap. by exists (l, g).
Qed.

(** The builder of the recovery has the files of the levels; [known] are the pairs
    seen so far. *)
Definition builder_inv (b : list LevelDiff) (files : list (list FileMetaData)) (known : list (nat * Z)) : Prop :=
  length b = length files ∧ ∀ i x fs, b !! i = Some x → files !! i = Some fs →
    surviving x (ld_added x) ≡ₚ init_allowed_seeks <$> fs ∧ ∀ f, f ∈ ld_added x → (i, fm_number f) ∈ known ∧ file_ok uok uord f.

(** An edit without the numbers of the files already there replays as it is applied. *)
Lemma builder_step b files known e cp : builder_inv b files known → edit_levels (length files) e → length cp = length files →
  (∀ x, x ∈ new_ids (ve_new_files e) → x ∉ known) → Forall (λ n, file_ok uok uord n.2) (ve_new_files e) →
  ∃ b', accumulate set_iter e b cp = Ok (b', set_pointers cp (ve_compaction_pointers e)) ∧
    builder_inv b' (edit_all files e) (known ++ new_ids (ve_new_files e)).
Proof.
  intros [Hlen Hb] Hel Hcp Hfresh Hfok. destruct (accumulate_gen set_iter e b cp Hset) as (b' & -> & Hlen' & Hb'); [by rewrite Hlen..|].
  exists b'. split; [done|]. split; [by rewrite Hlen', Hlen; symmetry; apply length_imap|].
  intros i x' fs' Hx' Hfs'. unfold edit_all in Hfs'. rewrite list_lookup_imap in Hfs'.
  destruct (files !! i) as [fs|] eqn:Hfs; [|done]. injection Hfs' as <-.
  destruct (lookup_lt_is_Some_2 b i) as [x Hx]; [rewrite Hlen; by eapply lookup_lt_Some|].
  rewrite (Hb' i x Hx) in Hx'. injection Hx' as <-. cbn [ld_added]. destruct (Hb i x fs Hx Hfs) as [Hperm Hknown].
  set (del := deleted_at i (elements (ve_deleted_files e))). set (add := added_at i (ve_new_files e)).
  assert (∀ f, f ∈ ld_added x → fm_number f ∉ fm_number <$> add) as Hdis.
  { intros f Hf (g & Heq & Hg)%list_elem_of_fmap. apply (Hfresh (i, fm_number g)); [by apply added_at_ids|]. rewrite <- Heq. by apply Hknown. }
  split.
  - unfold surviving at 1. rewrite filter_app. unfold edited. fold del add. rewrite fmap_app. cbn [ld_deleted]. apply Permutation_app.
    + assert (init_allowed_seeks <$> filter (λ f, fm_number f ∉ del ∨ fm_number f ∈ fm_number <$> add) fs ≡ₚ
        filter (λ f, fm_number f ∉ del) (surviving x (ld_added x))) as ->.
      { rewrite Hperm, filter_fmap. apply Permutation_refl'. f_equal. apply filter_ext_in. intros f Hf. split; [|tauto]. intros [?|Hin]; [done|]. exfalso.
        assert (init_allowed_seeks f ∈ surviving x (ld_added x)) as [_ Hs]%list_elem_of_filter by (rewrite Hperm; by apply list_elem_of_fmap_2).
        exact (Hdis _ Hs Hin). }
      unfold surviving. rewrite list_filter_filter. apply Permutation_refl', filter_ext_in. intros f Hf.
      rewrite elem_of_difference, elem_of_union, elem_of_list_to_set. specialize (Hdis f Hf).
      destruct (decide (fm_number f ∈ del)), (decide (fm_number f ∈ ld_deleted x)); tauto.
    + rewrite filter_all; [by unfold add; rewrite init_added|]. apply Forall_forall. intros f Hf [_ Hn]%elem_of_difference. apply Hn.
      rewrite elem_of_list_to_set. by apply list_elem_of_fmap_2.
  - intros f [Hf|Hf]%elem_of_app; rewrite elem_of_app; [destruct (Hknown f Hf); auto|]. split; [right; by apply added_at_ids|].
    apply list_elem_of_fmap in Hf as ([l g] & -> & [_ Hg]%list_elem_of_filter). rewrite Forall_forall in Hfok. destruct (Hfok (l, g) Hg). by split.
Qed.

(** The same files on every level. *)
Definition same_files (a b : list (list FileMetaData)) : Prop :=
  length a = length b ∧ ∀ i x y, a !! i = Some x → b !! i = Some y → x ≡ₚ y.

Lemma edited_perm i fs gs e : fs ≡ₚ gs → edited i fs e ≡ₚ edited i gs e.
Proof. intros Hp. unfold edited. by rewrite Hp. Qed.

Context (max_levels : nat).

(** The current version has the files [files], level by level. *)
Record live_inv (v : VersionSet F) (files : list (list FileMetaData)) : Prop := {
  li_files : same_files (v_current v) files;
  li_levels : levels_ok uok uord (v_current v);
  li_length : length files = max_levels;
  li_pointers : length (v_compaction_pointer v) = max_levels;
}.

(** The counters of the version set change between two edits. *)
Definition with_counters (v : VersionSet F) (next last_sequence : Z) : VersionSet F :=
  mkVset next last_sequence (v_log_number v) (v_prev_log_number v) (v_manifest_file_number v) (v_manifest_writer v) (v_vnum v)
    (v_current v) (v_compaction_pointer v).

(** An edit that may be applied to a version with these files: its levels exist, the
    files it leaves on the levels above 0 do not overlap, its new files are new, its
    log number is in range. *)
Record step_ok (files : list (list FileMetaData)) (known : list (nat * Z)) (log : Z) (next last_sequence : Z) (e : VersionEdit) : Prop := {
  so_next : 0 ≤ next ∧ next + 1 < 2 ^ 64;
  so_last : in_uint 64 last_sequence;
  so_levels : edit_levels max_levels e;
  so_encodes : edit_ok e;
  so_max : ve_max_levels e = Z.of_nat max_levels;
  so_name : ve_comparator_name e = None;
  so_log : ∀ t, ve_log_number e = Some t → log ≤ t < next;
  so_prev : ∀ p, ve_prev_log_number e = Some p → 0 ≤ p ∧ p + 1 < 2 ^ 64;
  so_files : Forall (λ n, file_ok uok uord n.2) (ve_new_files e);
  so_separated : ∀ i fs, files !! i = Some fs → i ≠ 0%nat → separated uord (edited i fs e);
  so_fresh : ∀ x, x ∈ new_ids (ve_new_files e) → x ∉ known;
}.

Definition completed (v : VersionSet F) (e : VersionEdit) : VersionEdit :=
  mkEdit (ve_max_levels e) (ve_comparator_name e) (Some (default (v_log_number v) (ve_log_number e)))
    (Some (default (v_prev_log_number v) (ve_prev_log_number e))) (Some (v_next_file_number v)) (Some (v_last_sequence v))
    (ve_compaction_pointers e) (ve_deleted_files e) (ve_new_files e).

Lemma complete_edit_ok v files known next last_sequence e : step_ok files known (v_log_number v) next last_sequence e →
  complete_edit (with_counters v next last_sequence) e = Ok (completed (with_counters v next last_sequence) e).
Proof.
  intros Hs. unfold complete_edit, completed. cbn [v_log_number v_next_file_number with_counters].
  pose proof (so_log _ _ _ _ _ _ Hs) as Hlog. destruct (ve_log_number e) as [t|] eqn:E; [|by destruct e; destruct ve_prev_log_number; simpl in *; subst].
  specialize (Hlog t eq_refl). rewrite assert_true, !Ok_bind by (apply andb_true_iff; split; [apply Z.leb_le|apply Z.ltb_lt]; lia).
  by destruct e; destruct ve_prev_log_number; simpl in *; subst.
Qed.

Lemma completed_ok v files known next last_sequence e : step_ok files known (v_log_number v) next last_sequence e →
  in_uint 64 (v_log_number v) → in_uint 64 (v_prev_log_number v) → edit_ok (completed (with_counters v next last_sequence) e).
Proof.
  intros Hs Hl Hp. pose proof (so_next _ _ _ _ _ _ Hs). pose proof (so_last _ _ _ _ _ _ Hs). destruct (so_encodes _ _ _ _ _ _ Hs) as [? ? Hlog Hprev ? ? ? ? ?].
  split; cbn [completed with_counters ve_max_levels ve_comparator_name ve_log_number ve_prev_log_number ve_next_file_number ve_last_sequence
    ve_compaction_pointers ve_deleted_files ve_new_files v_log_number v_prev_log_number v_next_file_number v_last_sequence]; try done; intros n [= <-]; try done.
  - destruct (ve_log_number e); [by apply Hlog|done].
  - destruct (ve_prev_log_number e); [by apply Hprev|done].
  - split; lia.
Qed.

(** Applying an edit to the current version. *)
Lemma apply_step v files known next last_sequence e : live_inv v files → step_ok files known (v_log_number v) next last_sequence e → v_vnum v + 1 < 2 ^ 64 →
  ∃ b new, accumulate set_iter (completed (with_counters v next last_sequence) e) (builder_new max_levels) (v_compaction_pointer v) =
      Ok (b, set_pointers (v_compaction_pointer v) (ve_compaction_pointers e)) ∧
    apply_to_new ucmp ck (v_vnum v) (v_current v) b = Ok (v_vnum v + 1, new) ∧ same_files new (edit_all files e) ∧ levels_ok uok uord new.
Proof.
  intros [[Hlen Hperm] Hlv Hml Hpl] Hs Hv.
  assert (length (v_current v) = max_levels) as Hcl by congruence.
  destruct (apply_edit_ok ucmp uok uord set_iter ck (v_vnum v) (v_current v) (completed (with_counters v next last_sequence) e) (v_compaction_pointer v))
    as (b & new & Hacc & Happ & Hnl & Hnlv & Hnp); try done.
  - rewrite Hcl. by destruct (so_levels _ _ _ _ _ _ Hs).
  - by rewrite Hcl.
  - apply (so_files _ _ _ _ _ _ Hs).
  - intros i fs Hfs Hi. destruct (lookup_lt_is_Some_2 files i) as [gs Hgs]; [rewrite <- Hlen; by eapply lookup_lt_Some|].
    intros x y l Hxy. change (edited i fs e ≡ₚ x :: y :: l) in Hxy. apply (so_separated _ _ _ _ _ _ Hs i gs Hgs Hi x y l). rewrite <- Hxy. apply (edited_perm i gs fs). symmetry. by eapply Hperm.
  - rewrite Hcl in Hacc. exists b, new. split_and!; [done..| |done]. split; [unfold edit_all; rewrite length_imap; congruence|].
    intros i x y Hx Hy. unfold edit_all in Hy. rewrite list_lookup_imap in Hy. destruct (files !! i) as [gs|] eqn:Hgs; [|done]. injection Hy as <-.
    destruct (lookup_lt_is_Some_2 (v_current v) i) as [fs Hfs]; [rewrite Hlen; by eapply lookup_lt_Some|].
    rewrite (Hnp i fs x Hfs Hx). change (edited i fs e ≡ₚ edited i gs e). apply (edited_perm i fs gs). by eapply Hperm.
Qed.

(** ** One edit: logged, and read back *)

Lemma edit_all_reset files e d : ve_deleted_files d = ve_deleted_files e → ve_new_files d = reset_seeks <$> ve_new_files e →
  edit_all files d = edit_all files e ∧ new_ids (ve_new_files d) = new_ids (ve_new_files e).
Proof.
  intros Hd Hn. unfold edit_all, edited, new_ids. rewrite Hd, Hn. split.
  - apply imap_ext. intros i fs _. by rewrite added_at_reset.
  - rewrite <- list_fmap_compose. by apply list_fmap_ext.
Qed.

Lemma recover_step v s files known next last_sequence e : builder_inv (rs_builder s) files known → length files = max_levels →
  length (rs_pointers s) = max_levels → step_ok files known (v_log_number v) next last_sequence e → in_uint 64 (v_log_number v) → in_uint 64 (v_prev_log_number v) →
  ∃ s', recover_record ucmp max_levels set_iter (encode_to set_iter (completed (with_counters v next last_sequence) e) []) s = Ok s' ∧
    builder_inv (rs_builder s') (edit_all files e) (known ++ new_ids (ve_new_files e)) ∧
    rs_pointers s' = set_pointers (rs_pointers s) (ve_compaction_pointers e) ∧ rs_next_file_number s' = Some next ∧ rs_last_sequence s' = Some last_sequence ∧
    rs_log_number s' = Some (default (v_log_number v) (ve_log_number e)) ∧ rs_prev_log_number s' = Some (default (v_prev_log_number v) (ve_prev_log_number e)).
Proof.
  intros Hb Hml Hpl Hs Hl Hp. unfold recover_record. rewrite (decode_encode set_iter (completed (with_counters v next last_sequence) e)).
  2: done. 2: by eapply completed_ok. 2: by rewrite (so_max _ _ _ _ _ _ Hs : ve_max_levels (completed _ e) = _).
  set (d := mkEdit _ _ _ _ _ _ _ _ _). destruct (edit_all_reset files e d eq_refl eq_refl) as [Hea Hids].
  destruct (builder_step (rs_builder s) files known d (rs_pointers s) Hb) as (b' & Hacc & Hb').
  - rewrite Hml. destruct (so_levels _ _ _ _ _ _ Hs) as [? ? Hnew]. split; [done|done|]. unfold d. cbn [ve_new_files completed]. apply Forall_fmap. exact Hnew.
  - by rewrite Hml.
  - rewrite Hids. apply (so_fresh _ _ _ _ _ _ Hs).
  - unfold d. cbn [ve_new_files completed]. apply Forall_fmap. eapply Forall_impl; [apply (so_files _ _ _ _ _ _ Hs)|]. intros [l f] []. by split.
  - assert (ve_comparator_name d = None) as -> by apply (so_name _ _ _ _ _ _ Hs). rewrite Ok_bind, Hacc, Ok_bind.
    eexists. split; [done|]. rewrite <- Hea, <- Hids. split_and!; done.
Qed.

Context (create_manifest : Z → outcome F) (remove_manifest : option Z → outcome unit) (update_current : Z → outcome unit) (error_text : error → string).
Notation log_and_apply := (log_and_apply ck ucmp max_levels set_iter create_manifest remove_manifest update_current).

Lemma log_edit_ok (w : Writer F) new_manifest record : writer_ok w → (∀ n, new_manifest = Some n → update_current n = Ok tt) →
  ∃ w' E off, log_edit update_current w new_manifest record = (Ok tt, w') ∧ log_frags (w_block_offset w) true record E off ∧ wrote w w' E off.
Proof.
  intros Hw Hu. unfold log_edit. destruct (add_record_ok w record Hw) as (w1 & E & off & -> & Hf & Hw1).
  destruct (writer_sync_ok w w1 E off Hw1) as (w2 & -> & Hw2). exists w2, E, off. split; [|done]. f_equal. destruct new_manifest; [by apply Hu|done].
Qed.

(** The version set after an edit was logged. *)
Definition after_edit (v : VersionSet F) (next last_sequence : Z) (e : VersionEdit) (w : Writer F) (new : list (list FileMetaData)) : VersionSet F :=
  mkVset next last_sequence (default (v_log_number v) (ve_log_number e)) (default (v_prev_log_number v) (ve_prev_log_number e))
    (v_manifest_file_number v) (Some w) (v_vnum v + 1) new (set_pointers (v_compaction_pointer v) (ve_compaction_pointers e)).

Lemma log_step v files known next last_sequence e w new_manifest :
  live_inv v files → step_ok files known (v_log_number v) next last_sequence e → v_vnum v + 1 < 2 ^ 64 →
  open_manifest ucmp max_levels set_iter create_manifest remove_manifest
    (with_pointers (with_counters v next last_sequence) (set_pointers (v_compaction_pointer v) (ve_compaction_pointers e))) = inl (w, new_manifest) →
  writer_ok w → (∀ n, new_manifest = Some n → update_current n = Ok tt) →
  ∃ w' new E off, log_and_apply (with_counters v next last_sequence) e = (Ok tt, after_edit v next last_sequence e w' new) ∧
    log_frags (w_block_offset w) true (encode_to set_iter (completed (with_counters v next last_sequence) e) []) E off ∧ wrote w w' E off ∧
    live_inv (after_edit v next last_sequence e w' new) (edit_all files e).
Proof.
  intros Hlive Hs Hv Hopen Hw Hu. destruct (apply_step v files known next last_sequence e Hlive Hs Hv) as (b & new & Hacc & Happ & Hsame & Hlv).
  destruct (log_edit_ok w new_manifest (encode_to set_iter (completed (with_counters v next last_sequence) e) []) Hw Hu) as (w' & E & off & Hlog & Hf & Hwr).
  exists w', new, E, off. split_and!; [|done|done|].
  - unfold log_and_apply. rewrite (complete_edit_ok v files known next last_sequence e Hs), Ok_bind.
    cbn [v_compaction_pointer v_vnum v_current with_counters]. cbn [v_compaction_pointer] in Hacc. rewrite Hacc, Ok_bind. cbn [fst snd]. rewrite Happ, Ok_bind.
    rewrite Hopen, Hlog. done.
  - split; cbn [after_edit v_current v_compaction_pointer]; [done|done| |rewrite set_pointers_length; apply Hlive].
    unfold edit_all. rewrite length_imap. apply Hlive.
Qed.

(** ** A sequence of edits *)

Fixpoint log_all (v : VersionSet F) (steps : list (Z * Z * VersionEdit)) : outcome unit * VersionSet F :=
  match steps with
  | [] => (Ok tt, v)
  | (next, last_sequence, e) :: steps =>
    match log_and_apply (with_counters v next last_sequence) e with
    | (Ok _, v) => log_all v steps
    | r => r
    end
  end.
Fixpoint steps_ok (files : list (list FileMetaData)) (known : list (nat * Z)) (log : Z) (steps : list (Z * Z * VersionEdit)) : Prop :=
  match steps with
  | [] => True
  | (next, last_sequence, e) :: steps =>
    step_ok files known log next last_sequence e ∧
    steps_ok (edit_all files e) (known ++ new_ids (ve_new_files e)) (default log (ve_log_number e)) steps
  end.
(** The records of the edits. *)
Fixpoint edit_records (v : VersionSet F) (steps : list (Z * Z * VersionEdit)) : list bytes :=
  match steps with
  | [] => []
  | (next, last_sequence, e) :: steps =>
    encode_to set_iter (completed (with_counters v next last_sequence) e) [] ::
      edit_records (log_and_apply (with_counters v next last_sequence) e).2 steps
  end.
Definition replay (s : RecoverState) (rs : list bytes) : outcome RecoverState := foldM (λ s d, recover_record ucmp max_levels set_iter d s) s rs.

Definition agree (v : VersionSet F) (s : RecoverState) : Prop :=
  rs_pointers s = v_compaction_pointer v ∧ rs_next_file_number s = Some (v_next_file_number v) ∧ rs_last_sequence s = Some (v_last_sequence v) ∧
  rs_log_number s = Some (v_log_number v) ∧ default 0 (rs_prev_log_number s) = v_prev_log_number v.

(** The counters fit. *)
Definition counters_ok (v : VersionSet F) (n : nat) : Prop :=
  (0 ≤ v_log_number v ∧ v_log_number v + 1 < 2 ^ 64) ∧ (0 ≤ v_prev_log_number v ∧ v_prev_log_number v + 1 < 2 ^ 64) ∧ 0 ≤ v_vnum v ∧ v_vnum v + Z.of_nat n < 2 ^ 64 ∧
  v_next_file_number v + 1 < 2 ^ 64.

Lemma after_edit_counters v files known next last_sequence e w new n : counters_ok v (S n) → step_ok files known (v_log_number v) next last_sequence e →
  counters_ok (after_edit v next last_sequence e w new) n.
Proof.
  intros (Hl & Hp & Hv0 & Hv & _) Hs. pose proof (so_log _ _ _ _ _ _ Hs) as Hlog. pose proof (so_prev _ _ _ _ _ _ Hs) as Hprev. pose proof (so_next _ _ _ _ _ _ Hs).
  unfold counters_ok. cbn [after_edit v_log_number v_prev_log_number v_vnum v_next_file_number]. split; [|split; [|lia]].
  - destruct (ve_log_number e) as [t|]; [|done]. specialize (Hlog t eq_refl). simpl. lia.
  - destruct (ve_prev_log_number e); [by apply Hprev|done].
Qed.

(** One edit, logged to the manifest [w] and replayed. *)
Lemma edit_step v s files known next last_sequence e w new_manifest n : live_inv v files → builder_inv (rs_builder s) files known →
  length (rs_pointers s) = max_levels → set_pointers (rs_pointers s) (ve_compaction_pointers e) = set_pointers (v_compaction_pointer v) (ve_compaction_pointers e) →
  step_ok files known (v_log_number v) next last_sequence e → counters_ok v (S n) →
  open_manifest ucmp max_levels set_iter create_manifest remove_manifest
    (with_pointers (with_counters v next last_sequence) (set_pointers (v_compaction_pointer v) (ve_compaction_pointers e))) = inl (w, new_manifest) →
  writer_ok w → (∀ n, new_manifest = Some n → update_current n = Ok tt) →
  ∃ v1 w1 s1 E off, log_and_apply (with_counters v next last_sequence) e = (Ok tt, v1) ∧ v_manifest_writer v1 = Some w1 ∧
    v_log_number v1 = default (v_log_number v) (ve_log_number e) ∧
    log_frags (w_block_offset w) true (encode_to set_iter (completed (with_counters v next last_sequence) e) []) E off ∧ wrote w w1 E off ∧
    recover_record ucmp max_levels set_iter (encode_to set_iter (completed (with_counters v next last_sequence) e) []) s = Ok s1 ∧ agree v1 s1 ∧
    live_inv v1 (edit_all files e) ∧ builder_inv (rs_builder s1) (edit_all files e) (known ++ new_ids (ve_new_files e)) ∧ counters_ok v1 n.
Proof.
  intros Hlive Hb Hpl Hptr Hs Hc Hopen Hw Hu. pose proof Hc as (Hl & Hp & Hv0 & Hv & _).
  destruct (log_step v files known next last_sequence e w new_manifest Hlive Hs) as (w1 & new & E & off & Hlog & Hf & Hwr & Hlive1); [lia|done..|].
  destruct (recover_step v s files known next last_sequence e Hb (li_length _ _ Hlive) Hpl Hs) as (s1 & Hrec & Hb1 & Hp1 & Hn1 & Hls1 & Hlog1 & Hprev1); [split; lia..|].
  eexists _, w1, s1, E, off. split_and!; try done.
  - split_and!; cbn [after_edit v_compaction_pointer]; [by rewrite Hp1, Hptr|done..|by rewrite Hprev1].
  - by eapply after_edit_counters.
Qed.

Lemma log_all_ok steps v s files known w : live_inv v files → builder_inv (rs_builder s) files known → agree v s → steps_ok files known (v_log_number v) steps →
  counters_ok v (length steps) → v_manifest_writer v = Some w → writer_ok w →
  ∃ v' w' s' E off files' known', log_all v steps = (Ok tt, v') ∧ v_manifest_writer v' = Some w' ∧ log_records (w_block_offset w) (edit_records v steps) E off ∧
    wrote w w' E off ∧ replay s (edit_records v steps) = Ok s' ∧ agree v' s' ∧ live_inv v' files' ∧ builder_inv (rs_builder s') files' known' ∧ counters_ok v' 0.
Proof.
  revert v s files known w. induction steps as [|[[next last_sequence] e] steps IH]; intros v s files known w Hlive Hb Hag Hsteps Hc Hvw Hw.
  { exists v, w, s, [], (w_block_offset w), files, known. split_and!; try done; [apply records_nil|]. unfold wrote. by rewrite app_nil_r. }
  destruct Hsteps as [Hs Hsteps]. cbn [length] in Hc. cbn [log_all edit_records].
  destruct (edit_step v s files known next last_sequence e w None (length steps) Hlive Hb) as (v1 & w1 & s1 & E1 & o1 & Hlog & Hw1 & Hl1 & Hf & Hwr & Hrec & Hag1 & Hlive1 & Hb1 & Hc1);
    [by rewrite (proj1 Hag); apply Hlive|by rewrite (proj1 Hag)|done|done| |done|done|].
  { unfold open_manifest. cbn [v_manifest_writer with_pointers with_counters]. by rewrite Hvw. }
  rewrite Hlog. rewrite <- Hl1 in Hsteps.
  destruct (IH v1 s1 _ _ w1 Hlive1 Hb1 Hag1 Hsteps Hc1 Hw1 (proj1 Hwr)) as (v2 & w2 & s2 & E2 & o2 & files' & known' & -> & Hw2 & Hr2 & Hwr2 & Hrep2 & Hag2 & Hl2 & Hb2 & Hc2).
  assert (w_block_offset w1 = o1) as <- by apply Hwr.
  exists v2, w2, s2, (E1 ++ E2), o2, files', known'. split_and!; try done.
  - by econstructor.
  - by eapply wrote_trans.
  - unfold replay. cbn [foldM snd]. rewrite Hrec, Ok_bind. exact Hrep2.
Qed.

(** ** The snapshot a manifest begins with *)

Lemma pointer_entries_levels level ps p : p ∈ pointer_entries level ps → level ≤ p.1 < level + len ps.
Proof.
  revert level. induction ps as [|q ps IH]; intros level; cbn [pointer_entries]; [by intros []%elem_of_nil|]. rewrite len_cons. pose proof (len_nonneg ps).
  intros [Hp|Hp%IH]%elem_of_app; [|lia]. destruct (ikey_is_empty q); [by apply elem_of_nil in Hp|]. apply list_elem_of_singleton in Hp as ->. simpl. lia.
Qed.
Lemma file_entries_levels level files n : n ∈ file_entries level files → level ≤ n.1 < level + len files.
Proof.
  revert level. induction files as [|fs files IH]; intros level; cbn [file_entries]; [by intros []%elem_of_nil|]. rewrite len_cons. pose proof (len_nonneg files).
  intros [(f & -> & _)%list_elem_of_fmap|Hp%IH]%elem_of_app; [simpl|]; lia.
Qed.

Lemma file_entries_in level files l f : (l, f) ∈ file_entries level files →
  ∃ g i fs, f = mkMeta 0 (fm_file_size g) (fm_number g) (fm_smallest g) (fm_largest g) ∧ files !! i = Some fs ∧ g ∈ fs.
Proof.
  revert level. induction files as [|fs files IH]; intros level; cbn [file_entries]; [by intros []%elem_of_nil|].
  intros [(g & [= _ ->] & Hg)%list_elem_of_fmap|Hp%IH]%elem_of_app; [by exists g, 0%nat, fs|].
  destruct Hp as (g & i & gs & -> & Hi & Hg). by exists g, (S i), gs.
Qed.

Definition recover_start : RecoverState := mkRecover (builder_new max_levels) (replicate max_levels ikey_default) None None None None.

Lemma snapshot_step (v : VersionSet F) : levels_ok uok uord (v_current v) → length (v_current v) = max_levels → length (v_compaction_pointer v) = max_levels → edit_ok (snapshot_edit ucmp max_levels v) →
  ∃ s, recover_record ucmp max_levels set_iter (encode_to set_iter (snapshot_edit ucmp max_levels v) []) recover_start = Ok s ∧
    builder_inv (rs_builder s) (v_current v) (new_ids (file_entries 0 (v_current v))) ∧ rs_pointers s = v_compaction_pointer v ∧ rs_next_file_number s = None.
Proof.
  intros Hlv Hcl Hpl Hok. unfold recover_record. rewrite (decode_encode set_iter (snapshot_edit ucmp max_levels v)) by done.
  set (d := mkEdit _ _ _ _ _ _ _ _ _). destruct (edit_all_reset (replicate max_levels []) (snapshot_edit ucmp max_levels v) d eq_refl eq_refl) as [Hea Hids].
  destruct (builder_step (builder_new max_levels) (replicate max_levels []) [] d (replicate max_levels ikey_default)) as (b' & Hacc & Hb').
  - split; [by unfold builder_new; rewrite !length_replicate|]. intros i x fs Hx Hfs. apply lookup_replicate in Hx as [-> _]. apply lookup_replicate in Hfs as [-> _].
    split; [done|]. by intros f []%elem_of_nil.
  - rewrite length_replicate. split; unfold d; cbn [ve_compaction_pointers ve_deleted_files ve_new_files snapshot_edit ve_new app].
    + apply Forall_forall. intros p Hp%pointer_entries_levels. unfold len in Hp. lia.
    + by intros x Hx%elem_of_empty.
    + apply Forall_fmap, Forall_forall. intros n Hn%file_entries_levels. unfold len in Hn. simpl. lia.
  - by rewrite !length_replicate.
  - intros x _ []%elem_of_nil.
  - unfold d. cbn [ve_new_files snapshot_edit]. apply Forall_fmap, Forall_forall. intros [l f] (g & i & fs & -> & Hfs & Hg)%file_entries_in.
    apply (lo_files _ _ _ Hlv) in Hfs. rewrite Forall_forall in Hfs. destruct (Hfs g Hg). by split.
  - cbn [ve_comparator_name d snapshot_edit]. rewrite bool_decide_eq_true_2, Ok_bind by done. cbn [rs_builder rs_pointers recover_start]. rewrite Hacc, Ok_bind.
    eexists. split; [done|]. cbn [rs_builder rs_pointers fst snd]. split_and!; [|..|done].
    + rewrite Hea, Hids, app_nil_l in Hb'. destruct Hb' as [Hlen Hb']. unfold edit_all in Hlen. rewrite length_imap, length_replicate in Hlen. split; [by rewrite Hlen|].
      intros i x fs Hx Hfs. destruct (Hb' i x (init_allowed_seeks <$> fs) Hx) as [Hp Hk].
      { unfold edit_all. rewrite list_lookup_imap, lookup_replicate_2 by (rewrite <- Hcl; by eapply lookup_lt_Some). simpl.
        unfold edited. rewrite filter_nil, app_nil_l. cbn [ve_new_files snapshot_edit]. f_equal. by apply (file_entries_added 0). }
      split; [|done]. rewrite Hp, <- list_fmap_compose. by apply Permutation_refl', list_fmap_ext.
    + unfold d. cbn [ve_compaction_pointers snapshot_edit ve_new app]. rewrite (pointer_entries_set 0); [|done|].
      * simpl. rewrite drop_ge, app_nil_r by (rewrite length_replicate; lia). done.
      * intros i _ Hi. apply lookup_replicate_2. simpl in Hi. lia.
Qed.

(** A new manifest: its records are the snapshot and the edits. *)
Definition manifest_records (v : VersionSet F) (steps : list (Z * Z * VersionEdit)) : list bytes :=
  match steps with
  | [] => []
  | (next, last_sequence, e) :: _ =>
    encode_to set_iter (snapshot_edit ucmp max_levels (with_pointers v (set_pointers (v_compaction_pointer v) (ve_compaction_pointers e)))) [] :: edit_records v steps
  end.

(** A new manifest begins with a snapshot of the version set. *)
Lemma open_manifest_new (v : VersionSet F) f : v_manifest_writer v = None → create_manifest (v_manifest_file_number v) = Ok f → f_ok f →
  ∃ w E off, open_manifest ucmp max_levels set_iter create_manifest remove_manifest v = inl (w, Some (v_manifest_file_number v)) ∧
    log_frags 0 true (encode_to set_iter (snapshot_edit ucmp max_levels v) []) E off ∧ wrote (mkWriter f 0 type_crcs) w E off.
Proof.
  intros Hvw Hcr Hf. assert (writer_ok (mkWriter f 0 type_crcs)) as Hw0 by (by split_and!).
  destruct (add_record_ok (mkWriter f 0 type_crcs) (encode_to set_iter (snapshot_edit ucmp max_levels v) []) Hw0) as (w & E & off & Hadd & Hfr & Hwr).
  exists w, E, off. split; [|done]. unfold open_manifest. rewrite Hvw, Hcr, writer_new_eq. unfold write_snapshot. by rewrite Hadd.
Qed.

Lemma new_manifest_ok v files f n1 l1 e1 steps : let steps := (n1, l1, e1) :: steps in
  live_inv v files → v_manifest_writer v = None → create_manifest (v_manifest_file_number v) = Ok f → f_ok f → f_contents f = [] →
  update_current (v_manifest_file_number v) = Ok tt → counters_ok v (length steps) →
  edit_ok (snapshot_edit ucmp max_levels (with_pointers v (set_pointers (v_compaction_pointer v) (ve_compaction_pointers e1)))) →
  steps_ok (v_current v) (new_ids (file_entries 0 (v_current v))) (v_log_number v) steps →
  ∃ v' w' s' E off files' known', log_all v steps = (Ok tt, v') ∧ v_manifest_writer v' = Some w' ∧
    log_records 0 (manifest_records v steps) E off ∧ f_contents (w_dest w') = E ∧
    replay recover_start (manifest_records v steps) = Ok s' ∧ agree v' s' ∧ live_inv v' files' ∧ builder_inv (rs_builder s') files' known' ∧ counters_ok v' 0.
Proof.
  intros steps' Hlive Hvw Hcr Hf Hfc Hu Hc Hok [Hs Hsteps]. pose proof Hlive as [[Hcl _] Hlv Hml Hpl].
  assert (length (v_current v) = max_levels) as Hcl' by congruence.
  assert (live_inv v (v_current v)) as Hlive0. { split; [|done..]. split; [done|]. intros i x y Hx Hy. rewrite Hx in Hy. by injection Hy as ->. }
  set (v0 := with_pointers v (set_pointers (v_compaction_pointer v) (ve_compaction_pointers e1))).
  destruct (snapshot_step v0) as (s0 & Hrec0 & Hb0 & Hp0 & _); [done|done|by subst v0; cbn [v_compaction_pointer with_pointers]; rewrite set_pointers_length|done|].
  destruct (open_manifest_new (with_pointers (with_counters v n1 l1) (v_compaction_pointer v0)) f Hvw Hcr Hf) as (w & E0 & o0 & Hopen & Hf0 & Hwr0).
  change (snapshot_edit ucmp max_levels (with_pointers (with_counters v n1 l1) _)) with (snapshot_edit ucmp max_levels v0) in Hf0.
  subst steps'. cbn [log_all manifest_records edit_records length] in *.
  destruct (edit_step v s0 (v_current v) (new_ids (file_entries 0 (v_current v))) n1 l1 e1 w (Some (v_manifest_file_number v)) (length steps) Hlive0 Hb0)
    as (v1 & w1 & s1 & E1 & o1 & Hlog & Hw1 & Hl1 & Hf1 & Hwr & Hrec & Hag1 & Hlive1 & Hb1 & Hc1).
  { rewrite Hp0. subst v0. cbn [v_compaction_pointer with_pointers]. by rewrite set_pointers_length. }
  { rewrite Hp0. subst v0. cbn [v_compaction_pointer with_pointers]. apply set_pointers_idem. }
  { done. } { done. }
  { exact Hopen. }
  { apply Hwr0. } { by intros n [= <-]. }
  rewrite Hlog. rewrite <- Hl1 in Hsteps.
  destruct (log_all_ok steps v1 s1 _ _ w1 Hlive1 Hb1 Hag1 Hsteps Hc1 Hw1 (proj1 Hwr)) as (v2 & w2 & s2 & E2 & o2 & files' & known' & -> & Hw2 & Hr2 & Hwr2 & Hrep2 & Hag2 & Hl2 & Hb2 & Hc2).
  pose proof (wrote_trans _ _ _ _ _ _ _ (wrote_trans _ _ _ _ _ _ _ Hwr0 Hwr) Hwr2) as (_ & Hcont & _).
  assert (w_block_offset w1 = o1) as Ho1 by apply Hwr. assert (w_block_offset w = o0) as Ho0 by apply Hwr0. rewrite Ho1 in Hr2. rewrite Ho0 in Hf1.
  exists v2, w2, s2, (E0 ++ E1 ++ E2), o2, files', known'. split_and!; try done.
  - econstructor; [exact Hf0|]. by econstructor.
  - rewrite Hcont. cbn [w_dest]. by rewrite Hfc, app_nil_l, <- app_assoc.
  - cbn [snd]. fold v0. unfold replay. cbn [foldM]. rewrite Hrec0, Ok_bind. cbn [foldM]. rewrite Hrec, Ok_bind. exact Hrep2.
Qed.

(** ** Recovery *)

Lemma recover_loop_reads n fuel r buf rs r' s : reads ck (λ d, d) fuel r buf rs r' → r_reporter r = Some [] → (length rs < n)%nat →
  recover_loop ck ucmp max_levels set_iter error_text n fuel r buf s = replay s rs.
Proof.
  intros Hreads. revert n s. induction Hreads as [r buf buf' r' Hread Hrep|r buf d r1 rs r2 Hread Hrep Hreads IH]; intros n s Hr Hn;
    (destruct n as [|n]; [lia|]); cbn [recover_loop]; rewrite Hread, Ok_bind; unfold reporter_result; rewrite Hrep, Hr;
    change (log_reporter_result error_text (log_reporter_of [])) with (Ok tt); rewrite Ok_bind; [done|].
  unfold replay. cbn [foldM]. destruct (recover_record _ _ _ d s) as [s1|e| |]; [rewrite !Ok_bind|done..].
  simpl in Hn. apply IH; [congruence|lia].
Qed.

(** What a recovered version set has in common with the one that wrote the manifest. *)
Record recovers (v v2 : VersionSet F) : Prop := {
  rc_next : v_next_file_number v2 = v_next_file_number v + 1;
  rc_last : v_last_sequence v2 = v_last_sequence v;
  rc_log : v_log_number v2 = v_log_number v;
  rc_prev : v_prev_log_number v2 = v_prev_log_number v;
  rc_pointers : v_compaction_pointer v2 = v_compaction_pointer v;
  rc_levels : levels_ok uok uord (v_current v2);
  rc_length : length (v_current v2) = length (v_current v);
  rc_files : ∀ i a b, v_current v2 !! i = Some a → v_current v !! i = Some b → a ≡ₚ init_allowed_seeks <$> b;
}.

Lemma recovered_files v s files known : live_inv v files → builder_inv (rs_builder s) files known →
  ∃ new, apply_to_new ucmp ck 0 (replicate max_levels []) (rs_builder s) = Ok (1, new) ∧ levels_ok uok uord new ∧ length new = max_levels ∧
    ∀ i a b, new !! i = Some a → v_current v !! i = Some b → a ≡ₚ init_allowed_seeks <$> b.
Proof.
  intros [[Hcl Hperm] Hlv Hml _] [Hbl Hb].
  assert (∀ i x b, rs_builder s !! i = Some x → v_current v !! i = Some b → expected [] x ≡ₚ init_allowed_seeks <$> b) as Hexp.
  { intros i x b Hx Hi. destruct (lookup_lt_is_Some_2 files i) as [fs Hfs]; [rewrite <- Hcl; by eapply lookup_lt_Some|].
    destruct (Hb i x fs Hx Hfs) as [Hp _]. unfold expected. change (surviving x []) with (@nil FileMetaData). rewrite app_nil_l, Hp. by rewrite (Hperm i b fs Hi Hfs). }
  assert (∀ i x, rs_builder s !! i = Some x → ∃ b fs, v_current v !! i = Some b ∧ files !! i = Some fs) as Hlk.
  { intros i x Hx%lookup_lt_Some. destruct (lookup_lt_is_Some_2 files i) as [fs Hfs]; [by rewrite <- Hbl|].
    destruct (lookup_lt_is_Some_2 (v_current v) i) as [b Hi]; [by rewrite Hcl, <- Hbl|]. eauto. }
  destruct (apply_levels_ok ucmp uok uord 0 (replicate max_levels []) (rs_builder s)) as (new & Happ & Hnl & Hall).
  - by rewrite length_replicate, Hbl.
  - intros i fs [-> _]%lookup_replicate. split; [constructor|]. by intros _ i' j a b _ Ha.
  - intros i d Hd. destruct (Hlk i d Hd) as (b & fs & _ & Hfs). apply Forall_forall. intros f Hf. by apply (proj2 (Hb i d fs Hd Hfs)).
  - intros i fs d [-> _]%lookup_replicate Hd Hne. destruct (Hlk i d Hd) as (b & fs & Hi & Hfs).
    apply (disjoint_separated uord (init_allowed_seeks <$> b)); [|by eapply Hexp].
    intros i' j x y Hij (x' & -> & Hx)%list_lookup_fmap_Some (y' & -> & Hy)%list_lookup_fmap_Some.
    exact (lo_disjoint _ _ _ Hlv i b Hi ltac:(lia) i' j x' y' Hij Hx Hy).
  - rewrite length_replicate in Hnl. exists new. unfold apply_to_new. rewrite uadd_small, Ok_bind, Happ, Ok_bind by lia.
    assert (∀ i l, new !! i = Some l → ∃ d, rs_builder s !! i = Some d ∧ replicate max_levels ([] : list FileMetaData) !! i = Some []) as Hlk'.
    { intros i l Hl%lookup_lt_Some. destruct (lookup_lt_is_Some_2 (rs_builder s) i) as [d Hd]; [by rewrite Hbl, Hml, <- Hnl|].
      exists d. split; [done|]. apply lookup_replicate_2. lia. }
    split_and!; [done| |done|].
    + split; intros i l Hl; destruct (Hlk' i l Hl) as (d & Hd & He); destruct (Hall i _ d l He Hd Hl) as (_ & ? & Hdis); [done|]. intros Hne. by apply Hdis.
    + intros i l b Hl Hi. destruct (Hlk' i l Hl) as (d & Hd & He). destruct (Hall i _ d l He Hd Hl) as (Hpl & _). rewrite Hpl. by eapply Hexp.
Qed.

Notation recover := (recover ck ucmp max_levels set_iter error_text).

Lemma recover_ok n fuel f2 reuse rs r' s v files known : reads ck (λ d, d) fuel (reader_new f2 (Some []) true 0) [] rs r' → (length rs < n)%nat →
  replay recover_start rs = Ok s → agree v s → live_inv v files → builder_inv (rs_builder s) files known → counters_ok v 0 →
  ∃ b v2, recover n fuel f2 reuse (vset_new max_levels) = Ok (b, v2) ∧ recovers v v2 ∧ b = (if reuse then false else true) ∧ v_vnum v2 = 1 ∧
    v_manifest_writer v2 = fst <$> reuse ∧ v_manifest_file_number v2 = match reuse with Some (_, m) => m | None => v_next_file_number v end.
Proof.
  intros Hreads Hn Hrep (Hap & Han & Hals & Halg & Hapr) Hlive Hb (Hl & Hp & _ & _ & Hnext).
  destruct (recovered_files v s files known Hlive Hb) as (new & Happ & Hlv & Hnl & Hperm).
  unfold recover. change (mkRecover (builder_new max_levels) (v_compaction_pointer (vset_new max_levels)) None None None None) with recover_start.
  rewrite (recover_loop_reads _ _ _ _ _ _ _ Hreads eq_refl Hn), Hrep, Ok_bind, Han, Halg, Hals, Hapr.
  assert (∀ num (w : VersionSet F), num + 1 < 2 ^ 64 → ∃ w', mark_file_number_used ck num w = Ok w' ∧ v_manifest_writer w' = v_manifest_writer w) as Hmark.
  { intros num w Hnum. unfold mark_file_number_used. destruct (_ <=? num); [rewrite uadd_small, Ok_bind by done|]; eauto. }
  destruct (Hmark (v_prev_log_number v) (vset_new max_levels)) as (u1 & -> & Hu1); [lia|]. rewrite Ok_bind.
  destruct (Hmark (v_log_number v) u1) as (u2 & -> & Hu2); [lia|]. rewrite Hu1 in Hu2. rewrite Ok_bind, Happ, Ok_bind, uadd_small, Ok_bind by done.
  destruct reuse as [[w m]|]; rewrite ?Hu2; (eexists _, _; split; [done|]; split; [|by split_and!]; split; try done; cbn [v_current snd]; rewrite Hnl; symmetry; destruct Hlive as [[-> _] _ ? _]; done).
Qed.

Lemma steps_take j steps files known log : steps_ok files known log steps → steps_ok files known log (take j steps).
Proof.
  revert j files known log. induction steps as [|[[next last_sequence] e] steps IH]; intros [|j] files known log; try done. intros [Hs Hsteps]. split; [done|]. by apply IH.
Qed.
Lemma edit_records_take j v steps : edit_records v (take j steps) = take j (edit_records v steps).
Proof. revert j v. induction steps as [|[[next last_sequence] e] steps IH]; intros [|j] v; try done. cbn [take edit_records]. by rewrite IH. Qed.
Lemma manifest_records_take j v steps : manifest_records v (take (S j) steps) = take (S (S j)) (manifest_records v steps).
Proof. destruct steps as [|[[next last_sequence] e] steps]; [done|]. cbn [take manifest_records]. by rewrite <- edit_records_take. Qed.
Lemma length_manifest_records v steps : steps ≠ [] → length (manifest_records v steps) = S (length steps).
Proof.
  assert (∀ v steps, length (edit_records v steps) = length steps) as He.
  { intros u l. revert u. induction l as [|[[next last_sequence] e] l IH]; intros u; [done|]. cbn [edit_records length]. by rewrite IH. }
  destruct steps as [|[[next last_sequence] e] steps]; [done|]. intros _. cbn [manifest_records length]. by rewrite He.
Qed.

(** C16: recovery of the version set.  A version set without a manifest logs a sequence
    of edits, with its counters moving on in between; every [log_and_apply] succeeds.
    Then only the first [cut] bytes of the manifest survive, with [k] complete edits.
    When [k] is 0, [recover] reports a corruption; otherwise it returns a version set
    with the files on every level, the compaction pointers, the log numbers and the
    last sequence number that the writer had after [k] edits.  [k] counts exactly the
    edits whose bytes survive. *)
Theorem manifest_recovers (v : VersionSet F) (f : F) (first : Z * Z * VersionEdit) (rest : list (Z * Z * VersionEdit))
    (n fuel : nat) (reuse : option (Writer F * Z)) : let steps := first :: rest in
  length (v_current v) = max_levels → levels_ok uok uord (v_current v) → length (v_compaction_pointer v) = max_levels →
  v_manifest_writer v = None → create_manifest (v_manifest_file_number v) = Ok f → f_ok f → f_contents f = [] →
  update_current (v_manifest_file_number v) = Ok tt → counters_ok v (length steps) →
  edit_ok (snapshot_edit ucmp max_levels (with_pointers v (set_pointers (v_compaction_pointer v) (ve_compaction_pointers first.2)))) →
  steps_ok (v_current v) (new_ids (file_entries 0 (v_current v))) (v_log_number v) steps → (S (length steps) < n)%nat →
  ∃ v' w', log_all v steps = (Ok tt, v') ∧ v_manifest_writer v' = Some w' ∧
    ((length (f_contents (w_dest w')) < fuel)%nat →
     ∀ f2 cut, f_ok f2 → f_pos f2 = 0%nat → f_contents f2 = take cut (f_contents (w_dest w')) →
     ∃ k, (k ≤ length steps)%nat ∧
       match k with
       | O => recover n fuel f2 reuse (vset_new max_levels) = Err (Corruption "no meta-nextfile entry in manifest")
       | S _ => ∃ vk b v2, log_all v (take k steps) = (Ok tt, vk) ∧ recover n fuel f2 reuse (vset_new max_levels) = Ok (b, v2) ∧ recovers vk v2
       end ∧
       ∀ j vj wj, (0 < j ≤ length steps)%nat → log_all v (take j steps) = (Ok tt, vj) → v_manifest_writer vj = Some wj →
         (j ≤ k ↔ length (f_contents (w_dest wj)) ≤ cut)%nat).
Proof.
  intros steps Hcl Hlv Hpl Hvw Hcr Hf Hfc Hu Hc Hok Hsteps Hn. destruct first as [[n1 l1] e1].
  assert (live_inv v (v_current v)) as Hlive. { split; [|done..]. split; [done|]. intros i x y Hx Hy. rewrite Hx in Hy. by injection Hy as ->. }
  set (w0 := mkWriter f 0 type_crcs). assert (writer_ok w0) as Hw0 by (by split_and!).
  assert (∀ j, (j ≤ length rest)%nat → ∃ v' w' s' w2 files' known', log_all v (take (S j) steps) = (Ok tt, v') ∧ v_manifest_writer v' = Some w' ∧
    add_records w0 (manifest_records v (take (S j) steps)) = (Ok tt, w2) ∧ f_contents (w_dest w') = f_contents (w_dest w2) ∧
    replay recover_start (manifest_records v (take (S j) steps)) = Ok s' ∧ agree v' s' ∧ live_inv v' files' ∧ builder_inv (rs_builder s') files' known' ∧
    counters_ok v' 0) as Hrun.
  { intros j Hj. destruct (new_manifest_ok v (v_current v) f n1 l1 e1 (take j rest)) as (v' & w' & s' & E & off & files' & known' & Hrun & Hw' & Hlog & Hcont & Hrest); try done.
    { cbn [length]. destruct Hc as (? & ? & ? & ? & ?). rewrite length_take. cbn [length steps] in *. unfold counters_ok. split_and!; lia. }
    { exact (steps_take (S j) steps _ _ _ Hsteps). }
    destruct (add_records_ok w0 (manifest_records v (take (S j) steps)) Hw0) as (w2 & E2 & o2 & Hadd & Hlog2 & _ & Hc2 & _).
    exists v', w', s', w2, files', known'. split_and!; try done; try apply Hrest.
    destruct (log_records_det _ _ _ _ Hlog _ _ Hlog2) as [-> _]. rewrite Hcont, Hc2. cbn [w_dest w0]. by rewrite Hfc. }
  destruct (Hrun (length rest)) as (v' & w' & s' & w2 & _ & _ & Hall & Hw' & Hadd & Hcont & _); [done|].
  rewrite take_ge in Hall, Hadd by (subst steps; simpl; lia). exists v', w'. split_and!; [done..|]. intros Hfl f2 cut Hf2 Hp2 Hc2. rewrite Hcont in Hfl, Hc2.
  destruct (torn_reads ck (λ d, d) f f2 w0 w2 (manifest_records v steps) true fuel cut Hf Hfc (writer_new_eq f) Hadd Hf2 Hp2 Hc2 Hfl) as (k & r' & Hreads & Hk & Hj).
  rewrite length_manifest_records in Hk by done.
  assert (∀ j vj wj, (0 < j ≤ length steps)%nat → log_all v (take j steps) = (Ok tt, vj) → v_manifest_writer vj = Some wj →
    (S j ≤ k ↔ length (f_contents (w_dest wj)) ≤ cut)%nat) as Hcount.
  { intros j vj wj Hjl Hvj Hwj. destruct j as [|j]; [lia|]. destruct (Hrun j) as (vj' & wj' & _ & w3 & _ & _ & Hrunj & Hwj' & Haddj & Hcj & _); [subst steps; simpl in *; lia|].
    rewrite Hrunj in Hvj. injection Hvj as <-. rewrite Hwj' in Hwj. injection Hwj as <-. rewrite Hcj. apply Hj; [rewrite length_manifest_records by done; lia|].
    by rewrite <- manifest_records_take. }
  exists (k - 1)%nat. split_and!; [lia| |].
  - destruct (k - 1)%nat as [|k'] eqn:Ek.
    + assert (∃ s, replay recover_start (take k (manifest_records v steps)) = Ok s ∧ rs_next_file_number s = None) as (s & Hs & Hnone).
      { destruct k as [|[|k]]; [|destruct (snapshot_step (with_pointers v (set_pointers (v_compaction_pointer v) (ve_compaction_pointers e1)))) as (s & Hs & _ & _ & Hnone)|lia].
        - by exists recover_start. - done. - done. - cbn [v_compaction_pointer with_pointers]. by rewrite set_pointers_length. - done.
        - exists s. split; [|done]. cbn [manifest_records steps take]. unfold replay. cbn [foldM]. by rewrite Hs. }
      unfold recover. change (mkRecover (builder_new max_levels) (v_compaction_pointer (vset_new max_levels)) None None None None) with recover_start.
      rewrite (recover_loop_reads _ _ _ _ _ _ _ Hreads eq_refl) by (rewrite length_take, length_manifest_records by done; lia). by rewrite Hs, Ok_bind, Hnone.
    + destruct (Hrun k') as (vk & wk & sk & w3 & files' & known' & Hrunk & _ & _ & _ & Hrepk & Hagk & Hlivek & Hbk & Hck); [subst steps; simpl in *; lia|].
      rewrite manifest_records_take in Hrepk. replace (S (S k')) with k in Hrepk by lia.
      destruct (recover_ok n fuel f2 reuse _ r' sk vk files' known' Hreads) as (b & v2 & Hrec & Hrecs & _); [rewrite length_take, length_manifest_records by done; lia|done..|].
      by exists vk, b, v2.
  - intros j vj wj Hjl Hvj Hwj. rewrite <- (Hcount j vj wj Hjl Hvj Hwj). lia.
Qed.
End Facts.

(** *** Witness, on in-memory files with the IEEE checksum *)
Import IeeeCrc.

Definition demo_vset : VersionSet InmemFile :=
  mkVset 10 100 5 0 9 None 0 [[]; [sample_file 3 10 [1] [2]]; []] (replicate 3 ikey_default).
Definition demo_steps : list (Z * Z * VersionEdit) :=
  [ (11, 120, mkEdit 3 None None None None None [(0, mkIKey (ikey [2] 5 Value))] ∅ [(0, sample_file 4 10 [1] [9])]);
    (13, 130, mkEdit 3 None (Some 12) (Some 0) None None [] {[(1, 3)]} [(2, sample_file 5 10 [1] [2])]) ].

Lemma small_separated (l : list FileMetaData) : (length l ≤ 1)%nat → separated lex_compare l.
Proof. intros Hl a b l' Hp%Permutation_length. simpl in Hp. lia. Qed.

Lemma demo_edit_ok e : e ∈ (demo_steps.*2) → edit_ok e.
Proof.
  intros He. cbn [demo_steps fmap list_fmap snd] in He. rewrite !elem_of_cons in He. destruct He as [->|[->|[]%elem_of_nil]]; split; simpl; try done; try (intros d [= <-]; done).
  all: try (intros d Hd; first [by apply elem_of_empty in Hd|apply elem_of_singleton in Hd as ->; by split_and!]).
  all: repeat constructor; try done; vm_compute; congruence.
Qed.
Lemma demo_steps_ok : steps_ok (λ _, True) lex_compare 3 (v_current demo_vset) (new_ids (file_entries 0 (v_current demo_vset))) 5 demo_steps.
Proof.
  split; [|split; [|done]].
  - split; try done; simpl.
    + split; [by repeat constructor| |by repeat constructor]. by intros d Hd%elem_of_empty.
    + apply demo_edit_ok. by left.
    + repeat constructor; apply (sample_file_ok 4 10 [1] [9]); reflexivity.
    + intros [|[|[|i]]] fs Hfs Hne; try done; injection Hfs as <-; apply small_separated; vm_compute; lia.
    + intros x ->%list_elem_of_singleton. refine (bool_decide_unpack _ _). vm_compute. exact I.
  - split; try done; simpl.
    + split; [by repeat constructor| |by repeat constructor]. intros d Hd. cbn [ve_deleted_files] in Hd. apply elem_of_singleton in Hd as ->. simpl. lia.
    + apply demo_edit_ok. right. by left.
    + intros t [= <-]. lia.
    + intros p [= <-]. lia.
    + repeat constructor; apply (sample_file_ok 5 10 [1] [2]); reflexivity.
    + intros [|[|[|i]]] fs Hfs Hne; try done; injection Hfs as <-; apply small_separated; vm_compute; lia.
    + intros x ->%list_elem_of_singleton. refine (bool_decide_unpack _ _). vm_compute. exact I.
Qed.

Lemma manifest_recovers_witness :
  ∃ v' w' k b v2, log_all (H0 := InmemFile_File true) true bytewise elements 3 (λ _, Ok inmem_default) (λ _, Ok tt) (λ _, Ok tt) demo_vset demo_steps = (Ok tt, v') ∧
    v_manifest_writer v' = Some w' ∧ k = 2%nat ∧
    recover (FO := InmemFile_File true) true bytewise 3 elements (λ _, ""%string) 4 300 (mkInmem false (take 300 (im_data (w_dest w'))) 0) None (vset_new 3) = Ok (b, v2) ∧
    recovers (λ _, True) lex_compare v' v2 ∧ v_log_number v2 = 12.
Proof.
  destruct (manifest_recovers (F := InmemFile) (FL := InmemFile_laws true) true bytewise (λ _, True) lex_compare elements ltac:(done) 3
    (λ _, Ok inmem_default) (λ _, Ok tt) (λ _, Ok tt) (λ _, ""%string) demo_vset inmem_default (hd (0, 0, ve_new 3) demo_steps) (tl demo_steps) 4 300 None)
    as (v' & w' & Hrun & Hw' & Hrec).
  - done.
  - split; intros [|[|[|i]]] fs Hfs; try done; injection Hfs as <-; try constructor; try (by intros _ i' j a b _ Ha).
    + by apply sample_file_ok.
    + constructor.
    + intros _ [|i'] [|j] a b Hij Ha Hb; try done; simpl in *; lia.
  - done.
  - done.
  - done.
  - simpl. lia.
  - done.
  - done.
  - unfold counters_ok. simpl. lia.
  - split; simpl; try done; try (intros n [= <-]; by split_and!); try (by intros d Hd%elem_of_empty).
    all: repeat constructor; done.
  - apply demo_steps_ok.
  - simpl. lia.
  - change (hd (0, 0, ve_new 3) demo_steps :: tl demo_steps) with demo_steps in Hrun, Hrec.
    assert (w' = match log_all (H0 := InmemFile_File true) true bytewise elements 3 (λ _, Ok inmem_default) (λ _, Ok tt) (λ _, Ok tt) demo_vset demo_steps with
      | (Ok _, v) => default (mkWriter inmem_default 0 type_crcs) (v_manifest_writer v) | _ => mkWriter inmem_default 0 type_crcs end) as Heq.
    { by rewrite Hrun, Hw'. }
    assert (length (im_data (w_dest w')) < 300)%nat as Hlen by (rewrite Heq; vm_compute; lia).
    destruct (Hrec Hlen (mkInmem false (take 300 (im_data (w_dest w'))) 0) 300%nat) as (k & Hk & Hres & Hj); [simpl; lia|done|done|].
    assert (2 ≤ k)%nat as H2 by (apply (Hj 2%nat v' w'); [simpl; lia|done|done|simpl; lia]).
    simpl in Hk. assert (k = 2%nat) as -> by lia. destruct Hres as (vk & b & v2 & Hvk & Hr & Hrecs).
    assert (vk = v') as -> by (change (take 2 demo_steps) with demo_steps in Hvk; rewrite Hrun in Hvk; by injection Hvk as <-).
    exists v', w', 2%nat, b, v2. split_and!; [done..|]. rewrite (rc_log _ _ _ _ Hrecs). clear -Hrun. vm_compute in Hrun. by injection Hrun as <-.
Defined.

(** When the new manifest cannot be made the current one, [log_and_apply] removes it and
    returns the result of the removal: success, although the edit was not applied. *)
Example log_and_apply_hides_failure :
  let r := log_and_apply (FO := InmemFile_File true) true bytewise 3 elements (λ _, Ok inmem_default) (λ _, Ok tt) (λ _, Err (IO KOther))
             demo_vset (mkEdit 3 None None None None None [] ∅ [(0, sample_file 4 10 [1] [9])]) in
  r.1 = Ok tt ∧ v_current r.2 = v_current demo_vset ∧ v_manifest_writer r.2 = None.
Proof. vm_compute. done. Qed.
