(* ===== verification/Filename.v ===== *)
(** * File names: [src/db/filename.rs]

    The names of the files of a database and how they are recognised.  Strings are
    their bytes; of [std::path] the functions the source uses, with [/] as separator. *)
From S2P Require Import Prelude.
Open Scope Z_scope.

Inductive FileType : Type := FLog | FLock | FTable | FManifest | FCurrent | FTemp | FInfoLog | FOldInfoLog.
#[export] Instance FileType_eq_dec : EqDecision FileType.
Proof. solve_decision. Defined.

Definition SEPARATOR : Z := 47.
Definition DOT : Z := 46.

(** ** Strings *)

(** [str::split] on a character. *)
Fixpoint split_on (c : Z) (s : bytes) : list bytes :=
  match s with
  | [] => [[]]
  | x :: s =>
    if x =? c then [] :: split_on c s
    else match split_on c s with [] => [[x]] | w :: ws => (x :: w) :: ws end
  end.
(** The parts before and after the last occurrence of a character. *)
Fixpoint rsplit_once (c : Z) (s : bytes) : option (bytes * bytes) :=
  match s with
  | [] => None
  | x :: s =>
    match rsplit_once c s with
    | Some (a, b) => Some (x :: a, b)
    | None => if x =? c then Some ([], s) else None
    end
  end.
Definition starts_with (pat s : bytes) : bool := bool_decide (take (length pat) s = pat).

(** [str::parse::<u64>]: digits, after an optional plus sign. *)
Fixpoint parse_digits (acc : Z) (s : bytes) : option Z :=
  match s with
  | [] => Some acc
  | d :: s =>
    if (48 <=? d) && (d <=? 57) then
      let acc := acc * 10 + (d - 48) in
      if acc <? 2 ^ 64 then parse_digits acc s else None
    else None
  end.
Definition parse_u64 (s : bytes) : option Z :=
  match s with
  | [] => None
  | [43] => None
  | 43 :: s => parse_digits 0 s
  | _ => parse_digits 0 s
  end.

(** [format!("{:06}", n)]; a [u64] has at most 20 digits. *)
Fixpoint decimal (fuel : nat) (n : Z) : bytes :=
  match fuel with
  | O => []
  | S fuel => if n <? 10 then [48 + n] else decimal fuel (n / 10) ++ [48 + n mod 10]
  end.
Definition format06 (n : Z) : bytes := let ds := decimal 20 n in replicate (6 - length ds) 48 ++ ds.

(** ** [std::path] *)

(** [Path::join] with a relative name. *)
Definition path_join (dir name : bytes) : bytes :=
  match last dir with
  | None => name
  | Some c => if c =? SEPARATOR then dir ++ name else dir ++ SEPARATOR :: name
  end.
(** The components; empty ones and [.] are dropped. *)
Definition path_components (p : bytes) : list bytes := filter (λ c, c ≠ [] ∧ c ≠ [DOT]) (split_on SEPARATOR p).
Definition path_file_name (p : bytes) : option bytes :=
  match last (path_components p) with
  | Some c => if bool_decide (c = [DOT; DOT]) then None else Some c
  | None => None
  end.
(** [file_stem] and [extension]: a leading dot does not begin an extension. *)
Definition split_name (name : bytes) : bytes * option bytes :=
  match rsplit_once DOT name with
  | None | Some ([], _) => (name, None)
  | Some (stem, ext) => (stem, Some ext)
  end.
Definition path_file_stem (p : bytes) : option bytes := fst ∘ split_name <$> path_file_name p.
Definition path_extension (p : bytes) : option bytes := path_file_name p ≫= snd ∘ split_name.

(** ** Names of database files *)

Definition base_name (t : FileType) (seq : Z) : bytes :=
  match t with
  | FLog => format06 seq ++ bytes_of_string ".log"
  | FLock => bytes_of_string "LOCK"
  | FTable => format06 seq ++ bytes_of_string ".sst"
  | FManifest => bytes_of_string "MANIFEST-" ++ format06 seq
  | FCurrent => bytes_of_string "CURRENT"
  | FTemp => format06 seq ++ bytes_of_string ".dbtmp"
  | FInfoLog => bytes_of_string "LOG"
  | FOldInfoLog => bytes_of_string "LOG.old"
  end.
Definition generate_filename (dirname : bytes) (filetype : FileType) (seq : Z) : bytes :=
  path_join dirname (base_name filetype seq).

Definition parse_filename (path : bytes) : option (FileType * Z) :=
  let stem := default (bytes_of_string "invalid") (path_file_stem path) in
  if bool_decide (stem = bytes_of_string "CURRENT") then Some (FCurrent, 0)
  else if bool_decide (stem = bytes_of_string "LOCK") then Some (FLock, 0)
  else if bool_decide (stem = bytes_of_string "LOG") then
    let name := default [] (path_file_name path) in
    if bool_decide (name = bytes_of_string "LOG") then Some (FInfoLog, 0)
    else if bool_decide (name = bytes_of_string "LOG.old") then Some (FOldInfoLog, 0)
    else None
  else if starts_with (bytes_of_string "MANIFEST") stem then
    match split_on 45 stem with
    | [_; s] => match parse_u64 s with Some seq => Some (FManifest, seq) | None => None end
    | _ => None
    end
  else
    match parse_u64 stem with
    | Some seq =>
      let ext := default (bytes_of_string "invalid") (path_extension path) in
      if bool_decide (ext = bytes_of_string "log") then Some (FLog, seq)
      else if bool_decide (ext = bytes_of_string "sst") then Some (FTable, seq)
      else if bool_decide (ext = bytes_of_string "dbtmp") then Some (FTemp, seq)
      else None
    | None => None
    end.

(** ** Strings and numbers *)

Lemma split_on_app c a b : split_on c (a ++ c :: b) = split_on c a ++ split_on c b.
Proof.
  induction a as [|x a IH]; simpl; [by rewrite Z.eqb_refl|]. rewrite IH. destruct (x =? c); [done|].
  destruct (split_on c a) eqn:E; [|done]. destruct a; simpl in E; [done|]. destruct (_ =? c); [done|]. by destruct (split_on c a).
Qed.
Lemma split_on_none c s : c ∉ s → split_on c s = [s].
Proof.
  induction s as [|x s IH]; simpl; [done|]. intros [Hx Hs]%not_elem_of_cons. rewrite (proj2 (Z.eqb_neq x c)) by done. by rewrite IH.
Qed.
Lemma rsplit_none c s : c ∉ s → rsplit_once c s = None.
Proof.
  induction s as [|x s IH]; simpl; [done|]. intros [Hx Hs]%not_elem_of_cons. by rewrite IH, (proj2 (Z.eqb_neq x c)).
Qed.
Lemma rsplit_app c a b : c ∉ b → rsplit_once c (a ++ c :: b) = Some (a, b).
Proof. intros Hb. induction a as [|x a IH]; simpl; [by rewrite rsplit_none, Z.eqb_refl|]. by rewrite IH. Qed.

Definition is_digit (d : Z) : Prop := 48 ≤ d ≤ 57.
Lemma decimal_digits fuel n : 0 ≤ n → Forall is_digit (decimal fuel n).
Proof.
  revert n. induction fuel as [|fuel IH]; intros n Hn; simpl; [constructor|]. unfold is_digit. destruct (n <? 10) eqn:E.
  - apply Z.ltb_lt in E. repeat constructor; lia.
  - apply Forall_app. split; [apply IH; by apply Z.div_pos|]. pose proof (Z.mod_pos_bound n 10). repeat constructor; lia.
Qed.
Lemma parse_digits_snoc s d acc v : parse_digits acc s = Some v → is_digit d → v * 10 + (d - 48) < 2 ^ 64 →
  parse_digits acc (s ++ [d]) = Some (v * 10 + (d - 48)).
Proof.
  revert acc. induction s as [|x s IH]; intros acc Hs Hd Hv.
  - injection Hs as ->. cbn [app parse_digits]. unfold is_digit in Hd. rewrite !(proj2 (Z.leb_le _ _)), (proj2 (Z.ltb_lt _ _)) by lia. done.
  - cbn [app parse_digits] in Hs |- *. destruct ((48 <=? x) && (x <=? 57)); [|done]. cbv zeta in *. destruct (_ <? 2 ^ 64); [|done]. by apply IH.
Qed.
Lemma parse_decimal fuel n : 0 ≤ n < 2 ^ 64 → n < 10 ^ Z.of_nat fuel → parse_digits 0 (decimal fuel n) = Some n.
Proof.
  revert n. induction fuel as [|fuel IH]; intros n Hn Hf.
  - assert (n = 0) as -> by (change (10 ^ Z.of_nat 0) with 1 in Hf; lia). done.
  - cbn [decimal]. destruct (n <? 10) eqn:E.
    + apply Z.ltb_lt in E. cbn [parse_digits]. rewrite !(proj2 (Z.leb_le _ _)), (proj2 (Z.ltb_lt _ _)) by lia. f_equal. lia.
    + apply Z.ltb_ge in E. pose proof (Z.mod_pos_bound n 10 ltac:(lia)). pose proof (Z.div_mod n 10 ltac:(lia)).
      rewrite (parse_digits_snoc _ _ 0 (n / 10)); [f_equal; lia| |unfold is_digit; lia|lia].
      rewrite Nat2Z.inj_succ, Z.pow_succ_r in Hf by lia. apply IH; [lia|]. apply Z.div_lt_upper_bound; lia.
Qed.
Lemma parse_zeros k s : parse_digits 0 (replicate k 48 ++ s) = parse_digits 0 s.
Proof. induction k as [|k IH]; [done|]. exact IH. Qed.
Lemma format06_digits n : 0 ≤ n → Forall is_digit (format06 n).
Proof.
  intros Hn. apply Forall_app. split; [|by apply decimal_digits]. apply Forall_replicate. unfold is_digit. lia.
Qed.
Lemma format06_cons n : 0 ≤ n → ∃ d ds, format06 n = d :: ds ∧ is_digit d.
Proof.
  intros Hn. pose proof (format06_digits n Hn) as Hd. destruct (format06 n) as [|d ds] eqn:E; [|by exists d, ds; inversion Hd].
  exfalso. apply (f_equal length) in E. unfold format06 in E. rewrite length_app, length_replicate in E. simpl length in E at 3. lia.
Qed.
Lemma parse_format06 n : 0 ≤ n < 2 ^ 64 → parse_u64 (format06 n) = Some n.
Proof.
  intros Hn. destruct (format06_cons n) as (d & ds & Hf & Hd); [lia|]. unfold is_digit in Hd.
  assert (parse_u64 (format06 n) = parse_digits 0 (format06 n)) as ->.
  { rewrite Hf. unfold parse_u64. destruct (decide (d = 43)); [lia|]. repeat (destruct d as [|d|d]; try lia; try done). }
  unfold format06. rewrite parse_zeros. apply parse_decimal; [done|]. change (10 ^ Z.of_nat 20) with 100000000000000000000. lia.
Qed.
Lemma digits_not_in c s : Forall is_digit s → ¬ is_digit c → c ∉ s.
Proof. intros Hs Hc Hin. rewrite Forall_forall in Hs. by apply Hc, Hs. Qed.

(** ** Paths *)

(** A component of a path that names something. *)
Definition component_ok (c : bytes) : Prop := SEPARATOR ∉ c ∧ c ≠ [] ∧ c ≠ [DOT] ∧ c ≠ [DOT; DOT].
#[export] Instance component_ok_dec c : Decision (component_ok c).
Proof. unfold component_ok. apply _. Defined.

Lemma path_join_components dir name : component_ok name → path_components (path_join dir name) = path_components dir ++ [name].
Proof.
  intros (Hs & H1 & H2 & H3). assert (∀ p, path_components (p ++ SEPARATOR :: name) = path_components p ++ [name]) as Hpre.
  { intros p. unfold path_components. by rewrite split_on_app, (split_on_none _ name), filter_app, (filter_cons_True _ name) by done. }
  unfold path_join. destruct (last dir) as [c|] eqn:E.
  - destruct (c =? SEPARATOR) eqn:Ec; [|done]. apply Z.eqb_eq in Ec as ->. apply last_Some in E as (p & ->). rewrite <- app_assoc. cbn [app].
    rewrite Hpre. f_equal. unfold path_components. rewrite split_on_app, filter_app. cbn [split_on]. rewrite (filter_cons_False _ []) by naive_solver. by rewrite app_nil_r.
  - apply last_None in E as ->. unfold path_components. by rewrite (split_on_none _ name), filter_cons_True by done.
Qed.
Lemma path_join_file_name dir name : component_ok name → path_file_name (path_join dir name) = Some name.
Proof.
  intros Hok. unfold path_file_name. rewrite path_join_components, last_snoc by done. by rewrite bool_decide_eq_false_2 by apply Hok.
Qed.

Lemma base_name_ok t seq : 0 ≤ seq → component_ok (base_name t seq).
Proof.
  intros Hseq. pose proof (format06_digits seq Hseq) as Hd. destruct (format06_cons seq Hseq) as (d & ds & Hf & Hd1).
  assert (SEPARATOR ∉ format06 seq) as Hs by (apply digits_not_in; [done|unfold is_digit, SEPARATOR; lia]).
  assert (∀ s, SEPARATOR ∉ s → component_ok (format06 seq ++ s)) as Hdig.
  { intros s Hns. split; [by intros [|]%elem_of_app|]. rewrite Hf. split_and!; [done|intros [= ->]..]; unfold is_digit, DOT in *; lia. }
  destruct t; cbn [base_name].
  1, 3, 6: apply Hdig; refine (bool_decide_unpack _ _); vm_compute; exact I.
  1, 3, 4, 5: refine (bool_decide_unpack _ _); vm_compute; exact I.
  split; [|done]. intros [Hin|?]%elem_of_app; [|done]. revert Hin. refine (bool_decide_unpack (SEPARATOR ∉ _) _). vm_compute. exact I.
Qed.

(** The number that a name carries. *)
Definition numbered (t : FileType) : bool :=
  match t with FLog | FTable | FManifest | FTemp => true | _ => false end.

(** A name of a digits stem and an extension. *)
Lemma split_name_ext stem ext : Forall is_digit stem → stem ≠ [] → DOT ∉ ext → split_name (stem ++ DOT :: ext) = (stem, Some ext).
Proof. intros Hs Hne He. unfold split_name. rewrite rsplit_app by done. by destruct stem. Qed.
Lemma split_name_plain name : DOT ∉ name → split_name name = (name, None).
Proof. intros Hn. unfold split_name. by rewrite rsplit_none. Qed.

(** A name that begins with a digit is none of the fixed names. *)
Lemma digit_head d ds s : 48 ≤ d ≤ 57 → match bytes_of_string s with c :: _ => (57 <? c) | [] => true end = true → d :: ds ≠ bytes_of_string s.
Proof. intros Hd Hs Heq. rewrite <- Heq in Hs. apply Z.ltb_lt in Hs. lia. Qed.

(** A numbered file other than a manifest. *)
Lemma parse_digits_name p seq ext : 0 ≤ seq < 2 ^ 64 → DOT ∉ ext → path_file_name p = Some (format06 seq ++ DOT :: ext) →
  parse_filename p =
    if bool_decide (ext = bytes_of_string "log") then Some (FLog, seq)
    else if bool_decide (ext = bytes_of_string "sst") then Some (FTable, seq)
    else if bool_decide (ext = bytes_of_string "dbtmp") then Some (FTemp, seq) else None.
Proof.
  intros Hseq Hext Hp. destruct (format06_cons seq) as (d & ds & Hf & Hd); [lia|].
  pose proof (split_name_ext (format06 seq) ext (format06_digits seq ltac:(lia)) ltac:(by rewrite Hf) Hext) as Hsp.
  assert (path_file_stem p = Some (format06 seq) ∧ path_extension p = Some ext) as [Hst Hex].
  { unfold path_file_stem, path_extension. rewrite Hp. simpl. by rewrite Hsp. }
  unfold parse_filename. rewrite Hst, Hex. change (default ?x (Some ?y)) with y. cbv zeta. rewrite parse_format06 by done. rewrite Hf. unfold is_digit in Hd.
  do 3 rewrite (bool_decide_eq_false_2 (d :: ds = _)) by (apply digit_head; done || lia).
  unfold starts_with. by rewrite bool_decide_eq_false_2 by (apply digit_head; done || lia).
Qed.

Lemma parse_generate (dir : bytes) (t : FileType) (seq : Z) : 0 ≤ seq < 2 ^ 64 →
  parse_filename (generate_filename dir t seq) = Some (t, if numbered t then seq else 0).
Proof.
  intros Hseq. pose proof (format06_digits seq ltac:(lia)) as Hd.
  assert (path_file_name (generate_filename dir t seq) = Some (base_name t seq)) as Hp by (apply path_join_file_name, base_name_ok; lia).
  destruct t; cbn [base_name numbered] in *.
  1, 3, 6: erewrite parse_digits_name; [| |shelve|exact Hp]; [vm_compute; reflexivity|done].
  2: { assert (path_file_stem (generate_filename dir FManifest seq) = Some (bytes_of_string "MANIFEST" ++ 45 :: format06 seq)) as Hst.
    { assert (DOT ∉ bytes_of_string "MANIFEST-" ++ format06 seq) as Hdot.
      { intros [Hin|Hin]%elem_of_app; [|revert Hin; apply digits_not_in; [done|unfold is_digit, DOT; lia]].
        revert Hin. refine (bool_decide_unpack (DOT ∉ _) _). vm_compute. exact I. }
      unfold path_file_stem. rewrite Hp. change (Some (split_name (bytes_of_string "MANIFEST-" ++ format06 seq)).1 = Some (bytes_of_string "MANIFEST-" ++ format06 seq)).
      by rewrite split_name_plain. }
    unfold parse_filename. rewrite Hst. change (default ?x (Some ?y)) with y. cbv zeta. do 3 rewrite (bool_decide_eq_false_2 (_ ++ _ = _)) by done.
    change (starts_with (bytes_of_string "MANIFEST") (bytes_of_string "MANIFEST" ++ 45 :: format06 seq)) with true. cbv iota.
    rewrite split_on_app, (split_on_none 45 (format06 seq)) by (apply digits_not_in; [done|unfold is_digit; lia]).
    change (split_on 45 (bytes_of_string "MANIFEST")) with [bytes_of_string "MANIFEST"]. cbn [app]. by rewrite parse_format06. }
  all: unfold parse_filename, path_file_stem; rewrite Hp; vm_compute; reflexivity.
  Unshelve. all: refine (bool_decide_unpack _ _); vm_compute; exact I.
Qed.

(** C32: the name of a database file is recognised.  Whatever the directory, and whether
    or not it ends in a separator, the name generated for a file type and a number below
    [2^64] parses to that type and number (0 for the types without a number), however
    many digits the number has. *)
Theorem filename_roundtrip (dir : bytes) (t : FileType) (seq : Z) : 0 ≤ seq < 2 ^ 64 →
  parse_filename (generate_filename dir t seq) = Some (t, if numbered t then seq else 0).
Proof. apply parse_generate. Qed.

Lemma filename_roundtrip_witness :
  parse_filename (generate_filename (bytes_of_string "test") FTable 12345678) = Some (FTable, 12345678) ∧
  generate_filename (bytes_of_string "test") FTable 123 = bytes_of_string "test/000123.sst".
Proof. split; [apply (filename_roundtrip (bytes_of_string "test") FTable 12345678); lia|reflexivity]. Defined.
