(* ===== verification/TableCache.v ===== *)
(** * Caches of blocks and of tables

    The trait [Cache] of [src/cache/mod.rs] as an interface with its laws, the block
    cache that [Table::block_reader] of [src/sstable/table.rs] reads through, and the
    cache of opened tables of [src/table_cache.rs]. *)
From stdpp Require Import gmap.
From S2P Require Import Prelude Coding Comparator Storage Filename Iterator Block Concat Filter Table TableFacts TableBuild TableRead Lru Sharded.
Open Scope Z_scope.

(** ** The trait [Cache] *)
Class Cache (K V S : Type) : Type := {
  cache_insert : S → K → V → Z → outcome (option V * S);
  cache_get : S → K → outcome (option V * S);
  cache_erase : S → K → outcome S;
  cache_total_charge : S → outcome Z;
}.
#[export] Instance LRUCache_Cache {K V} `{Countable K} : Cache K V (LRUCache K V) :=
  {| cache_insert := lru_insert; cache_get := lru_get; cache_erase := lru_erase; cache_total_charge c := Ok (lru_total_charge c) |}.
Definition ShardedCache_Cache {K V} `{Countable K} (ck : bool) (hash : K → Z) : Cache K V (list (LRUCache K V)) :=
  {| cache_insert := sharded_insert hash; cache_get := sharded_get hash; cache_erase := sharded_erase hash;
     cache_total_charge := sharded_total_charge ck |}.

(** What a client that looks up and inserts relies on: whatever holds of every entry
    that was put in holds of every entry that is found, and neither operation fails. *)
Class CacheLaws {K V S : Type} (CA : Cache K V S) (holds : (K → V → Prop) → S → Prop) : Prop := {
  cache_get_law P s k : holds P s → ∃ r s', cache_get s k = Ok (r, s') ∧ holds P s' ∧ (∀ v, r = Some v → P k v);
  cache_insert_law P s k v charge : holds P s → P k v → ∃ r s', cache_insert s k v charge = Ok (r, s') ∧ holds P s';
}.

Section LruHolds.
Context {K V : Type} `{Countable K}.
Implicit Types (P : K → V → Prop) (s : LruSpec K V) (c : LRUCache K V).

Definition all_entries P s : Prop := Forall (λ e, P e.1 e.2.1) (sp_entries s).
(** There is an entry to evict, or room. *)
Definition can_insert s : Prop := 0 < sp_capacity s → sp_entries s ≠ [] ∨ sp_usage s < sp_capacity s.
Definition lru_holds P c : Prop := ∃ s, lru_rep c s ∧ all_entries P s ∧ can_insert s.

Lemma take_out_entries P k es x r : Forall (λ e : K * (V * Z), P e.1 e.2.1) es → take_out k es = Some (x, r) →
  P k x.1 ∧ Forall (λ e, P e.1 e.2.1) r.
Proof. intros Hf Hto. rewrite (take_out_split _ _ _ _ Hto) in Hf. by apply Forall_cons in Hf as [? ?]. Qed.
Lemma spec_get_entries P s k : all_entries P s → all_entries P (spec_get s k).2 ∧ ∀ v, (spec_get s k).1 = Some v → P k v.
Proof.
  intros Hall. unfold spec_get. destruct (take_out k (sp_entries s)) as [[[v ch] r]|] eqn:Hto; [|done].
  destruct (take_out_entries P k _ _ _ Hall Hto) as [Hv Hr]. split; [by constructor|by intros ? [= <-]].
Qed.
Lemma spec_insert_entries P s k v charge r s' : all_entries P s → P k v → spec_insert s k v charge = Some (r, s') → all_entries P s'.
Proof.
  intros Hall Hv. unfold spec_insert, all_entries. case_match; [|by intros [= <- <-]].
  destruct (take_out k (sp_entries s)) as [[[old ch] rest]|] eqn:Hto.
  - intros [= <- <-]. constructor; [done|]. apply (take_out_entries P k _ _ _ Hall Hto).
  - case_match; [|intros [= <- <-]; by constructor]. pose proof (split_last_spec (sp_entries s)) as Hsl.
    destruct (split_last (sp_entries s)) as [[rest [k' [v' c']]]|]; [|done]. intros [= <- <-]. unfold all_entries in Hall.
    rewrite Hsl in Hall. apply Forall_app in Hall as [Hall _]. by constructor.
Qed.
Lemma spec_insert_some s k v charge : can_insert s → ∃ r s', spec_insert s k v charge = Some (r, s') ∧ can_insert s'.
Proof.
  unfold spec_insert, can_insert. intros Hc. destruct (Z.ltb_spec 0 (sp_capacity s)) as [Hcap|Hcap]; [|eexists _, _; split; [done|lia]].
  specialize (Hc Hcap). destruct (take_out k (sp_entries s)) as [[[old ch] rest]|]; [eexists _, _; split; [done|by left]|].
  destruct (Z.leb_spec (sp_capacity s) (sp_usage s)); [|eexists _, _; split; [done|by left]].
  pose proof (split_last_spec (sp_entries s)) as Hsl. destruct (split_last (sp_entries s)) as [[rest [k' [v' c']]]|].
  - eexists _, _; split; [done|by left].
  - destruct Hc; [done|lia].
Qed.
Lemma spec_get_can s k : can_insert s → can_insert (spec_get s k).2.
Proof. unfold spec_get. destruct (take_out _ _) as [[[v ch] r]|]; [|done]. unfold can_insert. simpl. by left. Qed.

#[export] Instance LRUCache_laws : CacheLaws LRUCache_Cache lru_holds.
Proof.
  split.
  - intros P c k (s & Hrep & Hall & Hcan). destruct (lru_get_ok c s k Hrep) as (c' & Hg & Hrep').
    destruct (spec_get_entries P s k Hall) as [Hall' Hv]. exists (spec_get s k).1, c'. split_and!; [done| |done].
    exists (spec_get s k).2. split_and!; [done..|by apply spec_get_can].
  - intros P c k v charge (s & Hrep & Hall & Hcan) Hv. pose proof (lru_insert_ok c s k v charge Hrep) as Hi.
    destruct (spec_insert_some s k v charge Hcan) as (r & s' & Hs & Hcan'). rewrite Hs in Hi. destruct Hi as (c' & Hi & Hrep').
    exists r, c'. split; [done|]. exists s'. split_and!; [done|by eapply spec_insert_entries|done].
Qed.
Lemma lru_new_holds P cap : lru_holds P (lru_new cap).
Proof. exists (spec_new cap). split_and!; [apply lru_new_ok|constructor|]. unfold can_insert. simpl. by right. Qed.

(** Every shard satisfies the laws of its cache. *)
Definition sharded_holds P (shards : list (LRUCache K V)) : Prop := shards ≠ [] ∧ Forall (lru_holds P) shards.
Lemma on_shard {A} (hash : K → Z) P shards k (f : LRUCache K V → outcome (A * LRUCache K V)) (Q : A → Prop) :
  (∀ k, 0 ≤ hash k) → sharded_holds P shards →
  (∀ c, lru_holds P c → ∃ r c', f c = Ok (r, c') ∧ lru_holds P c' ∧ Q r) →
  ∃ r (s' : list (LRUCache K V)), (idx ← find_shard hash shards k; c ← index shards idx; x ← f c; Ok (x.1, <[idx := x.2]> shards)) = Ok (r, s') ∧
    sharded_holds P s' ∧ Q r.
Proof.
  intros Hh [Hne Hall] Hf. pose proof (shard_lt hash shards k Hh Hne) as Hlt.
  assert (find_shard hash shards k = Ok (shard_index hash (length shards) k)) as -> by by destruct shards.
  rewrite Ok_bind. destruct (lookup_lt_is_Some_2 shards _ Hlt) as [c Hc].
  unfold index. rewrite Hc, Ok_bind. destruct (Hf c) as (r & c' & -> & Hc' & HQ); [by eapply Forall_lookup_1|].
  rewrite Ok_bind. eexists r, _. split; [done|]. split; [|done]. split; [|by apply Forall_insert].
  intros Hnil%(f_equal length). rewrite length_insert in Hnil. by destruct shards.
Qed.
Lemma ShardedCache_laws (ck : bool) (hash : K → Z) : (∀ k, 0 ≤ hash k) → CacheLaws (ShardedCache_Cache ck hash) sharded_holds.
Proof.
  intros Hh. split.
  - intros P s k Hs. apply (on_shard hash P s k (λ c, lru_get c k) (λ r, ∀ v, r = Some v → P k v) Hh Hs).
    intros c Hc. exact (cache_get_law P c k Hc).
  - intros P s k v charge Hs Hv.
    destruct (on_shard hash P s k (λ c, lru_insert c k v charge) (λ _, True) Hh Hs) as (r & s' & ? & ? & _); [|by exists r, s'].
    intros c Hc. destruct (cache_insert_law P c k v charge Hc Hv) as (r & c' & ? & ?). by exists r, c'.
Qed.
End LruHolds.

(** ** Reading blocks through the block cache *)

(** An operation of a cache as a step. *)
Definition on_cache {S A} (f : S → outcome (A * S)) : st S A := λ s,
  match f s with
  | Ok (x, s') => (Ok x, s')
  | Err e => (Err e, s)
  | Panic => (Panic, s)
  | OutOfFuel => (OutOfFuel, s)
  end.

Section Reading.
Context {SN : Snappy} {CRC : Crc32} {F : Type} {FO : File F} {BC : Type} {CA : Cache bytes Block BC}.

(** The two numbers are appended to sixteen zero bytes. *)
Definition cache_key (file_number offset : Z) : bytes :=
  put_fixed_64 (put_fixed_64 (replicate 16 0) file_number) offset.

(** [block_reader] with a block cache. *)
Definition cached_block (t : Table F) (h : BlockHandle) (verify_checksums fill_cache : bool) : st BC BlockIterator :=
  let key := cache_key (t_file_number t) (bh_offset h) in
  found ← on_cache (λ c, cache_get c key);
  match found with
  | Some b => mret (block_iter b)
  | None =>
    data ← lift (read_block (t_file t) h verify_checksums);
    b ← lift (block_new data);
    _ ← (if fill_cache then on_cache (λ c, cache_insert c key b (len data)) else mret None);
    mret (block_iter b)
  end.
Definition block_reader_with (t : Table F) (h : BlockHandle) (verify_checksums fill_cache : bool) : st (option BC) BlockIterator := λ bc,
  match bc with
  | Some c => let '(r, c) := cached_block t h verify_checksums fill_cache c in (r, Some c)
  | None => (block_reader t h verify_checksums, None)
  end.

(** [internal_get] with that reader. *)
Definition internal_get_with (C : Comparator) (t : Table F) (verify_checksums fill_cache : bool) (key : bytes)
    : st (option BC) (option BlockIterator) :=
  index_iter ← lift (bi_seek C (block_iter (t_index_block t)) key);
  let done_ := lift (_ ← (bi_status index_iter).1; Ok None) in
  if bi_valid index_iter then
    handle_val ← lift (bi_get_value index_iter);
    maybe_contained ←
      lift match t_filter_reader t with
      | Some (P, filter) =>
        match bh_decode_from handle_val with
        | Ok (handle, _) => @key_may_match P filter (bh_offset handle) key
        | Err _ => Ok true
        | Panic => Panic | OutOfFuel => OutOfFuel
        end
      | None => Ok true
      end;
    if (maybe_contained : bool) then
      h ← lift (bh_decode_from handle_val);
      block_iter ← block_reader_with t h.1 verify_checksums fill_cache;
      block_iter ← lift (bi_seek C block_iter key);
      if bi_valid block_iter then mret (Some block_iter) else
      block_iter ← lift (bi_seek_to_first block_iter);
      block_iter ← lift (exhaust C (length (bi_data block_iter)) block_iter);
      _ ← lift (bi_status block_iter).1;
      done_
    else done_
  else done_.

(** ** The cache of opened tables *)
Context (C : Comparator) (storage_open : bytes → outcome F) (db_path : bytes) (paranoid_checks : bool) (filter_policy : option FilterPolicy).

(** The cache of tables, and the block cache its tables share. *)
Record TableCache : Type := mkTableCache { tc_cache : LRUCache Z (Table F); tc_blocks : option BC }.
Definition table_cache_new (size : Z) (blocks : option BC) : TableCache := mkTableCache (lru_new size) blocks.

(** What [find_table] does when the table is not in the cache. *)
Definition open_table (file_number file_size : Z) : outcome (Table F) :=
  file ← storage_open (generate_filename db_path FTable file_number);
  table_open C file file_number file_size paranoid_checks filter_policy.

Definition on_tables {A} (m : st (LRUCache Z (Table F)) A) : st TableCache A := λ tc,
  let '(r, c) := m (tc_cache tc) in (r, mkTableCache c (tc_blocks tc)).
Definition on_blocks {A} (m : st (option BC) A) : st TableCache A := λ tc,
  let '(r, b) := m (tc_blocks tc) in (r, mkTableCache (tc_cache tc) b).

Definition find_table (file_number file_size : Z) : st TableCache (Table F) := on_tables (
  found ← on_cache (λ c, cache_get c file_number);
  match found with
  | Some t => mret t
  | None =>
    t ← lift (open_table file_number file_size);
    _ ← on_cache (λ c, cache_insert c file_number t 1);
    mret t
  end).
Definition tc_evict (file_number : Z) : st TableCache unit := on_tables (λ c,
  match cache_erase c file_number with
  | Ok c' => (Ok tt, c')
  | Err e => (Err e, c)
  | Panic => (Panic, c)
  | OutOfFuel => (OutOfFuel, c)
  end).
Definition tc_get (verify_checksums fill_cache : bool) (key : bytes) (file_number file_size : Z) : st TableCache (option BlockIterator) :=
  table ← find_table file_number file_size;
  on_blocks (internal_get_with C table verify_checksums fill_cache key).
Definition tc_new_iter (file_number file_size : Z) : st TableCache (ConcatenateIterator BlockIterator BlockIterator) :=
  t ← find_table file_number file_size;
  mret (new_table_iterator t).

(** Sequences of calls, each with the size its file has; every call answers. *)
Inductive TableOp : Type :=
  | TGet (verify_checksums fill_cache : bool) (key : bytes) (file_number : Z)
  | TIter (file_number : Z)
  | TEvict (file_number : Z).
Inductive TableAnswer : Type :=
  | AGet (r : outcome (option BlockIterator))
  | AIter (r : outcome (ConcatenateIterator BlockIterator BlockIterator))
  | AEvict (r : outcome unit).
Definition table_op (size_of : Z → Z) (op : TableOp) (tc : TableCache) : TableAnswer * TableCache :=
  match op with
  | TGet vc fill k n => let '(r, tc) := tc_get vc fill k n (size_of n) tc in (AGet r, tc)
  | TIter n => let '(r, tc) := tc_new_iter n (size_of n) tc in (AIter r, tc)
  | TEvict n => let '(r, tc) := tc_evict n tc in (AEvict r, tc)
  end.
Fixpoint table_ops (size_of : Z → Z) (ops : list TableOp) (tc : TableCache) : list TableAnswer * TableCache :=
  match ops with
  | [] => ([], tc)
  | op :: ops => let '(a, tc) := table_op size_of op tc in let '(rest, tc) := table_ops size_of ops tc in (a :: rest, tc)
  end.

(** The answers without any cache: the file is opened for every call. *)
Definition direct_op (size_of : Z → Z) (op : TableOp) : TableAnswer :=
  match op with
  | TGet vc _ k n => AGet (t ← open_table n (size_of n); internal_get C t vc k)
  | TIter n => AIter (t ← open_table n (size_of n); Ok (new_table_iterator t))
  | TEvict _ => AEvict (Ok tt)
  end.
End Reading.

(** ** Transparency *)
Section Facts.
Context {SN : Snappy} {CRC : Crc32} {F : Type} {FO : File F} {BC : Type} {CA : Cache bytes Block BC}.
Context (holds : (bytes → Block → Prop) → BC → Prop) {LAWS : CacheLaws CA holds}.
Context (C : Comparator) (key_ok : bytes → Prop) (storage_open : bytes → outcome F) (db_path : bytes) (paranoid_checks : bool)
  (filter_policy : option FilterPolicy) (size_of : Z → Z) (cap : Z).
Notation opened n := (open_table C storage_open db_path paranoid_checks filter_policy n (size_of n)).
Context (Hsound : ∀ n t, opened n = Ok t → sound_handles C key_ok t).

Lemma le8_inj x x' : in_uint 64 x → in_uint 64 x' → to_le_bytes 8 x = to_le_bytes 8 x' → x = x'.
Proof. intros Hx Hx' Heq. rewrite <- (of_to_le_bytes 8 x), <- (of_to_le_bytes 8 x') by done. by rewrite Heq. Qed.
Lemma cache_key_inj n n' x x' : in_uint 64 n → in_uint 64 n' → in_uint 64 x → in_uint 64 x' →
  cache_key n x = cache_key n' x' → n = n' ∧ x = x'.
Proof.
  intros Hn Hn' Hx Hx'. unfold cache_key. rewrite !put_fixed_64_eq. intros Heq.
  apply app_inj_2 in Heq as [Heq Hx2]; [|by rewrite !length_to_le_bytes]. apply app_inv_head in Heq.
  by split; apply le8_inj.
Qed.
Lemma table_open_number (f : F) n size vc P t : table_open C f n size vc P = Ok t → t_file_number t = n.
Proof.
  unfold table_open. case_match; [done|]. intros (fs & _ & (ft & _ & (d & _ & (ib & _ & Ht)%bind_Ok)%bind_Ok)%bind_Ok)%bind_Ok.
  destruct P as [P|]; [|by injection Ht as <-]. destruct (0 <? _); [|by injection Ht as <-].
  destruct (read_block f (ft_meta_index_handle ft.1) vc ≫= block_new) as [mb| | |]; [|by simplify_eq..].
  apply bind_Ok in Ht as (fr & _ & Ht). by injection Ht as <-.
Qed.
Lemma opened_number n t : opened n = Ok t → t_file_number t = n.
Proof. unfold open_table. intros (f & _ & Ht)%bind_Ok. by eapply table_open_number. Qed.

(** A block in the cache is the block of every handle with its key. *)
Definition block_ok (key : bytes) (b : Block) : Prop := ∀ n t h vc, in_uint 64 n → opened n = Ok t → index_handle C key_ok t h →
  key = cache_key n (bh_offset h) → block_reader t h vc = Ok (block_iter b).

Lemma cached_block_ok n t h vc fill c : in_uint 64 n → opened n = Ok t → index_handle C key_ok t h → holds block_ok c →
  ∃ c', cached_block t h vc fill c = (block_reader t h vc, c') ∧ holds block_ok c'.
Proof.
  intros Hn Ht Hh Hc. unfold cached_block. cbv zeta. rewrite (opened_number n t Ht).
  destruct (cache_get_law block_ok c (cache_key n (bh_offset h)) Hc) as (r & c1 & Hg & Hc1 & Hr).
  unfold mbind at 1, st_bind at 1, on_cache at 1. rewrite Hg. destruct r as [b|].
  { exists c1. split; [|done]. by rewrite (Hr b eq_refl n t h vc). }
  unfold block_reader. destruct (read_block (t_file t) h vc) as [d|e| |] eqn:Hd; [|by exists c1..].
  rewrite lift_Ok_bind, Ok_bind. destruct (block_new d) as [b|e| |] eqn:Hb; [|by exists c1..]. rewrite lift_Ok_bind, Ok_bind.
  destruct fill; [|by exists c1]. destruct (cache_insert_law block_ok c1 (cache_key n (bh_offset h)) b (len d) Hc1) as (r & c2 & Hi & Hc2).
  2: { exists c2. split; [|done]. unfold mbind, st_bind, on_cache. by rewrite Hi. }
  intros n' t' h' vc' Hn' Ht' Hh' Hkey. pose proof (Hsound n t Ht) as Hs. pose proof (Hsound n' t' Ht') as Hs'.
  apply cache_key_inj in Hkey as [<- Hoff]; [|done|done|by apply (sh_offset _ _ _ Hs)|by apply (sh_offset _ _ _ Hs')].
  rewrite Ht in Ht'. injection Ht' as <-. rewrite <- (sh_unique _ _ _ Hs h h' Hh Hh' Hoff). unfold block_reader.
  by rewrite (sh_read _ _ _ Hs h Hh vc' vc), Hd, Ok_bind, Hb.
Qed.

Definition blocks_ok (bc : option BC) : Prop := match bc with Some c => holds block_ok c | None => True end.
Lemma block_reader_with_ok n t h vc fill bc : in_uint 64 n → opened n = Ok t → index_handle C key_ok t h → blocks_ok bc →
  ∃ bc', block_reader_with t h vc fill bc = (block_reader t h vc, bc') ∧ blocks_ok bc'.
Proof.
  intros Hn Ht Hh Hbc. destruct bc as [c|]; [|by exists None]. destruct (cached_block_ok n t h vc fill c Hn Ht Hh Hbc) as (c' & Hc & Hok).
  exists (Some c'). simpl. by rewrite Hc.
Qed.

(** The same answer and a sound cache, from any point on. *)
Lemma internal_get_with_ok n t vc fill k bc : in_uint 64 n → opened n = Ok t → key_ok k → blocks_ok bc →
  ∃ bc', internal_get_with C t vc fill k bc = (internal_get C t vc k, bc') ∧ blocks_ok bc'.
Proof.
  intros Hn Ht Hk Hbc. unfold internal_get_with, internal_get. cbv zeta.
  destruct (bi_seek C (block_iter (t_index_block t)) k) as [it| | |] eqn:Hs; [|by exists bc..]. rewrite lift_Ok_bind, Ok_bind.
  destruct (bi_valid it) eqn:Hv; [|by exists bc]. destruct (bi_get_value it) as [v| | |] eqn:Hval; [|by exists bc..].
  rewrite lift_Ok_bind, Ok_bind. set (m := match t_filter_reader t with Some _ => _ | None => _ end).
  destruct m as [[]| | |]; [|by exists bc..]. rewrite lift_Ok_bind, Ok_bind.
  destruct (bh_decode_from v) as [[h r]| | |] eqn:Hdec; [|by exists bc..]. rewrite lift_Ok_bind, Ok_bind. cbn [fst].
  destruct (block_reader_with_ok n t h vc fill bc Hn Ht) as (bc' & Hrd & Hok); [by exists k, it, v, r|done|].
  exists bc'. split; [|done]. unfold mbind at 1, st_bind at 1. rewrite Hrd.
  destruct (block_reader t h vc) as [bi| | |]; [|done..]. rewrite Ok_bind.
  destruct (bi_seek C bi k) as [bi1| | |]; [|done..]. rewrite lift_Ok_bind, Ok_bind. destruct (bi_valid bi1); [done|].
  destruct (bi_seek_to_first bi1) as [bi2| | |]; [|done..]. rewrite lift_Ok_bind, Ok_bind.
  destruct (exhaust C _ bi2) as [bi3| | |]; [|done..]. rewrite lift_Ok_bind, Ok_bind.
  by destruct (bi_status bi3).1.
Qed.

(** *** The invariant of the two caches *)
Definition tables_ok (c : LRUCache Z (Table F)) : Prop :=
  ∃ s, lru_rep c s ∧ unit_charged s ∧ all_entries (λ n t, opened n = Ok t) s ∧ sp_capacity s = cap.
Record tc_inv (tc : TableCache (F := F) (BC := BC)) : Prop := {
  ti_tables : tables_ok (tc_cache tc);
  ti_blocks : blocks_ok (tc_blocks tc);
}.

Lemma tables_get c n : tables_ok c → ∃ r c', lru_get c n = Ok (r, c') ∧ tables_ok c' ∧ ∀ t, r = Some t → opened n = Ok t.
Proof.
  intros (s & Hrep & Hu & Hall & Hcap). destruct (lru_get_ok c s n Hrep) as (c' & Hg & Hrep').
  destruct (spec_get_entries _ s n Hall) as [Hall' Hfound].
  destruct (unit_op s (OpGet n) Hu) as (r1 & s1 & Hop & Hu1 & Hcap1); [done|]. simpl in Hop. injection Hop as Hop.
  rewrite Hop in *. cbn [fst snd] in *. exists r1, c'. split; [done|]. split; [|done]. exists s1. split_and!; try done. lia.
Qed.
Lemma tables_insert c n t : tables_ok c → opened n = Ok t → ∃ r c', lru_insert c n t 1 = Ok (r, c') ∧ tables_ok c'.
Proof.
  intros (s & Hrep & Hu & Hall & Hcap) Ht. pose proof (lru_insert_ok c s n t 1 Hrep) as Hi.
  destruct (unit_op s (OpInsert n t 1) Hu) as (r & s' & Hop & Hu' & Hcap'); [by intros ? ? ? [= _ _ <-]|]. simpl in Hop.
  rewrite Hop in Hi. destruct Hi as (c' & Hi & Hrep'). exists r, c'. split; [done|]. exists s'. split_and!; try done.
  - eapply spec_insert_entries; [exact Hall| |exact Hop]. done.
  - lia.
Qed.
Lemma tables_erase c n : tables_ok c → ∃ c', lru_erase c n = Ok c' ∧ tables_ok c'.
Proof.
  intros (s & Hrep & Hu & Hall & Hcap). destruct (lru_erase_ok c s n Hrep) as (c' & He & Hrep').
  destruct (unit_op s (OpErase n) Hu) as (r1 & s1 & Hop & Hu1 & Hcap1); [done|]. simpl in Hop. injection Hop as _ <-.
  exists c'. split; [done|]. eexists. split_and!; [done..| |lia]. unfold spec_erase, all_entries.
  destruct (take_out n (sp_entries s)) as [[[t ch] r]|] eqn:Hto; [|done]. apply (take_out_entries _ n _ _ _ Hall Hto).
Qed.

Lemma find_table_ok n tc : tc_inv tc →
  ∃ tc', find_table C storage_open db_path paranoid_checks filter_policy n (size_of n) tc = (opened n, tc') ∧ tc_inv tc'.
Proof.
  intros [Hc Hb]. unfold find_table, on_tables, mbind at 1, st_bind at 1, on_cache at 1.
  destruct (tables_get _ n Hc) as (r & c1 & Hg & Hc1 & Hr). cbn [cache_get LRUCache_Cache]. rewrite Hg.
  destruct r as [t|]; [eexists; rewrite (Hr t eq_refl); by split|].
  destruct (opened n) as [t|e| |] eqn:Ht; [|by eexists..]. rewrite lift_Ok_bind. unfold mbind, st_bind, on_cache.
  destruct (tables_insert c1 n t Hc1 Ht) as (r & c2 & Hi & Hc2). cbn [cache_insert LRUCache_Cache]. rewrite Hi. by eexists.
Qed.

(** A call that stays within the numbers and keys of tables. *)
Definition call_ok (op : TableOp) : Prop :=
  match op with TGet _ _ k n => key_ok k ∧ in_uint 64 n | TIter n | TEvict n => True end.
Notation direct := (direct_op C storage_open db_path paranoid_checks filter_policy size_of).
Notation run := (table_ops C storage_open db_path paranoid_checks filter_policy size_of).

Lemma table_op_ok op tc : call_ok op → tc_inv tc →
  ∃ tc', table_op C storage_open db_path paranoid_checks filter_policy size_of op tc = (direct op, tc') ∧ tc_inv tc'.
Proof.
  intros Hop Htc. destruct op as [vc fill k n|n|n]; simpl.
  - destruct Hop as [Hk Hn]. unfold tc_get, mbind at 1, st_bind at 1. destruct (find_table_ok n tc Htc) as (tc1 & -> & [Hc1 Hb1]).
    destruct (opened n) as [t| | |] eqn:Ht; [|by eexists..]. unfold on_blocks.
    destruct (internal_get_with_ok n t vc fill k _ Hn Ht Hk Hb1) as (b & -> & Hb). by eexists.
  - unfold tc_new_iter, mbind at 1, st_bind at 1. destruct (find_table_ok n tc Htc) as (tc1 & -> & Htc1).
    destruct (opened n) as [t| | |]; by exists tc1.
  - destruct Htc as [Hc Hb]. unfold tc_evict, on_tables. destruct (tables_erase _ n Hc) as (c & He & Hc1).
    cbn [cache_erase LRUCache_Cache]. rewrite He. by eexists.
Qed.
Lemma table_ops_ok ops tc : Forall call_ok ops → tc_inv tc → ∃ tc', run ops tc = (direct <$> ops, tc') ∧ tc_inv tc'.
Proof.
  intros Hops. revert tc. induction Hops as [|op ops Hop _ IH]; intros tc Htc; [by exists tc|]. simpl.
  destruct (table_op_ok op tc Hop Htc) as (tc1 & -> & Htc1). destruct (IH tc1 Htc1) as (tc2 & -> & Htc2). by exists tc2.
Qed.

Lemma tables_new_ok : 0 < cap < 2 ^ 64 → tables_ok (lru_new cap).
Proof.
  intros Hcap. exists (spec_new cap). split_and!; [apply lru_new_ok| |constructor|done].
  split; cbn [spec_new sp_entries sp_usage sp_capacity]; rewrite ?len_nil; first [lia | by constructor].
Qed.
Lemma tables_size c : tables_ok c → Z.of_nat (size (lc_table c)) ≤ cap.
Proof. intros (s & Hrep & Hu & _ & <-). rewrite (rep_size c s Hrep). apply (uc_bound s Hu). Qed.
End Facts.

(** ** Properties *)
Section Theorems.
Context {SN : Snappy} {SL : SnappyLaws} {CRC : Crc32} {CL : Crc32Laws} {F : Type} {FO : File F} {FL : FileLaws F}.
Context (C : Comparator) (key_ok : bytes → Prop) (ord : bytes → bytes → comparison).
Context {CO : ComparatorOrder C key_ok ord} {CS : ComparatorShortening C key_ok ord}.
Context {BC : Type} {CA : Cache bytes Block BC} (holds : (bytes → Block → Prop) → BC → Prop) {LAWS : CacheLaws CA holds}.

(** A file that a table builder finished, from sorted entries. *)
Definition built_file (o : TableOptions) (f : F) : Prop := ∃ fits f0 sync es,
  (1 ≤ to_block_restart_interval o)%nat ∧ policy_ok (to_filter_policy o) fits es.*1 ∧ key_ok (filter_key (to_filter_policy o)) ∧
  sorted ord es ∧ Forall (λ e, key_ok e.1) es ∧ f_ok f0 ∧ f_contents f0 = [] ∧
  build_file C f0 o sync es = Ok f ∧ len (f_contents f) < 2 ^ 32.
Lemma built_sound o f n vc t : built_file o f → table_open C f n (len (f_contents f)) vc (to_filter_policy o) = Ok t → sound_handles C key_ok t.
Proof.
  intros (fits & f0 & sync & es & Hn & Hpol & Hfk & Hs & Hk & Hf & Hc & Hb & Hsz) Ht.
  destruct (build_open C key_ok ord o fits f0 sync es) as [?|(f1 & Hb1 & _ & Hop)]; [done..|congruence|].
  rewrite Hb in Hb1. injection Hb1 as <-. destruct (Hop Hsz n vc) as (t1 & Ht1 & _ & _ & _ & Hsh). rewrite Ht in Ht1. by injection Ht1 as <-.
Qed.

End Theorems.

(** *** Witness: the table of three blocks, a cache of one table, a block cache that
    holds two shards of one block each. *)
Import IeeeCrc.
Definition demo_hash (k : bytes) : Z := fold_right Z.add 0 (Z.abs <$> k).
Definition demo_storage (name : bytes) : outcome InmemFile :=
  if bool_decide (name = generate_filename [] FTable 7) then Ok demo_file else Err (IO KNotFound).
Lemma demo_storage_file name f : demo_storage name = Ok f → f = demo_file.
Proof.
  unfold demo_storage. generalize demo_file as d. intros d. destruct (bool_decide _); [by intros [= ->]|intros Hf; inversion Hf].
Qed.
Definition demo_calls : list TableOp :=
  [TGet true true [97] 7; TGet false true [120] 7; TGet true true [97] 7; TGet true true [97] 8; TIter 7; TEvict 7; TGet true false [98] 7; TGet true true [98; 99] 7].
Definition demo_blocks : option (list (LRUCache bytes Block)) := Some [lru_new 1; lru_new 1].

Lemma demo_hash_nonneg k : 0 ≤ demo_hash k.
Proof. unfold demo_hash. induction k as [|x k IH]; [done|]. rewrite fmap_cons. cbn [fold_right]. lia. Qed.

