(* ===== verification/MemFs.v ===== *)
(** * The in-memory file system: [MemStorage] of [src/storage/mem.rs]

    A map from cleaned paths to nodes.  A file is shared by its handles, so the map
    holds a file number and the contents lie in a store; the fault-injection switches
    belong to the storage and are seen by every file.  On top of the storage interface,
    [do_write_string_to_file] of [src/storage/mod.rs] and [update_current] of
    [src/db/filename.rs]. *)
From stdpp Require Import gmap.
From S2P Require Import Prelude Storage Filename.
Open Scope Z_scope.

(** The operations of the trait [Storage] on a state [S] with file handles [H] that the
    functions below use, and the operations of a file through its handle. *)
Class StorageOps (S H : Type) : Type := {
  sto_create : bytes → st S H;
  sto_open : bytes → st S H;
  sto_remove : bytes → st S unit;
  sto_rename : bytes → bytes → st S unit;
  sto_write : H → bytes → st S nat;
  sto_flush : H → st S unit;
  sto_close : H → st S unit;
}.

Section Generic.
Context {S H : Type} {SO : StorageOps S H}.

(** Going on after a success or after an error. *)
Definition on_result (m : st S unit) (ok : st S unit) (err : error → st S unit) : st S unit := λ s,
  match m s with
  | (Ok _, s) => ok s
  | (Err e, s) => err e s
  | r => r
  end.

Definition do_write_string_to_file (data file_name : bytes) (should_sync : bool) : st S unit :=
  file ← sto_create file_name;
  _ ← sto_write file data;
  _ ← (if should_sync then sto_flush file else mret tt);
  on_result (sto_close file) (mret tt) (λ _, sto_remove file_name).

(** [manifest.drain(0..=dir.len())] panics when the name is not longer than the directory. *)
Definition update_current (dir : bytes) (manifest_file_num : Z) : st S unit :=
  manifest ← lift (slice_from (generate_filename dir FManifest manifest_file_num) (length dir + 1));
  let tmp := generate_filename dir FTemp manifest_file_num in
  on_result (do_write_string_to_file manifest tmp true) (sto_rename tmp (generate_filename dir FCurrent 0))
    (λ e, _ ← sto_remove tmp; lift (Err e)).
End Generic.

(** ** [MemStorage] *)

Inductive Node : Type := NFile (id : nat) | NDir.

(** A file in the store: the name it was created with, whether reads are counted. *)
Record StoredFile : Type := mkStored { sf_name : bytes; sf_count_random_reads : bool; sf_inner : InmemFile }.

Record MemStorage : Type := mkMemStorage {
  ms_inner : gmap bytes Node;
  ms_files : gmap nat StoredFile;
  ms_data_sync_error : bool;
  ms_no_space : bool;
  ms_non_writable : bool;
  ms_manifest_sync_error : bool;
  ms_manifest_write_error : bool;
  ms_count_random_reads : bool;
  ms_random_read_counter : Z;
}.
Definition with_nodes (s : MemStorage) (m : gmap bytes Node) : MemStorage :=
  mkMemStorage m (ms_files s) (ms_data_sync_error s) (ms_no_space s) (ms_non_writable s) (ms_manifest_sync_error s)
    (ms_manifest_write_error s) (ms_count_random_reads s) (ms_random_read_counter s).
Definition with_files (s : MemStorage) (fs : gmap nat StoredFile) (counter : Z) : MemStorage :=
  mkMemStorage (ms_inner s) fs (ms_data_sync_error s) (ms_no_space s) (ms_non_writable s) (ms_manifest_sync_error s)
    (ms_manifest_write_error s) (ms_count_random_reads s) counter.

(** [MemStorage::default] *)
Definition memstorage_default : MemStorage := mkMemStorage {[ [SEPARATOR] := NDir ]} ∅ false false false false false false 0.

(** [clean]: the normal components, from the root. *)
Definition render (cs : list bytes) : bytes := match cs with [] => [SEPARATOR] | _ => mjoin ((λ c, SEPARATOR :: c) <$> cs) end.
Definition normal_components (p : bytes) : list bytes := filter (λ c, c ≠ [DOT; DOT]) (path_components p).
Definition clean (p : bytes) : bytes := render (normal_components p).
(** [Path::parent] of a cleaned path. *)
Definition parent (p : bytes) : option bytes :=
  match normal_components p with [] => None | cs => Some (render (removelast cs)) end.
(** [Path::ancestors] of a cleaned path, the path itself first. *)
Definition ancestors (p : bytes) : list bytes :=
  (λ n, render (take n (normal_components p))) <$> reverse (seq 0 (S (length (normal_components p)))).

Definition is_dir (n : option Node) : bool := match n with Some NDir => true | _ => false end.

(** [is_ok_to_create] *)
Definition is_ok_to_create (s : MemStorage) (name : bytes) : outcome unit :=
  match parent name with
  | Some p =>
    if is_dir (ms_inner s !! p) then
      match ms_inner s !! name with Some NDir => Err (IO KAlreadyExists) | _ => Ok tt end
    else Err (IO KNotFound)
  | None => Err (IO KAlreadyExists)
  end.

Definition ms_create (name : bytes) (s : MemStorage) : outcome nat * MemStorage :=
  if ms_non_writable s then (Err (IO KOther), s)
  else
    let path := clean name in
    match is_ok_to_create s path with
    | Ok _ =>
      match ms_inner s !! path with
      | Some (NFile id) => (Ok id, s)
      | Some NDir => (Err (IO KOther), s)
      | None =>
        let id := fresh (dom (ms_files s)) in
        let f := mkStored path (ms_count_random_reads s) inmem_default in
        (Ok id, with_nodes (with_files s (<[id := f]> (ms_files s)) (ms_random_read_counter s)) (<[path := NFile id]> (ms_inner s)))
      end
    | Err e => (Err e, s)
    | Panic => (Panic, s)
    | OutOfFuel => (OutOfFuel, s)
    end.

Definition ms_open (name : bytes) (s : MemStorage) : outcome nat * MemStorage :=
  match ms_inner s !! clean name with
  | Some (NFile id) => (Ok id, s)
  | _ => (Err (IO KNotFound), s)
  end.

Definition ms_remove (name : bytes) (s : MemStorage) : outcome unit * MemStorage :=
  match ms_inner s !! clean name with
  | Some (NFile _) => (Ok tt, with_nodes s (delete (clean name) (ms_inner s)))
  | _ => (Err (IO KNotFound), s)
  end.

(** The keys below a path: those that begin with it. *)
Definition below (key k : bytes) : Prop := k ≠ key ∧ starts_with key k = true.
#[export] Instance below_dec key k : Decision (below key k).
Proof. unfold below. apply _. Defined.

Definition ms_remove_dir (dir : bytes) (recursively : bool) (s : MemStorage) : outcome unit * MemStorage :=
  let key := clean dir in
  match ms_inner s !! key with
  | Some NDir =>
    if recursively then
      (Ok tt, with_nodes s (filter (λ kv, ¬ (below key kv.1 ∨ kv.1 = key ∧ key ≠ [SEPARATOR])) (ms_inner s)))
    else if bool_decide (map_Forall (λ k _, ¬ below key k) (ms_inner s)) then (Ok tt, with_nodes s (delete key (ms_inner s)))
    else (Err (IO KNotFound), s)
  | _ => (Err (IO KNotFound), s)
  end.

Definition ms_exists (name : bytes) (s : MemStorage) : bool := bool_decide (is_Some (ms_inner s !! clean name)).

Definition ms_rename (old new : bytes) (s : MemStorage) : outcome unit * MemStorage :=
  let old := clean old in
  if bool_decide (old = [SEPARATOR]) then (Err (IO KInvalidInput), s)
  else
    match ms_inner s !! old with
    | Some f => (Ok tt, with_nodes s (<[clean new := f]> (delete old (ms_inner s))))
    | None => (Err (IO KNotFound), s)
    end.

Definition ms_mkdir_all (dir : bytes) (s : MemStorage) : outcome unit * MemStorage :=
  let cs := ancestors (clean dir) in
  if existsb (λ c, match ms_inner s !! c with Some (NFile _) => true | _ => false end) cs then (Err (IO KAlreadyExists), s)
  else (Ok tt, with_nodes s (foldl (λ m c, <[c := NDir]> m) (ms_inner s) cs)).

(** [list]: the result as a set, the keys of a hash map have no order. *)
Definition ms_list (dir : bytes) (s : MemStorage) : outcome (gset bytes) :=
  let path := clean dir in
  match ms_inner s !! path with
  | None => Err (IO KNotFound)
  | Some _ => Ok (filter (below path) (dom (ms_inner s)))
  end.

(** ** Files through their handles *)

(** The [FileNode] a handle stands for. *)
Definition node_of (s : MemStorage) (f : StoredFile) : FileNode :=
  mkFileNode (string_of_bytes (sf_name f)) (ms_data_sync_error s) (ms_no_space s) (ms_manifest_sync_error s) (ms_manifest_write_error s)
    (sf_count_random_reads f) (ms_random_read_counter s) (sf_inner f).
(** An operation of the file, on the shared contents. *)
Definition on_file {A} (id : nat) (op : FileNode → outcome A * FileNode) : st MemStorage A := λ s,
  match ms_files s !! id with
  | Some f =>
    let '(r, node) := op (node_of s f) in
    (r, with_files s (<[id := mkStored (sf_name f) (sf_count_random_reads f) (fn_inner node)]> (ms_files s)) (fn_random_read_counter node))
  | None => (Panic, s)
  end.

#[export] Instance MemStorage_ops : StorageOps MemStorage nat := {
  sto_create := ms_create;
  sto_open := ms_open;
  sto_remove := ms_remove;
  sto_rename := ms_rename;
  sto_write := λ h d, on_file h (λ f, @file_write _ (FileNode_File true) f d);
  sto_flush := λ h, on_file h (@file_flush _ (FileNode_File true));
  sto_close := λ h, on_file h (@file_close _ (FileNode_File true));
}.

(** ** Cleaned paths *)

Lemma split_on_no c s : Forall (λ w, c ∉ w) (split_on c s).
Proof.
  induction s as [|x s IH]; simpl; [repeat constructor; apply not_elem_of_nil|].
  destruct (x =? c) eqn:E; [constructor; [apply not_elem_of_nil|done]|]. apply Z.eqb_neq in E.
  destruct (split_on c s) as [|w ws]; [repeat constructor; by intros ?%list_elem_of_singleton|].
  inversion IH; subst. constructor; [|done]. by rewrite not_elem_of_cons.
Qed.
Lemma normal_components_ok p : Forall component_ok (normal_components p).
Proof.
  apply Forall_forall. intros c. unfold normal_components, path_components. rewrite !list_elem_of_filter.
  intros (Hdd & (Hne & Hd) & Hin). pose proof (split_on_no SEPARATOR p) as Hs. rewrite Forall_forall in Hs. split_and!; [by apply Hs|done..].
Qed.
Lemma normal_components_render cs : Forall component_ok cs → normal_components (render cs) = cs.
Proof.
  intros Hcs. assert (∀ l, split_on SEPARATOR (l ++ mjoin ((λ c, SEPARATOR :: c) <$> cs)) = split_on SEPARATOR l ++ cs) as Hsplit.
  { induction Hcs as [|c cs (Hc & _) Hcs IH]; intros l; [by rewrite !app_nil_r|]. change (mjoin (?f <$> c :: cs)) with (f c ++ mjoin (f <$> cs)).
    cbn [app]. rewrite split_on_app, IH, (split_on_none _ c) by done. done. }
  assert (filter (λ c, c ≠ [DOT; DOT]) (filter (λ c, c ≠ [] ∧ c ≠ [DOT]) cs) = cs) as Hf.
  { clear Hsplit. induction Hcs as [|c cs (_ & H1 & H2 & H3) Hcs IH]; [done|]. rewrite filter_cons_True, filter_cons_True by done. by rewrite IH. }
  destruct cs as [|c cs]; [done|]. unfold normal_components, path_components, render. specialize (Hsplit []). rewrite app_nil_l in Hsplit.
  rewrite Hsplit. cbn [split_on app]. rewrite (filter_cons_False (λ c, c ≠ [] ∧ c ≠ [DOT]) []) by naive_solver. exact Hf.
Qed.
Lemma clean_render cs : Forall component_ok cs → clean (render cs) = render cs.
Proof. intros Hcs. unfold clean. by rewrite normal_components_render. Qed.
Lemma render_inj cs ds : Forall component_ok cs → Forall component_ok ds → render cs = render ds → cs = ds.
Proof. intros Hc Hd Heq. by rewrite <- (normal_components_render cs), <- (normal_components_render ds), Heq. Qed.

(** ** The tree *)

(** The storage is a tree: the root is a directory, the keys are cleaned paths whose
    parent is a directory, and every file has contents of its own. *)
Record fs_wf (s : MemStorage) : Prop := {
  fw_root : ms_inner s !! [SEPARATOR] = Some NDir;
  fw_keys k n : ms_inner s !! k = Some n → ∃ cs, Forall component_ok cs ∧ k = render cs;
  fw_parent cs c n : Forall component_ok (cs ++ [c]) → ms_inner s !! render (cs ++ [c]) = Some n → ms_inner s !! render cs = Some NDir;
  fw_files k id : ms_inner s !! k = Some (NFile id) → is_Some (ms_files s !! id);
  fw_unshared k k' id : ms_inner s !! k = Some (NFile id) → ms_inner s !! k' = Some (NFile id) → k = k';
}.

(** One call of a modifying operation of the storage, or of a file operation. *)
Inductive fs_step (s : MemStorage) : MemStorage → Prop :=
| step_create name r s' : ms_create name s = (r, s') → fs_step s s'
| step_remove name r s' : ms_remove name s = (r, s') → fs_step s s'
| step_remove_dir dir recursively r s' : ms_remove_dir dir recursively s = (r, s') → clean dir ≠ [SEPARATOR] → fs_step s s'
| step_mkdir_all dir r s' : ms_mkdir_all dir s = (r, s') → fs_step s s'
| step_rename old new id r s' : ms_rename old new s = (r, s') →
    ms_inner s !! clean old = Some (NFile id) → is_ok_to_create s (clean new) = Ok tt → fs_step s s'
| step_file {A} id (op : FileNode → outcome A * FileNode) r s' : on_file id op s = (r, s') → fs_step s s'.

Lemma render_snoc cs c : cs ≠ [] → render (cs ++ [c]) = render cs ++ SEPARATOR :: c.
Proof.
  intros Hne. assert (mjoin ((λ c, SEPARATOR :: c) <$> cs ++ [c]) = mjoin ((λ c, SEPARATOR :: c) <$> cs) ++ SEPARATOR :: c) as Heq.
  { rewrite fmap_app, join_app. simpl. by rewrite app_nil_r. }
  destruct cs; [done|]. exact Heq.
Qed.
Lemma render_root cs : Forall component_ok cs → render cs = [SEPARATOR] → cs = [].
Proof. intros Hcs Heq. by apply (render_inj cs []). Qed.
Lemma starts_with_app a b : starts_with a (a ++ b) = true.
Proof. unfold starts_with. by rewrite take_app_length, bool_decide_eq_true_2. Qed.
Lemma starts_with_spec a s : starts_with a s = true ↔ ∃ b, s = a ++ b.
Proof.
  split; [|intros [b ->]; apply starts_with_app]. intros Ha%bool_decide_eq_true. exists (drop (length a) s). rewrite <- Ha at 1. by rewrite take_drop.
Qed.
Lemma root_starts key : starts_with key [SEPARATOR] = true → key = [SEPARATOR] ∨ key = [].
Proof. intros [b Hb]%starts_with_spec. destruct key as [|x [|y key]]; [by right|left|done]. by injection Hb as <- _. Qed.

(** What lies below a directory other than the root, with its children. *)
Lemma below_child cs c ds : Forall component_ok (cs ++ [c]) → Forall component_ok ds → ds ≠ [] →
  render cs = render ds ∨ below (render ds) (render cs) → below (render ds) (render (cs ++ [c])).
Proof.
  intros [Hcs Hc]%Forall_app Hds Hne Hor. assert (starts_with (render ds) (render cs) = true) as Hsw.
  { destruct Hor as [->|[_ ?]]; [|done]. apply starts_with_spec. exists []. by rewrite app_nil_r. }
  assert (cs ≠ []) as Hcne.
  { intros ->. apply root_starts in Hsw as [Hr|Hr]; [by apply (render_root ds Hds) in Hr|by destruct ds]. }
  rewrite render_snoc by done. apply starts_with_spec in Hsw as [b Hb]. split.
  - intros Heq%(f_equal length). rewrite Hb, !length_app in Heq. simpl in Heq. lia.
  - apply starts_with_spec. exists (b ++ SEPARATOR :: c). by rewrite Hb, app_assoc.
Qed.

Lemma clean_ok p : ∃ cs, Forall component_ok cs ∧ clean p = render cs.
Proof. exists (normal_components p). split; [apply normal_components_ok|done]. Qed.

(** Where a file may be created: below a directory, and not at a directory. *)
Lemma is_ok_to_create_inv s p : is_ok_to_create s (clean p) = Ok tt →
  ∃ cs c, Forall component_ok (cs ++ [c]) ∧ clean p = render (cs ++ [c]) ∧ ms_inner s !! render cs = Some NDir ∧ ms_inner s !! clean p ≠ Some NDir.
Proof.
  unfold is_ok_to_create, parent. pose proof (normal_components_ok p) as Hok. unfold clean at 1. rewrite normal_components_render by done.
  destruct (normal_components p) as [|c0 cs0] eqn:E; [done|]. rewrite <- E in *.
  destruct (exists_last (l := normal_components p)) as (cs & c & Heq); [by rewrite E|]. rewrite Heq, removelast_last.
  intros Hm. exists cs, c. rewrite Heq in Hok. split_and!; [done|unfold clean; by rewrite Heq| |].
  - destruct (ms_inner s !! render cs) as [[]|]; try done.
  - intros Hd. rewrite Hd in Hm. by destruct (is_dir _).
Qed.

(** The tree after the contents of one place change to a file. *)
Lemma fs_wf_put s m files cnt cs c id : fs_wf s → Forall component_ok (cs ++ [c]) → ms_inner s !! render cs = Some NDir →
  ms_inner s !! render (cs ++ [c]) ≠ Some NDir →
  (∀ k n, m !! k = Some n → ms_inner s !! k = Some n) → (∀ k, ms_inner s !! k = Some NDir → m !! k = Some NDir) →
  (∀ k, m !! k ≠ Some (NFile id)) → is_Some (files !! id) → (∀ i, is_Some (ms_files s !! i) → is_Some (files !! i)) →
  fs_wf (with_nodes (with_files s files cnt) (<[render (cs ++ [c]) := NFile id]> m)).
Proof.
  intros [Hroot Hkeys Hpar Hfiles Hun] Hok Hdir Hnd Hsub Hdirs Hid Hf Hfs.
  assert (∀ ds, ms_inner s !! render ds = Some NDir → <[render (cs ++ [c]) := NFile id]> m !! render ds = Some NDir) as Hkeep.
  { intros ds Hds. rewrite lookup_insert_ne; [by apply Hdirs|]. intros Heq. by rewrite Heq in Hnd. }
  split; cbn [ms_inner ms_files with_nodes with_files].
  - exact (Hkeep [] Hroot).
  - intros k n [[<- <-]|[Hne Hk]]%lookup_insert_Some; [by exists (cs ++ [c])|]. by eapply Hkeys, Hsub.
  - intros ds d n Hd [[Heq <-]|[Hne Hk]]%lookup_insert_Some; apply Hkeep; [|by eapply Hpar, Hsub].
    apply render_inj in Heq; [|done|done]. by apply app_inj_tail in Heq as [-> ->].
  - intros k i [[<- [= <-]]|[Hne Hk]]%lookup_insert_Some; [done|]. by eapply Hfs, Hfiles, Hsub.
  - intros k k' i [[<- [= <-]]|[Hne Hk]]%lookup_insert_Some [[<- [=]]|[Hne' Hk']]%lookup_insert_Some; subst; try done; try by destruct (Hid _ Hk).
    + by destruct (Hid _ Hk').
    + eapply Hun; by apply Hsub.
Qed.

(** The tree after some keys are removed that no remaining key needs. *)
Lemma fs_wf_sub s m : fs_wf s → (∀ k n, m !! k = Some n → ms_inner s !! k = Some n) → m !! [SEPARATOR] = Some NDir →
  (∀ cs c n, Forall component_ok (cs ++ [c]) → m !! render (cs ++ [c]) = Some n → is_Some (m !! render cs)) → fs_wf (with_nodes s m).
Proof.
  intros [Hroot Hkeys Hpar Hfiles Hun] Hsub Hr Hp. split; cbn [ms_inner ms_files with_nodes].
  - done.
  - intros k n Hk. by eapply Hkeys, Hsub.
  - intros cs c n Hok Hk. destruct (Hp cs c n Hok Hk) as [x Hx]. rewrite Hx. rewrite <- (Hsub _ _ Hx). by eapply Hpar, Hsub.
  - intros k id Hk. by eapply Hfiles, Hsub.
  - intros k k' id Hk Hk'. by eapply Hun; apply Hsub.
Qed.

Lemma create_wf name s r s' : fs_wf s → ms_create name s = (r, s') → fs_wf s'.
Proof.
  intros Hwf. unfold ms_create. destruct (ms_non_writable s); [by intros [= _ <-]|].
  destruct (is_ok_to_create s (clean name)) as [[]| | |] eqn:E; [|by intros [= _ <-]..].
  destruct (is_ok_to_create_inv s name E) as (cs & c & Hok & Heq & Hdir & Hnd).
  destruct (ms_inner s !! clean name) as [[]|] eqn:Hl; [by intros [= _ <-]..|]. intros [= _ <-]. rewrite Heq in *.
  assert (∀ k, ms_inner s !! k ≠ Some (NFile (fresh (dom (ms_files s))))) as Hfresh.
  { intros k Hk. destruct (fw_files s Hwf _ _ Hk) as [f Hf]. apply elem_of_dom_2 in Hf. by apply is_fresh in Hf. }
  apply fs_wf_put; try done.
  - by rewrite Hl.
  - rewrite lookup_insert_eq. eauto.
  - intros i Hi. rewrite lookup_insert_is_Some. destruct (decide (fresh (dom (ms_files s)) = i)); auto.
Qed.
Lemma remove_wf name s r s' : fs_wf s → ms_remove name s = (r, s') → fs_wf s'.
Proof.
  intros Hwf. unfold ms_remove. destruct (ms_inner s !! clean name) as [[id|]|] eqn:Hl; intros [= _ <-]; try done.
  apply fs_wf_sub; [done| | |].
  - by intros k n [_ ?]%lookup_delete_Some.
  - apply lookup_delete_Some. split; [intros Heq|apply Hwf]. rewrite Heq, (fw_root s Hwf) in Hl. done.
  - intros cs c n Hok [Hne Hk]%lookup_delete_Some. exists NDir. apply lookup_delete_Some. pose proof (fw_parent s Hwf cs c n Hok Hk) as Hp.
    split; [intros Heq|done]. rewrite Heq, Hp in Hl. done.
Qed.
Lemma remove_dir_wf dir recursively s r s' : fs_wf s → clean dir ≠ [SEPARATOR] → ms_remove_dir dir recursively s = (r, s') → fs_wf s'.
Proof.
  intros Hwf Hroot. unfold ms_remove_dir. destruct (clean_ok dir) as (ds & Hds & Heq). rewrite Heq in *.
  assert (ds ≠ []) as Hne by (by intros ->). destruct (ms_inner s !! render ds) as [[id|]|] eqn:Hl; [by intros [= _ <-]| |by intros [= _ <-]].
  destruct recursively; [|destruct (bool_decide _) eqn:Hb; [|by intros [= _ <-]]]; intros [= _ <-].
  - assert (∀ k, k ≠ render ds → ¬ below (render ds) k → filter (λ kv, ¬ (below (render ds) kv.1 ∨ kv.1 = render ds ∧ render ds ≠ [SEPARATOR])) (ms_inner s) !! k = ms_inner s !! k) as Hkeep.
    { intros k H1 H2. destruct (ms_inner s !! k) eqn:E; [apply map_lookup_filter_Some; split; [done|]; simpl; tauto|].
      apply map_lookup_filter_None. by left. }
    apply fs_wf_sub; [done| | |].
    + by intros k n [? _]%map_lookup_filter_Some.
    + rewrite Hkeep; [apply Hwf|done|]. intros [_ [Hr|Hr]%root_starts]; [done|by destruct ds].
    + intros cs c n Hok [Hk Hnb]%map_lookup_filter_Some. exists NDir. simpl in Hnb. pose proof (fw_parent s Hwf cs c n Hok Hk) as Hp. rewrite Hkeep; [done|..].
      * intros Hr. apply Hnb. left. eapply below_child; eauto.
      * intros Hr. apply Hnb. left. eapply below_child; eauto.
  - apply bool_decide_eq_true in Hb. apply fs_wf_sub; [done| | |].
    + by intros k n [_ ?]%lookup_delete_Some.
    + apply lookup_delete_Some. split; [done|apply Hwf].
    + intros cs c n Hok [Hd Hk]%lookup_delete_Some. exists NDir. apply lookup_delete_Some. split; [|by eapply fw_parent].
      intros Hr. apply (Hb _ _ Hk). eapply below_child; eauto.
Qed.
Lemma rename_wf old new id s r s' : fs_wf s → ms_inner s !! clean old = Some (NFile id) → is_ok_to_create s (clean new) = Ok tt →
  ms_rename old new s = (r, s') → fs_wf s'.
Proof.
  intros Hwf Hl Hc. unfold ms_rename. rewrite bool_decide_eq_false_2, Hl by (intros Heq; rewrite Heq, (fw_root s Hwf) in Hl; done).
  intros [= _ <-]. destruct (is_ok_to_create_inv s new Hc) as (cs & c & Hok & Heq & Hdir & Hnd). rewrite Heq in *.
  apply (fs_wf_put s (delete (clean old) (ms_inner s)) (ms_files s) (ms_random_read_counter s) cs c id); try done.
  - by intros k n [_ ?]%lookup_delete_Some.
  - intros k Hk. apply lookup_delete_Some. split; [|done]. intros Ho. rewrite Ho, Hk in Hl. done.
  - intros k [Hne Hk]%lookup_delete_Some. apply Hne. by eapply fw_unshared.
  - by eapply fw_files.
Qed.

Lemma foldl_dirs (l : list bytes) (m : gmap bytes Node) k :
  foldl (λ m c, <[c := NDir]> m) m l !! k = if decide (k ∈ l) then Some NDir else m !! k.
Proof.
  revert m. induction l as [|x l IH]; intros m; simpl; [done|]. rewrite IH. destruct (decide (k ∈ l)) as [H1|H1].
  - by rewrite decide_True by (by right).
  - destruct (decide (k = x)) as [->|Hne]; [rewrite decide_True by (by left); by rewrite lookup_insert_eq|].
    rewrite lookup_insert_ne by done. rewrite decide_False; [done|]. by intros [?|?]%elem_of_cons.
Qed.
Lemma elem_of_ancestors cs k : Forall component_ok cs → k ∈ ancestors (render cs) ↔ ∃ n, k = render (take n cs).
Proof.
  intros Hcs. unfold ancestors. rewrite normal_components_render, list_elem_of_fmap by done. split; [intros (n & -> & _); by exists n|].
  intros [n ->]. exists (n `min` length cs)%nat. rewrite elem_of_reverse, elem_of_seq. split; [|lia].
  destruct (Nat.le_gt_cases n (length cs)); [by rewrite Nat.min_l|]. rewrite Nat.min_r, !take_ge by lia. done.
Qed.
Lemma mkdir_all_wf dir s r s' : fs_wf s → ms_mkdir_all dir s = (r, s') → fs_wf s'.
Proof.
  intros Hwf. unfold ms_mkdir_all. destruct (clean_ok dir) as (ds & Hds & ->). destruct (existsb _ _) eqn:E; [by intros [= _ <-]|]. intros [= _ <-].
  set (m := foldl _ _ _). assert (∀ n, m !! render (take n ds) = Some NDir) as Hnew.
  { intros n. unfold m. rewrite foldl_dirs, decide_True; [done|]. apply elem_of_ancestors; eauto. }
  assert (∀ k, ms_inner s !! k = Some NDir → m !! k = Some NDir) as Hold by (intros k Hk; unfold m; rewrite foldl_dirs; by case_decide).
  assert (∀ k n, m !! k = Some n → (n = NDir ∧ ∃ i, k = render (take i ds)) ∨ ms_inner s !! k = Some n) as Hm.
  { intros k n. unfold m. rewrite foldl_dirs. case_decide as Hin; [|auto]. intros [= <-]. left. split; [done|]. by apply elem_of_ancestors in Hin. }
  split; cbn [ms_inner ms_files with_nodes].
  - by apply Hold, Hwf.
  - intros k n [[_ [i ->]]|Hk]%Hm; [exists (take i ds); split; [by apply Forall_take|done]|by eapply fw_keys].
  - intros cs c n Hok [[_ [i Heq]]|Hk]%Hm; [|by eapply Hold, fw_parent].
    apply render_inj in Heq; [|done|by apply Forall_take]. assert (cs = take (length cs) ds) as ->; [|apply Hnew].
    rewrite <- (take_app_length cs [c]) at 1. rewrite Heq, take_take. f_equal. apply (f_equal length) in Heq. rewrite length_app, length_take in Heq. simpl in Heq. lia.
  - intros k id [[? _]|Hk]%Hm; [done|]. by eapply fw_files.
  - intros k k' id [[? _]|Hk]%Hm [[? _]|Hk']%Hm; try done. by eapply fw_unshared.
Qed.

Lemma default_wf : fs_wf memstorage_default.
Proof.
  split; cbn [ms_inner ms_files memstorage_default].
  - by rewrite lookup_singleton_eq.
  - intros k n [<- _]%lookup_singleton_Some. by exists [].
  - intros cs c n Hok [Heq _]%lookup_singleton_Some. exfalso. symmetry in Heq. apply render_root in Heq; [by destruct cs|done].
  - by intros k id [_ ?]%lookup_singleton_Some.
  - by intros k k' id [_ ?]%lookup_singleton_Some.
Qed.



(** Removing a directory also removes the files of a directory whose name it begins. *)
Example remove_dir_prefix :
  let s0 := (ms_mkdir_all (bytes_of_string "db") memstorage_default).2 in
  let s1 := (ms_mkdir_all (bytes_of_string "db2") s0).2 in
  let s2 := (ms_create (bytes_of_string "db2/CURRENT") s1).2 in
  ms_exists (bytes_of_string "db2/CURRENT") (ms_remove_dir (bytes_of_string "db") true s2).2 = false.
Proof. vm_compute. reflexivity. Qed.

(** ** [update_current] *)

Definition file_contents (s : MemStorage) (p : bytes) : option bytes :=
  match ms_inner s !! clean p with
  | Some (NFile id) => im_data ∘ sf_inner <$> ms_files s !! id
  | _ => None
  end.
(** None of the faults is injected. *)
Definition faultless (s : MemStorage) : Prop :=
  ms_data_sync_error s = false ∧ ms_no_space s = false ∧ ms_non_writable s = false ∧
  ms_manifest_sync_error s = false ∧ ms_manifest_write_error s = false.

Lemma clean_generate dir t seq : 0 ≤ seq → clean (generate_filename dir t seq) = render (normal_components dir ++ [base_name t seq]).
Proof.
  intros Hs. pose proof (base_name_ok t seq Hs) as Hok. unfold clean, normal_components, generate_filename. rewrite path_join_components by done.
  f_equal. rewrite filter_app. f_equal. rewrite filter_cons_True by apply Hok. done.
Qed.

Lemma write_string_ok s p data : fs_wf s → faultless s → is_ok_to_create s (clean p) = Ok tt → ms_inner s !! clean p = None →
  ∃ id f, do_write_string_to_file data p true s =
      (Ok tt, with_nodes (with_files s (<[id := f]> (ms_files s)) (ms_random_read_counter s)) (<[clean p := NFile id]> (ms_inner s))) ∧
    ms_files s !! id = None ∧ im_data (sf_inner f) = data.
Proof.
  intros Hwf (Hds & Hns & Hnw & Hms & Hmw) Hc Hl. set (id := fresh (dom (ms_files s))).
  assert (ms_files s !! id = None) as Hid by (apply not_elem_of_dom, is_fresh).
  exists id, (mkStored (clean p) (ms_count_random_reads s) (mkInmem false data 0)). split_and!; [|done|done].
  set (s1 := with_nodes (with_files s (<[id := mkStored (clean p) (ms_count_random_reads s) inmem_default]> (ms_files s)) (ms_random_read_counter s))
    (<[clean p := NFile id]> (ms_inner s))).
  assert (sto_create p s = (Ok id, s1)) as Hcreate by (cbn [sto_create MemStorage_ops]; unfold ms_create; by rewrite Hnw, Hc, Hl).
  assert (∀ A (op : FileNode → outcome A * FileNode) (x : A) i i', (∀ n, fn_inner n = i → fn_no_space n = false → fn_data_sync_error n = false →
      fn_manifest_sync_error n = false → fn_manifest_write_error n = false → op n = (Ok x, with_inner n i')) →
    ∀ fs, fs !! id = Some (mkStored (clean p) (ms_count_random_reads s) i) → on_file id op (with_files s1 fs (ms_random_read_counter s)) =
      (Ok x, with_files s1 (<[id := mkStored (clean p) (ms_count_random_reads s) i']> fs) (ms_random_read_counter s))) as Hon.
  { intros A op x i i' Hop fs Hfs. unfold on_file. cbn [ms_files with_files]. rewrite Hfs, Hop by done. done. }
  unfold do_write_string_to_file, mbind, st_bind. rewrite Hcreate. cbn [sto_write MemStorage_ops].
  change s1 with (with_files s1 (ms_files s1) (ms_random_read_counter s)).
  erewrite (Hon _ _ (length data) inmem_default (mkInmem false data 0)); [|intros n Hi H1 H2 H3 H4|apply lookup_insert_eq].
  2: { cbn [file_write FileNode_File]. unfold filenode_write. by rewrite H1, H4, andb_false_r, Hi. }
  cbn [sto_flush MemStorage_ops]. erewrite (Hon _ _ tt (mkInmem false data 0) (mkInmem false data 0)); [|intros n Hi H1 H2 H3 H4|apply lookup_insert_eq].
  2: { cbn [file_flush FileNode_File]. unfold filenode_flush. rewrite H2, H3. replace (with_inner n _) with n by (destruct n; cbn in *; by subst). by destruct (is_manifest n). }
  unfold on_result. cbn [sto_close MemStorage_ops]. erewrite (Hon _ _ tt (mkInmem false data 0) (mkInmem false data 0)); [|intros n Hi H1 H2 H3 H4|apply lookup_insert_eq].
  2: { cbn [file_close FileNode_File]. unfold on_inner, inmem_close. by rewrite Hi. }
  unfold mret, st_ret. cbn [ms_files s1 with_nodes with_files]. rewrite !insert_insert_eq. done.
Qed.


(** A storage with the directory [db]. *)
Definition demo_fs : MemStorage := (ms_mkdir_all (bytes_of_string "db") memstorage_default).2.
Lemma demo_fs_wf : fs_wf demo_fs.
Proof.
  apply (mkdir_all_wf (bytes_of_string "db") memstorage_default (ms_mkdir_all (bytes_of_string "db") memstorage_default).1); [apply default_wf|apply surjective_pairing].
Qed.

(** With a separator at the end of the directory the first letter of the name is lost. *)
Example update_current_separator :
  file_contents (update_current (bytes_of_string "db/") 7 demo_fs).2 (bytes_of_string "db/CURRENT") = Some (bytes_of_string "ANIFEST-000007").
Proof. vm_compute. reflexivity. Qed.
(** [create] does not truncate: a left-over temporary file stays in front of the name. *)
Example update_current_leftover :
  let s := (do_write_string_to_file (bytes_of_string "MANI") (bytes_of_string "db/000007.dbtmp") true demo_fs).2 in
  file_contents (update_current (bytes_of_string "db") 7 s).2 (bytes_of_string "db/CURRENT") = Some (bytes_of_string "MANIMANIFEST-000007").
Proof. vm_compute. reflexivity. Qed.
