(* ===== verification/Db.v ===== *)
(** * The database: [src/db/mod.rs]

    The state behind [DBImpl] and the operations that change it between two writes:
    [get], [make_room_for_write] with the rotation of the memtable, [compact_mem_table],
    [delete_obsolete_files], [maybe_schedule_compaction] and one round of
    [process_batch].  Tables are read and written through the interfaces [TableSink] and
    [TableSource]; [db_tables] are the table files of the database directory by number. *)
From stdpp Require Import gmap sorting.
From S2P Require Import Prelude Coding Varint Comparator Format Storage Record Iterator SkipList SkipListFacts MemTable Batch VersionEdit Version LevelIter VersionGet VersionBuild KMerge DbIter Compaction Flush DbWrite Recovery Manifest Filename.
Open Scope Z_scope.

(** Looking a key up in an open table. *)
Class TableSource (B : Type) : Type := { source_get : B → bytes → outcome (option entry) }.

(** [ManualCompaction]; [mc_done] is the channel of the caller. *)
Record ManualCompaction : Type := mkManual {
  mc_level : nat;
  mc_done : nat;
  mc_begin : option InternalKey;
  mc_end : option InternalKey;
}.

(** [DBImpl]; [db_record_writer] and [db_pending_outputs] are fields of its version set,
    [db_file_to_compact] of the current version. *)
Record DB (F B : Type) : Type := mkDB {
  db_mem : SkipList;
  db_im_mem : option SkipList;
  db_versions : VersionSet F;
  db_record_writer : option (Writer F);
  db_pending_outputs : gset Z;
  db_file_to_compact : option SeekStats;
  db_bg_error : option error;
  db_is_shutting_down : bool;
  db_compaction_scheduled : bool;
  db_manual_queue : list ManualCompaction;
  db_tables : gmap Z B;
}.
Arguments mkDB {F B}. Arguments db_mem {F B}. Arguments db_im_mem {F B}. Arguments db_versions {F B}. Arguments db_record_writer {F B}.
Arguments db_pending_outputs {F B}. Arguments db_file_to_compact {F B}. Arguments db_bg_error {F B}. Arguments db_is_shutting_down {F B}.
Arguments db_compaction_scheduled {F B}. Arguments db_manual_queue {F B}. Arguments db_tables {F B}.

(** The options the operations read. *)
Record DbOptions : Type := mkOptions {
  o_write_buffer_size : Z;
  o_max_levels : nat;
  o_max_mem_compact_level : nat;
  o_max_file_size : Z;
  o_l0_slowdown_writes_threshold : nat;
  o_l0_stop_writes_threshold : nat;
}.

(** What [make_room_for_write] does in one turn of its loop. *)
Inductive room_action : Type := RoomError (e : error) | RoomDelay | RoomReady | RoomWait | RoomSwitch.

Section Operations.
Context `{CRC : Crc32} `{FO : File F} {B : Type} {TS : TableSink B} {TG : TableSource B}.
Context (ck : bool) (node_base : Z) (ucmp : Comparator) (o : DbOptions).
(** The iteration order of the hash set of deleted files. *)
Context (set_iter : gset (Z * Z) → list (Z * Z)).
(** The storage: creating logs and manifests by number, removing them, and CURRENT. *)
Context (create_log create_manifest : Z → outcome F) (remove_manifest : option Z → outcome unit) (update_current : Z → outcome unit).
Context (remove_table : Z → outcome unit) (remove_file : bytes → outcome unit).
(** [compaction_score > 1.0] of a version with these files. *)
Context (score_high : list (list FileMetaData) → bool).
Notation DB := (DB F B).

Definition with_mem (d : DB) (mem : SkipList) (im_mem : option SkipList) : DB :=
  mkDB mem im_mem (db_versions d) (db_record_writer d) (db_pending_outputs d) (db_file_to_compact d) (db_bg_error d) (db_is_shutting_down d)
    (db_compaction_scheduled d) (db_manual_queue d) (db_tables d).
Definition with_versions (d : DB) (v : VersionSet F) : DB :=
  mkDB (db_mem d) (db_im_mem d) v (db_record_writer d) (db_pending_outputs d) (db_file_to_compact d) (db_bg_error d) (db_is_shutting_down d)
    (db_compaction_scheduled d) (db_manual_queue d) (db_tables d).
Definition with_log (d : DB) (w : option (Writer F)) : DB :=
  mkDB (db_mem d) (db_im_mem d) (db_versions d) w (db_pending_outputs d) (db_file_to_compact d) (db_bg_error d) (db_is_shutting_down d)
    (db_compaction_scheduled d) (db_manual_queue d) (db_tables d).
Definition with_pending (d : DB) (p : gset Z) : DB :=
  mkDB (db_mem d) (db_im_mem d) (db_versions d) (db_record_writer d) p (db_file_to_compact d) (db_bg_error d) (db_is_shutting_down d)
    (db_compaction_scheduled d) (db_manual_queue d) (db_tables d).
Definition with_stats (d : DB) (s : option SeekStats) : DB :=
  mkDB (db_mem d) (db_im_mem d) (db_versions d) (db_record_writer d) (db_pending_outputs d) s (db_bg_error d) (db_is_shutting_down d)
    (db_compaction_scheduled d) (db_manual_queue d) (db_tables d).
Definition with_error (d : DB) (e : option error) : DB :=
  mkDB (db_mem d) (db_im_mem d) (db_versions d) (db_record_writer d) (db_pending_outputs d) (db_file_to_compact d) e (db_is_shutting_down d)
    (db_compaction_scheduled d) (db_manual_queue d) (db_tables d).
Definition with_scheduled (d : DB) (b : bool) : DB :=
  mkDB (db_mem d) (db_im_mem d) (db_versions d) (db_record_writer d) (db_pending_outputs d) (db_file_to_compact d) (db_bg_error d) (db_is_shutting_down d)
    b (db_manual_queue d) (db_tables d).
Definition with_tables (d : DB) (ts : gmap Z B) : DB :=
  mkDB (db_mem d) (db_im_mem d) (db_versions d) (db_record_writer d) (db_pending_outputs d) (db_file_to_compact d) (db_bg_error d) (db_is_shutting_down d)
    (db_compaction_scheduled d) (db_manual_queue d) ts.
Definition with_current (v : VersionSet F) (files : list (list FileMetaData)) : VersionSet F :=
  mkVset (v_next_file_number v) (v_last_sequence v) (v_log_number v) (v_prev_log_number v) (v_manifest_file_number v) (v_manifest_writer v)
    (v_vnum v) files (v_compaction_pointer v).

(** ** Scheduling a compaction *)

Definition needs_compaction (d : DB) : bool :=
  score_high (v_current (db_versions d)) || bool_decide (is_Some (db_file_to_compact d)).

Definition maybe_schedule_compaction (d : DB) : bool * DB :=
  if db_compaction_scheduled d || db_is_shutting_down d || bool_decide (is_Some (db_bg_error d))
     || (bool_decide (db_im_mem d = None) && match db_manual_queue d with [] => true | _ => false end && negb (needs_compaction d))
  then (false, d)
  else (true, with_scheduled d true).

(** [Version::update_stats]; the files of the current version share their counter of
    allowed seeks. *)
Definition use_seek (number : Z) (f : FileMetaData) : FileMetaData :=
  if fm_number f =? number
  then mkMeta (if 0 <? fm_allowed_seeks f then fm_allowed_seeks f - 1 else 0) (fm_file_size f) (fm_number f) (fm_smallest f) (fm_largest f)
  else f.
Definition update_stats (d : DB) (stats : option SeekStats) : bool * DB :=
  match stats with
  | None => (false, d)
  | Some ss =>
    let d' := with_versions d (with_current (db_versions d) (fmap (M := list) (use_seek (fm_number (ss_file ss))) <$> v_current (db_versions d))) in
    if bool_decide (db_file_to_compact d = None) && (fm_allowed_seeks (ss_file ss) =? 1) then (true, with_stats d' (Some ss)) else (false, d')
  end.

(** ** [get] *)

(** The table cache finds a table by its number. *)
Definition table_lookup (tables : gmap Z B) : TableLookup := {|
  tc_get := λ key number size, match tables !! number with Some b => source_get b key | None => Err (IO KNotFound) end
|}.

(** A lookup in a memtable: [None] when it does not decide the answer. *)
Definition memtable_get (mem : SkipList) (key : LookupKey) : outcome (option (option bytes)) :=
  r ← mem_get ucmp mem key;
  Ok (match r with Some (Ok value) => Some (Some value) | Some _ => Some None | None => None end).

Definition db_get (snapshot : option Z) (key : bytes) (d : DB) : outcome (option bytes) * DB :=
  if db_is_shutting_down d then (Err (DBClosed "get request"), d)
  else
    match
      (lookup_key ← lookup_key_new key (default (v_last_sequence (db_versions d)) snapshot);
       m ← memtable_get (db_mem d) lookup_key;
       match m with
       | Some answer => Ok (answer, None)
       | None =>
         i ← match db_im_mem d with Some im_mem => memtable_get im_mem lookup_key | None => Ok None end;
         match i with
         | Some answer => Ok (answer, None)
         | None => @version_get (table_lookup (db_tables d)) ucmp (v_current (db_versions d)) lookup_key
         end
       end)
    with
    | Ok (answer, seek_stats) =>
      let '(found, d) := update_stats d seek_stats in
      (Ok answer, if (found : bool) then (maybe_schedule_compaction d).2 else d)
    | Err e => (Err e, d)
    | Panic => (Panic, d)
    | OutOfFuel => (OutOfFuel, d)
    end.

(** ** Making room for a write *)

Definition level0_count (d : DB) : outcome nat := fs ← index (v_current (db_versions d)) 0; Ok (length fs).

(** The branch a turn of the loop takes. *)
Definition room_decide (force allow_delay : bool) (d : DB) : outcome room_action :=
  match db_bg_error d with
  | Some e => Ok (RoomError e)
  | None =>
    n ← level0_count d;
    if allow_delay && (o_l0_slowdown_writes_threshold o <=? n)%nat then Ok RoomDelay
    else
      usage ← approximate_memory_usage ck (db_mem d);
      if negb force && (usage <=? o_write_buffer_size o) then Ok RoomReady
      else if bool_decide (is_Some (db_im_mem d)) then Ok RoomWait
      else if (o_l0_stop_writes_threshold o <=? n)%nat then Ok RoomWait
      else Ok RoomSwitch
  end.

(** The last branch: a new log and, unless it is empty, a new memtable. *)
Definition switch_memtable (d : DB) : outcome DB :=
  let v := db_versions d in
  let new_log_num := v_next_file_number v in
  log_file ← create_log new_log_num;
  next ← uadd ck 64 new_log_num 1;
  let v := mkVset next (v_last_sequence v) new_log_num (v_prev_log_number v) (v_manifest_file_number v) (v_manifest_writer v)
             (v_vnum v) (v_current v) (v_compaction_pointer v) in
  w ← writer_new log_file;
  let d := with_log (with_versions d v) (Some w) in
  n ← mem_len (db_mem d);
  d ← (if (0 <? n)%nat then mem ← mem_new ck node_base (o_write_buffer_size o); Ok (with_mem d mem (Some (db_mem d))) else Ok d);
  Ok (maybe_schedule_compaction d).2.

(** The loop.  [background] tells what the other threads do to the database each time
    the writer waits for them; when it is used up the writer is still waiting. *)
Fixpoint make_room_loop (fuel : nat) (background : list (DB → DB)) (force allow_delay : bool) (d : DB) : outcome unit * DB :=
  match fuel with
  | O => (OutOfFuel, d)
  | S fuel =>
    match room_decide force allow_delay d with
    | Ok (RoomError e) => (Err e, with_error d None)
    | Ok RoomDelay => make_room_loop fuel background force false d
    | Ok RoomReady => (Ok tt, d)
    | Ok RoomWait =>
      match background with
      | [] => (OutOfFuel, d)
      | step :: background => make_room_loop fuel background force allow_delay (step d)
      end
    | Ok RoomSwitch =>
      match switch_memtable d with
      | Ok d => make_room_loop fuel background false allow_delay d
      | Err e => (Err e, d)
      | Panic => (Panic, d)
      | OutOfFuel => (OutOfFuel, d)
      end
    | Err e => (Err e, d)
    | Panic => (Panic, d)
    | OutOfFuel => (OutOfFuel, d)
    end
  end.
Definition make_room_for_write (fuel : nat) (background : list (DB → DB)) (force : bool) (d : DB) : outcome unit * DB :=
  make_room_loop fuel background force (negb force) d.

(** ** Deleting files *)

(** [lock_live_files]: the numbers of all files of the versions in use. *)
Definition live_numbers (versions : list (list (list FileMetaData))) : gset Z :=
  list_to_set (fm_number <$> mjoin (mjoin versions)).

Definition keep_file (v : VersionSet F) (pending : gset Z) (t : FileType) (number : Z) : bool :=
  match t with
  | FLog => (v_log_number v <=? number) || (number =? v_prev_log_number v)
  | FManifest => v_manifest_file_number v <=? number
  | FTable | FTemp => bool_decide (number ∈ pending)
  | _ => true
  end.
(** One file of the directory; an error of [remove] is ignored. *)
Definition delete_one (v : VersionSet F) (pending : gset Z) (tables : gmap Z B) (file : bytes) : gmap Z B :=
  match parse_filename file with
  | Some (t, number) =>
    if keep_file v pending t number then tables
    else match remove_file file with
         | Ok _ => if bool_decide (t = FTable) then delete number tables else tables
         | _ => tables
         end
  | None => tables
  end.
(** [listing] is what [Storage::list] returns for the directory, [old] the older versions
    that readers still hold. *)
Definition delete_obsolete_files (listing : outcome (list bytes)) (old : list (list (list FileMetaData))) (d : DB) : outcome unit * DB :=
  let pending := db_pending_outputs d ∪ live_numbers (v_current (db_versions d) :: old) in
  match listing with
  | Ok files => (Ok tt, with_pending (with_tables d (foldl (delete_one (db_versions d) pending) (db_tables d) files)) ∅)
  | Err e => (Err e, with_pending d pending)
  | Panic => (Panic, d)
  | OutOfFuel => (OutOfFuel, d)
  end.

(** ** Flushing the immutable memtable *)

Definition log_and_apply' : VersionSet F → VersionEdit → outcome unit * VersionSet F :=
  log_and_apply ck ucmp (o_max_levels o) set_iter create_manifest remove_manifest update_current.

(** [write_level0_files] on the database: the table it writes gets the next number. *)
Definition flush_memtable (im_mem : SkipList) (d : DB) : outcome VersionEdit * DB :=
  let v := db_versions d in
  match mem_len im_mem with
  | Ok n =>
    let '(r, s) := write_level0_files (IT := MemTableIterator_Iterator ucmp) ck ucmp remove_table (o_max_mem_compact_level o) (o_max_file_size o)
                     n (v_current v) (o_max_levels o) (mi_new im_mem) true (mkFlush (v_next_file_number v) (ve_new (Z.of_nat (o_max_levels o))) []) in
    let tables := foldl (λ ts b, <[v_next_file_number v := b]> ts) (db_tables d) (fl_tables s) in
    let d := with_tables (with_versions d (with_counters v (fl_next s) (v_last_sequence v))) tables in
    (match r with Ok _ => Ok (fl_edit s) | Err e => Err e | Panic => Panic | OutOfFuel => OutOfFuel end, d)
  | Err e => (Err e, d)
  | Panic => (Panic, d)
  | OutOfFuel => (OutOfFuel, d)
  end.

Definition compact_mem_table (listing : outcome (list bytes)) (old : list (list (list FileMetaData))) (d : DB) : outcome unit * DB :=
  match db_im_mem d with
  | None => (Panic, d)
  | Some im_mem =>
    match flush_memtable im_mem d with
    | (Ok edit, d) =>
      if db_is_shutting_down d then (Err (DBClosed "when compacting memory table"), d)
      else
        let edit := set_log_number (v_log_number (db_versions d)) (set_prev_log_number 0 edit) in
        let '(res, v) := log_and_apply' (db_versions d) edit in
        let new_version := bool_decide (v_vnum v ≠ v_vnum (db_versions d)) in
        let d := with_mem (with_versions d v) (db_mem d) None in
        let d := if new_version then with_stats d None else d in
        match delete_obsolete_files listing old d with
        | (Ok _, d) => (res, d)
        | r => r
        end
    | (Err e, d) => (Err e, d)
    | (Panic, d) => (Panic, d)
    | (OutOfFuel, d) => (OutOfFuel, d)
    end
  end.

(** ** A round of [process_batch] *)

Context (error_text : error → string).

Definition write_state (d : DB) : WriteState F :=
  mkWriteState (db_mem d) (db_record_writer d) (v_last_sequence (db_versions d)) (db_bg_error d).
Definition with_write_state (d : DB) (s : WriteState F) : DB :=
  with_error (with_log (with_mem (with_versions d (with_counters (db_versions d) (v_next_file_number (db_versions d)) (ws_last_sequence s)))
    (ws_mem s) (db_im_mem d)) (ws_writer s)) (ws_bg_error s).

(** How a round ends: the thread goes on or stops. *)
Inductive round_end : Type := RoundNext | RoundStop | RoundIdle.

(** The answers sent, whether the thread goes on, the queue left and the database. *)
Definition process_round (fuel : nat) (background : list (DB → DB)) (heights : list nat) (queue : list BatchTask) (d : DB)
    : outcome (list (nat * outcome unit) * round_end * list BatchTask * DB) :=
  if db_is_shutting_down d then
    let closed := Err (DBClosed "DB is closing. Clean up all the batch in queue") in
    Ok ((λ t, (bt_signal t, closed)) <$> queue, RoundStop, [], d)
  else
    match queue with
    | [] => Ok ([], RoundIdle, [], d)
    | first :: queue =>
      if bt_stop_process first then Ok ([], RoundStop, queue, d)
      else
        match make_room_for_write fuel background (bt_force_mem_compaction first) d with
        | (Ok _, d) =>
          r ← group_batches ck first queue;
          let '(grouped, signals, queue) := r in
          r ← commit_group ck node_base ucmp heights grouped signals (write_state d);
          Ok (r.1, RoundNext, queue, with_write_state d r.2)
        | (Err e, d) =>
          Ok ([(bt_signal first, Err (Customized ("[process batch] Error making room for write requests: " +:+ error_text e)))], RoundNext, queue, d)
        | (Panic, _) => Panic
        | (OutOfFuel, _) => OutOfFuel
        end
    end.

(** [schedule_batch_and_wait] up to the wait: the task for the queue, or the answer. *)
Definition schedule_batch (sync : bool) (batch : WriteBatch) (force_mem_compaction : bool) (signal : nat) (d : DB)
    : outcome (outcome unit + BatchTask) :=
  if db_is_shutting_down d then Ok (inl (Err (DBClosed "schedule WriteBatch")))
  else
    empty ← wb_is_empty batch;
    if (empty : bool) && negb force_mem_compaction then Ok (inl (Ok tt))
    else Ok (inr (mkTask false force_mem_compaction batch signal sync)).
(** [WickDB::put], [WickDB::delete] and [schedule_close_batch]. *)
Definition put_batch (key value : bytes) : outcome WriteBatch := wb_put ck wb_default key value.
Definition delete_batch (key : bytes) : outcome WriteBatch := wb_delete ck wb_default key.
Definition close_task (signal : nat) : BatchTask := mkTask true false wb_default signal false.
End Operations.
