(* ===== verification/Scan.v ===== *)
(** * The iterators of a whole database

    Children of two kinds behind one interface, the merged iterator over the tables of a
    version ([SSTableIters] and [current_sst_iter] of [src/version/version_set.rs]), the
    input of a compaction ([new_input_iterator] of [src/compaction.rs]), and the
    iterators of the database ([internal_iter] and [iter] of [src/db/mod.rs]). *)
From stdpp Require Import gmap sorting.
From S2P Require Import Prelude Comparator Format Iterator Concat SkipList MemTable VersionEdit Version LevelIter KMerge DbIter Compaction Recovery Manifest Db.
Open Scope Z_scope.

(** ** [&dyn Iterator] over two kinds of children *)
Section Sum.
Context {A B : Type} (IA : Iterator A) (IB : Iterator B).

Definition sum_step (fa : A → outcome A) (fb : B → outcome B) (x : A + B) : outcome (A + B) :=
  match x with inl a => a ← fa a; Ok (inl a) | inr b => b ← fb b; Ok (inr b) end.
Definition sum_Iterator : Iterator (A + B) := {|
  it_valid x := match x with inl a => it_valid a | inr b => it_valid b end;
  it_seek_to_first := sum_step it_seek_to_first it_seek_to_first;
  it_seek_to_last := sum_step it_seek_to_last it_seek_to_last;
  it_seek x t := sum_step (λ a, it_seek a t) (λ b, it_seek b t) x;
  it_next := sum_step it_next it_next;
  it_prev := sum_step it_prev it_prev;
  it_key x := match x with inl a => it_key a | inr b => it_key b end;
  it_value x := match x with inl a => it_value a | inr b => it_value b end;
  it_status x := match x with
    | inl a => let '(r, a) := it_status a in (r, inl a)
    | inr b => let '(r, b) := it_status b in (r, inr b)
    end;
|}.

Context (ord : bytes → bytes → comparison) (key_ok : bytes → Prop).
Context (repA : A → list entry → option nat → Prop) (repB : B → list entry → option nat → Prop).
Definition sum_rep (x : A + B) (l : list entry) (p : option nat) : Prop :=
  match x with inl a => repA a l p | inr b => repB b l p end.

Lemma sum_step_ok fa fb (x : A + B) l (p q : option nat) : sum_rep x l p →
  (∀ a, repA a l p → ∃ a', fa a = Ok a' ∧ repA a' l q) → (∀ b, repB b l p → ∃ b', fb b = Ok b' ∧ repB b' l q) →
  ∃ x', sum_step fa fb x = Ok x' ∧ sum_rep x' l q.
Proof.
  destruct x as [a|b]; simpl; intros Hx Ha Hb.
  - destruct (Ha a Hx) as (a' & -> & ?). by exists (inl a').
  - destruct (Hb b Hx) as (b' & -> & ?). by exists (inr b').
Qed.
Lemma sum_fwd : @FwdLaws _ IA ord key_ok repA → @FwdLaws _ IB ord key_ok repB → @FwdLaws _ sum_Iterator ord key_ok sum_rep.
Proof.
  intros FA FB. split; simpl.
  - intros [a|b] l i; simpl; [apply (rep_lt (IT := IA) ord key_ok)|apply (rep_lt (IT := IB) ord key_ok)].
  - intros [a|b] l p; simpl; [apply (rep_valid (IT := IA) ord key_ok)|apply (rep_valid (IT := IB) ord key_ok)].
  - intros x l p Hx. eapply sum_step_ok; [exact Hx|intros ?; apply (rep_seek_to_first (IT := IA) ord key_ok)|intros ?; apply (rep_seek_to_first (IT := IB) ord key_ok)].
  - intros x l p t Hx Ht. eapply sum_step_ok; [exact Hx|intros ? ?; by eapply (rep_seek (IT := IA) ord key_ok)|intros ? ?; by eapply (rep_seek (IT := IB) ord key_ok)].
  - intros x l i Hx. eapply sum_step_ok; [exact Hx|intros ?; apply (rep_next (IT := IA) ord key_ok)|intros ?; apply (rep_next (IT := IB) ord key_ok)].
  - intros [a|b] l i e; simpl; [apply (rep_key (IT := IA) ord key_ok)|apply (rep_key (IT := IB) ord key_ok)].
  - intros [a|b] l i e; simpl; [apply (rep_value (IT := IA) ord key_ok)|apply (rep_value (IT := IB) ord key_ok)].
  - intros [a|b] l p Hx; simpl in *.
    + destruct (rep_status (IT := IA) ord key_ok _ _ _ Hx) as (x' & -> & ?). by exists (inl x').
    + destruct (rep_status (IT := IB) ord key_ok _ _ _ Hx) as (x' & -> & ?). by exists (inr x').
Qed.
End Sum.

(** Laws for fewer targets. *)
Lemma fwd_weaken {I} (IT : Iterator I) ord (ok ok' : bytes → Prop) rep : (∀ k, ok' k → ok k) → @FwdLaws I IT ord ok rep → @FwdLaws I IT ord ok' rep.
Proof. intros Hok []. split; eauto. Qed.
Lemma comparator_weaken C (ok ok' : bytes → Prop) ord : (∀ k, ok' k → ok k) → ComparatorOrder C ok ord → ComparatorOrder C ok' ord.
Proof. intros Hok []. split; eauto. Qed.

(** ** The tables of a version *)

(** An iterator over an open table. *)
Class TableScan (B TI : Type) : Type := { table_scan : B → TI }.

Section Tables.
Context {B TI : Type} {TN : TableScan B TI} {IT : Iterator TI} (ucmp : Comparator).
Notation level_iter := (ConcatenateIterator LevelFileNumIterator TI).

(** [table_cache.new_iter] on the tables of a directory. *)
Definition table_source (tables : gmap Z B) : LevelIter.TableSource TI := {|
  new_iter := λ number size, match tables !! number with Some b => Ok (table_scan b) | None => Err (IO KNotFound) end
|}.

(** [SSTableIters]: the tables of level 0, then an iterator for every other level. *)
Definition SSTableIters : Type := KMergeCore (TI + level_iter).
Definition sst_iters_new (level0 : list TI) (leveln : list level_iter) : SSTableIters := mkCore (inl <$> level0) (inr <$> leveln).
Definition sst_child (fuel : nat) (tables : gmap Z B) : Iterator (TI + level_iter) :=
  sum_Iterator IT (LevelIterator IT (table_source tables) ucmp fuel).
Definition SSTableIters_Iterator (fuel : nat) (tables : gmap Z B) : Iterator (KMergeIter (TI + level_iter)) :=
  @KMergeIter_Iterator _ (sst_child fuel tables) (InternalKeyComparator ucmp).

Definition open_tables (tables : gmap Z B) (files : list FileMetaData) : outcome (list TI) :=
  mapM (λ f, @new_iter _ (table_source tables) (fm_number f) (fm_file_size f)) files.

Definition current_sst_iter (tables : gmap Z B) (files : list (list FileMetaData)) : outcome (KMergeIter (TI + level_iter)) :=
  files0 ← index files 0;
  level0 ← open_tables tables files0;
  let leveln := level_iterator <$> filter (λ fs, fs ≠ []) (drop 1 files) in
  Ok (km_new (sst_iters_new level0 leveln)).

(** [Compaction::new_input_iterator] *)
Definition new_input_iterator (c : Compaction B) (tables : gmap Z B) : outcome (KMergeIter (TI + level_iter)) :=
  let base := ci_base (cp_inputs c) in
  let parent := ci_parent (cp_inputs c) in
  let upper := match parent with [] => [] | _ => [level_iterator parent] end in
  match cp_level c with
  | O => level0 ← open_tables tables base; Ok (km_new (sst_iters_new level0 upper))
  | S _ => Ok (km_new (sst_iters_new [] (level_iterator base :: upper)))
  end.
End Tables.

(** ** The database *)
Section Database.
Context {F B TI : Type} {TN : TableScan B TI} {IT : Iterator TI} (ucmp : Comparator).
Notation level_iter := (ConcatenateIterator LevelFileNumIterator TI).
Notation inner_iter := (MemTableIterator + KMergeIter (TI + level_iter))%type.

(** [internal_iter]: the memtables, then all the tables. *)
Definition internal_iter (d : DB F B) : outcome (KMergeIter inner_iter) :=
  let mem_iters := mi_new (db_mem d) :: match db_im_mem d with Some im_mem => [mi_new im_mem] | None => [] end in
  sst_iter ← current_sst_iter (db_tables d) (v_current (db_versions d));
  Ok (km_new (mkCore (inl <$> mem_iters) [inr sst_iter])).
Definition InternalIterator (fuel : nat) (d : DB F B) : Iterator (KMergeIter inner_iter) :=
  @KMergeIter_Iterator _ (sum_Iterator (MemTableIterator_Iterator ucmp) (SSTableIters_Iterator ucmp fuel (db_tables d)))
    (InternalKeyComparator ucmp).

(** [iter]: at the sequence number of the snapshot, or of the last write. *)
Definition db_iter (snapshot : option Z) (d : DB F B) : outcome (DBIterator (KMergeIter inner_iter)) :=
  internal ← internal_iter d;
  Ok (di_new internal (default (v_last_sequence (db_versions d)) snapshot)).
End Database.
