(* ===== verification/Sampling.v ===== *)
(** * Read samples and approximate sizes

    [Version::for_each_overlapping], [record_read_sample] and [approximate_offset_of] of
    [src/version/mod.rs], and the functions of [src/db/mod.rs] that call them. *)
From stdpp Require Import gmap sorting.
From S2P Require Import Prelude Coding Comparator Format Storage Iterator VersionEdit Version VersionGet Recovery Manifest Db.
Open Scope Z_scope.

Section Sampling.
Context (ucmp : Comparator).

(** ** Visiting the files that overlap a key, the newest first *)
Section Visit.
Context {S : Type} (func : nat → FileMetaData → S → bool * S).

(** Calling [func] on files until it answers [false]; the answer says whether to go on. *)
Fixpoint visit (level : nat) (files : list FileMetaData) (s : S) : bool * S :=
  match files with
  | [] => (true, s)
  | f :: files => let '(go_on, s) := func level f s in if go_on then visit level files s else (false, s)
  end.

(** Level 0: the files whose range of user keys holds the key. *)
Fixpoint level0_targets (user_key : bytes) (files : list FileMetaData) : outcome (list FileMetaData) :=
  match files with
  | [] => Ok []
  | f :: files =>
    s ← ikey_user_key (fm_smallest f);
    c ← @compare ucmp user_key s;
    hit ← (if bool_decide (c ≠ Lt) then l ← ikey_user_key (fm_largest f); c ← @compare ucmp user_key l; Ok (bool_decide (c ≠ Gt)) else Ok false);
    rest ← level0_targets user_key files;
    Ok (if (hit : bool) then f :: rest else rest)
  end.
Definition by_number (a b : FileMetaData) : Prop := fm_number b ≤ fm_number a.
#[local] Instance by_number_dec a b : Decision (by_number a b).
Proof. unfold by_number. apply _. Defined.

(** Another level: the user key is compared with the whole smallest key of the file. *)
Definition visit_level (level : nat) (files : list FileMetaData) (user_key internal_key : bytes) (s : S) : outcome (bool * S) :=
  match level with
  | O => targets ← level0_targets user_key files; Ok (visit 0 (merge_sort by_number targets) s)
  | _ =>
    match files with
    | [] => Ok (true, s)
    | _ =>
      i ← find_file ucmp files internal_key;
      match files !! i with
      | None => Ok (true, s)
      | Some target =>
        c ← @compare ucmp user_key (ik_data (fm_smallest target));
        Ok (if bool_decide (c ≠ Lt) then func level target s else (true, s))
      end
    end
  end.
Fixpoint for_each_overlapping (level : nat) (levels : list (list FileMetaData)) (user_key internal_key : bytes) (s : S) : outcome S :=
  match levels with
  | [] => Ok s
  | files :: levels =>
    r ← visit_level level files user_key internal_key s;
    if (r.1 : bool) then for_each_overlapping (Datatypes.S level) levels user_key internal_key r.2 else Ok r.2
  end.
End Visit.

(** ** [record_read_sample] *)

(** The closure: counts the matches, remembers the first one, stops at the second. *)
Definition sample (level : nat) (file : FileMetaData) (s : nat * option SeekStats) : bool * (nat * option SeekStats) :=
  let matches := (s.1 + 1)%nat in
  ((matches <? 2)%nat, (matches, if (matches =? 1)%nat then Some (mkStats file level) else s.2)).

(** What [update_stats] is called with, if at all. *)
Definition sampled (levels : list (list FileMetaData)) (internal_key : bytes) : outcome (option SeekStats) :=
  match decode_from internal_key with
  | None => Ok None
  | Some pkey =>
    s ← for_each_overlapping sample 0 levels (pk_user_key pkey) internal_key (0%nat, None);
    Ok (if (2 <=? s.1)%nat then s.2 else None)
  end.
End Sampling.

Section Database.
Context {F B : Type} (ucmp : Comparator) (score_high : list (list FileMetaData) → bool).
Notation DB := (DB F B).

Definition record_read_sample (internal_key : bytes) (d : DB) : outcome DB :=
  stats ← sampled ucmp (v_current (db_versions d)) internal_key;
  let '(compact, d) := update_stats d stats in
  Ok (if (compact : bool) then (maybe_schedule_compaction score_high d).2 else d).

(** ** [approximate_offset_of] and [get_approximate_size] *)

(** [table_offset]: the offset of a key in a table, [None] when the table does not open. *)
Context (ck : bool) (table_offset : Z → Z → bytes → outcome (option Z)).
Notation icompare := (@compare (InternalKeyComparator ucmp)).

Fixpoint level_offset (level : nat) (files : list FileMetaData) (ikey : bytes) (result : Z) : outcome Z :=
  match files with
  | [] => Ok result
  | f :: files =>
    c ← icompare (ik_data (fm_largest f)) ikey;
    match c with
    | Gt =>
      c ← icompare (ik_data (fm_smallest f)) ikey;
      match c with
      | Gt => match level with O => level_offset level files ikey result | _ => Ok result end
      | _ =>
        t ← table_offset (fm_number f) (fm_file_size f) ikey;
        result ← (match t with Some x => uadd ck 64 result x | None => Ok result end);
        level_offset level files ikey result
      end
    | _ => result ← uadd ck 64 result (fm_file_size f); level_offset level files ikey result
    end
  end.
Fixpoint levels_offset (level : nat) (levels : list (list FileMetaData)) (ikey : bytes) (result : Z) : outcome Z :=
  match levels with
  | [] => Ok result
  | files :: levels => result ← level_offset level files ikey result; levels_offset (S level) levels ikey result
  end.
Definition version_offset_of (levels : list (list FileMetaData)) (ikey : InternalKey) : outcome Z := levels_offset 0 levels (ik_data ikey) 0.

Definition get_approximate_size (start end_ : bytes) (d : DB) : outcome Z :=
  let current := v_current (db_versions d) in
  start_ikey ← ikey_new start MAX_KEY_SEQUENCE Value;
  end_ikey ← ikey_new end_ MAX_KEY_SEQUENCE Value;
  start ← version_offset_of current start_ikey;
  limit ← version_offset_of current end_ikey;
  Ok (if start <=? limit then limit - start else 0).
End Database.

(** ** The offset of a key is a sum over the files *)
Section Facts.
Context {F B : Type} (ucmp : Comparator) (uok : bytes → Prop) (uord : bytes → bytes → comparison) {CO : ComparatorOrder ucmp uok uord}.
Context (ck : bool) (table_offset : Z → Z → bytes → outcome (option Z)) (toff : FileMetaData → bytes → Z).
(** Tables that open give an offset within their size, later keys a later one. *)
Context (Hopen : ∀ f k, ∃ t, table_offset (fm_number f) (fm_file_size f) k = Ok t ∧ default 0 t = toff f k).
Context (Hrange : ∀ f k, 0 ≤ toff f k ≤ fm_file_size f) (Hmono : ∀ f k k', iord uord k k' ≠ Gt → toff f k ≤ toff f k').
Notation iord := (iord uord).

(** The bytes of a file that lie below a key. *)
Definition below (k : bytes) (f : FileMetaData) : Z :=
  if bool_decide (iord (ik_data (fm_largest f)) k ≠ Gt) then fm_file_size f
  else if bool_decide (iord (ik_data (fm_smallest f)) k = Gt) then 0 else toff f k.
Definition bytes_below (k : bytes) (fs : list FileMetaData) : Z := fold_right (λ f n, below k f + n) 0 fs.

Lemma below_range k f : 0 ≤ below k f ≤ fm_file_size f.
Proof. unfold below. pose proof (Hrange f k). repeat case_bool_decide; lia. Qed.
Lemma bytes_below_range k fs : 0 ≤ bytes_below k fs ≤ sizes fs.
Proof.
  induction fs as [|f fs IH]; [done|]. pose proof (below_range k f).
  change (bytes_below k (f :: fs)) with (below k f + bytes_below k fs). change (sizes (f :: fs)) with (fm_file_size f + sizes fs). lia.
Qed.
Lemma below_mono k k' f : iord k k' ≠ Gt → below k f ≤ below k' f.
Proof.
  intros Hk. pose proof (Hrange f k). pose proof (Hmono f k k' Hk). pose proof (below_range k' f) as Hb. unfold below at 1.
  destruct (bool_decide_reflect (iord (ik_data (fm_largest f)) k ≠ Gt)) as [Hl|Hl].
  { unfold below. rewrite bool_decide_eq_true_2; [done|]. by eapply (ord_le_trans iord). }
  destruct (bool_decide_reflect (iord (ik_data (fm_smallest f)) k = Gt)) as [Hs|Hs]; [lia|].
  unfold below. case_bool_decide; [lia|]. rewrite bool_decide_eq_false_2; [lia|]. intros Hgt. apply Hs.
  assert (iord (ik_data (fm_smallest f)) k' ≠ Gt); [|done]. by eapply (ord_le_trans iord); [|exact Hk].
Qed.
Lemma bytes_below_mono k k' fs : iord k k' ≠ Gt → bytes_below k fs ≤ bytes_below k' fs.
Proof.
  intros Hk. induction fs as [|f fs IH]; [done|]. pose proof (below_mono k k' f Hk).
  change (bytes_below k (f :: fs)) with (below k f + bytes_below k fs). change (bytes_below k' (f :: fs)) with (below k' f + bytes_below k' fs). lia.
Qed.

(** Leaving a level early skips only files that lie above the key. *)
Lemma level_offset_ok level fs k result : Forall (file_ok uok uord) fs → (level ≠ 0%nat → disjoint_files uord fs) → ikey_ok uok k →
  0 ≤ result → result + sizes fs < 2 ^ 64 → level_offset ucmp ck table_offset level fs k result = Ok (result + bytes_below k fs).
Proof.
  revert result. induction fs as [|f fs IH]; intros result Hok Hd Hk Hr Hsum; [simpl; by rewrite Z.add_0_r|].
  apply Forall_cons in Hok as [Hf Hok]. assert (level ≠ 0%nat → disjoint_files uord fs) as Hd' by (intros Hl i j a b Hij; apply (Hd Hl (S i) (S j)); lia).
  change (sizes (f :: fs)) with (fm_file_size f + sizes fs) in Hsum. change (bytes_below k (f :: fs)) with (below k f + bytes_below k fs).
  pose proof (below_range k f) as Hb. pose proof (bytes_below_range k fs) as Hbs. cbn [level_offset].
  rewrite (compare_ord (C := InternalKeyComparator ucmp) (key_ok := ikey_ok uok) (ord := iord) (ik_data (fm_largest f)) k (fo_largest _ _ _ Hf) Hk), Ok_bind. unfold below in *.
  destruct (iord (ik_data (fm_largest f)) k) eqn:El.
  1, 2: rewrite bool_decide_eq_true_2 in * by done; rewrite uadd_small, Ok_bind by lia; rewrite IH by (done || lia); f_equal; lia.
  rewrite bool_decide_eq_false_2 in * by (by intros []).
  rewrite (compare_ord (C := InternalKeyComparator ucmp) (key_ok := ikey_ok uok) (ord := iord) (ik_data (fm_smallest f)) k (fo_smallest _ _ _ Hf) Hk), Ok_bind.
  destruct (Hopen f k) as (t & Ht & Hdef).
  destruct (iord (ik_data (fm_smallest f)) k) eqn:Es.
  1, 2: rewrite bool_decide_eq_false_2 in * by done; rewrite Ht, Ok_bind; destruct t as [x|]; simpl in Hdef;
    [rewrite uadd_small, Ok_bind by lia; rewrite IH by (done || lia); f_equal; lia|rewrite Ok_bind, IH by (done || lia); f_equal; lia].
  rewrite bool_decide_eq_true_2 in * by done. destruct level as [|level]; [rewrite IH by (done || lia); f_equal; lia|]. f_equal.
  assert (bytes_below k fs = 0) as ->; [|lia]. specialize (Hd ltac:(done)). clear IH Hsum Hbs Hd' Hb Ht Hdef.
  assert (∀ g, g ∈ fs → iord (ik_data (fm_smallest g)) k = Gt ∧ iord (ik_data (fm_largest g)) k = Gt) as Hg.
  { intros g [j Hj]%list_elem_of_lookup_1. pose proof (Hd 0%nat (S j) f g ltac:(lia) eq_refl Hj) as Hlt. rewrite Forall_lookup in Hok. pose proof (Hok j g Hj) as Hgo.
    assert (iord (ik_data (fm_smallest g)) k = Gt) as Hsg.
    { apply (ord_gt_lt iord). eapply (ord_lt_trans iord); [|exact Hlt]. by apply (ord_gt_lt iord). }
    split; [done|]. apply (ord_gt_lt iord). eapply (ord_lt_le_trans iord); [by apply (ord_gt_lt iord); exact Hsg|]. apply Hgo. }
  clear -Hg. induction fs as [|g fs IH]; [done|]. change (bytes_below k (g :: fs)) with (below k g + bytes_below k fs).
  rewrite IH by (intros x Hx; apply Hg; by right). destruct (Hg g) as [H1 H2]; [by left|]. unfold below. by rewrite bool_decide_eq_false_2, bool_decide_eq_true_2 by (done || (rewrite H2; by intros [])).
Qed.

Lemma levels_offset_ok level ls k result : (∀ i fs, ls !! i = Some fs → Forall (file_ok uok uord) fs ∧ ((level + i)%nat ≠ 0%nat → disjoint_files uord fs)) → ikey_ok uok k →
  0 ≤ result → result + sizes (mjoin ls) < 2 ^ 64 → levels_offset ucmp ck table_offset level ls k result = Ok (result + bytes_below k (mjoin ls)).
Proof.
  assert (∀ a b, sizes (a ++ b) = sizes a + sizes b) as Hsz by (intros a b; unfold sizes; induction a; simpl; lia).
  assert (∀ a b, bytes_below k (a ++ b) = bytes_below k a + bytes_below k b) as Hbb by (intros a b; unfold bytes_below; induction a; simpl; lia).
  revert level result. induction ls as [|fs ls IH]; intros level result Hls Hk Hr Hsum; [simpl; by rewrite Z.add_0_r|].
  change (mjoin (fs :: ls)) with (fs ++ mjoin ls) in *. rewrite Hsz in Hsum. pose proof (bytes_below_range k (mjoin ls)). pose proof (bytes_below_range k fs).
  destruct (Hls 0%nat fs eq_refl) as [Hf Hd]. rewrite Nat.add_0_r in Hd. cbn [levels_offset].
  rewrite level_offset_ok, Ok_bind by (done || lia). rewrite IH; [|intros i gs Hi; replace (S level + i)%nat with (level + S i)%nat by lia; by apply (Hls (S i))|done|lia..].
  rewrite Hbb. f_equal. lia.
Qed.

(** The approximate size of a range is the number of bytes between its ends, over all the
    files of the version; it never exceeds the size of the files. *)
Lemma approximate_size_exact (d : DB F B) (lo hi : bytes) : levels_ok uok uord (v_current (db_versions d)) → sizes (mjoin (v_current (db_versions d))) < 2 ^ 64 →
  uok lo → uok hi → uord lo hi ≠ Gt →
  let files := mjoin (v_current (db_versions d)) in
  let size := bytes_below (ikey hi MAX_KEY_SEQUENCE Value) files - bytes_below (ikey lo MAX_KEY_SEQUENCE Value) files in
  get_approximate_size ucmp ck table_offset lo hi d = Ok size ∧ 0 ≤ size ≤ sizes files.
Proof.
  intros [Hf Hd] Hsum Hlo Hhi Hle files size. unfold get_approximate_size, version_offset_of.
  assert (seq_ok MAX_KEY_SEQUENCE) as Hseq by (split; vm_compute; discriminate). rewrite !ikey_new_eq, !Ok_bind by done. cbn [ik_data].
  assert (∀ u, uok u → ikey_ok uok (ikey u MAX_KEY_SEQUENCE Value)) as Hik by (intros u Hu; split; [rewrite length_ikey; lia|by rewrite ukey_ikey]).
  assert (∀ i fs, v_current (db_versions d) !! i = Some fs → Forall (file_ok uok uord) fs ∧ ((0 + i)%nat ≠ 0%nat → disjoint_files uord fs)) as Hls.
  { intros i fs Hi. split; [by eapply Hf|]. intros Hne. by eapply Hd. }
  rewrite !levels_offset_ok, !Ok_bind by (done || lia || by apply Hik). rewrite !Z.add_0_l. fold files.
  assert (iord (ikey lo MAX_KEY_SEQUENCE Value) (ikey hi MAX_KEY_SEQUENCE Value) ≠ Gt) as Hord.
  { unfold Format.iord. rewrite !ukey_ikey, !kseq_ikey by done. by destruct (uord lo hi). }
  pose proof (bytes_below_mono _ _ files Hord). pose proof (bytes_below_range (ikey hi MAX_KEY_SEQUENCE Value) files).
  pose proof (bytes_below_range (ikey lo MAX_KEY_SEQUENCE Value) files). rewrite (proj2 (Z.leb_le _ _)) by done. split; [done|]. unfold size. lia.
Qed.
End Facts.

(** ** A sample that misses a file

    On a level above 0 the user key is compared with the whole smallest internal key of the
    file: the file that begins with the key does not count. *)
Definition sample_levels : list (list FileMetaData) :=
  [[mkMeta 10 100 7 (mkIKey (ikey [5] 9 Value)) (mkIKey (ikey [8] 9 Value))]; [mkMeta 10 100 3 (mkIKey (ikey [5] 4 Value)) (mkIKey (ikey [6] 4 Value))]].
Example sample_misses_file :
  sampled bytewise sample_levels (ikey [5] 10 Value) = Ok None ∧
  sampled bytewise sample_levels (ikey [6] 10 Value) = Ok (Some (mkStats (mkMeta 10 100 7 (mkIKey (ikey [5] 9 Value)) (mkIKey (ikey [8] 9 Value))) 0)).
Proof. split; vm_compute; reflexivity. Qed.
