(* ===== verification/Background.v ===== *)
(** * Background compactions: [src/db/mod.rs]

    [background_compaction], one turn of the compaction thread, [manual_compact_range] and
    [compact_range].  A turn runs without the other threads changing the database: the
    memtable waits to be flushed at its beginning or not at all.  The merging iterator over
    the input tables is given by [new_input_iterator]. *)
From stdpp Require Import gmap sorting.
From S2P Require Import Prelude Coding Varint Comparator Format Storage Record Iterator SkipList SkipListFacts MemTable Batch VersionEdit Version LevelIter VersionGet VersionBuild KMerge DbIter Snapshot Compaction CompactPick Flush DbWrite Recovery Manifest Filename Db.
Open Scope Z_scope.

Section Background.
Context `{CRC : Crc32} `{FO : File F} {B : Type} {TS : TableSink B} {TG : TableSource B} {I : Type} {IT : Iterator I}.
Context (ck : bool) (ucmp : Comparator) (o : DbOptions) (set_iter : gset (Z * Z) → list (Z * Z)).
Context (create_manifest : Z → outcome F) (remove_manifest : option Z → outcome unit) (update_current : Z → outcome unit).
Context (remove_table : Z → outcome unit) (remove_file : bytes → outcome unit) (score_high : list (list FileMetaData) → bool).
(** The level whose score reaches one. *)
Context (size_level : list (list FileMetaData) → option nat).
(** [Compaction::new_input_iterator] on the tables of the database. *)
Context (new_input_iterator : Compaction B → gmap Z B → outcome I).
Notation DB := (DB F B).
Notation log_and_apply' := (Db.log_and_apply' ck ucmp o set_iter create_manifest remove_manifest update_current).
Notation delete_obsolete_files := (Db.delete_obsolete_files remove_file).

(** What [pick_compaction] reads of the current version. *)
Definition version_state (d : DB) : VersionState :=
  mkVersionState (v_current (db_versions d)) (size_level (v_current (db_versions d))) ((λ ss, (ss_file ss, ss_level ss)) <$> db_file_to_compact d).

Definition with_queue (d : DB) (q : list ManualCompaction) : DB :=
  mkDB (db_mem d) (db_im_mem d) (db_versions d) (db_record_writer d) (db_pending_outputs d) (db_file_to_compact d) (db_bg_error d) (db_is_shutting_down d)
    (db_compaction_scheduled d) q (db_tables d).
Definition set_pointers_db (d : DB) (ps : list InternalKey) : DB := with_versions d (with_pointers (db_versions d) ps).
(** [init_allowed_seeks] on the files of the current version that are shared with the
    compaction. *)
Definition reset_file (reset : list FileMetaData) (f : FileMetaData) : FileMetaData :=
  if bool_decide (fm_number f ∈ fm_number <$> reset) then init_allowed_seeks f else f.
Definition reset_files (reset : list FileMetaData) (d : DB) : DB :=
  with_versions d (with_current (db_versions d) (fmap (M := list) (reset_file reset) <$> v_current (db_versions d))).

(** A compaction from the queue of manual ones, or one that the version asks for; with the
    answer to a manual request that needs no work. *)
Definition choose_compaction (d : DB) : outcome (option (Compaction B * option nat) * bool * list (nat * outcome unit) * DB) :=
  match db_manual_queue d with
  | manual :: queue =>
    let d := with_queue d queue in
    r ← compact_range ck ucmp (o_max_levels o) (o_max_file_size o) (v_current (db_versions d)) (v_compaction_pointer (db_versions d))
          (mc_level manual) (mc_begin manual) (mc_end manual);
    match r with
    | Some (c, pointers) => Ok (Some (c, Some (mc_done manual)), true, [], set_pointers_db d pointers)
    | None => Ok (None, true, [(mc_done manual, Ok tt)], d)
    end
  | [] =>
    p ← pick_compaction ck ucmp (o_max_levels o) (o_max_file_size o) (version_state d) (v_compaction_pointer (db_versions d));
    match p with
    | PickedSome c pointers => Ok (Some (c, None), false, [], set_pointers_db d pointers)
    | PickedNone reset pointers => Ok (None, false, [], reset_files reset (set_pointers_db d pointers))
    end
  end.

(** Installing an edit; a new version has no file to compact yet. *)
Definition install_edit (edit : VersionEdit) (d : DB) : outcome unit * DB :=
  let '(res, v) := log_and_apply' (db_versions d) edit in
  let new_version := bool_decide (v_vnum v ≠ v_vnum (db_versions d)) in
  let d := with_versions d v in
  (res, if new_version then with_stats d None else d).

(** The edit of a trivial move: the file goes to the next level. *)
Definition move_edit (c : Compaction B) (f : FileMetaData) : VersionEdit :=
  add_file (Z.of_nat (cp_level c) + 1) (fm_number f) (fm_file_size f) (fm_smallest f) (fm_largest f)
    (delete_file (Z.of_nat (cp_level c)) (fm_number f) (cp_edit c)).
Definition trivial_move (listing : outcome (list bytes)) (old : list (list (list FileMetaData))) (c : Compaction B) (d : DB) : outcome (outcome unit) * DB :=
  match ci_base (cp_inputs c) with
  | f :: _ =>
    let '(res, d) := install_edit (move_edit c f) d in
    (Ok res, (delete_obsolete_files listing old d).2)
  | [] => (Panic, d)
  end.

(** The oldest sequence number a reader may still use, after the redundant snapshots are
    removed. *)
Definition oldest_snapshot_alive (snapshots : SnapshotList) (d : DB) : Z :=
  if sl_is_empty snapshots then v_last_sequence (db_versions d) else arc_seq (sl_oldest snapshots).
Definition with_oldest (c : Compaction B) (oldest : Z) : Compaction B :=
  mkCompaction (cp_reason c) (cp_level c) (cp_input_version c) (cp_edit c) (cp_inputs c) (cp_grand_parents c) (cp_grand_parent_index c) (cp_seen_key c)
    (cp_overlapped_bytes c) oldest (cp_outputs c) (cp_builder c) (cp_tables c).

(** [do_compaction] on the database: the tables written are stored under the numbers they
    took, and the edit is installed when the input was read without an error.  When the
    merge fails, [failed_next] is the next file number after those it has taken. *)
Definition merge_tables (fuel : nat) (failed_next : Z) (c : Compaction B) (d : DB) : outcome unit * DB :=
  let v := db_versions d in
  match new_input_iterator c (db_tables d) with
  | Ok it =>
    if db_is_shutting_down d then (Err (DBClosed "major compaction"), d)
    else
      match do_compaction ck ucmp (o_max_levels o) (o_max_file_size o) fuel it c (v_next_file_number v) with
      | Ok (c, next, complete) =>
        let numbers := Z.of_nat <$> seq (Z.to_nat (v_next_file_number v)) (length (cp_tables c)) in
        let tables := foldl (λ ts nb, <[nb.1 := nb.2]> ts) (db_tables d) (zip numbers (cp_tables c)) in
        let d := with_tables (with_versions d (with_counters v next (v_last_sequence v))) tables in
        let d := with_pending d (db_pending_outputs d ∖ list_to_set numbers) in
        if (complete : bool) then install_edit (cp_edit c) d else (Ok tt, d)
      | Err e => (Err e, with_versions d (with_counters v failed_next (v_last_sequence v)))
      | Panic => (Panic, d)
      | OutOfFuel => (OutOfFuel, d)
      end
  | Err e => (Err e, d)
  | Panic => (Panic, d)
  | OutOfFuel => (OutOfFuel, d)
  end.

(** The answer to the caller of a manual compaction. *)
Definition answer_to (done : option nat) (r : outcome unit) : list (nat * outcome unit) := match done with Some signal => [(signal, r)] | None => [] end.

Definition major_compaction (fuel : nat) (failed_next : Z) (listing : outcome (list bytes)) (old : list (list (list FileMetaData))) (snapshots : SnapshotList)
    (c : Compaction B) (done : option nat) (d : DB) : outcome (list (nat * outcome unit)) * DB :=
  let c := with_oldest c (oldest_snapshot_alive snapshots d) in
  match merge_tables fuel failed_next c d with
  | (Ok _, d) =>
    let '(res, d) := delete_obsolete_files listing old d in
    (Ok (answer_to done res), d)
  | (Err e, d) => (Ok (answer_to done (Err e)), (delete_obsolete_files listing old d).2)
  | (Panic, d) => (Panic, d)
  | (OutOfFuel, d) => (OutOfFuel, d)
  end.

(** One turn: whether something was compacted, the answers sent, the database and its
    snapshots. *)
Definition background_compaction (fuel : nat) (failed_next : Z) (listing : outcome (list bytes)) (old : list (list (list FileMetaData))) (snapshots : SnapshotList)
    (d : DB) : outcome (bool * list (nat * outcome unit)) * SnapshotList * DB :=
  if bool_decide (is_Some (db_im_mem d)) then
    match compact_mem_table ck ucmp o set_iter create_manifest remove_manifest update_current remove_table remove_file listing old d with
    | (Panic, d) => (Panic, snapshots, d)
    | (OutOfFuel, d) => (OutOfFuel, snapshots, d)
    | (_, d) => (Ok (true, []), snapshots, d)
    end
  else
    match choose_compaction d with
    | Ok (None, _, answers, d) => (Ok (false, answers), snapshots, d)
    | Ok (Some (c, done), is_manual, _, d) =>
      match (if is_manual then Ok false else is_trivial_move ck (o_max_file_size o) c) with
      | Ok true =>
        match trivial_move listing old c d with
        | (Ok res, d) => (Ok (true, answer_to done res), snapshots, d)
        | (_, d) => (Panic, snapshots, d)
        end
      | Ok false =>
        let snapshots := gc snapshots in
        match major_compaction fuel failed_next listing old snapshots c done d with
        | (Ok answers, d) => (Ok (true, answers), snapshots, d)
        | (Err e, d) => (Err e, snapshots, d)
        | (Panic, d) => (Panic, snapshots, d)
        | (OutOfFuel, d) => (OutOfFuel, snapshots, d)
        end
      | _ => (Panic, snapshots, d)
      end
    | _ => (Panic, snapshots, d)
    end.

(** A turn of the loop of [process_compaction] when a signal has arrived; [done_before] is
    the result of the last compaction.  [None]: the thread ends. *)
Definition compaction_turn (fuel : nat) (failed_next : Z) (listing : outcome (list bytes)) (old : list (list (list FileMetaData))) (snapshots : SnapshotList)
    (done_before : bool) (d : DB) : option (outcome (bool * list (nat * outcome unit)) * SnapshotList * DB) :=
  if db_is_shutting_down d then None
  else
    let '(r, snapshots, d) :=
      if bool_decide (is_Some (db_bg_error d)) then (Ok (done_before, []), snapshots, d)
      else background_compaction fuel failed_next listing old snapshots d in
    match r with
    | Ok (done_compaction, answers) =>
      let d := with_scheduled d false in
      Some (Ok (done_compaction, answers), snapshots, if (done_compaction : bool) then (maybe_schedule_compaction score_high d).2 else d)
    | r => Some (r, snapshots, d)
    end.

(** [manual_compact_range] up to the wait for the answer. *)
Definition manual_compact_range (level : nat) (begin_ end_ : option bytes) (done : nat) (d : DB) : outcome DB :=
  _ ← rust_assert (level + 1 <? o_max_levels o)%nat;
  b ← match begin_ with Some k => k ← ikey_new k MAX_KEY_SEQUENCE Value; Ok (Some k) | None => Ok None end;
  e ← match end_ with Some k => k ← ikey_new k 0 Value; Ok (Some k) | None => Ok None end;
  let d := with_queue d (db_manual_queue d ++ [mkManual level done b e]) in
  Ok (maybe_schedule_compaction score_high d).2.

(** The levels that [compact_range] compacts: all above the deepest one that overlaps. *)
Fixpoint deepest_overlap (n level : nat) (files : list (list FileMetaData)) (begin_ end_ : option bytes) (deepest : nat) : outcome nat :=
  match n with
  | O => Ok deepest
  | S n =>
    b ← overlap_in_level ucmp files level begin_ end_;
    deepest_overlap n (S level) files begin_ end_ (if (b : bool) then level else deepest)
  end.
Definition levels_to_compact (begin_ end_ : option bytes) (d : DB) : outcome (list nat) :=
  n ← deepest_overlap (o_max_levels o - 1) 1 (v_current (db_versions d)) begin_ end_ 1;
  Ok (seq 0 n).
End Background.

(** ** What a trivial move rests on *)
Section PickFacts.
Context {B : Type} (ck : bool) (ucmp : Comparator) (max_levels : nat) (max_file_size : Z).
Implicit Types c : Compaction B.

(** The next step of a computation that succeeded. *)
#[local] Ltac next_ok H x := apply bind_Ok in H as (x & ? & H).

Lemma base_range_single level f : base_range ucmp [f] level = Ok (fm_smallest f, fm_largest f).
Proof. unfold base_range. simpl. by destruct (level =? 0)%nat. Qed.
Lemma expand_inputs_parent files level not_expand next a z current parent :
  expand_inputs ck ucmp max_file_size files level not_expand next a z = Ok (current, parent) → length parent = length next.
Proof.
  intros H. unfold expand_inputs in H. next_ok H a1. next_ok H a2. next_ok H a3. next_ok H a4. next_ok H a5. next_ok H a6. next_ok H fits. destruct fits.
  - next_ok H y. destruct y as [lo hi]. next_ok H en. destruct (Nat.eqb_spec (length en) (length next)); by injection H as <- <-.
  - by injection H as <- <-.
Qed.

(** A compaction of one file with no file of the next level: the file overlaps none of
    them, and the pointer of its level moves to its end. *)
Lemma setup_trivial files pointers c c' ps f : setup_other_inputs ck ucmp max_levels max_file_size files pointers c = Ok (c', ps) →
  ci_base (cp_inputs c') = [f] → ci_parent (cp_inputs c') = [] →
  get_overlapping_inputs ucmp files (cp_level c + 1) (Some (fm_smallest f)) (Some (fm_largest f)) = Ok [] ∧
  cp_level c' = cp_level c ∧ cp_edit c' = push_pointer_edit (Z.of_nat (cp_level c), fm_largest f) (cp_edit c) ∧ ps = <[cp_level c := fm_largest f]> pointers.
Proof.
  intros H Hbase Hparent. unfold setup_other_inputs in H. next_ok H level_files. next_ok H not_expand. next_ok H range. destruct range as [smallest largest].
  next_ok H next. next_ok H whole. destruct whole as [all_smallest all_largest]. next_ok H files2. destruct files2 as [current parent].
  next_ok H final. destruct final as [final_smallest final_largest]. next_ok H gp. next_ok H pt. injection H as <- <-. simpl in Hbase, Hparent. subst.
  destruct next as [|n next].
  - injection H5 as ->. rewrite base_range_single in H2. injection H2 as <- <-. unfold total_range in H6. rewrite base_range_single in H6. injection H6 as <- <-. done.
  - apply expand_inputs_parent in H5. done.
Qed.

Lemma pick_trivial v pointers c ps f : pick_compaction ck ucmp max_levels max_file_size v pointers = Ok (PickedSome c ps) →
  ci_base (cp_inputs c) = [f] → ci_parent (cp_inputs c) = [] →
  get_overlapping_inputs ucmp (vs_files v) (cp_level c + 1) (Some (fm_smallest f)) (Some (fm_largest f)) = Ok [] ∧
  cp_edit c = push_pointer_edit (Z.of_nat (cp_level c), fm_largest f) (ve_new (Z.of_nat max_levels)) ∧ ps = <[cp_level c := fm_largest f]> pointers.
Proof.
  intros H Hbase Hparent. unfold pick_compaction in H. next_ok H chosen. destruct chosen as [[[level reason] base]|]; [|done].
  next_ok H base'. next_ok H r. destruct r as [c' ps']. next_ok H skip. destruct skip; [done|]. injection H as -> ->.
  destruct (setup_trivial _ _ _ _ _ f H2 Hbase Hparent) as (Hov & Hl & He & Hp). rewrite Hl, He. done.
Qed.

Lemma setup_pointers files pointers c c' ps : setup_other_inputs ck ucmp max_levels max_file_size files pointers c = Ok (c', ps) → length ps = length pointers.
Proof.
  intros H. unfold setup_other_inputs in H. next_ok H a1. next_ok H a2. next_ok H a3. destruct a3. next_ok H a4. next_ok H a5. destruct a5. next_ok H a6. destruct a6.
  next_ok H a7. destruct a7. next_ok H a8. next_ok H a9. injection H as _ <-. apply length_insert.
Qed.
Lemma pick_none_pointers v pointers reset ps : pick_compaction (B := B) ck ucmp max_levels max_file_size v pointers = Ok (PickedNone reset ps) → length ps = length pointers.
Proof.
  intros H. unfold pick_compaction in H. next_ok H chosen. destruct chosen as [[[level reason] base]|]; [|by injection H as _ <-].
  next_ok H base'. next_ok H r. destruct r as [c' ps']. next_ok H skip. destruct skip; [|done]. injection H as _ <-. by eapply setup_pointers.
Qed.
End PickFacts.

(** ** Manual compactions are answered *)
Section Manual.
Context `{CRC : Crc32} `{FO : File F} {B : Type} {TS : TableSink B} {TG : TableSource B} {I : Type} {IT : Iterator I}.
Context (ck : bool) (ucmp : Comparator) (o : DbOptions) (set_iter : gset (Z * Z) → list (Z * Z)).
Context (create_manifest : Z → outcome F) (remove_manifest : option Z → outcome unit) (update_current : Z → outcome unit).
Context (remove_table : Z → outcome unit) (remove_file : bytes → outcome unit) (score_high : list (list FileMetaData) → bool).
Context (size_level : list (list FileMetaData) → option nat) (new_input_iterator : Compaction B → gmap Z B → outcome I).
Notation DB := (DB F B).
Notation background_compaction := (background_compaction ck ucmp o set_iter create_manifest remove_manifest update_current remove_table remove_file size_level new_input_iterator).

Lemma install_queue edit (d : DB) : db_manual_queue (install_edit ck ucmp o set_iter create_manifest remove_manifest update_current edit d).2 = db_manual_queue d.
Proof. unfold install_edit. destruct (log_and_apply' _ _ _ _ _ _ _ _) as [res v]. by destruct (bool_decide _). Qed.
Lemma merge_queue fuel failed_next c (d : DB) :
  db_manual_queue (merge_tables ck ucmp o set_iter create_manifest remove_manifest update_current new_input_iterator fuel failed_next c d).2 = db_manual_queue d.
Proof.
  unfold merge_tables. destruct (new_input_iterator _ _); try done. destruct (db_is_shutting_down d); [done|].
  destruct (do_compaction _ _ _ _ _ _ _ _) as [[[c' next] complete]| | |]; try done. destruct complete; [|done]. by rewrite install_queue.
Qed.
Lemma delete_queue listing old (d : DB) : db_manual_queue (delete_obsolete_files remove_file listing old d).2 = db_manual_queue d.
Proof. unfold delete_obsolete_files. by destruct listing. Qed.

(** A turn that starts with a manual request sends exactly one answer, to the caller who
    asked first, whatever happens to the compaction, and takes only this request off the
    queue. *)
Lemma manual_answered fuel failed_next listing old snapshots (d : DB) m q done answers snapshots' d' : db_im_mem d = None → db_manual_queue d = m :: q →
  background_compaction fuel failed_next listing old snapshots d = (Ok (done, answers), snapshots', d') →
  (∃ r, answers = [(mc_done m, r)] ∧ (done = false → r = Ok tt)) ∧ db_manual_queue d' = q.
Proof.
  intros Him Hq. unfold Background.background_compaction, choose_compaction. rewrite Him, Hq. cbn [bool_decide].
  case_bool_decide as Hb; [by destruct Hb|]. clear Hb. destruct (compact_range _ _ _ _ _ _ _ _ _) as [[[c ps]|]| | |]; try done; rewrite Ok_bind.
  - cbn [answer_to]. unfold major_compaction. set (c' := with_oldest _ _). set (d1 := set_pointers_db _ _).
    pose proof (merge_queue fuel failed_next c' d1) as Hm. destruct (merge_tables _ _ _ _ _ _ _ _ _ _ _ _) as [[u|e| |] d2]; try done; cbn [snd] in Hm.
    + pose proof (delete_queue listing old d2) as Hd. destruct (delete_obsolete_files _ _ _ _) as [res d3]. intros [= <- <- <- <-]. split; [by exists res|]. cbn [snd] in Hd. by rewrite Hd, Hm.
    + intros [= <- <- <- <-]. split; [by exists (Err e)|]. by rewrite delete_queue, Hm.
  - intros [= <- <- <- <-]. split; [by exists (Ok tt)|done].
Qed.
End Manual.
