(* ===== verification/DbFacts.v ===== *)
(** * The database returns what was written

    The abstract database is the history of the records written, newest first; a read at
    a sequence number answers from the first record of the key that it may see.  The
    invariant [db_inv] relates a state of [Db] to its history; committing a group,
    rotating the memtable, flushing it and counting seeks keep it, and [db_get] answers
    as the history does. *)
From stdpp Require Import gmap sorting.
From S2P Require Import Prelude Coding Varint Comparator Format Storage Record Iterator SkipList SkipListFacts MemTable Batch VersionEdit Version LevelIter VersionGet VersionBuild KMerge DbIter Snapshot Compaction CompactPick Flush DbWrite Recovery Manifest Filename Db Sampling Background.
Open Scope Z_scope.

(** ** The abstract database *)
Section Abstract.
Context (uord : bytes → bytes → comparison).

#[export] Instance visible_dec u seq r : Decision (visible uord u seq r).
Proof. unfold visible. apply _. Defined.

Definition rec_answer (r : mrec) : option bytes := match r_type r with Value => Some (r_value r) | _ => None end.
(** A read: the first record of the history that the reader sees decides. *)
Definition abs_get (hist : list mrec) (u : bytes) (seq : Z) : option bytes :=
  match list_find (visible uord u seq) hist with Some (_, r) => rec_answer r | None => None end.
(** A write of some operations after the sequence number [last]. *)
Definition abs_write (hist : list mrec) (last : Z) (ops : list batch_op) : list mrec := reverse (op_recs (last + 1) ops) ++ hist.

Definition newer (a b : mrec) : Prop := r_seq b < r_seq a.

Lemma abs_get_newest hist u seq r : StronglySorted newer hist → r ∈ hist → visible uord u seq r →
  (∀ r', r' ∈ hist → visible uord u seq r' → r_seq r' ≤ r_seq r) → abs_get hist u seq = rec_answer r.
Proof.
  unfold abs_get. intros Hs Hr Hv Hmax. destruct (list_find _ hist) as [[i r']|] eqn:E.
  - apply list_find_Some in E as (Hi & Hv' & Hbefore). apply list_elem_of_split_length in Hi as (l1 & l2 & -> & ->).
    rewrite elem_of_app, elem_of_cons in Hr. destruct Hr as [[j Hj]%list_elem_of_lookup_1|[->|Hr]]; [| done|].
    + destruct (Hbefore j r); [by apply lookup_app_l_Some|by eapply lookup_lt_Some|done].
    + apply StronglySorted_app_1_r in Hs. apply StronglySorted_cons in Hs as [Hs _]. rewrite Forall_forall in Hs.
      specialize (Hs r Hr). unfold newer in Hs. specialize (Hmax r'). rewrite elem_of_app, elem_of_cons in Hmax. specialize (Hmax ltac:(auto) Hv'). lia.
  - apply list_find_None in E. rewrite Forall_forall in E. by destruct (E r Hr).
Qed.
Lemma abs_get_none hist u seq : (∀ r, r ∈ hist → ¬ visible uord u seq r) → abs_get hist u seq = None.
Proof.
  intros Hn. unfold abs_get. destruct (list_find _ hist) as [[i r]|] eqn:E; [|done].
  apply list_find_Some in E as (Hi & Hv & _). by destruct (Hn r (list_elem_of_lookup_2 _ _ _ Hi)).
Qed.

Lemma abs_write_cons hist last op ops : abs_write hist last (op :: ops) = abs_write (op_rec (last + 1) op :: hist) (last + 1) ops.
Proof. unfold abs_write. cbn [op_recs]. by rewrite reverse_cons, <- app_assoc. Qed.
Lemma abs_write_sorted hist last ops : StronglySorted newer hist → (∀ r, r ∈ hist → r_seq r ≤ last) →
  StronglySorted newer (abs_write hist last ops).
Proof.
  revert hist last. induction ops as [|op ops IH]; intros hist last Hs Hl; [done|]. rewrite abs_write_cons. apply IH.
  - constructor; [done|]. apply Forall_forall. intros r Hr. unfold newer. rewrite op_rec_seq. specialize (Hl r Hr). lia.
  - intros r [->|Hr]%elem_of_cons; [rewrite op_rec_seq; lia|]. specialize (Hl r Hr). lia.
Qed.
Lemma elem_of_abs_write hist last ops r : r ∈ abs_write hist last ops ↔ r ∈ op_recs (last + 1) ops ∨ r ∈ hist.
Proof. unfold abs_write. by rewrite elem_of_app, elem_of_reverse. Qed.
End Abstract.

(** ** The invariant *)

(** A table answers a lookup with the first entry not below the key, unless no entry is
    visible. *)
Class TableSourceLaws {B : Type} {TG : TableSource B} (uok : bytes → Prop) (uord : bytes → bytes → comparison) (holds : B → list entry → Prop) : Prop := {
  source_get_ok b es u seq : holds b es → sorted (iord uord) es → Forall (entry_wf uok) es → uok u → seq_ok seq →
    ∃ r, source_get b (ikey u seq Value) = Ok r ∧
      match r with
      | Some e => ∃ i, seek_pos (iord uord) es (ikey u seq Value) = Some i ∧ es !! i = Some e
      | None => ∀ e, e ∈ es → ¬ sees uord u seq e
      end;
}.

Section Facts.
Context `{CRC : Crc32, !Crc32Laws} `{FL : FileLaws F} (ck : bool) (node_base : Z) (Hbase : 0 < node_base < 2 ^ 40).
Context (ucmp : Comparator) (uok : bytes → Prop) (uord : bytes → bytes → comparison) {CO : ComparatorOrder ucmp uok uord}.
Context {B : Type} {TS : TableSink B} {TG : TableSource B} (holds : B → list entry → Prop).
Context {SL : TableSinkLaws (iord uord) (ikey_ok uok) holds} {GL : TableSourceLaws uok uord holds}.
(** A finished table is not empty, and its size is a 64-bit number. *)
Context (sink_sized : ∀ b es b', holds b es → sink_finish b = Ok b' → 0 < sink_file_size b' < 2 ^ 64).
Context (o : DbOptions) (set_iter : gset (Z * Z) → list (Z * Z)) (Hset : ∀ s, set_iter s ≡ₚ elements s).
Context (create_log create_manifest : Z → outcome F) (remove_manifest : option Z → outcome unit) (update_current : Z → outcome unit).
Context (remove_table : Z → outcome unit) (remove_file : bytes → outcome unit) (score_high : list (list FileMetaData) → bool).
Notation DB := (DB F B).

(** The records of a memtable that is being flushed, or of none. *)
Definition im_rep (im_mem : option SkipList) (li : list mrec) : Prop :=
  match im_mem with Some m => mem_rep uok uord m li ∧ li ≠ [] | None => li = [] end.

(** A file of a level. *)
Definition at_level (levels : list (list FileMetaData)) (i : nat) (f : FileMetaData) : Prop := ∃ fs, levels !! i = Some fs ∧ f ∈ fs.
Lemma in_levels_at levels f : in_levels levels f ↔ ∃ i, at_level levels i f.
Proof.
  unfold in_levels, at_level. split.
  - intros (fs & [i Hi]%list_elem_of_lookup_1 & Hf). by exists i, fs.
  - intros (i & fs & Hi & Hf). exists fs. split; [by eapply list_elem_of_lookup_2|done].
Qed.

(** No file is listed twice on a level. *)
Definition files_nodup (levels : list (list FileMetaData)) : Prop := ∀ i fs, levels !! i = Some fs → NoDup (fm_number <$> fs).

(** A file of the current version and the records of its table. *)
Record file_inv (tables : gmap Z B) (f : FileMetaData) (l : list mrec) : Prop := {
  fi_table : ∃ b, tables !! fm_number f = Some b ∧ holds b (rec_kv <$> l);
  fi_sorted : sorted (iord uord) (rec_kv <$> l);
  fi_ok : Forall (rec_ok uok) l;
  fi_bounds : ∃ a z, head l = Some a ∧ last l = Some z ∧ fm_smallest f = mkIKey (rec_ikey a) ∧ fm_largest f = mkIKey (rec_ikey z);
}.

(** [recs] gives the records of a table by its number, [li] those of the immutable
    memtable and [lm] those of the memtable. *)
Record db_inv (d : DB) (hist : list mrec) (recs : Z → list mrec) (li lm : list mrec) : Prop := {
  di_mem : mem_rep uok uord (db_mem d) lm;
  di_im : im_rep (db_im_mem d) li;
  di_log : ∃ w, db_record_writer d = Some w ∧ writer_ok w;
  di_manifest : ∃ w, v_manifest_writer (db_versions d) = Some w ∧ writer_ok w;
  di_live : live_inv uok uord (o_max_levels o) (db_versions d) (v_current (db_versions d));
  di_seq : 0 ≤ v_last_sequence (db_versions d) ≤ MAX_KEY_SEQUENCE;
  di_lognum : 0 ≤ v_log_number (db_versions d) < v_next_file_number (db_versions d);
  di_files f : in_levels (v_current (db_versions d)) f → file_inv (db_tables d) f (recs (fm_number f)) ∧ 0 ≤ fm_number f < v_next_file_number (db_versions d);
  di_unique i j f g : at_level (v_current (db_versions d)) i f → at_level (v_current (db_versions d)) j g → fm_number f = fm_number g → i = j ∧ f = g;
  di_order f g a b : in_levels (v_current (db_versions d)) f → in_levels (v_current (db_versions d)) g → fm_number g < fm_number f →
    a ∈ recs (fm_number f) → b ∈ recs (fm_number g) → newer a b;
  di_old f a b : in_levels (v_current (db_versions d)) f → a ∈ li ++ lm → b ∈ recs (fm_number f) → newer a b;
  di_im_old a b : a ∈ lm → b ∈ li → newer a b;
  di_hist r : r ∈ hist ↔ r ∈ lm ∨ r ∈ li ∨ ∃ f, in_levels (v_current (db_versions d)) f ∧ r ∈ recs (fm_number f);
  di_sorted : StronglySorted newer hist;
  di_last r : r ∈ hist → r_seq r ≤ v_last_sequence (db_versions d);
  di_nodup : files_nodup (v_current (db_versions d));
}.

Lemma rec_kv_wf r : rec_ok uok r → entry_wf uok (rec_kv r).
Proof. intros [? ? ? _ _]. exists (r_user r), (r_seq r), (r_type r). by split_and!. Qed.
Lemma sees_rec u seq r : rec_ok uok r → sees uord u seq (rec_kv r) ↔ visible uord u seq r.
Proof. intros Hr. unfold sees, visible, rec_kv, rec_ikey. cbn [fst]. by rewrite ukey_ikey, kseq_ikey by apply Hr. Qed.
Lemma kseq_rec r : rec_ok uok r → kseq (rec_kv r).1 = r_seq r.
Proof. intros Hr. cbn [fst rec_kv]. unfold rec_ikey. by rewrite kseq_ikey by apply Hr. Qed.
Lemma answer_of_rec r : rec_ok uok r → answer_of (rec_kv r) = rec_answer r.
Proof.
  intros Hr. unfold answer_of, rec_answer, rec_kv, rec_ikey. cbn [fst snd]. rewrite decode_from_ikey by apply Hr. done.
Qed.

Lemma sorted_bounds (l : list entry) a z e : sorted (iord uord) l → head l = Some a → last l = Some z → e ∈ l →
  iord uord a.1 e.1 ≠ Gt ∧ iord uord e.1 z.1 ≠ Gt.
Proof.
  intros Hs Ha Hz [i Hi]%list_elem_of_lookup_1. rewrite head_lookup in Ha. rewrite last_lookup in Hz. pose proof (lookup_lt_Some _ _ _ Hi) as Hlt. split.
  - destruct i as [|i]; [rewrite Ha in Hi; injection Hi as ->; by rewrite (ord_refl (iord uord))|]. by rewrite (Hs 0%nat (S i) a e) by (done || lia).
  - destruct (decide (i = pred (length l))) as [->|Hne]; [rewrite Hz in Hi; injection Hi as ->; by rewrite (ord_refl (iord uord))|].
    by rewrite (Hs i (pred (length l)) e z) by (done || lia).
Qed.

(** The current version with the tables of the database, as lookups need it. *)
Lemma inv_table_ok d hist recs li lm f : db_inv d hist recs li lm → in_levels (v_current (db_versions d)) f →
  @table_ok (table_lookup (db_tables d)) uok uord (λ f, rec_kv <$> recs (fm_number f)) f.
Proof.
  intros Hinv Hf. destruct (di_files _ _ _ _ _ Hinv f Hf) as [[(b & Hb & Hh) Hs Hok (a & z & Ha & Hz & Hsm & Hla)] _].
  assert (Forall (entry_wf uok) (rec_kv <$> recs (fm_number f))) as Hwf.
  { apply Forall_fmap. eapply Forall_impl; [exact Hok|]. apply rec_kv_wf. }
  assert (head (rec_kv <$> recs (fm_number f)) = Some (rec_kv a)) as Ha' by (destruct (recs (fm_number f)); [done|]; injection Ha as ->; done).
  assert (last (rec_kv <$> recs (fm_number f)) = Some (rec_kv z)) as Hz' by (by rewrite fmap_last, Hz).
  split; [|done|done| | |].
  - destruct Hf as (fs & [level Hfs]%list_elem_of_lookup_1 & Hin). pose proof (lo_files _ _ _ (li_levels _ _ _ _ _ (di_live _ _ _ _ _ Hinv)) level fs Hfs) as Hall.
    rewrite Forall_forall in Hall. by apply Hall.
  - intros e He. rewrite Hsm, Hla. exact (sorted_bounds _ _ _ e Hs Ha' Hz' He).
  - exists (rec_kv z). split; [rewrite last_lookup in Hz'; by eapply list_elem_of_lookup_2|]. rewrite Hla. apply (ord_refl (iord uord)).
  - intros u seq Hu Hseq. cbn [tc_get table_lookup]. rewrite Hb. by apply (source_get_ok (holds := holds)).
Qed.
Lemma inv_numbers_agree d hist recs li lm u seq : db_inv d hist recs li lm →
  numbers_agree uord (λ f, rec_kv <$> recs (fm_number f)) (v_current (db_versions d)) u seq.
Proof.
  intros Hinv. split; [|intros f g (i & Hi)%in_levels_at (j & Hj)%in_levels_at Heq; by destruct (di_unique _ _ _ _ _ Hinv i j f g Hi Hj Heq)].
  intros f g a b Hf Hg (ra & -> & Ha)%list_elem_of_fmap (rb & -> & Hb)%list_elem_of_fmap _ _ Hlt.
  destruct (di_files _ _ _ _ _ Hinv f Hf) as [Hfi _]. destruct (di_files _ _ _ _ _ Hinv g Hg) as [Hgi _].
  pose proof (fi_ok _ _ _ Hfi) as Hfo. pose proof (fi_ok _ _ _ Hgi) as Hgo. rewrite Forall_forall in Hfo, Hgo.
  rewrite (kseq_rec ra), (kseq_rec rb) by auto. pose proof (di_order _ _ _ _ _ Hinv f g ra rb Hf Hg Hlt Ha Hb) as Hn. unfold newer in Hn. lia.
Qed.

(** A record that decides: seen by the reader, and no other is newer. *)
Definition decides (hist : list mrec) (u : bytes) (seq : Z) (r : mrec) : Prop :=
  r ∈ hist ∧ visible uord u seq r ∧ ∀ r', r' ∈ hist → visible uord u seq r' → r_seq r' ≤ r_seq r.

Lemma version_answers d hist recs li lm u seq : db_inv d hist recs li lm → uok u → seq_ok seq → len u + 8 < 2 ^ 32 →
  ∃ key ans stats, lookup_key_new u seq = Ok key ∧ @version_get (table_lookup (db_tables d)) ucmp (v_current (db_versions d)) key = Ok (ans, stats) ∧
    ((∃ f r, in_levels (v_current (db_versions d)) f ∧ r ∈ recs (fm_number f) ∧ visible uord u seq r ∧ ans = rec_answer r ∧
      ∀ f' r', in_levels (v_current (db_versions d)) f' → r' ∈ recs (fm_number f') → visible uord u seq r' → r_seq r' ≤ r_seq r) ∨
     (ans = None ∧ ∀ f r, in_levels (v_current (db_versions d)) f → r ∈ recs (fm_number f) → ¬ visible uord u seq r)).
Proof.
  intros Hinv Hu Hs Hl. assert (∀ f r, in_levels (v_current (db_versions d)) f → r ∈ recs (fm_number f) → rec_ok uok r) as Hok.
  { intros f r Hf Hr. destruct (di_files _ _ _ _ _ Hinv f Hf) as [Hfi _]. pose proof (fi_ok _ _ _ Hfi) as Hfo. rewrite Forall_forall in Hfo. auto. }
  destruct (version_get_ok (table_lookup (db_tables d)) ucmp uok uord (λ f, rec_kv <$> recs (fm_number f)) (v_current (db_versions d)) u seq)
    as (key & ans & stats & Hk & Hget & Hnew); try done.
  - apply (li_levels _ _ _ _ _ (di_live _ _ _ _ _ Hinv)).
  - intros f Hf. by eapply inv_table_ok.
  - by eapply inv_numbers_agree.
  - exists key, ans, stats. split_and!; [done..|]. destruct Hnew as [(f & e & Hf & (r & -> & Hr)%list_elem_of_fmap & Hsee & -> & Hmax)|[-> Hnone]]; [left|right].
    + exists f, r. apply sees_rec in Hsee; [|by eapply Hok]. rewrite answer_of_rec by (by eapply Hok). split_and!; [done..|].
      intros f' r' Hf' Hr' Hv'. rewrite <- (kseq_rec r), <- (kseq_rec r') by eauto. eapply Hmax; [done|by apply list_elem_of_fmap_2|]. rewrite sees_rec by eauto. done.
    + split; [done|]. intros f r Hf Hr Hv. eapply Hnone; [done|by apply list_elem_of_fmap_2|]. rewrite sees_rec by eauto. done.
Qed.

(** *** What does not matter to the invariant *)

Lemma inv_same d d' hist recs li lm : db_mem d' = db_mem d → db_im_mem d' = db_im_mem d → db_versions d' = db_versions d →
  db_record_writer d' = db_record_writer d → db_tables d' = db_tables d → db_inv d hist recs li lm → db_inv d' hist recs li lm.
Proof. intros H1 H2 H3 H4 H5 []. split; rewrite ?H1, ?H2, ?H3, ?H4, ?H5; done. Qed.

Lemma schedule_inv d hist recs li lm : db_inv d hist recs li lm → db_inv (maybe_schedule_compaction score_high d).2 hist recs li lm.
Proof. intros Hinv. unfold maybe_schedule_compaction. destruct (_ || _); [done|]. by eapply inv_same; [..|exact Hinv]. Qed.

(** Two records of the same file: only the counter of seeks may differ. *)
Definition same_file (f g : FileMetaData) : Prop := fm_number f = fm_number g ∧ fm_smallest f = fm_smallest g ∧ fm_largest f = fm_largest g.
Lemma same_file_ok f g : same_file f g → file_ok uok uord g → file_ok uok uord f.
Proof. intros (_ & Hs & Hl) []. split; by rewrite ?Hs, ?Hl. Qed.
Lemma file_inv_same ts f g l : same_file f g → file_inv ts g l → file_inv ts f l.
Proof. intros (Hn & Hs & Hl) []. split; by rewrite ?Hn, ?Hs, ?Hl. Qed.
Lemma file_inv_tables ts ts' f l : ts' !! fm_number f = ts !! fm_number f → file_inv ts f l → file_inv ts' f l.
Proof. intros Heq [Ht ? ? ?]. split; [by rewrite Heq|done..]. Qed.

Lemma same_files_refl ls : same_files ls ls.
Proof. split; [done|]. intros i x y Hx Hy. rewrite Hx in Hy. by injection Hy as ->. Qed.

(** The version may list the same files in another arrangement: on other levels, with
    other counters of seeks. *)
Lemma inv_rearranged d d' hist recs li lm : db_inv d hist recs li lm →
  db_mem d' = db_mem d → db_im_mem d' = db_im_mem d → db_record_writer d' = db_record_writer d →
  (∃ w, v_manifest_writer (db_versions d') = Some w ∧ writer_ok w) →
  live_inv uok uord (o_max_levels o) (db_versions d') (v_current (db_versions d')) →
  v_last_sequence (db_versions d') = v_last_sequence (db_versions d) → v_log_number (db_versions d') = v_log_number (db_versions d) →
  v_next_file_number (db_versions d') = v_next_file_number (db_versions d) →
  (∀ f, in_levels (v_current (db_versions d)) f → db_tables d' !! fm_number f = db_tables d !! fm_number f) →
  (∀ f, in_levels (v_current (db_versions d')) f → ∃ g, in_levels (v_current (db_versions d)) g ∧ same_file f g) →
  (∀ g, in_levels (v_current (db_versions d)) g → ∃ f, in_levels (v_current (db_versions d')) f ∧ fm_number f = fm_number g) →
  (∀ i j f g, at_level (v_current (db_versions d')) i f → at_level (v_current (db_versions d')) j g → fm_number f = fm_number g → i = j ∧ f = g) →
  files_nodup (v_current (db_versions d')) → db_inv d' hist recs li lm.
Proof.
  intros Hinv H1 H2 H3 Hman Hlive Hls Hlog Hnext Hts Hfrom Hto Huniq Hnd. destruct Hinv as [? ? ? _ _ ? ? Hfiles _ Hord Hold ? Hhist ? ? _].
  split; rewrite ?H1, ?H2, ?H3, ?Hls, ?Hlog, ?Hnext; try done.
  - intros f (g & Hg & Hs)%Hfrom. destruct (Hfiles g Hg) as [Hgi Hn]. destruct (Hs) as (-> & _). split; [|done].
    eapply file_inv_tables; [|eapply file_inv_same; [exact Hs|exact Hgi]]. destruct Hs as (-> & _). by apply Hts.
  - intros f f' a b (g & Hg & -> & _)%Hfrom (g' & Hg' & -> & _)%Hfrom. by apply Hord.
  - intros f a b (g & Hg & -> & _)%Hfrom. by apply Hold.
  - intros r. rewrite Hhist. do 2 f_equiv. split.
    + intros (g & Hg & Hr). destruct (Hto g Hg) as (f & Hf & Hn). exists f. by rewrite Hn.
    + intros (f & (g & Hg & Hn & _)%Hfrom & Hr). exists g. by rewrite <- Hn.
Qed.

(** Changing the counters of seeks. *)
Lemma fmap_at_level (h : FileMetaData → FileMetaData) ls i f' : at_level (fmap (M := list) h <$> ls) i f' ↔ ∃ f, f' = h f ∧ at_level ls i f.
Proof.
  unfold at_level. split.
  - intros (fs' & (fs & -> & Hfs)%list_lookup_fmap_Some & (f & -> & Hf)%list_elem_of_fmap). exists f. split; [done|]. by exists fs.
  - intros (f & -> & fs & Hfs & Hf). exists (h <$> fs). split; [by rewrite list_lookup_fmap, Hfs|by apply list_elem_of_fmap_2].
Qed.
Lemma counters_levels_ok (h : FileMetaData → FileMetaData) ls : (∀ f, same_file (h f) f) → levels_ok uok uord ls → levels_ok uok uord (fmap (M := list) h <$> ls).
Proof.
  intros Hh [Hf Hd]. split; intros level fs' (fs & -> & Hfs)%list_lookup_fmap_Some.
  - apply Forall_fmap. eapply Forall_impl; [exact (Hf level fs Hfs)|]. intros f. by apply same_file_ok.
  - intros Hne i j a b Hij (a' & -> & Ha)%list_lookup_fmap_Some (b' & -> & Hb)%list_lookup_fmap_Some.
    destruct (Hh a') as (_ & _ & ->). destruct (Hh b') as (_ & -> & _). exact (Hd level fs Hfs Hne i j a' b' Hij Ha Hb).
Qed.
Lemma counters_inv (h : FileMetaData → FileMetaData) d hist recs li lm : (∀ f, same_file (h f) f) → db_inv d hist recs li lm →
  db_inv (with_versions d (with_current (db_versions d) (fmap (M := list) h <$> v_current (db_versions d)))) hist recs li lm.
Proof.
  intros Hh Hinv. eapply inv_rearranged; [exact Hinv|..]; cbn [db_mem db_im_mem db_record_writer db_tables db_versions with_versions with_current v_current v_manifest_writer v_last_sequence v_log_number v_next_file_number]; try done.
  - apply Hinv.
  - destruct (di_live _ _ _ _ _ Hinv) as [? Hlv Hlen ?]. split; cbn [v_current with_current v_compaction_pointer]; [apply same_files_refl|by apply counters_levels_ok|by rewrite length_fmap|done].
  - intros f' (i & (f & -> & Hf)%fmap_at_level)%in_levels_at. exists f. split; [apply in_levels_at; by exists i|done].
  - intros g (i & Hg)%in_levels_at. exists (h g). split; [apply in_levels_at; exists i; apply fmap_at_level; eauto|by apply Hh].
  - intros i j f' g' (f & -> & Hf)%fmap_at_level (g & -> & Hg)%fmap_at_level. destruct (Hh f) as (-> & _). destruct (Hh g) as (-> & _). intros Heq.
    by destruct (di_unique _ _ _ _ _ Hinv i j f g Hf Hg Heq) as [-> ->].
  - intros i fs' (fs & -> & Hfs)%list_lookup_fmap_Some. rewrite <- list_fmap_compose.
    rewrite (list_fmap_ext (fm_number ∘ h) fm_number fs); [by eapply (di_nodup _ _ _ _ _ Hinv)|]. intros k f _. simpl. by destruct (Hh f).
Qed.
Lemma use_seek_same n f : same_file (use_seek n f) f.
Proof. unfold use_seek. by destruct (_ =? _). Qed.
Lemma seek_inv d hist recs li lm n : db_inv d hist recs li lm →
  db_inv (with_versions d (with_current (db_versions d) (fmap (M := list) (use_seek n) <$> v_current (db_versions d)))) hist recs li lm.
Proof. apply counters_inv. intros f. apply use_seek_same. Qed.
Lemma stats_inv d hist recs li lm stats : db_inv d hist recs li lm → db_inv (update_stats d stats).2 hist recs li lm.
Proof.
  intros Hinv. unfold update_stats. destruct stats as [ss|]; [|done]. apply (seek_inv _ _ _ _ _ (fm_number (ss_file ss))) in Hinv.
  destruct (_ && _); [|done]. by eapply inv_same; [..|exact Hinv].
Qed.

(** ** Reading *)

Lemma sample_inv d hist recs li lm ikey d' : db_inv d hist recs li lm → record_read_sample ucmp score_high ikey d = Ok d' → db_inv d' hist recs li lm.
Proof.
  intros Hinv. unfold record_read_sample. intros (stats & _ & Hd)%bind_Ok. pose proof (stats_inv d hist recs li lm stats Hinv) as Hs.
  destruct (update_stats d stats) as [compact d1]. simpl in Hs. destruct compact; injection Hd as <-; [by apply schedule_inv|done].
Qed.

Lemma memtable_get_ok m l u seq k : mem_rep uok uord m l → uok u → seq_ok seq → len u + 8 < 2 ^ 32 → lookup_key_new u seq = Ok k →
  ∃ res, memtable_get ucmp m k = Ok res ∧
    match res with
    | Some ans => ∃ r, r ∈ l ∧ visible uord u seq r ∧ (∀ r', r' ∈ l → visible uord u seq r' → r_seq r' ≤ r_seq r) ∧ ans = rec_answer r
    | None => ∀ r, r ∈ l → ¬ visible uord u seq r
    end.
Proof.
  intros Hm Hu Hs Hl Hk. destruct (mem_get_rep ucmp uok uord m l u seq k Hm Hu Hs Hl Hk) as (res & Hget & Hres). unfold memtable_get. rewrite Hget, Ok_bind.
  eexists. split; [done|]. destruct res as [x|]; [|done]. destruct Hres as (r & Hr & Hv & Hmax & ->). unfold answer.
  destruct (r_type r) eqn:E; exists r; unfold rec_answer; by rewrite E.
Qed.

(** Reading: the answer is that of the history, and the invariant stays. *)
Lemma db_get_ok d hist recs li lm snapshot u : db_inv d hist recs li lm → db_is_shutting_down d = false →
  uok u → len u + 8 < 2 ^ 32 → seq_ok (default (v_last_sequence (db_versions d)) snapshot) →
  ∃ d', db_get ucmp score_high snapshot u d = (Ok (abs_get uord hist u (default (v_last_sequence (db_versions d)) snapshot)), d') ∧ db_inv d' hist recs li lm.
Proof.
  intros Hinv Hsh Hu Hl Hs. set (seq := default (v_last_sequence (db_versions d)) snapshot) in *.
  destruct (version_answers d hist recs li lm u seq Hinv Hu Hs Hl) as (key & ans & stats & Hk & Hget & Hans).
  destruct (memtable_get_ok (db_mem d) lm u seq key (di_mem _ _ _ _ _ Hinv) Hu Hs Hl Hk) as (rm & Hm & Hrm).
  assert (∃ ri, match db_im_mem d with Some m => memtable_get ucmp m key | None => Ok None end = Ok ri ∧
    match ri with
    | Some ans => ∃ r, r ∈ li ∧ visible uord u seq r ∧ (∀ r', r' ∈ li → visible uord u seq r' → r_seq r' ≤ r_seq r) ∧ ans = rec_answer r
    | None => ∀ r, r ∈ li → ¬ visible uord u seq r
    end) as (ri & Hi & Hri).
  { pose proof (di_im _ _ _ _ _ Hinv) as Him. destruct (db_im_mem d) as [m|]; [by apply memtable_get_ok; [apply Him|..]|]. exists None. split; [done|].
    simpl in Him. subst li. by intros r ?%elem_of_nil. }
  pose proof (di_sorted _ _ _ _ _ Hinv) as Hsort.
  assert (∀ r, decides hist u seq r → abs_get uord hist u seq = rec_answer r) as Hdec.
  { intros r (? & ? & ?). by apply abs_get_newest. }
  unfold db_get. rewrite Hsh. fold seq. rewrite Hk, Ok_bind, Hm, Ok_bind. destruct rm as [a|].
  { destruct Hrm as (r & Hr & Hv & Hmax & ->). exists d. split; [|done]. cbn [update_stats]. rewrite (Hdec r); [done|]. split_and!; [apply (di_hist _ _ _ _ _ Hinv); auto|done|].
    intros r' [Hr'|[Hr'|(f & Hf & Hr')]]%(di_hist _ _ _ _ _ Hinv) Hv'; [by apply Hmax| |].
    - pose proof (di_im_old _ _ _ _ _ Hinv r r' Hr Hr') as Hn. unfold newer in Hn. lia.
    - pose proof (di_old _ _ _ _ _ Hinv f r r' Hf ltac:(apply elem_of_app; auto) Hr') as Hn. unfold newer in Hn. lia. }
  rewrite Hi, Ok_bind. destruct ri as [a|].
  { destruct Hri as (r & Hr & Hv & Hmax & ->). exists d. split; [|done]. cbn [update_stats]. rewrite (Hdec r); [done|]. split_and!; [apply (di_hist _ _ _ _ _ Hinv); auto|done|].
    intros r' [Hr'|[Hr'|(f & Hf & Hr')]]%(di_hist _ _ _ _ _ Hinv) Hv'; [by destruct (Hrm r')|by apply Hmax|].
    pose proof (di_old _ _ _ _ _ Hinv f r r' Hf ltac:(apply elem_of_app; auto) Hr') as Hn. unfold newer in Hn. lia. }
  rewrite Hget. pose proof (stats_inv _ _ _ _ _ stats Hinv) as Hst. destruct (update_stats d stats) as [found d1]. eexists. split.
  - f_equal. f_equal. destruct Hans as [(f & r & Hf & Hr & Hv & -> & Hmax)|[-> Hnone]].
    + symmetry. apply Hdec. split_and!; [apply (di_hist _ _ _ _ _ Hinv); eauto|done|].
      intros r' [Hr'|[Hr'|(f' & Hf' & Hr')]]%(di_hist _ _ _ _ _ Hinv) Hv'; [by destruct (Hrm r')|by destruct (Hri r')|by eapply Hmax].
    + symmetry. apply abs_get_none. intros r' [Hr'|[Hr'|(f' & Hf' & Hr')]]%(di_hist _ _ _ _ _ Hinv); [by apply Hrm|by apply Hri|by eapply Hnone].
  - simpl in Hst. destruct found; [by apply schedule_inv|done].
Qed.

(** ** Writing *)

Lemma commit_inv d hist recs li lm hs g signals ops n : db_inv d hist recs li lm → task_ops g ops → ops ≠ [] → Forall (op_ok uok) ops → heights_ok hs →
  v_last_sequence (db_versions d) + len ops ≤ MAX_KEY_SEQUENCE → 0 ≤ n → mem_room node_base (len ops + n) (db_mem d) →
  ∃ s' lm', commit_group ck node_base ucmp hs g signals (write_state d) = Ok ((λ x, (x, Ok tt)) <$> signals, s') ∧
    db_inv (with_write_state d s') (abs_write hist (v_last_sequence (db_versions d)) ops) recs li lm' ∧ mem_room node_base n (db_mem (with_write_state d s')) ∧
    lm' ≡ₚ op_recs (v_last_sequence (db_versions d) + 1) ops ++ lm ∧ ws_last_sequence s' = v_last_sequence (db_versions d) + len ops ∧
    ∃ w w' b E off, db_record_writer d = Some w ∧ ws_writer s' = Some w' ∧ wb_rep b (v_last_sequence (db_versions d) + 1) ops ∧
      log_frags (w_block_offset w) true (wb_contents b) E off ∧ wrote w w' E off.
Proof.
  intros Hinv Hg Hne Hops Hhs Hmax Hn Hroom. destruct (di_log _ _ _ _ _ Hinv) as (w & Hw & Hwok).
  assert (write_inv node_base uok uord (write_state d) lm (len ops + n)) as Hwi.
  { split; cbn [write_state ws_writer ws_mem ws_last_sequence]; [by exists w|apply Hinv|apply Hinv| |done].
    intros r Hr. apply (di_last _ _ _ _ _ Hinv), (di_hist _ _ _ _ _ Hinv). by left. }
  destruct (commit_group_ok ck node_base Hbase ucmp uok uord hs g signals (write_state d) w lm ops n Hwi)
    as (s' & lm' & w' & b & E & off & Hrun & Hwi' & Hp & Hlast & _ & Hw' & Hb & Hfr & Hwr); try done.
  cbn [write_state ws_last_sequence] in Hp, Hlast, Hb. exists s', lm'. split_and!; [done| |apply Hwi'|done|done|by exists w, w', b, E, off].
  assert (∀ r, r ∈ lm' ↔ r ∈ op_recs (v_last_sequence (db_versions d) + 1) ops ∨ r ∈ lm) as Hlm by (intros r; by rewrite Hp, elem_of_app).
  assert (∀ a b, a ∈ op_recs (v_last_sequence (db_versions d) + 1) ops → b ∈ hist → newer a b) as Hnew.
  { intros x y Hx%op_recs_seq Hy%(di_last _ _ _ _ _ Hinv). unfold newer. lia. }
  pose proof (di_hist _ _ _ _ _ Hinv) as Hhist. pose proof (len_nonneg ops) as Hlen.
  destruct Hinv as [? ? ? ? Hlive Hseq ? Hfiles Huniq Hord Hold Himold _ Hsort Hle Hnd].
  split; cbn [with_write_state with_error with_log with_mem with_versions db_mem db_im_mem db_versions db_record_writer db_tables v_current v_manifest_writer v_last_sequence v_log_number v_next_file_number with_counters]; try done.
  - apply Hwi'.
  - apply Hwi'.
  - destruct Hlive as [? ? ? ?]. by split.
  - rewrite Hlast. lia.
  - intros f x y Hf [Hx|[Hx|Hx]%Hlm]%elem_of_app Hy; [| |].
    + apply (Hold f); [done|apply elem_of_app; auto|done].
    + apply Hnew; [done|]. apply Hhist. eauto.
    + apply (Hold f); [done|apply elem_of_app; auto|done].
  - intros x y [Hx|Hx]%Hlm Hy; [apply Hnew; [done|]; apply Hhist; auto|by apply Himold].
  - intros r. rewrite elem_of_abs_write, Hhist, Hlm. tauto.
  - by apply abs_write_sorted.
  - intros r [Hr%op_recs_seq|Hr]%elem_of_abs_write; [lia|]. specialize (Hle r Hr). lia.
Qed.

(** ** Rotating the memtable *)

(** Options for which a new memtable can be created and a flush can choose its level. *)
Record options_ok : Prop := {
  oo_buffer : 8 * (o_write_buffer_size o / 8) < 2 ^ 62 ∧ 1 + node_base + 160 + 7 ≤ o_write_buffer_size o / 8 * 8;
  oo_levels : (o_max_mem_compact_level o < o_max_levels o)%nat ∧ Z.of_nat (o_max_levels o) < 2 ^ 32;
  oo_file_size : 0 ≤ 10 * o_max_file_size o < 2 ^ 64;
}.
Context (Ho : options_ok).

Lemma switch_inv d hist recs li lm f : db_inv d hist recs li lm → db_im_mem d = None → create_log (v_next_file_number (db_versions d)) = Ok f → f_ok f →
  v_next_file_number (db_versions d) + 1 < 2 ^ 64 →
  ∃ d', switch_memtable ck node_base o create_log score_high d = Ok d' ∧ db_inv d' hist recs lm [] ∧
    db_is_shutting_down d' = db_is_shutting_down d ∧ db_bg_error d' = db_bg_error d ∧ v_current (db_versions d') = v_current (db_versions d) ∧
    (db_mem d' = db_mem d ∧ lm = [] ∨ mem_new ck node_base (o_write_buffer_size o) = Ok (db_mem d')) ∧
    let v := db_versions d in db_record_writer d' = Some (mkWriter f 0 type_crcs) ∧
      db_versions d' = mkVset (v_next_file_number v + 1) (v_last_sequence v) (v_next_file_number v) (v_prev_log_number v) (v_manifest_file_number v) (v_manifest_writer v)
        (v_vnum v) (v_current v) (v_compaction_pointer v).
Proof.
  intros Hinv Him Hcr Hf Hnext. assert (li = []) as -> by (pose proof (di_im _ _ _ _ _ Hinv) as Hi; by rewrite Him in Hi).
  destruct (oo_buffer Ho) as [Hb1 Hb2]. destruct (mem_new_rep ck node_base Hbase uok uord (o_write_buffer_size o) Hb1 Hb2) as (m0 & Hnew & Hrep0 & _ & _).
  unfold switch_memtable. rewrite Hcr, Ok_bind, uadd_small, Ok_bind by done. cbv zeta. rewrite writer_new_eq, Ok_bind.
  cbn [db_mem with_log with_versions]. rewrite (mem_len_rep uok uord _ _ (di_mem _ _ _ _ _ Hinv)), Ok_bind.
  set (v := mkVset _ _ _ _ _ _ _ _ _). set (d1 := with_log (with_versions d v) _).
  assert (∀ mem im, mem_rep uok uord mem [] → im_rep im lm → db_inv (with_mem d1 mem im) hist recs lm []) as Hrot.
  { intros mem im Hmem Hi. destruct Hinv as [? ? ? ? Hlive ? ? Hfiles ? ? Hold ? Hhist ? ? ?].
    split; cbn [with_mem d1 with_log with_versions db_mem db_im_mem db_versions db_record_writer db_tables v v_manifest_writer v_current v_last_sequence v_log_number v_next_file_number]; try done.
    - eexists. split; [done|]. split_and!; cbn [w_dest w_crc_cache w_block_offset]; try done.
    - destruct Hlive as [? ? ? ?]. by split.
    - lia.
    - intros g Hg. destruct (Hfiles g Hg) as [? ?]. split; [done|lia].
    - intros g a b Hg Ha Hb. apply (Hold g a b); [done|by rewrite app_nil_r in Ha|done].
    - intros a b Ha. by apply elem_of_nil in Ha.
    - intros r. rewrite Hhist, !elem_of_nil. tauto. }
  assert (∀ d2 : DB, db_is_shutting_down (maybe_schedule_compaction score_high d2).2 = db_is_shutting_down d2 ∧ db_bg_error (maybe_schedule_compaction score_high d2).2 = db_bg_error d2 ∧
    db_versions (maybe_schedule_compaction score_high d2).2 = db_versions d2 ∧ db_mem (maybe_schedule_compaction score_high d2).2 = db_mem d2 ∧
    db_record_writer (maybe_schedule_compaction score_high d2).2 = db_record_writer d2) as Hsched.
  { intros d2. unfold maybe_schedule_compaction. by destruct (_ || _). }
  destruct (0 <? length lm)%nat eqn:Hlen.
  - rewrite Hnew, Ok_bind, Ok_bind. eexists. split; [done|]. split; [apply schedule_inv, Hrot; [done|]|].
    + split; [apply Hinv|]. apply Nat.ltb_lt in Hlen. by destruct lm; [simpl in Hlen; lia|].
    + destruct (Hsched (with_mem d1 m0 (Some (db_mem d)))) as (-> & -> & -> & -> & ->). split_and!; try done. by right.
  - apply Nat.ltb_ge in Hlen. assert (lm = []) as -> by (destruct lm; [done|simpl in Hlen; lia]). rewrite Ok_bind. eexists. split; [done|].
    split; [apply schedule_inv; eapply inv_same; [..|apply (Hrot (db_mem d) None (di_mem _ _ _ _ _ Hinv) eq_refl)]; done|].
    destruct (Hsched d1) as (-> & -> & -> & -> & ->). split_and!; try done. by left.
Qed.

(** ** Flushing *)

Lemma mem_rep_iter m l : mem_rep uok uord m l →
  sorted (iord uord) (rec_kv <$> l) ∧ Forall (rec_ok uok) l ∧ mem_iter_rep uok uord (mi_new m) (rec_kv <$> l) None.
Proof.
  intros (ps & INV & Heq & Hl). split_and!; [|done|exists l; split_and!; [done..|by exists ps]].
  intros i j a b Hij (ra & -> & Ha)%list_lookup_fmap_Some (rb & -> & Hb)%list_lookup_fmap_Some. exact (rec_sorted uok uord m ps l i j ra rb INV Heq Hl Hij Ha Hb).
Qed.

(** The edit of a flush: one new file, and the log that is current. *)
Definition flush_edit (level : nat) (log : Z) (g : FileMetaData) : VersionEdit :=
  set_log_number log (set_prev_log_number 0
    (add_file (Z.of_nat level) (fm_number g) (fm_file_size g) (fm_smallest g) (fm_largest g) (ve_new (Z.of_nat (o_max_levels o))))).

Lemma flush_edited level log g i fs : fm_allowed_seeks g = 0 →
  edited i fs (flush_edit level log g) = fs ++ (if decide (level = i) then [init_allowed_seeks g] else []).
Proof.
  intros Hg. unfold edited, flush_edit. cbn [set_log_number set_prev_log_number add_file ve_new ve_deleted_files ve_new_files app].
  rewrite filter_all; [|apply Forall_forall; intros f _; left; apply not_elem_of_empty]. f_equal. unfold added_at. rewrite filter_cons. cbn [fst].
  rewrite Nat2Z.id. case_decide; [|done]. destruct g; simpl in Hg. by subst.
Qed.

Lemma separated_snoc fs g : separated uord fs → (∀ f, f ∈ fs → apart uord g f) → separated uord (fs ++ [g]).
Proof.
  intros Hs Hg a b l' Hp. rewrite (comm (++) fs [g]) in Hp. cbn [app] in Hp.
  assert (apart uord g a → apart uord a g) as Hsym by (unfold apart; tauto).
  assert (g ∈ a :: b :: l') as [->|[->|Hin]%elem_of_cons]%elem_of_cons by (rewrite <- Hp; by left).
  - apply Permutation_cons_inv in Hp. apply Hg. rewrite Hp. by left.
  - rewrite (Permutation_swap b a) in Hp. apply Permutation_cons_inv in Hp. apply Hsym, Hg. rewrite Hp. by left.
  - apply elem_of_Permutation in Hin as [l'' Hl]. apply (Hs a b l''). rewrite Hl in Hp.
    assert (g :: fs ≡ₚ g :: a :: b :: l'') as Hp'; [|by apply Permutation_cons_inv in Hp'].
    rewrite Hp. symmetry. apply (Permutation_middle [a; b] l'' g).
Qed.
Lemma free_apart f g :
  overlaps uord (Some (ukey (ik_data (fm_smallest g)))) (Some (ukey (ik_data (fm_largest g)))) f = false → apart uord g f.
Proof.
  intros Hov. unfold overlaps in Hov. apply andb_false_iff in Hov as [Hov|Hov]; unfold not_after, not_before in Hov; apply bool_decide_eq_false in Hov.
  - right. unfold iord. destruct (uord _ _) eqn:E in Hov; [by destruct Hov| |by destruct Hov]. by rewrite E.
  - left. unfold iord. destruct (uord _ _) eqn:E in Hov; [by destruct Hov|by destruct Hov|]. apply (ord_gt_lt uord) in E. by rewrite E.
Qed.

Lemma flush_step_ok (v : VersionSet F) level g last_sequence : live_inv uok uord (o_max_levels o) v (v_current v) → (level < o_max_levels o)%nat →
  file_ok uok uord g → fm_allowed_seeks g = 0 → 0 < fm_file_size g < 2 ^ 64 →
  len (ik_data (fm_smallest g)) < 2 ^ 32 → len (ik_data (fm_largest g)) < 2 ^ 32 → in_uint 64 last_sequence →
  0 ≤ v_log_number v < v_next_file_number v → fm_number g = v_next_file_number v → v_next_file_number v + 2 < 2 ^ 64 →
  (level ≠ 0%nat → ∀ j, (j ≤ level)%nat → level_free uord (v_current v) (ukey (ik_data (fm_smallest g))) (ukey (ik_data (fm_largest g))) j) →
  step_ok uok uord (o_max_levels o) (v_current v) [] (v_log_number v) (v_next_file_number v + 1) last_sequence (flush_edit level (v_log_number v) g).
Proof.
  intros Hlive Hlv Hg Hseeks Hsize Hl1 Hl2 Hls Hlog Hnum Hnext Hfree. destruct (oo_levels Ho) as [_ Hml].
  assert (∀ k, ikey_ok uok (ik_data k) → len (ik_data k) < 2 ^ 32 → VersionEdit.key_ok k) as Hkey.
  { intros k [Hk _] Hkl. split; [|done]. intros Heq. rewrite Heq in Hk. simpl in Hk. lia. }
  split; cbn [flush_edit set_log_number set_prev_log_number add_file ve_new ve_max_levels ve_comparator_name ve_log_number ve_prev_log_number ve_new_files ve_compaction_pointers ve_deleted_files app].
  - lia.
  - done.
  - split; simpl; [constructor|by intros d Hd%elem_of_empty|]. repeat constructor. simpl. lia.
  - split; simpl; try done; try (intros n [= <-]); try (unfold in_uint; lia).
    constructor; [|constructor]. simpl. split; [split; simpl; lia|]. split_and!; [unfold in_uint; lia|unfold in_uint; lia|apply Hkey; [apply Hg|done]|apply Hkey; [apply Hg|done]].
  - done.
  - done.
  - intros t [= <-]. lia.
  - intros p [= <-]. lia.
  - constructor; [|constructor]. destruct g; simpl in *. by destruct Hg.
  - intros i fs Hfs Hi. change (separated uord (edited i fs (flush_edit level (v_log_number v) g))). rewrite flush_edited by done.
    pose proof (lo_disjoint _ _ _ (li_levels _ _ _ _ _ Hlive) i fs Hfs Hi) as Hd. pose proof (disjoint_separated uord fs Hd fs (reflexivity _)) as Hsep.
    case_decide as Heq; [subst i|by rewrite app_nil_r]. apply separated_snoc; [done|]. intros f Hf.
    apply (free_apart f (init_allowed_seeks g)). exact (Hfree Hi level ltac:(lia) fs f Hfs Hf).
  - intros x _. by apply not_elem_of_nil.
Qed.

(** The files after an edit. *)
Lemma edited_at new files e i f : same_files new (edit_all files e) → at_level new i f ↔ ∃ fs, files !! i = Some fs ∧ f ∈ edited i fs e.
Proof.
  intros [Hlen Hperm]. unfold edit_all in *. rewrite length_imap in Hlen.
  assert (∀ fs gs, new !! i = Some fs → files !! i = Some gs → fs ≡ₚ edited i gs e) as Hat.
  { intros fs gs Hfs Hgs. apply (Hperm i); [done|]. by rewrite list_lookup_imap, Hgs. }
  split.
  - intros (fs & Hfs & Hf). destruct (lookup_lt_is_Some_2 files i) as [gs Hgs]; [rewrite <- Hlen; by eapply lookup_lt_Some|].
    exists gs. split; [done|]. by rewrite <- (Hat fs gs Hfs Hgs).
  - intros (gs & Hgs & Hf). destruct (lookup_lt_is_Some_2 new i) as [fs Hfs]; [rewrite Hlen; by eapply lookup_lt_Some|].
    exists fs. split; [done|]. by rewrite (Hat fs gs Hfs Hgs).
Qed.
(** The files after a flush. *)
Lemma flush_levels new files level log g i f : same_files new (edit_all files (flush_edit level log g)) → fm_allowed_seeks g = 0 → (level < length files)%nat →
  at_level new i f ↔ at_level files i f ∨ i = level ∧ f = init_allowed_seeks g.
Proof.
  intros Hsame Hg Hlv. rewrite (edited_at new files _ i f Hsame). split.
  - intros (fs & Hfs & Hf). rewrite flush_edited, elem_of_app in Hf by done. destruct Hf as [Hf|Hf]; [left; by exists fs|right].
    case_decide; [by apply list_elem_of_singleton in Hf|by apply elem_of_nil in Hf].
  - intros [(fs & Hfs & Hf)|[-> ->]].
    + exists fs. split; [done|]. rewrite flush_edited, elem_of_app by done. by left.
    + destruct (lookup_lt_is_Some_2 files level) as [fs Hfs]; [done|]. exists fs. split; [done|]. rewrite flush_edited, elem_of_app, decide_True by done. right. by left.
Qed.

Lemma edited_nodup new files e : same_files new (edit_all files e) → (∀ i fs, files !! i = Some fs → NoDup (fm_number <$> edited i fs e)) → files_nodup new.
Proof.
  intros [Hlen Hperm] Hnd i fs Hfs. unfold edit_all in *. rewrite length_imap in Hlen.
  destruct (lookup_lt_is_Some_2 files i) as [gs Hgs]; [rewrite <- Hlen; by eapply lookup_lt_Some|].
  rewrite (Hperm i fs (edited i gs e)); [by apply Hnd|done|]. by rewrite list_lookup_imap, Hgs.
Qed.
Lemma numbers_snoc fs (g : FileMetaData) : NoDup (fm_number <$> fs) → (∀ f, f ∈ fs → fm_number f ≠ fm_number g) → NoDup (fm_number <$> (fs ++ [g])).
Proof.
  intros Hnd Hg. rewrite fmap_app. apply NoDup_app. split_and!; [done| |apply NoDup_singleton].
  intros n (f & -> & Hf)%list_elem_of_fmap Hin%list_elem_of_singleton. by apply (Hg f).
Qed.

(** A table whose number is pending or live is not deleted. *)
Lemma delete_keeps (v : VersionSet F) pending (ts : gmap Z B) files n : n ∈ pending →
  foldl (delete_one remove_file v pending) ts files !! n = ts !! n.
Proof.
  intros Hn. revert ts. induction files as [|file files IH]; intros ts; [done|]. cbn [foldl]. rewrite IH. unfold delete_one.
  destruct (parse_filename file) as [[t k]|]; [|done]. destruct (keep_file v pending t k) eqn:Hk; [done|]. destruct (remove_file file); try done.
  destruct (bool_decide (t = FTable)) eqn:Ht; [|done]. apply bool_decide_eq_true in Ht as ->. cbn [keep_file] in Hk. apply bool_decide_eq_false in Hk.
  rewrite lookup_delete_ne; [done|]. by intros ->.
Qed.
Lemma elem_of_live ls old f : in_levels ls f → fm_number f ∈ live_numbers (ls :: old).
Proof.
  intros (fs & Hfs & Hf). unfold live_numbers. rewrite elem_of_list_to_set. apply list_elem_of_fmap_2, list_elem_of_join. exists fs. split; [done|].
  apply list_elem_of_join. exists ls. split; [done|by left].
Qed.

Lemma flush_memtable_ok d hist recs li lm m : db_inv d hist recs li lm → db_im_mem d = Some m →
  v_next_file_number (db_versions d) + 1 < 2 ^ 64 → sizes_ok (v_current (db_versions d)) →
  ∃ b g level, let v := db_versions d in
    flush_memtable ck ucmp o remove_table m d =
      (Ok (add_file (Z.of_nat level) (fm_number g) (fm_file_size g) (fm_smallest g) (fm_largest g) (ve_new (Z.of_nat (o_max_levels o)))),
       with_tables (with_versions d (with_counters v (v_next_file_number v + 1) (v_last_sequence v))) (<[v_next_file_number v := b]> (db_tables d))) ∧
    fm_number g = v_next_file_number v ∧ fm_allowed_seeks g = 0 ∧ 0 < fm_file_size g < 2 ^ 64 ∧ (level < o_max_levels o)%nat ∧
    (level ≠ 0%nat → ∀ j, (j ≤ level)%nat → level_free uord (v_current v) (ukey (ik_data (fm_smallest g))) (ukey (ik_data (fm_largest g))) j) ∧
    file_inv (<[v_next_file_number v := b]> (db_tables d)) g li ∧ file_ok uok uord g ∧
    len (ik_data (fm_smallest g)) < 2 ^ 32 ∧ len (ik_data (fm_largest g)) < 2 ^ 32.
Proof.
  intros Hinv Him Hnext Hsz. pose proof (di_im _ _ _ _ _ Hinv) as Hi. rewrite Him in Hi. destruct Hi as [Hm Hne].
  destruct (mem_rep_iter m li Hm) as (Hs & Hok & Hit). pose proof (di_live _ _ _ _ _ Hinv) as Hlive. pose proof (li_length _ _ _ _ _ Hlive) as Hlen.
  destruct (head li) as [a|] eqn:Ha; [|by destruct li]. destruct (last li) as [z|] eqn:Hz; [|by apply last_None in Hz].
  assert (head (rec_kv <$> li) = Some (rec_kv a)) as Ha' by (destruct li; [done|]; by injection Ha as ->).
  assert (last (rec_kv <$> li) = Some (rec_kv z)) as Hz' by (by rewrite fmap_last, Hz).
  assert (Forall (λ e : entry, ikey_ok uok e.1) (rec_kv <$> li)) as Hik.
  { apply Forall_fmap. eapply Forall_impl; [exact Hok|]. intros r Hr. by destruct (rec_key_ok uok r Hr) as (_ & _ & ? & _). }
  destruct (write_level0_ok (IT := MemTableIterator_Iterator ucmp) ck ucmp uok uord (mem_target_ok uok) (mem_iter_rep uok uord) holds
    (λ b es b' H1 H2, proj1 (sink_sized b es b' H1 H2)) remove_table (o_max_mem_compact_level o) (o_max_file_size o) (v_current (db_versions d)) (rec_kv <$> li) (rec_kv a) (rec_kv z)
    (mi_new m) (v_next_file_number (db_versions d)) (ve_new (Z.of_nat (o_max_levels o))) [] (length li) true)
    as (b & size & level & Hrun & Hpos & Hb & Hlv & _ & Hfree & (b0 & Hb0 & Hfin & Hsize)); try done.
  { apply Hlive. } { rewrite Hlen. apply (oo_levels Ho). } { apply (oo_file_size Ho). } { by rewrite length_fmap. }
  rewrite Hlen in Hrun, Hlv. pose proof (sink_sized b0 _ b Hb0 Hfin) as Hsb.
  assert (rec_ok uok a ∧ rec_ok uok z) as [Hao Hzo].
  { rewrite Forall_forall in Hok. rewrite head_lookup in Ha. rewrite last_lookup in Hz. split; apply Hok; by eapply list_elem_of_lookup_2. }
  destruct (rec_key_ok uok a Hao) as (_ & _ & Hak & Hal). destruct (rec_key_ok uok z Hzo) as (_ & _ & Hzk & Hzl).
  exists b, (mkMeta 0 size (v_next_file_number (db_versions d)) (mkIKey (rec_ikey a)) (mkIKey (rec_ikey z))), level. cbv zeta.
  cbn [fm_number fm_allowed_seeks fm_file_size fm_smallest fm_largest ik_data]. split_and!; try done; try lia.
  - unfold flush_memtable. rewrite (mem_len_rep uok uord _ _ Hm), Hrun. done.
  - split; cbn [fm_number fm_smallest fm_largest]; [|done|done|by exists a, z]. exists b. by rewrite lookup_insert_eq.
  - split; cbn [fm_smallest fm_largest ik_data]; [done|done| |].
    + destruct (sorted_bounds _ (rec_kv a) (rec_kv z) (rec_kv z) Hs Ha' Hz') as [? _]; [|done]. rewrite last_lookup in Hz'. by eapply list_elem_of_lookup_2.
    + rewrite (kseq_rec z Hzo : kseq (rec_ikey z) = _). destruct Hzo as [_ [? ?] _ _ _]. done.
Qed.

Notation compact_mem_table := (compact_mem_table ck ucmp o set_iter create_manifest remove_manifest update_current remove_table remove_file).

(** The tables after a flush. *)
Definition recs_after (number : Z) (li : list mrec) (recs : Z → list mrec) : Z → list mrec := λ n, if decide (n = number) then li else recs n.

Lemma init_seeks_fields g : fm_number (init_allowed_seeks g) = fm_number g ∧ fm_smallest (init_allowed_seeks g) = fm_smallest g ∧ fm_largest (init_allowed_seeks g) = fm_largest g.
Proof. done. Qed.
Lemma file_inv_init ts g l : file_inv ts g l → file_inv ts (init_allowed_seeks g) l.
Proof. intros []. by split. Qed.
Lemma flushed_inv d hist recs li lm level g w ts : db_inv d hist recs li lm → (∃ wr, v_manifest_writer w = Some wr ∧ writer_ok wr) →
  live_inv uok uord (o_max_levels o) w (v_current w) → v_last_sequence w = v_last_sequence (db_versions d) → v_log_number w = v_log_number (db_versions d) →
  v_next_file_number w = v_next_file_number (db_versions d) + 1 → fm_number g = v_next_file_number (db_versions d) → file_inv ts g li →
  (∀ i f, at_level (v_current w) i f ↔ at_level (v_current (db_versions d)) i f ∨ i = level ∧ f = init_allowed_seeks g) →
  (∀ f, in_levels (v_current (db_versions d)) f → ts !! fm_number f = db_tables d !! fm_number f) → files_nodup (v_current w) →
  ∀ d', db_mem d' = db_mem d → db_im_mem d' = None → db_record_writer d' = db_record_writer d → db_versions d' = w → db_tables d' = ts →
  db_inv d' hist (recs_after (v_next_file_number (db_versions d)) li recs) [] lm.
Proof.
  intros Hinv Hman Hlive Hls Hlog Hnext Hnum Hgi Hat Hts Hnd d' H1 H2 H3 H4 H5. destruct (init_seeks_fields g) as (Hin & _). rewrite Hnum in Hin.
  assert (∀ f, in_levels (v_current w) f ↔ in_levels (v_current (db_versions d)) f ∨ f = init_allowed_seeks g) as Hlv.
  { intros f. rewrite !in_levels_at. split.
    - intros (i & [Hf|[_ ->]]%Hat); [left; by exists i|by right].
    - intros [(i & Hf)| ->]; [exists i|exists level]; apply Hat; auto. }
  assert (∀ f, in_levels (v_current (db_versions d)) f → recs_after (v_next_file_number (db_versions d)) li recs (fm_number f) = recs (fm_number f)) as Hrecs.
  { intros f Hf. unfold recs_after. rewrite decide_False; [done|]. destruct (di_files _ _ _ _ _ Hinv f Hf). lia. }
  assert (recs_after (v_next_file_number (db_versions d)) li recs (v_next_file_number (db_versions d)) = li) as Hnew by (unfold recs_after; by rewrite decide_True).
  assert (∀ f, in_levels (v_current (db_versions d)) f → fm_number f < v_next_file_number (db_versions d)) as Hlt by (intros f Hf; destruct (di_files _ _ _ _ _ Hinv f Hf); lia).
  pose proof (di_lognum _ _ _ _ _ Hinv) as Hlg.
  destruct Hinv as [? ? ? ? ? ? ? Hfiles Huniq Hord Hold Himold Hhist ? ? _]. split; rewrite ?H1, ?H2, ?H3, ?H4, ?H5, ?Hls, ?Hlog, ?Hnext; try done; [lia|..].
  - intros f [Hf| ->]%Hlv; [|rewrite Hin, Hnew; split; [by apply file_inv_init|lia]]. rewrite Hrecs by done. destruct (Hfiles f Hf). split; [|lia].
    eapply file_inv_tables; [|done]. by apply Hts.
  - intros i j f f' [Hf|[-> ->]]%Hat [Hf'|[-> ->]]%Hat; [by apply Huniq| | |done]; rewrite Hin; intros Heq.
    + specialize (Hlt f ltac:(apply in_levels_at; eauto)). lia.
    + specialize (Hlt f' ltac:(apply in_levels_at; eauto)). lia.
  - intros f f' a b [Hf| ->]%Hlv [Hf'| ->]%Hlv; rewrite ?Hin, ?Hnew, ?Hrecs by done.
    + by apply Hord.
    + specialize (Hlt f Hf). lia.
    + intros _ Ha Hb. apply (Hold f'); [done|apply elem_of_app; auto|done].
    + lia.
  - intros f a b [Hf| ->]%Hlv; rewrite ?Hin, ?Hnew, ?Hrecs by done; intros Ha Hb; [apply (Hold f); [done|apply elem_of_app; auto|done]|by apply Himold].
  - intros a b _ Hb. by apply elem_of_nil in Hb.
  - intros r. rewrite Hhist, elem_of_nil. split.
    + intros [Hr|[Hr|(f & Hf & Hr)]]; [by left|right; right..].
      * exists (init_allowed_seeks g). split; [apply Hlv; by right|by rewrite Hin, Hnew].
      * exists f. split; [apply Hlv; by left|by rewrite Hrecs].
    + intros [Hr|[[]|(f & [Hf| ->]%Hlv & Hr)]]; [by left| |].
      * right. right. exists f. split; [done|]. by rewrite Hrecs in Hr.
      * right. left. by rewrite Hin, Hnew in Hr.
Qed.

(** An edit was logged for the version set [v] with the next file number [next], and the
    log of the writes stays. *)
Definition logged (d : DB) (v : VersionSet F) (next : Z) (e : VersionEdit) (d' : DB) : Prop :=
  step_ok uok uord (o_max_levels o) (v_current v) [] (v_log_number v) next (v_last_sequence v) e ∧
  log_and_apply ck ucmp (o_max_levels o) set_iter create_manifest remove_manifest update_current (with_counters v next (v_last_sequence v)) e = (Ok tt, db_versions d') ∧
  db_record_writer d' = db_record_writer d.

Lemma flush_inv d hist recs li lm m files old : db_inv d hist recs li lm → db_im_mem d = Some m → db_is_shutting_down d = false →
  v_next_file_number (db_versions d) + 2 < 2 ^ 64 → v_vnum (db_versions d) + 1 < 2 ^ 64 → sizes_ok (v_current (db_versions d)) →
  ∃ d', compact_mem_table (Ok files) old d = (Ok tt, d') ∧ db_inv d' hist (recs_after (v_next_file_number (db_versions d)) li recs) [] lm ∧
    db_im_mem d' = None ∧ db_mem d' = db_mem d ∧ db_is_shutting_down d' = false ∧ db_bg_error d' = db_bg_error d ∧
    ∃ level g, let v := db_versions d in fm_number g = v_next_file_number v ∧ logged d v (v_next_file_number v + 1) (flush_edit level (v_log_number v) g) d' ∧
      ∀ i f, at_level (v_current (db_versions d')) i f ↔ at_level (v_current v) i f ∨ i = level ∧ f = init_allowed_seeks g.
Proof.
  intros Hinv Him Hsh Hnext Hvn Hsz. set (v := db_versions d) in *.
  destruct (flush_memtable_ok d hist recs li lm m Hinv Him) as (b & g & level & Hrun & Hnum & Hseeks & Hsize & Hlv & Hfree & Hgi & Hgo & Hl1 & Hl2); [fold v; lia|done|].
  fold v in Hrun, Hnum, Hfree, Hgi. pose proof (di_live _ _ _ _ _ Hinv) as Hlive. fold v in Hlive. pose proof (di_seq _ _ _ _ _ Hinv) as Hseq. fold v in Hseq. unfold MAX_KEY_SEQUENCE in Hseq.
  destruct (di_manifest _ _ _ _ _ Hinv) as (wm & Hwm & Hwmok). fold v in Hwm.
  assert (step_ok uok uord (o_max_levels o) (v_current v) [] (v_log_number v) (v_next_file_number v + 1) (v_last_sequence v) (flush_edit level (v_log_number v) g)) as Hstep.
  { apply flush_step_ok; try done; [unfold in_uint; lia|apply Hinv]. }
  destruct (log_step ck ucmp uok uord set_iter Hset (o_max_levels o) create_manifest remove_manifest update_current v (v_current v) [] _ _ _ wm None Hlive Hstep Hvn)
    as (w' & new & E & off & Hlog & _ & Hwr & Hlive'); [unfold open_manifest; cbn [v_manifest_writer with_pointers with_counters]; by rewrite Hwm|done|done|].
  set (v' := after_edit _ _ _ _ _ _) in Hlog, Hlive'.
  assert (∀ i f, at_level (v_current v') i f ↔ at_level (v_current v) i f ∨ i = level ∧ f = init_allowed_seeks g) as Hlevels.
  { intros i f. apply (flush_levels _ (v_current v) level (v_log_number v) g); [apply Hlive'|done|]. by rewrite (li_length _ _ _ _ _ Hlive). }
  assert (live_inv uok uord (o_max_levels o) v' (v_current v')) as Hlive2.
  { destruct Hlive' as [[Hlen Hsame] ? Hl ?]. split; [apply same_files_refl|done| |done]. by rewrite Hlen. }
  unfold Db.compact_mem_table. rewrite Him, Hrun. cbn [db_is_shutting_down with_tables with_versions]. rewrite Hsh.
  cbn [db_versions with_tables with_versions v_log_number with_counters]. change (set_log_number (v_log_number v) _) with (flush_edit level (v_log_number v) g).
  unfold log_and_apply'. rewrite Hlog. cbn [v_vnum with_counters].
  set (d1 := with_mem _ _ _). set (d2 := if bool_decide _ then _ else _).
  assert (db_mem d2 = db_mem d ∧ db_im_mem d2 = None ∧ db_record_writer d2 = db_record_writer d ∧ db_versions d2 = v' ∧
    db_tables d2 = <[v_next_file_number v := b]> (db_tables d) ∧ db_is_shutting_down d2 = false ∧ db_bg_error d2 = db_bg_error d) as (Hm2 & Hi2 & Hr2 & Hv2 & Ht2 & Hs2 & He2).
  { unfold d2. by destruct (bool_decide _). }
  clearbody d2. unfold delete_obsolete_files. rewrite Hv2, Ht2. eexists. split; [done|]. cbn [with_pending with_tables db_im_mem db_mem db_is_shutting_down db_bg_error].
  split_and!; try done; [|exists level, g; unfold logged; cbn [with_pending with_tables db_versions db_record_writer]; rewrite Hv2; by split_and!]. set (pending := db_pending_outputs d2 ∪ live_numbers (v_current v' :: old)).
  assert (∀ f, in_levels (v_current v') f → fm_number f ∈ pending) as Hpend by (intros f Hf; apply elem_of_union_r; by apply elem_of_live).
  apply (flushed_inv d hist recs li lm level g v' (foldl (delete_one remove_file v' pending) (<[v_next_file_number v := b]> (db_tables d)) files)); try done.
  - by exists w'; split; [|apply Hwr].
  - eapply file_inv_tables; [|exact Hgi]. apply delete_keeps. apply (Hpend (init_allowed_seeks g)), in_levels_at. exists level. apply Hlevels. by right.
  - intros f Hf. rewrite delete_keeps; [|apply in_levels_at in Hf as [i Hi]; apply Hpend, in_levels_at; exists i; apply Hlevels; by left].
    apply lookup_insert_ne. destruct (di_files _ _ _ _ _ Hinv f Hf) as [_ ?]. fold v in H1. lia.
  - apply (edited_nodup _ (v_current v) (flush_edit level (v_log_number v) g)); [apply Hlive'|]. intros i fs Hfs. rewrite flush_edited by done.
    pose proof (di_nodup _ _ _ _ _ Hinv i fs Hfs) as Hnd. case_decide; [|by rewrite app_nil_r]. apply numbers_snoc; [done|]. intros f Hf.
    destruct (di_files _ _ _ _ _ Hinv f) as [_ Hlt]; [apply in_levels_at; by exists i, fs|]. fold v in Hlt. cbn [init_allowed_seeks fm_number]. lia.
Qed.

(** ** Deleting files and moving a file to the next level *)

Lemma delete_inv listing old d hist recs li lm : db_inv d hist recs li lm → db_inv (delete_obsolete_files remove_file listing old d).2 hist recs li lm.
Proof.
  intros Hinv. unfold delete_obsolete_files. destruct listing as [files| | |]; simpl; [|by eapply inv_same; [..|exact Hinv]|done|done].
  eapply inv_rearranged; [exact Hinv|..]; cbn [with_pending with_tables db_mem db_im_mem db_record_writer db_versions db_tables]; try done; try apply Hinv.
  - intros f Hf. apply delete_keeps, elem_of_union_r. by apply elem_of_live.
  - intros f Hf. by exists f.
  - intros f Hf. by exists f.
Qed.

Lemma separated_filter (P : FileMetaData → Prop) `{!∀ x, Decision (P x)} fs : separated uord fs → separated uord (filter P fs).
Proof.
  intros Hs a b l Hp. apply (Hs a b (l ++ filter (λ x, ¬ P x) fs)). rewrite <- (filter_app_complement P fs) at 1. by rewrite Hp.
Qed.

Section Move.
Context (c : Compaction B) (f : FileMetaData).
Hypothesis Hedit : cp_edit c = push_pointer_edit (Z.of_nat (cp_level c), fm_largest f) (ve_new (Z.of_nat (o_max_levels o))).

(** The file on its new level. *)
Definition moved_file : FileMetaData := init_allowed_seeks (mkMeta 0 (fm_file_size f) (fm_number f) (fm_smallest f) (fm_largest f)).
Lemma moved_same : same_file moved_file f.
Proof. done. Qed.

Lemma move_edited i fs : edited i fs (move_edit c f) =
  filter (λ x, ¬ (i = cp_level c ∧ fm_number x = fm_number f)) fs ++ (if decide (i = S (cp_level c)) then [moved_file] else []).
Proof.
  unfold edited, move_edit. rewrite Hedit.
  cbn [add_file delete_file push_pointer_edit ve_new ve_deleted_files ve_new_files ve_max_levels app]. rewrite (right_id_L ∅ (∪)), elements_singleton.
  assert (added_at i [(Z.of_nat (cp_level c) + 1, mkMeta 0 (fm_file_size f) (fm_number f) (fm_smallest f) (fm_largest f))] =
    if decide (i = S (cp_level c)) then [moved_file] else []) as ->.
  { unfold added_at. rewrite filter_cons. cbn [fst]. replace (Z.to_nat (Z.of_nat (cp_level c) + 1)) with (S (cp_level c)) by lia. repeat case_decide; congruence || done. }
  f_equal. apply filter_ext_in. intros x Hx. unfold deleted_at. rewrite filter_cons. cbn [fst]. rewrite Nat2Z.id. case_decide as H1; simpl.
  - rewrite decide_False by lia. set_solver.
  - split; [intros _ [? _]; congruence|intros _; left; set_solver].
Qed.

Lemma move_step_ok (v : VersionSet F) : live_inv uok uord (o_max_levels o) v (v_current v) → at_level (v_current v) (cp_level c) f →
  (S (cp_level c) < o_max_levels o)%nat → 0 ≤ fm_number f < 2 ^ 64 → 0 ≤ fm_file_size f < 2 ^ 64 →
  len (ik_data (fm_smallest f)) < 2 ^ 32 → len (ik_data (fm_largest f)) < 2 ^ 32 → in_uint 64 (v_last_sequence v) → 0 ≤ v_next_file_number v → v_next_file_number v + 1 < 2 ^ 64 →
  (∀ fs g, v_current v !! S (cp_level c) = Some fs → g ∈ fs →
    overlaps uord (Some (ukey (ik_data (fm_smallest f)))) (Some (ukey (ik_data (fm_largest f)))) g = false) →
  step_ok uok uord (o_max_levels o) (v_current v) [] (v_log_number v) (v_next_file_number v) (v_last_sequence v) (move_edit c f).
Proof.
  intros Hlive (fs0 & Hfs0 & Hf0) Hlv Hn Hsz Hl1 Hl2 Hls Hn0 Hn1 Hfree. destruct (oo_levels Ho) as [_ Hml].
  pose proof (lo_files _ _ _ (li_levels _ _ _ _ _ Hlive) _ _ Hfs0) as Hfo. rewrite Forall_forall in Hfo. specialize (Hfo f Hf0).
  assert (∀ k, ikey_ok uok (ik_data k) → len (ik_data k) < 2 ^ 32 → VersionEdit.key_ok k) as Hkey.
  { intros k [Hk _] Hkl. split; [|done]. intros Heq. rewrite Heq in Hk. simpl in Hk. lia. }
  pose proof (Hkey _ (fo_smallest _ _ _ Hfo) Hl1) as Hk1. pose proof (Hkey _ (fo_largest _ _ _ Hfo) Hl2) as Hk2.
  split; unfold move_edit; rewrite ?Hedit; cbn [add_file delete_file push_pointer_edit ve_new ve_max_levels ve_comparator_name ve_log_number ve_prev_log_number ve_new_files ve_compaction_pointers ve_deleted_files app]; try done.
  - split; cbn [ve_compaction_pointers ve_deleted_files ve_new_files]; [repeat constructor; simpl; lia| |repeat constructor; simpl; lia].
    intros d [->%elem_of_singleton|Hd]%elem_of_union; [simpl; lia|by apply elem_of_empty in Hd].
  - split; cbn [add_file delete_file push_pointer_edit ve_new ve_max_levels ve_comparator_name ve_log_number ve_prev_log_number ve_next_file_number ve_last_sequence ve_compaction_pointers ve_deleted_files ve_new_files app]; try done.
    + unfold in_uint. lia.
    + constructor; [|constructor]. simpl. split; [split; simpl; lia|done].
    + intros d [->%elem_of_singleton|Hd]%elem_of_union; [simpl; split; [split; simpl; lia|unfold in_uint; lia]|by apply elem_of_empty in Hd].
    + constructor; [|constructor]. simpl. split; [split; simpl; lia|]. split_and!; [unfold in_uint; lia|unfold in_uint; lia|done|done].
  - constructor; [|constructor]. simpl. by destruct Hfo.
  - intros i fs Hfs Hi. pose proof (move_edited i fs) as Hme. unfold move_edit in Hme. rewrite Hedit in Hme. rewrite Hme.
    pose proof (lo_disjoint _ _ _ (li_levels _ _ _ _ _ Hlive) i fs Hfs Hi) as Hd. pose proof (disjoint_separated uord fs Hd fs (reflexivity _)) as Hsep.
    case_decide as Heq; [subst i|rewrite app_nil_r; by apply separated_filter]. apply separated_snoc; [by apply separated_filter|].
    intros g [_ Hg]%list_elem_of_filter. apply free_apart. exact (Hfree fs g Hfs Hg).
  - intros x _. by apply not_elem_of_nil.
Qed.

(** The files after the move. *)
Lemma move_levels new files i x : same_files new (edit_all files (move_edit c f)) → (S (cp_level c) < length files)%nat →
  at_level new i x ↔ at_level files i x ∧ ¬ (i = cp_level c ∧ fm_number x = fm_number f) ∨ i = S (cp_level c) ∧ x = moved_file.
Proof.
  intros Hsame Hlv. rewrite (edited_at new files _ i x Hsame). split.
  - intros (fs & Hfs & Hx). rewrite move_edited, elem_of_app in Hx. destruct Hx as [[Hn Hx]%list_elem_of_filter|Hx]; [left; split; [by exists fs|done]|right].
    case_decide; [by apply list_elem_of_singleton in Hx|by apply elem_of_nil in Hx].
  - intros [[(fs & Hfs & Hx) Hn]|[-> ->]].
    + exists fs. split; [done|]. rewrite move_edited, elem_of_app. left. by apply list_elem_of_filter.
    + destruct (lookup_lt_is_Some_2 files (S (cp_level c)) Hlv) as [fs Hfs]. exists fs. split; [done|]. rewrite move_edited, elem_of_app, decide_True by done. right. by left.
Qed.
End Move.

Lemma sizes_member fs f : Forall (λ f, 0 ≤ fm_file_size f) fs → f ∈ fs → fm_file_size f ≤ sizes fs.
Proof.
  intros Hs Hf. induction Hs as [|g fs Hg Hs IH]; [by apply elem_of_nil in Hf|]. pose proof (sizes_nonneg _ Hs). simpl.
  apply elem_of_cons in Hf as [->|Hf]; [lia|]. specialize (IH Hf). lia.
Qed.
Lemma is_trivial_inv (c : Compaction B) : is_trivial_move ck (o_max_file_size o) c = Ok true → ∃ f, ci_base (cp_inputs c) = [f] ∧ ci_parent (cp_inputs c) = [].
Proof.
  unfold is_trivial_move. destruct (length _ =? 1)%nat eqn:E; [|done]. apply Nat.eqb_eq in E. simpl. case_bool_decide as Hp; [|done]. intros _.
  destruct (ci_base (cp_inputs c)) as [|f [|]]; try done. by exists f.
Qed.

Lemma no_overlap files level f : levels_ok uok uord files → level ≠ 0%nat → file_ok uok uord f →
  get_overlapping_inputs ucmp files level (Some (fm_smallest f)) (Some (fm_largest f)) = Ok [] →
  ∃ fs, files !! level = Some fs ∧ ∀ g, g ∈ fs → overlaps uord (Some (ukey (ik_data (fm_smallest f)))) (Some (ukey (ik_data (fm_largest f)))) g = false.
Proof.
  intros Hlv Hl Hf. pose proof (fo_smallest _ _ _ Hf) as Hs. pose proof (fo_largest _ _ _ Hf) as Ht. unfold get_overlapping_inputs.
  rewrite (user_key_ok uok _ Hs), (user_key_ok uok _ Ht), !Ok_bind. unfold index.
  destruct (files !! level) as [fs|] eqn:E; [|done]. rewrite Ok_bind, (overlapping_loop_n ucmp uok uord).
  - intros [= Hnil]. exists fs. split; [done|]. intros g Hg. apply not_true_is_false. intros Hov.
    assert (g ∈ filter (λ f0, overlaps uord (Some (ukey (ik_data (fm_smallest f)))) (Some (ukey (ik_data (fm_largest f)))) f0 = true) fs) as Hin by (by apply list_elem_of_filter).
    rewrite Hnil in Hin. by apply elem_of_nil in Hin.
  - done.
  - exact (lo_files _ _ _ Hlv level fs E).
  - apply Hs.
  - apply Ht.
Qed.

(** The oldest and newest keys of a file are short. *)
Lemma inv_key_lengths d hist recs li lm f : db_inv d hist recs li lm → in_levels (v_current (db_versions d)) f →
  len (ik_data (fm_smallest f)) < 2 ^ 32 ∧ len (ik_data (fm_largest f)) < 2 ^ 32.
Proof.
  intros Hinv Hf. destruct (di_files _ _ _ _ _ Hinv f Hf) as [[_ _ Hok (a & z & Ha & Hz & -> & ->)] _]. rewrite Forall_forall in Hok.
  rewrite head_lookup in Ha. rewrite last_lookup in Hz. split; [destruct (rec_key_ok uok a) as (_ & _ & _ & ?)|destruct (rec_key_ok uok z) as (_ & _ & _ & ?)]; try done;
    apply Hok; by eapply list_elem_of_lookup_2.
Qed.

Context {I : Type} {IT : Iterator I} (size_level : list (list FileMetaData) → option nat) (new_input_iterator : Compaction B → gmap Z B → outcome I).
Notation trivial_move := (trivial_move ck ucmp o set_iter create_manifest remove_manifest update_current remove_file).

(** A trivial move of a file of the level keeps the invariant. *)
Lemma move_inv d hist recs li lm listing old c ps f : db_inv d hist recs li lm →
  pick_compaction ck ucmp (o_max_levels o) (o_max_file_size o) (version_state size_level d) (v_compaction_pointer (db_versions d)) = Ok (PickedSome c ps) →
  ci_base (cp_inputs c) = [f] → ci_parent (cp_inputs c) = [] → at_level (v_current (db_versions d)) (cp_level c) f →
  v_next_file_number (db_versions d) + 1 < 2 ^ 64 → v_vnum (db_versions d) + 1 < 2 ^ 64 → sizes_ok (v_current (db_versions d)) →
  ∃ d', trivial_move listing old c (set_pointers_db d ps) = (Ok (Ok tt), d') ∧ db_inv d' hist recs li lm ∧
    at_level (v_current (db_versions d')) (S (cp_level c)) (moved_file f) ∧
    db_mem d' = db_mem d ∧ db_im_mem d' = db_im_mem d ∧ db_is_shutting_down d' = db_is_shutting_down d ∧ db_bg_error d' = db_bg_error d ∧
    length ps = length (v_compaction_pointer (db_versions d)) ∧ (S (cp_level c) < o_max_levels o)%nat ∧
    logged d (with_pointers (db_versions d) ps) (v_next_file_number (db_versions d)) (move_edit c f) d' ∧ cp_edit c = push_pointer_edit (Z.of_nat (cp_level c), fm_largest f) (ve_new (Z.of_nat (o_max_levels o))) ∧
    ∀ i x, at_level (v_current (db_versions d')) i x ↔ at_level (v_current (db_versions d)) i x ∧ ¬ (i = cp_level c ∧ fm_number x = fm_number f) ∨ i = S (cp_level c) ∧ x = moved_file f.
Proof.
  intros Hinv Hpick Hone Hparent Hat Hn1 Hvn Hsz. set (v := db_versions d) in *.
  destruct (pick_trivial _ _ _ _ _ _ _ _ f Hpick Hone Hparent) as (Hov & Hedit & Hps). cbn [vs_files version_state] in Hov. fold v in Hov.
  pose proof (di_live _ _ _ _ _ Hinv) as Hlive. fold v in Hlive. assert (in_levels (v_current v) f) as Hin by (apply in_levels_at; eauto).
  destruct (Hat) as (fs0 & Hfs0 & Hf0). pose proof (lo_files _ _ _ (li_levels _ _ _ _ _ Hlive) _ _ Hfs0) as Hfo. rewrite Forall_forall in Hfo. specialize (Hfo f Hf0).
  replace (cp_level c + 1)%nat with (S (cp_level c)) in Hov by lia.
  destruct (no_overlap _ _ _ (li_levels _ _ _ _ _ Hlive) (Nat.neq_succ_0 _) Hfo Hov) as (fs1 & Hfs1 & Hfree).
  pose proof (lookup_lt_Some _ _ _ Hfs1) as Hlt. rewrite (li_length _ _ _ _ _ Hlive) in Hlt.
  destruct (di_files _ _ _ _ _ Hinv f Hin) as [_ Hnum]. fold v in Hnum. destruct (inv_key_lengths d hist recs li lm f Hinv Hin) as [Hl1 Hl2].
  pose proof (di_seq _ _ _ _ _ Hinv) as Hseq. fold v in Hseq. unfold MAX_KEY_SEQUENCE in Hseq.
  destruct (Hsz _ _ Hfs0) as [Hs1 Hs2]. assert (0 ≤ fm_file_size f < 2 ^ 64) as Hfsz.
  { rewrite Forall_forall in Hs1. split; [by apply Hs1|]. pose proof (sizes_member fs0 f ltac:(by apply Forall_forall) Hf0). lia. }
  set (v0 := with_pointers v ps).
  assert (live_inv uok uord (o_max_levels o) v0 (v_current v0)) as Hlive0.
  { destruct Hlive as [? ? ? Hp]. split; try done. unfold v0. cbn [v_compaction_pointer with_pointers]. by rewrite Hps, length_insert. }
  pose proof (move_step_ok c f Hedit v0 Hlive0 Hat Hlt ltac:(lia) Hfsz Hl1 Hl2 ltac:(unfold in_uint; simpl; lia) ltac:(simpl; lia) Hn1) as Hstep.
  specialize (Hstep ltac:(intros fs g Hfs Hg; simpl in Hfs; rewrite Hfs1 in Hfs; injection Hfs as <-; by apply Hfree)).
  destruct (di_manifest _ _ _ _ _ Hinv) as (wm & Hwm & Hwmok). fold v in Hwm.
  destruct (log_step ck ucmp uok uord set_iter Hset (o_max_levels o) create_manifest remove_manifest update_current v0 (v_current v0) [] _ _ _ wm None Hlive0 Hstep Hvn)
    as (w' & new & E & off & Hlog & _ & Hwr & Hlive'); [unfold open_manifest; cbn [v_manifest_writer with_pointers with_counters v0]; by rewrite Hwm|done|done|].
  change (with_counters v0 (v_next_file_number v0) (v_last_sequence v0)) with v0 in Hlog.
  set (v' := after_edit _ _ _ _ _ _) in Hlog, Hlive'.
  assert (∀ i x, at_level (v_current v') i x ↔ at_level (v_current v) i x ∧ ¬ (i = cp_level c ∧ fm_number x = fm_number f) ∨ i = S (cp_level c) ∧ x = moved_file f) as Hlevels.
  { intros i x. apply (move_levels c f Hedit); [apply Hlive'|]. by rewrite (li_length _ _ _ _ _ Hlive). }
  assert (live_inv uok uord (o_max_levels o) v' (v_current v')) as Hlive2.
  { destruct Hlive' as [[Hlen Hsame] ? Hl ?]. split; [apply same_files_refl|done| |done]. by rewrite Hlen. }
  unfold Background.trivial_move. rewrite Hone. unfold install_edit. cbn [set_pointers_db db_versions with_versions]. fold v. fold v0. unfold log_and_apply'. rewrite Hlog.
  set (d2 := if bool_decide _ then _ else _).
  assert (db_mem d2 = db_mem d ∧ db_im_mem d2 = db_im_mem d ∧ db_record_writer d2 = db_record_writer d ∧ db_versions d2 = v' ∧ db_tables d2 = db_tables d ∧
    db_is_shutting_down d2 = db_is_shutting_down d ∧ db_bg_error d2 = db_bg_error d) as (Hm2 & Hi2 & Hr2 & Hv2 & Ht2 & Hs3 & Hb2).
  { unfold d2. by destruct (bool_decide _). }
  clearbody d2. eexists. split; [done|].
  assert (∀ d3 : DB, let d4 := (delete_obsolete_files remove_file listing old d3).2 in db_versions d4 = db_versions d3 ∧ db_mem d4 = db_mem d3 ∧ db_im_mem d4 = db_im_mem d3 ∧
    db_is_shutting_down d4 = db_is_shutting_down d3 ∧ db_bg_error d4 = db_bg_error d3 ∧ db_record_writer d4 = db_record_writer d3) as Hdel by (intros d3; unfold delete_obsolete_files; by destruct listing).
  destruct (Hdel d2) as (Hdv & -> & -> & -> & -> & Hdw). unfold logged. rewrite Hdv, Hdw. split_and!; try congruence; try done; rewrite ?Hv2; try done; [|apply Hlevels; by right|by rewrite Hps, length_insert].
  apply delete_inv. eapply inv_rearranged; [exact Hinv|done|done|done|..]; rewrite ?Hv2, ?Ht2; fold v; try done.
  - exists w'. split; [done|apply Hwr].
  - unfold v'. cbn [after_edit v_log_number]. unfold move_edit. by rewrite Hedit.
  - intros x (i & [[Hx _]|[_ ->]]%Hlevels)%in_levels_at; [exists x; split; [apply in_levels_at; eauto|done]|by exists f].
  - intros g (i & Hg)%in_levels_at. destruct (decide (fm_number g = fm_number f)) as [Heq|Hne].
    + exists (moved_file f). split; [apply in_levels_at; exists (S (cp_level c)); apply Hlevels; by right|done].
    + exists g. split; [|done]. apply in_levels_at. exists i. apply Hlevels. left. split; [done|tauto].
  - intros i j x y [[Hx Hnx]|[-> ->]]%Hlevels [[Hy Hny]|[-> ->]]%Hlevels Heq; [by apply (di_unique _ _ _ _ _ Hinv)| | |done].
    + destruct (di_unique _ _ _ _ _ Hinv i (cp_level c) x f Hx Hat Heq) as [-> ->]. by destruct Hnx.
    + destruct (di_unique _ _ _ _ _ Hinv j (cp_level c) y f Hy Hat ltac:(by symmetry)) as [-> ->]. by destruct Hny.
  - apply (edited_nodup _ (v_current v) (move_edit c f)); [apply Hlive'|]. intros i fs Hfs. rewrite (move_edited c f Hedit).
    pose proof (di_nodup _ _ _ _ _ Hinv i fs Hfs) as Hnd.
    assert (∀ (P : FileMetaData → Prop) `{!∀ x, Decision (P x)}, NoDup (fm_number <$> filter P fs)) as Hfil.
    { intros P ?. clear -Hnd. induction fs as [|x fs IH]; [done|]. rewrite fmap_cons in Hnd. apply NoDup_cons in Hnd as [Hx Hnd].
      rewrite filter_cons. case_decide; [|by apply IH]. rewrite fmap_cons. apply NoDup_cons. split; [|by apply IH].
      intros (y & Heq & [_ Hy]%list_elem_of_filter)%list_elem_of_fmap. apply Hx. rewrite Heq. by apply list_elem_of_fmap_2. }
    case_decide as Hi; [|rewrite app_nil_r; apply Hfil]. apply numbers_snoc; [apply Hfil|]. intros x [_ Hx]%list_elem_of_filter Heq.
    destruct (di_unique _ _ _ _ _ Hinv i (cp_level c) x f) as [? _]; [by exists fs|done|done|lia].
Qed.


(** ** A turn of the compaction thread that merges no tables *)
Notation background_compaction := (background_compaction ck ucmp o set_iter create_manifest remove_manifest update_current remove_table remove_file size_level new_input_iterator).

(** No memtable is to be flushed, and what is compacted, if anything, is a trivial move of
    a file of the level that the compaction names. *)
Definition quiet_turn (d : DB) : Prop :=
  db_im_mem d = None ∧
  match choose_compaction ck ucmp o size_level d with
  | Ok (Some (c, _), is_manual, _, _) =>
    is_manual = false ∧ is_trivial_move ck (o_max_file_size o) c = Ok true ∧ ∀ f, f ∈ ci_base (cp_inputs c) → at_level (v_current (db_versions d)) (cp_level c) f
  | _ => True
  end.

Lemma pointers_inv d hist recs li lm ps : length ps = length (v_compaction_pointer (db_versions d)) → db_inv d hist recs li lm → db_inv (set_pointers_db d ps) hist recs li lm.
Proof.
  intros Hlen Hinv. eapply inv_rearranged; [exact Hinv|..]; cbn [set_pointers_db with_versions with_pointers db_mem db_im_mem db_record_writer db_versions db_tables v_current v_manifest_writer v_last_sequence v_log_number v_next_file_number]; try done; try apply Hinv.
  - destruct (di_live _ _ _ _ _ Hinv) as [? ? ? Hp]. split; try done. cbn [v_compaction_pointer with_pointers]. by rewrite Hlen.
  - intros f Hf. by exists f.
  - intros f Hf. by exists f.
Qed.

Lemma background_inv d hist recs li lm fuel failed_next listing old snapshots r snapshots' d' : db_inv d hist recs li lm → quiet_turn d →
  v_next_file_number (db_versions d) + 1 < 2 ^ 64 → v_vnum (db_versions d) + 1 < 2 ^ 64 → sizes_ok (v_current (db_versions d)) →
  background_compaction fuel failed_next listing old snapshots d = (r, snapshots', d') → db_inv d' hist recs li lm.
Proof.
  intros Hinv [Him Hquiet] Hn Hv Hsz. unfold Background.background_compaction. rewrite bool_decide_false by (rewrite Him; by intros []).
  unfold choose_compaction in *. destruct (db_manual_queue d) as [|m q].
  - destruct (pick_compaction _ _ _ _ _ _) as [[c ps|reset ps]| | |] eqn:Hp; rewrite ?Ok_bind in *; try (intros [= _ _ <-]; done).
    + destruct Hquiet as (_ & Ht & Hat). rewrite Ht. destruct (is_trivial_inv c Ht) as (f & Hf & Hpar).
      destruct (move_inv d hist recs li lm listing old c ps f Hinv Hp Hf Hpar) as (d2 & -> & Hinv' & _); [apply Hat; rewrite Hf; by left|done..|]. by intros [= _ _ <-].
    + intros [= _ _ <-]. apply counters_inv; [|apply pointers_inv; [by eapply pick_none_pointers|done]]. intros f. unfold reset_file. by destruct (bool_decide _).
  - destruct (compact_range _ _ _ _ _ _ _ _ _) as [[[c ps]|]| | |] eqn:Hp; rewrite ?Ok_bind in *; try (intros [= _ _ <-]; done).
    + by destruct Hquiet as [? _].
    + intros [= _ _ <-]. by eapply inv_same; [..|exact Hinv].
Qed.

(** ** Reachable states *)

(** A new database: nothing in the memtable, no file in the current version. *)
Record db_fresh (d : DB) : Prop := {
  df_mem : mem_rep uok uord (db_mem d) [];
  df_im : db_im_mem d = None;
  df_log : ∃ w, db_record_writer d = Some w ∧ writer_ok w;
  df_manifest : ∃ w, v_manifest_writer (db_versions d) = Some w ∧ writer_ok w;
  df_current : v_current (db_versions d) = replicate (o_max_levels o) [];
  df_pointers : length (v_compaction_pointer (db_versions d)) = o_max_levels o;
  df_seq : 0 ≤ v_last_sequence (db_versions d) ≤ MAX_KEY_SEQUENCE;
  df_lognum : 0 ≤ v_log_number (db_versions d) < v_next_file_number (db_versions d);
}.

Lemma fresh_inv d : db_fresh d → db_inv d [] (λ _, []) [] [].
Proof.
  intros [Hm Hi Hl Hman Hc Hp Hs Hn]. assert (∀ f, ¬ in_levels (v_current (db_versions d)) f) as Hno.
  { intros f (fs & Hfs & Hf). rewrite Hc in Hfs. apply elem_of_replicate in Hfs as [-> _]. by apply elem_of_nil in Hf. }
  split; try done; try (intros; exfalso; eapply Hno, in_levels_at; by eauto); try (intros; exfalso; by eapply Hno).
  - by rewrite Hi.
  - split; [apply same_files_refl| |by rewrite Hc, length_replicate|done]. rewrite Hc. split; intros level fs [-> _]%lookup_replicate; [constructor|].
    intros _ i j a b _ Ha. done.
  - intros a b Ha. by apply elem_of_nil in Ha.
  - intros r. split; [by intros ?%elem_of_nil|]. intros [Hr|[Hr|(f & Hf & _)]]; [done..|by destruct (Hno f)].
  - constructor.
  - intros r Hr. by apply elem_of_nil in Hr.
  - intros i fs. rewrite Hc. intros [-> _]%lookup_replicate. constructor.
Qed.

(** One step of the database, with the history of the records written. *)
Inductive db_step : list mrec * DB → list mrec * DB → Prop :=
| step_commit hist d hs g signals ops answers s' :
    task_ops g ops → ops ≠ [] → Forall (op_ok uok) ops → heights_ok hs → v_last_sequence (db_versions d) + len ops ≤ MAX_KEY_SEQUENCE →
    mem_room node_base (len ops) (db_mem d) → commit_group ck node_base ucmp hs g signals (write_state d) = Ok (answers, s') →
    db_step (hist, d) (abs_write hist (v_last_sequence (db_versions d)) ops, with_write_state d s')
| step_rotate hist d force allow_delay f d' :
    room_decide ck o force allow_delay d = Ok RoomSwitch → create_log (v_next_file_number (db_versions d)) = Ok f → f_ok f →
    v_next_file_number (db_versions d) + 1 < 2 ^ 64 → switch_memtable ck node_base o create_log score_high d = Ok d' → db_step (hist, d) (hist, d')
| step_flush hist d m files old r d' :
    db_im_mem d = Some m → db_is_shutting_down d = false → v_next_file_number (db_versions d) + 2 < 2 ^ 64 → v_vnum (db_versions d) + 1 < 2 ^ 64 →
    sizes_ok (v_current (db_versions d)) → compact_mem_table (Ok files) old d = (r, d') → db_step (hist, d) (hist, d')
| step_background hist d fuel failed_next listing old snapshots r snapshots' d' :
    quiet_turn d → v_next_file_number (db_versions d) + 1 < 2 ^ 64 → v_vnum (db_versions d) + 1 < 2 ^ 64 → sizes_ok (v_current (db_versions d)) →
    background_compaction fuel failed_next listing old snapshots d = (r, snapshots', d') → db_step (hist, d) (hist, d')
| step_read hist d snapshot u r d' :
    uok u → len u + 8 < 2 ^ 32 → seq_ok (default (v_last_sequence (db_versions d)) snapshot) → db_get ucmp score_high snapshot u d = (r, d') →
    db_step (hist, d) (hist, d')
| step_record_error hist d e : db_step (hist, d) (hist, with_error d e)
| step_schedule hist d : db_step (hist, d) (hist, (maybe_schedule_compaction score_high d).2)
| step_sample hist d ikey d' : record_read_sample ucmp score_high ikey d = Ok d' → db_step (hist, d) (hist, d').

Lemma room_switch force allow_delay (d : DB) : room_decide ck o force allow_delay d = Ok RoomSwitch → db_im_mem d = None.
Proof.
  unfold room_decide. destruct (db_bg_error d); [done|]. destruct (level0_count d) as [n| | |]; try done. rewrite Ok_bind. destruct (_ && _); [done|].
  destruct (approximate_memory_usage ck (db_mem d)) as [usage| | |]; try done. rewrite Ok_bind. destruct (_ && _); [done|]. by destruct (db_im_mem d).
Qed.

Lemma db_step_inv hist d hist' d' recs li lm : db_step (hist, d) (hist', d') → db_inv d hist recs li lm → ∃ recs' li' lm', db_inv d' hist' recs' li' lm'.
Proof.
  intros Hstep Hinv. inversion Hstep; subst.
  - destruct (commit_inv d hist recs li lm hs g signals ops 0 Hinv) as (s2 & lm' & Hrun & Hinv' & _); try done; [by rewrite Z.add_0_r|].
    match goal with Hc : commit_group _ _ _ _ _ _ _ = Ok (answers, _) |- _ => rewrite Hc in Hrun; injection Hrun as -> -> end. eauto.
  - destruct (switch_inv d hist' recs li lm f Hinv) as (d2 & Hsw & Hinv' & _); try done; [by eapply room_switch|].
    match goal with Hc : switch_memtable _ _ _ _ _ _ = Ok d' |- _ => rewrite Hc in Hsw; injection Hsw as -> end. eauto.
  - destruct (flush_inv d hist' recs li lm m files old Hinv) as (d2 & Hfl & Hinv' & _); try done.
    match goal with Hc : compact_mem_table _ _ _ = _ |- _ => rewrite Hc in Hfl; injection Hfl as -> -> end. eauto.
  - exists recs, li, lm. by eapply background_inv.
  - destruct (db_is_shutting_down d) eqn:Hsh.
    { match goal with Hc : db_get _ _ _ _ _ = _ |- _ => unfold db_get in Hc; rewrite Hsh in Hc; injection Hc as <- <- end. eauto. }
    destruct (db_get_ok d hist' recs li lm snapshot u Hinv) as (d2 & Hg & Hinv'); try done.
    match goal with Hc : db_get _ _ _ _ _ = _ |- _ => rewrite Hc in Hg; injection Hg as -> -> end. eauto.
  - exists recs, li, lm. by eapply inv_same; [..|exact Hinv].
  - exists recs, li, lm. by apply schedule_inv.
  - exists recs, li, lm. by eapply sample_inv.
Qed.
Lemma db_reachable_inv x y : rtc db_step x y → (∃ recs li lm, db_inv x.2 x.1 recs li lm) → ∃ recs li lm, db_inv y.2 y.1 recs li lm.
Proof.
  induction 1 as [|x y z Hs _ IH]; [done|]. intros (recs & li & lm & Hinv). apply IH. destruct x as [h d], y as [h' d']. by eapply db_step_inv.
Qed.




(** ** Writers get room *)

Context (create_log_ok : ∀ n, ∃ f, create_log n = Ok f ∧ f_ok f).

Definition l0 (d : DB) : nat := length (default [] (v_current (db_versions d) !! 0%nat)).

(** How far a writer is from going on: a flush and the compactions of level 0. *)
Definition wait_measure (d : DB) : nat := (if db_im_mem d then 2 else 0) + (l0 d + 1 - o_l0_stop_writes_threshold o).

Definition has_inv (d : DB) : Prop := ∃ hist recs li lm, db_inv d hist recs li lm.
(** A state in which a writer asks for room: no error, and an empty memtable is small. *)
Definition room_inv (d : DB) : Prop :=
  has_inv d ∧ db_bg_error d = None ∧ v_next_file_number (db_versions d) + 1 < 2 ^ 64 ∧
  ∃ usage, approximate_memory_usage ck (db_mem d) = Ok usage ∧ (mem_len (db_mem d) = Ok 0%nat → usage ≤ o_write_buffer_size o).

(** What the other threads do while a writer waits: each time some work is done. *)
Fixpoint progress (background : list (DB → DB)) (d : DB) : Prop :=
  match background with
  | [] => True
  | step :: background =>
    (0 < wait_measure d)%nat → room_inv (step d) ∧ db_mem (step d) = db_mem d ∧ (wait_measure (step d) < wait_measure d)%nat ∧ progress background (step d)
  end.

Definition has_room (d : DB) : Prop := ∃ usage, approximate_memory_usage ck (db_mem d) = Ok usage ∧ usage ≤ o_write_buffer_size o.
Notation make_room_loop := (make_room_loop ck node_base o create_log score_high).

Lemma level0_ok d : has_inv d → level0_count d = Ok (l0 d).
Proof.
  intros (hist & recs & li & lm & Hinv). unfold level0_count, index, l0. destruct (v_current (db_versions d) !! 0%nat) eqn:E; [done|].
  apply lookup_ge_None in E. rewrite (li_length _ _ _ _ _ (di_live _ _ _ _ _ Hinv)) in E. destruct (oo_levels Ho). lia.
Qed.

(** A turn of the loop. *)
Lemma room_turn d force ad : room_inv d → ∃ a, room_decide ck o force ad d = Ok a ∧
  match a with
  | RoomError _ => False
  | RoomDelay => ad = true
  | RoomReady => has_room d
  | RoomWait => (0 < wait_measure d)%nat
  | RoomSwitch => db_im_mem d = None
  end.
Proof.
  intros (Hinv & Hbg & _ & usage & Hu & _). unfold room_decide. rewrite Hbg, (level0_ok d Hinv), Ok_bind.
  destruct (ad && _) eqn:Hd; [exists RoomDelay; split; [done|by apply andb_true_iff in Hd as [-> _]]|]. rewrite Hu, Ok_bind.
  destruct (negb force && _) eqn:Hr; [apply andb_true_iff in Hr as [_ Hle%Z.leb_le]; exists RoomReady; split; [done|by exists usage]|].
  unfold wait_measure. destruct (db_im_mem d) as [m|]; [exists RoomWait; split; [done|lia]|]. cbn [bool_decide].
  destruct (o_l0_stop_writes_threshold o <=? l0 d)%nat eqn:Hs; [apply Nat.leb_le in Hs; exists RoomWait; split; [done|lia]|by exists RoomSwitch].
Qed.

(** Once there is room, the loop ends, at most after one delay. *)
Lemma loop_ready fuel background allow_delay d : has_inv d → db_bg_error d = None → has_room d → (2 ≤ fuel)%nat →
  make_room_loop fuel background false allow_delay d = (Ok tt, d).
Proof.
  intros Hinv Hbg (usage & Hu & Hle) Hf. assert (∀ ad, room_decide ck o false ad d = Ok (if ad && (o_l0_slowdown_writes_threshold o <=? l0 d)%nat then RoomDelay else RoomReady)) as Hd.
  { intros ad. unfold room_decide. rewrite Hbg, (level0_ok d Hinv), Ok_bind, Hu. destruct (ad && _); [done|].
    rewrite Ok_bind. by rewrite (proj2 (Z.leb_le _ _)). }
  destruct fuel as [|[|fuel]]; [lia|lia|]. cbn [Db.make_room_loop]. rewrite Hd. destruct (allow_delay && _); [|done]. by rewrite Hd.
Qed.

Lemma new_mem_usage m : mem_new ck node_base (o_write_buffer_size o) = Ok m → ∃ usage, approximate_memory_usage ck m = Ok usage ∧ usage ≤ o_write_buffer_size o.
Proof.
  intros Hm. destruct (oo_buffer Ho) as [Hb1 Hb2]. destruct (mem_new_rep ck node_base Hbase uok uord _ Hb1 Hb2) as (m' & Hm' & _ & Ha & Hz).
  rewrite Hm in Hm'. injection Hm' as <-. pose proof (Z.mul_div_le (o_write_buffer_size o) 8 ltac:(lia)). exists (1 + node_base + 160 + 7). split; [|lia].
  unfold approximate_memory_usage, total_size, memory_used. rewrite Hz, Ha. cbn [ar_len]. rewrite uadd_small; [f_equal; lia|lia].
Qed.

Lemma switch_room d : room_inv d → db_im_mem d = None →
  ∃ d', switch_memtable ck node_base o create_log score_high d = Ok d' ∧ has_inv d' ∧ db_bg_error d' = None ∧ has_room d'.
Proof.
  intros ((hist & recs & li & lm & Hinv) & Hbg & Hn & usage & Hu & Hsmall) Him. destruct (create_log_ok (v_next_file_number (db_versions d))) as (f & Hcr & Hf).
  destruct (switch_inv d hist recs li lm f Hinv Him Hcr Hf Hn) as (d' & Hsw & Hinv' & _ & Hbg' & Hcur & Hmem & _). exists d'.
  split_and!; [done|by eexists _, _, _, _|congruence|]. destruct Hmem as [[Hmem ->]|Hmem]; [|by apply new_mem_usage]. exists usage. rewrite Hmem. split; [done|]. apply Hsmall.
  by rewrite (mem_len_rep uok uord _ _ (di_mem _ _ _ _ _ Hinv)).
Qed.

(** The loop when a writer may not be delayed any more, and then in general. *)
Definition returns (background : list (DB → DB)) (d : DB) (ad : bool) : Prop := ∀ force fuel, (length background + 3 + (if ad then 1 else 0) ≤ fuel)%nat →
  ∃ d', make_room_loop fuel background force ad d = (Ok tt, d') ∧ has_inv d' ∧ has_room d'.

Lemma make_room_returns background d ad : room_inv d → progress background d → (wait_measure d ≤ length background)%nat →
  (ad = true → returns background d false) → (∀ step bg, background = step :: bg → (0 < wait_measure d)%nat → returns bg (step d) ad) → returns background d ad.
Proof.
  intros Hri Hpr Hm Hdelay Hwait force fuel Hf. destruct fuel as [|fuel]; [lia|]. cbn [Db.make_room_loop].
  destruct (room_turn d force ad Hri) as (a & -> & Ha). destruct a as [e| | | |]; [done| | | |].
  - subst ad. apply Hdelay; [done|simpl; lia].
  - exists d. split_and!; [done|apply Hri|done].
  - destruct background as [|step bg]; [simpl in Hm; lia|]. apply (Hwait step bg); [done..|]. simpl in Hf. lia.
  - destruct (switch_room d Hri Ha) as (d' & -> & Hinv' & Hbg' & Hroom'). exists d'. split_and!; [|done..]. apply loop_ready; [done..|lia].
Qed.
Lemma make_room_ok bg0 d0 ad0 : room_inv d0 → progress bg0 d0 → (wait_measure d0 ≤ length bg0)%nat → returns bg0 d0 ad0.
Proof.
  assert (∀ ad, (ad = true → ∀ background d, room_inv d → progress background d → (wait_measure d ≤ length background)%nat → returns background d false) →
    ∀ background d, room_inv d → progress background d → (wait_measure d ≤ length background)%nat → returns background d ad) as Hgen.
  { intros ad Hdelay background. induction background as [|step background IH]; intros d Hri Hpr Hm; apply make_room_returns; try done; [auto|by auto|].
    intros step' bg [= <- <-] Hw. destruct (Hpr Hw) as (Hri' & _ & Hlt & Hpr'). apply IH; [done..|]. simpl in Hm. lia. }
  destruct ad0; [|by apply (Hgen false)]. apply (Hgen true). intros _. by apply (Hgen false).
Qed.

End Facts.

(** *** Witnesses, on in-memory files with the IEEE checksum and tables in memory *)
Import IeeeCrc.

(** A table in memory, with a bounded size. *)
Definition DemoSink : TableSink (list entry) := {|
  sink_create _ := Ok [];
  sink_add b k v := Ok (b ++ [(k, v)]);
  sink_num_entries b := len b;
  sink_file_size b := Z.min (entries_size b) 1000000;
  sink_finish b := Ok b;
  sink_check _ _ _ := Ok tt;
|}.
Definition DemoSource : TableSource (list entry) := {|
  source_get b k := Ok (snd <$> list_find (λ e : entry, iord lex_compare e.1 k ≠ Lt) b)
|}.
Lemma demo_sink_laws ord key_ok : @TableSinkLaws _ DemoSink ord key_ok (λ b es, b = es).
Proof. split; simpl; intros; subst; eauto. Qed.
Lemma demo_sink_sized b es b' : b = es → @sink_finish _ DemoSink b = Ok b' → 0 < @sink_file_size _ DemoSink b' < 2 ^ 64.
Proof. intros -> [= <-]. simpl. pose proof (entries_size_pos es). lia. Qed.
Lemma demo_source_laws uok : @TableSourceLaws _ DemoSource uok lex_compare (λ b es, b = es).
Proof.
  split. intros b es u seq -> Hs Hwf Hu Hseq. eexists. split; [done|]. unfold seek_pos. destruct (list_find _ es) as [[i e]|] eqn:E; simpl.
  - exists i. split; [done|]. by apply list_find_Some in E as [? _].
  - apply list_find_None in E. rewrite Forall_forall in E. intros e He Hsee. apply (E e He). by apply sees_not_below.
Qed.

Definition demo_options : DbOptions := mkOptions 8192 3 1 1000 4 8.
Lemma demo_options_ok : options_ok 40 demo_options.
Proof. split; simpl; vm_compute; split; (done || (intros ?; congruence) || lia). Qed.

Definition demo_mem : SkipList := match mem_new true 40 8192 with Ok m => m | _ => mkSkl 1 0 (mkArena 1 0) 0 ∅ ∅ end.
Definition demo_writer : Writer InmemFile := mkWriter inmem_default 0 type_crcs.
Definition demo_versions : VersionSet InmemFile := mkVset 10 0 9 0 8 (Some demo_writer) 0 (replicate 3 []) (replicate 3 ikey_default).
Definition demo_db0 : DB InmemFile (list entry) := mkDB demo_mem None demo_versions (Some demo_writer) ∅ None None false false [] ∅.

#[local] Existing Instance DemoSink.
#[local] Existing Instance DemoSource.
(** Level 1 asks for a compaction; no tables are merged. *)
Definition demo_size : list (list FileMetaData) → option nat := λ _, Some 1%nat.
Definition demo_input : Compaction (list entry) → gmap Z (list entry) → outcome MemTableIterator := λ _ _, Panic.
Definition demo_set_iter : gset (Z * Z) → list (Z * Z) := elements.
Notation demo_step := (db_step (FL := InmemFile_laws true) true 40 bytewise (λ _, True) demo_options demo_set_iter (λ _, Ok inmem_default)
  (λ _, Ok inmem_default) (λ _, Ok tt) (λ _, Ok tt) (λ _, Ok tt) (λ _, Ok tt) (λ _, false) (IT := MemTableIterator_Iterator bytewise) demo_size demo_input).

(** A commit, a rotation, a second commit and a flush. *)
Definition demo_state1 := match commit_group (FO := InmemFile_File true) true 40 bytewise [2%nat] (demo_task [Put [1] [10]; Put [2] [20]]) [0%nat] (write_state demo_db0) with
  | Ok (_, s) => s | _ => write_state demo_db0 end.
Definition demo_db1 := with_write_state demo_db0 demo_state1.
Definition demo_db2 := match switch_memtable true 40 demo_options (λ _, Ok inmem_default) (λ _, false) demo_db1 with Ok d => d | _ => demo_db1 end.
Definition demo_state3 := match commit_group (FO := InmemFile_File true) true 40 bytewise [1%nat] (demo_task [Delete [1]]) [0%nat] (write_state demo_db2) with
  | Ok (_, s) => s | _ => write_state demo_db2 end.
Definition demo_db3 := with_write_state demo_db2 demo_state3.
Definition demo_flush (d : DB InmemFile (list entry)) := compact_mem_table (FO := InmemFile_File true) (TS := DemoSink) true bytewise demo_options demo_set_iter (λ _, Ok inmem_default) (λ _, Ok tt) (λ _, Ok tt)
  (λ _, Ok tt) (λ _, Ok tt) (Ok [bytes_of_string "/db/000010.sst"; bytes_of_string "/db/000005.log"]) [] d.
Definition demo_db4 := (demo_flush demo_db3).2.
Definition demo_hist : list mrec := abs_write (abs_write [] 0 [Put [1] [10]; Put [2] [20]]) 2 [Delete [1]].

Lemma demo_fresh : db_fresh (FL := InmemFile_laws true) (λ _, True) lex_compare demo_options demo_db0.
Proof.
  assert (∃ w, Some demo_writer = Some w ∧ writer_ok (FL := InmemFile_laws true) w) as Hw.
  { exists demo_writer. split; [done|]. split_and!; simpl; try done; vm_compute; discriminate. }
  split; cbn [demo_db0 db_mem db_im_mem db_record_writer db_versions demo_versions v_manifest_writer v_current v_compaction_pointer v_last_sequence v_log_number v_next_file_number]; try done.
  destruct (mem_new_rep true 40 ltac:(lia) (λ _, True) lex_compare 8192) as (m & Hm & Hrep & _); [reflexivity|vm_compute; discriminate|].
  unfold demo_mem. by rewrite Hm.
Qed.
Lemma demo_task_ops ops : Forall op_small ops → len ops < 2 ^ 32 → task_ops (demo_task ops) ops.
Proof. intros Hops Hl. exists 0. split; [done|]. split; [by split|]. done. Qed.
(** The run up to the flush, and with it. *)
Lemma demo_run3 : rtc demo_step ([], demo_db0) (demo_hist, demo_db3).
Proof.
  assert (∀ ops, Forall op_small ops → len ops < 2 ^ 32 → task_ops (demo_task ops) ops) as Htask by apply demo_task_ops.
  eapply rtc_l; [|eapply rtc_l; [|eapply rtc_once]].
  - apply (step_commit _ _ _ _ _ _ _ _ _ _ _ _ _ _ _ [] demo_db0 [2%nat] (demo_task [Put [1] [10]; Put [2] [20]]) [0%nat] [Put [1] [10]; Put [2] [20]]) with (s' := demo_state1) (answers := [(0%nat, Ok tt)]).
    + apply Htask; [repeat constructor|reflexivity].
    + done.
    + repeat constructor.
    + repeat constructor; unfold MAX_HEIGHT; lia.
    + vm_compute. discriminate.
    + vm_compute. repeat split; discriminate.
    + vm_compute. reflexivity.
  - apply (step_rotate _ _ _ _ _ _ _ _ _ _ _ _ _ _ _ _ demo_db1 true false inmem_default demo_db2).
    + vm_compute. reflexivity.
    + done.
    + simpl. lia.
    + vm_compute. reflexivity.
    + vm_compute. reflexivity.
  - apply (step_commit _ _ _ _ _ _ _ _ _ _ _ _ _ _ _ _ demo_db2 [1%nat] (demo_task [Delete [1]]) [0%nat] [Delete [1]]) with (s' := demo_state3) (answers := [(0%nat, Ok tt)]).
    + apply Htask; [repeat constructor|reflexivity].
    + done.
    + repeat constructor.
    + repeat constructor; unfold MAX_HEIGHT; lia.
    + vm_compute. discriminate.
    + vm_compute. repeat split; discriminate.
    + vm_compute. reflexivity.
Qed.
Lemma demo_sizes : sizes_ok (v_current (db_versions demo_db3)).
Proof. intros [|[|[|i]]] fs Hfs; vm_compute in Hfs; try discriminate; injection Hfs as <-; (split; [constructor|reflexivity]). Qed.
Lemma demo_run : rtc demo_step ([], demo_db0) (demo_hist, demo_db4).
Proof.
  eapply rtc_r; [apply demo_run3|].
  apply (step_flush _ _ _ _ _ _ _ _ _ _ _ _ _ _ _ _ demo_db3 (db_mem demo_db1) [bytes_of_string "/db/000010.sst"; bytes_of_string "/db/000005.log"] [] (Ok tt)).
  1, 2, 3, 4: vm_compute; reflexivity.
  - apply demo_sizes.
  - vm_compute. reflexivity.
Qed.



Lemma demo_room d hist : rtc demo_step ([], demo_db0) (hist, d) → db_bg_error d = None → v_next_file_number (db_versions d) + 1 < 2 ^ 64 →
  (∃ usage, approximate_memory_usage true (db_mem d) = Ok usage ∧ usage ≤ 8192) →
  room_inv (FL := InmemFile_laws true) true (λ _, True) lex_compare (λ b es, b = es) demo_options d.
Proof.
  intros Hr Hbg Hn (usage & Hu & Hle). split_and!; [|done..|exists usage; by split].
  destruct (db_reachable_inv (FL := InmemFile_laws true) true 40 ltac:(lia) bytewise (λ _, True) lex_compare (λ b es, b = es) (SL := demo_sink_laws _ _) (GL := demo_source_laws _)
    demo_sink_sized demo_options demo_set_iter ltac:(done) (λ _, Ok inmem_default) (λ _, Ok inmem_default) (λ _, Ok tt) (λ _, Ok tt) (λ _, Ok tt) (λ _, Ok tt) (λ _, false) demo_options_ok (IT := MemTableIterator_Iterator bytewise) demo_size demo_input _ _ Hr) as (recs & li & lm & Hinv).
  - exists (λ _, []), [], []. apply fresh_inv, demo_fresh.
  - by exists hist, recs, li, lm.
Qed.

(** The file written by the flush moves from level 1 to level 2. *)
Definition demo_pick : Picked := match pick_compaction (B := list entry) true bytewise 3 1000 (version_state demo_size demo_db4) (v_compaction_pointer (db_versions demo_db4)) with Ok p => p | _ => PickedNone [] [] end.
Definition demo_compaction : Compaction (list entry) := match demo_pick with PickedSome c _ => c | _ => compaction_new 0 Manual [] (ve_new 3) end.
Definition demo_turn (d : DB InmemFile (list entry)) := background_compaction (FO := InmemFile_File true) (TS := DemoSink) (IT := MemTableIterator_Iterator bytewise) true bytewise demo_options demo_set_iter
  (λ _, Ok inmem_default) (λ _, Ok tt) (λ _, Ok tt) (λ _, Ok tt) (λ _, Ok tt) demo_size demo_input 0 0 (Ok [bytes_of_string "/db/000011.sst"]) [] snapshots_default d.
