(* ===== verification/DbScan.v ===== *)
(** * Scanning the database returns what was written

    The iterator of the database in a reachable state walks over exactly the keys that the
    history holds at its sequence number: the merged iterator over the memtables and the
    tables of the version walks over all the records, each once. *)
From stdpp Require Import gmap sorting.
From S2P Require Import Prelude Coding Varint Comparator Format Storage Record Iterator Concat SkipList SkipListFacts MemTable Batch VersionEdit Version LevelIter VersionGet VersionBuild KMerge DbIter Snapshot Compaction CompactPick Flush DbWrite Recovery Manifest Filename Db Scan Background DbFacts.
Open Scope Z_scope.

(** ** Sorting entries *)
Section Sorting.
Context (uord : bytes → bytes → comparison) {KO : KeyOrder uord}.
Notation seqs l := ((λ e : entry, kseq e.1) <$> l).

Definition not_above (a b : entry) : Prop := iord uord a.1 b.1 ≠ Gt.
#[local] Instance not_above_dec a b : Decision (not_above a b).
Proof. unfold not_above. apply _. Defined.
Lemma iord_eq_seq a b : iord uord a b = Eq → kseq a = kseq b.
Proof. unfold iord. destruct (uord _ _); [|done..]. intros Hc. apply Z.compare_eq in Hc. lia. Qed.

(** Entries with different sequence numbers can be put in order. *)
Lemma sorted_exists (l : list entry) : NoDup (seqs l) → ∃ l', l' ≡ₚ l ∧ sorted (iord uord) l'.
Proof.
  intros Hnd. exists (merge_sort not_above l). pose proof (merge_sort_Permutation not_above l) as Hp. split; [done|].
  assert (StronglySorted not_above (merge_sort not_above l)) as Hs.
  { apply StronglySorted_merge_sort; unfold not_above.
    - intros a b c. apply (ord_le_trans (iord uord)).
    - intros a b. destruct (iord uord a.1 b.1) eqn:E; [by left|by left|right]. rewrite (ord_opp (iord uord)), E. done. }
  rewrite <- Hp in Hnd. clear Hp. revert Hnd Hs. generalize (merge_sort not_above l). clear l. intros l Hnd Hs. apply sorted_strongly.
  induction Hs as [|e l Hs IH Hle]; [constructor|]. rewrite fmap_cons in Hnd. apply NoDup_cons in Hnd as [He Hnd]. constructor; [by apply IH|].
  rewrite Forall_forall in *. intros x Hx. specialize (Hle x Hx). destruct (iord uord e.1 x.1) eqn:E; [|done|by destruct Hle].
  destruct He. rewrite (iord_eq_seq _ _ E). by apply (list_elem_of_fmap_2 (λ e : entry, kseq e.1)).
Qed.
End Sorting.

Lemma ssorted_lookup {A} (R : relation A) l i j a b : StronglySorted R l → (i < j)%nat → l !! i = Some a → l !! j = Some b → R a b.
Proof.
  intros Hs Hij Ha Hb. apply list_elem_of_split_length in Ha as (l1 & l2 & -> & Hl). subst i. apply StronglySorted_app_1_r in Hs.
  apply StronglySorted_cons in Hs as [Hs _]. rewrite Forall_lookup in Hs. rewrite lookup_app_r in Hb by lia.
  destruct (j - length l1)%nat as [|k] eqn:Ek; [lia|]. by eapply Hs.
Qed.
Lemma view_length uord seq skip (l : list entry) : (length (view uord seq skip l) ≤ length l)%nat.
Proof.
  revert skip. induction l as [|e l IH]; intros skip; [done|]. simpl. pose proof (IH skip). pose proof (IH (Some (ukey e.1))).
  destruct (seq <? kseq e.1); [lia|]. destruct (kind_of e); try lia. destruct (match skip with Some _ => _ | None => _ end); simpl; lia.
Qed.
Lemma NoDup_join {A} (ls : list (list A)) : Forall NoDup ls →
  (∀ i j a b x, (i < j)%nat → ls !! i = Some a → ls !! j = Some b → x ∈ a → x ∈ b → False) → NoDup (mjoin ls).
Proof.
  induction 1 as [|a ls Ha _ IH]; intros Hd; [constructor|]. simpl. apply NoDup_app. split_and!; [done| |].
  - intros x Hx (b & Hxb & [j Hj]%list_elem_of_lookup_1)%list_elem_of_join. by apply (Hd 0%nat (S j) a b x ltac:(lia)).
  - apply IH. intros i j a' b' x Hij. apply (Hd (S i) (S j)). lia.
Qed.
Lemma mapM_Ok {A B} (f : A → outcome B) (Q : A → B → Prop) l : (∀ x, x ∈ l → ∃ y, f x = Ok y ∧ Q x y) → ∃ k, mapM f l = Ok k ∧ Forall2 Q l k.
Proof.
  induction l as [|x l IH]; intros Hf; [exists []; by split|]. destruct (Hf x) as (y & Hy & Hq); [by left|].
  destruct IH as (k & Hk & Hqs); [intros z Hz; apply Hf; by right|]. exists (y :: k). simpl. rewrite Hy, Ok_bind, Hk, Ok_bind. split; [done|by constructor].
Qed.
Lemma sorted_app (ord : bytes → bytes → comparison) (l k : list entry) : sorted ord l → sorted ord k →
  (∀ a b, a ∈ l → b ∈ k → ord a.1 b.1 = Lt) → sorted ord (l ++ k).
Proof.
  rewrite !sorted_strongly. intros Hl Hk Hlk. induction Hl as [|e l Hl IH Hle]; [done|]. simpl. constructor.
  - apply IH. intros a b Ha. apply Hlk. by right.
  - apply Forall_app. split; [done|]. apply Forall_forall. intros b Hb. apply Hlk; [by left|done].
Qed.
Lemma level_sorted (uord : bytes → bytes → comparison) {KO : KeyOrder uord} (tables : Z → Z → list entry) (files : list FileMetaData) :
  (∀ f, f ∈ files → sorted (iord uord) (tables (fm_number f) (fm_file_size f)) ∧
    ∀ e, e ∈ tables (fm_number f) (fm_file_size f) → iord uord (ik_data (fm_smallest f)) e.1 ≠ Gt ∧ iord uord e.1 (ik_data (fm_largest f)) ≠ Gt) →
  disjoint_files uord files → sorted (iord uord) (level_entries tables files).
Proof.
  unfold level_entries. induction files as [|f files IH]; intros Hf Hd; [by intros ????|]. rewrite fmap_cons. simpl.
  destruct (Hf f) as [Hs Hb]; [by left|]. apply sorted_app; [done| |].
  - apply IH; [intros g Hg; apply Hf; by right|]. intros i j a b Hij. apply (Hd (S i) (S j)). lia.
  - intros a b Ha (l & Hbl & (g & -> & [j Hj]%list_elem_of_lookup_1)%list_elem_of_fmap)%list_elem_of_join.
    destruct (Hf g) as [_ Hbg]; [right; by eapply list_elem_of_lookup_2|]. destruct (Hb a Ha) as [_ Ha2]. destruct (Hbg b Hbl) as [Hb1 _].
    pose proof (Hd 0%nat (S j) f g ltac:(lia) eq_refl Hj) as Hlt.
    eapply (ord_lt_le_trans (iord uord)); [|exact Hb1]. eapply (ord_le_lt_trans (iord uord)); [exact Ha2|exact Hlt].
Qed.

(** ** What the iterators of tables promise *)
Class TableScanLaws {B TI : Type} (TN : TableScan B TI) (IT : Iterator TI) (uok : bytes → Prop) (uord : bytes → bytes → comparison)
    (holds : B → list entry → Prop) (repT : TI → list entry → option nat → Prop) : Prop := {
  scan_fwd :: @FwdLaws TI IT (iord uord) (ikey_ok uok) repT;
  scan_bwd :: @BwdLaws TI IT repT;
  scan_ok b es : holds b es → repT (table_scan b) es None;
}.

Section Facts.
Context `{CRC : Crc32, !Crc32Laws} `{FL : FileLaws F}.
Context (ucmp : Comparator) (uok : bytes → Prop) (uord : bytes → bytes → comparison) {CO : ComparatorOrder ucmp uok uord}.
Context {B : Type} (holds : B → list entry → Prop) (o : DbOptions).
Context {TI : Type} {TN : TableScan B TI} {IT : Iterator TI} (repT : TI → list entry → option nat → Prop) {NL : TableScanLaws TN IT uok uord holds repT}.
Notation DB := (DB F B).
Notation db_inv := (db_inv uok uord holds o).
Notation file_entries recs := (λ n _ : Z, rec_kv <$> recs n).

(** *** One level *)
Section State.
Context (d : DB) (hist : list mrec) (recs : Z → list mrec) (li lm : list mrec).
Context (Hinv : db_inv d hist recs li lm) (Hsizes : sizes_ok (v_current (db_versions d))) (Hnext : v_next_file_number (db_versions d) ≤ 2 ^ 64).
Context (Hlevels : (1 ≤ o_max_levels o)%nat) (fuel : nat) (Hfuel : ∀ i fs, v_current (db_versions d) !! i = Some fs → (S (length fs) < fuel)%nat).
Notation levels := (v_current (db_versions d)).
Notation entries_of := (file_entries recs).

Lemma file_scan f : in_levels levels f → (∃ b, db_tables d !! fm_number f = Some b ∧ repT (table_scan b) (rec_kv <$> recs (fm_number f)) None) ∧
  sorted (iord uord) (rec_kv <$> recs (fm_number f)) ∧
  ∀ e, e ∈ rec_kv <$> recs (fm_number f) → iord uord (ik_data (fm_smallest f)) e.1 ≠ Gt ∧ iord uord e.1 (ik_data (fm_largest f)) ≠ Gt.
Proof.
  intros Hf. destruct (di_files _ _ _ _ _ _ _ _ _ Hinv f Hf) as [[(b & Hb & Hh) Hs Hok (a & z & Ha & Hz & Hsm & Hla)] _].
  split; [exists b; split; [done|by apply (scan_ok (holds := holds))]|]. split; [done|]. intros e He. rewrite Hsm, Hla.
  apply (sorted_bounds ucmp uok uord (rec_kv <$> recs (fm_number f)) (rec_kv a) (rec_kv z)); [done| | |done].
  - destruct (recs (fm_number f)); [done|]. by injection Ha as ->.
  - by rewrite fmap_last, Hz.
Qed.
Lemma file_numbers i fs f : levels !! i = Some fs → f ∈ fs → in_uint 64 (fm_number f) ∧ in_uint 64 (fm_file_size f).
Proof.
  intros Hfs Hf. destruct (di_files _ _ _ _ _ _ _ _ _ Hinv f) as [_ Hn]; [apply in_levels_at; by exists i, fs|].
  destruct (Hsizes i fs Hfs) as [Hs Hsum]. pose proof (sizes_member fs f Hs Hf). rewrite Forall_forall in Hs. specialize (Hs f Hf). unfold in_uint. lia.
Qed.
Lemma level_source i fs : levels !! i = Some fs → LevelIter.TableSourceLaws IT (table_source (db_tables d)) uok uord repT entries_of fs.
Proof.
  intros Hfs. assert (∀ f, f ∈ fs → in_levels levels f) as Hin by (intros f Hf; apply in_levels_at; by exists i, fs).
  split; [apply _|apply _| |].
  - intros f Hf. destruct (file_numbers i fs f Hfs Hf). split_and!; [done..|]. destruct (file_scan f (Hin f Hf)) as [(b & Hb & Hr) _].
    exists (table_scan b). cbn [new_iter table_source]. by rewrite Hb.
  - intros f e Hf He. destruct (file_scan f (Hin f Hf)) as (_ & _ & Hb). by apply Hb.
Qed.

(** *** The records of the tables, each once *)
Definition table_recs : list mrec := mjoin ((λ f, recs (fm_number f)) <$> mjoin levels).

Lemma in_join_levels f : f ∈ mjoin levels ↔ in_levels levels f.
Proof. rewrite list_elem_of_join. unfold in_levels. naive_solver. Qed.
Lemma elem_of_table_recs r : r ∈ table_recs ↔ ∃ f, in_levels levels f ∧ r ∈ recs (fm_number f).
Proof.
  unfold table_recs. rewrite list_elem_of_join. split.
  - intros (l & Hr & (f & -> & Hf)%list_elem_of_fmap). exists f. by rewrite <- in_join_levels.
  - intros (f & Hf & Hr). eexists. split; [exact Hr|]. apply (list_elem_of_fmap_2 (λ f, recs (fm_number f))). by apply in_join_levels.
Qed.
Lemma recs_sorted_nodup l : sorted (iord uord) (rec_kv <$> l) → NoDup l.
Proof.
  intros Hs. apply (NoDup_fmap_1 rec_kv). apply NoDup_alt. intros i j e Hi Hj.
  destruct (lt_eq_lt_dec i j) as [[Hlt| ->]|Hgt]; [|done|].
  - pose proof (Hs i j e e Hlt Hi Hj) as He. by rewrite (ord_refl (iord uord)) in He.
  - pose proof (Hs j i e e Hgt Hj Hi) as He. by rewrite (ord_refl (iord uord)) in He.
Qed.
Lemma files_once : NoDup (mjoin levels).
Proof.
  apply NoDup_join.
  - apply Forall_forall. intros fs [i Hi]%list_elem_of_lookup_1. eapply NoDup_fmap_1. exact (di_nodup _ _ _ _ _ _ _ _ _ Hinv i fs Hi).
  - intros i j a b f Hij Ha Hb Hfa Hfb.
    destruct (di_unique _ _ _ _ _ _ _ _ _ Hinv i j f f) as [? _]; [by exists a|by exists b|done|lia].
Qed.
Lemma table_recs_nodup : NoDup table_recs.
Proof.
  apply NoDup_join.
  - apply Forall_fmap, Forall_forall. intros f Hf%in_join_levels. destruct (file_scan f Hf) as (_ & Hs & _). by apply recs_sorted_nodup.
  - intros i j a b r Hij (f & -> & Hf)%list_lookup_fmap_Some (g & -> & Hg)%list_lookup_fmap_Some Hra Hrb.
    assert (in_levels levels f) as Hf' by (apply in_join_levels; by eapply list_elem_of_lookup_2).
    assert (in_levels levels g) as Hg' by (apply in_join_levels; by eapply list_elem_of_lookup_2).
    destruct (Z.lt_total (fm_number f) (fm_number g)) as [Hlt|[Heq|Hgt]].
    + pose proof (di_order _ _ _ _ _ _ _ _ _ Hinv g f r r Hg' Hf' Hlt Hrb Hra) as Hn. unfold newer in Hn. lia.
    + apply in_levels_at in Hf' as [l1 Hf']. apply in_levels_at in Hg' as [l2 Hg'].
      destruct (di_unique _ _ _ _ _ _ _ _ _ Hinv l1 l2 f g Hf' Hg' Heq) as [_ ->].
      pose proof files_once as Hnd. rewrite NoDup_alt in Hnd. specialize (Hnd i j g Hf Hg). lia.
    + pose proof (di_order _ _ _ _ _ _ _ _ _ Hinv f g r r Hf' Hg' Hgt Hra Hrb) as Hn. unfold newer in Hn. lia.
Qed.

(** The key of a record. *)
Lemma record_key_ok r : rec_ok uok r → ikey_ok uok (rec_kv r).1.
Proof. intros Hr. unfold rec_kv, rec_ikey. cbn [fst]. split; [rewrite length_ikey; lia|]. rewrite ukey_ikey. apply Hr. Qed.

(** *** All records *)
Definition all_recs : list mrec := lm ++ li ++ table_recs.

Lemma all_recs_hist r : r ∈ all_recs ↔ r ∈ hist.
Proof. unfold all_recs. by rewrite !elem_of_app, elem_of_table_recs, (di_hist _ _ _ _ _ _ _ _ _ Hinv). Qed.
Lemma mems_sorted : sorted (iord uord) (rec_kv <$> lm) ∧ sorted (iord uord) (rec_kv <$> li) ∧ Forall (rec_ok uok) lm ∧ Forall (rec_ok uok) li.
Proof.
  destruct (mem_rep_iter uok uord _ _ (di_mem _ _ _ _ _ _ _ _ _ Hinv)) as (? & ? & _). pose proof (di_im _ _ _ _ _ _ _ _ _ Hinv) as Him. unfold im_rep in Him.
  destruct (db_im_mem d) as [m|].
  - destruct Him as [Him _]. by destruct (mem_rep_iter uok uord _ _ Him) as (? & ? & _).
  - rewrite Him. split_and!; try done; by intros ????.
Qed.
Lemma all_recs_nodup : NoDup all_recs.
Proof.
  destruct mems_sorted as (Hm & Hi & _). unfold all_recs. rewrite !NoDup_app. split_and!.
  - by apply recs_sorted_nodup.
  - intros r Hr [Hi'|(f & Hf & Hr')%elem_of_table_recs]%elem_of_app.
    + pose proof (di_im_old _ _ _ _ _ _ _ _ _ Hinv r r Hr Hi') as Hn. unfold newer in Hn. lia.
    + pose proof (di_old _ _ _ _ _ _ _ _ _ Hinv f r r Hf ltac:(apply elem_of_app; by right) Hr') as Hn. unfold newer in Hn. lia.
  - by apply recs_sorted_nodup.
  - intros r Hr (f & Hf & Hr')%elem_of_table_recs.
    pose proof (di_old _ _ _ _ _ _ _ _ _ Hinv f r r Hf ltac:(apply elem_of_app; by left) Hr') as Hn. unfold newer in Hn. lia.
  - apply table_recs_nodup.
Qed.
Lemma hist_ok r : r ∈ hist → rec_ok uok r.
Proof.
  rewrite (di_hist _ _ _ _ _ _ _ _ _ Hinv). destruct mems_sorted as (_ & _ & Hm & Hi). rewrite Forall_forall in Hm, Hi.
  intros [Hr|[Hr|(f & Hf & Hr)]]; [by apply Hm|by apply Hi|]. destruct (di_files _ _ _ _ _ _ _ _ _ Hinv f Hf) as [[_ _ Hok _] _].
  rewrite Forall_forall in Hok. by apply Hok.
Qed.
Lemma hist_seq_inj r s : r ∈ hist → s ∈ hist → r_seq r = r_seq s → r = s.
Proof.
  intros [i Hr]%list_elem_of_lookup_1 [j Hs]%list_elem_of_lookup_1 Heq. pose proof (di_sorted _ _ _ _ _ _ _ _ _ Hinv) as Hsort.
  destruct (lt_eq_lt_dec i j) as [[Hlt| ->]|Hgt]; [|congruence|].
  - pose proof (ssorted_lookup newer hist i j r s Hsort Hlt Hr Hs) as Hn. unfold newer in Hn. lia.
  - pose proof (ssorted_lookup newer hist j i s r Hsort Hgt Hs Hr) as Hn. unfold newer in Hn. lia.
Qed.
(** Records of the history, each once, have different sequence numbers. *)
Lemma seqs_nodup (l : list mrec) : NoDup l → (∀ r, r ∈ l → r ∈ hist) → NoDup ((λ e : entry, kseq e.1) <$> (rec_kv <$> l)).
Proof.
  intros Hnd Hl. rewrite <- list_fmap_compose. apply NoDup_alt. intros i j n (r & -> & Hr)%list_lookup_fmap_Some (s & Heq & Hs)%list_lookup_fmap_Some.
  assert (r ∈ hist) as Hrh by (apply Hl; by eapply list_elem_of_lookup_2). assert (s ∈ hist) as Hsh by (apply Hl; by eapply list_elem_of_lookup_2).
  unfold compose in Heq. rewrite !(kseq_rec uok) in Heq by (by apply hist_ok). pose proof (hist_seq_inj r s Hrh Hsh Heq). subst s.
  rewrite NoDup_alt in Hnd. by apply (Hnd i j r).
Qed.

(** *** The iterator over the tables *)
Notation level_rep' := (level_iter_rep (TS := table_source (db_tables d)) uok uord repT entries_of fuel).
Definition child_rep := sum_rep repT level_rep'.
Definition sst_rep := @km_rep _ (iord uord) (ikey_ok uok) child_rep.
#[local] Existing Instance level_fwd.
#[local] Existing Instance level_bwd.

Lemma child_fwd : @FwdLaws _ (sst_child ucmp fuel (db_tables d)) (iord uord) (ikey_ok uok) child_rep.
Proof.
  pose proof (level_fwd ucmp uok uord) as FL1. pose proof (level_bwd ucmp uok uord) as BL1. unfold sst_child, child_rep. apply sum_fwd; [apply _|].
  unfold LevelIterator, level_iter_rep. apply _.
Qed.
Lemma sst_fwd : @FwdLaws _ (SSTableIters_Iterator ucmp fuel (db_tables d)) (iord uord) (ikey_ok uok) sst_rep.
Proof. pose proof child_fwd. unfold SSTableIters_Iterator, sst_rep. apply km_fwd; apply _. Qed.

Lemma open_level0 fs : levels !! 0%nat = Some fs →
  ∃ its, open_tables (db_tables d) fs = Ok its ∧ Forall2 (λ c l, child_rep c l None) (inl <$> its) ((λ f, rec_kv <$> recs (fm_number f)) <$> fs).
Proof.
  intros Hfs. destruct (mapM_Ok (λ f, @new_iter _ (table_source (db_tables d)) (fm_number f) (fm_file_size f))
    (λ f it, repT it (rec_kv <$> recs (fm_number f)) None) fs) as (its & Hits & Hall).
  - intros f Hf. destruct (file_scan f) as [(b & Hb & Hr) _]; [apply in_levels_at; by exists 0%nat, fs|]. exists (table_scan b).
    cbn [new_iter table_source]. by rewrite Hb.
  - exists its. split; [done|]. apply Forall2_fmap. apply Forall2_flip. exact Hall.
Qed.
Lemma open_levels ls : (∀ fs, fs ∈ ls → fs ≠ [] → ∃ i, levels !! S i = Some fs) →
  Forall2 (λ c l, child_rep c l None) (inr <$> (level_iterator <$> filter (λ fs, fs ≠ []) ls)) (level_entries entries_of <$> filter (λ fs, fs ≠ []) ls) ∧
  Forall (sorted (iord uord)) (level_entries entries_of <$> filter (λ fs, fs ≠ []) ls).
Proof.
  intros Hls. assert (∀ fs, fs ∈ filter (λ fs, fs ≠ []) ls → level_rep' (level_iterator fs) (level_entries entries_of fs) None ∧ sorted (iord uord) (level_entries entries_of fs)) as Hat.
  { intros fs [Hne Hin]%list_elem_of_filter. destruct (Hls fs Hin Hne) as [i Hi]. pose proof (di_live _ _ _ _ _ _ _ _ _ Hinv) as Hlive.
    pose proof (lo_disjoint _ _ _ (li_levels _ _ _ _ _ Hlive) _ _ Hi (Nat.neq_succ_0 _)) as Hd.
    pose proof (level_source _ fs Hi) as TL. split.
    - apply (level_iterator_rep ucmp uok uord repT entries_of fs fuel); [exact (lo_files _ _ _ (li_levels _ _ _ _ _ Hlive) _ _ Hi)|done|by eapply Hfuel].
    - apply (level_sorted uord); [|exact Hd]. intros f Hf. destruct (file_scan f) as (_ & ? & ?); [apply in_levels_at; by exists (S i), fs|]. done. }
  split.
  - rewrite <- list_fmap_compose. apply Forall2_fmap, Forall_Forall2_diag, Forall_forall. intros fs Hfs. by apply Hat.
  - apply Forall_fmap, Forall_forall. intros fs Hfs. by apply Hat.
Qed.
Lemma level_entries_recs fs : level_entries entries_of fs = rec_kv <$> mjoin ((λ f, recs (fm_number f)) <$> fs).
Proof. unfold level_entries. induction fs as [|f fs IH]; [done|]. rewrite !fmap_cons. simpl. by rewrite IH, fmap_app. Qed.
Lemma join_levels ls : mjoin (level_entries entries_of <$> filter (λ fs, fs ≠ []) ls) = rec_kv <$> mjoin ((λ f, recs (fm_number f)) <$> mjoin ls).
Proof.
  induction ls as [|fs ls IH]; [done|]. rewrite filter_cons. simpl. rewrite fmap_app, join_app, fmap_app, <- IH, <- level_entries_recs.
  case_decide as Hne; [done|]. by destruct fs.
Qed.

Lemma current_sst_ok : ∃ sst l, current_sst_iter (db_tables d) levels = Ok sst ∧ sst_rep sst l None ∧ l ≡ₚ rec_kv <$> table_recs ∧ sorted (iord uord) l.
Proof.
  assert (levels ≠ []) as Hne.
  { intros Heq. pose proof (li_length _ _ _ _ _ (di_live _ _ _ _ _ _ _ _ _ Hinv)) as Hl. rewrite Heq in Hl. simpl in Hl. lia. }
  destruct (sorted_exists uord (rec_kv <$> table_recs)) as (l & Hp & Hs).
  { apply seqs_nodup; [apply table_recs_nodup|]. intros r Hr. apply all_recs_hist. unfold all_recs. rewrite !elem_of_app. auto. }
  assert (∃ fs0, levels !! 0%nat = Some fs0 ∧ levels = fs0 :: drop 1 levels) as (fs0 & Hfs0 & Elv).
  { destruct (levels) as [|fs0 ls]; [done|]. by exists fs0. }
  destruct (open_level0 fs0 Hfs0) as (its & Hits & H0s). destruct (open_levels (drop 1 levels)) as [Hns Hss].
  { intros fs [k Hk]%list_elem_of_lookup_1 _. exists k. by rewrite lookup_drop in Hk. }
  exists (km_new (sst_iters_new its (level_iterator <$> filter (λ fs, fs ≠ []) (drop 1 levels)))), l. unfold current_sst_iter, index. rewrite Hfs0, Ok_bind, Hits, Ok_bind.
  split_and!; [done| |done|done]. eapply km_new_rep; [apply Forall2_app; [exact H0s|exact Hns]| | |done|].
  - apply Forall_app. split; [|done]. apply Forall_fmap, Forall_forall. intros f Hf. apply file_scan, in_levels_at. by exists 0%nat, fs0.
  - rewrite join_app, join_levels, Hp. unfold table_recs. rewrite Elv at 1. simpl. rewrite fmap_app, join_app, fmap_app. apply reflexive_eq. f_equal.
    symmetry. apply level_entries_recs.
  - intros e He. rewrite Hp in He. apply list_elem_of_fmap in He as (r & -> & Hr). apply record_key_ok, hist_ok, all_recs_hist.
    unfold all_recs. rewrite !elem_of_app. auto.
Qed.

(** *** The whole database *)

(** User keys that a lookup key can hold. *)
Definition small_key (u : bytes) : Prop := uok u ∧ len u + 8 < 2 ^ 32.
Lemma small_target k : ikey_ok small_key k → mem_target_ok uok k.
Proof.
  intros [Hlen [Hu Hl]]. split; [by split|]. unfold ukey in Hl. unfold len in *. rewrite length_take in Hl. lia.
Qed.
Lemma small_ikey k : ikey_ok small_key k → ikey_ok uok k.
Proof. intros Hk. by destruct (small_target k Hk). Qed.

Definition inner_rep := sum_rep (mem_iter_rep uok uord) sst_rep.
Definition db_inner_rep := @km_rep _ (iord uord) (ikey_ok small_key) inner_rep.
#[local] Instance small_order : ComparatorOrder ucmp small_key uord.
Proof. eapply comparator_weaken; [|exact CO]. by intros ? []. Qed.

Lemma inner_fwd : @FwdLaws _ (sum_Iterator (MemTableIterator_Iterator ucmp) (SSTableIters_Iterator ucmp fuel (db_tables d))) (iord uord) (ikey_ok small_key) inner_rep.
Proof.
  apply sum_fwd.
  - eapply fwd_weaken; [|apply (mem_fwd ucmp uok uord)]. apply small_target.
  - eapply fwd_weaken; [|apply sst_fwd]. apply small_ikey.
Qed.
Lemma internal_fwd : @FwdLaws _ (InternalIterator ucmp fuel d) (iord uord) (ikey_ok small_key) db_inner_rep.
Proof. pose proof inner_fwd. unfold InternalIterator, db_inner_rep. apply km_fwd; apply _. Qed.

Lemma internal_iter_ok : ∃ it l, internal_iter d = Ok it ∧ db_inner_rep it l None ∧ l ≡ₚ rec_kv <$> all_recs ∧ sorted (iord uord) l.
Proof.
  destruct (sorted_exists uord (rec_kv <$> all_recs)) as (l & Hp & Hs); [apply seqs_nodup; [apply all_recs_nodup|]; intros r; apply all_recs_hist|].
  destruct current_sst_ok as (sst & k & Hsst & Hk & Hkp & Hks). unfold internal_iter. rewrite Hsst, Ok_bind. eexists _, l. split_and!; [done| |done|done].
  destruct mems_sorted as (Hm & Hi & _).
  destruct (mem_rep_iter uok uord _ _ (di_mem _ _ _ _ _ _ _ _ _ Hinv)) as (_ & _ & Hmit). pose proof (di_im _ _ _ _ _ _ _ _ _ Hinv) as Him. unfold im_rep in Him.
  apply (km_new_rep (iord uord) (ikey_ok small_key) inner_rep _ ((rec_kv <$> lm) :: (if db_im_mem d then [rec_kv <$> li] else []) ++ [k])).
  - constructor; [exact Hmit|]. destruct (db_im_mem d) as [im|]; simpl; [|constructor; [exact Hk|constructor]]. destruct Him as [Him _].
    destruct (mem_rep_iter uok uord _ _ Him) as (_ & _ & Hiit). constructor; [exact Hiit|]. constructor; [exact Hk|constructor].
  - constructor; [done|]. apply Forall_app. split; [|by repeat constructor]. by destruct (db_im_mem d); repeat constructor.
  - rewrite Hp. unfold all_recs. rewrite !fmap_app, <- Hkp. destruct (db_im_mem d) as [im|]; simpl; [by rewrite app_nil_r|].
    rewrite Him. simpl. by rewrite app_nil_r.
  - done.
  - intros e He. rewrite Hp in He. apply list_elem_of_fmap in He as (r & -> & Hr%all_recs_hist%hist_ok). unfold rec_kv, rec_ikey. cbn [fst].
    split; [rewrite length_ikey; lia|]. rewrite ukey_ikey. split; apply Hr.
Qed.

(** *** What the history holds *)
Lemma kind_rec r : rec_ok uok r → kind_of (rec_kv r) = r_type r.
Proof.
  intros Hr. unfold kind_of, rec_kv, rec_ikey. cbn [fst]. rewrite ktag_ikey by apply Hr.
  rewrite Z.add_comm, Z.mod_add, Z.mod_small by (try lia; destruct (r_type r); simpl; lia). apply value_type_from_code.
Qed.
Lemma ukey_rec r : ukey (rec_kv r).1 = r_user r.
Proof. apply ukey_ikey. Qed.
Lemma live_hist l seq u v : l ≡ₚ rec_kv <$> all_recs → live uord l seq u v → abs_get uord hist u seq = Some v.
Proof.
  intros Hp (e & He & Hu & Hv & Hk & Hs & Hmax). rewrite Hp in He. apply list_elem_of_fmap in He as (r & -> & Hr). apply all_recs_hist in Hr.
  pose proof (hist_ok r Hr) as Hok. rewrite kind_rec in Hk by done. rewrite (kseq_rec uok) in Hs, Hmax by done.
  rewrite ukey_rec in Hu. subst u.
  rewrite (abs_get_newest uord hist (r_user r) seq r (di_sorted _ _ _ _ _ _ _ _ _ Hinv) Hr); [unfold rec_answer; by rewrite Hk, <- Hv| |].
  - split; [apply (ord_refl uord)|done].
  - intros r' Hr' [Hu' Hs']. pose proof (hist_ok r' Hr') as Hok'. specialize (Hmax (rec_kv r')). rewrite (kseq_rec uok) in Hmax by done. apply Hmax; [|by rewrite ukey_rec|done].
    rewrite Hp. apply list_elem_of_fmap_2. by apply all_recs_hist.
Qed.
Lemma hist_live l seq u v : l ≡ₚ rec_kv <$> all_recs → abs_get uord hist u seq = Some v → ∃ u', uord u' u = Eq ∧ live uord l seq u' v.
Proof.
  intros Hp. unfold abs_get. destruct (list_find (visible uord u seq) hist) as [[i r]|] eqn:E; [|done].
  apply list_find_Some in E as (Hi & [Hu Hs] & Hbefore). assert (r ∈ hist) as Hr by (by eapply list_elem_of_lookup_2). pose proof (hist_ok r Hr) as Hok.
  unfold rec_answer. destruct (r_type r) eqn:Ht; try done. intros [= <-]. exists (r_user r). split; [done|]. exists (rec_kv r). split_and!.
  - rewrite Hp. apply list_elem_of_fmap_2. by apply all_recs_hist.
  - apply ukey_rec.
  - done.
  - by rewrite kind_rec.
  - by rewrite (kseq_rec uok).
  - intros e He Hue Hse. rewrite Hp in He. apply list_elem_of_fmap in He as (r' & -> & Hr'%all_recs_hist). pose proof (hist_ok r' Hr') as Hok'.
    rewrite ukey_rec in Hue. rewrite !(kseq_rec uok) in * by done.
    apply list_elem_of_lookup_1 in Hr' as [j Hj]. destruct (lt_eq_lt_dec j i) as [[Hlt| ->]|Hgt]; [|rewrite Hi in Hj; by injection Hj as ->|].
    + destruct (Hbefore j r' Hj Hlt). split; [|done]. by rewrite (ord_eq_l uord _ _ u Hue).
    + pose proof (ssorted_lookup newer hist i j r r' (di_sorted _ _ _ _ _ _ _ _ _ Hinv) Hgt Hi Hj) as Hn. unfold newer in Hn. lia.
Qed.
Lemma all_recs_length : length all_recs = length hist.
Proof.
  apply Permutation_length, NoDup_Permutation; [apply all_recs_nodup| |intros r; apply all_recs_hist].
  apply NoDup_alt. intros i j r Hi Hj. destruct (lt_eq_lt_dec i j) as [[Hlt| ->]|Hgt]; [|done|].
  - pose proof (ssorted_lookup newer hist i j r r (di_sorted _ _ _ _ _ _ _ _ _ Hinv) Hlt Hi Hj) as Hn. unfold newer in Hn. lia.
  - pose proof (ssorted_lookup newer hist j i r r (di_sorted _ _ _ _ _ _ _ _ _ Hinv) Hgt Hj Hi) as Hn. unfold newer in Hn. lia.
Qed.

(** The iterator of the database, over the keys the history holds. *)
Lemma db_iter_ok snapshot n : let seq := default (v_last_sequence (db_versions d)) snapshot in seq_ok seq → (length hist ≤ n)%nat →
  ∃ it r, db_iter snapshot d = Ok it ∧ sorted uord r ∧
    (∀ u v, (u, v) ∈ r → abs_get uord hist u seq = Some v) ∧
    (∀ u v, abs_get uord hist u seq = Some v → ∃ u', uord u' u = Eq ∧ (u', v) ∈ r) ∧ (length r ≤ length hist)%nat ∧
    let II := InternalIterator ucmp fuel d in
    @FwdLaws _ (DBIterator_Iterator (IT := II) ucmp n) uord small_key (db_rep uord small_key db_inner_rep n seq) ∧
    db_rep uord small_key db_inner_rep n seq it r None.
Proof.
  intros seq Hseq Hn. destruct internal_iter_ok as (inner & l & Hin & Hrep & Hp & Hs).
  assert (Forall (db_entry small_key) l) as Hde.
  { rewrite Hp. apply Forall_fmap, Forall_forall. intros r Hr%all_recs_hist%hist_ok. split; [|unfold compose; rewrite kind_rec by done; apply Hr].
    unfold compose, rec_kv, rec_ikey. cbn [fst]. split; [rewrite length_ikey; lia|]. rewrite ukey_ikey. split; apply Hr. }
  assert (Forall (λ e, kind_of e ≠ Unknown) l) as Hk by (eapply Forall_impl; [exact Hde|by intros ? []]).
  exists (di_new inner seq), (view uord seq None l). unfold db_iter. rewrite Hin, Ok_bind. split_and!; [done|by apply (view_sorted uord)|..].
  - intros u v Hv. apply (view_live uord) in Hv; [|done..]. destruct Hv as [Hv _]. by eapply live_hist.
  - intros u v Ha. destruct (hist_live l seq u v Hp Ha) as (u' & Hu & Hl). exists u'. split; [done|]. apply (view_live uord); [done..|]. by split.
  - rewrite <- all_recs_length, <- (length_fmap rec_kv), <- Hp. apply view_length.
  - pose proof internal_fwd as FI. cbv zeta. refine (db_fwd (IT := InternalIterator ucmp fuel d) ucmp uord small_key db_inner_rep n seq Hseq).
  - split; [done|]. exists l. split_and!; try done.
    + by rewrite Hp, length_fmap, all_recs_length.
    + split; [done..|]. split; [done|]. exists []. by exists None.
Qed.
End State.
End Facts.

(** ** Properties *)
Section Theorems.
Context `{CRC : Crc32, !Crc32Laws} `{FL : FileLaws F} (ck : bool) (node_base : Z) (Hbase : 0 < node_base < 2 ^ 40).
Context (ucmp : Comparator) (uok : bytes → Prop) (uord : bytes → bytes → comparison) {CO : ComparatorOrder ucmp uok uord}.
Context {B : Type} {TS : TableSink B} {TG : TableSource B} (holds : B → list entry → Prop).
Context {SL : TableSinkLaws (iord uord) (ikey_ok uok) holds} {GL : DbFacts.TableSourceLaws uok uord holds}.
Context (sink_sized : ∀ b es b', holds b es → sink_finish b = Ok b' → 0 < sink_file_size b' < 2 ^ 64).
Context (o : DbOptions) (set_iter : gset (Z * Z) → list (Z * Z)) (Hset : ∀ s, set_iter s ≡ₚ elements s).
Context (create_log create_manifest : Z → outcome F) (remove_manifest : option Z → outcome unit) (update_current : Z → outcome unit).
Context (remove_table : Z → outcome unit) (remove_file : bytes → outcome unit) (score_high : list (list FileMetaData) → bool).
Context (Ho : options_ok node_base o) {I : Type} {II : Iterator I} (size_level : list (list FileMetaData) → option nat) (input : Compaction B → gmap Z B → outcome I).
Context {TI : Type} {TN : TableScan B TI} {IT : Iterator TI} (repT : TI → list entry → option nat → Prop) {NL : TableScanLaws TN IT uok uord holds repT}.
Notation db_step := (db_step ck node_base ucmp uok o set_iter create_log create_manifest remove_manifest update_current remove_table remove_file score_high size_level input).

End Theorems.

(** *** Witness, after a commit, a rotation, a second commit and a flush *)
Import IeeeCrc.
#[local] Existing Instance DemoSink.
#[local] Existing Instance DemoSource.
Definition DemoScan : TableScan (list entry) ListIter := {| table_scan b := mkListIter b None |}.
#[local] Existing Instance DemoScan.
Lemma demo_scan_laws uok : TableScanLaws DemoScan (ListIter_Iterator (iord lex_compare)) uok lex_compare (λ b es, b = es) list_rep.
Proof. split; [apply list_fwd|apply list_bwd|]. intros b es ->. by split. Qed.

Lemma demo_levels : ∃ f, v_current (db_versions demo_db4) = [[]; [f]; []] ∧ 0 ≤ fm_file_size f < 2 ^ 62.
Proof. eexists. split; [vm_compute; reflexivity|split; vm_compute; congruence]. Qed.

