(* ===== verification/DbErrors.v ===== *)
(** * Errors on the write path, and closing: [src/db/mod.rs]

    What a failed append or sync of the log does to the writers of a group, to the
    readers and to the next writer; and how a closed database answers. *)
From stdpp Require Import gmap.
From S2P Require Import Prelude Coding Varint Comparator Format Storage Record Iterator SkipList SkipListFacts MemTable Batch VersionEdit Version VersionGet KMerge DbIter Compaction Flush DbWrite Recovery Manifest Filename Db DbFacts.
Open Scope Z_scope.

Section Errors.
Context `{CRC : Crc32} `{FO : File F} {B : Type} {TG : TableSource B}.
Context (ck : bool) (node_base : Z) (ucmp : Comparator) (o : DbOptions).
Context (create_log : Z → outcome F) (score_high : list (list FileMetaData) → bool) (error_text : error → string).
Notation DB := (DB F B).
Notation process_round := (process_round ck node_base ucmp o create_log score_high error_text).

(** Reads at a snapshot look at the memtables, the files and the tables only. *)
Lemma db_get_same (d d' : DB) snapshot u : db_mem d' = db_mem d → db_im_mem d' = db_im_mem d → v_current (db_versions d') = v_current (db_versions d) →
  db_tables d' = db_tables d → db_is_shutting_down d' = db_is_shutting_down d →
  (db_get ucmp score_high (Some snapshot) u d').1 = (db_get ucmp score_high (Some snapshot) u d).1.
Proof.
  intros H1 H2 H3 H4 H5. unfold db_get. rewrite H1, H2, H3, H4, H5. destruct (db_is_shutting_down d); [done|].
  change (default ?x (Some ?y)) with y. destruct (_ ≫= _) as [[ans stats]| | |]; try done.
  by destruct (update_stats d stats), (update_stats d' stats).
Qed.

(** The writer that comes after an error gets it, and nothing else happens. *)
Lemma error_round (d : DB) e fuel background heights first queue : db_bg_error d = Some e → db_is_shutting_down d = false → bt_stop_process first = false →
  process_round (S fuel) background heights (first :: queue) d =
    Ok ([(bt_signal first, Err (Customized ("[process batch] Error making room for write requests: " +:+ error_text e)))], RoundNext, queue, with_error d None).
Proof.
  intros He Hsh Hstop. unfold Db.process_round. rewrite Hsh, Hstop. unfold make_room_for_write. cbn [make_room_loop]. unfold room_decide. by rewrite He.
Qed.


(** A closed database.  Once [is_shutting_down] is set, reads fail with [DBClosed]
    and change nothing, new batches are refused with [DBClosed], and the next round of
    the writer thread answers every queued writer with [DBClosed] and stops: none is left
    waiting. *)
Lemma closed_rejects (d : DB) (snapshot : option Z) (u : bytes) (sync force : bool) (batch : WriteBatch) (signal fuel : nat)
    (background : list (DB → DB)) (heights : list nat) (queue : list BatchTask) :
  db_is_shutting_down d = true →
  db_get ucmp score_high snapshot u d = (Err (DBClosed "get request"), d) ∧
  schedule_batch sync batch force signal d = Ok (inl (Err (DBClosed "schedule WriteBatch"))) ∧
  ∃ answers, process_round fuel background heights queue d = Ok (answers, RoundStop, [], d) ∧
    answers.*1 = bt_signal <$> queue ∧ Forall (λ a, ∃ msg, a.2 = Err (DBClosed msg)) answers.
Proof.
  intros Hsh. unfold db_get, schedule_batch, Db.process_round. rewrite Hsh. split_and!; [done..|]. eexists. split; [done|]. split.
  - by rewrite <- list_fmap_compose.
  - apply Forall_fmap, Forall_forall. intros t _. by eexists.
Qed.
End Errors.

(** *** Witnesses: a log on a storage whose sync fails *)
Import IeeeCrc.

Definition faulty_file : FileNode := mkFileNode "/db/000009.log" true false false false false 0 inmem_default.
Definition faulty_writer : Writer FileNode := mkWriter faulty_file 0 type_crcs.
Definition faulty_versions : VersionSet FileNode := mkVset 10 0 9 0 8 None 0 (replicate 3 []) (replicate 3 ikey_default).
Definition faulty_db : DB FileNode (list entry) := mkDB demo_mem None faulty_versions (Some faulty_writer) ∅ None None false false [] ∅.
Definition faulty_batch : WriteBatch := match set_sequence (bt_batch (demo_task [Put [1] [10]])) 1 with Ok b => b | _ => wb_default end.
Definition faulty_log := log_batch (FO := FileNode_File true) faulty_writer (wb_contents faulty_batch) true.

