(* ===== verification/OpenDb.v ===== *)
(** * Opening a database: [WickDB::open_db] and [DBImpl::recover] of [src/db/mod.rs]

    The directory is locked; a new database gets its first manifest; the version set is
    recovered from the manifest that CURRENT names, the logs that are newer than it are
    replayed, a new log is created, and what was recovered is logged to a manifest.  The
    storage answers through functions on the names of its files. *)
From stdpp Require Import gmap sorting.
From S2P Require Import Prelude Coding Varint Comparator Format Storage Record Iterator SkipList SkipListFacts MemTable Batch VersionEdit Version LevelIter VersionGet VersionBuild KMerge DbIter Snapshot Compaction CompactPick Flush DbWrite Recovery Manifest Filename Db Background DbFacts.
Open Scope Z_scope.

(** The options that only opening reads. *)
Record OpenOptions : Type := mkOpenOptions {
  oo_create_if_missing : bool;
  oo_error_if_exists : bool;
  oo_paranoid_checks : bool;
  oo_reuse_logs : bool;
}.

(** What the storage answers while a database is opened: taking the lock, whether CURRENT
    exists, its contents, opening a file, opening a file that has just been written, and
    the directory at the beginning and at the end. *)
Record OpenStorage (F B : Type) : Type := mkOpenStorage {
  os_lock : outcome unit;
  os_current_exists : bool;
  os_read_current : outcome bytes;
  os_open : bytes → outcome F;
  os_reopen : F → outcome F;
  os_listing : outcome (list bytes);
  os_listing_after : outcome (list bytes);
  os_tables : gmap Z B;
}.
Arguments mkOpenStorage {F B}. Arguments os_lock {F B}. Arguments os_current_exists {F B}. Arguments os_read_current {F B}. Arguments os_open {F B}.
Arguments os_reopen {F B}. Arguments os_listing {F B}. Arguments os_listing_after {F B}. Arguments os_tables {F B}.

Section Open.
Context `{CRC : Crc32} `{FO : File F} {B : Type} {TS : TableSink B} {TG : TableSource B}.
Context (ck : bool) (node_base : Z) (ucmp : Comparator) (o : DbOptions) (oo : OpenOptions) (set_iter : gset (Z * Z) → list (Z * Z)).
Context (create_log create_manifest : Z → outcome F) (remove_manifest : option Z → outcome unit) (update_current : Z → outcome unit).
Context (remove_table : Z → outcome unit) (remove_file : bytes → outcome unit) (score_high : list (list FileMetaData) → bool) (error_text : error → string).
Context (db_path : bytes) (os : OpenStorage F B).
Notation DB := (DB F B).

(** ** A new database *)

Definition new_db_edit : VersionEdit :=
  set_last_sequence 0 (set_next_file 2 (set_log_number 0
    (mkEdit (Z.of_nat (o_max_levels o)) (Some (bytes_of_string (@cmp_name ucmp))) None None None None [] ∅ []))).
(** The first manifest, as it was written. *)
Definition create_new_db : outcome F :=
  manifest ← create_manifest 1;
  w ← writer_new manifest;
  match add_record w (encode_to set_iter new_db_edit []) with
  | (Ok _, w) => _ ← update_current 1; Ok (w_dest w)
  | (Err e, _) => _ ← remove_manifest (Some 1); Err e
  | (Panic, _) => Panic
  | (OutOfFuel, _) => OutOfFuel
  end.

(** ** [VersionSet::recover] from CURRENT *)

(** [created]: the manifest of a new database, which CURRENT then names. *)
Definition read_current (created : option F) : outcome bytes :=
  match created with Some _ => Ok (base_name FManifest 1) | None => os_read_current os end.
Definition open_file (created : option F) (name : bytes) : outcome F :=
  match created with
  | Some f => if bool_decide (name = db_path ++ SEPARATOR :: base_name FManifest 1) then os_reopen os f else os_open os name
  | None => os_open os name
  end.

(** [should_reuse_manifest]: the writer that goes on with the manifest, and its number. *)
Definition should_reuse_manifest (manifest_file : bytes) (file_size : Z) (opened : outcome F) : outcome (option (Writer F * Z)) :=
  if negb (oo_reuse_logs oo) then Ok None
  else
    match parse_filename manifest_file with
    | Some (t, number) =>
      if negb (bool_decide (t = FManifest)) || (o_max_file_size o <? file_size) then Ok None
      else
        match opened with
        | Ok f => w ← writer_new f; Ok (Some (w, number))
        | Err _ => Ok None
        | Panic => Panic
        | OutOfFuel => OutOfFuel
        end
    | None => Ok None
    end.

Definition recover_versions (n fuel : nat) (created : option F) : outcome (bool * VersionSet F) :=
  buf ← read_current created;
  if negb (utf8_valid buf) then Err (Corruption "Invalid CURRENT file content")
  else if bool_decide (buf = []) then Err (Corruption "CURRENT file is empty")
  else
    let file_name := db_path ++ SEPARATOR :: buf in
    current_manifest ← open_file created file_name;
    file_length ← file_len current_manifest;
    reuse ← should_reuse_manifest file_name file_length (open_file created file_name);
    recover ck ucmp (o_max_levels o) set_iter error_text n fuel current_manifest reuse (vset_new (o_max_levels o)).

(** ** The logs to replay *)

(** The files of the directory: the numbers that are present, and the logs that are not
    older than the manifest. *)
Fixpoint scan_files (min_log prev_log : Z) (names : list bytes) (expected : gset Z) : gset Z * list Z :=
  match names with
  | [] => (expected, [])
  | name :: names =>
    match parse_filename name with
    | Some (t, number) =>
      let '(expected, logs) := scan_files min_log prev_log names (expected ∖ {[number]}) in
      (expected, if bool_decide (t = FLog) && ((min_log <=? number) || (number =? prev_log)) then number :: logs else logs)
    | None => scan_files min_log prev_log names expected
    end
  end.

(** The variables of the loop over the logs. *)
Record Opening : Type := mkOpening {
  og_flush : FlushState B;
  og_save_manifest : bool;
  og_max_sequence : Z;
  og_reuse : option (Writer F * SkipList * Z);
}.
(** [heights]: the heights of the nodes inserted for each log. *)
Fixpoint replay_logs (n fuel : nat) (files : list (list FileMetaData)) (logs : list Z) (heights : list (list (list nat))) (s : Opening) : outcome Opening :=
  match logs with
  | [] => Ok s
  | log_number :: logs =>
    r ← replay_log_file ck node_base ucmp remove_table (o_write_buffer_size o) (oo_paranoid_checks oo) (oo_reuse_logs oo) (o_max_mem_compact_level o)
          (o_max_file_size o) error_text n fuel files (hd [] heights) (os_open os (generate_filename db_path FLog log_number))
          (match logs with [] => true | _ => false end) (og_save_manifest s) (og_flush s);
    let fl := rd_flush r in
    next ← (if fl_next fl <=? log_number then uadd ck 64 log_number 1 else Ok (fl_next fl));
    replay_logs n fuel files logs (tl heights)
      (mkOpening (mkFlush next (fl_edit fl) (fl_tables fl)) (rd_save_manifest r)
         (if og_max_sequence s <? rd_max_sequence r then rd_max_sequence r else og_max_sequence s)
         (match rd_reuse r with Some (w, mem) => Some (w, mem, log_number) | None => og_reuse s end))
  end.

(** ** [DBImpl::recover] *)
Definition db_recover (n fuel : nat) (heights : list (list (list nat))) : outcome (VersionSet F * Opening) :=
  _ ← os_lock os;
  created ← (if os_current_exists os then
               if oo_error_if_exists oo then Err (InvalidArgument (string_of_bytes db_path +:+ " exists (error_if_exists is true)")) else Ok None
             else if oo_create_if_missing oo then f ← create_new_db; Ok (Some f)
             else Err (InvalidArgument (string_of_bytes db_path +:+ " does not exist (create_if_missing is false)")));
  r ← recover_versions n fuel created;
  let '(should_save_manifest, v) := r in
  all_files ← os_listing os;
  let '(missing, logs) := scan_files (v_log_number v) (v_prev_log_number v) all_files (live_numbers [v_current v]) in
  if negb (bool_decide (missing = ∅)) && oo_paranoid_checks oo then Err (Corruption "missing files")
  else
    s ← replay_logs n fuel (v_current v) (merge_sort Z.le logs) heights
          (mkOpening (mkFlush (v_next_file_number v) (ve_new (Z.of_nat (o_max_levels o))) []) should_save_manifest 0 None);
    Ok (v, s).

(** ** [open_db] *)

(** The version set after the logs: its counters, and the log that is reused. *)
Definition opened_versions (v : VersionSet F) (s : Opening) : VersionSet F :=
  mkVset (fl_next (og_flush s)) (if v_last_sequence v <? og_max_sequence s then og_max_sequence s else v_last_sequence v)
    (match og_reuse s with Some (_, _, log_number) => log_number | None => v_log_number v end) (v_prev_log_number v) (v_manifest_file_number v)
    (v_manifest_writer v) (v_vnum v) (v_current v) (v_compaction_pointer v).
Definition with_log_number (v : VersionSet F) (log : Z) : VersionSet F :=
  mkVset (v_next_file_number v) (v_last_sequence v) log (v_prev_log_number v) (v_manifest_file_number v) (v_manifest_writer v) (v_vnum v) (v_current v)
    (v_compaction_pointer v).
(** The tables of the directory and those the replay has written, under the numbers of the
    files it has added. *)
Definition opened_tables (s : Opening) : gmap Z B :=
  foldl (λ ts nb, <[nb.1 := nb.2]> ts) (os_tables os) (zip ((λ n, fm_number n.2) <$> ve_new_files (fl_edit (og_flush s))) (fl_tables (og_flush s))).

Definition open_db (n fuel : nat) (heights : list (list (list nat))) : outcome DB :=
  mem ← mem_new ck node_base (o_write_buffer_size o);
  r ← db_recover n fuel heights;
  let '(v, s) := r in
  let v := opened_versions v s in
  let edit := fl_edit (og_flush s) in
  r ← match og_reuse s with
      | Some (w, mem, _) => Ok (v, edit, w, mem)
      | None =>
        r ← inc_next_file_number ck v;
        let '(new_log_number, v) := r in
        log_file ← create_log new_log_number;
        w ← writer_new log_file;
        Ok (with_log_number v new_log_number, set_log_number new_log_number edit, w, mem)
      end;
  let '(v, edit, w, mem) := r in
  r ← (if og_save_manifest s then
         let edit := set_log_number (v_log_number v) (set_prev_log_number 0 edit) in
         match log_and_apply ck ucmp (o_max_levels o) set_iter create_manifest remove_manifest update_current v edit with
         | (Ok _, v) => Ok v
         | (Err e, _) => Err e
         | (Panic, _) => Panic
         | (OutOfFuel, _) => OutOfFuel
         end
       else Ok v);
  let d := mkDB mem None r (Some w) ∅ None None false false [] (opened_tables s) in
  match delete_obsolete_files remove_file (os_listing_after os) [] d with
  | (Ok _, d) => Ok (maybe_schedule_compaction score_high d).2
  | (Err e, _) => Err e
  | (Panic, _) => Panic
  | (OutOfFuel, _) => OutOfFuel
  end.
End Open.
Arguments Opening F B : clear implicits.

(** ** A new database opens *)
Section Facts.
Context `{CRC : Crc32, !Crc32Laws} `{FL : FileLaws F} (ck : bool) (node_base : Z) (Hbase : 0 < node_base < 2 ^ 40).
Context (ucmp : Comparator) (uok : bytes → Prop) (uord : bytes → bytes → comparison) {CO : ComparatorOrder ucmp uok uord}.
Context {B : Type} {TS : TableSink B} {TG : TableSource B}.
Context (o : DbOptions) (oo : OpenOptions) (set_iter : gset (Z * Z) → list (Z * Z)) (Hset : ∀ s, set_iter s ≡ₚ elements s).
Context (create_log create_manifest : Z → outcome F) (remove_manifest : option Z → outcome unit) (update_current : Z → outcome unit).
Context (remove_table : Z → outcome unit) (remove_file : bytes → outcome unit) (score_high : list (list FileMetaData) → bool) (error_text : error → string).
Context (db_path : bytes) (os : OpenStorage F B) (Ho : options_ok node_base o).
(** The name of the comparator can be written to a manifest. *)
Context (Hname : bytes_of_string (@cmp_name ucmp) ≠ [] ∧ len (bytes_of_string (@cmp_name ucmp)) < 2 ^ 32 ∧ utf8_valid (bytes_of_string (@cmp_name ucmp)) = true).
Notation no_files := (replicate (o_max_levels o) ([] : list FileMetaData)).
Notation no_pointers := (replicate (o_max_levels o) ikey_default).

(** The version set that the first manifest describes. *)
Definition first_versions : VersionSet F := mkVset 2 0 0 0 1 None 0 no_files no_pointers.

Lemma no_files_ok : levels_ok uok uord no_files.
Proof. split; intros level fs [-> _]%lookup_replicate; [constructor|]. by intros _ i j a b _ Ha. Qed.
Lemma first_live : live_inv uok uord (o_max_levels o) first_versions no_files.
Proof. split; [apply same_files_refl|apply no_files_ok|apply length_replicate|apply length_replicate]. Qed.

Lemma new_edit_ok : edit_ok (new_db_edit ucmp o).
Proof.
  destruct (oo_levels _ _ Ho) as [_ Hml]. split; cbn; try done; try (intros n [= <-]; unfold in_uint; lia).
  - unfold in_uint. lia.
  - by intros n [= <-].
Qed.

Lemma first_record : ∃ s, replay ucmp set_iter (o_max_levels o) (recover_start (o_max_levels o)) [encode_to set_iter (new_db_edit ucmp o) []] = Ok s ∧
  agree first_versions s ∧ builder_inv uok uord (rs_builder s) no_files [].
Proof.
  unfold replay. cbn [foldM]. unfold recover_record. rewrite (decode_encode set_iter (new_db_edit ucmp o)).
  2: done. 2: apply new_edit_ok. 2: done.
  set (e := mkEdit _ _ _ _ _ _ _ _ _). assert (ve_comparator_name e = Some (bytes_of_string (@cmp_name ucmp))) as -> by done. rewrite bool_decide_true, Ok_bind by done.
  destruct (builder_step uok uord set_iter Hset (rs_builder (recover_start (o_max_levels o))) no_files [] e (rs_pointers (recover_start (o_max_levels o)))) as (b' & Hacc & Hb').
  - cbn [recover_start rs_builder]. unfold builder_new. split; [by rewrite !length_replicate|]. intros i x fs [-> _]%lookup_replicate [-> _]%lookup_replicate. split; [done|]. by intros f Hf%elem_of_nil.
  - split; cbn; [constructor| |constructor]. intros d Hd. by apply elem_of_empty in Hd.
  - cbn [recover_start rs_pointers]. by rewrite !length_replicate.
  - intros x Hx. by apply elem_of_nil in Hx.
  - constructor.
  - rewrite Hacc, Ok_bind. eexists. split; [done|]. split; [by split_and!|]. cbn [rs_builder].
    rewrite app_nil_r in Hb'.
    assert (edit_all no_files e = no_files) as Heq; [|by rewrite Heq in Hb'].
    apply list_eq. intros i. unfold edit_all. rewrite list_lookup_imap. by destruct (no_files !! i) as [fs|] eqn:E; [apply lookup_replicate in E as [-> _]|].
Qed.

(** What the storage does for a new database: it is locked, CURRENT is missing, manifests
    and logs are created empty, and a file that was written is opened at its start. *)
Record new_storage (f1 f2 fl : F) (names names' : list bytes) : Prop := {
  ns_lock : os_lock os = Ok tt;
  ns_current : os_current_exists os = false;
  ns_manifest1 : create_manifest 1 = Ok f1 ∧ f_ok f1 ∧ f_contents f1 = [];
  ns_manifest2 : create_manifest 2 = Ok f2 ∧ f_ok f2;
  ns_log : create_log 3 = Ok fl ∧ f_ok fl;
  ns_update k : update_current k = Ok tt;
  ns_reopen f : f_ok f → ∃ f', os_reopen os f = Ok f' ∧ f_ok f' ∧ f_pos f' = 0%nat ∧ f_contents f' = f_contents f;
  ns_listing : os_listing os = Ok names;
  ns_no_logs name k : name ∈ names → parse_filename name ≠ Some (FLog, k);
  ns_listing_after : os_listing_after os = Ok names';
}.

Lemma nil_files (v : VersionSet F) : length (v_current v) = o_max_levels o → (∀ i a b, v_current v !! i = Some a → no_files !! i = Some b → a ≡ₚ []) → v_current v = no_files.
Proof.
  intros Hlen Hp. apply list_eq. intros i. destruct (v_current v !! i) as [a|] eqn:Ha.
  - pose proof (lookup_lt_Some _ _ _ Ha) as Hi. rewrite Hlen in Hi. pose proof (lookup_replicate_2 (o_max_levels o) ([] : list FileMetaData) i Hi) as Hr. rewrite Hr.
    f_equal. by apply Permutation_nil_r, (Hp i a []).
  - symmetry. apply lookup_ge_None. rewrite length_replicate, <- Hlen. by apply lookup_ge_None.
Qed.

Lemma new_manifest_recovered f1 f2 fl names names' : new_storage f1 f2 fl names names' → oo_reuse_logs oo = false →
  ∃ f m, create_new_db ucmp o set_iter create_manifest remove_manifest update_current = Ok f ∧
    ∀ n fuel, (2 ≤ n)%nat → (m ≤ fuel)%nat →
    recover_versions ck ucmp o oo set_iter error_text db_path os n fuel (Some f) = Ok (true, mkVset 3 0 0 0 2 None 1 no_files no_pointers).
Proof.
  intros Hns Hre. destruct (ns_manifest1 _ _ _ _ _ Hns) as (Hcr & Hf1 & Hc1). set (w0 := mkWriter f1 0 type_crcs).
  assert (writer_ok w0) as Hw0 by (by split_and!). set (record := encode_to set_iter (new_db_edit ucmp o) []).
  destruct (add_record_ok w0 record Hw0) as (w & E & off & Hadd & Hfr & Hwr).
  assert (f_ok (w_dest w)) as Hfw by apply Hwr. destruct (ns_reopen _ _ _ _ _ Hns _ Hfw) as (f' & Hro & Hf' & Hp' & Hc').
  exists (w_dest w), (S (length (f_contents (w_dest w)))). split.
  { unfold create_new_db. rewrite Hcr, Ok_bind, writer_new_eq, Ok_bind. fold w0 record. by rewrite Hadd, (ns_update _ _ _ _ _ Hns), Ok_bind. }
  intros n fuel Hn Hfuel. unfold recover_versions. cbn [read_current]. rewrite Ok_bind.
  replace (utf8_valid (base_name FManifest 1)) with true by (vm_compute; reflexivity). cbn [negb].
  rewrite bool_decide_false by (vm_compute; discriminate). cbn [open_file]. rewrite bool_decide_true by done. rewrite Hro, Ok_bind, (law_len f' Hf'), Ok_bind.
  unfold should_reuse_manifest. rewrite Hre. cbn [negb]. rewrite Ok_bind.
  assert (add_records w0 [record] = (Ok tt, w)) as Hadds by (cbn [add_records]; by rewrite Hadd).
  destruct (torn_reads ck (λ d, d) f1 f' w0 w [record] true fuel (length (f_contents (w_dest w))) Hf1 Hc1 (writer_new_eq f1) Hadds Hf' Hp') as (k & r' & Hreads & Hk & Hj).
  { by rewrite Hc', take_ge. } { lia. }
  assert (k = 1%nat) as ->. { specialize (Hj 1%nat w ltac:(simpl; lia) Hadds). simpl in Hk. lia. }
  destruct first_record as (s & Hs & Hag & Hb).
  destruct (recover_ok ck ucmp uok uord set_iter (o_max_levels o) error_text n fuel f' None [record] r' s first_versions no_files [] Hreads) as (b & v2 & Hrec & Hrv & -> & Hvn & Hwr2 & Hm2); try done.
  { apply first_live. }
  rewrite Hrec. do 2 f_equal. destruct Hrv as [R1 R2 R3 R4 R5 _ R7 R8]. cbn in R1, R2, R3, R4, R5, Hm2, Hwr2.
  assert (v_current v2 = no_files) as Hcur.
  { apply nil_files; [by rewrite R7; apply length_replicate|]. intros i a b0 Ha Hb0. specialize (R8 i a b0 Ha Hb0). apply lookup_replicate in Hb0 as [-> _]. done. }
  destruct v2. cbn in *. by subst.
Qed.

Lemma live_numbers_nil k : live_numbers [replicate k []] = ∅.
Proof.
  assert (mjoin (replicate k []) = ([] : list FileMetaData)) as Hj by (induction k as [|k IH]; [done|exact IH]).
  unfold live_numbers. change (mjoin [replicate k []]) with (replicate k ([] : list FileMetaData) ++ []). by rewrite app_nil_r, Hj.
Qed.

Lemma scan_no_logs names min_log prev_log expected : (∀ name k, name ∈ names → parse_filename name ≠ Some (FLog, k)) →
  (scan_files min_log prev_log names expected).2 = [] ∧ (scan_files min_log prev_log names expected).1 ⊆ expected.
Proof.
  revert expected. induction names as [|name names IH]; intros expected Hno; [done|]. cbn [scan_files].
  assert (∀ nm k, nm ∈ names → parse_filename nm ≠ Some (FLog, k)) as Hno' by (intros nm k Hnm; apply Hno; by right).
  destruct (parse_filename name) as [[t num]|] eqn:E; [|by apply IH]. destruct (IH (expected ∖ {[num]}) Hno') as [H2 H3].
  destruct (scan_files _ _ _ _) as [ex logs]. cbn [fst snd] in *. subst logs. rewrite bool_decide_false by (intros ->; by eapply (Hno name num); [left|]).
  split; [done|set_solver].
Qed.

(** The first edit: the number of the new log. *)
Definition log_edit3 : VersionEdit := set_log_number 3 (set_prev_log_number 0 (set_log_number 3 (ve_new (Z.of_nat (o_max_levels o))))).
Lemma log_edit3_ok : step_ok uok uord (o_max_levels o) no_files [] 3 4 0 log_edit3.
Proof.
  destruct (oo_levels _ _ Ho) as [_ Hml]. split.
  - lia.
  - done.
  - split; cbn; [constructor| |constructor]. intros d Hd. by apply elem_of_empty in Hd.
  - split; cbn; try done; try (intros n [= <-]; unfold in_uint; lia). unfold in_uint. lia.
  - done.
  - done.
  - intros t [= <-]. lia.
  - intros p [= <-]. lia.
  - constructor.
  - intros i fs [-> _]%lookup_replicate _ a b l Hp. cbn in Hp. by apply Permutation_nil_l in Hp.
  - intros x Hx. by apply elem_of_nil in Hx.
Qed.

Lemma open_fresh f1 f2 fl names names' : new_storage f1 f2 fl names names' → oo_create_if_missing oo = true → oo_reuse_logs oo = false →
  ∃ m, ∀ n fuel heights, (2 ≤ n)%nat → (m ≤ fuel)%nat →
  ∃ d, open_db ck node_base ucmp o oo set_iter create_log create_manifest remove_manifest update_current remove_table remove_file score_high error_text db_path os
         n fuel heights = Ok d ∧
    db_fresh uok uord o d ∧ v_last_sequence (db_versions d) = 0 ∧ v_log_number (db_versions d) = 3 ∧ db_bg_error d = None ∧ db_is_shutting_down d = false ∧
    db_record_writer d = Some (mkWriter fl 0 type_crcs) ∧
    log_and_apply ck ucmp (o_max_levels o) set_iter create_manifest remove_manifest update_current (mkVset 4 0 3 0 2 None 1 no_files no_pointers) log_edit3 = (Ok tt, db_versions d).
Proof.
  intros Hns Hcm Hre. destruct (new_manifest_recovered f1 f2 fl names names' Hns Hre) as (f & m & Hnew & Hrec). exists m. intros n fuel heights Hn Hm.
  destruct (oo_buffer _ _ Ho) as [Hb1 Hb2]. destruct (mem_new_rep ck node_base Hbase uok uord (o_write_buffer_size o) Hb1 Hb2) as (mem & Hmem & Hrep & _).
  destruct (scan_no_logs names 0 0 (live_numbers [no_files]) (ns_no_logs _ _ _ _ _ Hns)) as [Hlogs Hexp].
  pose proof (live_numbers_nil (o_max_levels o)) as Hlive0.
  assert (db_recover ck node_base ucmp o oo set_iter create_manifest remove_manifest update_current remove_table error_text db_path os n fuel heights =
    Ok (mkVset 3 0 0 0 2 None 1 no_files no_pointers, mkOpening (mkFlush 3 (ve_new (Z.of_nat (o_max_levels o))) []) true 0 None)) as Hdr.
  { unfold db_recover. rewrite (ns_lock _ _ _ _ _ Hns), Ok_bind, (ns_current _ _ _ _ _ Hns), Hcm, Hnew, Ok_bind, Ok_bind, (Hrec n fuel Hn Hm), Ok_bind, (ns_listing _ _ _ _ _ Hns), Ok_bind.
    cbn [v_log_number v_prev_log_number v_current]. destruct (scan_files 0 0 names (live_numbers [no_files])) as [missing logs]. cbn [fst snd] in Hlogs, Hexp. subst logs.
    assert (missing = ∅) as -> by set_solver. rewrite bool_decide_true by done. cbn [negb andb]. done. }
  unfold open_db. rewrite Hmem, Ok_bind, Hdr, Ok_bind. cbn [og_reuse]. unfold inc_next_file_number, opened_versions.
  cbn [og_flush og_max_sequence og_reuse og_save_manifest fl_next fl_edit v_next_file_number v_last_sequence v_log_number v_prev_log_number v_manifest_file_number v_manifest_writer v_vnum v_current v_compaction_pointer].
  rewrite uadd_small, !Ok_bind by lia. destruct (ns_log _ _ _ _ _ Hns) as [Hcl Hfl]. destruct (ns_manifest2 _ _ _ _ _ Hns) as [Hcm2 Hf2].
  rewrite Hcl, Ok_bind, writer_new_eq, Ok_bind, Ok_bind.
  set (v3 := with_log_number _ 3). change (set_log_number (v_log_number v3) _) with log_edit3.
  assert (live_inv uok uord (o_max_levels o) v3 no_files) as Hlive.
  { split; [apply same_files_refl|apply no_files_ok|apply length_replicate|apply length_replicate]. }
  destruct (open_manifest_new ucmp set_iter (o_max_levels o) create_manifest remove_manifest
    (with_pointers (with_counters v3 4 0) (foldl (λ c p, <[Z.to_nat p.1 := p.2]> c) (v_compaction_pointer v3) (ve_compaction_pointers log_edit3))) f2 eq_refl Hcm2 Hf2)
    as (w & E & off & Hopen & _ & Hwr).
  destruct (log_step ck ucmp uok uord set_iter Hset (o_max_levels o) create_manifest remove_manifest update_current v3 no_files [] 4 0 log_edit3 w (Some 2) Hlive log_edit3_ok)
    as (w' & new & E' & off' & Hlog & _ & Hwr' & Hlive'); [done|exact Hopen|apply Hwr|by intros k [= <-]; apply (ns_update _ _ _ _ _ Hns)|].
  change (with_counters v3 4 0) with v3 in Hlog. rewrite Hlog, Ok_bind. set (v4 := after_edit _ _ _ _ _ _) in *.
  assert (v_current v4 = no_files) as Hcur.
  { destruct Hlive' as [[Hlen Hsame] _ Hl _]. apply nil_files; [congruence|]. intros i a b Ha Hb. apply (Hsame i a []); [done|]. unfold edit_all.
    rewrite list_lookup_imap, Hb. apply lookup_replicate in Hb as [-> _]. done. }
  unfold delete_obsolete_files. rewrite (ns_listing_after _ _ _ _ _ Hns). set (d := with_pending _ _). eexists. split; [done|].
  assert (∀ d1 : DB F B, let d2 := (maybe_schedule_compaction score_high d1).2 in db_mem d2 = db_mem d1 ∧ db_im_mem d2 = db_im_mem d1 ∧ db_versions d2 = db_versions d1 ∧
    db_record_writer d2 = db_record_writer d1 ∧ db_bg_error d2 = db_bg_error d1 ∧ db_is_shutting_down d2 = db_is_shutting_down d1) as Hsc.
  { intros d1. unfold maybe_schedule_compaction. by destruct (_ || _). }
  destruct (Hsc d) as (E1 & E2 & E3 & E4 & E5 & E6). split_and!; rewrite ?E3, ?E4, ?E5, ?E6; try done.
  split; rewrite ?E1, ?E2, ?E3, ?E4; cbn [d with_pending with_tables db_mem db_im_mem db_record_writer db_versions]; try done.
  - eexists. split; [done|]. by split_and!.
  - exists w'. split; [done|apply Hwr'].
  - apply Hlive'.
Qed.

(** When it may not be created, or must not exist, or is locked by someone else, the
    database is not opened, and nothing but the lock has been touched. *)
Lemma open_refused n fuel heights : (∃ mem, mem_new ck node_base (o_write_buffer_size o) = Ok mem) →
  let open := open_db ck node_base ucmp o oo set_iter create_log create_manifest remove_manifest update_current remove_table remove_file score_high error_text db_path os n fuel heights in
  (∀ e, os_lock os = Err e → open = Err e) ∧
  (os_lock os = Ok tt → os_current_exists os = true → oo_error_if_exists oo = true → ∃ msg, open = Err (InvalidArgument msg)) ∧
  (os_lock os = Ok tt → os_current_exists os = false → oo_create_if_missing oo = false → ∃ msg, open = Err (InvalidArgument msg)).
Proof.
  intros [mem Hmem]. cbv zeta. unfold open_db, db_recover. rewrite Hmem, Ok_bind. split_and!.
  - by intros e ->.
  - intros -> -> ->. rewrite Ok_bind. by eexists.
  - intros -> -> ->. rewrite Ok_bind. by eexists.
Qed.

Context (holds : B → list entry → Prop) {SL : TableSinkLaws (iord uord) (ikey_ok uok) holds} {GL : TableSourceLaws uok uord holds}.
Context (sink_sized : ∀ b es b', holds b es → sink_finish b = Ok b' → 0 < sink_file_size b' < 2 ^ 64).
Context {I : Type} {IT : Iterator I} (size_level : list (list FileMetaData) → option nat) (new_input_iterator : Compaction B → gmap Z B → outcome I).
Notation db_step := (db_step ck node_base ucmp uok o set_iter create_log create_manifest remove_manifest update_current remove_table remove_file score_high size_level new_input_iterator).

(** A new database opens and serves its history.  When the directory is empty (apart
    from files that are no logs), the storage creates empty manifests and logs and reads
    back what was written, [open_db] returns a database: the first manifest it has written
    is read back, the version set is recovered from it, the new log is recorded in a second
    manifest.  From then on, after any sequence of commits, rotations, flushes, moves of
    files, reads and errors, every read answers as the history of the records written. *)
Theorem new_database_serves (f1 f2 fl : F) (names names' : list bytes) : new_storage f1 f2 fl names names' →
  oo_create_if_missing oo = true → oo_reuse_logs oo = false →
  ∃ m, ∀ n fuel heights, (2 ≤ n)%nat → (m ≤ fuel)%nat →
  ∃ d0, open_db ck node_base ucmp o oo set_iter create_log create_manifest remove_manifest update_current remove_table remove_file score_high error_text db_path os
          n fuel heights = Ok d0 ∧ db_is_shutting_down d0 = false ∧ v_last_sequence (db_versions d0) = 0 ∧
    ∀ hist d, rtc db_step ([], d0) (hist, d) → db_is_shutting_down d = false →
    ∀ snapshot u, uok u → len u + 8 < 2 ^ 32 → seq_ok (default (v_last_sequence (db_versions d)) snapshot) →
    ∃ d', db_get ucmp score_high snapshot u d = (Ok (abs_get uord hist u (default (v_last_sequence (db_versions d)) snapshot)), d').
Proof.
  intros Hns Hcm Hre. destruct (open_fresh f1 f2 fl names names' Hns Hcm Hre) as (m & Hopen). exists m. intros n fuel heights Hn Hm.
  destruct (Hopen n fuel heights Hn Hm) as (d0 & Hrun & Hfresh & Hls & _ & _ & Hsh0 & _). exists d0. split_and!; [done..|]. intros hist d Hsteps Hsh snapshot u Hu Hl Hs.
  destruct (db_reachable_inv ck node_base Hbase ucmp uok uord holds sink_sized o set_iter Hset create_log create_manifest remove_manifest update_current remove_table remove_file score_high Ho
    size_level new_input_iterator _ _ Hsteps) as (recs & li & lm & Hinv); [eexists _, _, _; by apply fresh_inv|].
  destruct (db_get_ok ucmp uok uord holds o score_high d hist recs li lm snapshot u Hinv Hsh Hu Hl Hs) as (d' & Hg & _). by exists d'.
Qed.
End Facts.

(** *** Witness, on in-memory files with the IEEE checksum and tables in memory *)
Import IeeeCrc.
#[local] Existing Instance DemoSink.
#[local] Existing Instance DemoSource.

Definition demo_open_options : OpenOptions := mkOpenOptions true false true false.
Definition demo_path : bytes := bytes_of_string "/db".
Definition demo_storage : OpenStorage InmemFile (list entry) :=
  mkOpenStorage (Ok tt) false (Err (IO KNotFound)) (λ _, Err (IO KNotFound)) (λ f, Ok (mkInmem (im_lock f) (im_data f) 0)) (Ok [bytes_of_string "/db/LOCK"]) (Ok [bytes_of_string "/db/MANIFEST-000001"]) ∅.
Definition demo_open (fuel : nat) := open_db (FO := InmemFile_File true) true 40 bytewise demo_options demo_open_options demo_set_iter (λ _, Ok inmem_default) (λ _, Ok inmem_default)
  (λ _, Ok tt) (λ _, Ok tt) (λ _, Ok tt) (λ _, Ok tt) (λ _, false) (λ _, "") demo_path demo_storage 2 fuel [].
Lemma demo_new_storage : new_storage (FL := InmemFile_laws true) (λ _, Ok inmem_default) (λ _, Ok inmem_default) (λ _, Ok tt) demo_storage inmem_default inmem_default inmem_default
  [bytes_of_string "/db/LOCK"] [bytes_of_string "/db/MANIFEST-000001"].
Proof.
  split; try done.
  - intros f Hf. eexists. split; [done|]. by split_and!.
  - intros name k ->%list_elem_of_singleton. vm_compute. discriminate.
Qed.
Lemma new_database_serves_witness : ∃ m d0, demo_open m = Ok d0 ∧ ∃ d', db_get bytewise (λ _, false) None [1] d0 = (Ok None, d').
Proof.
  destruct (new_database_serves (FL := InmemFile_laws true) true 40 ltac:(lia) bytewise (λ _, True) lex_compare demo_options demo_open_options demo_set_iter ltac:(done)
    (λ _, Ok inmem_default) (λ _, Ok inmem_default) (λ _, Ok tt) (λ _, Ok tt) (λ _, Ok tt) (λ _, Ok tt) (λ _, false) (λ _, "") demo_path demo_storage demo_options_ok
    ltac:(split; [vm_compute; discriminate|split; vm_compute; reflexivity]) (λ b es, b = es) (SL := demo_sink_laws _ _) (GL := demo_source_laws _) demo_sink_sized
    (IT := MemTableIterator_Iterator bytewise) demo_size demo_input _ _ _ _ _ demo_new_storage eq_refl eq_refl) as (m & Hm).
  destruct (Hm 2%nat (m + 1000)%nat [] ltac:(lia) ltac:(lia)) as (d0 & Hrun & Hsh & Hls & Hserve). exists (m + 1000)%nat, d0. split; [exact Hrun|].
  specialize (Hserve [] d0 (rtc_refl _ _) Hsh None [1] I eq_refl). change (default ?x None) with x in Hserve. rewrite Hls in Hserve. apply Hserve. split; vm_compute; discriminate.
Defined.
