(* ===== verification/Reopen.v ===== *)
(** * Opening a database again after a crash

    What a crash leaves: the manifest that CURRENT names, the tables it lists, and the
    logs that are newer, each a prefix of what was written.  [open_db] replays the complete
    records of the logs into tables of level 0 and serves the history of the records that
    survived. *)
From stdpp Require Import gmap sorting.
From S2P Require Import Prelude Coding Varint Comparator Format Storage Record Iterator SkipList SkipListFacts MemTable Batch VersionEdit Version LevelIter VersionGet VersionBuild KMerge DbIter Snapshot Compaction CompactPick Flush DbWrite Recovery Manifest Filename Db Background DbFacts OpenDb.
Open Scope Z_scope.

Lemma lt_sorted_nodup (l : list Z) : StronglySorted Z.lt l → NoDup l.
Proof. induction 1 as [|k l _ IH Hk]; constructor; [|done]. intros Hx. rewrite Forall_forall in Hk. specialize (Hk k Hx). lia. Qed.

Section Logs.
Context `{CRC : Crc32, !Crc32Laws} `{FL : FileLaws F} (ck : bool).

(** [f] is what a crash left of a log to which [all] was added: the first [cut] bytes,
    which contain the records [rs] completely and no more. *)
Definition crashed_log (f : F) (rs : list bytes) : Prop :=
  ∃ f0 w' all cut, f_ok f0 ∧ f_contents f0 = [] ∧ add_records (mkWriter f0 0 type_crcs) all = (Ok tt, w') ∧
    f_ok f ∧ f_pos f = 0%nat ∧ f_contents f = take cut (f_contents (w_dest w')) ∧ ∃ k, rs = take k all ∧ (k ≤ length all)%nat ∧
    ∀ j wj, (j ≤ length all)%nat → add_records (mkWriter f0 0 type_crcs) (take j all) = (Ok tt, wj) → (j ≤ k ↔ length (f_contents (w_dest wj)) ≤ cut)%nat.

Lemma crashed_reads nb f rs : crashed_log f rs → ∃ m, ∀ fuel, (m ≤ fuel)%nat → ∃ r', reads ck nb fuel (reader_new f (Some []) true 0) [] rs r'.
Proof.
  intros (f0 & w' & all & cut & Hf0 & Hc0 & Hadd & Hf & Hp & Hc & k & -> & Hk & Hcut). exists (S (length (f_contents (w_dest w')))). intros fuel Hm.
  destruct (torn_reads ck nb f0 f (mkWriter f0 0 type_crcs) w' all true fuel cut Hf0 Hc0 (writer_new_eq f0) Hadd Hf Hp Hc) as (k' & r' & Hr & Hk' & Hcut'); [lia|].
  assert (writer_ok (mkWriter f0 0 type_crcs)) as Hw0 by (by split_and!).
  assert (∀ j, ∃ wj, add_records (mkWriter f0 0 type_crcs) (take j all) = (Ok tt, wj)) as Hex.
  { intros j. destruct (add_records_ok (mkWriter f0 0 type_crcs) (take j all) Hw0) as (wj & _ & _ & Hj & _). by exists wj. }
  assert (k = k') as ->; [|by exists r']. destruct (Hex k) as (wk & Hwk). destruct (Hex k') as (wk' & Hwk').
  pose proof (Hcut k wk Hk Hwk). pose proof (Hcut' k wk Hk Hwk). pose proof (Hcut k' wk' Hk' Hwk'). pose proof (Hcut' k' wk' Hk' Hwk'). lia.
Qed.
(** A log that was closed is complete. *)
Lemma complete_log f0 w' all f : f_ok f0 → f_contents f0 = [] → add_records (mkWriter f0 0 type_crcs) all = (Ok tt, w') → f_ok f → f_pos f = 0%nat →
  f_contents f = f_contents (w_dest w') → crashed_log f all.
Proof.
  intros Hf0 Hc0 Hadd Hf Hp Hc. exists f0, w', all, (length (f_contents (w_dest w'))). split_and!; try done; [by rewrite take_ge|].
  exists (length all). split_and!; [by rewrite take_ge|done|]. intros j wj Hj Hwj. split; [intros _|done].
  assert (writer_ok (mkWriter f0 0 type_crcs)) as Hw0 by (by split_and!).
  destruct (add_records_ok (mkWriter f0 0 type_crcs) all Hw0) as (w2 & E & o1 & Ha & Hl & Hw2). rewrite Hadd in Ha. injection Ha as <-.
  destruct (add_records_ok (mkWriter f0 0 type_crcs) (take j all) Hw0) as (w3 & E3 & o3 & Ha3 & Hl3 & Hw3). rewrite Hwj in Ha3. injection Ha3 as <-.
  destruct (log_records_split _ _ _ _ j Hl) as (E1 & E2 & om & -> & Hl1 & _). destruct (log_records_det _ _ _ _ Hl1 _ _ Hl3) as [-> _].
  destruct Hw2 as (_ & -> & _), Hw3 as (_ & -> & _). cbn [w_dest]. rewrite !length_app. lia.
Qed.
End Logs.

(** ** Replaying the logs *)
Section Replay.
Context `{CRC : Crc32, !Crc32Laws} `{FL : FileLaws F} (ck : bool) (node_base : Z) (Hbase : 0 < node_base < 2 ^ 40).
Context (ucmp : Comparator) (uok : bytes → Prop) (uord : bytes → bytes → comparison) {CO : ComparatorOrder ucmp uok uord}.
Context {B : Type} {TS : TableSink B} (holds : B → list entry → Prop) {SL : TableSinkLaws (iord uord) (ikey_ok uok) holds}.
Context (sink_sized : ∀ b es b', holds b es → sink_finish b = Ok b' → 0 < sink_file_size b' < 2 ^ 64).
Context (o : DbOptions) (oo : OpenOptions) (remove_table : Z → outcome unit) (error_text : error → string) (db_path : bytes) (os : OpenStorage F B).
Context (Ho : options_ok node_base o) (Hre : oo_reuse_logs oo = false).
(** The records of a log fit in a memtable. *)
Context (total : Z) (Hroom : 1 + (node_base + 167) * (1 + total) ≤ o_write_buffer_size o / 8 * 8) (Htotal : 0 ≤ total < 2 ^ 28).
Notation table_of := (table_of uok uord holds).

(** The tables written since [fl0], in the order of their numbers. *)
Definition written (fl0 fl : FlushState B) (fs : list FileMetaData) (parts : list (list mrec)) : Prop :=
  ∃ tabs, fl_tables fl = fl_tables fl0 ++ tabs ∧ Forall3 table_of fs tabs parts ∧ fl_edit fl = foldl add_meta (fl_edit fl0) fs ∧
    StronglySorted Z.lt (fm_number <$> fs) ∧ Forall (λ f, fl_next fl0 ≤ fm_number f < fl_next fl) fs ∧ fl_next fl0 ≤ fl_next fl.

Lemma written_start fl : written fl fl [] [].
Proof. exists []. rewrite app_nil_r. split_and!; try done; constructor. Qed.
Lemma written_bump fl0 fl fs parts next : written fl0 fl fs parts → fl_next fl ≤ next → written fl0 (mkFlush next (fl_edit fl) (fl_tables fl)) fs parts.
Proof.
  intros (tabs & H1 & H2 & H3 & H4 & H5 & H6) Hn. exists tabs. cbn [fl_tables fl_edit fl_next]. split_and!; try done; [|lia].
  eapply Forall_impl; [exact H5|]. simpl. lia.
Qed.
Lemma written_trans fl0 fl1 fl2 fs1 fs2 ps1 ps2 : written fl0 fl1 fs1 ps1 → written fl1 fl2 fs2 ps2 → written fl0 fl2 (fs1 ++ fs2) (ps1 ++ ps2).
Proof.
  intros (t1 & A1 & A2 & A3 & A4 & A5 & A6) (t2 & B1 & B2 & B3 & B4 & B5 & B6). exists (t1 ++ t2). split_and!.
  - by rewrite B1, A1, app_assoc.
  - by apply Forall3_app.
  - by rewrite foldl_app, B3, A3.
  - rewrite fmap_app. apply StronglySorted_app. split_and!; [|done|done]. rewrite Forall_forall in A5, B5.
    intros x y (f & -> & Hf)%list_elem_of_fmap (g & -> & Hg)%list_elem_of_fmap. specialize (A5 f Hf). specialize (B5 g Hg). lia.
  - apply Forall_app. split; [eapply Forall_impl; [exact A5|]|eapply Forall_impl; [exact B5|]]; simpl; lia.
  - lia.
Qed.
Lemma seqZ_sorted m n : StronglySorted Z.lt (seqZ m n).
Proof.
  destruct (decide (0 < n)) as [Hn|Hn]; [|rewrite seqZ_nil by lia; constructor]. revert m. pattern n. apply (Z_lt_induction); [|lia]. clear n Hn. intros n IH m.
  destruct (decide (0 < n)) as [Hn|Hn]; [|rewrite seqZ_nil by lia; constructor]. rewrite seqZ_cons by lia. constructor; [apply IH; lia|].
  apply Forall_forall. intros x Hx%elem_of_seqZ. lia.
Qed.
Lemma flushed_written fl0 fl parts : flushed uok uord holds fl0 fl parts → ∃ fs, written fl0 fl fs parts.
Proof.
  intros (tabs & fs & H1 & H2 & H3 & H4 & H5). exists fs, tabs. pose proof (len_nonneg parts). split_and!; try done; [rewrite H4; apply seqZ_sorted| |lia].
  apply Forall_forall. intros f Hf. assert (fm_number f ∈ fm_number <$> fs) as Hin by (by apply list_elem_of_fmap_2). rewrite H4 in Hin. apply elem_of_seqZ in Hin. lia.
Qed.

Lemma oldest_first_app ps qs : oldest_first ps → oldest_first qs → (∀ a b, a ∈ mjoin ps → b ∈ mjoin qs → r_seq a < r_seq b) → oldest_first (ps ++ qs).
Proof.
  intros Hp Hq Hpq i j p q a b Hij Hi Hj Ha Hb. apply lookup_app_Some in Hj as [Hj|[Hlj Hj]].
  { apply (Hp i j p q a b); try done. rewrite lookup_app_l in Hi; [done|]. apply lookup_lt_Some in Hj. lia. }
  apply lookup_app_Some in Hi as [Hi|[Hli Hi]]; [|by apply (Hq (i - length ps)%nat (j - length ps)%nat p q a b); [lia|..]].
  apply Hpq; apply list_elem_of_join; [exists p|exists q]; split; try done; by eapply list_elem_of_lookup_2.
Qed.

(** The logs hold the groups [opsss] from the sequence number [q] on. *)
Fixpoint logs_hold (n fuel : nat) (q : Z) (logs : list Z) (opsss : list (list (list batch_op))) : Prop :=
  match logs, opsss with
  | [], [] => True
  | log_number :: logs, opss :: opsss =>
    (∃ f rs r', os_open os (generate_filename db_path FLog log_number) = Ok f ∧ reads ck (λ _, []) fuel (reader_new f (Some []) true 0) [] rs r' ∧
      batches_from uok q rs opss ∧ (length rs < n)%nat) ∧ len (mjoin opss) ≤ total ∧ logs_hold n fuel (q + len (mjoin opss)) logs opsss
  | _, _ => False
  end.

Notation replay_logs := (replay_logs ck node_base ucmp o oo remove_table error_text db_path os).
Lemma replay_logs_ok n fuel files logs opsss : levels_ok uok uord files → sizes_ok files → length files = o_max_levels o → (Z.to_nat total ≤ fuel)%nat →
  ∀ heights q s top, Forall (Forall heights_ok) heights → logs_hold n fuel q logs opsss → 0 < q → q + len (mjoin (mjoin opsss)) ≤ MAX_KEY_SEQUENCE + 1 →
  Forall (λ k, 0 ≤ k < top) logs → 0 ≤ fl_next (og_flush s) ≤ top → top + total * len logs + 2 < 2 ^ 64 → og_save_manifest s = true → 0 ≤ og_max_sequence s →
  ∃ s' fs parts, replay_logs n fuel files logs heights s = Ok s' ∧ written (og_flush s) (og_flush s') fs parts ∧
    mjoin parts ≡ₚ op_recs q (mjoin (mjoin opsss)) ∧ oldest_first parts ∧ og_save_manifest s' = true ∧ og_reuse s' = og_reuse s ∧
    fl_next (og_flush s') ≤ top + total * len logs ∧ (og_max_sequence s ≤ og_max_sequence s') ∧
    (mjoin (mjoin opsss) ≠ [] → q + len (mjoin (mjoin opsss)) - 1 ≤ og_max_sequence s') ∧
    og_max_sequence s' ≤ Z.max (og_max_sequence s) (q + len (mjoin (mjoin opsss)) - 1) ∧ Forall (λ k, k < fl_next (og_flush s')) logs.
Proof.
  intros Hlv Hsz Hfl Hfuel. revert opsss. destruct (oo_levels _ _ Ho) as [Hml _]. destruct (oo_buffer _ _ Ho) as [Hcap _].
  induction logs as [|log logs IH]; intros [|opss opsss] heights q s top Hhs Hhold Hq Hmax Hlogs Hnext Htop Hsave Hmx0; try done.
  { exists s, [], []. cbn [OpenDb.replay_logs]. simpl in *. rewrite !len_nil in *. split_and!; try done; try lia. apply written_start. }
  destruct Hhold as ((f & rs & r' & Hopen & Hreads & Hbs & Hn) & Htot & Hhold). apply Forall_cons in Hlogs as [Hlog Hlogs]. rewrite len_cons in Htop.
  assert (mjoin (mjoin (opss :: opsss)) = mjoin opss ++ mjoin (mjoin opsss)) as Hj by (change (mjoin (opss :: opsss)) with (opss ++ mjoin opsss); apply join_app).
  rewrite Hj, len_app in *. pose proof (len_nonneg (mjoin opss)). pose proof (len_nonneg (mjoin (mjoin opsss))). pose proof (len_nonneg logs).
  pose proof (Z.mul_nonneg_nonneg total (len logs) ltac:(lia) ltac:(lia)) as Hprod. rewrite Z.mul_add_distr_l, Z.mul_1_r in Htop.
  destruct (replay_log_ok ck node_base Hbase ucmp uok uord holds (λ b es b' H1 H2, proj1 (sink_sized b es b' H1 H2)) remove_table (o_max_mem_compact_level o) (o_max_file_size o)
    (o_write_buffer_size o) (oo_paranoid_checks oo) (oo_reuse_logs oo) error_text files Hlv Hsz ltac:(rewrite Hfl; lia) (oo_file_size _ _ Ho) (og_flush s) total Hcap Hroom Htotal
    n fuel (hd [] heights) f (match logs with [] => true | _ => false end) (og_save_manifest s) r' rs q opss Hreads) as (res & Hres & Hrec & Hmx & Hsv & Hru); try done; try lia.
  { destruct Hhs; [constructor|done]. }
  specialize (Hru Hre). unfold recovered in Hrec. rewrite Hru in Hrec. destruct Hrec as (ps & Hfd & Hps & Hof & Hlp). destruct (flushed_written _ _ _ Hfd) as (fs1 & Hw1).
  assert (fl_next (og_flush s) ≤ fl_next (rd_flush res) ≤ top + total) as Hnx.
  { destruct Hfd as (_ & _ & _ & _ & _ & _ & ->). pose proof (len_nonneg ps). unfold len in Hlp. rewrite length_op_recs in Hlp. unfold len in *. lia. }
  cbn [OpenDb.replay_logs]. rewrite Hopen, Hres, Ok_bind.
  assert (∃ next, (if fl_next (rd_flush res) <=? log then uadd ck 64 log 1 else Ok (fl_next (rd_flush res))) = Ok next ∧ fl_next (rd_flush res) ≤ next ≤ top + total ∧ log < next) as (next & -> & Hnx2 & Hlt).
  { destruct (Z.leb_spec (fl_next (rd_flush res)) log); [rewrite uadd_small by lia|]; eexists; (split; [done|lia]). }
  rewrite Ok_bind, Hru. set (s1 := mkOpening _ _ _ _).
  destruct (IH opsss (tl heights) (q + len (mjoin opss)) s1 (top + total)) as (s' & fs2 & parts & -> & Hw2 & Hp2 & Hof2 & Hsv2 & Hru2 & Hnx3 & Hm1 & Hm2 & Hm3 & Hall); try done; cbn [s1 og_flush fl_next og_save_manifest og_max_sequence og_reuse] in *; try lia.
  { destruct Hhs; [constructor|done]. } { eapply Forall_impl; [exact Hlogs|]. simpl. lia. } { by apply Hsv. } { destruct (Z.ltb_spec (og_max_sequence s) (rd_max_sequence res)); lia. }
  exists s', (fs1 ++ fs2), (ps ++ parts). rewrite len_cons, Z.mul_add_distr_l, Z.mul_1_r. split_and!; try done; try lia.
  - eapply written_trans; [apply (written_bump _ _ _ _ next Hw1); lia|done].
  - by rewrite join_app, Hps, Hp2, op_recs_app.
  - apply oldest_first_app; [done|done|]. intros a b Ha Hb. rewrite Hps in Ha. rewrite Hp2 in Hb. apply op_recs_seq in Ha, Hb. lia.
  - destruct (Z.ltb_spec (og_max_sequence s) (rd_max_sequence res)); lia.
  - intros Hne. destruct (decide (mjoin (mjoin opsss) = [])) as [He|Hne']; [|specialize (Hm2 Hne'); lia]. rewrite He in *. rewrite app_nil_r in Hne. rewrite len_nil in *.
    assert (opss ≠ []) as Ho1 by (by intros ->). destruct opss as [|ops opss]; [done|]. rewrite Hmx in Hm1. destruct (Z.ltb_spec (og_max_sequence s) (q + len (mjoin (ops :: opss)) - 1)); lia.
  - destruct (Z.ltb_spec (og_max_sequence s) (rd_max_sequence res)); [|lia]. destruct opss as [|ops opss]; rewrite Hmx in *; lia.
  - constructor; [|done]. destruct Hw2 as (_ & _ & _ & _ & _ & _ & Hge). cbn [fl_next] in Hge. lia.
Qed.
End Replay.

(** ** The tables of a version and the records they hold *)
Section Versions.
Context `{CRC : Crc32, !Crc32Laws} `{FL : FileLaws F} (ck : bool) (node_base : Z) (Hbase : 0 < node_base < 2 ^ 40).
Context (ucmp : Comparator) (uok : bytes → Prop) (uord : bytes → bytes → comparison) {CO : ComparatorOrder ucmp uok uord}.
Context {B : Type} {TS : TableSink B} {TG : TableSource B} (holds : B → list entry → Prop) {SL : TableSinkLaws (iord uord) (ikey_ok uok) holds}.
Context (sink_sized : ∀ b es b', holds b es → sink_finish b = Ok b' → 0 < sink_file_size b' < 2 ^ 64).
Context (o : DbOptions) (Ho : options_ok node_base o).
Notation file_inv := (file_inv uok uord holds).
Notation table_of := (table_of uok uord holds).

(** The files of the levels, each with the records of its table; [known] are all of them. *)
Record levels_inv (levels : list (list FileMetaData)) (next : Z) (tables : gmap Z B) (known : mrec → Prop) (recs : Z → list mrec) : Prop := {
  lv_files f : in_levels levels f → file_inv tables f (recs (fm_number f)) ∧ 0 ≤ fm_number f < next;
  lv_unique i j f g : at_level levels i f → at_level levels j g → fm_number f = fm_number g → i = j ∧ f = g;
  lv_order f g a b : in_levels levels f → in_levels levels g → fm_number g < fm_number f → a ∈ recs (fm_number f) → b ∈ recs (fm_number g) → newer a b;
  lv_known r : known r ↔ ∃ f, in_levels levels f ∧ r ∈ recs (fm_number f);
}.

Lemma levels_inv_same levels levels' next next' tables tables' known known' recs : levels_inv levels next tables known recs → (∀ i f, at_level levels' i f ↔ at_level levels i f) →
  next ≤ next' → (∀ f, in_levels levels f → tables' !! fm_number f = tables !! fm_number f) → (∀ r, known' r ↔ known r) → levels_inv levels' next' tables' known' recs.
Proof.
  intros [Hf Hu Hord Hk] Hat Hn Ht Hkn. assert (∀ f, in_levels levels' f ↔ in_levels levels f) as Hin by (intros f; rewrite !in_levels_at; by setoid_rewrite Hat). split.
  - intros f Hf'%Hin. destruct (Hf f Hf') as [Hi Hnum]. split; [|lia]. eapply file_inv_tables; [by apply Ht|done].
  - intros i j f g Hi%Hat Hj%Hat. by apply Hu.
  - intros f g a b Hf'%Hin Hg'%Hin. by apply Hord.
  - intros r. rewrite Hkn, Hk. by setoid_rewrite Hin.
Qed.

(** One more file, newer than the others. *)
Lemma levels_inv_add levels levels' next next' tables tables' known recs i0 g l : levels_inv levels next tables known recs →
  (∀ i f, at_level levels' i f ↔ at_level levels i f ∨ i = i0 ∧ f = g) → 0 ≤ next ≤ fm_number g → fm_number g < next' → file_inv tables' g l →
  (∀ a b, a ∈ l → known b → newer a b) → (∀ n, n ≠ fm_number g → tables' !! n = tables !! n) →
  levels_inv levels' next' tables' (λ r, known r ∨ r ∈ l) (recs_after (fm_number g) l recs).
Proof.
  intros [Hf Hu Hord Hk] Hat Hn Hlt Hgi Hnew Ht.
  assert (∀ f, in_levels levels' f ↔ in_levels levels f ∨ f = g) as Hin.
  { intros f. rewrite !in_levels_at. setoid_rewrite Hat. split; [intros (i & [?|[_ ?]]); eauto|intros [[i ?]| ->]; eauto]. }
  assert (∀ f, in_levels levels f → fm_number f < fm_number g) as Hold by (intros f Hx; destruct (Hf f Hx); lia).
  assert (∀ f, in_levels levels f → recs_after (fm_number g) l recs (fm_number f) = recs (fm_number f)) as Hrecs.
  { intros f Hx. unfold recs_after. rewrite decide_False; [done|]. specialize (Hold f Hx). lia. }
  assert (recs_after (fm_number g) l recs (fm_number g) = l) as Hg by (unfold recs_after; by rewrite decide_True). split.
  - intros f [Hx| ->]%Hin; [|rewrite Hg; split; [done|lia]]. rewrite Hrecs by done. destruct (Hf f Hx) as [Hi Hnum]. specialize (Hold f Hx). split; [|lia].
    eapply file_inv_tables; [apply Ht; lia|done].
  - intros i j f f' [Hx|[-> ->]]%Hat [Hy|[-> ->]]%Hat; [by apply Hu| | |done]; intros Heq; exfalso.
    + specialize (Hold f ltac:(apply in_levels_at; eauto)). lia.
    + specialize (Hold f' ltac:(apply in_levels_at; eauto)). lia.
  - intros f f' a b [Hx| ->]%Hin [Hy| ->]%Hin; rewrite ?Hg, ?Hrecs by done; [by apply Hord|specialize (Hold f Hx); lia| |lia].
    intros _ Ha Hb. apply Hnew; [done|]. apply Hk. eauto.
  - intros r. rewrite Hk. split.
    + intros [(f & Hx & Hr)|Hr]; [exists f|exists g]; (split; [apply Hin; auto|]); by rewrite ?Hg, ?Hrecs.
    + intros (f & [Hx| ->]%Hin & Hr); [left; exists f; by rewrite Hrecs in Hr|right; by rewrite Hg in Hr].
Qed.

(** A table the replay has written, as a file of level 0. *)
Lemma table_of_file tables f b l : table_of f b l → tables !! fm_number f = Some b →
  file_inv tables f l ∧ file_ok uok uord f ∧ 0 < fm_file_size f < 2 ^ 64 ∧ len (ik_data (fm_smallest f)) < 2 ^ 32 ∧ len (ik_data (fm_largest f)) < 2 ^ 32.
Proof.
  intros [(b0 & Hb0 & Hfin & Hsize) Hh Hs Hok (a & z & Ha & Hz & Hsm & Hla) _] Hb. assert (rec_ok uok a ∧ rec_ok uok z) as [Hao Hzo].
  { rewrite Forall_forall in Hok. rewrite head_lookup in Ha. rewrite last_lookup in Hz. split; apply Hok; by eapply list_elem_of_lookup_2. }
  destruct (rec_key_ok uok a Hao) as (_ & _ & Hak & Hal). destruct (rec_key_ok uok z Hzo) as (_ & _ & Hzk & Hzl). rewrite Hsm, Hla, Hsize. cbn [ik_data]. split_and!; try done.
  - split; [by exists b|done|done|by exists a, z].
  - assert (last (rec_kv <$> l) = Some (rec_kv z)) as Hz' by (by rewrite fmap_last, Hz). assert (head (rec_kv <$> l) = Some (rec_kv a)) as Ha' by (destruct l; [done|]; by injection Ha as ->).
    split; rewrite ?Hsm, ?Hla; cbn [ik_data]; [done|done| |].
    + destruct (sorted_bounds ucmp uok uord _ (rec_kv a) (rec_kv z) (rec_kv z) Hs Ha' Hz') as [? _]; [|done]. rewrite last_lookup in Hz'. by eapply list_elem_of_lookup_2.
    + rewrite (kseq_rec uok z Hzo : kseq (rec_ikey z) = _). destruct Hzo as [_ [? ?] _ _ _]. done.
  - by apply (sink_sized b0 (rec_kv <$> l)).
  - by apply (sink_sized b0 (rec_kv <$> l)).
Qed.

(** The tables by their numbers. *)
Definition put_tables (tables : gmap Z B) (numbers : list Z) (tabs : list B) : gmap Z B := foldl (λ ts nb, <[nb.1 := nb.2]> ts) tables (zip numbers tabs).

Definition grow (levels : list (list FileMetaData)) (g : FileMetaData) : list (list FileMetaData) := alter (λ fs, fs ++ [g]) 0%nat levels.
Lemma grow_at levels g i f : (0 < length levels)%nat → at_level (grow levels g) i f ↔ at_level levels i f ∨ i = 0%nat ∧ f = g.
Proof.
  intros Hl. destruct levels as [|fs levels]; [simpl in Hl; lia|]. unfold at_level, grow. destruct i as [|i]; simpl.
  - split; [intros (x & [= <-] & [Hf|Hf%list_elem_of_singleton]%elem_of_app); eauto|]. intros [(x & [= <-] & Hf)|[_ ->]]; (eexists; split; [done|]; apply elem_of_app); [by left|right; by left].
  - naive_solver.
Qed.

Lemma levels_inv_replayed fs tabs parts : Forall3 table_of fs tabs parts → ∀ levels levels' next next' tables known recs, levels_inv levels next tables known recs →
  (0 < length levels)%nat → (∀ i f, at_level levels' i f ↔ at_level levels i f ∨ i = 0%nat ∧ ∃ g, g ∈ fs ∧ f = init_allowed_seeks g) →
  StronglySorted Z.lt (fm_number <$> fs) → Forall (λ f, next ≤ fm_number f < next') fs → 0 ≤ next ≤ next' → oldest_first parts → (∀ a b, a ∈ mjoin parts → known b → newer a b) →
  ∃ recs', levels_inv levels' next' (put_tables tables (fm_number <$> fs) tabs) (λ r, known r ∨ r ∈ mjoin parts) recs'.
Proof.
  induction 1 as [|f b l fs tabs parts Htab Hall IH]; intros levels levels' next next' tables known recs Hinv Hl Hat Hsort Hnums Hnext Hof Hnew.
  { exists recs. eapply levels_inv_same; [exact Hinv| |lia|done|intros r; set_solver]. intros i f. rewrite Hat. split; [intros [?|(_ & g & Hg & _)]; [done|by apply elem_of_nil in Hg]|by left]. }
  rewrite fmap_cons in Hsort. apply StronglySorted_cons in Hsort as [Hfirst Hsort]. apply Forall_cons in Hnums as [Hnum Hnums]. rewrite Forall_fmap in Hfirst.
  assert (fm_number (init_allowed_seeks f) = fm_number f) as Hin by done.
  destruct (table_of_file (<[fm_number f := b]> tables) f b l Htab (lookup_insert_eq _ _ _)) as (Hfi & _).
  assert (levels_inv (grow levels (init_allowed_seeks f)) (fm_number f + 1) (<[fm_number f := b]> tables) (λ r, known r ∨ r ∈ l) (recs_after (fm_number f) l recs)) as Hinv1.
  { rewrite <- Hin at 3. apply (levels_inv_add levels _ next _ tables _ known recs 0%nat (init_allowed_seeks f) l Hinv); rewrite ?Hin; [|lia|lia|by apply file_inv_init| |].
    - intros i x. by apply grow_at.
    - intros x y Hx Hy. apply Hnew; [apply elem_of_app; by left|done].
    - intros n Hn. by rewrite lookup_insert_ne. }
  destruct (IH (grow levels (init_allowed_seeks f)) levels' (fm_number f + 1) next' (<[fm_number f := b]> tables) (λ r, known r ∨ r ∈ l) _ Hinv1) as (recs' & Hrec).
  - unfold grow. by rewrite length_alter.
  - intros i x. rewrite Hat, grow_at by done. setoid_rewrite elem_of_cons. naive_solver.
  - done.
  - apply Forall_forall. intros g Hg. rewrite Forall_forall in Hfirst, Hnums. specialize (Hfirst g Hg). specialize (Hnums g Hg). simpl in *. lia.
  - lia.
  - intros i j p q a b' Hij Hi Hj. apply (Hof (S i) (S j)); [lia|done|done].
  - intros a b' Ha [Hk|Hk].
    + apply Hnew; [apply elem_of_app; by right|done].
    + apply list_elem_of_join in Ha as (p & Hap & [j Hj]%list_elem_of_lookup_1). by apply (Hof 0%nat (S j) l p b' a); [lia|..].
  - exists recs'. eapply levels_inv_same; [exact Hrec|done|lia|done|]. intros r. change (mjoin (l :: parts)) with (l ++ mjoin parts). rewrite elem_of_app. tauto.
Qed.

(** *** The edit of a reopened database: the tables of the replay and the new log *)
Definition reopen_edit (log : Z) (fs : list FileMetaData) : VersionEdit :=
  set_log_number log (set_prev_log_number 0 (set_log_number log (foldl add_meta (ve_new (Z.of_nat (o_max_levels o))) fs))).

Lemma add_metas e fs : Forall (λ f, fm_allowed_seeks f = 0) fs →
  foldl add_meta e fs = mkEdit (ve_max_levels e) (ve_comparator_name e) (ve_log_number e) (ve_prev_log_number e) (ve_next_file_number e) (ve_last_sequence e)
    (ve_compaction_pointers e) (ve_deleted_files e) (ve_new_files e ++ ((λ f, (0, f)) <$> fs)).
Proof.
  intros Hs. revert e. induction Hs as [|f fs Hf _ IH]; intros e; cbn [foldl].
  { rewrite fmap_nil, app_nil_r. by destruct e. }
  rewrite IH. unfold add_meta, add_file. cbn [ve_max_levels ve_comparator_name ve_log_number ve_prev_log_number ve_next_file_number ve_last_sequence ve_compaction_pointers ve_deleted_files ve_new_files].
  f_equal. rewrite <- app_assoc. do 3 f_equal. destruct f; simpl in *. by subst.
Qed.
Lemma seeks_zero fs tabs parts : Forall3 table_of fs tabs parts → Forall (λ f, fm_allowed_seeks f = 0) fs.
Proof. induction 1 as [|f b l fs tabs parts Ht _ IH]; constructor; [apply Ht|done]. Qed.

Lemma reopen_edited log fs i base : Forall (λ f, fm_allowed_seeks f = 0) fs →
  edited i base (reopen_edit log fs) = base ++ (if decide (i = 0%nat) then init_allowed_seeks <$> fs else []).
Proof.
  intros Hs. unfold edited, reopen_edit. rewrite add_metas by done. cbn [set_log_number set_prev_log_number ve_new ve_deleted_files ve_new_files app].
  rewrite filter_all; [|apply Forall_forall; intros f _; left; apply not_elem_of_empty]. f_equal. unfold added_at. rewrite filter_fmap. case_decide as Hi.
  - rewrite filter_all, <- list_fmap_compose by (apply Forall_forall; intros f _; simpl; lia). done.
  - assert (filter (λ x : FileMetaData, Z.to_nat (0, x).1 = i) fs = []) as ->; [|done]. clear -Hi. induction fs as [|f fs IH]; [done|]. rewrite filter_cons, decide_False by (simpl; lia). done.
Qed.

Lemma Forall3_l {X Y Z'} (P : X → Y → Z' → Prop) (Q : X → Prop) l k m : Forall3 P l k m → (∀ x y z, P x y z → Q x) → Forall Q l.
Proof. intros Hall HQ. induction Hall; constructor; eauto. Qed.
Lemma reopen_step_ok (v : VersionSet F) fs tabs parts log next last_sequence : live_inv uok uord (o_max_levels o) v (v_current v) → Forall3 table_of fs tabs parts →
  Forall (λ f, 0 ≤ fm_number f < next) fs → 0 ≤ v_log_number v → v_log_number v ≤ log < next → next + 1 < 2 ^ 64 → in_uint 64 last_sequence →
  step_ok uok uord (o_max_levels o) (v_current v) [] (v_log_number v) next last_sequence (reopen_edit log fs).
Proof.
  intros Hlive Hall Hnums Hlog0 Hlog Hnext Hls. destruct (oo_levels _ _ Ho) as [Hml1 Hml]. pose proof (seeks_zero _ _ _ Hall) as Hs.
  assert (Forall (λ f, file_ok uok uord f ∧ 0 < fm_file_size f < 2 ^ 64 ∧ len (ik_data (fm_smallest f)) < 2 ^ 32 ∧ len (ik_data (fm_largest f)) < 2 ^ 32) fs) as Hfs.
  { eapply Forall3_l; [exact Hall|]. intros f b l Ht. by destruct (table_of_file {[fm_number f := b]} f b l Ht (lookup_singleton_eq _ _)) as (_ & ?). }
  assert (∀ k, ikey_ok uok (ik_data k) → len (ik_data k) < 2 ^ 32 → VersionEdit.key_ok k) as Hkey.
  { intros k [Hk _] Hkl. split; [|done]. intros Heq. rewrite Heq in Hk. simpl in Hk. lia. }
  assert (∀ i base, edited i base (reopen_edit log fs) = base ++ (if decide (i = 0%nat) then init_allowed_seeks <$> fs else [])) as Hed by (intros i base; by apply reopen_edited).
  assert (ve_new_files (reopen_edit log fs) = (λ f, (0, f)) <$> fs) as Hnew by (unfold reopen_edit; by rewrite add_metas).
  assert (∀ i gs, v_current v !! i = Some gs → i ≠ 0%nat → separated uord (edited i gs (reopen_edit log fs))) as Hsep.
  { intros i gs Hgs Hi. rewrite Hed, decide_False, app_nil_r by done.
    exact (disjoint_separated uord gs (lo_disjoint _ _ _ (li_levels _ _ _ _ _ Hlive) i gs Hgs Hi) gs (reflexivity _)). }
  split; rewrite ?Hnew; try exact Hsep; try (unfold reopen_edit; rewrite add_metas by done; cbn [set_log_number set_prev_log_number ve_new ve_max_levels ve_comparator_name ve_log_number ve_prev_log_number ve_new_files ve_compaction_pointers ve_deleted_files app]).
  - lia.
  - done.
  - split; cbn; [constructor|by intros d Hd%elem_of_empty|]. apply Forall_fmap, Forall_forall. intros f _. simpl. lia.
  - split; cbn; try done; try (intros n [= <-]); try (unfold in_uint; lia). apply Forall_fmap. apply Forall_forall. intros f Hf. rewrite Forall_forall in Hfs, Hnums.
    destruct (Hfs f Hf) as ([Hsm Hla _ _] & Hsz & Hl1 & Hl2). specialize (Hnums f Hf). simpl in *.
    split; [split; simpl; lia|]. split_and!; [unfold in_uint; lia|unfold in_uint; lia|by apply Hkey|by apply Hkey].
  - done.
  - done.
  - intros t [= <-]. lia.
  - intros p [= <-]. lia.
  - apply Forall_fmap. eapply Forall_impl; [exact Hfs|]. simpl. tauto.
  - intros x _. by apply not_elem_of_nil.
Qed.

(** ** What a version set says about the history *)
Record version_inv (v : VersionSet F) (tables : gmap Z B) (hist : list mrec) (recs : Z → list mrec) : Prop := {
  vi_live : live_inv uok uord (o_max_levels o) v (v_current v);
  vi_seq : 0 ≤ v_last_sequence v ≤ MAX_KEY_SEQUENCE;
  vi_next : 0 ≤ v_next_file_number v;
  vi_levels : levels_inv (v_current v) (v_next_file_number v) tables (λ r, r ∈ hist) recs;
  vi_sorted : StronglySorted newer hist;
  vi_last r : r ∈ hist → r_seq r ≤ v_last_sequence v;
  vi_nodup : files_nodup (v_current v);
}.

Lemma version_db (d : DB F B) hist recs : version_inv (db_versions d) (db_tables d) hist recs → mem_rep uok uord (db_mem d) [] → db_im_mem d = None →
  (∃ w, db_record_writer d = Some w ∧ writer_ok w) → (∃ w, v_manifest_writer (db_versions d) = Some w ∧ writer_ok w) →
  0 ≤ v_log_number (db_versions d) < v_next_file_number (db_versions d) → db_inv uok uord holds o d hist recs [] [].
Proof.
  intros [Hlive Hseq Hn [Hf Hu Hord Hk] Hs Hl Hnd] Hm Hi Hw Hman Hlog. split; try done.
  - by rewrite Hi.
  - intros f a b _ Ha. by apply elem_of_nil in Ha.
  - intros a b Ha. by apply elem_of_nil in Ha.
  - intros r. rewrite Hk, !elem_of_nil. naive_solver.
Qed.

(** How [open_db] ends: the version set [v] gets a new manifest with the edit [e], and the
    database a new log. *)
Record opening (ck : bool) (ucmp : Comparator) (set_iter : gset (Z * Z) → list (Z * Z)) (create_log create_manifest : Z → outcome F) (remove_manifest : option Z → outcome unit)
  (update_current : Z → outcome unit) (v : VersionSet F) (e : VersionEdit) (d : DB F B) : Prop := {
  op_writer : v_manifest_writer v = None;
  op_live : live_inv uok uord (o_max_levels o) v (v_current v);
  op_step : step_ok uok uord (o_max_levels o) (v_current v) [] (v_log_number v) (v_next_file_number v) (v_last_sequence v) e;
  op_run : log_and_apply ck ucmp (o_max_levels o) set_iter create_manifest remove_manifest update_current v e = (Ok tt, db_versions d);
  op_vnum : v_vnum v + 1 < 2 ^ 64;
  op_log : 0 < v_log_number v ∧ v_next_file_number v = v_log_number v + 1 ∧ ve_log_number e = Some (v_log_number v);
  op_prev : in_uint 64 (v_prev_log_number v) ∧ ve_prev_log_number e = Some 0;
  op_edit : ve_deleted_files e = ∅ ∧ ve_compaction_pointers e = [];
  op_new f n : in_levels (v_current v) f → n ∈ ve_new_files e → fm_number f < fm_number n.2;
  op_sizes : sizes_ok (v_current v);
  op_record : ∃ fl, create_log (v_log_number v) = Ok fl ∧ f_ok fl ∧ db_record_writer d = Some (mkWriter fl 0 type_crcs);
  op_manifest : ∃ f, create_manifest (v_manifest_file_number v) = Ok f ∧ f_ok f;
  op_update : update_current (v_manifest_file_number v) = Ok tt;
}.

(** A version set that was read back from its manifest. *)
Lemma levels_inv_fmap (h : FileMetaData → FileMetaData) levels next tables known recs : (∀ f, same_file (h f) f) → levels_inv levels next tables known recs →
  levels_inv (fmap (M := list) h <$> levels) next tables known recs.
Proof.
  intros Hh [Hf Hu Hord Hk]. assert (∀ f', in_levels (fmap (M := list) h <$> levels) f' ↔ ∃ f, f' = h f ∧ in_levels levels f) as Hin.
  { intros f'. rewrite in_levels_at. setoid_rewrite fmap_at_level. setoid_rewrite in_levels_at. naive_solver. }
  assert (∀ f, fm_number (h f) = fm_number f) as Hnum by (intros f; apply Hh). split.
  - intros f' (f & -> & Hx)%Hin. rewrite Hnum. destruct (Hf f Hx). split; [|done]. by eapply file_inv_same.
  - intros i j f' g' (f & -> & Hx)%fmap_at_level (g & -> & Hy)%fmap_at_level. rewrite !Hnum. intros Heq. by destruct (Hu i j f g Hx Hy Heq) as [-> ->].
  - intros f' g' a b (f & -> & Hx)%Hin (g & -> & Hy)%Hin. rewrite !Hnum. by apply Hord.
  - intros r. rewrite Hk. split.
    + intros (f & Hx & Hr). exists (h f). rewrite Hnum. split; [apply Hin; eauto|done].
    + intros (f' & (f & -> & Hx)%Hin & Hr). rewrite Hnum in Hr. eauto.
Qed.

Lemma recovers_at (v v2 : VersionSet F) i f : recovers uok uord v v2 → at_level (v_current v2) i f ↔ at_level (fmap (M := list) init_allowed_seeks <$> v_current v) i f.
Proof.
  intros Hr. unfold at_level. rewrite list_lookup_fmap. pose proof (rc_length _ _ _ _ Hr) as Hl. pose proof (rc_files _ _ _ _ Hr i) as Hp. split.
  - intros (fs & Hfs & Hf). destruct (lookup_lt_is_Some_2 (v_current v) i) as [gs Hgs]; [rewrite <- Hl; by eapply lookup_lt_Some|].
    rewrite Hgs. eexists. split; [done|]. by rewrite <- (Hp fs gs Hfs Hgs).
  - intros (fs' & Hfs' & Hf). destruct (v_current v !! i) as [gs|] eqn:Hgs; [|done]. injection Hfs' as <-.
    destruct (lookup_lt_is_Some_2 (v_current v2) i) as [fs Hfs]; [rewrite Hl; by eapply lookup_lt_Some|]. exists fs. split; [done|]. by rewrite (Hp fs gs Hfs eq_refl).
Qed.
Lemma recovered_version (v v2 : VersionSet F) tables hist recs : version_inv v tables hist recs → recovers uok uord v v2 → version_inv v2 tables hist recs.
Proof.
  intros [[Hsf Hlv Hlen Hpl] Hseq Hn Hinv Hs Hl Hnd] Hr. split.
  - split; [apply same_files_refl|apply Hr|rewrite (rc_length _ _ _ _ Hr); done|by rewrite (rc_pointers _ _ _ _ Hr)].
  - by rewrite (rc_last _ _ _ _ Hr).
  - rewrite (rc_next _ _ _ _ Hr). lia.
  - rewrite (rc_next _ _ _ _ Hr). eapply levels_inv_same; [apply (levels_inv_fmap init_allowed_seeks); [|exact Hinv]| |lia|done|done].
    + intros f. by split_and!.
    + intros i f. by apply recovers_at.
  - done.
  - intros r. rewrite (rc_last _ _ _ _ Hr). apply Hl.
  - intros i fs Hfs. destruct (lookup_lt_is_Some_2 (v_current v) i) as [gs Hgs]; [rewrite <- (rc_length _ _ _ _ Hr); by eapply lookup_lt_Some|].
    rewrite (rc_files _ _ _ _ Hr i fs gs Hfs Hgs), <- list_fmap_compose. by apply (Hnd i gs).
Qed.
Lemma recovered_sizes (v v2 : VersionSet F) : sizes_ok (v_current v) → recovers uok uord v v2 → sizes_ok (v_current v2).
Proof.
  intros Hsz Hr i fs Hfs. destruct (lookup_lt_is_Some_2 (v_current v) i) as [gs Hgs]; [rewrite <- (rc_length _ _ _ _ Hr); by eapply lookup_lt_Some|].
  pose proof (rc_files _ _ _ _ Hr i fs gs Hfs Hgs) as Hp. destruct (Hsz i gs Hgs) as [Hpos Hsum]. split.
  - rewrite Hp. by apply Forall_fmap.
  - assert (∀ l k, l ≡ₚ k → sizes l = sizes k) as Hperm by (induction 1; simpl; lia). rewrite (Hperm _ _ Hp).
    assert (sizes (init_allowed_seeks <$> gs) = sizes gs) as ->; [|done]. clear. induction gs as [|g gs IH]; [done|]. rewrite fmap_cons. cbn [sizes foldr]. f_equal. exact IH.
Qed.
End Versions.

(** ** Opening the database *)
Section Open.
Context `{CRC : Crc32, !Crc32Laws} `{FL : FileLaws F} (ck : bool) (node_base : Z) (Hbase : 0 < node_base < 2 ^ 40).
Context (ucmp : Comparator) (uok : bytes → Prop) (uord : bytes → bytes → comparison) {CO : ComparatorOrder ucmp uok uord}.
Context {B : Type} {TS : TableSink B} {TG : TableSource B} (holds : B → list entry → Prop).
Context {SL : TableSinkLaws (iord uord) (ikey_ok uok) holds} {GL : TableSourceLaws uok uord holds}.
Context (sink_sized : ∀ b es b', holds b es → sink_finish b = Ok b' → 0 < sink_file_size b' < 2 ^ 64).
Context (o : DbOptions) (oo : OpenOptions) (set_iter : gset (Z * Z) → list (Z * Z)) (Hset : ∀ s, set_iter s ≡ₚ elements s).
Context (create_log create_manifest : Z → outcome F) (remove_manifest : option Z → outcome unit) (update_current : Z → outcome unit).
Context (remove_table : Z → outcome unit) (remove_file : bytes → outcome unit) (score_high : list (list FileMetaData) → bool) (error_text : error → string).
Context (db_path : bytes) (os : OpenStorage F B) (Ho : options_ok node_base o).
Context (Hre : oo_reuse_logs oo = false) (Hex : oo_error_if_exists oo = false).
Context (total : Z) (Hroom : 1 + (node_base + 167) * (1 + total) ≤ o_write_buffer_size o / 8 * 8) (Htotal : 0 ≤ total < 2 ^ 28).
Notation version_inv := (version_inv uok uord holds o).

(** The logs, oldest first, hold the groups [opsss] from the sequence number [q] on; of
    each, what a crash left. *)
Fixpoint logs_survive (q : Z) (logs : list Z) (opsss : list (list (list batch_op))) : Prop :=
  match logs, opsss with
  | [], [] => True
  | log_number :: logs, opss :: opsss =>
    (∃ f rs, os_open os (generate_filename db_path FLog log_number) = Ok f ∧ crashed_log f rs ∧ batches_from uok q rs opss) ∧
    len (mjoin opss) ≤ total ∧ logs_survive (q + len (mjoin opss)) logs opsss
  | _, _ => False
  end.
Lemma logs_survive_hold logs opsss q : logs_survive q logs opsss → ∃ m, ∀ n fuel, (m ≤ n)%nat → (m ≤ fuel)%nat → logs_hold ck uok db_path os total n fuel q logs opsss.
Proof.
  revert q opsss. induction logs as [|log logs IH]; intros q [|opss opsss]; try done.
  { intros _. by exists 0%nat. }
  intros ((f & rs & Hopen & Hcr & Hbs) & Htot & Hrest). destruct (IH _ _ Hrest) as (m1 & Hm1). destruct (crashed_reads ck (λ _, []) f rs Hcr) as (m2 & Hm2).
  exists (m1 + m2 + S (length rs))%nat. intros n fuel Hn Hfuel. destruct (Hm2 fuel ltac:(lia)) as (r' & Hr'). cbn [logs_hold]. split_and!; [|done|apply Hm1; lia].
  exists f, rs, r'. split_and!; try done. lia.
Qed.

(** What a crash leaves of a database: CURRENT names a manifest whose complete records
    describe [v]; the tables of [v] hold the history [hist] and are in the directory; the
    logs that [v] does not yet cover hold the groups [opsss], which are newer. *)
Record existing_storage (v : VersionSet F) (hist : list mrec) (recs : Z → list mrec) (q : Z) (logs : list Z) (opsss : list (list (list batch_op))) (names names' : list bytes) : Prop := {
  es_lock : os_lock os = Ok tt;
  es_current : os_current_exists os = true;
  es_manifest : ∃ name f rs s files known, os_read_current os = Ok name ∧ utf8_valid name = true ∧ name ≠ [] ∧ os_open os (db_path ++ SEPARATOR :: name) = Ok f ∧
    crashed_log f rs ∧ replay ucmp set_iter (o_max_levels o) (recover_start (o_max_levels o)) rs = Ok s ∧ agree v s ∧ live_inv uok uord (o_max_levels o) v files ∧
    builder_inv uok uord (rs_builder s) files known;
  es_counters : counters_ok v 0;
  es_version : version_inv v (os_tables os) hist recs;
  es_sizes : sizes_ok (v_current v);
  es_listing : os_listing os = Ok names;
  es_present f : in_levels (v_current v) f → ∃ name t, name ∈ names ∧ parse_filename name = Some (t, fm_number f);
  es_logs : merge_sort Z.le (scan_files (v_log_number v) (v_prev_log_number v) names ∅).2 = logs;
  es_survive : logs_survive q logs opsss;
  es_older r : r ∈ hist → r_seq r < q;
  es_range : 0 < q ∧ q + len (mjoin (mjoin opsss)) ≤ MAX_KEY_SEQUENCE + 1;
  es_numbers : ∃ top, v_next_file_number v + 1 ≤ top ∧ Forall (λ k, 0 ≤ k < top) logs ∧ top + total * len logs + 4 < 2 ^ 64;
  es_create k : ∃ f, create_log k = Ok f ∧ f_ok f;
  es_create_manifest : ∃ f, create_manifest (v_next_file_number v) = Ok f ∧ f_ok f;
  es_update : update_current (v_next_file_number v) = Ok tt;
  es_listing_after : os_listing_after os = Ok names';
}.

(** *** Listing the directory *)
Lemma scan_logs a b names e e' : (scan_files a b names e).2 = (scan_files a b names e').2.
Proof.
  revert e e'. induction names as [|name names IH]; intros e e'; [done|]. cbn [scan_files]. destruct (parse_filename name) as [[t k]|]; [|apply IH].
  specialize (IH (e ∖ {[k]}) (e' ∖ {[k]})). destruct (scan_files a b names (e ∖ {[k]})), (scan_files a b names (e' ∖ {[k]})). simpl in *. by rewrite IH.
Qed.
Lemma scan_missing a b names e n : n ∈ (scan_files a b names e).1 → n ∈ e ∧ ∀ name t, name ∈ names → parse_filename name ≠ Some (t, n).
Proof.
  revert e. induction names as [|name names IH]; intros e; cbn [scan_files].
  { intros Hn. split; [done|]. intros name t Hin. by apply elem_of_nil in Hin. }
  destruct (parse_filename name) as [[t k]|] eqn:E.
  - specialize (IH (e ∖ {[k]})). destruct (scan_files a b names (e ∖ {[k]})) as [ex logs]. simpl in *. intros Hn. destruct (IH Hn) as [Hin Hno].
    apply elem_of_difference in Hin as [Hin Hk]. rewrite elem_of_singleton in Hk. split; [done|]. intros nm t' [->|Hnm]%elem_of_cons; [rewrite E; congruence|by apply Hno].
  - intros Hn. destruct (IH e Hn) as [Hin Hno]. split; [done|]. intros nm t' [->|Hnm]%elem_of_cons; [by rewrite E|by apply Hno].
Qed.

Lemma live_number ls n : n ∈ live_numbers [ls] → ∃ f, in_levels ls f ∧ fm_number f = n.
Proof.
  unfold live_numbers. rewrite elem_of_list_to_set. intros (f & -> & Hf)%list_elem_of_fmap. exists f. split; [|done].
  apply list_elem_of_join in Hf as (fs & Hf & Hfs). apply list_elem_of_join in Hfs as (ls' & Hfs & Hls%list_elem_of_singleton). subst ls'. by exists fs.
Qed.

(** *** The version set and the logs are recovered *)
Notation db_recover := (db_recover ck node_base ucmp o oo set_iter create_manifest remove_manifest update_current remove_table error_text db_path os).
Lemma recover_existing v hist recs q logs opsss names names' : existing_storage v hist recs q logs opsss names names' →
  ∃ m, ∀ n fuel heights, (m ≤ n)%nat → (m ≤ fuel)%nat → Forall (Forall heights_ok) heights →
  ∃ v2 s fs parts, db_recover n fuel heights = Ok (v2, s) ∧ recovers uok uord v v2 ∧ v_manifest_writer v2 = None ∧ v_manifest_file_number v2 = v_next_file_number v ∧ v_vnum v2 = 1 ∧
    written uok uord holds (mkFlush (v_next_file_number v2) (ve_new (Z.of_nat (o_max_levels o))) []) (og_flush s) fs parts ∧
    mjoin parts ≡ₚ op_recs q (mjoin (mjoin opsss)) ∧ oldest_first parts ∧ og_save_manifest s = true ∧ og_reuse s = None ∧ fl_next (og_flush s) + 3 < 2 ^ 64 ∧
    0 ≤ og_max_sequence s ≤ Z.max 0 (q + len (mjoin (mjoin opsss)) - 1) ∧ (mjoin (mjoin opsss) ≠ [] → q + len (mjoin (mjoin opsss)) - 1 ≤ og_max_sequence s) ∧
    Forall (λ k, k < fl_next (og_flush s)) logs.
Proof.
  intros Hes. destruct (es_manifest _ _ _ _ _ _ _ _ Hes) as (name & f & rs & st & files & known & Hcur & Hutf & Hne & Hopen & Hcr & Hrep & Hag & Hlive & Hb).
  destruct (crashed_reads ck (λ d, d) f rs Hcr) as (m1 & Hm1). destruct (logs_survive_hold _ _ _ (es_survive _ _ _ _ _ _ _ _ Hes)) as (m2 & Hm2).
  exists (m1 + m2 + S (length rs) + Z.to_nat total)%nat. intros n fuel heights Hn Hfuel Hhs. destruct (Hm1 fuel ltac:(lia)) as (r' & Hreads).
  destruct (recover_ok ck ucmp uok uord set_iter (o_max_levels o) error_text n fuel f None rs r' st v files known Hreads ltac:(lia) Hrep Hag Hlive Hb (es_counters _ _ _ _ _ _ _ _ Hes))
    as (b & v2 & Hrec & Hrv & -> & Hvn & Hwr & Hmn).
  assert (recover_versions ck ucmp o oo set_iter error_text db_path os n fuel None = Ok (true, v2)) as Hrvs.
  { unfold recover_versions. cbn [read_current]. rewrite Hcur, Ok_bind, Hutf. cbn [negb]. rewrite bool_decide_false by done. cbn [open_file]. rewrite Hopen, Ok_bind.
    destruct Hcr as (_ & _ & _ & _ & _ & _ & _ & Hf & _). rewrite (law_len f Hf), Ok_bind. unfold should_reuse_manifest. rewrite Hre. cbn [negb]. by rewrite Ok_bind. }
  pose proof (recovered_version node_base Hbase uok uord holds sink_sized o v v2 _ _ _ (es_version _ _ _ _ _ _ _ _ Hes) Hrv) as Hv2.
  destruct (es_numbers _ _ _ _ _ _ _ _ Hes) as (top & Htop & Hlogs & Hbig). destruct (es_range _ _ _ _ _ _ _ _ Hes) as [Hq Hqm].
  pose proof (vi_next _ _ _ _ _ _ _ _ (es_version _ _ _ _ _ _ _ _ Hes)) as Hn0.
  destruct (replay_logs_ok ck node_base Hbase ucmp uok uord holds sink_sized o oo remove_table error_text db_path os Ho Hre total Hroom Htotal n fuel (v_current v2) logs opsss
    (rc_levels _ _ _ _ Hrv) (recovered_sizes uok uord v v2 (es_sizes _ _ _ _ _ _ _ _ Hes) Hrv) (li_length _ _ _ _ _ (vi_live _ _ _ _ _ _ _ _ Hv2)) ltac:(lia)
    heights q (mkOpening (mkFlush (v_next_file_number v2) (ve_new (Z.of_nat (o_max_levels o))) []) true 0 None) top Hhs (Hm2 n fuel ltac:(lia) ltac:(lia)) Hq Hqm Hlogs)
    as (s & fs & parts & Hrun & Hw & Hp & Hof & Hsave & Hru & Hnx & Hmx0 & Hmx1 & Hmx2 & Hall); cbn [og_flush fl_next og_save_manifest og_max_sequence og_reuse] in *; try done; try lia.
  { rewrite (rc_next _ _ _ _ Hrv). lia. }
  exists v2, s, fs, parts. split_and!; try done; try lia. unfold OpenDb.db_recover.
  rewrite (es_lock _ _ _ _ _ _ _ _ Hes), Ok_bind, (es_current _ _ _ _ _ _ _ _ Hes), Hex, Ok_bind, Hrvs, Ok_bind, (es_listing _ _ _ _ _ _ _ _ Hes), Ok_bind.
  rewrite (rc_log _ _ _ _ Hrv), (rc_prev _ _ _ _ Hrv). pose proof (es_logs _ _ _ _ _ _ _ _ Hes) as Hl.
  rewrite (scan_logs _ _ names ∅ (live_numbers [v_current v2])) in Hl. pose proof (λ n, scan_missing (v_log_number v) (v_prev_log_number v) names (live_numbers [v_current v2]) n) as Hmiss.
  destruct (scan_files _ _ names (live_numbers [v_current v2])) as [missing found]. simpl in Hl, Hmiss.
  assert (missing = ∅) as ->.
  { apply set_eq. intros k. split; [|by intros ?%elem_of_empty]. intros Hk. exfalso. destruct (Hmiss k Hk) as [(g & (i & Hg)%in_levels_at & <-)%live_number Hno].
    apply (recovers_at uok uord v v2 i g Hrv) in Hg. apply fmap_at_level in Hg as (g' & -> & Hg'). destruct (es_present _ _ _ _ _ _ _ _ Hes g') as (nm & t & Hnm & Hpn); [apply in_levels_at; by exists i|].
    by apply (Hno nm t). }
  rewrite bool_decide_true by done. cbn [negb andb]. rewrite Hl, Hrun, Ok_bind. done.
Qed.

(** *** The database that is opened *)
Notation open_db := (open_db ck node_base ucmp o oo set_iter create_log create_manifest remove_manifest update_current remove_table remove_file score_high error_text db_path os).
Lemma replayed_tables (fl : FlushState B) fs parts next : written uok uord holds (mkFlush next (ve_new (Z.of_nat (o_max_levels o))) []) fl fs parts →
  ∃ tabs, Forall3 (table_of uok uord holds) fs tabs parts ∧ fl_tables fl = tabs ∧ fl_edit fl = foldl add_meta (ve_new (Z.of_nat (o_max_levels o))) fs ∧
    (λ n, fm_number n.2) <$> ve_new_files (fl_edit fl) = fm_number <$> fs.
Proof.
  intros (tabs & Htabs & Hall & Hedit & _). exists tabs. cbn [fl_tables fl_edit app] in *. split_and!; try done. rewrite Hedit, add_metas by (by eapply seeks_zero).
  cbn [ve_new_files ve_new app]. by rewrite <- list_fmap_compose.
Qed.

(** The levels after the edit. *)
Lemma reopen_levels new files log fs i f : same_files new (edit_all files (reopen_edit o log fs)) → Forall (λ f, fm_allowed_seeks f = 0) fs → (0 < length files)%nat →
  at_level new i f ↔ at_level files i f ∨ i = 0%nat ∧ ∃ g, g ∈ fs ∧ f = init_allowed_seeks g.
Proof.
  intros Hsame Hs Hl. rewrite (edited_at new files _ i f Hsame). setoid_rewrite reopen_edited; [|done]. setoid_rewrite elem_of_app. split.
  - intros (gs & Hgs & [Hf|Hf]); [left; by exists gs|]. case_decide as Hi; [|by apply elem_of_nil in Hf]. right. split; [done|]. apply list_elem_of_fmap in Hf as (g & -> & Hg). by exists g.
  - intros [(gs & Hgs & Hf)|(-> & g & Hg & ->)]; [exists gs; auto|]. destruct (lookup_lt_is_Some_2 files 0 Hl) as [gs Hgs]. exists gs. split; [done|]. right. rewrite decide_True by done. by apply list_elem_of_fmap_2.
Qed.
Lemma reopen_nodup new files log fs next : same_files new (edit_all files (reopen_edit o log fs)) → Forall (λ f, fm_allowed_seeks f = 0) fs → files_nodup files →
  (∀ f, in_levels files f → fm_number f < next) → StronglySorted Z.lt (fm_number <$> fs) → Forall (λ f, next ≤ fm_number f) fs → files_nodup new.
Proof.
  intros Hsame Hs Hnd Hold Hsort Hnew. eapply edited_nodup; [exact Hsame|]. intros i gs Hgs. rewrite reopen_edited by done. case_decide; [|rewrite app_nil_r; by apply (Hnd i)].
  rewrite fmap_app, <- list_fmap_compose. apply NoDup_app. split_and!; [by apply (Hnd i)| |].
  - intros k (f & -> & Hf)%list_elem_of_fmap (g & Heq & Hg)%list_elem_of_fmap. simpl in Heq. rewrite Forall_forall in Hnew. specialize (Hnew g Hg).
    assert (in_levels files f) as Hx by (exists gs; split; [by eapply list_elem_of_lookup_2|done]). specialize (Hold f Hx). lia.
  - by apply lt_sorted_nodup.
Qed.

(** The version set whose edit is logged when the logs were replayed. *)
Definition reopen_start (v v2 : VersionSet F) (log last_sequence : Z) : VersionSet F :=
  mkVset (log + 1) last_sequence log (v_prev_log_number v2) (v_next_file_number v) None 1 (v_current v2) (v_compaction_pointer v2).

(** The tables of the replay hold the groups of the logs. *)
Lemma reopened_version (v v2 : VersionSet F) hist recs q ops L last fs tabs parts w new : let v3 := reopen_start v v2 L last in let v4 := after_edit v3 (L + 1) last (reopen_edit o L fs) w new in
  version_inv v2 (os_tables os) hist recs → Forall3 (table_of uok uord holds) fs tabs parts → StronglySorted Z.lt (fm_number <$> fs) → Forall (λ f, v_next_file_number v2 ≤ fm_number f < L) fs →
  v_next_file_number v2 ≤ L → mjoin parts ≡ₚ op_recs q ops → oldest_first parts → (∀ r, r ∈ hist → r_seq r < q) → v_last_sequence v2 ≤ last ≤ MAX_KEY_SEQUENCE →
  (ops ≠ [] → q + len ops - 1 ≤ last) → live_inv uok uord (o_max_levels o) v4 (edit_all (v_current v3) (reopen_edit o L fs)) →
  ∃ recs', version_inv v4 (put_tables (os_tables os) (fm_number <$> fs) tabs) (abs_write hist (q - 1) ops) recs'.
Proof.
  intros v3 v4 Hv2 Hall Hsort Hbounds Hge Hp Hof Holder Hlast Hmx Hlive4. pose proof (seeks_zero _ _ _ _ _ _ Hall) as Hsz. destruct (oo_levels _ _ Ho) as [Hml _].
  pose proof (vi_next _ _ _ _ _ _ _ _ Hv2) as Hn0. pose proof (vi_seq _ _ _ _ _ _ _ _ Hv2) as Hseq.
  assert (0 < length (v_current v2))%nat as Hlen0 by (rewrite (li_length _ _ _ _ _ (vi_live _ _ _ _ _ _ _ _ Hv2)); lia).
  assert (∀ i f, at_level (v_current v4) i f ↔ at_level (v_current v2) i f ∨ i = 0%nat ∧ ∃ g, g ∈ fs ∧ f = init_allowed_seeks g) as Hat.
  { intros i f. by apply (reopen_levels _ (v_current v3) L); [apply Hlive4|..]. }
  destruct (levels_inv_replayed node_base Hbase ucmp uok uord holds sink_sized o Ho fs tabs parts Hall (v_current v2) (v_current v4) (v_next_file_number v2) L (os_tables os) (λ r, r ∈ hist) recs
    (vi_levels _ _ _ _ _ _ _ _ Hv2)) as (recs' & Hlv'); try done; try lia.
  { intros a b Ha Hb. rewrite Hp in Ha. apply op_recs_seq in Ha. specialize (Holder b Hb). unfold newer. lia. }
  exists recs'. split; cbn [v4 after_edit v_last_sequence v_next_file_number].
  - destruct Hlive4 as [[Hlen Hsame] ? Hl ?]. split; [apply same_files_refl|done|by rewrite Hlen|done].
  - lia.
  - lia.
  - eapply levels_inv_same; [exact Hlv'|done|lia|done|]. intros r. rewrite elem_of_abs_write, Hp. replace (q - 1 + 1) with q by lia. tauto.
  - apply abs_write_sorted; [apply Hv2|]. intros r Hr. specialize (Holder r Hr). lia.
  - intros r [Hr|Hr]%elem_of_abs_write; [|pose proof (vi_last _ _ _ _ _ _ _ _ Hv2 r Hr); lia]. apply op_recs_seq in Hr as Hrs. replace (q - 1 + 1) with q in Hrs by lia.
    assert (ops ≠ []) as Hne by (intros Hz; rewrite Hz in Hr; by apply elem_of_nil in Hr). specialize (Hmx Hne). lia.
  - apply (reopen_nodup _ (v_current v3) L fs (v_next_file_number v2)); [apply Hlive4|done|apply Hv2| |done|eapply Forall_impl; [exact Hbounds|]; simpl; lia].
    intros f Hf. destruct (lv_files _ _ _ _ _ _ _ _ (vi_levels _ _ _ _ _ _ _ _ Hv2) f Hf) as [_ Hlt]. lia.
Qed.
Lemma reopened_opening (v v2 : VersionSet F) hist recs q logs opsss names names' L last fs fl (d : DB F B) : let v3 := reopen_start v v2 L last in
  existing_storage v hist recs q logs opsss names names' → recovers uok uord v v2 → Forall (λ f, fm_allowed_seeks f = 0) fs → Forall (λ f, v_next_file_number v2 ≤ fm_number f < L) fs →
  v_next_file_number v2 ≤ L → live_inv uok uord (o_max_levels o) v3 (v_current v3) → step_ok uok uord (o_max_levels o) (v_current v3) [] L (L + 1) last (reopen_edit o L fs) →
  log_and_apply ck ucmp (o_max_levels o) set_iter create_manifest remove_manifest update_current v3 (reopen_edit o L fs) = (Ok tt, db_versions d) →
  create_log L = Ok fl → f_ok fl → db_record_writer d = Some (mkWriter fl 0 type_crcs) →
  opening uok uord o ck ucmp set_iter create_log create_manifest remove_manifest update_current v3 (reopen_edit o L fs) d.
Proof.
  intros v3 Hes Hrv Hsz Hbounds Hge Hlive3 Hstep Hlog Hcl Hfl Hw. pose proof (rc_next _ _ _ _ Hrv) as Hnx2. destruct (es_counters _ _ _ _ _ _ _ _ Hes) as (_ & Hprev & _).
  pose proof (vi_next _ _ _ _ _ _ _ _ (es_version _ _ _ _ _ _ _ _ Hes)) as Hnv.
  pose proof (recovered_version node_base Hbase uok uord holds sink_sized o v v2 _ _ _ (es_version _ _ _ _ _ _ _ _ Hes) Hrv) as Hv2.
  split; cbn [v3 reopen_start v_manifest_writer v_current v_log_number v_next_file_number v_last_sequence v_vnum v_prev_log_number v_manifest_file_number]; try done.
  - split_and!; [lia|done|done].
  - split; [|done]. rewrite (rc_prev _ _ _ _ Hrv). unfold in_uint. lia.
  - unfold reopen_edit. rewrite add_metas by done. done.
  - intros f y Hf. unfold reopen_edit. rewrite add_metas by done. cbn [set_log_number set_prev_log_number ve_new_files ve_new app]. intros (x & -> & Hx)%list_elem_of_fmap. cbn [snd].
    rewrite Forall_forall in Hbounds. specialize (Hbounds x Hx). destruct (lv_files _ _ _ _ _ _ _ _ (vi_levels _ _ _ _ _ _ _ _ Hv2) f Hf) as [_ ?]. simpl in Hbounds. lia.
  - apply (recovered_sizes uok uord v v2); [apply Hes|done].
  - by exists fl.
  - apply (es_create_manifest _ _ _ _ _ _ _ _ Hes).
  - apply (es_update _ _ _ _ _ _ _ _ Hes).
Qed.

Lemma open_existing v hist recs q logs opsss names names' : existing_storage v hist recs q logs opsss names names' →
  ∃ m, ∀ n fuel heights, (m ≤ n)%nat → (m ≤ fuel)%nat → Forall (Forall heights_ok) heights →
  ∃ d recs', open_db n fuel heights = Ok d ∧ db_inv uok uord holds o d (abs_write hist (q - 1) (mjoin (mjoin opsss))) recs' [] [] ∧
    db_is_shutting_down d = false ∧ db_bg_error d = None ∧
    ∃ v' e, opening uok uord o ck ucmp set_iter create_log create_manifest remove_manifest update_current v' e d ∧ v_compaction_pointer v' = v_compaction_pointer v ∧
      v_next_file_number v < v_log_number v' ∧ Forall (λ k, k < v_log_number v') logs.
Proof.
  intros Hes. destruct (recover_existing _ _ _ _ _ _ _ _ Hes) as (m & Hm). exists m. intros n fuel heights Hn Hfuel Hhs.
  destruct (Hm n fuel heights Hn Hfuel Hhs) as (v2 & s & fs & parts & Hdr & Hrv & Hwr & Hmn & Hvn & Hw & Hp & Hof & Hsave & Hru & Hnx & Hmx & Hmx1 & Hall0). clear Hm.
  pose proof (recovered_version node_base Hbase uok uord holds sink_sized o v v2 _ _ _ (es_version _ _ _ _ _ _ _ _ Hes) Hrv) as Hv2.
  destruct (oo_buffer _ _ Ho) as [Hb1 Hb2]. destruct (mem_new_rep ck node_base Hbase uok uord (o_write_buffer_size o) Hb1 Hb2) as (mem & Hmem & Hrep & _).
  destruct (replayed_tables _ _ _ _ Hw) as (tabs & Hall & Htabs & Hedit & Hnums). destruct Hw as (_ & _ & _ & _ & Hsort & Hbounds & Hge). cbn [fl_next] in Hbounds, Hge.
  pose proof (vi_next _ _ _ _ _ _ _ _ Hv2) as Hn0. pose proof (vi_seq _ _ _ _ _ _ _ _ Hv2) as Hseq. destruct (es_range _ _ _ _ _ _ _ _ Hes) as [Hq Hqm].
  set (L := fl_next (og_flush s)) in *. set (last := if v_last_sequence v2 <? og_max_sequence s then og_max_sequence s else v_last_sequence v2).
  assert (v_last_sequence v2 ≤ last ∧ og_max_sequence s ≤ last ≤ MAX_KEY_SEQUENCE) as (Hl1 & Hl2 & Hl3) by (unfold last; destruct (Z.ltb_spec (v_last_sequence v2) (og_max_sequence s)); lia).
  set (v3 := reopen_start v v2 L last).
  assert (live_inv uok uord (o_max_levels o) v3 (v_current v3)) as Hlive3 by (destruct (vi_live _ _ _ _ _ _ _ _ Hv2); by split).
  assert (step_ok uok uord (o_max_levels o) (v_current v3) [] (v_log_number v3) (L + 1) last (reopen_edit o L fs)) as Hstep.
  { eapply (reopen_step_ok node_base Hbase ucmp uok uord holds sink_sized o Ho v3 fs tabs parts); try done; cbn [v3 reopen_start v_log_number]; try lia.
    - eapply Forall_impl; [exact Hbounds|]. simpl. lia.
    - unfold in_uint, MAX_KEY_SEQUENCE in *. lia. }
  destruct (es_create_manifest _ _ _ _ _ _ _ _ Hes) as (f2 & Hcm & Hf2). destruct (es_create _ _ _ _ _ _ _ _ Hes L) as (fl & Hcl & Hfl).
  destruct (open_manifest_new ucmp set_iter (o_max_levels o) create_manifest remove_manifest
    (with_pointers (with_counters v3 (L + 1) last) (foldl (λ c p, <[Z.to_nat p.1 := p.2]> c) (v_compaction_pointer v3) (ve_compaction_pointers (reopen_edit o L fs)))) f2 eq_refl Hcm Hf2)
    as (w & E & off & Hopen & _ & Hww).
  destruct (log_step ck ucmp uok uord set_iter Hset (o_max_levels o) create_manifest remove_manifest update_current v3 (v_current v3) [] (L + 1) last (reopen_edit o L fs) w
    (Some (v_next_file_number v)) Hlive3 Hstep) as (w' & new & E' & off' & Hlog & _ & Hwr' & Hlive4); [done|exact Hopen|apply Hww|by intros k [= <-]; apply (es_update _ _ _ _ _ _ _ _ Hes)|].
  change (with_counters v3 (L + 1) last) with v3 in Hlog. set (v4 := after_edit _ _ _ _ _ _) in *. pose proof (seeks_zero _ _ _ _ _ _ Hall) as Hsz.
  unfold OpenDb.open_db. rewrite Hmem, Ok_bind, Hdr, Ok_bind, Hru. unfold inc_next_file_number, opened_versions. rewrite Hru.
  cbn [v_next_file_number v_last_sequence v_log_number v_prev_log_number v_manifest_file_number v_manifest_writer v_vnum v_current v_compaction_pointer]. fold L last.
  rewrite uadd_small, !Ok_bind by lia. rewrite Hcl, Ok_bind, writer_new_eq, Ok_bind, Ok_bind, Hsave, Hwr, Hmn, Hvn, Hedit.
  change (with_log_number _ L) with v3. change (set_log_number (v_log_number v3) _) with (reopen_edit o L fs).
  rewrite Hlog, Ok_bind.
  assert (opened_tables os s = put_tables (os_tables os) (fm_number <$> fs) tabs) as Ht by (unfold opened_tables; by rewrite Hnums, Htabs).
  destruct (reopened_version v v2 hist recs q (mjoin (mjoin opsss)) L last fs tabs parts w' new Hv2 Hall) as (recs' & Hv4); try done; try lia.
  { apply (es_older _ _ _ _ _ _ _ _ Hes). } { intros Hne. specialize (Hmx1 Hne). lia. }
  fold v3 v4 in Hv4. rewrite <- Ht in Hv4.
  set (d := mkDB _ _ _ _ _ _ _ _ _ _ _). assert (db_inv uok uord holds o d (abs_write hist (q - 1) (mjoin (mjoin opsss))) recs' [] []) as Hinv.
  { apply (version_db node_base Hbase uok uord holds sink_sized o d); try done; cbn [d db_versions db_mem db_im_mem db_record_writer v4 after_edit v_manifest_writer v_log_number v_next_file_number].
    - eexists. split; [done|]. by split_and!.
    - exists w'. split; [done|apply Hwr'].
    - unfold reopen_edit. simpl. lia. }
  pose proof (delete_inv uok uord holds o remove_file (os_listing_after os) [] d _ _ _ _ Hinv) as Hinv2. rewrite (es_listing_after _ _ _ _ _ _ _ _ Hes) in *.
  unfold delete_obsolete_files in *. cbn [snd] in Hinv2. eexists _, recs'. split; [done|]. split; [by apply schedule_inv|].
  split; [unfold maybe_schedule_compaction; by destruct (_ || _)|]. split; [unfold maybe_schedule_compaction; by destruct (_ || _)|].
  pose proof (rc_next _ _ _ _ Hrv) as Hnx2.
  exists v3, (reopen_edit o L fs). split_and!; [|by cbn [v3 reopen_start v_compaction_pointer]; rewrite (rc_pointers _ _ _ _ Hrv)|cbn [v3 reopen_start v_log_number]; lia|done].
  apply (reopened_opening v v2 hist recs q logs opsss names names' L last fs fl); try done; unfold maybe_schedule_compaction; by destruct (_ || _).
Qed.

Context {I : Type} {IT : Iterator I} (size_level : list (list FileMetaData) → option nat) (new_input_iterator : Compaction B → gmap Z B → outcome I).
Notation db_step := (db_step ck node_base ucmp uok o set_iter create_log create_manifest remove_manifest update_current remove_table remove_file score_high size_level new_input_iterator).

End Open.

(** *** Witness: a new manifest, and a log whose second record is torn *)
Import IeeeCrc.
#[local] Existing Instance DemoSink.
#[local] Existing Instance DemoSource.
#[local] Instance demo_file : File InmemFile := InmemFile_File true.
#[local] Instance demo_file_laws : FileLaws InmemFile := InmemFile_laws true.

Definition demo_manifest : bytes := encode_to demo_set_iter (new_db_edit bytewise demo_options) [].
Definition demo_batch (q : Z) (ops : list batch_op) : bytes := to_le_bytes 8 q ++ to_le_bytes 4 (len ops) ++ mjoin (op_bytes <$> ops).
Definition demo_log : list bytes := [demo_batch 1 [Put [1] [10]; Delete [2]]; demo_batch 3 [Put [1] [30]]].
Definition demo_written (rs : list bytes) : InmemFile := w_dest (add_records (mkWriter inmem_default 0 type_crcs) rs).2.
Definition demo_torn (cut : nat) (rs : list bytes) : InmemFile := mkInmem false (take cut (f_contents (demo_written rs))) 0.
Definition demo_log_name : bytes := generate_filename demo_path FLog 3.
Definition demo_manifest_name : bytes := demo_path ++ SEPARATOR :: base_name FManifest 1.
Definition demo_open_file (name : bytes) : outcome InmemFile :=
  if bool_decide (name = demo_manifest_name) then Ok (demo_torn 1000 [demo_manifest])
  else if bool_decide (name = demo_log_name) then Ok (demo_torn 50 demo_log)
  else Err (IO KNotFound).
Definition demo_reopen_options : OpenOptions := mkOpenOptions false false true false.
Definition demo_crashed : OpenStorage InmemFile (list entry) :=
  mkOpenStorage (Ok tt) true (Ok (base_name FManifest 1)) demo_open_file (λ f, Ok f) (Ok [demo_manifest_name; demo_log_name]) (Ok [demo_log_name]) ∅.

Lemma demo_crashed_log cut rs k : (k ≤ length rs)%nat →
  forallb (λ j, Bool.eqb (j <=? k)%nat (length (f_contents (demo_written (take j rs))) <=? cut)%nat) (seq 0 (S (length rs))) = true → crashed_log (demo_torn cut rs) (take k rs).
Proof.
  intros Hk Hcut. assert (writer_ok (mkWriter (inmem_default : InmemFile) 0 type_crcs)) as Hw by done.
  destruct (add_records_ok _ rs Hw) as (w' & _ & _ & Hadd & _). exists inmem_default, w', rs, cut. split_and!; try done.
  { unfold demo_torn, demo_written. by rewrite Hadd. }
  exists k. split_and!; [done..|]. intros j wj Hj Hwj. rewrite forallb_forall in Hcut. specialize (Hcut j ltac:(apply in_seq; lia)). apply eqb_prop in Hcut.
  unfold demo_written in Hcut. rewrite Hwj in Hcut. cbn [snd] in Hcut. rewrite <- !Nat.leb_le. by rewrite Hcut.
Qed.
Lemma demo_no_files n : levels_inv (λ _, True) lex_compare (λ (b : list entry) es, b = es) (replicate 3 []) n ∅ (λ r, r ∈ []) (λ _, []).
Proof.
  assert (∀ i f, ¬ at_level (replicate 3 []) i f) as Hno by (intros i f (fs & [-> _]%lookup_replicate & Hf); by apply elem_of_nil in Hf).
  assert (∀ f, ¬ in_levels (replicate 3 []) f) as Hno' by (intros f (i & Hi)%in_levels_at; by apply (Hno i f)).
  split; try (intros; exfalso; by eapply Hno); try (intros; exfalso; by eapply Hno'). intros r. split; [by intros ?%elem_of_nil|]. intros (f & Hf & _). by apply Hno' in Hf.
Qed.
Lemma demo_existing : existing_storage bytewise (λ _, True) lex_compare (λ b es, b = es) demo_options demo_set_iter (λ _, Ok inmem_default) (λ _, Ok inmem_default) (λ _, Ok tt) demo_path demo_crashed 3
  (first_versions demo_options) [] (λ _, []) 1 [3] [[[Put [1] [10]; Delete [2]]]] [demo_manifest_name; demo_log_name] [demo_log_name].
Proof.
  assert (bytes_of_string (@cmp_name bytewise) ≠ [] ∧ len (bytes_of_string (@cmp_name bytewise)) < 2 ^ 32 ∧ utf8_valid (bytes_of_string (@cmp_name bytewise)) = true) as Hname
    by (split; [vm_compute; discriminate|split; vm_compute; reflexivity]).
  split; try done.
  - destruct (first_record (F := InmemFile) 40 bytewise (λ _, True) lex_compare demo_options demo_set_iter ltac:(done) demo_options_ok Hname) as (s & Hs & Hag & Hb).
    exists (base_name FManifest 1), (demo_torn 1000 [demo_manifest]), [demo_manifest], s, (replicate 3 []), []. 
    split; [reflexivity|]. split; [vm_compute; reflexivity|]. split; [vm_compute; discriminate|].
    split; [cbn [demo_crashed os_open]; unfold demo_open_file; by rewrite bool_decide_true|].
    split; [apply (demo_crashed_log 1000 [demo_manifest] 1); [simpl; lia|vm_compute; reflexivity]|]. split; [exact Hs|]. split; [exact Hag|]. split; [apply first_live|exact Hb].
  - split; try done; [exact (first_live (λ _, True) lex_compare demo_options)|apply demo_no_files|constructor|by intros r Hr%elem_of_nil|]. intros i fs [-> _]%lookup_replicate. constructor.
  - intros i fs [-> _]%lookup_replicate. split; [constructor|done].
  - intros f (fs & Hfs & Hf). cbn [first_versions v_current] in Hfs. apply elem_of_replicate in Hfs as [-> _]. by apply elem_of_nil in Hf.
  - cbn [logs_survive]. split_and!; try done. exists (demo_torn 50 demo_log), (take 1 demo_log). split_and!.
    + vm_compute. reflexivity.
    + apply demo_crashed_log; [simpl; lia|]. vm_compute. reflexivity.
    + repeat split; simpl; try done; try (repeat constructor; done); vm_compute; (done || intros ?; congruence).
  - intros r Hr. by apply elem_of_nil in Hr.
  - exists 4. split_and!; [done|repeat constructor; done|done].
  - intros k. by exists inmem_default.
  - by exists inmem_default.
Qed.
