(* ===== verification/Durable.v ===== *)
(** * What the files of a running database hold

    While a database runs, its manifest describes the version set and its logs hold the
    groups that are in no table yet.  Every step keeps this ([Durable]), so what a crash
    leaves can be opened again ([Reopen]) and serves the history up to the last complete
    group. *)
From stdpp Require Import gmap sorting.
From S2P Require Import Prelude Coding Varint Comparator Format Storage Record Iterator SkipList SkipListFacts MemTable Batch VersionEdit Version LevelIter VersionGet VersionBuild KMerge DbIter Snapshot Compaction CompactPick Flush DbWrite Recovery Manifest Filename Db Sampling Background DbFacts OpenDb Reopen.
Open Scope Z_scope.

(** ** Logs *)
Section Logs.
Context `{CRC : Crc32, !Crc32Laws} `{FL : FileLaws F}.

(** The log of a writer consists of the records [rs]. *)
Definition log_holds (w : Writer F) (rs : list bytes) : Prop :=
  ∃ f0, f_ok f0 ∧ f_contents f0 = [] ∧ log_records 0 rs (f_contents (w_dest w)) (w_block_offset w).

Lemma log_records_snoc off rs E o r E2 o2 : log_records off rs E o → log_frags o true r E2 o2 → log_records off (rs ++ [r]) (E ++ E2) o2.
Proof.
  induction 1 as [|off s E o1 rs Es o' Hf Hr IH]; intros Hr2; cbn [app].
  - rewrite <- (app_nil_r E2). econstructor; [exact Hr2|constructor].
  - rewrite <- app_assoc. econstructor; [exact Hf|by apply IH].
Qed.
Lemma log_holds_new f : f_ok f → f_contents f = [] → log_holds (mkWriter f 0 type_crcs) [].
Proof. intros Hf Hc. exists f. split_and!; [done..|]. cbn [w_dest w_block_offset]. rewrite Hc. constructor. Qed.
Lemma log_holds_add w w' rs r E off : log_holds w rs → log_frags (w_block_offset w) true r E off → wrote w w' E off → log_holds w' (rs ++ [r]).
Proof.
  intros (f0 & Hf & Hc & Hl) Hr (_ & Hcon & _ & Hoff). exists f0. split_and!; [done..|]. rewrite Hcon, Hoff. by eapply log_records_snoc.
Qed.

(** What a crash leaves of such a log: all of it, or a part. *)
Lemma log_holds_writes w rs : log_holds w rs → ∃ f0 w2, f_ok f0 ∧ f_contents f0 = [] ∧ add_records (mkWriter f0 0 type_crcs) rs = (Ok tt, w2) ∧ f_contents (w_dest w2) = f_contents (w_dest w).
Proof.
  intros (f0 & Hf & Hc & Hl). assert (writer_ok (mkWriter f0 0 type_crcs)) as Hw by (by split_and!).
  destruct (add_records_ok _ rs Hw) as (w2 & E & off & Hadd & Hl2 & Hw2). exists f0, w2. split_and!; try done.
  destruct Hw2 as (_ & -> & _). cbn [w_dest]. rewrite Hc, app_nil_l. by destruct (log_records_det _ _ _ _ Hl2 _ _ Hl).
Qed.
Lemma log_holds_complete w rs f : log_holds w rs → f_ok f → f_pos f = 0%nat → f_contents f = f_contents (w_dest w) → crashed_log f rs.
Proof.
  intros (f0 & w2 & Hf0 & Hc0 & Hadd & Heq)%log_holds_writes Hf Hp Hc. apply (complete_log f0 w2 rs f Hf0 Hc0 Hadd Hf Hp). by rewrite Hc, Heq.
Qed.

(** The number of records that are complete in the first [cut] bytes. *)
Lemma log_holds_cut w rs f cut : log_holds w rs → f_ok f → f_pos f = 0%nat → f_contents f = take cut (f_contents (w_dest w)) →
  ∃ k, (k ≤ length rs)%nat ∧ crashed_log f (take k rs) ∧
    ∀ j w1, (j ≤ length rs)%nat → log_holds w1 (take j rs) → (j ≤ k ↔ length (f_contents (w_dest w1)) ≤ cut)%nat.
Proof.
  intros Hl Hf Hp Hc. destruct (log_holds_writes w rs Hl) as (f0 & w2 & Hf0 & Hc0 & Hadd & Heq). rewrite <- Heq in Hc.
  destruct (torn_reads true (λ d, d) f0 f (mkWriter f0 0 type_crcs) w2 rs true (S (length (f_contents (w_dest w2)))) cut Hf0 Hc0 (writer_new_eq f0) Hadd Hf Hp Hc)
    as (k & r' & _ & Hk & Hcut); [lia|].
  exists k. split; [done|]. split; [exists f0, w2, rs, cut; split_and!; try done; by exists k|]. intros j w1 Hj Hl1.
  assert (writer_ok (mkWriter f0 0 type_crcs)) as Hw by (by split_and!). destruct (add_records_ok _ (take j rs) Hw) as (wj & E & off & Haddj & Hlj & Hwj).
  rewrite (Hcut j wj Hj Haddj). destruct Hwj as (_ & -> & _). cbn [w_dest]. rewrite Hc0, app_nil_l. destruct Hl1 as (f1 & _ & _ & Hl1). by destruct (log_records_det _ _ _ _ Hlj _ _ Hl1) as [-> _].
Qed.
End Logs.

(** ** The manifest *)
Section Manifest.
Context `{CRC : Crc32, !Crc32Laws} `{FL : FileLaws F} (ck : bool) (ucmp : Comparator) (uok : bytes → Prop) (uord : bytes → bytes → comparison) {CO : ComparatorOrder ucmp uok uord}.
Context (set_iter : gset (Z * Z) → list (Z * Z)) (Hset : ∀ s, set_iter s ≡ₚ elements s) (max_levels : nat).
Context (create_manifest : Z → outcome F) (remove_manifest : option Z → outcome unit) (update_current : Z → outcome unit).

(** The pairs of levels and numbers that were ever added: their numbers are in use, and a
    file is on no level above those it was on. *)
Definition known_ok (levels : list (list FileMetaData)) (next : Z) (known : list (nat * Z)) : Prop :=
  ∀ i n, (i, n) ∈ known → n < next ∧ ∀ j f, at_level levels j f → fm_number f = n → (i ≤ j)%nat.

(** A compaction pointer that can be written to a manifest. *)
Definition pointer_small (k : InternalKey) : Prop := len (ik_data k) < 2 ^ 32.
Lemma set_pointers_small (cs : list InternalKey) ps : Forall pointer_small cs → Forall (λ p : Z * InternalKey, VersionEdit.key_ok p.2) ps →
  Forall pointer_small (foldl (λ c p, <[Z.to_nat p.1 := p.2]> c) cs ps).
Proof.
  intros Hc Hp. revert cs Hc. induction Hp as [|p ps Hp _ IH]; intros cs Hc; [done|]. cbn [foldl]. apply IH. apply Forall_insert; [done|apply Hp].
Qed.

(** The records [rs] of the manifest describe the files of the version set, and its
    counters when the last edit was logged. *)
Record manifest_inv (v : VersionSet F) (rs : list bytes) (st : RecoverState) (known : list (nat * Z)) (next last_sequence log : Z) : Prop := {
  mi_writer : ∃ w, v_manifest_writer v = Some w ∧ log_holds w rs;
  mi_replay : replay ucmp set_iter max_levels (recover_start max_levels) rs = Ok st;
  mi_builder : builder_inv uok uord (rs_builder st) (v_current v) known;
  mi_known : known_ok (v_current v) (v_next_file_number v) known;
  mi_pointers : length (rs_pointers st) = max_levels ∧ Forall pointer_small (rs_pointers st);
  mi_next : rs_next_file_number st = Some next ∧ 0 ≤ next ≤ v_next_file_number v ∧ next + 1 < 2 ^ 64;
  mi_last : rs_last_sequence st = Some last_sequence ∧ 0 ≤ last_sequence ≤ v_last_sequence v;
  mi_log : rs_log_number st = Some log ∧ 0 ≤ log ≤ v_log_number v ∧ log < next;
  mi_prev : default 0 (rs_prev_log_number st) = 0 ∧ v_prev_log_number v = 0;
  mi_files f : in_levels (v_current v) f → fm_number f < next;
}.

(** Files that differ in their arrangement and their counters of seeks. *)
Lemma builder_same b files files' known : length files' = length files → (∀ i fs fs', files !! i = Some fs → files' !! i = Some fs' → init_allowed_seeks <$> fs' ≡ₚ init_allowed_seeks <$> fs) →
  builder_inv uok uord b files known → builder_inv uok uord b files' known.
Proof.
  intros Hlen Hs [Hl Hb]. split; [congruence|]. intros i x fs' Hx Hfs'. destruct (lookup_lt_is_Some_2 files i) as [fs Hfs]; [rewrite <- Hlen; by eapply lookup_lt_Some|].
  destruct (Hb i x fs Hx Hfs) as [Hp Hk]. split; [|done]. by rewrite Hp, (Hs i fs fs' Hfs Hfs').
Qed.
Lemma step_ok_known files known log next last_sequence e : step_ok uok uord max_levels files [] log next last_sequence e → (∀ x, x ∈ new_ids (ve_new_files e) → x ∉ known) →
  step_ok uok uord max_levels files known log next last_sequence e.
Proof. intros [] Hx. by split. Qed.

(** An edit that is logged keeps the manifest and the version set together. *)
Lemma manifest_step (v v' : VersionSet F) rs st known n0 l0 g0 next last_sequence e : manifest_inv v rs st known n0 l0 g0 → (∃ w, v_manifest_writer v = Some w ∧ writer_ok w) →
  live_inv uok uord max_levels v (v_current v) → step_ok uok uord max_levels (v_current v) [] (v_log_number v) next last_sequence e →
  log_and_apply ck ucmp max_levels set_iter create_manifest remove_manifest update_current (with_counters v next last_sequence) e = (Ok tt, v') →
  v_vnum v + 1 < 2 ^ 64 → in_uint 64 (v_log_number v) → (∀ x, x ∈ new_ids (ve_new_files e) → x ∉ known) → default 0 (ve_prev_log_number e) = 0 →
  v_log_number v < next → 0 ≤ last_sequence → (∀ f, in_levels (v_current v') f → fm_number f < next) → known_ok (v_current v') next (known ++ new_ids (ve_new_files e)) →
  ∃ rs' st', manifest_inv v' rs' st' (known ++ new_ids (ve_new_files e)) next last_sequence (default (v_log_number v) (ve_log_number e)) ∧
    v_next_file_number v' = next ∧ v_last_sequence v' = last_sequence ∧ v_log_number v' = default (v_log_number v) (ve_log_number e).
Proof.
  intros [(wm & Hwm & Hlh) Hrep Hb Hk Hptr Hn Hl Hg Hpv Hfs] (wm' & Hwm' & Hwok) Hlive Hstep Hrun Hvn Hu Hfresh Hprev Hlog Hls Hfiles Hknown. rewrite Hwm in Hwm'. injection Hwm' as <-.
  destruct (log_step ck ucmp uok uord set_iter Hset max_levels create_manifest remove_manifest update_current v (v_current v) [] next last_sequence e wm None Hlive Hstep Hvn)
    as (w' & new & E & off & Hlog' & Hfr & Hwr & Hlive'); [unfold open_manifest; cbn [v_manifest_writer with_pointers with_counters]; by rewrite Hwm|done|done|].
  rewrite Hrun in Hlog'. injection Hlog' as ->. pose proof (step_ok_known _ known _ _ _ _ Hstep Hfresh) as Hstep'.
  destruct (recover_step ucmp uok uord set_iter Hset max_levels v st (v_current v) known next last_sequence e Hb (li_length _ _ _ _ _ Hlive) (proj1 Hptr) Hstep' Hu ltac:(rewrite (proj2 Hpv); done))
    as (st' & Hrec & Hb' & Hptr' & Hn' & Hl' & Hg' & Hp').
  exists (rs ++ [encode_to set_iter (completed (with_counters v next last_sequence) e) []]), st'. split; [|done].
  pose proof (so_next _ _ _ _ _ _ _ _ _ Hstep) as Hnx. pose proof (so_log _ _ _ _ _ _ _ _ _ Hstep) as Hlg.
  split; cbn [after_edit v_manifest_writer v_current v_next_file_number v_last_sequence v_log_number v_prev_log_number]; try done.
  - exists w'. split; [done|]. by eapply log_holds_add.
  - unfold replay in *. rewrite foldM_app, Hrep, Ok_bind. cbn [foldM]. rewrite Hrec, Ok_bind. done.
  - destruct Hlive' as [[Hlen Hsame] _ _ _]. cbn [after_edit v_current] in Hlen, Hsame. eapply builder_same; [|..|exact Hb']; [done|]. intros i fs fs' Hx Hx'. by rewrite (Hsame i fs' fs Hx' Hx).
  - rewrite Hptr', set_pointers_length. split; [apply Hptr|]. apply set_pointers_small; [apply Hptr|].
    eapply Forall_impl; [apply (eo_pointers _ (so_encodes _ _ _ _ _ _ _ _ _ Hstep))|]. simpl. tauto.
  - split_and!; [done|lia|lia|lia].
  - split; [done|]. destruct (ve_log_number e) as [t|]; simpl; [specialize (Hlg t eq_refl); lia|lia].
  - rewrite Hp', (proj2 Hpv). simpl. destruct (ve_prev_log_number e); done.
Qed.

(** *** A new manifest *)

(** A pair that a file of the levels has, when numbers are unique. *)
Lemma known_unique levels next known : (∀ i n, (i, n) ∈ known → n < next ∧ ∃ f, at_level levels i f ∧ fm_number f = n) →
  (∀ i j f g, at_level levels i f → at_level levels j g → fm_number f = fm_number g → i = j ∧ f = g) → known_ok levels next known.
Proof.
  intros Hk Hu i n Hin. destruct (Hk i n Hin) as [Hn (f & Hf & Hfn)]. split; [done|]. intros j g Hg Hgn. destruct (Hu i j f g Hf Hg) as [-> _]; [congruence|done].
Qed.
Lemma entries_known files i n : (i, n) ∈ new_ids (file_entries 0 files) → ∃ f, at_level files i f ∧ fm_number f = n.
Proof.
  unfold new_ids. intros ([l f] & [= -> ->] & Hin)%list_elem_of_fmap. cbn [fst snd].
  assert (∀ level files, 0 ≤ level → (l, f) ∈ file_entries level files → ∃ j g, Z.to_nat l = (Z.to_nat level + j)%nat ∧ at_level files j g ∧ fm_number g = fm_number f) as Hgen.
  { clear. intros level files. revert level. induction files as [|fs files IH]; intros level Hl; cbn [file_entries]; [by intros ?%elem_of_nil|].
    intros [(g & [= -> ->] & Hg)%list_elem_of_fmap|Hin]%elem_of_app.
    - exists 0%nat, g. split_and!; [lia| |done]. by exists fs.
    - destruct (IH (level + 1) ltac:(lia) Hin) as (j & g & Hj & (gs & Hgs & Hg) & Hn). exists (S j), g. split_and!; [lia| |done]. by exists gs. }
  destruct (Hgen 0 files ltac:(lia) Hin) as (j & g & -> & Hg & Hn). by exists g.
Qed.

(** The snapshot of a version set can be written. *)
Lemma snapshot_ok (v : VersionSet F) : (bytes_of_string (@cmp_name ucmp) ≠ [] ∧ len (bytes_of_string (@cmp_name ucmp)) < 2 ^ 32 ∧ utf8_valid (bytes_of_string (@cmp_name ucmp)) = true) →
  Z.of_nat max_levels < 2 ^ 32 → length (v_current v) = max_levels → length (v_compaction_pointer v) = max_levels → Forall pointer_small (v_compaction_pointer v) →
  (∀ f, in_levels (v_current v) f → in_uint 64 (fm_number f) ∧ in_uint 64 (fm_file_size f) ∧ VersionEdit.key_ok (fm_smallest f) ∧ VersionEdit.key_ok (fm_largest f)) →
  edit_ok (snapshot_edit ucmp max_levels v).
Proof.
  intros Hname Hml Hcl Hpl Hps Hfs. split; cbn [snapshot_edit ve_max_levels ve_comparator_name ve_log_number ve_prev_log_number ve_next_file_number ve_last_sequence ve_compaction_pointers ve_deleted_files ve_new_files]; try done.
  - unfold in_uint. lia.
  - by intros n [= <-].
  - apply Forall_forall. intros p Hp. pose proof (pointer_entries_levels _ _ _ Hp) as Hlv. unfold len in Hlv. split; [split; lia|].
    assert (∀ level ps, Forall pointer_small ps → p ∈ pointer_entries level ps → VersionEdit.key_ok p.2) as Hgen; [|by eapply Hgen].
    clear. intros level ps Hps. revert level. induction Hps as [|k ps Hk _ IH]; intros level; cbn [pointer_entries]; [by intros ?%elem_of_nil|].
    intros [Hp|Hp%IH]%elem_of_app; [|done]. destruct (ikey_is_empty k) eqn:E; [by apply elem_of_nil in Hp|]. apply list_elem_of_singleton in Hp as ->. split; [|done].
    intros Heq. unfold ikey_is_empty in E. cbn [snd] in Heq. rewrite Heq in E. done.
  - apply Forall_forall. intros [l f] Hin. pose proof (file_entries_levels _ _ _ Hin) as Hlv. unfold len in Hlv. cbn [fst snd] in *. split; [split; lia|].
    apply file_entries_in in Hin as (g & i & gs & -> & Hgs & Hg). cbn [fm_number fm_file_size fm_smallest fm_largest]. apply Hfs. exists gs. split; [by eapply list_elem_of_lookup_2|done].
Qed.

Lemma manifest_start (v v' : VersionSet F) f next last_sequence e : v_manifest_writer v = None → create_manifest (v_manifest_file_number v) = Ok f → f_ok f → f_contents f = [] →
  update_current (v_manifest_file_number v) = Ok tt → live_inv uok uord max_levels v (v_current v) → step_ok uok uord max_levels (v_current v) [] (v_log_number v) next last_sequence e →
  log_and_apply ck ucmp max_levels set_iter create_manifest remove_manifest update_current (with_counters v next last_sequence) e = (Ok tt, v') →
  v_vnum v + 1 < 2 ^ 64 → in_uint 64 (v_log_number v) → in_uint 64 (v_prev_log_number v) → ve_prev_log_number e = Some 0 → ve_deleted_files e = ∅ → ve_compaction_pointers e = [] →
  edit_ok (snapshot_edit ucmp max_levels v) → Forall pointer_small (v_compaction_pointer v) →
  (∀ g n, in_levels (v_current v) g → n ∈ ve_new_files e → fm_number g < fm_number n.2) → v_log_number v < next → 0 ≤ last_sequence →
  (∀ g, in_levels (v_current v') g → fm_number g < next) →
  (∀ i j g h, at_level (v_current v') i g → at_level (v_current v') j h → fm_number g = fm_number h → i = j ∧ g = h) →
  ∃ rs st known, manifest_inv v' rs st known next last_sequence (default (v_log_number v) (ve_log_number e)) ∧
    v_next_file_number v' = next ∧ v_last_sequence v' = last_sequence ∧ v_log_number v' = default (v_log_number v) (ve_log_number e).
Proof.
  intros Hwn Hcr Hf Hc Hup Hlive Hstep Hrun Hvn Hu Hp0 Hprev Hdel Hptrs Hsnap Hsmall Hnew Hlog Hls Hfiles Huniq.
  assert (∀ cs : list InternalKey, foldl (λ c p, <[Z.to_nat p.1 := p.2]> c) cs (ve_compaction_pointers e) = cs) as Hset0 by (by rewrite Hptrs).
  destruct (open_manifest_new ucmp set_iter max_levels create_manifest remove_manifest (with_pointers (with_counters v next last_sequence) (v_compaction_pointer v)) f Hwn Hcr Hf)
    as (w & E & off & Hopen & Hfr & Hwr).
  destruct (log_step ck ucmp uok uord set_iter Hset max_levels create_manifest remove_manifest update_current v (v_current v) [] next last_sequence e w
    (Some (v_manifest_file_number v)) Hlive Hstep Hvn) as (w' & new & E' & off' & Hlog' & Hfr' & Hwr' & Hlive'); [by rewrite Hset0|apply Hwr|by intros k [= <-]|].
  rewrite Hrun in Hlog'. injection Hlog' as ->. pose proof Hlive as [[Hcl _] Hlv Hml Hpl].
  destruct (snapshot_step ucmp uok uord set_iter Hset max_levels v Hlv Hml Hpl Hsnap) as (s0 & Hrec0 & Hb0 & Hp0' & _).
  set (known := new_ids (file_entries 0 (v_current v))) in *.
  assert (∀ x, x ∈ new_ids (ve_new_files e) → x ∉ known) as Hfresh.
  { intros [i n] (y & [= -> ->] & Hy)%list_elem_of_fmap (g & Hg & Hgn)%entries_known. specialize (Hnew g y ltac:(apply in_levels_at; eauto) Hy). lia. }
  pose proof (step_ok_known _ known _ _ _ _ Hstep Hfresh) as Hstep'.
  destruct (recover_step ucmp uok uord set_iter Hset max_levels v s0 (v_current v) known next last_sequence e Hb0 Hml ltac:(by rewrite Hp0') Hstep' Hu Hp0)
    as (st' & Hrec & Hb' & Hptr' & Hn' & Hl' & Hg' & Hpr').
  exists [encode_to set_iter (snapshot_edit ucmp max_levels v) []; encode_to set_iter (completed (with_counters v next last_sequence) e) []], st', (known ++ new_ids (ve_new_files e)). split; [|done].
  pose proof (so_next _ _ _ _ _ _ _ _ _ Hstep) as Hnx. pose proof (so_log _ _ _ _ _ _ _ _ _ Hstep) as Hlg. destruct Hlive' as [[Hlen Hsame] _ _ _]. cbn [after_edit v_current] in Hlen, Hsame.
  assert (∀ i h, at_level new i h ↔ ∃ fs, v_current v !! i = Some fs ∧ h ∈ edited i fs e) as Hat by (intros i h; by apply edited_at).
  split; cbn [after_edit v_manifest_writer v_current v_next_file_number v_last_sequence v_log_number v_prev_log_number]; try done.
  - exists w'. split; [done|]. apply (log_holds_add w w' [_] _ E' off'); [|done|done]. apply (log_holds_add (mkWriter f 0 type_crcs) w [] _ E off); [by apply log_holds_new|exact Hfr|done].
  - unfold replay. cbn [foldM]. rewrite Hrec0, Ok_bind. rewrite Hrec, Ok_bind. done.
  - eapply builder_same; [|..|exact Hb']; [done|]. intros i fs fs' Hx Hx'. by rewrite (Hsame i fs' fs Hx' Hx).
  - apply known_unique; [|exact Huniq]. intros i n [Hin|Hin]%elem_of_app.
    + apply entries_known in Hin as (g & (gs & Hgs & Hg) & <-).
      assert (at_level new i g) as Hgn by (apply Hat; exists gs; split; [done|]; unfold edited; apply elem_of_app; left; apply list_elem_of_filter; split; [left; rewrite Hdel; apply not_elem_of_empty|done]).
      split; [apply Hfiles, in_levels_at; by exists i|by exists g].
    + apply list_elem_of_fmap in Hin as ([l h] & [= -> ->] & Hin). cbn [fst snd].
      assert (init_allowed_seeks h ∈ added_at (Z.to_nat l) (ve_new_files e)) as Hadd by (apply list_elem_of_fmap; exists (l, h); split; [done|]; by apply list_elem_of_filter).
      destruct (so_levels _ _ _ _ _ _ _ _ _ Hstep) as [_ _ Hlevels]. rewrite Forall_forall in Hlevels. specialize (Hlevels _ Hin). cbn [fst] in Hlevels.
      destruct (lookup_lt_is_Some_2 (v_current v) (Z.to_nat l)) as [gs Hgs]; [lia|].
      assert (at_level new (Z.to_nat l) (init_allowed_seeks h)) as Hgn by (apply Hat; exists gs; split; [done|]; apply elem_of_app; by right).
      split; [apply (Hfiles (init_allowed_seeks h)), in_levels_at; eauto|by exists (init_allowed_seeks h)].
  - rewrite Hptr', Hset0, Hp0'. done.
  - split_and!; [done|lia|lia|lia].
  - split; [done|]. unfold in_uint in Hu. destruct (ve_log_number e) as [t|]; simpl; [specialize (Hlg t eq_refl); lia|lia].
  - by rewrite Hpr', Hprev.
Qed.
End Manifest.

(** ** The groups in the logs *)
Section Groups.
Context `{CRC : Crc32, !Crc32Laws} `{FL : FileLaws F} (uok : bytes → Prop).

(** A log: its number, its records and the groups they hold. *)
Definition LogEntry : Type := Z * list bytes * list (list batch_op).
Definition log_number_of (l : LogEntry) : Z := l.1.1.
Definition logs_ops (logs : list LogEntry) : list batch_op := mjoin (mjoin (snd <$> logs)).

Lemma logs_ops_app l k : logs_ops (l ++ k) = logs_ops l ++ logs_ops k.
Proof. unfold logs_ops. by rewrite fmap_app, !join_app. Qed.
Lemma logs_ops_one n rs opss : logs_ops [(n, rs, opss)] = mjoin opss.
Proof. unfold logs_ops. cbn [fmap list_fmap snd]. change (mjoin [opss]) with (opss ++ []). by rewrite app_nil_r. Qed.

(** The logs on disk, by number, hold the groups from the sequence number [q] on. *)
Fixpoint logs_on (disk : gmap Z bytes) (q : Z) (logs : list LogEntry) : Prop :=
  match logs with
  | [] => True
  | (k, rs, opss) :: logs =>
    (∃ w : Writer F, log_holds w rs ∧ disk !! k = Some (f_contents (w_dest w))) ∧ batches_from uok q rs opss ∧ logs_on disk (q + len (mjoin opss)) logs
  end.
Lemma logs_on_app disk q l k : logs_on disk q (l ++ k) ↔ logs_on disk q l ∧ logs_on disk (q + len (logs_ops l)) k.
Proof.
  revert q. induction l as [|[[n rs] opss] l IH]; intros q; cbn [app logs_on].
  { change (logs_ops []) with (@nil batch_op). rewrite len_nil, Z.add_0_r. tauto. }
  rewrite IH. change (logs_ops ((n, rs, opss) :: l)) with (logs_ops ([(n, rs, opss)] ++ l)). rewrite logs_ops_app, logs_ops_one, len_app, Z.add_assoc. tauto.
Qed.
Lemma logs_on_same disk disk' q logs : logs_on disk q logs → (∀ k, k ∈ log_number_of <$> logs → disk' !! k = disk !! k) → logs_on disk' q logs.
Proof.
  revert q. induction logs as [|[[n rs] opss] l IH]; intros q; [done|]. cbn [logs_on]. intros ((w & Hw & Hd) & Hb & Hl) Hsame. split_and!; [|done|].
  - exists w. split; [done|]. rewrite Hsame; [done|]. by left.
  - apply IH; [done|]. intros k Hk. apply Hsame. by right.
Qed.
Lemma logs_on_dom disk q logs k : logs_on disk q logs → k ∈ log_number_of <$> logs → k ∈ dom disk.
Proof.
  revert q. induction logs as [|[[n rs] opss] l IH]; intros q; [by intros _ ?%elem_of_nil|]. cbn [logs_on]. intros ((w & _ & Hd) & _ & Hl) [->|Hk]%elem_of_cons; [|by eapply IH].
  apply elem_of_dom. eauto.
Qed.

Lemma batches_snoc q rs opss d ops : batches_from uok q rs opss → wb_rep (mkBatch d) (q + len (mjoin opss)) ops → ops ≠ [] → Forall (op_ok uok) ops → batches_from uok q (rs ++ [d]) (opss ++ [ops]).
Proof.
  revert q opss. induction rs as [|r rs IH]; intros q [|x opss]; try done.
  - intros _. change (mjoin []) with (@nil batch_op). rewrite len_nil, Z.add_0_r. intros Hd Hne Hok. by split_and!.
  - intros (Hr & Hx & Hxok & Hb) Hd Hne Hok. cbn [app batches_from]. split_and!; try done. apply IH; try done.
    change (mjoin (x :: opss)) with (x ++ mjoin opss) in Hd. by rewrite len_app, Z.add_assoc in Hd.
Qed.
(** A log without operations has no records. *)
Lemma batches_empty q rs opss : batches_from uok q rs opss → mjoin opss = [] → rs = [] ∧ opss = [].
Proof.
  destruct rs as [|r rs], opss as [|x opss]; try done. intros (_ & Hx & _ & _). change (mjoin (x :: opss)) with (x ++ mjoin opss). by intros [? _]%app_nil.
Qed.
Lemma abs_write_app h q a b : abs_write h q (a ++ b) = abs_write (abs_write h q a) (q + len a) b.
Proof. unfold abs_write. rewrite op_recs_app, reverse_app, <- app_assoc. by replace (q + 1 + len a) with (q + len a + 1) by lia. Qed.
Lemma abs_write_nil h q : abs_write h q [] = h.
Proof. done. Qed.
End Groups.

(** ** The invariant *)
Section Steps.
Context `{CRC : Crc32, !Crc32Laws} `{FL : FileLaws F} (ck : bool) (node_base : Z) (Hbase : 0 < node_base < 2 ^ 40).
Context (ucmp : Comparator) (uok : bytes → Prop) (uord : bytes → bytes → comparison) {CO : ComparatorOrder ucmp uok uord}.
Context {B : Type} {TS : TableSink B} {TG : TableSource B} (holds : B → list entry → Prop).
Context {SL : TableSinkLaws (iord uord) (ikey_ok uok) holds} {GL : TableSourceLaws uok uord holds}.
Context (sink_sized : ∀ b es b', holds b es → sink_finish b = Ok b' → 0 < sink_file_size b' < 2 ^ 64).
Context (o : DbOptions) (set_iter : gset (Z * Z) → list (Z * Z)) (Hset : ∀ s, set_iter s ≡ₚ elements s).
Context (create_log create_manifest : Z → outcome F) (remove_manifest : option Z → outcome unit) (update_current : Z → outcome unit).
Context (remove_table : Z → outcome unit) (remove_file : bytes → outcome unit) (score_high : list (list FileMetaData) → bool) (Ho : options_ok node_base o).
(** Creating a log gives an empty file. *)
Context (Hlog_empty : ∀ k f, create_log k = Ok f → f_contents f = []).
Context {I : Type} {IT : Iterator I} (size_level : list (list FileMetaData) → option nat) (new_input_iterator : Compaction B → gmap Z B → outcome I).
Notation DB := (DB F B).
Notation db_step := (db_step ck node_base ucmp uok o set_iter create_log create_manifest remove_manifest update_current remove_table remove_file score_high size_level new_input_iterator).
Notation db_inv := (db_inv uok uord holds o).
Notation manifest_inv := (manifest_inv ucmp uok uord set_iter (o_max_levels o)).

(** What the files hold, apart from the state of the database: the manifest with what its
    records say, the history in the tables, the logs that are no longer written to, and the
    records and groups of the current log. *)
Record Ghost : Type := mkGhost {
  gh_records : list bytes;
  gh_state : RecoverState;
  gh_known : list (nat * Z);
  gh_next : Z;
  gh_last : Z;
  gh_log : Z;
  gh_tables : list mrec;
  gh_first : Z;
  gh_old : list LogEntry;
  gh_written : list bytes;
  gh_groups : list (list batch_op);
}.
(** The first sequence number of the current log. *)
Definition gh_start (g : Ghost) : Z := gh_first g + len (logs_ops (gh_old g)).
(** The history when the current log has the first [j] groups. *)
Definition upto (g : Ghost) (j : nat) : list mrec := abs_write (gh_tables g) (gh_first g - 1) (logs_ops (gh_old g) ++ mjoin (take j (gh_groups g))).

Record durable (d : DB) (disk : gmap Z bytes) (hist : list mrec) (recs : Z → list mrec) (li lm : list mrec) (g : Ghost) : Prop := {
  du_manifest : manifest_inv (db_versions d) (gh_records g) (gh_state g) (gh_known g) (gh_next g) (gh_last g) (gh_log g);
  du_tables r : r ∈ gh_tables g ↔ ∃ f, in_levels (v_current (db_versions d)) f ∧ r ∈ recs (fm_number f);
  du_before r : r ∈ gh_tables g → r_seq r < gh_first g ∧ r_seq r ≤ gh_last g;
  du_hist : hist = upto g (length (gh_groups g));
  du_first : 0 < gh_first g ∧ gh_start g + len (mjoin (gh_groups g)) = v_last_sequence (db_versions d) + 1;
  du_old : logs_on uok disk (gh_first g) (gh_old g);
  du_current : batches_from uok (gh_start g) (gh_written g) (gh_groups g);
  du_writer : ∃ w, db_record_writer d = Some w ∧ log_holds w (gh_written g) ∧ disk !! v_log_number (db_versions d) = Some (f_contents (w_dest w));
  du_sorted : StronglySorted Z.lt ((log_number_of <$> gh_old g) ++ [v_log_number (db_versions d)]);
  du_needed k : k ∈ dom disk → 0 < k < v_next_file_number (db_versions d) ∧ (gh_log g ≤ k ↔ k ∈ (log_number_of <$> gh_old g) ++ [v_log_number (db_versions d)]);
  du_im : op_recs (gh_first g) (logs_ops (gh_old g)) ≡ₚ li;
  du_mem : op_recs (gh_start g) (mjoin (gh_groups g)) ≡ₚ lm;
}.

Definition log_numbers (d : DB) (g : Ghost) : list Z := (log_number_of <$> gh_old g) ++ [v_log_number (db_versions d)].

(** *** Steps that leave the files as they are *)

(** Only counters of seeks and compaction pointers differ. *)
Record calm (d d' : DB) : Prop := {
  cm_writer : db_record_writer d' = db_record_writer d;
  cm_manifest : v_manifest_writer (db_versions d') = v_manifest_writer (db_versions d);
  cm_log : v_log_number (db_versions d') = v_log_number (db_versions d);
  cm_prev : v_prev_log_number (db_versions d') = v_prev_log_number (db_versions d);
  cm_next : v_next_file_number (db_versions d') = v_next_file_number (db_versions d);
  cm_last : v_last_sequence (db_versions d') = v_last_sequence (db_versions d);
  cm_files : ∃ h, (∀ f, init_allowed_seeks (h f) = init_allowed_seeks f ∧ same_file (h f) f) ∧ v_current (db_versions d') = fmap (M := list) h <$> v_current (db_versions d);
}.
Lemma calm_same d d' : db_record_writer d' = db_record_writer d → db_versions d' = db_versions d → calm d d'.
Proof.
  intros Hw Hv. split; rewrite ?Hv; try done. exists id. split; [by intros f; split_and!|]. symmetry. rewrite <- (list_fmap_id (v_current (db_versions d))) at 2.
  apply list_fmap_ext. intros _ fs _. apply list_fmap_id.
Qed.
Lemma calm_trans d1 d2 d3 : calm d1 d2 → calm d2 d3 → calm d1 d3.
Proof.
  intros [A1 A2 A3 A4 A5 A6 (h & Hh & A7)] [B1 B2 B3 B4 B5 B6 (h' & Hh' & B7)]. split; try congruence. exists (h' ∘ h). split.
  - intros f. simpl. destruct (Hh f) as [E1 (N1 & N2 & N3)]. destruct (Hh' (h f)) as [E2 (M1 & M2 & M3)]. split; [congruence|]. split_and!; congruence.
  - rewrite B7, A7, <- list_fmap_compose. apply list_fmap_ext. intros _ fs _. simpl. by rewrite <- list_fmap_compose.
Qed.
Lemma calm_schedule d : calm d (maybe_schedule_compaction score_high d).2.
Proof. apply calm_same; unfold maybe_schedule_compaction; by destruct (_ || _). Qed.
Lemma calm_stats d stats : calm d (update_stats d stats).2.
Proof.
  unfold update_stats. destruct stats as [ss|]; [|by apply calm_same].
  set (d' := with_versions d _). assert (calm d d') as Hc.
  { split; try done. exists (use_seek (fm_number (ss_file ss))). split; [|done]. intros f. split; [|apply use_seek_same]. unfold use_seek. by destruct (_ =? _). }
  destruct (_ && _); [|done]. eapply calm_trans; [exact Hc|by apply calm_same].
Qed.
Lemma calm_get snapshot u d r d' : db_get ucmp score_high snapshot u d = (r, d') → calm d d'.
Proof.
  unfold db_get. destruct (db_is_shutting_down d); [intros [= _ <-]; by apply calm_same|]. destruct (_ ≫= _) as [[answer stats]| | |]; try (intros [= _ <-]; by apply calm_same).
  pose proof (calm_stats d stats) as Hc. destruct (update_stats d stats) as [found d1]. intros [= _ <-]. simpl in Hc. destruct found; [|done]. eapply calm_trans; [exact Hc|apply calm_schedule].
Qed.
Lemma calm_sample ikey d d' : record_read_sample ucmp score_high ikey d = Ok d' → calm d d'.
Proof.
  unfold record_read_sample. intros (stats & _ & Hd)%bind_Ok. pose proof (calm_stats d stats) as Hc. destruct (update_stats d stats) as [compact d1]. simpl in Hc.
  destruct compact; injection Hd as <-; [|done]. eapply calm_trans; [exact Hc|apply calm_schedule].
Qed.

Lemma calm_at d d' i f' : calm d d' → at_level (v_current (db_versions d')) i f' → ∃ f, at_level (v_current (db_versions d)) i f ∧ fm_number f' = fm_number f.
Proof. intros [_ _ _ _ _ _ (h & Hh & ->)] (f & -> & Hf)%fmap_at_level. exists f. split; [done|]. by destruct (Hh f) as [_ [? _]]. Qed.
Lemma calm_manifest d d' rs st known n l g : calm d d' → manifest_inv (db_versions d) rs st known n l g → manifest_inv (db_versions d') rs st known n l g.
Proof.
  intros Hc [Hw Hr Hb Hk Hp Hn Hl Hg Hpv Hf]. pose proof (λ i f, calm_at d d' i f Hc) as Hat. destruct Hc as [_ C2 C3 C4 C5 C6 (h & Hh & C7)].
  split; rewrite ?C2, ?C3, ?C4, ?C5, ?C6; try done.
  - rewrite C7. eapply builder_same; [by rewrite length_fmap| |exact Hb]. intros i fs fs' Hx. rewrite list_lookup_fmap, Hx. intros [= <-]. rewrite <- list_fmap_compose.
    apply Permutation_refl', list_fmap_ext. intros _ f _. simpl. apply Hh.
  - intros i k Hin. destruct (Hk i k Hin) as [Hlt Hlv]. split; [done|]. intros j f Hj Hn'. apply Hat in Hj as (f0 & Hf0 & Heq). apply (Hlv j f0); [done|congruence].
  - intros f (i & Hi)%in_levels_at. apply Hat in Hi as (f0 & Hf0 & ->). apply Hf, in_levels_at. by exists i.
Qed.
Lemma calm_durable d d' disk hist recs li lm g : calm d d' → durable d disk hist recs li lm g → durable d' disk hist recs li lm g.
Proof.
  intros Hc [D1 D2 D3 D4 D5 D6 D7 D8 D9 D10 D11 D12]. pose proof (calm_manifest _ _ _ _ _ _ _ _ Hc D1) as D1'. destruct Hc as [C1 C2 C3 C4 C5 C6 (h & Hh & C7)].
  split; rewrite ?C1, ?C3, ?C5, ?C6; try done.
  intros r. rewrite D2, C7. split; intros (f & (i & Hf)%in_levels_at & Hr).
  - exists (h f). split; [apply in_levels_at; exists i; apply fmap_at_level; eauto|]. by destruct (Hh f) as [_ [-> _]].
  - apply fmap_at_level in Hf as (f0 & -> & Hf0). exists f0. split; [apply in_levels_at; eauto|]. by destruct (Hh f0) as [_ [<- _]].
Qed.

(** *** The logs on disk *)

(** The current log as it is on disk. *)
Definition log_image (d : DB) (disk : gmap Z bytes) : gmap Z bytes :=
  match db_record_writer d with Some w => <[v_log_number (db_versions d) := f_contents (w_dest w)]> disk | None => disk end.
(** Logs are deleted only after an edit was logged, and then only those that are older
    than the current one. *)
Definition logs_kept (d d' : DB) (disk disk' : gmap Z bytes) : Prop :=
  disk' ⊆ disk ∧ ∀ k c, disk !! k = Some c → v_manifest_writer (db_versions d') = v_manifest_writer (db_versions d) ∨ v_log_number (db_versions d') ≤ k → disk' !! k = Some c.
Lemma kept_all d d' disk disk' : logs_kept d d' disk disk' → v_manifest_writer (db_versions d') = v_manifest_writer (db_versions d) → disk' = disk.
Proof.
  intros [Hsub Hk] Hm. apply map_eq. intros k. destruct (disk !! k) as [c|] eqn:E; [by apply Hk; [|left]|]. destruct (disk' !! k) as [c|] eqn:E'; [|done].
  rewrite (lookup_weaken _ _ _ _ E' Hsub) in E. done.
Qed.
Lemma durable_image d disk hist recs li lm g : durable d disk hist recs li lm g → log_image d disk = disk.
Proof. intros Hd. destruct (du_writer _ _ _ _ _ _ _ Hd) as (w & Hw & _ & Hk). unfold log_image. rewrite Hw. by apply insert_id. Qed.
Lemma old_numbers d disk hist recs li lm g k : durable d disk hist recs li lm g → k ∈ log_number_of <$> gh_old g → k < v_log_number (db_versions d).
Proof. intros Hd Hk. pose proof (du_sorted _ _ _ _ _ _ _ Hd) as Hs. apply StronglySorted_app in Hs as (Hlt & _ & _). apply Hlt; [done|by left]. Qed.

Lemma upto_split g j : upto g j = abs_write (upto g 0) (gh_start g - 1) (mjoin (take j (gh_groups g))).
Proof.
  unfold upto, gh_start. cbn [take]. change (mjoin []) with (@nil batch_op). rewrite app_nil_r, abs_write_app. f_equal. lia.
Qed.
Lemma upto_before d disk hist recs li lm g r : durable d disk hist recs li lm g → r ∈ upto g 0 → r_seq r < gh_start g ∧ r_seq r ≤ v_last_sequence (db_versions d).
Proof.
  intros Hd. destruct (du_first _ _ _ _ _ _ _ Hd) as [Hf Hl]. pose proof (len_nonneg (mjoin (gh_groups g))). pose proof (len_nonneg (logs_ops (gh_old g))). unfold gh_start in *.
  unfold upto. cbn [take]. change (mjoin []) with (@nil batch_op). rewrite app_nil_r. intros [Hr%op_recs_seq|Hr%(du_before _ _ _ _ _ _ _ Hd)]%elem_of_abs_write; lia.
Qed.

(** The current log stays as it is, grows by a group, or a new one has been started. *)
Definition stays (g g' : Ghost) : Prop := gh_written g' = gh_written g ∧ gh_groups g' = gh_groups g ∧ ∀ j, upto g' j = upto g j.
Definition grows (g g' : Ghost) : Prop :=
  ∃ r ops, gh_written g' = gh_written g ++ [r] ∧ gh_groups g' = gh_groups g ++ [ops] ∧ ∀ j, (j ≤ length (gh_groups g))%nat → upto g' j = upto g j.
Definition rotates (g g' : Ghost) : Prop := gh_written g' = [] ∧ gh_groups g' = [] ∧ upto g' 0 = upto g (length (gh_groups g)).

(** *** A group is committed *)
Definition add_group (g : Ghost) (r : bytes) (ops : list batch_op) : Ghost :=
  mkGhost (gh_records g) (gh_state g) (gh_known g) (gh_next g) (gh_last g) (gh_log g) (gh_tables g) (gh_first g) (gh_old g) (gh_written g ++ [r]) (gh_groups g ++ [ops]).
Lemma manifest_mono (v v' : VersionSet F) rs st known n l g : manifest_inv v rs st known n l g → v_manifest_writer v' = v_manifest_writer v → v_current v' = v_current v →
  v_next_file_number v ≤ v_next_file_number v' → v_last_sequence v ≤ v_last_sequence v' → v_log_number v ≤ v_log_number v' → v_prev_log_number v' = v_prev_log_number v →
  manifest_inv v' rs st known n l g.
Proof.
  intros [Hw Hr Hb Hk Hp Hn Hl Hg Hpv Hf] E1 E2 E3 E4 E5 E6. split; rewrite ?E1, ?E2, ?E6; try done.
  - intros i k Hin. destruct (Hk i k Hin). split; [lia|done].
  - split_and!; [apply Hn|lia|lia|lia].
  - split_and!; [apply Hl|lia|lia].
  - split_and!; [apply Hg|lia|lia|lia].
Qed.

Lemma commit_durable d disk hist recs li lm lm' g s' w w' b E off ops : durable d disk hist recs li lm g → ops ≠ [] → Forall (op_ok uok) ops →
  lm' ≡ₚ op_recs (v_last_sequence (db_versions d) + 1) ops ++ lm → ws_last_sequence s' = v_last_sequence (db_versions d) + len ops →
  db_record_writer d = Some w → ws_writer s' = Some w' → wb_rep b (v_last_sequence (db_versions d) + 1) ops → log_frags (w_block_offset w) true (wb_contents b) E off → wrote w w' E off →
  durable (with_write_state d s') (log_image (with_write_state d s') disk) (abs_write hist (v_last_sequence (db_versions d)) ops) recs li lm' (add_group g (wb_contents b) ops) ∧
  grows g (add_group g (wb_contents b) ops).
Proof.
  intros Hd Hne Hok Hlm Hlast Hw Hw' Hb Hfr Hwr. pose proof (λ k, old_numbers _ _ _ _ _ _ _ k Hd) as Hold. pose proof (len_nonneg ops) as Hlen.
  assert (∀ j, (j ≤ length (gh_groups g))%nat → upto (add_group g (wb_contents b) ops) j = upto g j) as Hupto.
  { intros j Hj. unfold upto, add_group. cbn [gh_tables gh_first gh_old gh_groups]. by rewrite take_app_le. }
  split; [|by exists (wb_contents b), ops].
  destruct Hd as [D1 D2 D3 D4 [D5 D5'] D6 D7 (w0 & Hw0 & Hh & Hdisk) D9 D10 D11 D12]. rewrite Hw in Hw0. injection Hw0 as <-.
  assert (v_last_sequence (db_versions d) + 1 = gh_start g + len (mjoin (gh_groups g))) as Hnext by lia.
  assert (log_image (with_write_state d s') disk = <[v_log_number (db_versions d) := f_contents (w_dest w')]> disk) as ->.
  { unfold log_image. cbn [with_write_state with_error with_log db_record_writer]. rewrite Hw'. done. }
  assert (mjoin (gh_groups g ++ [ops]) = mjoin (gh_groups g) ++ ops) as Hj by (rewrite join_app; change (mjoin [ops]) with (ops ++ []); by rewrite app_nil_r).
  split; cbn [add_group gh_records gh_state gh_known gh_next gh_last gh_log gh_tables gh_first gh_old gh_written gh_groups with_write_state with_error with_log with_mem with_versions with_counters
    db_versions db_record_writer v_current v_last_sequence v_log_number v_next_file_number]; change (gh_start (add_group g (wb_contents b) ops)) with (gh_start g); try done.
  - eapply manifest_mono; [exact D1|done..| | |done|done]; cbn [with_counters v_next_file_number v_last_sequence]; lia.
  - rewrite upto_split. cbn [gh_groups]. rewrite Hupto by lia. rewrite take_ge by done. change (gh_start (add_group g (wb_contents b) ops)) with (gh_start g). cbn [add_group gh_groups].
    rewrite Hj, abs_write_app, D4, (upto_split g), take_ge by done. f_equal. lia.
  - rewrite Hj, len_app. lia.
  - eapply logs_on_same; [exact D6|]. intros k Hk. apply lookup_insert_ne. specialize (Hold k Hk). lia.
  - apply batches_snoc; try done. rewrite <- Hnext. by destruct b.
  - exists w'. split_and!; [done| |by rewrite lookup_insert_eq]. by eapply log_holds_add.
  - intros k Hk. apply D10. rewrite dom_insert in Hk. apply elem_of_union in Hk as [Hk|Hk]; [|done]. apply elem_of_singleton in Hk as ->. apply elem_of_dom. eauto.
  - rewrite Hj, op_recs_app, Hlm, <- Hnext, D12. apply Permutation_app_comm.
Qed.

(** *** The memtable is rotated *)
Definition new_log (d : DB) (g : Ghost) : Ghost :=
  mkGhost (gh_records g) (gh_state g) (gh_known g) (gh_next g) (gh_last g) (gh_log g) (gh_tables g) (gh_first g)
    (gh_old g ++ [(v_log_number (db_versions d), gh_written g, gh_groups g)]) [] [].
Lemma ops_none q ops : op_recs q ops ≡ₚ [] → ops = [].
Proof. intros Hp%Permutation_length. rewrite length_op_recs in Hp. by destruct ops. Qed.

Lemma rotate_durable d d' disk hist recs lm g f : db_inv d hist recs [] lm → durable d disk hist recs [] lm g → f_ok f → f_contents f = [] → db_record_writer d' = Some (mkWriter f 0 type_crcs) →
  (let v := db_versions d in db_versions d' = mkVset (v_next_file_number v + 1) (v_last_sequence v) (v_next_file_number v) (v_prev_log_number v) (v_manifest_file_number v) (v_manifest_writer v)
     (v_vnum v) (v_current v) (v_compaction_pointer v)) →
  durable d' (log_image d' disk) hist recs lm [] (new_log d g) ∧ rotates g (new_log d g).
Proof.
  intros Hinv Hd Hf Hc Hw Hv. cbv zeta in Hv. pose proof (di_lognum _ _ _ _ _ _ _ _ _ Hinv) as Hlognum. destruct (du_first _ _ _ _ _ _ _ Hd) as [Hf0 Hlast].
  pose proof (du_current _ _ _ _ _ _ _ Hd) as Hcur. pose proof (ops_none _ _ (du_im _ _ _ _ _ _ _ Hd)) as Hno.
  assert (gh_start g = gh_first g) as Hstart by (unfold gh_start; rewrite Hno, len_nil; lia).
  assert (logs_ops (gh_old (new_log d g)) = mjoin (gh_groups g)) as Hops by (cbn [new_log gh_old]; by rewrite logs_ops_app, Hno, app_nil_l, logs_ops_one).
  assert (upto (new_log d g) 0 = upto g (length (gh_groups g))) as Hup.
  { unfold upto. rewrite Hops, Hno, (take_ge (gh_groups g)) by done. cbn [new_log gh_tables gh_first gh_groups take]. change (mjoin []) with (@nil batch_op). by rewrite app_nil_r, app_nil_l. }
  assert (log_image d' disk = <[v_next_file_number (db_versions d) := []]> disk) as -> by (unfold log_image; rewrite Hw, Hv; cbn [w_dest v_log_number]; by rewrite Hc).
  assert (∀ k, k ∈ dom disk → k < v_next_file_number (db_versions d)) as Hlt by (intros k Hk; apply (du_needed _ _ _ _ _ _ _ Hd k) in Hk as [? _]; lia).
  assert (∀ k, k ∈ log_numbers d g → k ∈ dom disk) as Hdom.
  { intros k [Hk|Hk%list_elem_of_singleton]%elem_of_app; [by eapply logs_on_dom; [exact (du_old _ _ _ _ _ _ _ Hd)|]|]. subst k. destruct (du_writer _ _ _ _ _ _ _ Hd) as (w & _ & _ & Hk). apply elem_of_dom. eauto. }
  assert ((log_number_of <$> gh_old (new_log d g)) = log_numbers d g) as Hnums by (cbn [new_log gh_old]; by rewrite fmap_app).
  assert (∀ k, k ∈ log_numbers d g → <[v_next_file_number (db_versions d) := []]> disk !! k = disk !! k) as Hkeep.
  { intros k Hk%Hdom. apply lookup_insert_ne. specialize (Hlt k Hk). lia. }
  split; [|by split_and!]. destruct Hd as [D1 D2 D3 D4 D5 D6 D7 (w & Hw0 & Hh & Hdisk) D9 D10 D11 D12]. pose proof (mi_log _ _ _ _ _ _ _ _ _ _ _ _ D1) as Hmlog.
  split; rewrite ?Hv, ?Hw, ?Hnums; unfold gh_start; rewrite ?Hops; cbn [v_current v_last_sequence v_log_number v_next_file_number]; try done.
  - eapply manifest_mono; [exact D1|done..| |done| |done]; cbn [v_next_file_number v_log_number]; lia.
  - change (length (gh_groups (new_log d g))) with 0%nat. by rewrite Hup.
  - cbn [new_log gh_first gh_groups]. change (mjoin []) with (@nil batch_op). change (len (@nil batch_op)) with 0. lia.
  - cbn [new_log gh_first gh_old]. apply logs_on_app. split; [eapply logs_on_same; [exact D6|]; intros k Hk; apply Hkeep, elem_of_app; by left|].
    cbn [logs_on]. split_and!; [|exact D7|done]. exists w. split; [done|]. rewrite Hkeep; [done|]. apply elem_of_app. right. by left.
  - eexists. split_and!; [done|by apply log_holds_new|]. cbn [w_dest]. by rewrite Hc, lookup_insert_eq.
  - apply StronglySorted_app. split_and!; [|done|repeat constructor]. intros k k' Hk%Hdom Hk'%list_elem_of_singleton. subst k'. by apply Hlt.
  - intros k. rewrite dom_insert, elem_of_union, elem_of_singleton. cbn [new_log gh_log]. rewrite elem_of_app, list_elem_of_singleton. intros [->|Hk]; [split; [lia|split; [by right|lia]]|].
    destruct (D10 k Hk) as [? Hiff]. specialize (Hlt k Hk). split; [lia|]. fold (log_numbers d g) in Hiff. rewrite Hiff. split; [by left|]. intros [?|?]; [done|lia].
  - cbn [new_log gh_first]. by rewrite <- Hstart.
Qed.

(** *** An edit is logged: the tables hold what the old logs held *)
Definition settle (g : Ghost) (rs : list bytes) (st : RecoverState) (known : list (nat * Z)) (next last log : Z) : Ghost :=
  mkGhost rs st known next last log (upto g 0) (gh_start g) [] (gh_written g) (gh_groups g).
Lemma settle_durable d d' disk kept hist recs recs' li lm g rs st known next : db_inv d' hist recs' [] lm → durable d disk hist recs li lm g →
  manifest_inv (db_versions d') rs st known next (v_last_sequence (db_versions d)) (v_log_number (db_versions d)) → db_record_writer d' = db_record_writer d →
  v_last_sequence (db_versions d') = v_last_sequence (db_versions d) → v_log_number (db_versions d') = v_log_number (db_versions d) →
  v_next_file_number (db_versions d) ≤ v_next_file_number (db_versions d') → logs_kept d d' disk kept →
  let g' := settle g rs st known next (v_last_sequence (db_versions d)) (v_log_number (db_versions d)) in durable d' (log_image d' kept) hist recs' [] lm g' ∧ stays g g'.
Proof.
  intros Hinv Hd Hman Hw Hlast Hlog Hnext Hkept g'. destruct (du_first _ _ _ _ _ _ _ Hd) as [Hf0 Hl]. pose proof (len_nonneg (logs_ops (gh_old g))) as Hlen.
  assert (gh_start g' = gh_start g) as Hstart by (unfold gh_start at 1; cbn [g' settle gh_first gh_old]; change (logs_ops []) with (@nil batch_op); rewrite len_nil; lia).
  assert (∀ j, upto g' j = upto g j) as Hup.
  { intros j. rewrite (upto_split g), (upto_split g'), Hstart. cbn [g' settle gh_groups]. f_equal. }
  split; [|by split_and!].
  pose proof (λ r, upto_before _ _ _ _ _ _ _ r Hd) as Hbefore. pose proof (λ k, old_numbers _ _ _ _ _ _ _ k Hd) as Hold.
  destruct Hd as [D1 D2 D3 D4 D5 D6 D7 (w & Hw0 & Hh & Hdisk) D9 D10 D11 D12]. destruct Hkept as [Hsub Hkept].
  assert (kept !! v_log_number (db_versions d) = Some (f_contents (w_dest w))) as Hkw by (apply Hkept; [done|right; lia]).
  assert (log_image d' kept = kept) as -> by (unfold log_image; rewrite Hw, Hw0, Hlog; by apply insert_id). pose proof (mi_log _ _ _ _ _ _ _ _ _ _ _ _ D1) as Hmlog.
  assert (∀ r, r ∈ hist ↔ r ∈ lm ∨ r ∈ upto g 0) as Hhist.
  { intros r. rewrite D4, upto_split, take_ge by done. rewrite elem_of_abs_write, <- D12. replace (gh_start g - 1 + 1) with (gh_start g) by lia. done. }
  split; rewrite ?Hw, ?Hlast, ?Hlog, ?Hstart, ?Hup; cbn [g' settle gh_records gh_state gh_known gh_next gh_last gh_log gh_tables gh_first gh_old gh_written gh_groups]; try done.
  - intros r. pose proof (di_hist _ _ _ _ _ _ _ _ _ Hinv r) as Hdi. rewrite Hhist, elem_of_nil in Hdi. split.
    + intros Hr. destruct Hdi as [[Hm|[[]|Ht]] _]; [by right| |done]. rewrite <- D12 in Hm. apply op_recs_seq in Hm. specialize (Hbefore r Hr). lia.
    + intros Ht. destruct Hdi as [_ [Hm|?]]; [right; by right| |done]. exfalso. destruct Ht as (f & Hf & Hr).
      pose proof (di_old _ _ _ _ _ _ _ _ _ Hinv f r r Hf ltac:(apply elem_of_app; by right) Hr) as Hn. unfold newer in Hn. lia.
  - split; [unfold gh_start; lia|lia].
  - by exists w.
  - cbn [fmap list_fmap app]. repeat constructor.
  - intros k Hk. cbn [fmap list_fmap app]. rewrite list_elem_of_singleton.
    assert (k ∈ dom disk) as Hkd by (apply elem_of_dom in Hk as [c Hc]; apply elem_of_dom; exists c; by eapply lookup_weaken). destruct (D10 k Hkd) as [? Hiff]. split; [lia|]. split; [|intros ->; lia].
    intros Hle. destruct Hiff as [Hin _]. specialize (Hin ltac:(lia)). apply elem_of_app in Hin as [Hin|Hin%list_elem_of_singleton]; [|done]. specialize (Hold k Hin). lia.
Qed.

(** *** Every step *)
Lemma known_flush levels new next known level f : known_ok levels next known → (∀ x, in_levels levels x → fm_number x < next) → fm_number f = next →
  (∀ i x, at_level new i x ↔ at_level levels i x ∨ i = level ∧ x = init_allowed_seeks f) → known_ok new (next + 1) (known ++ [(level, next)]).
Proof.
  intros Hk Hlt Hf Hat i n [Hin|Hin%list_elem_of_singleton]%elem_of_app.
  - destruct (Hk i n Hin) as [Hn Hlv]. split; [lia|]. intros j x [Hx|[-> ->]]%Hat Hxn; [by apply (Hlv j x)|]. simpl in Hxn. lia.
  - injection Hin as -> ->. split; [lia|]. intros j x [Hx|[-> ->]]%Hat Hxn; [|done]. specialize (Hlt x ltac:(apply in_levels_at; eauto)). lia.
Qed.
Lemma known_move levels new next known level f : known_ok levels next known → at_level levels level f → fm_number f < next →
  (∀ i j x y, at_level levels i x → at_level levels j y → fm_number x = fm_number y → i = j ∧ x = y) →
  (∀ i x, at_level new i x ↔ at_level levels i x ∧ ¬ (i = level ∧ fm_number x = fm_number f) ∨ i = S level ∧ x = moved_file f) →
  known_ok new next (known ++ [(S level, fm_number f)]) ∧ (S level, fm_number f) ∉ known.
Proof.
  intros Hk Hf Hn Hu Hat. split.
  - intros i n [Hin|Hin%list_elem_of_singleton]%elem_of_app.
    + destruct (Hk i n Hin) as [Hlt Hlv]. split; [lia|]. intros j x [[Hx _]|[-> ->]]%Hat Hxn; [by apply (Hlv j x)|]. specialize (Hlv level f Hf Hxn). lia.
    + injection Hin as -> ->. split; [done|]. intros j x [[Hx Hne]|[-> ->]]%Hat Hxn; [|done]. destruct (Hu j level x f Hx Hf Hxn) as [-> _]. by destruct Hne.
  - intros Hin. destruct (Hk _ _ Hin) as [_ Hlv]. specialize (Hlv level f Hf eq_refl). lia.
Qed.

Lemma inv_below d hist recs li lm x : db_inv d hist recs li lm → in_levels (v_current (db_versions d)) x → fm_number x < v_next_file_number (db_versions d).
Proof. intros Hinv Hx. destruct (di_files _ _ _ _ _ _ _ _ _ Hinv x Hx) as [_ ?]. lia. Qed.
Lemma flush_durable d d' disk kept hist recs recs' li lm g level f : db_inv d hist recs li lm → db_inv d' hist recs' [] lm → durable d disk hist recs li lm g → v_vnum (db_versions d) + 1 < 2 ^ 64 →
  v_next_file_number (db_versions d) + 2 < 2 ^ 64 → fm_number f = v_next_file_number (db_versions d) →
  logged ck ucmp uok uord o set_iter create_manifest remove_manifest update_current d (db_versions d) (v_next_file_number (db_versions d) + 1) (flush_edit o level (v_log_number (db_versions d)) f) d' →
  (∀ i x, at_level (v_current (db_versions d')) i x ↔ at_level (v_current (db_versions d)) i x ∨ i = level ∧ x = init_allowed_seeks f) → logs_kept d d' disk kept →
  ∃ g', durable d' (log_image d' kept) hist recs' [] lm g' ∧ v_log_number (db_versions d') = v_log_number (db_versions d) ∧ stays g g'.
Proof.
  intros Hinv Hinv' Hd Hvn Hnext Hnum (Hstep & Hrun & Hw) Hat Hkept. pose proof (di_lognum _ _ _ _ _ _ _ _ _ Hinv) as Hlg. pose proof (di_seq _ _ _ _ _ _ _ _ _ Hinv) as Hseq.
  pose proof (λ x, inv_below _ _ _ _ _ x Hinv) as Hlt. pose proof (du_manifest _ _ _ _ _ _ _ Hd) as Hman. pose proof (mi_known _ _ _ _ _ _ _ _ _ _ _ _ Hman) as Hknown.
  destruct (manifest_step ck ucmp uok uord set_iter Hset (o_max_levels o) create_manifest remove_manifest update_current (db_versions d) (db_versions d') _ _ _ _ _ _
    (v_next_file_number (db_versions d) + 1) (v_last_sequence (db_versions d)) _ Hman (di_manifest _ _ _ _ _ _ _ _ _ Hinv) (di_live _ _ _ _ _ _ _ _ _ Hinv) Hstep Hrun Hvn)
    as (rs & st & Hman' & Hn' & Hl' & Hg').
  - unfold in_uint. lia.
  - intros x Hx%list_elem_of_singleton Hin. subst x. cbn [snd fm_number] in Hin. apply Hknown in Hin as [Hk _]. lia.
  - done.
  - lia.
  - lia.
  - intros x (i & [Hx|[_ ->]]%Hat)%in_levels_at; [|simpl; lia]. specialize (Hlt x ltac:(apply in_levels_at; eauto)). lia.
  - cbn [flush_edit set_log_number set_prev_log_number add_file ve_new ve_new_files app new_ids fmap list_fmap fst snd fm_number]. rewrite Nat2Z.id, Hnum.
    apply (known_flush (v_current (db_versions d)) _ _ _ level f); try done.
  - destruct (settle_durable d d' disk kept hist recs recs' li lm g rs st _ _ Hinv' Hd Hman' Hw Hl' Hg' ltac:(lia) Hkept) as [Hd' Hext]. eauto.
Qed.
Lemma move_durable d d' disk kept hist recs lm g c ps f : db_inv d hist recs [] lm → db_inv d' hist recs [] lm → durable d disk hist recs [] lm g → v_vnum (db_versions d) + 1 < 2 ^ 64 →
  v_next_file_number (db_versions d) + 1 < 2 ^ 64 → at_level (v_current (db_versions d)) (cp_level c) f → length ps = length (v_compaction_pointer (db_versions d)) →
  logged ck ucmp uok uord o set_iter create_manifest remove_manifest update_current d (with_pointers (db_versions d) ps) (v_next_file_number (db_versions d)) (move_edit (B := B) c f) d' →
  cp_edit c = push_pointer_edit (Z.of_nat (cp_level c), fm_largest f) (ve_new (Z.of_nat (o_max_levels o))) →
  (∀ i x, at_level (v_current (db_versions d')) i x ↔
    at_level (v_current (db_versions d)) i x ∧ ¬ (i = cp_level c ∧ fm_number x = fm_number f) ∨ i = S (cp_level c) ∧ x = moved_file f) → logs_kept d d' disk kept →
  ∃ g', durable d' (log_image d' kept) hist recs [] lm g' ∧ v_log_number (db_versions d') = v_log_number (db_versions d) ∧ stays g g'.
Proof.
  intros Hinv Hinv' Hd Hvn Hnext Hf Hps (Hstep & Hrun & Hw) Hedit Hat Hkept. pose proof (di_lognum _ _ _ _ _ _ _ _ _ Hinv) as Hlg. pose proof (di_seq _ _ _ _ _ _ _ _ _ Hinv) as Hseq.
  pose proof (λ x, inv_below _ _ _ _ _ x Hinv) as Hlt. pose proof (du_manifest _ _ _ _ _ _ _ Hd) as Hman. pose proof (mi_known _ _ _ _ _ _ _ _ _ _ _ _ Hman) as Hknown.
  assert (in_levels (v_current (db_versions d)) f) as Hin by (apply in_levels_at; eauto).
  destruct (known_move _ (v_current (db_versions d')) _ _ (cp_level c) f Hknown Hf (Hlt f Hin) (di_unique _ _ _ _ _ _ _ _ _ Hinv) Hat) as [Hknown' Hfresh].
  assert (manifest_inv (with_pointers (db_versions d) ps) (gh_records g) (gh_state g) (gh_known g) (gh_next g) (gh_last g) (gh_log g)) as Hmanp by (by eapply manifest_mono; [exact Hman|..]).
  assert (live_inv uok uord (o_max_levels o) (with_pointers (db_versions d) ps) (v_current (db_versions d))) as Hlive.
  { destruct (di_live _ _ _ _ _ _ _ _ _ Hinv) as [? ? ? Hp]. split; try done. cbn [v_compaction_pointer with_pointers]. congruence. }
  assert (new_ids (ve_new_files (move_edit c f)) = [(S (cp_level c), fm_number f)]) as Hids.
  { unfold move_edit. rewrite Hedit. cbn [push_pointer_edit ve_new add_file delete_file ve_new_files app new_ids fmap list_fmap fst snd fm_number]. do 2 f_equal. lia. }
  assert (ve_log_number (move_edit c f) = None ∧ ve_prev_log_number (move_edit c f) = None) as [Hlog Hprev] by (unfold move_edit; by rewrite Hedit).
  destruct (manifest_step ck ucmp uok uord set_iter Hset (o_max_levels o) create_manifest remove_manifest update_current (with_pointers (db_versions d) ps) (db_versions d') _ _ _ _ _ _
    (v_next_file_number (db_versions d)) (v_last_sequence (db_versions d)) _ Hmanp (di_manifest _ _ _ _ _ _ _ _ _ Hinv) Hlive Hstep Hrun Hvn)
    as (rs & st & Hman' & Hn' & Hl' & Hg'); rewrite ?Hids, ?Hprev; cbn [with_pointers v_log_number]; try done; try lia.
  - unfold in_uint. lia.
  - by intros x ->%list_elem_of_singleton.
  - intros x (i & [[Hx _]|[_ ->]]%Hat)%in_levels_at; [apply Hlt, in_levels_at; eauto|exact (Hlt f Hin)].
  - rewrite Hlog in Hman', Hg'. destruct (settle_durable d d' disk kept hist recs recs [] lm g rs st _ _ Hinv' Hd Hman' Hw Hl' Hg' ltac:(lia) Hkept) as [Hd' Hext]. eauto.
Qed.

(** What a step does to the current log. *)
Definition advances (d d' : DB) (g g' : Ghost) : Prop :=
  v_log_number (db_versions d') = v_log_number (db_versions d) ∧ (stays g g' ∨ grows g g') ∨ v_log_number (db_versions d) < v_log_number (db_versions d') ∧ rotates g g'.
Lemma calm_step d d' disk kept hist recs li lm g : calm d d' → durable d disk hist recs li lm g → logs_kept d d' disk kept →
  durable d' (log_image d' kept) hist recs li lm g ∧ advances d d' g g.
Proof.
  intros Hc Hd Hk. rewrite (kept_all _ _ _ _ Hk (cm_manifest _ _ Hc)). pose proof (calm_durable _ _ _ _ _ _ _ _ Hc Hd) as Hd'. rewrite (durable_image _ _ _ _ _ _ _ Hd').
  split; [done|]. left. split; [apply Hc|by left].
Qed.

Notation background_compaction := (background_compaction ck ucmp o set_iter create_manifest remove_manifest update_current remove_table remove_file size_level new_input_iterator).
Lemma background_durable d hist recs lm disk kept g fuel failed_next listing old snapshots r snapshots' d' : db_inv d hist recs [] lm → durable d disk hist recs [] lm g →
  quiet_turn ck ucmp o size_level d → v_next_file_number (db_versions d) + 1 < 2 ^ 64 → v_vnum (db_versions d) + 1 < 2 ^ 64 → sizes_ok (v_current (db_versions d)) →
  background_compaction fuel failed_next listing old snapshots d = (r, snapshots', d') → logs_kept d d' disk kept →
  ∃ g', durable d' (log_image d' kept) hist recs [] lm g' ∧ advances d d' g g'.
Proof.
  intros Hinv Hd [Him Hquiet] Hn Hv Hsz Hrun Hkept. assert (calm d d' → ∃ g', durable d' (log_image d' kept) hist recs [] lm g' ∧ advances d d' g g') as Hcalm.
  { intros Hc. exists g. by apply (calm_step d d' disk kept). }
  unfold Background.background_compaction in Hrun. rewrite bool_decide_false in Hrun by (rewrite Him; by intros []).
  unfold choose_compaction in *. destruct (db_manual_queue d) as [|m q].
  - destruct (pick_compaction _ _ _ _ _ _) as [[c ps|reset ps]| | |] eqn:Hp; rewrite ?Ok_bind in *; try (injection Hrun as _ _ <-; by apply Hcalm, calm_same).
    + destruct Hquiet as (_ & Ht & Hat). rewrite Ht in Hrun. destruct (is_trivial_inv ck o c Ht) as (f & Hf & Hpar).
      destruct (move_inv ck node_base Hbase ucmp uok uord holds sink_sized o set_iter Hset create_log create_manifest remove_manifest update_current remove_table remove_file score_high Ho size_level new_input_iterator d hist recs [] lm listing old c ps f Hinv Hp Hf Hpar)
        as (d2 & Hmv & Hinv' & _ & _ & _ & _ & _ & Hps & _ & Hlogged & Hedit & Hlv); [apply Hat; rewrite Hf; by left|done..|].
      rewrite Hmv in Hrun. injection Hrun as _ _ <-. assert (at_level (v_current (db_versions d)) (cp_level c) f) as Hcf by (apply Hat; rewrite Hf; by left).
      destruct (move_durable d d2 disk kept hist recs lm g c ps f Hinv Hinv' Hd Hv Hn Hcf Hps Hlogged Hedit Hlv Hkept) as (g' & Hd' & Hl & Hext). exists g'. split; [done|by left; auto].
    + injection Hrun as _ _ <-. apply Hcalm. split; try done. exists (reset_file reset). split; [|done]. intros f. unfold reset_file. by destruct (bool_decide _).
  - destruct (compact_range _ _ _ _ _ _ _ _ _) as [[[c ps]|]| | |] eqn:Hp; rewrite ?Ok_bind in *; try (injection Hrun as _ _ <-; by apply Hcalm, calm_same).
    by destruct Hquiet as [? _].
Qed.

Lemma step_durable hist d hist' d' recs li lm disk kept g : db_step (hist, d) (hist', d') → db_inv d hist recs li lm → durable d disk hist recs li lm g → logs_kept d d' disk kept →
  ∃ recs' li' lm' g', db_inv d' hist' recs' li' lm' ∧ durable d' (log_image d' kept) hist' recs' li' lm' g' ∧ advances d d' g g'.
Proof.
  intros Hstep Hinv Hd Hkept.
  assert (∀ d', calm d d' → db_inv d' hist recs li lm → logs_kept d d' disk kept →
    ∃ recs' li' lm' g', db_inv d' hist recs' li' lm' ∧ durable d' (log_image d' kept) hist recs' li' lm' g' ∧ advances d d' g g') as Hcalm.
  { intros d2 Hc Hinv' Hk. exists recs, li, lm, g. split; [done|]. by apply (calm_step d d2 disk kept). }
  inversion Hstep; subst.
  - destruct (commit_inv ck node_base Hbase ucmp uok uord holds o create_log create_manifest update_current remove_table remove_file d hist recs li lm hs g0 signals ops 0 Hinv) as (s2 & lm' & Hrun & Hinv' & _ & Hlm & Hlast & w & w' & b & E & off & Hw & Hw' & Hb & Hfr & Hwr);
      try done; [by rewrite Z.add_0_r|].
    match goal with Hc : commit_group _ _ _ _ _ _ _ = Ok (answers, _) |- _ => rewrite Hc in Hrun; injection Hrun as -> -> end.
    rewrite (kept_all _ _ _ _ Hkept eq_refl).
    destruct (commit_durable d disk hist recs li lm lm' g s2 w w' b E off ops) as [Hd' Hext]; try done. exists recs, li, lm', (add_group g (wb_contents b) ops). split_and!; [done..|]. left. split; [done|by right].
  - assert (db_im_mem d = None) as Him by (by eapply room_switch). assert (li = []) as -> by (pose proof (di_im _ _ _ _ _ _ _ _ _ Hinv) as Hi; by rewrite Him in Hi).
    destruct (switch_inv ck node_base Hbase uok uord holds o create_log create_manifest update_current remove_table score_high Ho d hist' recs [] lm f Hinv) as (d2 & Hsw & Hinv' & _ & _ & _ & _ & Hw & Hv); try done.
    match goal with Hc : switch_memtable _ _ _ _ _ _ = Ok d' |- _ => rewrite Hc in Hsw; injection Hsw as -> end.
    rewrite (kept_all _ _ _ _ Hkept) by (by rewrite Hv).
    destruct (rotate_durable d d2 disk hist' recs lm g f) as [Hd' Hrot]; try done; [by eapply Hlog_empty|]. exists recs, lm, [], (new_log d g). split_and!; [done..|]. right. split; [|done].
    rewrite Hv. cbn [v_log_number]. pose proof (di_lognum _ _ _ _ _ _ _ _ _ Hinv). lia.
  - destruct (flush_inv ck node_base Hbase ucmp uok uord holds sink_sized o set_iter Hset create_log create_manifest remove_manifest update_current remove_table remove_file Ho d hist' recs li lm m files old Hinv)
      as (d2 & Hfl & Hinv' & _ & _ & _ & _ & level & f & Hnum & Hlogged & Hat); try done.
    match goal with Hc : compact_mem_table _ _ _ _ _ _ _ _ _ _ _ _ = _ |- _ => rewrite Hc in Hfl; injection Hfl as -> -> end.
    destruct (flush_durable d d2 disk kept hist' recs _ li lm g level f Hinv Hinv' Hd) as (g' & Hd' & Hl & Hext); try done. eexists _, _, _, g'. split_and!; [done..|by left; auto].
  - match goal with Hq : quiet_turn _ _ _ _ _ |- _ => pose proof Hq as [Him _] end.
    assert (li = []) as -> by (pose proof (di_im _ _ _ _ _ _ _ _ _ Hinv) as Hi; by rewrite Him in Hi).
    destruct (background_durable d hist' recs lm disk kept g fuel failed_next listing old snapshots r snapshots' d' Hinv Hd) as (g' & Hd' & Hadv); try done. exists recs, [], lm, g'. split_and!; [|done..].
    by eapply background_inv.
  - assert (calm d d') as Hc by (by eapply calm_get). apply Hcalm; [done| |done]. destruct (db_is_shutting_down d) eqn:Hsh.
    { match goal with Hg : db_get _ _ _ _ _ = _ |- _ => unfold db_get in Hg; rewrite Hsh in Hg; injection Hg as <- <- end. done. }
    destruct (db_get_ok ucmp uok uord holds o score_high d hist' recs li lm snapshot u Hinv) as (d2 & Hg & Hinv'); try done.
    match goal with Hc : db_get _ _ _ _ _ = _ |- _ => rewrite Hc in Hg; injection Hg as -> -> end. done.
  - apply Hcalm; [by apply calm_same| |done]. by eapply inv_same; [..|exact Hinv].
  - apply Hcalm; [apply calm_schedule| |done]. by apply schedule_inv.
  - apply Hcalm; [by eapply calm_sample| |done]. by eapply sample_inv.
Qed.
End Steps.
