(* ===== verification/Crash.v ===== *)
(** * A database outlives crashes

    A run of the database together with the logs on its disk.  A crash leaves the manifest
    (perhaps with a torn record), the tables of the current version, the closed logs and a
    part of the current one; [open_db] turns this into a database that serves the history
    of the last moment at which the current log was within the part that is left.  The new
    database is in the same state of affairs, so this can be repeated. *)
From stdpp Require Import gmap sorting.
From S2P Require Import Prelude Coding Varint Comparator Format Storage Record Iterator SkipList SkipListFacts MemTable Batch VersionEdit Version LevelIter VersionGet VersionBuild KMerge DbIter Snapshot Compaction CompactPick Flush DbWrite Recovery Manifest Filename Db Sampling Background DbFacts OpenDb Reopen Durable.
Open Scope Z_scope.

(** ** The history that survives *)

(** The sizes of the current log and the histories, oldest first, since it was started. *)
Notation Marks := (list (nat * list mrec)).
(** The history of the last moment at which the log had at most [cut] bytes. *)
Definition surviving (marks : Marks) (cut : nat) : list mrec :=
  match last (filter (λ m : nat * list mrec, (m.1 ≤ cut)%nat) marks) with Some (_, h) => h | None => [] end.

Lemma filter_prefix {A} (P : A → Prop) `{!∀ x, Decision (P x)} (l : list A) k : (∀ j x, l !! j = Some x → P x ↔ (j < k)%nat) → filter P l = take k l.
Proof.
  revert k. induction l as [|x l IH]; intros k Hk; [by rewrite take_nil|]. pose proof (Hk 0%nat x eq_refl) as Hx. destruct k as [|k].
  - rewrite filter_cons, decide_False by (rewrite Hx; lia). rewrite (IH 0%nat); [done|]. intros j y Hy. rewrite (Hk (S j) y Hy). lia.
  - rewrite filter_cons, decide_True by (apply Hx; lia). cbn [take]. f_equal. apply IH. intros j y Hy. rewrite (Hk (S j) y Hy). lia.
Qed.
Lemma surviving_at (marks : Marks) cut k n h : (∀ j x, marks !! j = Some x → (x.1 ≤ cut)%nat ↔ (j ≤ k)%nat) → marks !! k = Some (n, h) → surviving marks cut = h.
Proof.
  intros Hm Hk. unfold surviving. rewrite (filter_prefix _ marks (S k)); [|intros j x Hx; rewrite (Hm j x Hx); lia].
  pose proof (lookup_lt_Some _ _ _ Hk) as Hlt. rewrite last_lookup, length_take, Nat.min_l by lia. change (Nat.pred (S k)) with k. rewrite lookup_take_lt by lia. by rewrite Hk.
Qed.

(** ** The logs in a directory *)
Definition listed_logs (names : list bytes) : list Z :=
  omap (λ name, match parse_filename name with Some (FLog, k) => Some k | _ => None end) names.
Lemma scan_listed a b names e : (scan_files a b names e).2 = filter (λ k, a ≤ k ∨ k = b) (listed_logs names).
Proof.
  revert e. induction names as [|name names IH]; intros e; [done|]. cbn [scan_files listed_logs omap list_omap]. fold (listed_logs names).
  destruct (parse_filename name) as [[t k]|]; [|apply IH]. specialize (IH (e ∖ {[k]})). destruct (scan_files a b names (e ∖ {[k]})) as [ex logs]. simpl in *. subst logs.
  destruct (decide (t = FLog)) as [->|Ht]; [rewrite bool_decide_true by done|rewrite bool_decide_false by done; by destruct t].
  rewrite filter_cons. simpl. destruct (Z.leb_spec a k), (Z.eqb_spec k b); simpl; case_decide; done || lia.
Qed.
Lemma listed_length names : len (listed_logs names) ≤ len names.
Proof.
  induction names as [|name names IH]; [done|]. cbn [listed_logs omap list_omap]. fold (listed_logs names). rewrite len_cons. destruct (parse_filename name) as [[[] k]|]; rewrite ?len_cons; lia.
Qed.
Lemma sorted_logs a names numbers (disk : gset Z) : listed_logs names ≡ₚ elements disk → StronglySorted Z.lt numbers → (∀ k, k ∈ numbers → k ∈ disk) →
  (∀ k, k ∈ disk → 0 < k ∧ (a ≤ k ↔ k ∈ numbers)) → merge_sort Z.le (scan_files a 0 names ∅).2 = numbers.
Proof.
  intros Hl Hs Hin Hneed. rewrite scan_listed. apply (StronglySorted_unique Z.le); [apply (StronglySorted_merge_sort Z.le)| |].
  - clear -Hs. induction Hs as [|k l _ IH Hk]; constructor; [done|]. eapply Forall_impl; [exact Hk|]. simpl. lia.
  - rewrite merge_sort_Permutation, Hl. apply NoDup_Permutation.
    + apply NoDup_filter, NoDup_elements.
    + by apply lt_sorted_nodup.
    + intros k. rewrite list_elem_of_filter, elem_of_elements. split.
      * intros [Ha Hk]. destruct (Hneed k Hk) as [? Hiff]. apply Hiff. lia.
      * intros Hk. specialize (Hin k Hk). destruct (Hneed k Hin) as [? Hiff]. split; [left; by apply Hiff|done].
Qed.

Section Crash.
Context `{CRC : Crc32, !Crc32Laws} `{FL : FileLaws F} (ck : bool) (node_base : Z) (Hbase : 0 < node_base < 2 ^ 40).
Context (ucmp : Comparator) (uok : bytes → Prop) (uord : bytes → bytes → comparison) {CO : ComparatorOrder ucmp uok uord}.
Context {B : Type} {TS : TableSink B} {TG : TableSource B} (holds : B → list entry → Prop).
Context {SL : TableSinkLaws (iord uord) (ikey_ok uok) holds} {GL : TableSourceLaws uok uord holds}.
Context (sink_sized : ∀ b es b', holds b es → sink_finish b = Ok b' → 0 < sink_file_size b' < 2 ^ 64).
Context (o : DbOptions) (oo : OpenOptions) (set_iter : gset (Z * Z) → list (Z * Z)) (Hset : ∀ s, set_iter s ≡ₚ elements s).
Context (create_log create_manifest : Z → outcome F) (remove_manifest : option Z → outcome unit) (update_current : Z → outcome unit).
Context (remove_table : Z → outcome unit) (remove_file : bytes → outcome unit) (score_high : list (list FileMetaData) → bool) (error_text : error → string).
Context (db_path : bytes) (Ho : options_ok node_base o) (Hre : oo_reuse_logs oo = false) (Hex : oo_error_if_exists oo = false).
Context (Hname : bytes_of_string (@cmp_name ucmp) ≠ [] ∧ len (bytes_of_string (@cmp_name ucmp)) < 2 ^ 32 ∧ utf8_valid (bytes_of_string (@cmp_name ucmp)) = true).
(** The storage creates empty files, and CURRENT can be replaced. *)
Context (Hlog : ∀ k, ∃ f, create_log k = Ok f ∧ f_ok f ∧ f_contents f = []) (Hmanifest : ∀ k, ∃ f, create_manifest k = Ok f ∧ f_ok f ∧ f_contents f = []).
Context (Hupdate : ∀ k, update_current k = Ok tt).
(** The records of a memtable fit in a memtable, whatever heights their nodes get. *)
Context (total : Z) (Hroom : 1 + (node_base + 167) * (1 + total) ≤ o_write_buffer_size o / 8 * 8) (Htotal : 0 ≤ total < 2 ^ 28).
Context {I : Type} {IT : Iterator I} (size_level : list (list FileMetaData) → option nat) (new_input_iterator : Compaction B → gmap Z B → outcome I).
Notation DB := (DB F B).
Notation db_step := (db_step ck node_base ucmp uok o set_iter create_log create_manifest remove_manifest update_current remove_table remove_file score_high size_level new_input_iterator).
Notation db_inv := (db_inv uok uord holds o).
Notation durable := (durable ucmp uok uord o set_iter).
Notation opening := (opening uok uord o ck ucmp set_iter create_log create_manifest remove_manifest update_current).

(** ** A database that was just opened *)
Lemma log_empty k f : create_log k = Ok f → f_contents f = [].
Proof. intros Hc. destruct (Hlog k) as (f' & Hf & _ & He). rewrite Hc in Hf. by injection Hf as ->. Qed.

Lemma opened_edit v e (d : DB) : opening v e d →
  ∃ w new, db_versions d = after_edit v (v_next_file_number v) (v_last_sequence v) e w new ∧ same_files new (edit_all (v_current v) e).
Proof.
  intros [Hw Hlive Hstep Hrun Hvn _ _ _ _ _ _ (fm & Hcr & Hfm) Hup]. destruct (open_manifest_new ucmp set_iter (o_max_levels o) create_manifest remove_manifest
    (with_pointers (with_counters v (v_next_file_number v) (v_last_sequence v)) (foldl (λ c p, <[Z.to_nat p.1 := p.2]> c) (v_compaction_pointer v) (ve_compaction_pointers e))) fm Hw Hcr Hfm)
    as (w & E & off & Hopen & _ & Hwr).
  destruct (log_step ck ucmp uok uord set_iter Hset (o_max_levels o) create_manifest remove_manifest update_current v (v_current v) [] _ _ e w (Some (v_manifest_file_number v)) Hlive Hstep Hvn Hopen)
    as (w' & new & E' & off' & Hlog' & _ & _ & [Hsame _ _ _]); [apply Hwr|by intros k [= <-]|]. replace (with_counters v (v_next_file_number v) (v_last_sequence v)) with v in Hlog' by (by destruct v).
  rewrite Hrun in Hlog'. injection Hlog' as ->. by exists w', new.
Qed.
Lemma opened_at v e (d : DB) i f : opening v e d → at_level (v_current v) i f → at_level (v_current (db_versions d)) i f.
Proof.
  intros Hop (fs & Hfs & Hf). destruct (opened_edit v e d Hop) as (w & new & -> & Hsame). destruct (op_edit _ _ _ _ _ _ _ _ _ _ _ _ _ Hop) as [Hdel _].
  apply (edited_at _ (v_current v) e i f Hsame). exists fs. split; [done|]. unfold edited. apply elem_of_app. left.
  apply list_elem_of_filter. split; [|done]. left. rewrite Hdel. apply not_elem_of_empty.
Qed.

Lemma opening_durable v e (d : DB) hist recs disk : db_inv d hist recs [] [] → opening v e d → Forall pointer_small (v_compaction_pointer v) → (∀ k, k ∈ dom disk → 0 < k < v_log_number v) →
  ∃ g, durable d (log_image d disk) hist recs [] [] g ∧ gh_written g = [] ∧ gh_groups g = [] ∧ upto g 0 = hist.
Proof.
  intros Hinv Hop Hptr Hdisk. pose proof (λ i f, opened_at v e d i f Hop) as Hat.
  assert (v_next_file_number (db_versions d) = v_next_file_number v) as Hnn by (by destruct (opened_edit v e d Hop) as (w & new & -> & _)). destruct Hop as [Hw Hlive Hstep Hrun Hvn (Hl0 & Hln & Hle) [Hp0 Hpe] [Hdel Hpp] Hnew Hsz (fl & Hcl & Hfl & Hrw) (fm & Hcr & Hfm) Hup].
  pose proof (log_empty _ _ Hcl) as Hemp. destruct (Hmanifest (v_manifest_file_number v)) as (fm' & Hcr' & _ & Hcon). rewrite Hcr in Hcr'. injection Hcr' as <-.
  pose proof (so_next _ _ _ _ _ _ _ _ _ Hstep) as Hnx. pose proof (so_last _ _ _ _ _ _ _ _ _ Hstep) as Hls. destruct (oo_levels _ _ Ho) as [_ Hml].
  assert (edit_ok (snapshot_edit ucmp (o_max_levels o) v)) as Hsnap.
  { apply snapshot_ok; [done|done|by destruct Hlive|apply Hlive|done|]. intros f (i & Hf)%in_levels_at. assert (in_levels (v_current (db_versions d)) f) as Hin by (apply in_levels_at; eauto).
    destruct (inv_key_lengths uok uord holds o d hist recs [] [] f Hinv Hin) as [Hk1 Hk2]. pose proof (di_files _ _ _ _ _ _ _ _ _ Hinv f Hin) as [_ Hnum].
    destruct Hf as (fs & Hfs & Hf). destruct (Hsz i fs Hfs) as [Hpos Hsum]. pose proof (lo_files _ _ _ (li_levels _ _ _ _ _ Hlive) i fs Hfs) as Hfo. rewrite Forall_forall in Hfo, Hpos. specialize (Hfo f Hf).
    pose proof (sizes_member fs f ltac:(by apply Forall_forall) Hf) as Hle2. specialize (Hpos f Hf). simpl in Hpos.
    assert (∀ k, ikey_ok uok (ik_data k) → len (ik_data k) < 2 ^ 32 → VersionEdit.key_ok k) as Hkey by (intros k [Hk _] Hkl; split; [|done]; intros Heq; rewrite Heq in Hk; simpl in Hk; lia).
    destruct Hfo as [Hsm Hla _ _]. split_and!; [unfold in_uint; lia|unfold in_uint; lia|by apply Hkey|by apply Hkey]. }
  replace v with (with_counters v (v_next_file_number v) (v_last_sequence v)) in Hrun by (by destruct v).
  destruct (manifest_start ck ucmp uok uord set_iter Hset (o_max_levels o) create_manifest remove_manifest update_current v (db_versions d) fm _ _ e Hw Hcr Hfm Hcon Hup Hlive Hstep Hrun Hvn)
    as (rs & st & known & Hman & Hn' & Hl' & Hg'); try done; try lia.
  - unfold in_uint. lia.
  - unfold in_uint in Hls. lia.
  - intros g Hg. destruct (di_files _ _ _ _ _ _ _ _ _ Hinv g Hg) as [_ ?]. lia.
  - apply (di_unique _ _ _ _ _ _ _ _ _ Hinv).
  - rewrite Hle in Hman, Hg'. simpl in Hman, Hg'.
    exists (mkGhost rs st known (v_next_file_number v) (v_last_sequence v) (v_log_number v) hist (v_last_sequence v + 1) [] [] []). split_and!; try done.
    assert (log_image d disk = <[v_log_number v := []]> disk) as -> by (unfold log_image; rewrite Hrw, Hg'; cbn [w_dest]; by rewrite Hemp).
    unfold in_uint in Hls. split; rewrite ?Hg', ?Hl', ?Hn'; unfold gh_start; cbn [gh_records gh_state gh_known gh_next gh_last gh_log gh_tables gh_first gh_old gh_written gh_groups]; try done.
    + intros r. rewrite (di_hist _ _ _ _ _ _ _ _ _ Hinv r), !elem_of_nil. naive_solver.
    + intros r Hr. pose proof (di_last _ _ _ _ _ _ _ _ _ Hinv r Hr). lia.
    + change (len (logs_ops [])) with 0. change (len (mjoin [])) with 0. lia.
    + exists (mkWriter fl 0 type_crcs). split_and!; [done|by apply log_holds_new|]. cbn [w_dest]. by rewrite Hemp, lookup_insert_eq.
    + repeat constructor.
    + intros k. rewrite dom_insert, elem_of_union, elem_of_singleton. cbn [fmap list_fmap app]. rewrite list_elem_of_singleton. intros [->|Hk]; [lia|]. specialize (Hdisk k Hk). lia.
Qed.

(** ** Runs, with the logs on disk *)
Record World : Type := mkWorld {
  wd_hist : list mrec;
  wd_db : DB;
  wd_logs : gmap Z bytes;
  wd_marks : Marks;
}.
Definition log_size (d : DB) : nat := match db_record_writer d with Some w => length (f_contents (w_dest w)) | None => 0 end.
(** A mark is added whenever the log has grown; a new log begins with one mark. *)
Definition next_marks (d d' : DB) (hist' : list mrec) (marks : Marks) : Marks :=
  if decide (v_log_number (db_versions d') = v_log_number (db_versions d)) then
    if decide (log_size d' = log_size d) then marks else marks ++ [(log_size d', hist')]
  else [(log_size d', hist')].
Inductive run : World → World → Prop :=
| run_step hist d logs marks hist' d' kept : db_step (hist, d) (hist', d') → logs_kept d d' logs kept →
    run (mkWorld hist d logs marks) (mkWorld hist' d' (log_image d' kept) (next_marks d d' hist' marks)).

(** The marks are the sizes of the log and the histories after each of its groups. *)
Definition marks_ok (g : Ghost) (marks : Marks) : Prop :=
  length marks = S (length (gh_groups g)) ∧
  ∀ j n h, marks !! j = Some (n, h) → h = upto g j ∧ ∃ w : Writer F, log_holds w (take j (gh_written g)) ∧ length (f_contents (w_dest w)) = n.
Definition good (w : World) : Prop :=
  ∃ recs li lm g, db_inv (wd_db w) (wd_hist w) recs li lm ∧ durable (wd_db w) (wd_logs w) (wd_hist w) recs li lm g ∧ marks_ok g (wd_marks w).

Lemma log_holds_size (w w' : Writer F) rs : log_holds w rs → log_holds w' rs → f_contents (w_dest w') = f_contents (w_dest w).
Proof. intros (_ & _ & _ & Hl) (_ & _ & _ & Hl'). by destruct (log_records_det _ _ _ _ Hl _ _ Hl'). Qed.
Lemma log_holds_longer (w w' : Writer F) rs r : log_holds w rs → log_holds w' (rs ++ [r]) → (length (f_contents (w_dest w)) < length (f_contents (w_dest w')))%nat.
Proof.
  intros (f0 & Hf & Hc & Hl) Hl'. assert (writer_ok (mkWriter f0 0 type_crcs)) as Hw by (by split_and!).
  destruct (add_records_ok _ rs Hw) as (w1 & E & off & _ & Hl1 & Hw1). destruct (add_record_ok w1 r ltac:(apply Hw1)) as (w2 & E2 & off2 & _ & Hfr & Hw2).
  assert (log_holds w1 rs) as H1. { exists f0. split_and!; [done..|]. destruct Hw1 as (_ & -> & _ & ->). cbn [w_dest]. by rewrite Hc, app_nil_l. }
  rewrite (log_holds_size w1 w rs H1 ltac:(by exists f0)), (log_holds_size w2 w' (rs ++ [r]) ltac:(by eapply log_holds_add) Hl'). destruct Hw2 as (_ & -> & _).
  rewrite length_app. pose proof (log_frags_length _ _ _ _ _ Hfr). lia.
Qed.

Lemma run_good w w' : run w w' → good w → good w'.
Proof.
  intros [hist d logs marks hist' d' kept Hstep Hkept] (recs & li & lm & g & Hinv & Hd & Hlen & Hm). cbn [wd_db wd_hist wd_logs wd_marks] in *.
  destruct (step_durable ck node_base Hbase ucmp uok uord holds sink_sized o set_iter Hset create_log create_manifest remove_manifest update_current remove_table remove_file score_high Ho log_empty
    size_level new_input_iterator hist d hist' d' recs li lm logs kept g Hstep Hinv Hd Hkept) as (recs' & li' & lm' & g' & Hinv' & Hd' & Hadv).
  exists recs', li', lm', g'. split_and!; [done..|]. destruct (du_writer _ _ _ _ _ _ _ _ _ _ _ _ Hd) as (x & Hw & Hh & _). destruct (du_writer _ _ _ _ _ _ _ _ _ _ _ _ Hd') as (x' & Hw' & Hh' & _).
  pose proof (du_hist _ _ _ _ _ _ _ _ _ _ _ _ Hd') as Hhist'. pose proof (batches_length _ _ _ _ (du_current _ _ _ _ _ _ _ _ _ _ _ _ Hd)) as Hbl.
  unfold next_marks, log_size. cbn [wd_marks]. rewrite Hw, Hw'. destruct Hadv as [[Hl [(Ew & Eg & Eu)|(r & ops & Ew & Eg & Eu)]]|[Hl (Ew & Eg & Eu)]].
  - rewrite decide_True by done. rewrite Ew in Hh'. rewrite (log_holds_size x x' _ Hh Hh'), decide_True by done. split; [by rewrite Eg|]. intros j n h Hj. rewrite Ew, Eu. by apply Hm.
  - rewrite decide_True by done. rewrite Ew in Hh'. pose proof (log_holds_longer x x' _ r Hh Hh') as Hlt. rewrite decide_False by lia. split; [rewrite Eg, !length_app, Hlen; simpl; lia|].
    intros j n h [Hj|[Hge Hj]]%lookup_app_Some.
    + pose proof (lookup_lt_Some _ _ _ Hj) as Hjl. rewrite Hlen in Hjl. destruct (Hm j n h Hj) as [-> Hlog']. rewrite Eu by lia. split; [done|]. rewrite Ew, take_app_le by lia. done.
    + apply list_lookup_singleton_Some in Hj as [Hj0 [= <- <-]]. assert (j = S (length (gh_groups g))) as -> by lia. rewrite Eg, length_app in Hhist'. simpl in Hhist'. rewrite Nat.add_1_r in Hhist'.
      split; [done|]. exists x'. split; [|done]. rewrite Ew, take_ge by (rewrite length_app; simpl; lia). done.
  - rewrite decide_False by lia. split; [by rewrite Eg|]. intros [|j] n h Hj; [|done]. injection Hj as <- <-. rewrite Eg in Hhist'. split; [done|]. exists x'. rewrite Ew in Hh' |- *. by split.
Qed.

(** ** What a crash leaves *)

(** The manifest is complete, but may end in a part of a record that was being written; the
    tables of the current version and the logs are in the directory, the closed logs
    complete, the current log with its first [cut] bytes. *)
Record crash_image (d : DB) (logs : gmap Z bytes) (cut : nat) (os : OpenStorage F B) (names names' : list bytes) : Prop := {
  ci_lock : os_lock os = Ok tt;
  ci_current : os_current_exists os = true;
  ci_manifest : ∃ name f w r w2 n, os_read_current os = Ok name ∧ utf8_valid name = true ∧ name ≠ [] ∧ os_open os (db_path ++ SEPARATOR :: name) = Ok f ∧ f_ok f ∧ f_pos f = 0%nat ∧
    v_manifest_writer (db_versions d) = Some w ∧ add_record w r = (Ok tt, w2) ∧ (length (f_contents (w_dest w)) ≤ n < length (f_contents (w_dest w2)))%nat ∧
    f_contents f = take n (f_contents (w_dest w2));
  ci_tables f : in_levels (v_current (db_versions d)) f → os_tables os !! fm_number f = db_tables d !! fm_number f;
  ci_sizes : sizes_ok (v_current (db_versions d));
  ci_listing : os_listing os = Ok names;
  ci_present f : in_levels (v_current (db_versions d)) f → ∃ name t, name ∈ names ∧ parse_filename name = Some (t, fm_number f);
  ci_logs : listed_logs names ≡ₚ elements (dom logs);
  ci_open k c : logs !! k = Some c → ∃ f, os_open os (generate_filename db_path FLog k) = Ok f ∧ f_ok f ∧ f_pos f = 0%nat ∧
    f_contents f = if decide (k = v_log_number (db_versions d)) then take cut c else c;
  ci_records m : m = db_mem d ∨ db_im_mem d = Some m → ∃ n, mem_len m = Ok n ∧ Z.of_nat n ≤ total;
  ci_numbers : v_next_file_number (db_versions d) + total * len names + 5 < 2 ^ 64;
  ci_listing_after : os_listing_after os = Ok names';
}.

Lemma crash_manifest d logs cut os names names' rs : crash_image d logs cut os names names' → (∃ w, v_manifest_writer (db_versions d) = Some w ∧ log_holds w rs ∧ writer_ok w) →
  ∃ name f, os_read_current os = Ok name ∧ utf8_valid name = true ∧ name ≠ [] ∧ os_open os (db_path ++ SEPARATOR :: name) = Ok f ∧ crashed_log f rs.
Proof.
  intros Hci (w' & Hw' & Hh & Hok). destruct (ci_manifest _ _ _ _ _ _ Hci) as (name & f & w & r & w2 & n & H1 & H2 & H3 & H4 & Hf & Hp & Hw & Hadd & Hn & Hc).
  rewrite Hw in Hw'. injection Hw' as <-. exists name, f. split_and!; try done. destruct (add_record_ok w r Hok) as (w3 & E & off & Hadd' & Hfr & Hwr). rewrite Hadd in Hadd'. injection Hadd' as <-.
  pose proof (log_holds_add _ _ _ _ _ _ Hh Hfr Hwr) as Hh2. destruct (log_holds_cut w2 (rs ++ [r]) f n Hh2 Hf Hp Hc) as (k & Hk & Hcr & Hcut). rewrite length_app in Hk. simpl in Hk.
  pose proof (Hcut (length rs) w ltac:(rewrite length_app; lia) ltac:(by rewrite take_app_length)) as C1.
  pose proof (Hcut (S (length rs)) w2 ltac:(rewrite length_app; simpl; lia) ltac:(rewrite take_ge; [done|rewrite length_app; simpl; lia])) as C2.
  assert (k = length rs) as -> by lia. by rewrite take_app_length in Hcr.
Qed.

Lemma crash_logs d logs os names names' cut q old : crash_image d logs cut os names names' → logs_on uok logs q old → (∀ k, k ∈ log_number_of <$> old → k < v_log_number (db_versions d)) →
  len (logs_ops old) ≤ total → ∀ number opss, (∃ f rs, os_open os (generate_filename db_path FLog number) = Ok f ∧ crashed_log f rs ∧ batches_from uok (q + len (logs_ops old)) rs opss) → len (mjoin opss) ≤ total →
  logs_survive uok db_path os total q ((log_number_of <$> old) ++ [number]) ((snd <$> old) ++ [opss]).
Proof.
  intros Hci. revert q. induction old as [|[[k rs] opss] old IH]; intros q Hon Hlt Htot number opss' Hcur Hcl.
  { cbn [fmap list_fmap app logs_survive]. change (len (logs_ops [])) with 0 in Hcur. rewrite Z.add_0_r in Hcur. by split_and!. }
  destruct Hon as ((w & Hh & Hk) & Hb & Hon). change (logs_ops ((k, rs, opss) :: old)) with (logs_ops ([(k, rs, opss)] ++ old)) in *. rewrite logs_ops_app, logs_ops_one, len_app in *.
  pose proof (len_nonneg (mjoin opss)). pose proof (len_nonneg (logs_ops old)). cbn [fmap list_fmap app logs_survive log_number_of fst snd]. split_and!; [|lia|].
  - destruct (ci_open _ _ _ _ _ _ Hci k _ Hk) as (f & Hopen & Hf & Hp & Hc). specialize (Hlt k ltac:(by left)). rewrite decide_False in Hc by lia. exists f, rs. split_and!; [done| |done]. by eapply log_holds_complete.
  - apply IH; [done| |lia|by rewrite <- Z.add_assoc|done]. intros k' Hk'. apply Hlt. by right.
Qed.

(** The version set that the manifest describes. *)
Definition manifest_version (d : DB) (g : Ghost) : VersionSet F :=
  mkVset (gh_next g) (gh_last g) (gh_log g) 0 0 None 0 (v_current (db_versions d)) (rs_pointers (gh_state g)).
Lemma manifest_version_inv d logs hist recs li lm g tables : db_inv d hist recs li lm → durable d logs hist recs li lm g →
  (∀ f, in_levels (v_current (db_versions d)) f → tables !! fm_number f = db_tables d !! fm_number f) → version_inv uok uord holds o (manifest_version d g) tables (gh_tables g) recs.
Proof.
  intros Hinv Hd Ht. pose proof (du_manifest _ _ _ _ _ _ _ _ _ _ _ _ Hd) as Hman. pose proof (mi_last _ _ _ _ _ _ _ _ _ _ _ _ Hman) as Hl. pose proof (mi_next _ _ _ _ _ _ _ _ _ _ _ _ Hman) as Hn.
  split; cbn [manifest_version v_current v_last_sequence v_next_file_number].
  - destruct (di_live _ _ _ _ _ _ _ _ _ Hinv) as [? ? ? _]. split; try done. apply (mi_pointers _ _ _ _ _ _ _ _ _ _ _ _ Hman).
  - pose proof (di_seq _ _ _ _ _ _ _ _ _ Hinv). lia.
  - lia.
  - split.
    + intros f Hf. destruct (di_files _ _ _ _ _ _ _ _ _ Hinv f Hf) as [Hfi Hnum]. split; [eapply file_inv_tables; [by apply Ht|done]|]. pose proof (mi_files _ _ _ _ _ _ _ _ _ _ _ _ Hman f Hf). lia.
    + apply (di_unique _ _ _ _ _ _ _ _ _ Hinv).
    + apply (di_order _ _ _ _ _ _ _ _ _ Hinv).
    + apply (du_tables _ _ _ _ _ _ _ _ _ _ _ _ Hd).
  - pose proof (di_sorted _ _ _ _ _ _ _ _ _ Hinv) as Hs. rewrite (du_hist _ _ _ _ _ _ _ _ _ _ _ _ Hd) in Hs. unfold upto, abs_write in Hs. by apply StronglySorted_app_1_r in Hs.
  - intros r Hr. by apply (du_before _ _ _ _ _ _ _ _ _ _ _ _ Hd).
  - apply (di_nodup _ _ _ _ _ _ _ _ _ Hinv).
Qed.

Notation existing_storage := (existing_storage ucmp uok uord holds o set_iter create_log create_manifest update_current db_path).
Lemma crash_existing d logs hist recs li lm g cut os names names' : db_inv d hist recs li lm → durable d logs hist recs li lm g → crash_image d logs cut os names names' →
  ∃ k, (k ≤ length (gh_groups g))%nat ∧ (∀ j (w1 : Writer F), (j ≤ length (gh_groups g))%nat → log_holds w1 (take j (gh_written g)) → (j ≤ k ↔ length (f_contents (w_dest w1)) ≤ cut)%nat) ∧
    existing_storage os total (manifest_version d g) (gh_tables g) recs (gh_first g) (log_numbers d g) ((snd <$> gh_old g) ++ [take k (gh_groups g)]) names names' ∧
    mjoin (mjoin ((snd <$> gh_old g) ++ [take k (gh_groups g)])) = logs_ops (gh_old g) ++ mjoin (take k (gh_groups g)).
Proof.
  intros Hinv Hd Hci. pose proof (λ k, old_numbers _ _ _ _ _ _ _ _ _ _ _ _ k Hd) as Hold. pose proof (manifest_version_inv _ _ _ _ _ _ _ _ Hinv Hd (ci_tables _ _ _ _ _ _ Hci)) as Hver.
  destruct Hd as [D1 D2 D3 D4 [D5 D5'] D6 D7 (w & Hw & Hh & Hdisk) D9 D10 D11 D12]. pose proof (batches_length _ _ _ _ D7) as Hbl.
  destruct (ci_open _ _ _ _ _ _ Hci _ _ Hdisk) as (fc & Hopen & Hfc & Hpc & Hcc). rewrite decide_True in Hcc by done.
  destruct (log_holds_cut w (gh_written g) fc cut Hh Hfc Hpc Hcc) as (k & Hk & Hcr & Hcut). rewrite Hbl in Hk, Hcut. exists k. split_and!; [done..| |].
  2: { rewrite !join_app. change (mjoin [take k (gh_groups g)]) with (take k (gh_groups g) ++ []). by rewrite app_nil_r. }
  assert (mjoin (mjoin ((snd <$> gh_old g) ++ [take k (gh_groups g)])) = logs_ops (gh_old g) ++ mjoin (take k (gh_groups g))) as Hj.
  { rewrite !join_app. change (mjoin [take k (gh_groups g)]) with (take k (gh_groups g) ++ []). by rewrite app_nil_r. }
  assert (len (logs_ops (gh_old g)) ≤ total) as Hold_total.
  { apply Permutation_length in D11. rewrite length_op_recs in D11. unfold len. rewrite D11. pose proof (di_im _ _ _ _ _ _ _ _ _ Hinv) as Him. destruct (db_im_mem d) as [m|] eqn:E; [|simpl in Him; subst li; simpl; lia].
    destruct Him as [Hm _]. destruct (ci_records _ _ _ _ _ _ Hci m ltac:(by right)) as (n & Hn & Hle). rewrite (mem_len_rep uok uord _ _ Hm) in Hn. injection Hn as <-. done. }
  assert (len (mjoin (gh_groups g)) ≤ total) as Hcur_total.
  { apply Permutation_length in D12. rewrite length_op_recs in D12. unfold len. rewrite D12. destruct (ci_records _ _ _ _ _ _ Hci (db_mem d) ltac:(by left)) as (n & Hn & Hle).
    rewrite (mem_len_rep uok uord _ _ (di_mem _ _ _ _ _ _ _ _ _ Hinv)) in Hn. injection Hn as <-. done. }
  assert (len (mjoin (take k (gh_groups g))) ≤ len (mjoin (gh_groups g))) as Hle.
  { rewrite <- (take_drop k (gh_groups g)) at 2. rewrite join_app, len_app. pose proof (len_nonneg (mjoin (drop k (gh_groups g)))). lia. }
  assert (∀ n, n ∈ log_numbers d g → n ∈ dom logs) as Hdom.
  { intros n [Hn|Hn%list_elem_of_singleton]%elem_of_app; [by eapply logs_on_dom|]. subst n. apply elem_of_dom. eauto. }
  pose proof (mi_next _ _ _ _ _ _ _ _ _ _ _ _ D1) as Mn. pose proof (mi_log _ _ _ _ _ _ _ _ _ _ _ _ D1) as Ml. pose proof (di_seq _ _ _ _ _ _ _ _ _ Hinv) as Hseq.
  split; cbn [manifest_version v_current v_log_number v_prev_log_number v_next_file_number]; try apply Hci; try done.
  - destruct (mi_writer _ _ _ _ _ _ _ _ _ _ _ _ D1) as (wm & Hwm & Hhm). destruct (di_manifest _ _ _ _ _ _ _ _ _ Hinv) as (wm' & Hwm' & Hok). rewrite Hwm in Hwm'. injection Hwm' as <-.
    destruct (crash_manifest _ _ _ _ _ _ (gh_records g) Hci ltac:(by exists wm)) as (name & f & M1 & M2 & M3 & M4 & M5).
    exists name, f, (gh_records g), (gh_state g), (v_current (db_versions d)), (gh_known g). split_and!; try done; [apply D1| |apply Hver|apply D1].
    destruct (mi_last _ _ _ _ _ _ _ _ _ _ _ _ D1) as [Hls _]. split_and!; [done|apply Mn|done|apply Ml|apply D1].
  - unfold counters_ok. cbn [manifest_version v_log_number v_prev_log_number v_vnum v_next_file_number]. lia.
  - apply (sorted_logs _ _ _ (dom logs)); [apply Hci|done|done|]. intros n Hn. destruct (D10 n Hn) as [? ?]. split; [lia|done].
  - apply (crash_logs d logs os names names' cut); try done; [|lia]. exists fc, (take k (gh_written g)). split_and!; [done..|]. by apply batches_take.
  - intros r Hr. by apply D3.
  - rewrite Hj, len_app. unfold gh_start in D5'. lia.
  - exists (v_next_file_number (db_versions d) + 1). split_and!; [lia| |].
    + apply Forall_forall. intros n Hn%Hdom. destruct (D10 n Hn) as [? _]. lia.
    + pose proof (ci_numbers _ _ _ _ _ _ Hci) as Hbig. assert (len (log_numbers d g) ≤ len names) as Hln.
      { etransitivity; [|apply listed_length]. unfold len. rewrite (Permutation_length (ci_logs _ _ _ _ _ _ Hci)). apply inj_le, submseteq_length, NoDup_submseteq; [by apply lt_sorted_nodup|intros n Hn%Hdom; by apply elem_of_elements]. }
      pose proof (Z.mul_le_mono_nonneg_l _ _ total ltac:(lia) Hln). lia.
  - intros n. destruct (Hlog n) as (f & ? & ? & _). by exists f.
  - destruct (Hmanifest (gh_next g)) as (f & ? & ? & _). by exists f.
Qed.

(** ** Opening again *)
Notation open_db := (open_db ck node_base ucmp o oo set_iter create_log create_manifest remove_manifest update_current remove_table remove_file score_high error_text db_path).

(** The world of a database that was just opened with a history; [kept] are the logs that
    are still in the directory. *)
Definition opened (hist : list mrec) (d : DB) (kept : gmap Z bytes) : World := mkWorld hist d (log_image d kept) [(log_size d, hist)].

Lemma opened_good v e d hist recs kept : db_inv d hist recs [] [] → opening v e d → Forall pointer_small (v_compaction_pointer v) → (∀ k, k ∈ dom kept → 0 < k < v_log_number v) → good (opened hist d kept).
Proof.
  intros Hinv Hop Hp Hk. destruct (opening_durable v e d hist recs kept Hinv Hop Hp Hk) as (g & Hd & Ew & Eg & Eu). exists recs, [], [], g. split_and!; [done..|]. split; [by rewrite Eg|].
  intros [|j] n h Hj; [|done]. injection Hj as <- <-. split; [done|]. destruct (du_writer _ _ _ _ _ _ _ _ _ _ _ _ Hd) as (w & Hw & Hh & _). exists w. rewrite Ew in Hh |- *. split; [done|].
  unfold log_size. by rewrite Hw.
Qed.

Lemma upto_suffix g j k : (j ≤ k)%nat → upto g j `suffix_of` upto g k.
Proof.
  intros Hjk. rewrite (upto_split g j), (upto_split g k). replace k with (j + (k - j))%nat by lia. rewrite <- (take_take_drop (gh_groups g) j (k - j)). rewrite join_app, abs_write_app.
  unfold abs_write at 2. by eexists.
Qed.

Lemma crash_survives w g cut k : (k ≤ length (gh_groups g))%nat → wd_hist w = upto g (length (gh_groups g)) → marks_ok g (wd_marks w) →
  (∀ j (w1 : Writer F), (j ≤ length (gh_groups g))%nat → log_holds w1 (take j (gh_written g)) → (j ≤ k ↔ length (f_contents (w_dest w1)) ≤ cut)%nat) →
  surviving (wd_marks w) cut = upto g k ∧ surviving (wd_marks w) cut `suffix_of` wd_hist w ∧ ∀ n h, (n, h) ∈ wd_marks w → (n ≤ cut)%nat → h `suffix_of` surviving (wd_marks w) cut.
Proof.
  intros Hk Hh [Hlen Hm] Hcut.
  assert (∀ j x, wd_marks w !! j = Some x → (x.1 ≤ cut)%nat ↔ (j ≤ k)%nat) as Hmk.
  { intros j [n h] Hj. pose proof (lookup_lt_Some _ _ _ Hj) as Hlt. destruct (Hm j n h Hj) as [_ (w1 & Hw1 & <-)]. symmetry. apply Hcut; [lia|done]. }
  destruct (lookup_lt_is_Some_2 (wd_marks w) k) as [[n h] Hx]; [lia|]. destruct (Hm k n h Hx) as [Hu _]. pose proof (surviving_at _ cut k n h Hmk Hx) as Hs. rewrite Hs, Hu, Hh.
  split_and!; [done|by apply upto_suffix|]. intros n' h' [j Hj]%list_elem_of_lookup_1 Hn. destruct (Hm j n' h' Hj) as [Hh' _]. rewrite Hh'. apply upto_suffix. by apply (Hmk j (n', h')).
Qed.

Lemma crash_good w cut os names names' : good w → crash_image (wd_db w) (wd_logs w) cut os names names' →
  let hist := surviving (wd_marks w) cut in
  hist `suffix_of` wd_hist w ∧ (∀ n h, (n, h) ∈ wd_marks w → (n ≤ cut)%nat → h `suffix_of` hist) ∧ ((log_size (wd_db w) ≤ cut)%nat → hist = wd_hist w) ∧
  ∃ m, ∀ n fuel heights, (m ≤ n)%nat → (m ≤ fuel)%nat → Forall (Forall heights_ok) heights →
  ∃ d, open_db os n fuel heights = Ok d ∧ db_is_shutting_down d = false ∧ ∀ kept, kept ⊆ wd_logs w → good (opened hist d kept).
Proof.
  intros (recs & li & lm & g & Hinv & Hd & Hm) Hci hist. destruct (crash_existing _ _ _ _ _ _ _ _ _ _ _ Hinv Hd Hci) as (k & Hk & Hcut & Hes & Hj).
  destruct (crash_survives w g cut k Hk (du_hist _ _ _ _ _ _ _ _ _ _ _ _ Hd) Hm Hcut) as (Hs & Hsuf & Hmarks). split_and!; [done..| |].
  { intros Hle. unfold hist. rewrite Hs, (du_hist _ _ _ _ _ _ _ _ _ _ _ _ Hd). destruct (du_writer _ _ _ _ _ _ _ _ _ _ _ _ Hd) as (x & Hx & Hh & _). unfold log_size in Hle. rewrite Hx in Hle.
    pose proof (batches_length _ _ _ _ (du_current _ _ _ _ _ _ _ _ _ _ _ _ Hd)) as Hbl. f_equal.
    assert (length (gh_groups g) ≤ k)%nat; [|lia]. apply (Hcut _ x); [done| |done]. rewrite take_ge; [done|lia]. }
  destruct (open_existing ck node_base Hbase ucmp uok uord holds sink_sized o oo set_iter Hset create_log create_manifest remove_manifest update_current remove_table remove_file score_high error_text db_path os
    Ho Hre Hex total Hroom Htotal _ _ _ _ _ _ _ _ Hes) as (m & Hopen). exists m. intros n fuel heights Hn Hfuel Hhs.
  destruct (Hopen n fuel heights Hn Hfuel Hhs) as (d & recs' & Hrun & Hinv' & Hsh & _ & v' & e & Hop & Hptr & Hnext & Hlogs). exists d. split_and!; [done..|]. intros kept Hkept.
  assert (abs_write (gh_tables g) (gh_first g - 1) (mjoin (mjoin ((snd <$> gh_old g) ++ [take k (gh_groups g)]))) = hist) as Heq by (unfold hist; rewrite Hs, Hj; done). rewrite Heq in Hinv'.
  pose proof (du_manifest _ _ _ _ _ _ _ _ _ _ _ _ Hd) as Hman. apply (opened_good v' e d hist recs'); try done.
  - rewrite Hptr. apply (mi_pointers _ _ _ _ _ _ _ _ _ _ _ _ Hman).
  - intros x Hx. assert (x ∈ dom (wd_logs w)) as Hxd by (apply elem_of_dom in Hx as [c Hc]; apply elem_of_dom; exists c; by eapply lookup_weaken).
    destruct (du_needed _ _ _ _ _ _ _ _ _ _ _ _ Hd x Hxd) as [Hpos Hiff]. split; [lia|]. destruct (Z.le_gt_cases (gh_log g) x) as [Hge|Hlt].
    + rewrite Forall_forall in Hlogs. apply Hlogs, Hiff, Hge.
    + pose proof (mi_log _ _ _ _ _ _ _ _ _ _ _ _ Hman). cbn [manifest_version v_next_file_number] in Hnext. lia.
Qed.

(** A database answers as its history. *)
Definition serves (w : World) : Prop := db_is_shutting_down (wd_db w) = false →
  ∀ snapshot u, uok u → len u + 8 < 2 ^ 32 → seq_ok (default (v_last_sequence (db_versions (wd_db w))) snapshot) →
  ∃ d', db_get ucmp score_high snapshot u (wd_db w) = (Ok (abs_get uord (wd_hist w) u (default (v_last_sequence (db_versions (wd_db w))) snapshot)), d').
(** What becomes of a database in [crashes] crashes, at whatever moments they happen. *)
Fixpoint endures (crashes : nat) (w : World) : Prop :=
  ∀ w', rtc run w w' → serves w' ∧
    match crashes with
    | O => True
    | S crashes => ∀ cut os names names', crash_image (wd_db w') (wd_logs w') cut os names names' →
      let hist := surviving (wd_marks w') cut in
      hist `suffix_of` wd_hist w' ∧ (∀ n h, (n, h) ∈ wd_marks w' → (n ≤ cut)%nat → h `suffix_of` hist) ∧ ((log_size (wd_db w') ≤ cut)%nat → hist = wd_hist w') ∧
      ∃ m, ∀ n fuel heights, (m ≤ n)%nat → (m ≤ fuel)%nat → Forall (Forall heights_ok) heights →
      ∃ d, open_db os n fuel heights = Ok d ∧ db_is_shutting_down d = false ∧ ∀ kept, kept ⊆ wd_logs w' → endures crashes (opened hist d kept)
    end.
Lemma good_serves w : good w → serves w.
Proof.
  intros (recs & li & lm & g & Hinv & _ & _) Hsh snapshot u Hu Hl Hs. destruct (db_get_ok ucmp uok uord holds o score_high _ _ recs li lm snapshot u Hinv Hsh Hu Hl Hs) as (d' & Hg & _). by exists d'.
Qed.
Lemma good_endures crashes w : good w → endures crashes w.
Proof.
  revert w. induction crashes as [|crashes IH]; intros w Hw w' Hrun; assert (good w') as Hw' by (induction Hrun as [|x y z Hxy _ IHr]; [done|apply IHr; by eapply run_good]); (split; [by apply good_serves|]); [done|].
  intros cut os names names' Hci hist. destruct (crash_good w' cut os names names' Hw' Hci) as (H1 & H2 & H3 & m & Hopen). split_and!; [done..|]. exists m. intros n fuel heights Hn Hf Hhs.
  destruct (Hopen n fuel heights Hn Hf Hhs) as (d & Hd & Hsh & Hgood). exists d. split_and!; [done..|]. intros kept Hk. by apply IH, Hgood.
Qed.

(** A new database, as it is opened for the first time. *)
Lemma fresh_good os (f1 f2 fl : F) names names' : new_storage create_log create_manifest update_current os f1 f2 fl names names' → oo_create_if_missing oo = true →
  ∃ m, ∀ n fuel heights, (2 ≤ n)%nat → (m ≤ fuel)%nat → ∃ d, open_db os n fuel heights = Ok d ∧ db_is_shutting_down d = false ∧ good (opened [] d ∅).
Proof.
  intros Hns Hcm. destruct (open_fresh ck node_base Hbase ucmp uok uord o oo set_iter Hset create_log create_manifest remove_manifest update_current remove_table remove_file score_high error_text db_path os Ho Hname
    f1 f2 fl names names' Hns Hcm Hre) as (m & Hopen). exists m. intros n fuel heights Hn Hf. destruct (Hopen n fuel heights Hn Hf) as (d & Hrun & Hfresh & _ & _ & _ & Hsh & Hw & Hlog'). exists d. split_and!; [done..|].
  apply (opened_good (mkVset 4 0 3 0 2 None 1 (replicate (o_max_levels o) []) (replicate (o_max_levels o) ikey_default)) (log_edit3 o) d [] (λ _, []));
    [by apply fresh_inv| |cbn [v_compaction_pointer]; by apply Forall_replicate|intros k Hk; by rewrite dom_empty in Hk].
  assert (∀ f, ¬ in_levels (replicate (o_max_levels o) []) f) as Hno by (intros f (fs & Hfs & Hf'); apply elem_of_replicate in Hfs as [-> _]; by apply elem_of_nil in Hf').
  split; cbn [v_manifest_writer v_current v_log_number v_next_file_number v_last_sequence v_vnum v_prev_log_number v_manifest_file_number]; try done; try lia.
  - split; cbn; [apply same_files_refl|apply no_files_ok|by rewrite length_replicate|by rewrite length_replicate].
  - by apply (log_edit3_ok node_base).
  - intros f y Hf'. by destruct (Hno f).
  - intros i fs [-> _]%lookup_replicate. by split; [constructor|].
  - destruct (ns_log _ _ _ _ _ _ _ _ _ Hns) as [Hc Hok]. by exists fl.
  - destruct (ns_manifest2 _ _ _ _ _ _ _ _ _ Hns) as [Hc Hok]. by exists f2.
Qed.

End Crash.

(** *** Witness, and a crash between two groups *)
Import IeeeCrc.
#[local] Existing Instance DemoSink.
#[local] Existing Instance DemoSource.
#[local] Instance demo_file : File InmemFile := InmemFile_File true.
#[local] Instance demo_file_laws : FileLaws InmemFile := InmemFile_laws true.

Lemma demo_created k : ∃ f : InmemFile, (λ _ : Z, Ok inmem_default) k = Ok f ∧ f_ok f ∧ f_contents f = [].
Proof. by exists inmem_default. Qed.

(** Two groups are committed, and the log is cut within the second. *)
Definition demo_first : DB InmemFile (list entry) := match demo_open 1000 with Ok d => d | _ => demo_db0 end.
Definition demo_commit (ops : list batch_op) (d : DB InmemFile (list entry)) : DB InmemFile (list entry) :=
  match commit_group true 40 bytewise [1%nat; 2%nat] (demo_task ops) [0%nat] (write_state d) with Ok (_, s) => with_write_state d s | _ => d end.
Definition demo_second : DB InmemFile (list entry) := demo_commit [Put [1] [10]; Delete [2]] demo_first.
Definition demo_third : DB InmemFile (list entry) := demo_commit [Put [1] [30]] demo_second.
Definition demo_disk : gmap Z bytes := log_image demo_third ∅.
(** The manifest, with the first bytes of another record. *)
Definition demo_manifest_writer : Writer InmemFile := default demo_writer (v_manifest_writer (db_versions demo_third)).
Definition demo_torn_manifest : bytes := take (length (f_contents (w_dest demo_manifest_writer)) + 3) (f_contents (w_dest (add_record demo_manifest_writer [9]).2)).
Definition demo_after : OpenStorage InmemFile (list entry) :=
  mkOpenStorage (Ok tt) true (Ok (base_name FManifest 2))
    (λ name, if bool_decide (name = demo_log_name) then Ok (mkInmem false (take 50 (default [] (demo_disk !! 3))) 0) else Ok (mkInmem false demo_torn_manifest 0))
    (λ f, Ok f) (Ok [bytes_of_string "/db/000003.log"; bytes_of_string "/db/LOCK"]) (Ok []) ∅.
Definition demo_hist1 : list mrec := abs_write [] 0 [Put [1] [10]; Delete [2]].
Definition demo_marks : Marks := [(0%nat, []); (log_size demo_second, demo_hist1); (log_size demo_third, abs_write demo_hist1 2 [Put [1] [30]])].
Definition demo_again : outcome (DB InmemFile (list entry)) := open_db true 40 bytewise demo_options demo_open_options demo_set_iter (λ _, Ok inmem_default) (λ _, Ok inmem_default) (λ _, Ok tt) (λ _, Ok tt)
  (λ _, Ok tt) (λ _, Ok tt) (λ _, false) (λ _, "") demo_path demo_after 1000 1000 [].
Example demo_after_crash : surviving demo_marks 50 = demo_hist1 ∧ (d ← demo_again; (db_get bytewise (λ _, false) None [1] d).1) = Ok (Some [10]).
Proof. split; vm_compute; reflexivity. Qed.
Lemma demo_crash_image : crash_image demo_path 3 demo_third demo_disk 50 demo_after [bytes_of_string "/db/000003.log"; bytes_of_string "/db/LOCK"] [].
Proof.
  assert (v_current (db_versions demo_third) = [[]; []; []]) as Hc by (vm_compute; reflexivity).
  assert (∀ f, ¬ in_levels (v_current (db_versions demo_third)) f) as Hno by (rewrite Hc; intros f (fs & Hfs & Hf); rewrite !elem_of_cons, elem_of_nil in Hfs; destruct Hfs as [->|[->|[->|[]]]]; by apply elem_of_nil in Hf).
  assert (demo_disk = {[3 := default [] (demo_disk !! 3)]}) as Hd by (vm_compute; reflexivity).
  assert (v_manifest_writer (db_versions demo_third) = Some demo_manifest_writer) as Hw by (vm_compute; reflexivity).
  assert ((add_record demo_manifest_writer [9]).1 = Ok tt) as Hadd by (vm_compute; reflexivity).
  split.
  - reflexivity.
  - reflexivity.
  - exists (base_name FManifest 2), (mkInmem false demo_torn_manifest 0), demo_manifest_writer, [9], (add_record demo_manifest_writer [9]).2, (length (f_contents (w_dest demo_manifest_writer)) + 3)%nat.
    split; [reflexivity|]. split; [vm_compute; reflexivity|]. split; [vm_compute; discriminate|]. split; [vm_compute; reflexivity|]. split; [done|]. split; [done|]. split; [exact Hw|].
    split; [rewrite <- Hadd; apply surjective_pairing|]. split; [|reflexivity]. split; [lia|]. apply Nat.ltb_lt. vm_compute. reflexivity.
  - intros f Hf. by destruct (Hno f).
  - rewrite Hc. intros [|[|[|i]]] fs Hfs; try discriminate Hfs; injection Hfs as <-; (split; [constructor|reflexivity]).
  - reflexivity.
  - intros f Hf. by destruct (Hno f).
  - rewrite Hd, dom_singleton_L, elements_singleton. vm_compute. reflexivity.
  - intros k c Hk. rewrite Hd in Hk. apply lookup_singleton_Some in Hk as [<- <-]. eexists. split; [vm_compute; reflexivity|]. split; [done|]. split; [done|]. vm_compute. reflexivity.
  - intros m [->|Hm]; [|vm_compute in Hm; discriminate]. exists 3%nat. split; [vm_compute; reflexivity|lia].
  - vm_compute. reflexivity.
  - reflexivity.
Qed.

(** *** A log that is forgotten too early

    [make_room_for_write] gives the version set the number of the new log when it rotates
    the memtable.  The compaction thread reads its input without the lock of the version
    set, so it may log its edit after such a rotation and before the flush: the manifest
    then says that the old log is not needed, [delete_obsolete_files] removes it, and a
    crash loses the records of the immutable memtable, which were complete in the log. *)
Definition demo_rotated : DB InmemFile (list entry) := match switch_memtable true 40 demo_options (λ _, Ok inmem_default) (λ _, false) demo_second with Ok d => d | _ => demo_second end.
Definition demo_installed : DB InmemFile (list entry) :=
  (install_edit true bytewise demo_options demo_set_iter (λ _, Ok inmem_default) (λ _, Ok tt) (λ _, Ok tt) (ve_new 3) demo_rotated).2.
Definition demo_complete : OpenStorage InmemFile (list entry) :=
  mkOpenStorage (Ok tt) true (Ok (base_name FManifest 2))
    (λ name, if bool_decide (name = demo_log_name) then Ok (mkInmem false (default [] (log_image demo_second ∅ !! 3)) 0)
             else if bool_decide (name = generate_filename demo_path FLog 4) then Ok (mkInmem false [] 0)
             else Ok (mkInmem false (f_contents (w_dest (default demo_writer (v_manifest_writer (db_versions demo_installed))))) 0))
    (λ f, Ok f) (Ok [bytes_of_string "/db/000003.log"; bytes_of_string "/db/000004.log"]) (Ok []) ∅.
Example early_log_number : let get d := (db_get bytewise (λ _, false) None [1] d).1 in
  (get demo_rotated = Ok (Some [10]) ∧ get demo_installed = Ok (Some [10])) ∧ keep_file (db_versions demo_installed) ∅ FLog 3 = false ∧
  (d ← open_db true 40 bytewise demo_options demo_open_options demo_set_iter (λ _, Ok inmem_default) (λ _, Ok inmem_default) (λ _, Ok tt) (λ _, Ok tt)
         (λ _, Ok tt) (λ _, Ok tt) (λ _, false) (λ _, "") demo_path demo_complete 1000 1000 []; get d) = Ok None.
Proof. cbv zeta. split; [split|split]; vm_compute; reflexivity. Qed.
