(* ===== verification/Lifecycle.v ===== *)
(** * The life of a database and of its versions

    The list of versions of [src/version/version_set.rs] with the readers that hold them,
    closing and destroying a database and forcing a compaction ([src/db/mod.rs]), the
    sampling loop of [src/db/iterator.rs], and the byte counts of [src/compaction.rs]. *)
From stdpp Require Import gmap sorting.
From S2P Require Import Prelude Coding Varint Comparator Format Storage Record Iterator SkipList SkipListFacts MemTable Batch VersionEdit Version VersionGet VersionBuild DbIter Snapshot Compaction CompactPick Flush DbWrite Recovery Manifest Filename Db Sampling Background DbFacts.
Open Scope Z_scope.

(** ** The versions in use *)
Section Versions.
Context (ck : bool).

(** The files of a version and the strong count of its [Arc]. *)
Definition VersionRef : Type := list (list FileMetaData) * nat.

Definition current (versions : list VersionRef) : outcome (list (list FileMetaData)) := match last versions with Some v => Ok v.1 | None => Panic end.
Fixpoint retain (i last : Z) (versions : list VersionRef) : list VersionRef :=
  match versions with
  | [] => []
  | v :: versions => if (i =? last) || (1 <? v.2)%nat then v :: retain (i + 1) last versions else retain (i + 1) last versions
  end.
Definition vset_gc (versions : list VersionRef) : outcome (list VersionRef) := last ← usub ck 64 (len versions) 1; Ok (retain 0 last versions).
Definition append_new_version (v : list (list FileMetaData)) (versions : list VersionRef) : outcome (list VersionRef) := vset_gc (versions ++ [(v, 1%nat)]).

Definition live_files (versions : list VersionRef) : gset Z := foldl (λ set v, foldl (λ set files, foldl (λ set f, {[fm_number f]} ∪ set) set files) set v.1) ∅ versions.
Definition lock_live_files (versions : list VersionRef) (pending : gset Z) : gset Z :=
  foldl (λ set v, foldl (λ set files, foldl (λ set f, {[fm_number f]} ∪ set) set files) set v.1) pending versions.
Definition level_files_count (max_levels : nat) (versions : list VersionRef) (level : nat) : outcome nat :=
  _ ← rust_assert (level <? max_levels)%nat;
  files ← current versions;
  Ok (match files !! level with Some fs => length fs | None => 0%nat end).

(** The versions that someone else holds, and the last one, stay. *)
Lemma retain_last i versions v : retain i (i + len versions) (versions ++ [v]) = filter (λ v : VersionRef, (1 < v.2)%nat) versions ++ [v].
Proof.
  revert i. induction versions as [|x versions IH]; intros i; cbn [app retain].
  { rewrite len_nil, Z.add_0_r, Z.eqb_refl. done. }
  rewrite len_cons. pose proof (len_nonneg versions). rewrite (proj2 (Z.eqb_neq _ _)) by lia. cbn [orb]. replace (i + (1 + len versions)) with (i + 1 + len versions) by lia. rewrite IH, filter_cons.
  destruct (Nat.ltb_spec 1 x.2); [rewrite decide_True by done|rewrite decide_False by lia]; done.
Qed.
(** A new version becomes the current one; the older ones stay exactly as long as a reader
    holds them. *)
Lemma append_exact v versions : len versions + 1 < 2 ^ 64 → ∃ kept, append_new_version v versions = Ok kept ∧ kept = filter (λ v : VersionRef, (1 < v.2)%nat) versions ++ [(v, 1%nat)] ∧ current kept = Ok v.
Proof.
  intros Hlen. pose proof (len_nonneg versions). unfold append_new_version, vset_gc. rewrite len_app. change (len [(v, 1%nat)]) with 1. unfold usub. rewrite (proj2 (Z.leb_le _ _)), Ok_bind by lia.
  eexists. split; [done|]. replace (len versions + 1 - 1) with (0 + len versions) by lia. rewrite retain_last. split; [done|]. unfold current. by rewrite last_snoc.
Qed.

Lemma locked_number versions pending n : n ∈ lock_live_files versions pending ↔ n ∈ pending ∨ ∃ v f, v ∈ versions ∧ in_levels v.1 f ∧ fm_number f = n.
Proof.
  assert (∀ files set, n ∈ foldl (λ set f, {[fm_number f]} ∪ set) set files ↔ n ∈ (set : gset Z) ∨ ∃ f, f ∈ files ∧ fm_number f = n) as H1.
  { induction files as [|f files IH]; intros set; cbn [foldl]; [|rewrite IH; set_unfold; naive_solver]. split; [by left|intros [?|(f & Hf & _)]; [done|by apply elem_of_nil in Hf]]. }
  assert (∀ levels set, n ∈ foldl (λ set files, foldl (λ set f, {[fm_number f]} ∪ set) set files) set levels ↔ n ∈ (set : gset Z) ∨ ∃ f, in_levels levels f ∧ fm_number f = n) as H2.
  { unfold in_levels. induction levels as [|fs levels IH]; intros set; cbn [foldl]; [|rewrite IH, H1; setoid_rewrite elem_of_cons; naive_solver].
    split; [by left|intros [?|(f & (fs & Hf & _) & _)]; [done|by apply elem_of_nil in Hf]]. }
  unfold lock_live_files. revert pending. induction versions as [|v versions IH]; intros pending; cbn [foldl]; [|rewrite IH, H2; setoid_rewrite elem_of_cons; naive_solver].
  split; [by left|intros [?|(v & f & Hv & _)]; [done|by apply elem_of_nil in Hv]].
Qed.
(** What [delete_obsolete_files] keeps: the numbers of the current version and of the
    older ones in the list. *)
Lemma live_files_numbers old v : live_files (old ++ [v]) = live_numbers (v.1 :: (fst <$> old)).
Proof.
  apply set_eq. intros n. change (live_files (old ++ [v])) with (lock_live_files (old ++ [v]) ∅). rewrite (locked_number (old ++ [v]) ∅ n), elem_of_empty. unfold live_numbers. rewrite elem_of_list_to_set.
  setoid_rewrite list_elem_of_fmap. unfold in_levels. split.
  - intros [[]|(x & f & Hx & (fs & Hfs & Hf) & <-)]. exists f. split; [done|]. apply list_elem_of_join. exists fs. split; [done|]. apply list_elem_of_join. exists x.1. split; [done|].
    apply elem_of_app in Hx as [Hx|Hx%list_elem_of_singleton]; [right; by apply list_elem_of_fmap_2|subst x; by left].
  - intros (f & -> & (fs & Hf & (ls & Hfs & Hls)%list_elem_of_join)%list_elem_of_join). right. apply elem_of_cons in Hls as [->|(x & -> & Hx)%list_elem_of_fmap].
    + exists v, f. split; [apply elem_of_app; right; by left|]. split; [by exists fs|done].
    + exists x, f. split; [apply elem_of_app; by left|]. split; [by exists fs|done].
Qed.
End Versions.

(** ** Reads that an iterator samples *)
Section ReadSampling.
Context {F B I : Type} {IT : Iterator I} (ck : bool) (ucmp : Comparator) (score_high : list (list FileMetaData) → bool) (read_bytes_period : Z).
Notation DB := (DB F B).

(** [draw] is what the random number generator answers; it panics on an empty range. *)
Definition random_compaction_period (draw : Z) : outcome Z :=
  high ← umul ck 2 read_bytes_period;
  _ ← rust_assert (0 <? high);
  Ok draw.

(** The [while] loop of [DBIterator::parse_key]; [left_] is [bytes_util_read_sampling]. *)
Fixpoint sample_loop (draws : list Z) (left_ bytes_read : Z) (k : bytes) (d : DB) : outcome (Z * DB) :=
  if left_ <? bytes_read then
    match draws with
    | [] => OutOfFuel
    | draw :: draws =>
      period ← random_compaction_period draw;
      left_ ← uadd ck 64 left_ period;
      d ← record_read_sample ucmp score_high k d;
      sample_loop draws left_ bytes_read k d
    end
  else Ok (left_, d).
Definition parse_key_sampled (draws : list Z) (it : DBIterator I) (left_ : Z) (d : DB) : outcome (InternalKey * Z * DB) :=
  k ← it_key (di_inner it);
  value ← it_value (di_inner it);
  let bytes_read := len k + len value in
  r ← sample_loop draws left_ bytes_read k d;
  left_ ← usub ck 64 r.1 bytes_read;
  Ok (ikey_decoded_from k, left_, r.2).

Context (uok : bytes → Prop) (uord : bytes → bytes → comparison) {CO : ComparatorOrder ucmp uok uord}.
(** The comparator also answers on byte strings that are not keys, as the bytewise one does. *)
Context (Htotal : ∀ a b, ∃ c, @compare ucmp a b = Ok c).

Lemma targets_total u fs : Forall (file_ok uok uord) fs → ∃ ts, level0_targets ucmp u fs = Ok ts.
Proof.
  induction 1 as [|f fs Hf _ [ts IH]]; [by exists []|]. cbn [level0_targets]. destruct Hf as [[Hs _] [Hl _] _ _].
  destruct (fm_smallest f) as [s] eqn:Es, (fm_largest f) as [l] eqn:El. rewrite !ikey_user_key_eq, Ok_bind by done. destruct (Htotal u (ukey s)) as [c ->], (Htotal u (ukey l)) as [c' Hc']. rewrite !Ok_bind, Hc', IH.
  destruct (bool_decide _); rewrite !Ok_bind; by eexists.
Qed.
Lemma visit_total {T} (func : nat → FileMetaData → T → bool * T) level levels u k s :
  (∀ i fs, levels !! i = Some fs → Forall (file_ok uok uord) fs ∧ ((level + i)%nat ≠ 0%nat → disjoint_files uord fs)) → ikey_ok uok k →
  ∃ s', for_each_overlapping ucmp func level levels u k s = Ok s'.
Proof.
  intros Hls Hk. revert level s Hls. induction levels as [|fs levels IH]; intros level s Hls; [by exists s|]. cbn [for_each_overlapping].
  destruct (Hls 0%nat fs eq_refl) as [Hf Hd]. rewrite Nat.add_0_r in Hd.
  assert (∃ r, visit_level ucmp func level fs u k s = Ok r) as [[[] s'] ->].
  { unfold visit_level. destruct level as [|level]; [destruct (targets_total u fs Hf) as [ts ->]; rewrite Ok_bind; by eexists|]. destruct fs as [|f fs]; [by eexists|].
    destruct (find_file_ok ucmp uok uord (f :: fs) k Hf (Hd ltac:(done)) Hk) as (i & -> & _). rewrite Ok_bind. destruct (_ !! i) as [t|]; [|by eexists].
    destruct (Htotal u (ik_data (fm_smallest t))) as [c ->]. rewrite Ok_bind. by eexists. }
  - rewrite Ok_bind. apply IH. intros i gs Hi. replace (S level + i)%nat with (level + S i)%nat by lia. by apply (Hls (S i)).
  - rewrite Ok_bind. by eexists.
Qed.
(** A sample is taken without a panic. *)
Lemma sample_total k (d : DB) : levels_ok uok uord (v_current (db_versions d)) → ikey_ok uok k → ∃ d', record_read_sample ucmp score_high k d = Ok d'.
Proof.
  intros [Hf Hd] Hk. unfold record_read_sample, sampled. destruct (decode_from k) as [pkey|]; [|rewrite Ok_bind; by eexists].
  destruct (visit_total sample 0 (v_current (db_versions d)) (pk_user_key pkey) k (0%nat, None)) as [s' ->]; [|done|].
  { intros i fs Hi. split; [by eapply Hf|]. intros Hne. by eapply Hd. }
  rewrite !Ok_bind. destruct (update_stats d _). by eexists.
Qed.

(** The loop ends when the draws add up to the bytes that were read. *)
Lemma sample_loop_ends (P : DB → Prop) draws left_ bytes_read k d : (∀ d, P d → ∃ d', record_read_sample ucmp score_high k d = Ok d' ∧ P d') →
  0 < read_bytes_period → bytes_read + 2 * read_bytes_period < 2 ^ 64 → Forall (λ draw, 0 ≤ draw < 2 * read_bytes_period) draws → 0 ≤ bytes_read →
  bytes_read ≤ left_ + foldr Z.add 0 draws → P d → ∃ left' d', sample_loop draws left_ bytes_read k d = Ok (left', d') ∧ bytes_read ≤ left' ∧ P d'.
Proof.
  intros Hstep Hp Hmax Hdraws Hb. revert left_ d. induction Hdraws as [|draw draws Hdraw _ IH]; intros left_ d Hsum Hd; cbn [sample_loop foldr] in *.
  { rewrite (proj2 (Z.ltb_ge _ _)) by lia. exists left_, d. split_and!; [done|lia|done]. }
  destruct (Z.ltb_spec left_ bytes_read); [|exists left_, d; split_and!; [done|lia|done]].
  unfold random_compaction_period, umul. rewrite (proj2 (Z.ltb_lt _ _)), Ok_bind by lia. rewrite (proj2 (Z.ltb_lt _ _)) by lia. cbn [rust_assert]. rewrite !Ok_bind, uadd_small, Ok_bind by lia.
  destruct (Hstep d Hd) as (d' & -> & Hd'). rewrite Ok_bind. apply IH; [lia|done].
Qed.

(** Sampling does not change the key that is parsed. *)
Lemma parse_key_agrees draws it left_ d ikey left' d' : parse_key_sampled draws it left_ d = Ok (ikey, left', d') → parse_key it = Ok ikey.
Proof.
  unfold parse_key_sampled, parse_key. destruct (it_key (di_inner it)) as [k| | |]; try done. rewrite !Ok_bind. destruct (it_value (di_inner it)) as [v| | |]; try done. rewrite !Ok_bind.
  intros ([l d2] & _ & (l2 & _ & Heq)%bind_Ok)%bind_Ok. by injection Heq as <- _ _.
Qed.
End ReadSampling.

Section SampledReads.
Context `{CRC : Crc32, !Crc32Laws} `{FL : FileLaws F} {B I : Type} {IT : Iterator I} {TS : TableSink B} {TG : TableSource B} (holds : B → list entry → Prop).
Context (ck : bool) (node_base : Z) (Hbase : 0 < node_base < 2 ^ 40) (ucmp : Comparator) (uok : bytes → Prop) (uord : bytes → bytes → comparison) {CO : ComparatorOrder ucmp uok uord}.
Context (Htotal : ∀ a b, ∃ c, @compare ucmp a b = Ok c).
Context (o : DbOptions) (score_high : list (list FileMetaData) → bool) (read_bytes_period : Z).
Notation DB := (DB F B).
Notation db_inv := (db_inv uok uord holds o).

(** Parsing a key with sampling succeeds once the draws cover what was read; the key is
    the one of the inner iterator and the database still holds the same history. *)
Lemma parse_key_samples draws (it : DBIterator I) left_ (d : DB) hist recs li lm k value : db_inv d hist recs li lm →
  it_key (di_inner it) = Ok k → it_value (di_inner it) = Ok value → ikey_ok uok k →
  0 < read_bytes_period → len k + len value + 2 * read_bytes_period < 2 ^ 64 → Forall (λ draw, 0 ≤ draw < 2 * read_bytes_period) draws →
  len k + len value ≤ left_ + foldr Z.add 0 draws →
  ∃ left' d', parse_key_sampled ck ucmp score_high read_bytes_period draws it left_ d = Ok (ikey_decoded_from k, left', d') ∧ 0 ≤ left' ∧ db_inv d' hist recs li lm.
Proof.
  intros Hinv Hk Hv Hok Hp Hmax Hdraws Hsum. unfold parse_key_sampled. rewrite Hk, Hv, !Ok_bind. pose proof (len_nonneg k). pose proof (len_nonneg value).
  destruct (sample_loop_ends ck ucmp score_high read_bytes_period (λ d, db_inv d hist recs li lm) draws left_ (len k + len value) k d) as (l & d' & -> & Hl & Hd'); try done; [|lia|].
  - intros d1 Hd1. destruct (sample_total ucmp score_high uok uord Htotal k d1) as [d2 Hd2]; [apply (di_live _ _ _ _ _ _ _ _ _ Hd1)|done|]. exists d2. split; [done|].
    by eapply sample_inv.
  - rewrite Ok_bind. cbn [fst snd]. rewrite usub_small, Ok_bind by lia. exists (l - (len k + len value)), d'. split_and!; [done|lia|done].
Qed.
End SampledReads.

(** ** Closing and destroying a database *)
Section Closing.
Context `{CRC : Crc32} `{FO : File F} {B : Type} {TS : TableSink B} {TG : TableSource B} {I : Type} {IT : Iterator I}.
Context (ck : bool) (node_base : Z) (ucmp : Comparator) (o : DbOptions) (create_log : Z → outcome F) (score_high : list (list FileMetaData) → bool) (error_text : error → string).
Notation DB := (DB F B).
Notation process_round := (process_round ck node_base ucmp o create_log score_high error_text).

(** [is_shutting_down.store(true)]. *)
Definition shut_down (d : DB) : DB :=
  mkDB (db_mem d) (db_im_mem d) (db_versions d) (db_record_writer d) (db_pending_outputs d) (db_file_to_compact d) (db_bg_error d) true
    (db_compaction_scheduled d) (db_manual_queue d) (db_tables d).
(** [DBImpl::close] and its [Drop]; [db_lock] is the lock file. *)
Definition impl_close (db_lock : option F) (d : DB) : outcome unit * option F * DB :=
  let d := shut_down d in
  match db_lock with
  | Some lock => let '(r, lock) := file_unlock lock in (r, Some lock, d)
  | None => (Ok tt, None, d)
  end.
Definition impl_drop (db_lock : option F) (d : DB) : option F * DB :=
  if db_is_shutting_down d then (db_lock, d) else let '(_, lock, d) := impl_close db_lock d in (lock, d).

(** The part of a round of [process_batch] after the wait for a task: the flag is not read
    again when the thread wakes up. *)
Definition wake_round (fuel : nat) (background : list (DB → DB)) (heights : list nat) (queue : list BatchTask) (d : DB)
    : outcome (list (nat * outcome unit) * round_end * list BatchTask * DB) :=
  match queue with
  | [] => Ok ([], RoundIdle, [], d)
  | first :: queue =>
    if bt_stop_process first then Ok ([], RoundStop, queue, d)
    else
      match make_room_for_write ck node_base o create_log score_high fuel background (bt_force_mem_compaction first) d with
      | (Ok _, d) =>
        r ← group_batches ck first queue;
        let '(grouped, signals, queue) := r in
        r ← commit_group ck node_base ucmp heights grouped signals (write_state d);
        Ok (r.1, RoundNext, queue, with_write_state d r.2)
      | (Err e, d) =>
        Ok ([(bt_signal first, Err (Customized ("[process batch] Error making room for write requests: " +:+ error_text e)))], RoundNext, queue, d)
      | (Panic, _) => Panic
      | (OutOfFuel, _) => OutOfFuel
      end
  end.
Lemma wake_round_open fuel background heights queue (d : DB) : db_is_shutting_down d = false → process_round fuel background heights queue d = wake_round fuel background heights queue d.
Proof. intros Hd. unfold Db.process_round, wake_round. by rewrite Hd. Qed.

(** What the batch thread still does when the database closes.  [waiting]: it sleeps on the
    empty queue when the flag is set; otherwise it reads the flag at its next round. *)
Definition last_rounds (waiting : bool) (fuel : nat) (background : list (DB → DB)) (heights : list nat) (queue : list BatchTask) (d : DB)
    : outcome (list (nat * outcome unit) * list BatchTask * DB) :=
  if waiting then
    r ← wake_round fuel background heights queue d;
    let '(answers, how, queue, d) := r in
    match how with
    | RoundStop => Ok (answers, queue, d)
    | _ => r ← process_round fuel background heights queue d; let '(more, _, queue, d) := r in Ok (answers ++ more, queue, d)
    end
  else r ← process_round fuel background heights queue d; let '(answers, _, queue, d) := r in Ok (answers, queue, d).

(** [WickDB::close].  [late]: tasks of writers that had read the flag before it was set and
    enter the queue after the stop task; [compacting]: the turn the compaction thread is in
    when the flag is set. *)
Definition wick_close (waiting : bool) (fuel : nat) (background : list (DB → DB)) (heights : list nat) (compacting : DB → DB) (signal : nat) (late queue : list BatchTask)
    (db_lock : option F) (d : DB) : outcome (outcome unit * list (nat * outcome unit) * list BatchTask * option F * DB) :=
  if db_is_shutting_down d then Ok (Ok tt, [], queue, db_lock, d)
  else
    r ← last_rounds waiting fuel background heights (queue ++ [close_task signal] ++ late) (shut_down d);
    let '(answers, queue, d) := r in
    let '(res, lock, d) := impl_close db_lock (compacting d) in
    Ok (res, answers, queue, lock, d).
(** [WickDB::destroy]; the storage [S] removes the directory. *)
Definition wick_destroy {S : Type} (remove_dir : S → outcome unit * S) (waiting : bool) (fuel : nat) (background : list (DB → DB)) (heights : list nat) (compacting : DB → DB)
    (signal : nat) (late queue : list BatchTask) (db_lock : option F) (d : DB) (env : S) : outcome (outcome unit * list (nat * outcome unit) * S * DB) :=
  r ← wick_close waiting fuel background heights compacting signal late queue db_lock d;
  let '(res, answers, _, _, d) := r in
  match res with
  | Ok _ => let '(res, env) := remove_dir env in Ok (res, answers, env, d)
  | res => Ok (res, answers, env, d)
  end.

Notation closing := (Err (DBClosed "DB is closing. Clean up all the batch in queue")).

Lemma impl_close_flag db_lock (d : DB) : (impl_close db_lock d).2 = shut_down d.
Proof. unfold impl_close. destruct db_lock as [lock|]; [|done]. by destruct (file_unlock lock). Qed.
(** After [close] the flag is set, reads and writes are refused and no compaction is
    scheduled. *)
Lemma closed_refuses waiting fuel background heights compacting signal late queue db_lock (d d' : DB) res answers left_ lock :
  wick_close waiting fuel background heights compacting signal late queue db_lock d = Ok (res, answers, left_, lock, d') →
  db_is_shutting_down d' = true ∧ (∀ snapshot key, db_get ucmp score_high snapshot key d' = (Err (DBClosed "get request"), d')) ∧
  (∀ sync batch force sig, schedule_batch sync batch force sig d' = Ok (inl (Err (DBClosed "schedule WriteBatch")))) ∧ maybe_schedule_compaction score_high d' = (false, d').
Proof.
  unfold wick_close. intros Hrun. assert (db_is_shutting_down d' = true) as Hd'.
  { destruct (db_is_shutting_down d) eqn:Hd; [by injection Hrun as _ _ _ _ <-|]. apply bind_Ok in Hrun as ([[a q] d1] & _ & Hrun).
    pose proof (impl_close_flag db_lock (compacting d1)) as Hf. destruct (impl_close db_lock (compacting d1)) as [[r l] d2]. injection Hrun as _ _ _ _ <-. cbn [snd] in Hf. by rewrite Hf. }
  split_and!; [done|..]; intros; unfold db_get, schedule_batch, maybe_schedule_compaction; rewrite Hd'; [done|done|]. by rewrite orb_true_r.
Qed.
(** Closing twice changes nothing. *)
Lemma close_again waiting fuel background heights compacting signal late queue db_lock (d : DB) : db_is_shutting_down d = true →
  wick_close waiting fuel background heights compacting signal late queue db_lock d = Ok (Ok tt, [], queue, db_lock, d).
Proof. intros Hd. unfold wick_close. by rewrite Hd. Qed.
(** When the batch thread is between two rounds every task in the queue is answered, and
    the lock is released. *)
Lemma close_answers_all fuel background heights compacting signal late queue lock r lock' (d : DB) : db_is_shutting_down d = false → file_unlock lock = (r, lock') →
  wick_close false fuel background heights compacting signal late queue (Some lock) d =
    Ok (r, (λ t, (bt_signal t, closing)) <$> (queue ++ [close_task signal] ++ late), [], Some lock', shut_down (compacting (shut_down d))).
Proof. intros Hd Hl. unfold wick_close, last_rounds, Db.process_round, impl_close. rewrite Hd, Hl. done. Qed.
(** When it sleeps on the empty queue it wakes up to the stop task and ends; the tasks
    behind the stop task stay in the queue and are never answered. *)
Lemma close_forgets_late fuel background heights compacting signal late lock r lock' (d : DB) : db_is_shutting_down d = false → file_unlock lock = (r, lock') →
  wick_close true fuel background heights compacting signal late [] (Some lock) d = Ok (r, [], late, Some lock', shut_down (compacting (shut_down d))).
Proof. intros Hd Hl. unfold wick_close, last_rounds, impl_close. rewrite Hd, Hl. done. Qed.
End Closing.

(** ** Manual compactions *)
Section ManualCompactions.
Context `{CRC : Crc32} `{FO : File F} {B : Type} {TS : TableSink B} {TG : TableSource B}.
Context (ucmp : Comparator) (o : DbOptions) (score_high : list (list FileMetaData) → bool).
Notation DB := (DB F B).
(** The other threads: the batch thread answers a task, anything happens for a second, the
    compaction thread answers a manual request. *)
Context (served : BatchTask → DB → outcome unit * DB) (sleep : DB → DB) (answered : nat → DB → outcome unit * DB).

Definition take_bg_error (d : DB) : option error * DB := (db_bg_error d, with_error d None).
Definition has_bg_error (d : DB) : bool := bool_decide (is_Some (db_bg_error d)).

Definition force_compact_mem_table (signal : nat) (d : DB) : outcome unit * DB :=
  let '(r, d) :=
    match schedule_batch false wb_default true signal d with
    | Ok (inl r) => (r, d)
    | Ok (inr task) => served task d
    | Err e => (Err e, d)
    | Panic => (Panic, d)
    | OutOfFuel => (OutOfFuel, d)
    end in
  match r with
  | Ok _ =>
    let d := sleep d in
    if bool_decide (is_Some (db_im_mem d)) then let '(e, d) := take_bg_error d in (match e with Some e => Err e | None => Ok tt end, d)
    else (n ← mem_len (db_mem d); rust_assert (n =? 0)%nat, d)
  | r => (r, d)
  end.

(** The requests of [compact_range], one level after the other. *)
Fixpoint compact_levels (levels : list nat) (begin_ end_ : option bytes) (signal : nat) (d : DB) : outcome unit * DB :=
  match levels with
  | [] => (Ok tt, d)
  | level :: levels =>
    match manual_compact_range o score_high level begin_ end_ signal d with
    | Ok d =>
      let '(r, d) := answered signal d in
      match r with Ok _ => compact_levels levels begin_ end_ (S signal) d | r => (r, d) end
    | Err e => (Err e, d)
    | Panic => (Panic, d)
    | OutOfFuel => (OutOfFuel, d)
    end
  end.
Definition db_compact_range (begin_ end_ : option bytes) (signal : nat) (d : DB) : outcome unit * DB :=
  match levels_to_compact ucmp o begin_ end_ d with
  | Ok levels =>
    let '(r, d) := force_compact_mem_table signal d in
    match r with Ok _ => compact_levels levels begin_ end_ (S signal) d | r => (r, d) end
  | Err e => (Err e, d)
  | Panic => (Panic, d)
  | OutOfFuel => (OutOfFuel, d)
  end.

Context (uok : bytes → Prop) (uord : bytes → bytes → comparison) {CO : ComparatorOrder ucmp uok uord}.
Lemma deepest_bound n level files lo hi deepest : levels_ok uok uord files → (level + n ≤ length files)%nat → opt_ok uok lo → opt_ok uok hi → (deepest < level + n)%nat →
  ∃ m, deepest_overlap ucmp n level files lo hi deepest = Ok m ∧ (m < level + n)%nat.
Proof.
  intros Hlv Hlen Hlo Hhi. revert level deepest Hlen. induction n as [|n IH]; intros level deepest Hlen Hd; cbn [deepest_overlap]; [by exists deepest|].
  destruct (lookup_lt_is_Some_2 files level) as [fs Hfs]; [lia|]. rewrite (overlap_in_level_ok ucmp uok uord files level fs lo hi), Ok_bind by done.
  destruct (IH (S level) (if existsb (overlaps uord lo hi) fs then level else deepest)) as (m & Hm & Hlt); [lia|destruct (existsb _ _); lia|]. exists m. split; [done|lia].
Qed.
(** The levels that [compact_range] asks for pass the assertion of [manual_compact_range]. *)
Lemma levels_to_compact_valid lo hi (d : DB) : levels_ok uok uord (v_current (db_versions d)) → length (v_current (db_versions d)) = o_max_levels o → (2 ≤ o_max_levels o)%nat →
  opt_ok uok lo → opt_ok uok hi → ∃ levels, levels_to_compact ucmp o lo hi d = Ok levels ∧ Forall (λ level, (level + 1 < o_max_levels o)%nat) levels.
Proof.
  intros Hlv Hlen H2 Hlo Hhi. unfold levels_to_compact. destruct (deepest_bound (o_max_levels o - 1) 1 (v_current (db_versions d)) lo hi 1) as (m & -> & Hm); [done|lia|done|done|lia|].
  rewrite Ok_bind. eexists. split; [done|]. apply Forall_forall. intros level [_ Hl]%elem_of_seq. lia.
Qed.
(** So when the other threads answer every request [compact_range] does too, and each
    level got its request. *)
Lemma compact_levels_ok levels lo hi signal (d : DB) : (∀ n d, ∃ d', answered n d = (Ok tt, d')) → Forall (λ level, (level + 1 < o_max_levels o)%nat) levels →
  ∃ d', compact_levels levels lo hi signal d = (Ok tt, d').
Proof.
  intros Hans Hl. revert signal d. induction Hl as [|level levels Hlevel _ IH]; intros signal d; cbn [compact_levels]; [by exists d|].
  assert (∃ d1, manual_compact_range o score_high level lo hi signal d = Ok d1) as [d1 ->].
  { unfold manual_compact_range. rewrite (proj2 (Nat.ltb_lt _ _) Hlevel). cbn [rust_assert]. rewrite Ok_bind. assert (seq_ok MAX_KEY_SEQUENCE ∧ seq_ok 0) as [? ?] by (split; split; vm_compute; discriminate).
    destruct lo, hi; rewrite ?ikey_new_eq, ?Ok_bind by done; by eexists. }
  destruct (Hans signal d1) as [d2 ->]. apply IH.
Qed.
(** [compact_range] succeeds when the forced rotation is answered and the memtable is
    flushed, and still empty, a second later. *)
Lemma compact_range_ok lo hi signal (d : DB) : levels_ok uok uord (v_current (db_versions d)) → length (v_current (db_versions d)) = o_max_levels o → (2 ≤ o_max_levels o)%nat →
  opt_ok uok lo → opt_ok uok hi → db_is_shutting_down d = false → (∀ n d, ∃ d', answered n d = (Ok tt, d')) →
  (∃ d1, served (mkTask false true wb_default signal false) d = (Ok tt, d1) ∧ db_im_mem (sleep d1) = None ∧ mem_len (db_mem (sleep d1)) = Ok 0%nat) →
  ∃ d', db_compact_range lo hi signal d = (Ok tt, d').
Proof.
  intros Hlv Hlen H2 Hlo Hhi Hd Hans (d1 & Hserved & Him & Hmem). destruct (levels_to_compact_valid lo hi d) as (levels & Hl & Hvalid); [done..|].
  unfold db_compact_range, force_compact_mem_table, schedule_batch. rewrite Hl, Hd. change (wb_is_empty wb_default) with (Ok true : outcome bool). rewrite Ok_bind. cbn [andb negb].
  rewrite Hserved, Him, Hmem, Ok_bind. by apply compact_levels_ok.
Qed.
End ManualCompactions.

(** ** Byte counts and the new database *)
Section Counts.
Context (ck : bool) (ucmp : Comparator) (max_levels : nat).

(** [Compaction::bytes_read] and [Compaction::bytes_written]; the second one adds up the
    numbers of the files. *)
Definition bytes_read {B} (c : Compaction B) : outcome Z := sum_sizes ck 0 (ci_base (cp_inputs c) ++ ci_parent (cp_inputs c)).
Fixpoint sum_numbers (acc : Z) (files : list FileMetaData) : outcome Z :=
  match files with
  | [] => Ok acc
  | f :: files => acc ← uadd ck 64 acc (fm_number f); sum_numbers acc files
  end.
Definition bytes_written {B} (c : Compaction B) : outcome Z := sum_numbers 0 (cp_outputs c).

(** [max_next_level_overlapping_bytes]: the files of a level, then the levels. *)
Fixpoint max_overlap_files (current : list (list FileMetaData)) (level : nat) (files : list FileMetaData) (res : Z) : outcome Z :=
  match files with
  | [] => Ok res
  | f :: files =>
    overlaps ← get_overlapping_inputs ucmp current (level + 1) (Some (fm_smallest f)) (Some (fm_largest f));
    sum ← total_file_size ck overlaps;
    max_overlap_files current level files (if res <? sum then sum else res)
  end.
Fixpoint max_overlap_levels (current : list (list FileMetaData)) (n level : nat) (res : Z) : outcome Z :=
  match n with
  | O => Ok res
  | S n => files ← index current level; res ← max_overlap_files current level files res; max_overlap_levels current n (S level) res
  end.
Definition max_next_level_overlapping_bytes (current : list (list FileMetaData)) : outcome Z := max_overlap_levels current (max_levels - 2) 1 0.

(** [DBImpl::new]. *)
Definition db_new {F B} (node_base write_buffer_size : Z) : outcome (DB F B) :=
  mem ← mem_new ck node_base write_buffer_size;
  Ok (mkDB mem None (vset_new max_levels) None ∅ None None false false [] ∅).

Context (uok : bytes → Prop) (uord : bytes → bytes → comparison) {CO : ComparatorOrder ucmp uok uord}.
(** A new database has an empty memtable. *)
Lemma db_new_empty {F B} node_base size : 0 < node_base < 2 ^ 40 → 8 * (size / 8) < 2 ^ 62 → 1 + node_base + 160 + 7 ≤ size / 8 * 8 →
  ∃ d : DB F B, db_new node_base size = Ok d ∧ mem_rep uok uord (db_mem d) [] ∧ db_im_mem d = None ∧ v_current (db_versions d) = replicate max_levels [].
Proof. intros Hbase H1 H2. destruct (mem_new_rep ck node_base Hbase uok uord size H1 H2) as (m & Hm & Hrep & _). unfold db_new. rewrite Hm, Ok_bind. eexists. split_and!; done. Qed.
Lemma bytes_read_exact {B} (c : Compaction B) : let files := ci_base (cp_inputs c) ++ ci_parent (cp_inputs c) in
  Forall (λ f, 0 ≤ fm_file_size f) files → sizes files < 2 ^ 64 → bytes_read c = Ok (sizes files).
Proof. intros files Hf Hs. unfold bytes_read. by rewrite sum_sizes_ok, Z.add_0_l by (done || lia). Qed.

(** The bytes of the files of a level that overlap a file. *)
Definition overlap_bytes (current : list (list FileMetaData)) (level : nat) (f : FileMetaData) : Z :=
  sizes (filter (λ g, overlaps uord (Some (ukey (ik_data (fm_smallest f)))) (Some (ukey (ik_data (fm_largest f)))) g = true) (default [] (current !! level))).
Lemma overlap_sum current level f : levels_ok uok uord current → sizes_ok current → (1 ≤ level)%nat → (level < length current)%nat → file_ok uok uord f →
  (overlaps ← get_overlapping_inputs ucmp current level (Some (fm_smallest f)) (Some (fm_largest f)); total_file_size ck overlaps) = Ok (overlap_bytes current level f) ∧
  0 ≤ overlap_bytes current level f.
Proof.
  intros Hlv Hsz H1 Hlen [[Hs Hsu] [Hl Hlu] _ _]. destruct (lookup_lt_is_Some_2 current level Hlen) as [fs Hfs]. unfold get_overlapping_inputs, index, overlap_bytes. rewrite Hfs.
  destruct (fm_smallest f) as [s], (fm_largest f) as [l]. cbn [ik_data default] in *. rewrite !ikey_user_key_eq, !Ok_bind by done.
  rewrite (overlapping_loop_n ucmp uok uord), Ok_bind; [|lia|by eapply lo_files|done..]. destruct (Hsz _ _ Hfs) as [Hnn Hlt].
  destruct (sizes_filter (λ g, overlaps uord (Some (ukey s)) (Some (ukey l)) g = true) fs Hnn) as [Hle Hff]. unfold total_file_size.
  rewrite sum_sizes_ok by (done || lia). rewrite Z.add_0_l. split; [done|]. by apply sizes_nonneg.
Qed.
Lemma max_files_ok current level files res : levels_ok uok uord current → sizes_ok current → (1 ≤ level + 1 < length current)%nat → Forall (file_ok uok uord) files →
  max_overlap_files current level files res = Ok (foldl Z.max res (overlap_bytes current (level + 1) <$> files)).
Proof.
  intros Hlv Hsz Hlen Hf. revert res. induction Hf as [|f files Hok _ IH]; intros res; cbn [max_overlap_files]; [done|].
  destruct (overlap_sum current (level + 1) f Hlv Hsz ltac:(lia) ltac:(lia) Hok) as [(fs & -> & Hsum)%bind_Ok _]. rewrite Ok_bind, Hsum, Ok_bind, IH. cbn [fmap list_fmap foldl]. f_equal. f_equal.
  destruct (Z.ltb_spec res (overlap_bytes current (level + 1) f)); lia.
Qed.
(** It is the largest overlap of any file of the levels from 1 to the last but one. *)
Lemma max_overlap_exact current : levels_ok uok uord current → sizes_ok current → length current = max_levels →
  max_next_level_overlapping_bytes current =
    Ok (foldl Z.max 0 (mjoin ((λ level, overlap_bytes current (level + 1) <$> default [] (current !! level)) <$> seq 1 (max_levels - 2)))).
Proof.
  intros Hlv Hsz Hlen. unfold max_next_level_overlapping_bytes. set (cost := λ level, overlap_bytes current (level + 1) <$> default [] (current !! level)).
  assert (∀ n level res, (n = 0 ∨ level + n < max_levels)%nat → max_overlap_levels current n level res = Ok (foldl Z.max res (mjoin (cost <$> seq level n)))) as Hgen; [|apply Hgen; lia].
  intros n. induction n as [|n IH]; intros level res Hn; cbn [max_overlap_levels seq]; [done|].
  destruct (lookup_lt_is_Some_2 current level) as [fs Hfs]; [lia|]. unfold index. rewrite Hfs, Ok_bind, max_files_ok, Ok_bind; [|done|done|lia|by eapply lo_files].
  rewrite IH by lia. cbn [fmap list_fmap]. change (mjoin (?x :: ?l)) with (x ++ mjoin l). rewrite foldl_app. assert (cost level = overlap_bytes current (level + 1) <$> fs) as -> by (unfold cost; by rewrite Hfs). done.
Qed.
End Counts.

Example bytes_written_numbers : bytes_written (B := unit) true (mkCompaction Manual 0 [] (ve_new 7) (mkInputs [] []) [] 0 false 0 0 [mkMeta 0 4096 7 ikey_default ikey_default] None []) = Ok 7.
Proof. reflexivity. Qed.

(** A write that arrives during the second in which [force_compact_mem_table] sleeps makes
    its assertion on the new memtable panic. *)
Import IeeeCrc.
#[local] Existing Instance DemoSink.
#[local] Existing Instance DemoSource.
Definition demo_served (task : BatchTask) (d : DB InmemFile (list entry)) : outcome unit * DB InmemFile (list entry) :=
  match process_round (FO := InmemFile_File true) true 40 bytewise demo_options (λ _, Ok inmem_default) (λ _, false) (λ _, ""%string) 5 [] [] [task] d with
  | Ok ([(_, r)], _, _, d') => (r, d')
  | _ => (OutOfFuel, d)
  end.
Definition demo_write (d : DB InmemFile (list entry)) : DB InmemFile (list entry) :=
  match commit_group (FO := InmemFile_File true) true 40 bytewise [1%nat] (demo_task [Delete [1]]) [0%nat] (write_state d) with Ok (_, s) => with_write_state d s | _ => d end.
Example compact_range_panics :
  (force_compact_mem_table demo_served (λ d, (demo_flush d).2) 7 demo_db1).1 = Ok tt ∧
  (force_compact_mem_table demo_served (λ d, (demo_flush (demo_write d)).2) 7 demo_db1).1 = Panic.
Proof. split; vm_compute; reflexivity. Qed.
