(* ===== verification/Options.v ===== *)
(** * Options and compaction scores: [src/options.rs], [Version::finalize]

    The options a database is opened with and how [initialize] brings them into range;
    the limits computed from them; and the score that decides which level a compaction
    starts from.  The scores are IEEE floating point numbers, computed with the
    specification floats of the Standard Library. *)
From Stdlib Require Import SpecFloat.
From stdpp Require Import gmap.
From S2P Require Import Prelude Coding Comparator Format Filter Block Table VersionEdit Version Lru Compaction CompactPick Storage Record Manifest Db DbFacts.
Open Scope Z_scope.

(** [Options] without the comparator and the loggers; [BC] is the type of block caches. *)
Record Options (BC : Type) : Type := mkOpts {
  op_create_if_missing : bool;
  op_error_if_exists : bool;
  op_paranoid_checks : bool;
  op_max_levels : Z;
  op_l0_compaction_threshold : Z;
  op_l0_slowdown_writes_threshold : Z;
  op_l0_stop_writes_threshold : Z;
  op_l1_max_bytes : Z;
  op_max_mem_compact_level : Z;
  op_read_bytes_period : Z;
  op_write_buffer_size : Z;
  op_max_open_files : Z;
  op_block_cache : option BC;
  op_non_table_cache_files : Z;
  op_block_size : Z;
  op_block_restart_interval : Z;
  op_max_file_size : Z;
  op_compression : CompressionType;
  op_reuse_logs : bool;
  op_filter_policy : option FilterPolicy;
}.
Arguments mkOpts {BC}. Arguments op_create_if_missing {BC}. Arguments op_error_if_exists {BC}. Arguments op_paranoid_checks {BC}.
Arguments op_max_levels {BC}. Arguments op_l0_compaction_threshold {BC}. Arguments op_l0_slowdown_writes_threshold {BC}. Arguments op_l0_stop_writes_threshold {BC}.
Arguments op_l1_max_bytes {BC}. Arguments op_max_mem_compact_level {BC}. Arguments op_read_bytes_period {BC}. Arguments op_write_buffer_size {BC}.
Arguments op_max_open_files {BC}. Arguments op_block_cache {BC}. Arguments op_non_table_cache_files {BC}. Arguments op_block_size {BC}.
Arguments op_block_restart_interval {BC}. Arguments op_max_file_size {BC}. Arguments op_compression {BC}. Arguments op_reuse_logs {BC}. Arguments op_filter_policy {BC}.

(** ** Initialising options *)
Section Options.
(** The keys and values of the block cache. *)
Context {K V : Type} `{Countable K}.
Notation BlockCache := (list (LRUCache K V)).
Notation Options := (Options BlockCache).

(** [Options::default] *)
Definition options_default : Options :=
  mkOpts true false false 7 4 8 12 (64 * 1024 * 1024) 2 1048576 (4 * 1024 * 1024) 500 None 10 (4 * 1024) 16 (2 * 1024 * 1024)
    SnappyCompression false None.

(** [clip_range]: the lower bound wins. *)
Definition clip_range (n lo hi : Z) : Z :=
  let r := if hi <? n then hi else n in
  if n <? lo then lo else r.

Definition DEFAULT_CACHE_SHARDS : nat := 8.

(** [initialize]; setting up the logger is left out. *)
Definition initialize (ck : bool) (o : Options) : outcome Options :=
  let max_mem_compact_level := if op_max_mem_compact_level o <? 2 then 2 else op_max_mem_compact_level o in
  min_open_files ← uadd ck 64 64 (op_non_table_cache_files o);
  let block_cache := match op_block_cache o with Some c => c | None => replicate DEFAULT_CACHE_SHARDS (lru_new (Z.shiftl 8 20)) end in
  let filter_policy := match op_filter_policy o with Some fp => InternalFilterPolicy fp | None => InternalFilterPolicy (bloom_policy ck (bloom_new 10)) end in
  Ok (mkOpts (op_create_if_missing o) (op_error_if_exists o) (op_paranoid_checks o) (op_max_levels o) (op_l0_compaction_threshold o)
    (op_l0_slowdown_writes_threshold o) (op_l0_stop_writes_threshold o) (op_l1_max_bytes o) max_mem_compact_level (op_read_bytes_period o)
    (clip_range (op_write_buffer_size o) (Z.shiftl 64 10) (Z.shiftl 1 30)) (clip_range (op_max_open_files o) min_open_files 50000)
    (Some block_cache) (op_non_table_cache_files o) (clip_range (op_block_size o) (Z.shiftl 1 10) (Z.shiftl 4 20)) (op_block_restart_interval o)
    (clip_range (op_max_file_size o) (Z.shiftl 1 20) (Z.shiftl 1 30)) (op_compression o) (op_reuse_logs o) (Some filter_policy)).

(** [max_bytes_for_level]: ten times more for each level below the first. *)
Fixpoint max_bytes_loop (ck : bool) (level : nat) (result : Z) : outcome Z :=
  match level with
  | S (S _ as level) => result ← umul ck result 10; max_bytes_loop ck level result
  | _ => Ok result
  end.
Definition max_bytes_for_level (ck : bool) (o : Options) (level : nat) : outcome Z := max_bytes_loop ck level (op_l1_max_bytes o).

Definition table_cache_size (ck : bool) (o : Options) : outcome Z := usub ck 64 (op_max_open_files o) (op_non_table_cache_files o).

(** The options that the operations of the database read. *)
Definition db_options (o : Options) : DbOptions :=
  mkOptions (op_write_buffer_size o) (Z.to_nat (op_max_levels o)) (Z.to_nat (op_max_mem_compact_level o)) (op_max_file_size o)
    (Z.to_nat (op_l0_slowdown_writes_threshold o)) (Z.to_nat (op_l0_stop_writes_threshold o)).

Lemma clip_range_bounds n lo hi : lo ≤ hi → lo ≤ clip_range n lo hi ≤ hi.
Proof. intros. unfold clip_range. repeat case_match; rewrite ?Z.ltb_lt, ?Z.ltb_ge in *; lia. Qed.
Lemma clip_range_id n lo hi : lo ≤ n ≤ hi → clip_range n lo hi = n.
Proof. intros. unfold clip_range. repeat case_match; rewrite ?Z.ltb_lt, ?Z.ltb_ge in *; lia. Qed.

Lemma max_bytes_ok ck level r : 0 ≤ r → r * 10 ^ Z.of_nat (pred level) < 2 ^ 64 → max_bytes_loop ck level r = Ok (r * 10 ^ Z.of_nat (pred level)).
Proof.
  revert r. induction level as [|[|level] IH]; intros r Hr Hs; cbn [max_bytes_loop]; [f_equal; simpl; lia..|].
  cbn [pred] in Hs, IH. cbn [pred]. replace (r * 10 ^ Z.of_nat (S level)) with ((r * 10) * 10 ^ Z.of_nat level) in Hs |- * by (rewrite Nat2Z.inj_succ, Z.pow_succ_r by lia; ring).
  assert (1 ≤ 10 ^ Z.of_nat level) by (apply (Z.pow_le_mono_r 10 0); lia).
  unfold umul. rewrite (proj2 (Z.ltb_lt _ _)) by nia. rewrite Ok_bind. apply IH; [lia|done].
Qed.

End Options.

(** Options that are far out of range, with more files reserved than may be open. *)
Definition wild_options : Options (list (LRUCache Z Z)) :=
  mkOpts true false false 7 4 8 12 (64 * 1024 * 1024) 0 1048576 0 0 None 1000 (2 ^ 40) 16 1 NoCompression false None.

(** Reserving more than 49936 files makes the lower bound of [max_open_files] larger than
    the upper one; a request above both is clipped to the upper bound, and the size of the
    table cache underflows. *)
Example table_cache_underflow :
  (o ← initialize true (mkOpts (BC := list (LRUCache Z Z)) true false false 7 4 8 12 1 2 1 65536 70000 None 60000 4096 16 (2 ^ 20) NoCompression false None);
   table_cache_size true o) = Panic.
Proof. vm_compute. reflexivity. Qed.

(** ** The score of a version *)

(** [n as f64], a division of [f64], a cast to [f32], and the constants. *)
Definition f64_of (n : Z) : spec_float := binary_normalize 53 1024 n 0 false.
Definition f64_div (a b : spec_float) : spec_float := SFdiv 53 1024 a b.
Definition f32_of_f64 (x : spec_float) : spec_float :=
  match x with S754_finite s m e => binary_normalize 24 128 (if s then Z.neg m else Z.pos m) e s | _ => x end.
Definition f32_one : spec_float := binary_normalize 24 128 1 0 false.

Section Score.
Context {BC : Type}.

(** The score of a level. *)
Definition level_score (ck : bool) (l0_compaction_threshold : Z) (max_bytes : nat → outcome Z) (files : list (list FileMetaData)) (level : nat)
    : outcome spec_float :=
  fs ← index files level;
  if (level =? 0)%nat then Ok (f64_div (f64_of (len fs)) (f64_of l0_compaction_threshold))
  else
    level_bytes ← total_file_size ck fs;
    limit ← max_bytes level;
    Ok (f64_div (f64_of level_bytes) (f64_of limit)).

(** The loop over the levels of [finalize]. *)
Fixpoint finalize_loop (score : nat → outcome spec_float) (n level best_level : nat) (best_score : spec_float) : outcome (nat * spec_float) :=
  match n with
  | O => Ok (best_level, best_score)
  | S n =>
    s ← score level;
    if SFltb best_score s then finalize_loop score n (S level) level s
    else finalize_loop score n (S level) best_level best_score
  end.
(** [finalize]: the level to compact, and its score. *)
Definition finalize (ck : bool) (l0_compaction_threshold : Z) (max_bytes : nat → outcome Z) (max_levels : nat) (files : list (list FileMetaData))
    : outcome (nat * spec_float) :=
  r ← finalize_loop (level_score ck l0_compaction_threshold max_bytes files) max_levels 0 0 (S754_zero false);
  Ok (r.1, f32_of_f64 r.2).

(** The tests of [needs_compaction] and of [pick_compaction]. *)
Definition score_above_one (score : spec_float) : bool := SFltb f32_one score.
Definition score_reaches_one (score : spec_float) : bool := SFleb f32_one score.
Definition size_compaction (r : nat * spec_float) : option nat := if score_reaches_one r.2 then Some r.1 else None.

(** *** The order of floats *)

Lemma SFltb_irrefl x : SFltb x x = false.
Proof.
  unfold SFltb, SFcompare. destruct x as [[]|[]| |[] m e]; try done; change (Pos.compare_cont Eq m m) with (Pos.compare m m);
    by rewrite Z.compare_refl, Pos.compare_refl.
Qed.
Lemma SFltb_trans a b c : SFltb a b = true → SFltb b c = true → SFltb a c = true.
Proof.
  unfold SFltb. destruct a as [sa|sa| |sa ma ea], b as [sb|sb| |sb mb eb], c as [sc|sc| |sc mc ec]; simpl; try done;
    try (destruct sa; done); try (destruct sb; done); try (destruct sc; done); try (destruct sa, sb; done); try (destruct sb, sc; done); try (destruct sa, sc; done).
  all: try (destruct sa, sb, sc; simpl; done).
  assert (∀ x y : Z, Z.compare x y = Lt ↔ x < y) as Hz by (intros; apply Z.compare_lt_iff).
  assert (∀ x y : Z, Z.compare x y = Gt ↔ y < x) as Hg by (intros; apply Z.compare_gt_iff).
  destruct sa, sb, sc; simpl; try done; intros H1 H2.
  all: destruct (Z.compare ea eb) eqn:E1, (Z.compare eb ec) eqn:E2; try done; destruct (Z.compare ea ec) eqn:E3; try done;
    rewrite ?Z.compare_eq_iff, ?Hz, ?Hg in *; subst; try lia.
  all: try (destruct (Pos.compare_cont Eq ma mb) eqn:M1; try done); try (destruct (Pos.compare_cont Eq mb mc) eqn:M2; try done);
    destruct (Pos.compare_cont Eq ma mc) eqn:M3; try done; change (Pos.compare_cont Eq) with Pos.compare in *;
    rewrite ?Pos.compare_eq_iff, ?Pos.compare_lt_iff, ?Pos.compare_gt_iff in *; subst; lia.
Qed.

Lemma finalize_loop_max score scores n level best_level best_score : (∀ i, (i < n)%nat → score (level + i)%nat = Ok (scores (level + i)%nat)) →
  ∃ l s, finalize_loop score n level best_level best_score = Ok (l, s) ∧
    (l = best_level ∧ s = best_score ∨ (level ≤ l < level + n)%nat ∧ s = scores l ∧ SFltb best_score s = true) ∧
    ∀ i, (i < n)%nat → SFltb s (scores (level + i)%nat) = false.
Proof.
  revert level best_level best_score. induction n as [|n IH]; intros level bl bs Hsc; cbn [finalize_loop].
  { exists bl, bs. split_and!; [done|by left|lia]. }
  pose proof (Hsc 0%nat ltac:(lia)) as Hs0. rewrite Nat.add_0_r in Hs0. rewrite Hs0, Ok_bind.
  assert (∀ i, (i < n)%nat → score (S level + i)%nat = Ok (scores (S level + i)%nat)) as Hsc'.
  { intros i Hi. specialize (Hsc (S i) ltac:(lia)). by replace (level + S i)%nat with (S level + i)%nat in Hsc by lia. }
  destruct (SFltb bs (scores level)) eqn:E.
  - destruct (IH (S level) level (scores level) Hsc') as (l & s & -> & Hb & Hmax). exists l, s. split; [done|].
    assert (SFltb s (scores level) = false) as Hl.
    { destruct Hb as [[-> ->]|(_ & -> & Hlt)]; [apply SFltb_irrefl|]. destruct (SFltb (scores l) (scores level)) eqn:E2; [|done].
      by rewrite <- (SFltb_irrefl (scores level)), (SFltb_trans _ _ _ Hlt E2). }
    split.
    + right. destruct Hb as [[-> ->]|(? & -> & Hlt)]; [split_and!; [lia|lia|done|done]|]. split_and!; [lia|lia|done|by eapply SFltb_trans].
    + intros [|i] Hi; [by rewrite Nat.add_0_r|]. replace (level + S i)%nat with (S level + i)%nat by lia. apply Hmax. lia.
  - destruct (IH (S level) bl bs Hsc') as (l & s & -> & Hb & Hmax). exists l, s. split; [done|].
    split; [destruct Hb as [?|(? & ? & ?)]; [by left|right; split_and!; [lia|lia|done|done]]|].
    intros [|i] Hi; [|replace (level + S i)%nat with (S level + i)%nat by lia; apply Hmax; lia]. rewrite Nat.add_0_r.
    destruct Hb as [[-> ->]|(_ & -> & Hlt)]; [done|]. destruct (SFltb (scores l) (scores level)) eqn:E2; [|done]. by rewrite (SFltb_trans _ _ _ Hlt E2) in E.
Qed.

(** [finalize] chooses a level whose score no other level exceeds; a version in which every
    score is zero gets level 0 and score zero. *)
Lemma finalize_maximal ck l0 max_bytes max_levels files (scores : nat → spec_float) :
  (∀ i, (i < max_levels)%nat → level_score ck l0 max_bytes files i = Ok (scores i)) →
  ∃ level s, finalize ck l0 max_bytes max_levels files = Ok (level, f32_of_f64 s) ∧
    (level = 0%nat ∧ s = S754_zero false ∨ (level < max_levels)%nat ∧ s = scores level) ∧
    ∀ i, (i < max_levels)%nat → SFltb s (scores i) = false.
Proof.
  intros Hsc. unfold finalize. destruct (finalize_loop_max (level_score ck l0 max_bytes files) scores max_levels 0 0 (S754_zero false)) as (l & s & -> & Hb & Hmax).
  { intros i Hi. by apply Hsc. }
  exists l, s. rewrite Ok_bind. split_and!; [done| |by intros i Hi; apply Hmax]. destruct Hb as [[-> ->]|(? & -> & _)]; [by left|right; split; [lia|done]].
Qed.
End Score.

(** With up to 40 files on level 0 and a threshold of up to 16, the score reaches one
    exactly from the threshold on and exceeds it above: the rounding of the division and of
    the cast to [f32] does not matter. *)
Lemma level0_trigger_exact (n t : nat) : (n ≤ 40)%nat → (1 ≤ t ≤ 16)%nat →
  let score := f32_of_f64 (f64_div (f64_of (Z.of_nat n)) (f64_of (Z.of_nat t))) in
  score_reaches_one score = (t <=? n)%nat ∧ score_above_one score = (t <? n)%nat.
Proof.
  intros Hn Ht. assert (forallb (λ n, forallb (λ t,
    let score := f32_of_f64 (f64_div (f64_of (Z.of_nat n)) (f64_of (Z.of_nat t))) in
    Bool.eqb (score_reaches_one score) (t <=? n)%nat && Bool.eqb (score_above_one score) (t <? n)%nat) (seq 1 16)) (seq 0 41) = true) as Hall by (vm_compute; reflexivity).
  rewrite forallb_forall in Hall. specialize (Hall n ltac:(apply in_seq; lia)). cbv beta in Hall. rewrite forallb_forall in Hall.
  specialize (Hall t ltac:(apply in_seq; lia)). cbv beta zeta in Hall. apply andb_true_iff in Hall as [H1%eqb_prop H2%eqb_prop]. done.
Qed.

(** A level exactly at its limit: [pick_compaction] would compact it, but
    [needs_compaction] does not ask for it. *)
Example score_one_idle :
  (r ← finalize true 4 (λ _, Ok 100) 3 [replicate 4 (sample_file 1 10 [1] [2]); []; []]; Ok (size_compaction r, score_above_one r.2)) = Ok (Some 0%nat, false).
Proof. vm_compute. reflexivity. Qed.
(** The cast to [f32] rounds the score of a level one byte below its limit up to one. *)
Example score_rounds_up :
  (r ← finalize true 4 (λ _, Ok (2 ^ 26)) 2 [[]; [sample_file 1 (2 ^ 26 - 1) [1] [2]]]; Ok (size_compaction r)) = Ok (Some 1%nat).
Proof. vm_compute. reflexivity. Qed.
(** The last level has a score too, and [pick_compaction] panics when it is chosen. *)
Example last_level_chosen :
  let files := [[]; [sample_file 1 101 [1] [2]]] in
  (r ← finalize true 4 (λ _, Ok 100) 2 files; Ok (size_compaction r)) = Ok (Some 1%nat) ∧
  pick_compaction (B := unit) true bytewise 2 1000 (mkVersionState files (Some 1%nat) None) [ikey_default; ikey_default] = Panic.
Proof. vm_compute. done. Qed.
(** When the compaction pointer of level 1 is past its files, [pick_compaction] starts a
    compaction of level 1 from a file of level 0. *)
Example pick_wraps_to_level0 :
  let files := [[sample_file 7 10 [1] [9]]; [sample_file 1 10 [1] [2]]; []; []] in
  match pick_compaction (B := unit) true bytewise 4 1000 (mkVersionState files (Some 1%nat) None) [ikey_default; mkIKey (ikey [5] 1 Value); ikey_default; ikey_default] with
  | Ok (PickedSome c _) => Some (cp_level c, fm_number <$> ci_base (cp_inputs c))
  | _ => None
  end = Some (1%nat, [7]).
Proof. vm_compute. reflexivity. Qed.
